(* ===== verification/_CoqProject ===== *)
-Q . S2P
Prelude.v
Text.v
Utf8.v
Framework.v
Civ.v
Client.v
Tcp.v
Udp.v
Serial.v
SerialPort.v
Rfc2217.v
RemotePort.v
Ring.v
LocalChannel.v
Completion.v
Broker.v
BrokerSession.v
Diagnostics.v
Server.v
Morse.v
Score.v
Assign.v
Unordered.v
Stats.v
Timing.v
Floats.v
Tables.v
World.v
Draws.v
Callsign.v
WorldFacts.v
CallsignFacts.v
Scenario.v
Qso.v
Encodes.v
QsoFacts.v
QsoTheorems.v
Synth.v
Decoder.v
DecoderFacts.v
DecoderLock.v
DecoderTheorems.v
Band.v
Capabilities.v
NativeTypes.v
Layout.v
Installation.v
Panorama.v
Lanes.v
Fixtures.v
NativeMessages.v
NativeFrames.v
NativeSession.v
NativeServer.v
NativeClient.v
Register.v
CwSupervisor.v
CwChunks.v
CwSafety.v
CwTheorems.v
Rigctl.v
CommandLine.v
Signals.v
RtlSdr.v
RtlSdrTheorems.v
AudioStream.v
AudioTheorems.v
Readouts.v
Shared.v
CwExamples.v
Host.v
HostExamples.v
CwPanel.v
