(* ===== verification/Prelude.v ===== *)
(** * radio-cat-rs: a verification of its core

    radio-cat-rs drives amateur radios over CAT, the serial command protocols
    of Kenwood, Yaesu and Icom.  A server owns the radio and shares it: a
    broker serialises everybody's commands onto one session; listeners bring
    the commands in over TCP, UDP, rigctl and a native protocol; a supervisor
    lets a remote console transmit CW within limits it enforces.  Around that
    are a Morse trainer with its decoder, the sources of spectrum and audio
    frames, and what the consoles decide before anything is drawn.

    ** The parts and the files that model them

    - [Prelude] (this file): results and the [let?] notation, bytes as
      [Byte.byte], big-endian integers, machine integers.  [Text] and [Utf8]:
      what the sources use of Rust's [char], [str], [from_utf8] and number
      formatting.
    - [Framework] (cat-framework/src/cat.rs, wire_format.rs): command forms
      and tables, [CommandTable::parse] ([parse], [classify]),
      [ResponseBuilder], [CatFramework::process_frame], and the trait
      [CatWireFormat] as a type class with the laws its clients need
      ([WireFormatLaws]).  [AsciiLineFormat] and, in [Civ]
      (cat-framework/src/civ.rs), [CivFormat] are its instances.
    - [Client] (cat-client/src/client.rs): [CatClient] over the class
      [CatSession] (cat-transport-core/src/session.rs).
    - [Tcp] and [Udp] (cat-transport-tcp, cat-transport-udp: codec.rs and
      session.rs): the two network sessions.  monoio's stream is the class
      [TcpStream] with the laws [TcpStreamLaws]; the network of a UDP session
      is the list of what arrives at its socket.
    - [Serial] (cat-transport-serial/src/session.rs, with the trait of
      cat-transport-core/src/transport.rs): a session over a byte transport,
      the class [Transport] with [TransportLaws].  [SerialPort]
      (cat-transport-serial/src/io_uring.rs, config.rs, baud.rs): the Linux
      port's loops over the kernel's terminal, the class [Tty].
    - [Rfc2217] (cat-transport-rfc2217/src/codec.rs, server.rs): a serial port
      over Telnet, its streaming decoder and the server's half of a
      connection, with the DTR and RTS lines that key a transmitter.
      [RemotePort] (port.rs of the same crate): the client's half, a transport
      over the connection, with its reader thread.
    - [Ring] (cat-signal-audio/src/ring.rs): the audio input's ring buffer.
    - [LocalChannel], [Broker], [Server] (cat-server/src/local_channel.rs;
      broker.rs and release.rs; registry.rs, dedup.rs, udp.rs and tcp.rs): the
      queue and reply slots, the ordered worker with its handles and release
      lines, and the listeners.  [BrokerSession]
      (cat-server/src/broker_session.rs): a session through the broker.
      [Completion] (cat-transport-core/src/completion.rs): the reply slot
      between threads, one step per critical section.
    - [Morse], [Timing] (cat-morse/src/codec.rs; rng.rs and timing.rs): the
      code table and tokenizer, the seeded keying with its binary64
      arithmetic.
    - [Score], [Assign], [Unordered], [Stats] (cat-morse/src/score.rs): how a
      copy is read, aligned with what was sent, and scored; the Hungarian and
      the greedy assignment; scoring a pileup in any order; the statistics of
      each unit.
    - [Capabilities] (cat-framework/src/capabilities.rs): what a radio model
      says of itself.  [NativeTypes] (cat-native/src/lib.rs, server.rs): the
      vocabulary the supervisor shares with the native protocol.
    - [Layout], [Installation] (cat-layout/src; cat-framework/src/installation.rs
      and the vocabulary of cat-signal): the panel tree and its solver, and what
      a server says of the station.  [NativeMessages], [NativeFrames],
      [NativeSession] (cat-native/src/lib.rs): messages, frames and the checks
      of a console's commands; [NativeServer] (cat-native/src/server.rs) and
      [NativeClient] (cat-native/src/client.rs): the two ends of a console's
      connection.  JSON is a parameter with its round-trip law.
    - [CwSupervisor] (cat-rigctl/src/native_bridge/cw.rs): the CW supervisor,
      every method a function on its state record.  [CwChunks] is about how it
      cuts a message, [Register] states the read, write, verify and restore
      discipline of one radio setting, [CwSafety] the invariant of the
      supervisor in a closed loop with a radio, [CwTheorems] its promises,
      [CwExamples] runs that reach the states they speak of.
    - [Rigctl] (cat-rigctl/src/protocol.rs, rigctl.rs, ptt_gate.rs, the trait
      of lib.rs): the rigctld bridge.  The radio is the class [RigctlRadio];
      the PTT gate is an instance of it over the supervisor's slot.
    - [Shared] (cat-rigctl/src/native_bridge.rs, cached.rs): the state cache
      with its generations, the command queue, the cached radio.  [Host]
      (native_bridge.rs): the shared CW state, what consoles ask of it, the
      notices, and the pump cycle over the class [NativeRadio]; [HostExamples]
      runs it.
    - [Floats], [Tables], [World], [Draws], [Callsign], [Scenario], [Qso],
      [Encodes] with [WorldFacts], [CallsignFacts], [QsoFacts], [QsoTheorems]
      (cat-morse/src/scenario: data.rs, world.rs, callsign.rs, mod.rs, qso.rs):
      the tables of the world, the random draws as a monad over the generator,
      the grammar of calls, and the builder of practice contacts.  [Synth] and
      [Band] (cat-morse/src/synth.rs, dsp.rs; scenario/band.rs): a script made
      audible, sample by sample.  [Decoder], [DecoderFacts], [DecoderLock],
      [DecoderTheorems] (decoder.rs, dsp.rs): samples back to text.
    - [Fixtures] (cat-framework/src/capabilities_fixtures.rs), [Diagnostics]
      (cat-diagnostics/src/engine.rs): two radios described in full, and the
      run that probes a radio's commands.
    - [Panorama], [Lanes], [CommandLine], [CwPanel], [Readouts] (cat-ui/src:
      spectrum.rs, spectrum_map.rs, spectrum_trace.rs; lanes.rs; command.rs,
      quick.rs, workspace.rs, band.rs; cw.rs; format.rs, meter.rs, af.rs,
      retune.rs): what a console decides without drawing.
      [CommandLine] is joined to [NativeSession], [CwPanel] to [Host].
    - [Signals] (cat-signal/src/lib.rs, fake.rs), [RtlSdr] with
      [RtlSdrTheorems] (cat-signal-rtlsdr/src): settings, and an SDR on a
      radio's IF, the transform and the driver as the classes [Sdr] and
      [Driver].  [AudioStream] with [AudioTheorems] (cat-signal-audio/src:
      pcm.rs, dsp.rs, stream.rs, sink.rs): audio in and out.

    Each operation of the code is one definition, under the code's name where
    Rocq allows it; state is passed explicitly, [Result] is [result], a panic
    or an exhausted loop bound is [None], [Duration] and [Instant] are
    nanoseconds.  What the code is interleaved with (other tasks, the radio,
    the network, the clock) is a step relation or an argument.

    ** What is shown

    - The CW supervisor, in every reachable state of the loop with a radio
      that may fail any exchange and do anything with a write, also one it
      acknowledges, while anybody may turn its knobs at any time: a settled
      supervisor has given the radio back, each setting at what it was or at
      what somebody else turned it to since; text is keyed only at the clamped
      power, unless somebody turned it; external PTT is refused while the radio
      has not been given back; after an abort the stop is next on the wire, if
      the exchange in flight is plainly answered; the watchdog stops an
      overlong send; a restore completes against an answering radio and is
      announced only when it is true; the bounded loop of [next_action] is
      never cut; chunks carry the text within their bounds.  Of the radio it is
      assumed that a reading is the value there is.
    - The CAT path: a frame is parsed as the query it could be, encoding and
      parsing agree for both wire formats, the client puts on the wire only
      what its table allows, the CI-V controller never takes its echo for an
      answer, BCD numbers survive.
    - The server: the broker implements a sequential one, whatever its
      handles do; dispatch touches the radio at most once per request and not
      at all for a refused one; a release, where the session offers release
      lines, waits neither for the queue nor for the exchange the worker is in
      the middle of, and does not disturb it; the channel loses no wake-up;
      every TCP frame gets one frame back; a completed UDP request is not
      executed again, within the cache's bound and if no copy was in flight.
    - The sessions: TCP frames survive any segmentation, UDP responses are
      never attributed to another request, the codecs are exact.  RFC 2217
      data reaches the host whole, however it is cut, and never moves a line;
      the lines are what following the events gives.
    - The rigctld bridge: a connection dispatches exactly the lines sent and
      answers them in order; only [T 1], [T 2] and [T 3] key; and one of them
      does only after the gate has looked at a supervisor that had given the
      radio back, which joins the gate to the supervisor's invariant.  The look
      and the call are two steps, and an arm may come between them.
    - The native protocol: a console's messages are answered once each and in
      order however the network cuts them; whatever bytes it sends, only
      commands its radio can carry out reach the host, and they are accepted
      exactly when the capabilities say so, the least IF shift apart.
    - The bridge host: however consoles, ends of waits, disconnections, knobs
      and a poisoned lock interleave with the pump, it is a run of the
      supervisor's loop, so that its promises hold of any radio whose readings
      are true and whose exchanges change no setting but the one they write
      ([NativeRadioLaws]); behind a poisoned lock the pump only stops.  A rigctl
      set is skipped only when a measurement says so, console sets counted too
      as far as the pump's cycles publish what they read; the queue keeps the
      last of each kind.
    - The serial link: a response belongs to the request just written, whatever
      was left in the port; the read loop ends; writes put the bytes out once;
      the drain waits the radio out; a default port does not raise DTR.  The
      remote port shows the far end every byte and line change it is asked for,
      in order, and a read of it hands out what arrived and never sleeps past
      its time-out.  The audio ring is a bounded queue.  The
      broker's session is transparent to answers that are not empty and do not
      look like its errors.  The completion slot delivers, and wakes
      a receiver that has registered.
    - Layout: panels stay inside the window, do not overlap, and cover it.
    - Scoring: the alignment is one no other edit betters, and a perfect copy
      scores no error; the Hungarian algorithm ends with a cheapest assignment,
      by its potentials, so that order-free scoring finds the pairing with the
      fewest errors; statistics add up in any order.
    - The trainer: a piece of a call is resolved by the longest prefix of the
      whole table; settings that pass their checks are neither refused nor do
      they panic, whatever is drawn, but for one family of calls, and a script
      made of them can be keyed; a call printed is
      read back; stations left out are never drawn.  Streamed audio is the
      whole rendering cut up, in range or not a number; a channel made of a
      script is there.  The decoder
      is safe on any samples, hears at each hop the last window and nothing
      else, writes text that can be sent again, and loses nothing when it locks
      on to a pitch.
    - The sources: every bin of a frame is a transform's bin exactly half a bin
      from the frequency the frame gives it, bins ascending in frequency also on
      a mirrored IF; frames of an rtl_tcp stream
      do not depend on how it is cut up; settings written with the bounds they
      were described with read back; the slots between threads account for
      every frame, so that a gap in the numbers is a loss of that size; playback
      is in order and within its bound; the output format is the best offered.
    - The consoles: no carrier is hidden by the projection or shown out of its
      place, a peak is held, the
      history is the most recent frames; a lane is a ledger of its commands;
      what can be typed is what the server accepts; the CW strip tells the
      truth about the supervisor; a frequency shown reads back, and a meter
      reads the same on both sides of a socket.  A diagnostic run only reads,
      and skips exactly what has neither of the two forms it can ask in.
    - Codecs: Morse text, tokens and element groups round trip; keyings
      alternate; truncation and concatenation of keyings mean what they say.

    Theorems that state behaviour at odds with a comment or a promise of the
    sources: [aborted_chunk_failure_loses_stop],
    [aborted_busy_keyer_delays_stop], [disarm_ticket_forgotten],
    [encode_bcd_wraps], [accepted_frame_raw_panics],
    [duplicate_in_flight_reexecuted], [dropped_receiver_strands_jobs],
    [least_if_shift_accepted], [broken_frame_wedges],
    [completion_loses_wake], [civ_exchange_returns_echo],
    [timed_out_arm_kept], [remote_stale_frame_answers],
    [armed_between_look_and_call], [console_set_then_rigctl_swallowed]; with them go the examples
    [error_reply_ends_like_a_frame], [chunking_shows_in_events],
    [resubscription_not_announced], [short_min_gets_a_part],
    [default_rail_is_roomy], [lost_answer_swallows_next_set],
    [drain_leaves_late_byte], [odd_read_shifts] and
    [response_read_as_error].  In the trainer, the sources and the consoles:
    [generate_panics_without_town], [ve7_activator_has_no_area],
    [interference_outlasts_over], [apply_trusts_caller],
    [open_network_writes_nothing], [interrupted_read_swaps],
    [no_line_sets_filter_width], [split_off_in_capitals],
    [watcher_shown_active], [owed_before_arm], [huge_level_renders_nan],
    [carrier_off_by_half_a_bin] and [addressed_query_skipped].

    ** Bounds

    Loops that are not structural take fuel and return [None] without enough:
    the tokenizer one unit per character ([tokenize_terminates]), a TCP read
    one per byte still wanted and per interruption, a connection one per frame
    and one for its end, a rigctl connection one per byte for a line and one
    per line, a copy being scored one per character, its trace one per unit of
    either text, the serial read loop its 64 bytes ([serial_execute_total]), the
    retries of a port one per nanosecond up to their deadline and one per byte,
    a drain four per byte on its way and three more; the theorems about them
    say that the result is there.  The 64 rounds of [next_action] and the 32
    steps of a pump are the code's own.  The draws' rejection loops, which the
    code does not bound, take the class [Fuel] and answer [Cut] without enough;
    the decoder's bank of bins takes fuel and answers [Unfinished]; the
    theorems about them hold for any fuel and say what is made unless it ran
    out (that draws are not thrown away for ever is a property of the generator
    that is not shown), or assume the bank was made.  A frame of an rtl_tcp stream takes two
    units per sample and one more.  The maths library is the class [Maths] (and
    part of [Sdr]): what is proved holds for any.  Sorting in the decoder leaves
    the place of a NaN open in the code; here it is an insertion sort, and the
    sample counters of the decoder and the renderer do not wrap.  Identifiers wrap at 64
    bits; where a theorem needs them distinct it says for how many.

    ** Not modelled

    Kernel and executor I/O (sockets, opening devices, sleeping, wakers beyond
    the flag that one is set), the Windows backends, which repeat the modelled
    listeners and sessions on threads, the sound library's calls in
    cat-signal-audio (capture.rs, playback.rs), the synthetic band that paints
    test pictures (cat-signal/src/synthetic.rs), the two renderers (cat-ui-egui,
    cat-ui-ratatui), the threads around the native client, the slots of the
    bridge that carry pictures and sound. *)

From Stdlib Require Export ZArith Lia Bool.
From Stdlib Require Export Strings.Byte Strings.Ascii Strings.String.
From stdpp Require Export base tactics decidable option list strings gmap.


Declare Scope cat_scope.
Delimit Scope cat_scope with cat.
Open Scope Z_scope.

(** ** Results: Rust's [Result<T, E>] *)

Inductive result (T E : Type) : Type :=
| Ok (v : T)
| Err (e : E).
Arguments Ok {T E} v.
Arguments Err {T E} e.

Definition result_bind {T U E} (r : result T E) (k : T -> result U E) : result U E :=
  match r with Ok v => k v | Err e => Err e end.
Definition map_err {T E F} (f : E -> F) (r : result T E) : result T F :=
  match r with Ok v => Ok v | Err e => Err (f e) end.
Definition result_map {T U E} (f : T -> U) (r : result T E) : result U E :=
  match r with Ok v => Ok (f v) | Err e => Err e end.
Definition ok_or {T E} (o : option T) (e : E) : result T E :=
  match o with Some v => Ok v | None => Err e end.
Definition is_ok {T E} (r : result T E) : bool :=
  match r with Ok _ => true | Err _ => false end.

Notation "'let?' x ':=' c 'in' k" := (result_bind c (fun x => k))
  (at level 10, x pattern, c at level 100, k at level 200) : cat_scope.
Open Scope cat_scope.

(** [if cond { return Err(e) }] *)
Definition refuse_if {E} (cond : bool) (e : E) : result () E := if cond then Err e else Ok tt.
Definition is_none {A} (o : option A) : bool := match o with None => true | _ => false end.

Lemma refuse_if_ok {E} b (e : E) : refuse_if b e = Ok tt <-> b = false.
Proof. by destruct b. Qed.

Lemma result_bind_ok {T U E} (r : result T E) (k : T -> result U E) v :
  result_bind r k = Ok v <-> exists x, r = Ok x /\ k x = Ok v.
Proof. destruct r; cbn; split; [eauto|intros (? & [= <-] & ?); done|done|by intros (? & ? & ?)]. Qed.

Lemma bind_unit_ok {U E} (r : result () E) (k : () -> result U E) v :
  result_bind r k = Ok v <-> r = Ok tt /\ k tt = Ok v.
Proof. rewrite result_bind_ok. split; [intros ([] & ? & ?); eauto | intros [? ?]; eauto]. Qed.

Lemma existsb_false_Forall {A} (f : A -> bool) l :
  existsb f l = false <-> Forall (fun x => f x = false) l.
Proof.
  induction l as [|x l IH]; cbn; [by split|].
  rewrite orb_false_iff, IH, Forall_cons. done.
Qed.

Lemma is_none_false {A} (o : option A) : is_none o = false <-> is_Some o.
Proof. destruct o; cbn; split; done. Qed.

(** ** Bytes: Rust's [u8] *)

Abbreviation bytes := (list byte).

#[export] Instance byte_eq_dec : EqDecision byte := Byte.byte_eq_dec.

(** The value of a byte, and [z as u8]. *)
Definition unsigned (b : byte) : Z := Z.of_N (Byte.to_N b).
Definition u8 (z : Z) : byte :=
  match Byte.of_N (Z.to_N (z mod 256)) with Some b => b | None => Byte.x00 end.

Lemma unsigned_range b : 0 <= unsigned b < 256.
Proof. unfold unsigned. pose proof (Byte.to_N_bounded b). lia. Qed.

Lemma u8_unsigned b : u8 (unsigned b) = b.
Proof.
  unfold u8. rewrite Z.mod_small by apply unsigned_range.
  unfold unsigned. rewrite N2Z.id. by rewrite Byte.of_to_N.
Qed.

Lemma unsigned_u8 z : unsigned (u8 z) = z mod 256.
Proof.
  unfold u8. pose proof (Z.mod_pos_bound z 256 ltac:(lia)) as Hz.
  destruct (Byte.of_N _) as [b|] eqn:E.
  - apply Byte.to_of_N in E. unfold unsigned. lia.
  - apply Byte.of_N_None_iff in E. lia.
Qed.

Lemma unsigned_u8_small z : 0 <= z < 256 -> unsigned (u8 z) = z.
Proof. intros. rewrite unsigned_u8. by apply Z.mod_small. Qed.

Lemma unsigned_inj a b : unsigned a = unsigned b -> a = b.
Proof. intros H. by rewrite <- (u8_unsigned a), H, u8_unsigned. Qed.

Lemma u8_inj_small a b : 0 <= a < 256 -> 0 <= b < 256 -> u8 a = u8 b -> a = b.
Proof. intros Ha Hb H. apply (f_equal unsigned) in H. by rewrite !unsigned_u8_small in H. Qed.

(** ASCII text as bytes: [b"..."] literals and [str::as_bytes]. *)
Definition as_bytes (s : string) : bytes := list_byte_of_string s.
Definition to_text (l : bytes) : string := string_of_list_byte l.

Lemma to_text_as_bytes s : to_text (as_bytes s) = s.
Proof. apply string_of_list_byte_of_string. Qed.
Lemma as_bytes_to_text l : as_bytes (to_text l) = l.
Proof. apply list_byte_of_string_of_list_byte. Qed.
Lemma as_bytes_app s t : as_bytes (s ++ t)%string = as_bytes s ++ as_bytes t.
Proof.
  unfold as_bytes, list_byte_of_string. induction s as [|c s IH]; [done|].
  change (String c s +:+ t) with (String c (s +:+ t)). cbn. by rewrite IH.
Qed.

(** ** Big-endian integers: [to_be_bytes] / [from_be_bytes] *)

(** [n]-byte big-endian encoding of the low [8 * n] bits of [z]. *)
Fixpoint to_be_bytes (n : nat) (z : Z) : bytes :=
  match n with
  | O => []
  | S m => u8 (z / 256 ^ Z.of_nat m) :: to_be_bytes m z
  end.

Fixpoint from_be_bytes_acc (acc : Z) (l : bytes) : Z :=
  match l with
  | [] => acc
  | b :: l => from_be_bytes_acc (acc * 256 + unsigned b) l
  end.
Definition from_be_bytes (l : bytes) : Z := from_be_bytes_acc 0 l.

Lemma length_to_be_bytes n z : length (to_be_bytes n z) = n.
Proof. induction n; cbn; congruence. Qed.

Lemma from_be_bytes_acc_spec l acc :
  from_be_bytes_acc acc l = acc * 256 ^ Z.of_nat (length l) + from_be_bytes l.
Proof.
  unfold from_be_bytes. revert acc. induction l as [|b l IH]; intros acc; cbn [from_be_bytes_acc length].
  - cbn. lia.
  - rewrite (IH (acc * 256 + unsigned b)), (IH (0 * 256 + unsigned b)).
    rewrite Nat2Z.inj_succ, Z.pow_succ_r by lia. lia.
Qed.

Lemma from_be_bytes_cons b l :
  from_be_bytes (b :: l) = unsigned b * 256 ^ Z.of_nat (length l) + from_be_bytes l.
Proof.
  unfold from_be_bytes at 1. cbn [from_be_bytes_acc].
  rewrite from_be_bytes_acc_spec. lia.
Qed.

Lemma pow256_pos n : 0 < 256 ^ Z.of_nat n.
Proof. apply Z.pow_pos_nonneg; lia. Qed.

Lemma from_be_bytes_range l : 0 <= from_be_bytes l < 256 ^ Z.of_nat (length l).
Proof.
  induction l as [|b l IH]; [cbn; lia|].
  rewrite from_be_bytes_cons. cbn [length].
  rewrite Nat2Z.inj_succ, Z.pow_succ_r by lia.
  pose proof (unsigned_range b). nia.
Qed.

Lemma from_to_be_bytes n z : from_be_bytes (to_be_bytes n z) = z mod 256 ^ Z.of_nat n.
Proof.
  induction n as [|n IH]; [by rewrite Z.mod_1_r|].
  cbn [to_be_bytes]. rewrite from_be_bytes_cons, length_to_be_bytes, unsigned_u8, IH.
  rewrite Nat2Z.inj_succ, Z.pow_succ_r by lia.
  pose proof (pow256_pos n).
  rewrite (Z.mul_comm 256), Z.rem_mul_r by lia. lia.
Qed.

Lemma from_to_be_bytes_small n z :
  0 <= z < 256 ^ Z.of_nat n -> from_be_bytes (to_be_bytes n z) = z.
Proof. intros. rewrite from_to_be_bytes. by apply Z.mod_small. Qed.

Lemma from_be_bytes_inj l1 l2 :
  length l1 = length l2 -> from_be_bytes l1 = from_be_bytes l2 -> l1 = l2.
Proof.
  revert l2. induction l1 as [|b l1 IH]; intros [|c l2] Hlen Hv; try done.
  rewrite !from_be_bytes_cons in Hv. cbn in Hlen. injection Hlen as Hlen.
  pose proof (from_be_bytes_range l1) as H1. pose proof (from_be_bytes_range l2) as H2.
  rewrite <- Hlen in Hv, H2. pose proof (pow256_pos (length l1)).
  assert (unsigned b = unsigned c) as Hbc by nia.
  f_equal; [by apply unsigned_inj|]. apply IH; [done|]. nia.
Qed.

Lemma to_from_be_bytes l : to_be_bytes (length l) (from_be_bytes l) = l.
Proof.
  apply from_be_bytes_inj; [apply length_to_be_bytes|].
  apply from_to_be_bytes_small, from_be_bytes_range.
Qed.

(** ** Machine integers *)

Definition u32_max : Z := 2 ^ 32 - 1.
Definition u64_max : Z := 2 ^ 64 - 1.
Definition wrapping_add_u64 (a b : Z) : Z := (a + b) mod 2 ^ 64.
Definition wrapping_add_u32 (a b : Z) : Z := (a + b) mod 2 ^ 32.
