(* ===== verification/Text.v ===== *)
(** * Text: Rust's [char] and [&str] as the sources use them

    A [char] is a Unicode scalar value, a [String] is the list of its
    scalars (the sources that work on text go through [chars()]).  The file
    models the [str] methods the sources call (whitespace splitting, trimming,
    joining, ASCII case folding) and the pieces of a formatted message. *)

From S2P Require Import Prelude.

Abbreviation char := Z (only parsing).
Abbreviation text := (list Z) (only parsing).

(** A string literal of the source (all of them are ASCII). *)
Definition txt (s : string) : text :=
  map (fun a => Z.of_N (N_of_ascii a)) (list_ascii_of_string s).
#[global] Arguments txt : simpl never.

Definition char_of (a : ascii) : char := Z.of_N (N_of_ascii a).
Definition space : char := 32.

(** [char::is_whitespace]: the Unicode White_Space property. *)
Definition is_whitespace (c : char) : bool :=
  ((9 <=? c) && (c <=? 13)) || (c =? 32) || (c =? 0x85) || (c =? 0xA0)
  || (c =? 0x1680) || ((0x2000 <=? c) && (c <=? 0x200A))
  || (c =? 0x2028) || (c =? 0x2029) || (c =? 0x202F) || (c =? 0x205F)
  || (c =? 0x3000).
#[global] Arguments is_whitespace : simpl never.

(** [char::to_ascii_uppercase] / [str::to_ascii_uppercase]. *)
Definition to_ascii_uppercase (c : char) : char :=
  if (97 <=? c) && (c <=? 122) then c - 32 else c.
Definition to_ascii_uppercase_str (t : text) : text := map to_ascii_uppercase t.

(** [str::eq_ignore_ascii_case]: equal up to ASCII case. *)
Definition eq_ignore_ascii_case (a b : text) : bool :=
  bool_decide (to_ascii_uppercase_str a = to_ascii_uppercase_str b).

(** [char::len_utf8], for the byte offsets of [char_indices]. *)
Definition len_utf8 (c : char) : Z :=
  if c <? 0x80 then 1 else if c <? 0x800 then 2 else if c <? 0x10000 then 3 else 4.

(** [str::split_whitespace], collected. *)
Fixpoint split_whitespace_from (cur t : text) : list text :=
  match t with
  | [] => match cur with [] => [] | _ => [cur] end
  | c :: t =>
      if is_whitespace c then
        match cur with
        | [] => split_whitespace_from [] t
        | _ => cur :: split_whitespace_from [] t
        end
      else split_whitespace_from (cur ++ [c]) t
  end.
Definition split_whitespace (t : text) : list text := split_whitespace_from [] t.

(** [[String]::join(" ")]. *)
Fixpoint join_space (ws : list text) : text :=
  match ws with
  | [] => []
  | [w] => w
  | w :: ws => w ++ space :: join_space ws
  end.

(** [str::trim]. *)
Fixpoint trim_start (t : text) : text :=
  match t with
  | [] => []
  | c :: t' => if is_whitespace c then trim_start t' else t
  end.
Definition trim_end (t : text) : text := rev (trim_start (rev t)).
Definition trim (t : text) : text := trim_end (trim_start t).

(** A word: not empty, no whitespace inside. *)
Definition is_word (w : text) : Prop := w <> [] /\ Forall (fun c => is_whitespace c = false) w.

(** ** Messages

    [format!] as the list of its literal and argument pieces: enough to tell
    any two messages apart without rendering floating point. *)

Inductive piece : Type :=
| PStr (s : string)        (** a literal *)
| PText (t : text)         (** [{}] of a string *)
| PInt (z : Z)             (** [{}] of an integer *)
| PSecs1 (ns : Z)          (** [{:.1}] of [as_secs_f64()] *)
| PDebugChar (c : char)    (** [{:?}] of a char *)
| PDebugStr (t : text)     (** [{:?}] of a string *)
| PDebugDur (ns : Z).      (** [{:?}] of a [Duration] *)

Abbreviation message := (list piece) (only parsing).

#[export] Instance piece_eq_dec : EqDecision piece.
Proof. solve_decision. Defined.

(** ** Facts *)

Lemma split_whitespace_from_app cur w t :
  Forall (fun c => is_whitespace c = false) w ->
  split_whitespace_from cur (w ++ t) = split_whitespace_from (cur ++ w) t.
Proof.
  revert cur. induction w as [|c w IH]; intros cur Hw; cbn.
  - by rewrite app_nil_r.
  - apply Forall_cons in Hw as [Hc Hw]. rewrite Hc, IH by done. by rewrite <- app_assoc.
Qed.

Lemma split_whitespace_from_words cur t :
  Forall (fun c => is_whitespace c = false) cur ->
  Forall is_word (split_whitespace_from cur t).
Proof.
  revert cur. induction t as [|c t IH]; intros cur Hcur; cbn.
  - destruct cur; constructor; [|constructor]. by split.
  - destruct (is_whitespace c) eqn:Hc.
    + destruct cur; [by apply IH|]. constructor; [by split|]. by apply IH.
    + apply IH, Forall_app. by split; [|constructor].
Qed.

Lemma split_whitespace_words t : Forall is_word (split_whitespace t).
Proof. by apply split_whitespace_from_words. Qed.

Lemma split_whitespace_word w : is_word w -> split_whitespace w = [w].
Proof.
  intros [Hne Hw]. unfold split_whitespace.
  rewrite <- (app_nil_r w) at 1. rewrite split_whitespace_from_app by done.
  by destruct w.
Qed.

Lemma split_join_space ws : Forall is_word ws -> split_whitespace (join_space ws) = ws.
Proof.
  induction ws as [|w ws IH]; [done|]. intros [Hw Hws]%Forall_cons.
  destruct ws as [|w' ws]; [by apply split_whitespace_word|].
  change (join_space (w :: w' :: ws)) with (w ++ space :: join_space (w' :: ws)).
  destruct Hw as [Hne Hw]. unfold split_whitespace.
  rewrite split_whitespace_from_app by done. cbn [split_whitespace_from app].
  change (is_whitespace space) with true. cbn match.
  destruct w as [|c w]; [done|]. cbn [app].
  f_equal. by apply IH.
Qed.

Lemma is_whitespace_printable c : 33 <= c <= 126 -> is_whitespace c = false.
Proof.
  intros. unfold is_whitespace. rewrite !orb_false_iff, !andb_false_iff, !Z.eqb_neq, !Z.leb_gt. lia.
Qed.

Lemma to_ascii_uppercase_whitespace c :
  is_whitespace (to_ascii_uppercase c) = is_whitespace c.
Proof.
  unfold to_ascii_uppercase. destruct ((97 <=? c) && (c <=? 122)) eqn:E; [|done].
  apply andb_true_iff in E as [H1%Z.leb_le H2%Z.leb_le].
  by rewrite !is_whitespace_printable by lia.
Qed.

Lemma is_word_upper w : is_word w -> is_word (to_ascii_uppercase_str w).
Proof.
  intros [Hne Hw]. split; [by destruct w|].
  apply Forall_map. eapply Forall_impl; [exact Hw|].
  intros c Hc. cbn. by rewrite to_ascii_uppercase_whitespace.
Qed.
