(* ===== verification/Utf8.v ===== *)
(** * Utf8: [core::str::from_utf8], [str::as_bytes] and decimal rendering

    The standard library's UTF-8 validation, as far as the sources use it: a
    byte slice decodes to its scalar values or is rejected. *)

From Stdlib Require Import Numbers.DecimalString.
From S2P Require Import Prelude Text.

(** A continuation byte's six bits. *)
Definition cont (b : byte) : option Z :=
  let v := unsigned b in
  if (0x80 <=? v) && (v <? 0xC0) then Some (v - 0x80) else None.

(** The first scalar of a byte slice and the rest of it: well-formed sequences
    only (no overlong forms, surrogates, or values above 10FFFF). *)
Definition decode_char (l : bytes) : option (char * bytes) :=
  match l with
  | [] => None
  | b0 :: l =>
      let v := unsigned b0 in
      if v <? 0x80 then Some (v, l)
      else if (0xC2 <=? v) && (v <? 0xE0) then
        match l with
        | b1 :: l => c1 ← cont b1; Some ((v - 0xC0) * 64 + c1, l)
        | _ => None
        end
      else if (0xE0 <=? v) && (v <? 0xF0) then
        match l with
        | b1 :: b2 :: l =>
            c1 ← cont b1; c2 ← cont b2;
            let c := (v - 0xE0) * 4096 + c1 * 64 + c2 in
            if (0x800 <=? c) && negb ((0xD800 <=? c) && (c <? 0xE000)) then Some (c, l) else None
        | _ => None
        end
      else if (0xF0 <=? v) && (v <? 0xF5) then
        match l with
        | b1 :: b2 :: b3 :: l =>
            c1 ← cont b1; c2 ← cont b2; c3 ← cont b3;
            let c := (v - 0xF0) * 262144 + c1 * 4096 + c2 * 64 + c3 in
            if (0x10000 <=? c) && (c <? 0x110000) then Some (c, l) else None
        | _ => None
        end
      else None
  end.

(** Each round consumes at least one byte. *)
Fixpoint from_utf8_fuel (fuel : nat) (l : bytes) : option text :=
  match l with
  | [] => Some []
  | _ =>
      match fuel with
      | O => None
      | S fuel => '(c, l) ← decode_char l; t ← from_utf8_fuel fuel l; Some (c :: t)
      end
  end.
Definition from_utf8 (l : bytes) : option text := from_utf8_fuel (length l) l.

Definition is_ascii (l : bytes) : bool := forallb (fun b => unsigned b <? 0x80) l.

Lemma from_utf8_fuel_ascii l : forall fuel,
  (length l <= fuel)%nat -> is_ascii l = true -> from_utf8_fuel fuel l = Some (map unsigned l).
Proof.
  induction l as [|b l IH]; intros fuel Hlen Ha; [by destruct fuel|].
  destruct fuel as [|fuel]; [cbn in Hlen; lia|]. cbn in Ha. apply andb_true_iff in Ha as [Hb Hl].
  cbn [from_utf8_fuel decode_char]. rewrite Hb. cbn. rewrite IH; [done|cbn in Hlen; lia|done].
Qed.

(** ASCII is UTF-8, byte for byte. *)
Lemma from_utf8_ascii l : is_ascii l = true -> from_utf8 l = Some (map unsigned l).
Proof. by apply from_utf8_fuel_ascii. Qed.

(** [{}] of an unsigned integer. *)
Definition show_dec (z : Z) : bytes := as_bytes (NilEmpty.string_of_uint (N.to_uint (Z.to_N z))).

Example show_dec_zero : show_dec 0 = as_bytes "0" /\ show_dec 1024 = as_bytes "1024".
Proof. split; reflexivity. Qed.

(** [str::parse::<u64>]: an optional sign, digits, in range. *)
Definition digit (b : byte) : option Z :=
  let v := unsigned b in if (48 <=? v) && (v <? 58) then Some (v - 48) else None.
Fixpoint parse_digits (acc : Z) (l : bytes) : option Z :=
  match l with
  | [] => Some acc
  | b :: l => d ← digit b; let acc := acc * 10 + d in
              if acc <=? u64_max then parse_digits acc l else None
  end.
Definition parse_u64 (l : bytes) : option Z :=
  match l with
  | [] => None
  | b :: l' =>
      if unsigned b =? 43 then match l' with [] => None | _ => parse_digits 0 l' end
      else parse_digits 0 l
  end.

(** [{:?}] of a string with no characters beyond ASCII. *)
Definition hex_digit (z : Z) : byte := u8 (if z <? 10 then z + 48 else z + 87).
Definition hex_digit_upper (z : Z) : byte := u8 (if z <? 10 then z + 48 else z + 55).
(** [{:02X}] of a byte. *)
Definition show_hex2 (b : byte) : bytes :=
  [hex_digit_upper (unsigned b / 16); hex_digit_upper (unsigned b mod 16)].
Definition debug_byte (b : byte) : bytes :=
  let v := unsigned b in
  if v =? 34 then [u8 92; u8 34] else if v =? 92 then [u8 92; u8 92]
  else if v =? 9 then [u8 92; u8 116] else if v =? 10 then [u8 92; u8 110]
  else if v =? 13 then [u8 92; u8 114] else if v =? 0 then [u8 92; u8 48]
  else if (v <? 32) || (v =? 127) then
    [u8 92; u8 117; u8 123] ++ (if v <? 16 then [hex_digit v] else [hex_digit (v / 16); hex_digit (v mod 16)])
    ++ [u8 125]
  else [b].
Definition debug_str (l : bytes) : bytes := u8 34 :: concat (map debug_byte l) ++ [u8 34].

(** [String::from_utf8_lossy]: each maximal invalid subpart becomes one
    U+FFFD. *)
Definition REPLACEMENT : char := 0xFFFD.

(** The length of the invalid subpart at the front of [l]: the longest prefix
    that could have started a well-formed sequence, or one byte. *)
Definition in_between (b : byte) (lo hi : Z) : bool := (lo <=? unsigned b) && (unsigned b <=? hi).
Definition second_ok (b0 b1 : byte) : bool :=
  let v := unsigned b0 in
  if v =? 0xE0 then in_between b1 0xA0 0xBF
  else if v =? 0xED then in_between b1 0x80 0x9F
  else if v =? 0xF0 then in_between b1 0x90 0xBF
  else if v =? 0xF4 then in_between b1 0x80 0x8F
  else in_between b1 0x80 0xBF.
Definition invalid_len (l : bytes) : nat :=
  match l with
  | b0 :: b1 :: l =>
      let v := unsigned b0 in
      if (0xE0 <=? v) && (v <? 0xF0) && second_ok b0 b1 then 2
      else if (0xF0 <=? v) && (v <? 0xF5) && second_ok b0 b1 then
        match l with
        | b2 :: _ => if in_between b2 0x80 0xBF then 3 else 2
        | [] => 2
        end
      else 1
  | _ => 1
  end.

Fixpoint from_utf8_lossy_fuel (fuel : nat) (l : bytes) : text :=
  match fuel, l with
  | _, [] => []
  | O, _ => []
  | S fuel, _ =>
      match decode_char l with
      | Some (c, l) => c :: from_utf8_lossy_fuel fuel l
      | None => REPLACEMENT :: from_utf8_lossy_fuel fuel (drop (invalid_len l) l)
      end
  end.
Definition from_utf8_lossy (l : bytes) : text := from_utf8_lossy_fuel (length l) l.

Lemma from_utf8_lossy_fuel_valid fuel : forall l t,
  from_utf8_fuel fuel l = Some t -> from_utf8_lossy_fuel fuel l = t.
Proof.
  induction fuel as [|fuel IH]; intros [|b l] t; [by intros [= <-]|done|by intros [= <-]|].
  cbn [from_utf8_fuel from_utf8_lossy_fuel].
  destruct (decode_char (b :: l)) as [[c l']|]; [|done]. cbn.
  destruct (from_utf8_fuel fuel l') as [t'|] eqn:E; [|done]. cbn. intros [= <-].
  f_equal. by apply IH.
Qed.

(** A valid slice loses nothing. *)
Lemma from_utf8_lossy_valid l t : from_utf8 l = Some t -> from_utf8_lossy l = t.
Proof. apply from_utf8_lossy_fuel_valid. Qed.
