(* ===== verification/Framework.v ===== *)
(** * Framework: the CAT engine (cat-framework/src/cat.rs and wire_format.rs)

    Command tables, the parser that classifies a frame, the response builder
    and the frame processor, generic over a wire format.  The wire format is a
    type class with the law its clients rely on; [AsciiLineFormat] is the
    Kenwood/Yaesu instance, and [Civ] holds the Icom one. *)

From S2P Require Import Prelude Text Utf8.

Inductive CommandOperation : Type := Query | Set_ | Action | Response.
#[export] Instance CommandOperation_eq_dec : EqDecision CommandOperation.
Proof. solve_decision. Defined.

Record CommandForm : Type := mk_CommandForm {
  operation : CommandOperation; min_len : nat; max_len : nat; form_selector_read : bool }.

Definition fixed (op : CommandOperation) (len : nat) : CommandForm := mk_CommandForm op len len false.
Definition variable_form (op : CommandOperation) (lo hi : nat) : CommandForm :=
  mk_CommandForm op lo hi false.
Definition selector_read (len : nat) : CommandForm := mk_CommandForm Set_ len len true.

Definition matches (f : CommandForm) (op : CommandOperation) (len : nat) : bool :=
  bool_decide (f.(operation) = op) && ((f.(min_len) <=? len) && (len <=? f.(max_len)))%nat.

Inductive ParseError : Type :=
| MissingTerminator
| InvalidSyntax
| UnknownCommand (code : bytes)
| UnsupportedOperation (code : bytes)
| InvalidParameterWidth (code : bytes) (len : nat).

(** The [#[error]] text of a parse error. *)
Definition show_parse_error (e : ParseError) : bytes :=
  match e with
  | MissingTerminator => as_bytes "missing CAT frame terminator"
  | InvalidSyntax => as_bytes "invalid CAT frame syntax"
  | UnknownCommand c => as_bytes "unknown command: " ++ c
  | UnsupportedOperation c => as_bytes "unsupported operation for command: " ++ c
  | InvalidParameterWidth c n =>
      as_bytes "invalid parameter width for " ++ c ++ as_bytes ": " ++ show_dec (Z.of_nat n)
  end.

Inductive ProtocolErrorKind : Type :=
| PeUnknownCommand | PeInvalidSyntax | PeInvalidParameter | PeUnsupportedOperation.

Definition protocol_error_from (e : ParseError) : ProtocolErrorKind :=
  match e with
  | UnknownCommand _ => PeUnknownCommand
  | UnsupportedOperation _ => PeUnsupportedOperation
  | InvalidParameterWidth _ _ => PeInvalidParameter
  | MissingTerminator | InvalidSyntax => PeInvalidSyntax
  end.

(** ** Command definitions *)

Section Definitions.
  Context {C Code : Type}.

Record CommandDefinition : Type := mk_CommandDefinition {
  id : C;
  code : Code;
  name : string;
  description : string;
  query_forms : list CommandForm;
  set_forms : list CommandForm;
  action_forms : list CommandForm;
  response_forms : list CommandForm;
  readable : bool;
  writable : bool }.

Definition supports (d : CommandDefinition) (op : CommandOperation) (param_len : nat) : bool :=
  let forms := match op with
               | Query => d.(query_forms) | Set_ => d.(set_forms)
               | Action => d.(action_forms) | Response => d.(response_forms)
               end in
  existsb (fun form => matches form op param_len) forms.

Definition is_readable (d : CommandDefinition) : bool := d.(readable).
Definition is_writable (d : CommandDefinition) : bool := d.(writable).
Definition is_selector_read (d : CommandDefinition) (param_len : nat) : bool :=
  existsb (fun form => matches form Set_ param_len && form.(form_selector_read)) d.(set_forms).

(** [CommandTable]: the static definitions. *)
Definition CommandTable : Type := list CommandDefinition.

Definition table_find `{!EqDecision Code} (t : CommandTable) (c : Code) : option CommandDefinition :=
  List.find (fun d => bool_decide (d.(code) = c)) t.

Lemma table_find_code `{!EqDecision Code} (t : CommandTable) c d :
  table_find t c = Some d -> d.(code) = c /\ table_find t d.(code) = Some d.
Proof.
  intros H. pose proof H as Hf. apply List.find_some in H as [_ H]. apply bool_decide_eq_true in H.
  by rewrite H.
Qed.

Record CommandRequest : Type := mk_CommandRequest {
  req_id : C; req_code : Code; req_operation : CommandOperation; parameters : bytes }.
End Definitions.
Arguments CommandDefinition : clear implicits.
Arguments CommandTable : clear implicits.
Arguments CommandRequest : clear implicits.

(** ** Wire formats *)

(** [CatWireFormat]. *)
Class CatWireFormat (F : Type) : Type := {
  Code : Type;
  Code_eq_dec :: EqDecision Code;
  debug_code : Code -> bytes;
  find_command : F -> forall C, CommandTable C Code -> bytes ->
                 result (CommandDefinition C Code * bytes) ParseError;
  encode_request : F -> Code -> bytes -> bytes }.
Arguments find_command {F _} f {C} table frame.

(** [FrameScanner]. *)
Class FrameScanner (F : Type) : Type := { frame_complete : F -> bytes -> bool }.

(** What a wire format promises the engine and the client: a definition's own
    encoding is read back as that definition with the same parameters, where
    [addressable] says the table does not give the code another meaning; and
    what a frame resolves to is what the table has under its code. *)
Class WireFormatLaws (F : Type) `{!CatWireFormat F} : Type := {
  addressable : F -> forall C, CommandTable C Code -> CommandDefinition C Code -> bytes -> Prop;
  find_encode : forall (f : F) C (t : CommandTable C Code) d params,
    addressable f C t d params -> find_command f t (encode_request f d.(code) params) = Ok (d, params);
  find_resolves : forall (f : F) C (t : CommandTable C Code) frame d params,
    find_command f t frame = Ok (d, params) -> table_find t d.(code) = Some d }.
Arguments addressable {F _ _} f {C} t d params.

Section Engine.
  Context {F : Type} `{!CatWireFormat F} {C : Type}.
  Implicit Types (f : F) (t : CommandTable C Code) (d : CommandDefinition C Code).

(** The classification of [CommandTable::parse]. *)
Definition classify d (params : bytes) : result CommandOperation ParseError :=
  let n := length params in
  let empty := match params with [] => true | _ => false end in
  if supports d Query n then Ok Query
  else if empty && supports d Action 0 then Ok Action
  else if supports d Set_ n then Ok Set_
  else if empty then Err (UnsupportedOperation (debug_code d.(code)))
  else Err (InvalidParameterWidth (debug_code d.(code)) n).

(** [CommandTable::parse]. *)
Definition parse t f (frame : bytes) : result (CommandRequest C Code) ParseError :=
  let? p := find_command f t frame in
  let '(d, params) := p in
  let? op := classify d params in
  Ok (mk_CommandRequest d.(id) d.(code) op params).

(** What [classify] does, branch by branch. *)
Lemma classify_spec d params :
  match classify d params with
  | Ok Query => supports d Query (length params) = true
  | Ok Action => params = [] /\ supports d Action 0 = true /\ supports d Query 0 = false
  | Ok Set_ => supports d Set_ (length params) = true /\ supports d Query (length params) = false
               /\ (params = [] -> supports d Action 0 = false)
  | Ok Response => False
  | Err (UnsupportedOperation c) =>
      c = debug_code d.(code) /\ params = []
      /\ forall op, op <> Response -> supports d op 0 = false
  | Err (InvalidParameterWidth c n) =>
      c = debug_code d.(code) /\ n = length params /\ params <> []
      /\ supports d Query n = false /\ supports d Set_ n = false
  | Err _ => False
  end.
Proof.
  unfold classify. destruct params as [|b params]; cbn [length andb].
  - destruct (supports d Query 0) eqn:Hq; [done|]. destruct (supports d Action 0) eqn:Ha; [done|].
    destruct (supports d Set_ 0) eqn:Hs; [auto|]. split_and!; try done. by intros [].
  - destruct (supports d Query _) eqn:Hq; [done|]. destruct (supports d Set_ _) eqn:Hs; [|auto].
    split_and!; done.
Qed.

(** A request that could be read as a query never reaches the radio as
    anything else: the parsed request names a definition of the table, carries
    the frame's parameters, and its operation is a query exactly when one of
    the command's query forms accepts their width. *)
Theorem parse_query_wins t f frame req :
  parse t f frame = Ok req ->
  exists d, find_command f t frame = Ok (d, req.(parameters))
    /\ req.(req_id) = d.(id) /\ req.(req_code) = d.(code)
    /\ (req.(req_operation) = Query <-> supports d Query (length req.(parameters)) = true).
Proof.
  unfold parse. intros Hp. destruct (find_command f t frame) as [[d params]|]; [|done]. cbn in Hp.
  pose proof (classify_spec d params) as Hc. destruct (classify d params) as [op|e]; [|done].
  cbn in Hp. injection Hp as <-. exists d. split_and!; [done..|].
  cbn [req_operation parameters]. destruct op.
  - by rewrite Hc.
  - destruct Hc as (_ & Hq & _). by rewrite Hq.
  - destruct Hc as (-> & _ & Hq). cbn [length]. by rewrite Hq.
  - done.
Qed.

Context `{!WireFormatLaws F}.

(** Encoding a command of the table and parsing the frame gives that
    command, its parameters unchanged, and the operation its forms declare. *)
Theorem parse_encode t f d params :
  addressable f t d params ->
  parse t f (encode_request f d.(code) params)
  = result_map (fun op => mk_CommandRequest d.(id) d.(code) op params) (classify d params).
Proof.
  intros Ha. unfold parse. rewrite find_encode by done. cbn.
  by destruct (classify d params).
Qed.
End Engine.

(** ** Responses *)

Inductive ResponseDisposition : Type :=
| ResponseWritten | NoResponse | ProtocolError (k : ProtocolErrorKind).

Record CommandOutcome (E : Type) : Type := mk_CommandOutcome {
  response : ResponseDisposition; events : list E }.
Arguments mk_CommandOutcome {E}.
Arguments response {E}.
Arguments events {E}.
Definition response_written {E} : CommandOutcome E := mk_CommandOutcome ResponseWritten [].
Definition no_response {E} : CommandOutcome E := mk_CommandOutcome NoResponse [].

Inductive ResponseBuildError : Type := AlreadyFinished.

(** [ResponseBuilder]: the caller's output buffer and whether it is finished. *)
Record ResponseBuilder : Type := mk_ResponseBuilder { output : bytes; finished : bool }.
Definition builder_new (out : bytes) : ResponseBuilder := mk_ResponseBuilder out false.

Definition push_bytes (b : ResponseBuilder) (l : bytes) : result ResponseBuilder ResponseBuildError :=
  if b.(finished) then Err AlreadyFinished
  else Ok (mk_ResponseBuilder (b.(output) ++ l) b.(finished)).
Definition write_frame (b : ResponseBuilder) (frame : bytes) : result ResponseBuilder ResponseBuildError :=
  let? b := push_bytes b frame in Ok (mk_ResponseBuilder b.(output) true).
Definition push_wire_value (b : ResponseBuilder) (value : bytes)
  : result ResponseBuilder ResponseBuildError :=
  if b.(finished) then Err AlreadyFinished
  else Ok (mk_ResponseBuilder (b.(output) ++ value) b.(finished)).
Definition semicolon : byte := ";"%byte.
Definition finish_response (b : ResponseBuilder) : result ResponseBuilder ResponseBuildError :=
  if b.(finished) then Err AlreadyFinished
  else Ok (mk_ResponseBuilder (b.(output) ++ [semicolon]) true).
Definition ends_with (l : bytes) (b : byte) : bool := bool_decide (last l = Some b).
Definition write_complete (b : ResponseBuilder) (r : bytes) : result ResponseBuilder ResponseBuildError :=
  if b.(finished) then Err AlreadyFinished
  else Ok (mk_ResponseBuilder (b.(output) ++ r) (ends_with r semicolon)).

(** ** Radios *)

(** [CatRadio]: a radio crate's state machine, with its table. *)
Record CatRadio (F : Type) `{!CatWireFormat F} (R C Event Error : Type) : Type := mk_CatRadio {
  command_table : CommandTable C Code;
  handle_command : R -> CommandRequest C Code -> ResponseBuilder ->
                   R * ResponseBuilder * result (CommandOutcome Event) Error;
  write_protocol_error : R -> ProtocolErrorKind -> ResponseBuilder ->
                         R * ResponseBuilder * result (CommandOutcome Event) Error }.
Arguments command_table {F _ R C Event Error}.
Arguments handle_command {F _ R C Event Error}.
Arguments write_protocol_error {F _ R C Event Error}.

Inductive CatFrameworkError (E : Type) : Type := FwParse (e : ParseError) | FwRadio (e : E).
Arguments FwParse {E}.
Arguments FwRadio {E}.

(** [CatFramework::process_frame]: the radio, the output buffer and the result. *)
Definition process_frame {F} `{!CatWireFormat F} {R C Event Error} (cat : CatRadio F R C Event Error)
    (f : F) (radio : R) (frame out : bytes)
  : R * bytes * result (CommandOutcome Event) (CatFrameworkError Error) :=
  let '(radio, b, r) :=
    match parse cat.(command_table) f frame with
    | Ok request => cat.(handle_command) radio request (builder_new out)
    | Err err => cat.(write_protocol_error) radio (protocol_error_from err) (builder_new out)
    end in
  (radio, b.(output), map_err FwRadio r).

(** ** The ASCII line format *)

Inductive AsciiLineFormat : Type := ascii_line.

(** [<[u8]>::strip_suffix(b";")]. *)
Definition strip_semicolon (frame : bytes) : option bytes :=
  match rev frame with
  | b :: r => if bool_decide (b = semicolon) then Some (rev r) else None
  | [] => None
  end.

Definition ascii_find_command {C} (table : CommandTable C bytes) (frame : bytes)
  : result (CommandDefinition C bytes * bytes) ParseError :=
  let? frame := ok_or (strip_semicolon frame) MissingTerminator in
  if (length frame <? 2)%nat then Err InvalidSyntax
  else
    let c := take 2 frame in
    let params := drop 2 frame in
    match from_utf8 c with
    | None => Err InvalidSyntax
    | Some _ => let? d := ok_or (table_find table c) (UnknownCommand c) in Ok (d, params)
    end.

Definition ascii_encode_request (c params : bytes) : bytes := c ++ params ++ [semicolon].
Definition ascii_frame_complete (buffer : bytes) : bool := ends_with buffer semicolon.

#[export] Instance ascii_format : CatWireFormat AsciiLineFormat := {|
  Code := bytes;
  debug_code := debug_str;
  find_command _ C table frame := ascii_find_command table frame;
  encode_request _ c params := ascii_encode_request c params |}.
#[export] Instance ascii_scanner : FrameScanner AsciiLineFormat := {|
  frame_complete _ buffer := ascii_frame_complete buffer |}.

Lemma strip_semicolon_spec l : strip_semicolon (l ++ [semicolon]) = Some l.
Proof.
  unfold strip_semicolon. rewrite rev_app_distr. cbn [rev app].
  rewrite bool_decide_eq_true_2 by done. by rewrite rev_involutive.
Qed.

(** A two-byte text code that the table gives to this definition first. *)
Definition ascii_addressable {C} (t : CommandTable C bytes) (d : CommandDefinition C bytes) : Prop :=
  length d.(code) = 2%nat /\ is_ascii d.(code) = true /\ table_find t d.(code) = Some d.

Lemma ascii_find_encode {C} (t : CommandTable C bytes) d params :
  ascii_addressable t d ->
  ascii_find_command t (ascii_encode_request d.(code) params) = Ok (d, params).
Proof.
  intros (Hlen & Ha & Hf). unfold ascii_find_command, ascii_encode_request.
  rewrite app_assoc, strip_semicolon_spec. cbn [ok_or result_bind].
  destruct (Nat.ltb_spec (length (code d ++ params)) 2) as [Hlt|_]; [rewrite length_app in Hlt; lia|].
  rewrite take_app_le, drop_app_ge by lia. rewrite <- Hlen, take_ge, Nat.sub_diag by lia.
  by rewrite (from_utf8_ascii _ Ha), Hf.
Qed.

Lemma ascii_find_resolves {C} (t : CommandTable C bytes) frame d params :
  ascii_find_command t frame = Ok (d, params) -> table_find t d.(code) = Some d.
Proof.
  unfold ascii_find_command. destruct (strip_semicolon frame) as [fr|]; [|done]. cbn [ok_or result_bind].
  destruct (length fr <? 2)%nat; [done|]. destruct (from_utf8 (take 2 fr)); [|done].
  destruct (table_find t (take 2 fr)) as [d'|] eqn:E; [|done]. intros [= <- <-].
  exact (proj2 (table_find_code _ _ _ E)).
Qed.

#[export] Instance ascii_laws : WireFormatLaws AsciiLineFormat := {|
  addressable _ C t d params := ascii_addressable t d;
  find_encode _ C t d params := ascii_find_encode t d params;
  find_resolves _ C t frame d params := ascii_find_resolves t frame d params |}.

(** ** Parameters of the ASCII format *)

(** [ParameterValues::raw]; [None] is the panic of its [expect]. *)
Definition raw (params : bytes) : option text := from_utf8 params.
Inductive ParameterAccessError : Type := InvalidUnsigned.
(** [ParameterValues::unsigned]. *)
Definition parameter_unsigned (params : bytes) : option (result Z ParameterAccessError) :=
  _ ← raw params;
  Some (ok_or (parse_u64 params) InvalidUnsigned).

(** A table with one settable command. *)
Definition example_definition : CommandDefinition nat (Code (F := AsciiLineFormat)) :=
  mk_CommandDefinition 0%nat (as_bytes "FA" : Code (F := AsciiLineFormat)) "Frequency" "VFO A frequency"
    [fixed Query 0] [fixed Set_ 11] [] [] true true.

Example parse_encode_example :
  addressable ascii_line [example_definition] example_definition (as_bytes "00014074000")
  /\ parse [example_definition] ascii_line
       (encode_request ascii_line example_definition.(code) (as_bytes "00014074000"))
     = Ok (mk_CommandRequest 0%nat example_definition.(code) Set_ (as_bytes "00014074000")).
Proof. vm_compute. auto. Qed.

(** The invariant [raw] relies on does not hold: the parser checks only the
    two bytes of the code, so it accepts a frame whose parameter is not UTF-8,
    and asking for that parameter as text panics. *)
Theorem accepted_frame_raw_panics :
  exists frame req, parse [example_definition] ascii_line frame = Ok req
    /\ req.(req_operation) = Set_ /\ raw req.(parameters) = None.
Proof.
  exists (as_bytes "FA" ++ repeat (u8 255) 11 ++ [semicolon]).
  eexists. split; [vm_compute; reflexivity|]. split; reflexivity.
Qed.

Lemma parse_query_wins_witness :
  exists d, find_command ascii_line [example_definition] (as_bytes "FA;") = Ok (d, [])
    /\ 0%nat = d.(id) /\ example_definition.(code) = d.(code)
    /\ (Query = Query <-> supports d Query 0 = true).
Proof.
  apply (parse_query_wins [example_definition] ascii_line (as_bytes "FA;")
    (mk_CommandRequest 0%nat example_definition.(code) Query [])). vm_compute. reflexivity.
Defined.

Lemma parse_encode_witness :
  parse [example_definition] ascii_line (encode_request ascii_line example_definition.(code) (as_bytes "00014074000"))
  = Ok (mk_CommandRequest 0%nat example_definition.(code) Set_ (as_bytes "00014074000")).
Proof.
  exact (parse_encode [example_definition] ascii_line example_definition (as_bytes "00014074000")
    (proj1 parse_encode_example)).
Defined.
