(* ===== verification/Civ.v ===== *)
(** * Civ: Icom CI-V (cat-framework/src/civ.rs)

    The addressed binary frames of a shared bus: telling the radio's answer
    from this controller's own echo, commands named by one or two bytes, and
    the packed BCD numbers. *)

From S2P Require Import Prelude Text Utf8 Framework.

Definition PREAMBLE : byte := u8 0xFE.
Definition END_OF_MESSAGE : byte := u8 0xFD.
Definition CIV_OK : byte := u8 0xFB.
Definition CIV_NG : byte := u8 0xFA.
Definition DEFAULT_CONTROLLER_ADDRESS : byte := u8 0xE0.

Definition CivCode : Type := byte * option byte.

Record CivFormat : Type := mk_CivFormat { radio : byte; controller : byte }.
Definition for_radio (r : byte) : CivFormat := mk_CivFormat r DEFAULT_CONTROLLER_ADDRESS.
Definition civ_default : CivFormat := for_radio (u8 0x88).

Record Envelope : Type := mk_Envelope { to : byte; from : byte; payload : bytes }.

(** [parse_envelope]. *)
Definition parse_envelope (frame : bytes) : option Envelope :=
  if (length frame <? 6)%nat then None
  else match frame with
       | p0 :: p1 :: to :: from :: _ =>
           if negb (bool_decide (p0 = PREAMBLE)) || negb (bool_decide (p1 = PREAMBLE)) then None
           else if negb (ends_with frame END_OF_MESSAGE) then None
           else
             let payload := drop 4 (take (length frame - 1) frame) in
             match payload with
             | [] => None
             | _ => Some (mk_Envelope to from payload)
             end
       | _ => None
       end.

Definition is_for_us (f : CivFormat) (frame : bytes) : bool :=
  match parse_envelope frame with
  | Some env => bool_decide (env.(to) = f.(controller)) && bool_decide (env.(from) = f.(radio))
  | None => false
  end.
Definition is_echo (f : CivFormat) (frame : bytes) : bool :=
  match parse_envelope frame with
  | Some env => bool_decide (env.(to) = f.(radio)) && bool_decide (env.(from) = f.(controller))
  | None => false
  end.

Definition code_bytes (c : CivCode) : bytes :=
  c.1 :: match c.2 with Some sub => [sub] | None => [] end.
Definition encode_response (f : CivFormat) (c : CivCode) (params : bytes) : bytes :=
  [PREAMBLE; PREAMBLE; f.(controller); f.(radio)] ++ code_bytes c ++ params ++ [END_OF_MESSAGE].
Definition encode_ok (f : CivFormat) : bytes :=
  [PREAMBLE; PREAMBLE; f.(controller); f.(radio); CIV_OK; END_OF_MESSAGE].
Definition encode_ng (f : CivFormat) : bytes :=
  [PREAMBLE; PREAMBLE; f.(controller); f.(radio); CIV_NG; END_OF_MESSAGE].

Definition civ_find_command {C} (table : CommandTable C CivCode) (frame : bytes)
  : result (CommandDefinition C CivCode * bytes) ParseError :=
  let? envelope := ok_or (parse_envelope frame) InvalidSyntax in
  match envelope.(payload) with
  | [] => Err InvalidSyntax
  | command :: rest =>
      let bare := let? d := ok_or (table_find table (command, None))
                            (UnknownCommand (match rest with
                               | sub :: _ => show_hex2 command ++ as_bytes " " ++ show_hex2 sub
                               | [] => show_hex2 command end)) in
                  Ok (d, rest) in
      match rest with
      | sub :: rest' =>
          match table_find table (command, Some sub) with
          | Some d => Ok (d, rest')
          | None => bare
          end
      | [] => bare
      end
  end.

Definition civ_encode_request (f : CivFormat) (c : CivCode) (params : bytes) : bytes :=
  [PREAMBLE; PREAMBLE; f.(radio); f.(controller)] ++ code_bytes c ++ params ++ [END_OF_MESSAGE].
Definition civ_frame_complete (buffer : bytes) : bool := ends_with buffer END_OF_MESSAGE.

(** [{:?}] of a code. *)
Definition debug_civ_code (c : CivCode) : bytes :=
  as_bytes "(" ++ show_dec (unsigned c.1) ++ as_bytes ", "
  ++ (match c.2 with Some s => as_bytes "Some(" ++ show_dec (unsigned s) ++ as_bytes ")"
                   | None => as_bytes "None" end) ++ as_bytes ")".

#[export] Instance civ_format : CatWireFormat CivFormat := {|
  Code := CivCode;
  debug_code := debug_civ_code;
  find_command _ C table frame := civ_find_command table frame;
  encode_request f c params := civ_encode_request f c params |}.
#[export] Instance civ_scanner : FrameScanner CivFormat := {|
  frame_complete _ buffer := civ_frame_complete buffer |}.

(** ** BCD *)

Fixpoint encode_bcd (value : Z) (n : nat) : bytes :=
  match n with
  | O => []
  | S n =>
      let low := value mod 10 in
      let v := value / 10 in
      let high := v mod 10 in
      u8 (Z.lor (Z.shiftl high 4) low) :: encode_bcd (v / 10) n
  end.
Definition encode_bcd_be (value : Z) (n : nat) : bytes := rev (encode_bcd value n).

(** One byte of either decoder's loop. *)
Definition bcd_digit_pair (b : byte) : option Z :=
  let high := Z.shiftr (unsigned b) 4 in
  let low := Z.land (unsigned b) 0x0F in
  if (9 <? high) || (9 <? low) then None else Some (high * 10 + low).
Fixpoint decode_bcd_loop (value : Z) (l : bytes) : option Z :=
  match l with
  | [] => Some value
  | b :: l => d ← bcd_digit_pair b; decode_bcd_loop (value * 100 + d) l
  end.
Definition decode_bcd_be (l : bytes) : option Z := decode_bcd_loop 0 l.
Definition decode_bcd (l : bytes) : option Z := decode_bcd_loop 0 (rev l).

(** ** Frames *)

Lemma ends_with_snoc l b c : ends_with (l ++ [b]) c = bool_decide (b = c).
Proof.
  unfold ends_with. rewrite last_snoc. apply bool_decide_ext. split; [by intros [= ->]|by intros ->].
Qed.

Lemma parse_envelope_frame a b pl :
  pl <> [] -> parse_envelope ([PREAMBLE; PREAMBLE; a; b] ++ pl ++ [END_OF_MESSAGE])
  = Some (mk_Envelope a b pl).
Proof.
  intros Hpl. unfold parse_envelope.
  assert (Hlen : (length ([PREAMBLE; PREAMBLE; a; b] ++ pl ++ [END_OF_MESSAGE]) = 5 + length pl)%nat).
  { rewrite !length_app. cbn. lia. }
  destruct (Nat.ltb_spec (length ([PREAMBLE; PREAMBLE; a; b] ++ pl ++ [END_OF_MESSAGE])) 6) as [Hlt|_].
  { rewrite Hlen in Hlt. destruct pl; [done|cbn in Hlt; lia]. }
  rewrite Hlen. replace (5 + length pl - 1)%nat with (4 + length pl)%nat by lia.
  rewrite (app_assoc _ pl), ends_with_snoc. cbn [app negb]. rewrite !bool_decide_eq_true_2 by done. cbn [negb orb].
  change (PREAMBLE :: PREAMBLE :: a :: b :: pl ++ [END_OF_MESSAGE])
    with (([PREAMBLE; PREAMBLE; a; b] ++ pl) ++ [END_OF_MESSAGE]).
  rewrite take_app_le by (rewrite length_app; cbn; lia).
  rewrite take_ge by (rewrite length_app; cbn; lia). cbn [app drop]. by destruct pl.
Qed.

Lemma code_bytes_nonempty c params : code_bytes c ++ params <> [].
Proof. by destruct c as [? []]. Qed.

Lemma civ_request_envelope f c params :
  parse_envelope (civ_encode_request f c params)
  = Some (mk_Envelope f.(radio) f.(controller) (code_bytes c ++ params)).
Proof.
  unfold civ_encode_request. rewrite (app_assoc (code_bytes c)).
  apply parse_envelope_frame, code_bytes_nonempty.
Qed.

Lemma civ_response_envelope f c params :
  parse_envelope (encode_response f c params)
  = Some (mk_Envelope f.(controller) f.(radio) (code_bytes c ++ params)).
Proof.
  unfold encode_response. rewrite (app_assoc (code_bytes c)).
  apply parse_envelope_frame, code_bytes_nonempty.
Qed.

(** On a bus where the radio and the controller have different addresses, a
    request is seen as this controller's echo and never as the radio's answer,
    an answer as the answer and never as the echo, and no frame at all is
    both. *)
Theorem echo_never_answer f c params frame :
  f.(radio) <> f.(controller) ->
  (is_echo f (civ_encode_request f c params) = true /\ is_for_us f (civ_encode_request f c params) = false)
  /\ (is_for_us f (encode_response f c params) = true /\ is_echo f (encode_response f c params) = false)
  /\ (is_for_us f frame && is_echo f frame = false).
Proof.
  intros Hne. unfold is_echo, is_for_us. rewrite civ_request_envelope, civ_response_envelope. cbn.
  rewrite !(bool_decide_eq_true_2 (_ = _)) by done.
  rewrite (bool_decide_eq_false_2 (radio f = controller f)) by done.
  rewrite (bool_decide_eq_false_2 (controller f = radio f)) by congruence. split_and!; try done.
  destruct (parse_envelope frame) as [env|]; [|done].
  repeat case_bool_decide; cbn; congruence.
Qed.

(** The table gives the code to this definition first, and for a one-byte code
    does not read the first parameter byte as a sub-command. *)
Definition civ_addressable {C} (t : CommandTable C CivCode) (d : CommandDefinition C CivCode)
    (params : bytes) : Prop :=
  table_find t d.(code) = Some d
  /\ match d.(code).2, params with
     | None, sub :: _ => table_find t (d.(code).1, Some sub) = None
     | _, _ => True
     end.

Lemma civ_find_encode {C} f (t : CommandTable C CivCode) d params :
  civ_addressable t d params ->
  civ_find_command t (civ_encode_request f d.(code) params) = Ok (d, params).
Proof.
  intros [Hf Hsub]. unfold civ_find_command. rewrite civ_request_envelope. cbn [ok_or result_bind payload].
  destruct (code d) as [cmd [sub|]]; cbn [code_bytes fst snd app] in *.
  - by rewrite Hf.
  - destruct params as [|b params]; cbn [ok_or]; [by rewrite Hf|]. by rewrite Hsub, Hf.
Qed.

Lemma civ_find_resolves {C} (t : CommandTable C CivCode) frame d params :
  civ_find_command t frame = Ok (d, params) -> table_find t d.(code) = Some d.
Proof.
  unfold civ_find_command. destruct (parse_envelope frame) as [e|]; [|done]. cbn [ok_or result_bind].
  destruct e.(payload) as [|c rest]; [done|].
  assert (Hb : forall (x : ParseError) l, (let? d := ok_or (table_find t (c, None)) x in Ok (d, l)) = Ok (d, params) ->
            table_find t d.(code) = Some d).
  { intros x l. destruct (table_find t (c, None)) as [d'|] eqn:E; [|done]. intros [= <- <-].
    exact (proj2 (table_find_code _ _ _ E)). }
  destruct rest as [|sub rest]; [apply Hb|].
  destruct (table_find t (c, Some sub)) as [d'|] eqn:E; [|apply Hb]. intros [= <- <-].
  exact (proj2 (table_find_code _ _ _ E)).
Qed.

#[export] Instance civ_laws : WireFormatLaws CivFormat := {|
  addressable _ C t d params := civ_addressable t d params;
  find_encode f C t d params := civ_find_encode f t d params;
  find_resolves f C t frame d params := civ_find_resolves t frame d params |}.

(** A scanner reading a frame byte by byte stops exactly at its end: no
    proper prefix is complete, provided the end byte occurs neither in the
    addresses nor in the code and parameters. *)
Theorem civ_frame_complete_exact f c params n :
  Forall (fun b => b <> END_OF_MESSAGE) ([f.(radio); f.(controller)] ++ code_bytes c ++ params) ->
  (n < length (civ_encode_request f c params))%nat ->
  civ_frame_complete (take n (civ_encode_request f c params)) = false
  /\ civ_frame_complete (civ_encode_request f c params) = true.
Proof.
  intros Hno Hn. unfold civ_encode_request, civ_frame_complete in *.
  set (pre := [PREAMBLE; PREAMBLE; radio f; controller f] ++ code_bytes c ++ params).
  assert (E : [PREAMBLE; PREAMBLE; radio f; controller f] ++ code_bytes c ++ params ++ [END_OF_MESSAGE]
              = pre ++ [END_OF_MESSAGE]) by (unfold pre; by rewrite <- !app_assoc).
  rewrite E in *. split; [|rewrite ends_with_snoc; by apply bool_decide_eq_true_2].
  assert (Hpre : Forall (fun b => b <> END_OF_MESSAGE) pre).
  { unfold pre. cbn [app]. do 2 (constructor; [vm_compute; discriminate|]). exact Hno. }
  clearbody pre. rewrite length_app in Hn. cbn in Hn. rewrite take_app_le by lia.
  unfold ends_with. apply bool_decide_eq_false_2. intros Hl.
  apply last_Some_elem_of in Hl. apply elem_of_take in Hl as (i & Hi & _).
  rewrite Forall_lookup in Hpre. by apply (Hpre i _ Hi).
Qed.

(** ** BCD round trips *)

(** Case analysis on a decimal digit. *)
Ltac decimal_cases x :=
  let E := fresh in
  assert (x = 0 \/ x = 1 \/ x = 2 \/ x = 3 \/ x = 4 \/ x = 5 \/ x = 6 \/ x = 7 \/ x = 8 \/ x = 9) as E by lia;
  repeat destruct E as [->|E]; try subst x; try clear E.

Lemma bcd_digit_pair_encode h l :
  0 <= h < 10 -> 0 <= l < 10 -> bcd_digit_pair (u8 (Z.lor (Z.shiftl h 4) l)) = Some (h * 10 + l).
Proof.
  intros Hh Hl. decimal_cases h; decimal_cases l; reflexivity.
Qed.

Lemma decode_bcd_loop_app l1 l2 v :
  decode_bcd_loop v (l1 ++ l2) = decode_bcd_loop v l1 ≫= fun v => decode_bcd_loop v l2.
Proof.
  revert v. induction l1 as [|b l1 IH]; intros v; [done|]. cbn.
  destruct (bcd_digit_pair b); [|done]. cbn. apply IH.
Qed.

Lemma pow100_pos n : 0 < 100 ^ Z.of_nat n.
Proof. apply Z.pow_pos_nonneg; lia. Qed.

Lemma decode_loop_encode n : forall v acc, 0 <= v ->
  decode_bcd_loop acc (rev (encode_bcd v n)) = Some (acc * 100 ^ Z.of_nat n + v mod 100 ^ Z.of_nat n).
Proof.
  induction n as [|n IH]; intros v acc Hv; cbn [encode_bcd rev].
  - cbn. rewrite Z.mod_1_r. f_equal. lia.
  - rewrite decode_bcd_loop_app, IH by (repeat apply Z.div_pos; lia). cbn.
    rewrite bcd_digit_pair_encode by (apply Z.mod_pos_bound; lia). cbn. f_equal.
    rewrite Nat2Z.inj_succ, Z.pow_succ_r by lia. pose proof (pow100_pos n).
    rewrite Z.rem_mul_r, Z.div_div by lia.
    replace (v mod 100) with ((v / 10) mod 10 * 10 + v mod 10); [change (10 * 10) with 100; lia|].
    change 100 with (10 * 10). rewrite Z.rem_mul_r by lia. lia.
Qed.

Lemma decode_encode_bcd v n : 0 <= v -> decode_bcd (encode_bcd v n) = Some (v mod 100 ^ Z.of_nat n).
Proof. intros Hv. unfold decode_bcd. by rewrite decode_loop_encode. Qed.

(** A value that fits survives both byte orders. *)
Theorem bcd_roundtrip v n :
  0 <= v < 100 ^ Z.of_nat n ->
  decode_bcd (encode_bcd v n) = Some v /\ decode_bcd_be (encode_bcd_be v n) = Some v.
Proof.
  intros Hv. unfold decode_bcd_be, encode_bcd_be. rewrite decode_encode_bcd, decode_loop_encode by lia.
  rewrite Z.mod_small by lia. done.
Qed.

(** A value that does not fit comes out as another valid value, the
    remainder modulo a power of a hundred: the comment of [encode_bcd] says it
    is truncated "rather than wrapping", but the digits kept are the low ones,
    so an out-of-band frequency becomes one that may be in band. *)
Theorem encode_bcd_wraps v n :
  0 <= v -> decode_bcd (encode_bcd v n) = Some (v mod 100 ^ Z.of_nat n)
  /\ encode_bcd (v + 100 ^ Z.of_nat n) n = encode_bcd v n.
Proof.
  intros Hv. split; [by apply decode_encode_bcd|]. revert v Hv. induction n as [|n IH]; intros v Hv; [done|].
  cbn [encode_bcd]. rewrite Nat2Z.inj_succ, Z.pow_succ_r by lia. pose proof (pow100_pos n).
  replace (v + 100 * 100 ^ Z.of_nat n) with (v + (10 * (10 * 100 ^ Z.of_nat n))) by lia.
  replace ((v + 10 * (10 * 100 ^ Z.of_nat n)) / 10) with (v / 10 + 10 * 100 ^ Z.of_nat n)
    by (rewrite (Z.mul_comm 10 (10 * _)), Z.div_add; lia).
  replace ((v / 10 + 10 * 100 ^ Z.of_nat n) / 10) with (v / 10 / 10 + 100 ^ Z.of_nat n)
    by (rewrite (Z.mul_comm 10), Z.div_add; lia).
  rewrite IH by (repeat apply Z.div_pos; lia).
  rewrite (Z.mul_comm 10 (10 * _)), Z.mod_add by lia.
  rewrite (Z.mul_comm 10 (100 ^ _)), Z.mod_add by lia. done.
Qed.

Lemma bcd_byte_inverse b d :
  bcd_digit_pair b = Some d ->
  0 <= d < 100 /\ u8 (Z.lor (Z.shiftl ((d / 10) mod 10) 4) (d mod 10)) = b.
Proof.
  unfold bcd_digit_pair. rewrite Z.shiftr_div_pow2 by lia. change 0x0F with (Z.ones 4).
  rewrite Z.land_ones by lia. change (2 ^ 4) with 16.
  set (h := unsigned b / 16). set (l := unsigned b mod 16).
  destruct (Z.ltb_spec 9 h) as [|Hh]; [done|]. destruct (Z.ltb_spec 9 l) as [|Hl]; [done|].
  cbn. intros [= <-].
  assert (0 <= h) by (apply Z.div_pos; [apply unsigned_range|lia]).
  assert (0 <= l) by (apply Z.mod_pos_bound; lia).
  split; [lia|]. rewrite <- (u8_unsigned b), (Z.div_mod (unsigned b) 16) by lia. fold h l.
  clearbody h l. decimal_cases h; decimal_cases l; reflexivity.
Qed.

Lemma decode_bcd_cons b l :
  decode_bcd (b :: l) = v ← decode_bcd l; d ← bcd_digit_pair b; Some (v * 100 + d).
Proof.
  unfold decode_bcd. cbn [rev]. rewrite decode_bcd_loop_app.
  destruct (decode_bcd_loop 0 (rev l)); [|done]. cbn. by destruct (bcd_digit_pair b).
Qed.

(** Whatever decodes was encoded: the decoder accepts only the encoding of
    the value it returns, and up to nine bytes that value fits in 64 bits, so
    its arithmetic cannot overflow. *)
Theorem decode_bcd_exact l v :
  decode_bcd l = Some v ->
  encode_bcd v (length l) = l /\ 0 <= v < 100 ^ Z.of_nat (length l)
  /\ ((length l <= 9)%nat -> v <= u64_max).
Proof.
  intros H. assert (Hmain : encode_bcd v (length l) = l /\ 0 <= v < 100 ^ Z.of_nat (length l)).
  { revert v H. induction l as [|b l IH]; intros v.
    - intros [= <-]. cbn. split; [done|lia].
    - rewrite decode_bcd_cons. destruct (decode_bcd l) as [v'|]; [|done]. cbn.
      destruct (bcd_digit_pair b) as [d|] eqn:Hd; [|done]. cbn. intros [= <-].
      destruct (IH v' eq_refl) as [He Hr]. destruct (bcd_byte_inverse b d Hd) as [Hdr Hb].
      cbn [length]. rewrite Nat2Z.inj_succ, Z.pow_succ_r by lia. split; [|lia].
      cbn [encode_bcd].
      replace ((v' * 100 + d) mod 10) with (d mod 10)
        by (replace (v' * 100 + d) with (d + (v' * 10) * 10) by lia; by rewrite Z.mod_add).
      replace ((v' * 100 + d) / 10) with (d / 10 + v' * 10)
        by (replace (v' * 100 + d) with (d + (v' * 10) * 10) by lia; by rewrite Z.div_add).
      rewrite Z.mod_add, Z.div_add by lia. rewrite Hb.
      replace (d / 10 / 10 + v') with v' by (rewrite Z.div_div, Z.div_small by lia; lia).
      by rewrite He. }
  destruct Hmain as [H1 H2]. split_and!; [done|lia|lia|].
  intros Hlen. assert (100 ^ Z.of_nat (length l) <= 100 ^ 9) by (apply Z.pow_le_mono_r; lia).
  unfold u64_max. lia.
Qed.

(** ** Witnesses *)

Lemma echo_never_answer_witness :
  (is_echo civ_default (civ_encode_request civ_default (u8 3, None) []) = true
   /\ is_for_us civ_default (civ_encode_request civ_default (u8 3, None) []) = false)
  /\ (is_for_us civ_default (encode_response civ_default (u8 3, None) []) = true
      /\ is_echo civ_default (encode_response civ_default (u8 3, None) []) = false)
  /\ (is_for_us civ_default [] && is_echo civ_default [] = false).
Proof. apply (echo_never_answer civ_default (u8 3, None) [] []). vm_compute. discriminate. Defined.

Lemma civ_frame_complete_exact_witness :
  civ_frame_complete (take 5 (civ_encode_request civ_default (u8 0x15, Some (u8 2)) [])) = false
  /\ civ_frame_complete (civ_encode_request civ_default (u8 0x15, Some (u8 2)) []) = true.
Proof.
  apply (civ_frame_complete_exact civ_default (u8 0x15, Some (u8 2)) [] 5).
  - repeat constructor; vm_compute; discriminate.
  - vm_compute. lia.
Defined.

Lemma bcd_roundtrip_witness :
  decode_bcd (encode_bcd 14074000 5) = Some 14074000 /\ decode_bcd_be (encode_bcd_be 14074000 5) = Some 14074000.
Proof. apply (bcd_roundtrip 14074000 5). cbn. lia. Defined.

Lemma encode_bcd_wraps_witness :
  decode_bcd (encode_bcd 12345 2) = Some (12345 mod 100 ^ 2) /\ encode_bcd (12345 + 100 ^ 2) 2 = encode_bcd 12345 2.
Proof. apply (encode_bcd_wraps 12345 2). lia. Defined.

Lemma decode_bcd_exact_witness :
  encode_bcd 14074000 5 = encode_bcd 14074000 5 /\ 0 <= 14074000 < 100 ^ 5 /\ ((5 <= 9)%nat -> 14074000 <= u64_max).
Proof. apply (decode_bcd_exact (encode_bcd 14074000 5) 14074000). vm_compute. reflexivity. Defined.
