(* ===== verification/Client.v ===== *)
(** * Client: [CatClient] over a [CatSession] (cat-client/src/client.rs,
    cat-transport-core/src/session.rs)

    The session is an interface: one exchange, and a write that is not
    answered.  The client checks every command against its table before it
    touches the session. *)

From S2P Require Import Prelude Text Utf8 Framework.

(** [CatSession]: each operation returns the session as it leaves it. *)
Class CatSession (S E : Type) : Type := {
  execute : S -> bytes -> S * bytes * result ResponseDisposition E;
  session_send : S -> bytes -> S * result () E }.

(** [CatSession::send]'s default: an exchange whose response is dropped. *)
Definition default_send {S E} (exec : S -> bytes -> S * bytes * result ResponseDisposition E)
    (s : S) (request : bytes) : S * result () E :=
  let '(s, _, r) := exec s request in (s, result_map (fun _ => tt) r).

Inductive ClientError (E : Type) : Type :=
| CUnknownCommand (c : bytes)
| CommandNotReadable (c : bytes)
| CommandNotWritable (c : bytes)
| CProtocolError (k : ProtocolErrorKind)
| Transport (e : E).
Arguments CUnknownCommand {E}.
Arguments CommandNotReadable {E}.
Arguments CommandNotWritable {E}.
Arguments CProtocolError {E}.
Arguments Transport {E}.

Section Client.
  Context {F : Type} `{!CatWireFormat F} {C S E : Type} `{!CatSession S E}.

Record CatClient : Type := mk_CatClient {
  session : S; table : CommandTable C Code; format : F }.

Definition with_session (c : CatClient) (s : S) : CatClient := mk_CatClient s c.(table) c.(format).
Definition set_format (c : CatClient) (f : F) : CatClient := mk_CatClient c.(session) c.(table) f.

Definition validate_code (c : CatClient) (k : Code) : result (CommandDefinition C Code) (ClientError E) :=
  ok_or (table_find c.(table) k) (CUnknownCommand (debug_code k)).

Definition execute_query_bytes (c : CatClient) (wire : bytes)
  : CatClient * result bytes (ClientError E) :=
  let '(s, response, r) := execute c.(session) wire in
  (with_session c s,
   let? disposition := map_err Transport r in
   match disposition with
   | ProtocolError kind => Err (CProtocolError kind)
   | ResponseWritten | NoResponse => Ok response
   end).

Definition execute_query (c : CatClient) (wire : bytes) : CatClient * result text (ClientError E) :=
  let '(c, r) := execute_query_bytes c wire in (c, result_map from_utf8_lossy r).

(** [query_with_param]; [query] is it with no parameter. *)
Definition query_with_param (c : CatClient) (k : Code) (params : bytes)
  : CatClient * result text (ClientError E) :=
  match validate_code c k with
  | Err e => (c, Err e)
  | Ok meta =>
      if negb (is_readable meta) then (c, Err (CommandNotReadable (debug_code k)))
      else execute_query c (encode_request c.(format) k params)
  end.
Definition query (c : CatClient) (k : Code) : CatClient * result text (ClientError E) :=
  query_with_param c k [].

Definition set (c : CatClient) (k : Code) (params : bytes) : CatClient * result () (ClientError E) :=
  match validate_code c k with
  | Err e => (c, Err e)
  | Ok meta =>
      if negb (is_writable meta) then (c, Err (CommandNotWritable (debug_code k)))
      else let '(s, r) := session_send c.(session) (encode_request c.(format) k params) in
           (with_session c s, map_err Transport r)
  end.

Definition query_with_bytes (c : CatClient) (k : Code) (params : bytes)
  : CatClient * result bytes (ClientError E) :=
  match validate_code c k with
  | Err e => (c, Err e)
  | Ok d =>
      if negb (is_readable d) then (c, Err (CommandNotReadable (as_bytes d.(name))))
      else execute_query_bytes c (encode_request c.(format) k params)
  end.
Definition query_bytes (c : CatClient) (k : Code) : CatClient * result bytes (ClientError E) :=
  query_with_bytes c k [].
Definition set_bytes (c : CatClient) (k : Code) (params : bytes)
  : CatClient * result bytes (ClientError E) :=
  match validate_code c k with
  | Err e => (c, Err e)
  | Ok d =>
      if negb (is_writable d) then (c, Err (CommandNotWritable (as_bytes d.(name))))
      else execute_query_bytes c (encode_request c.(format) k params)
  end.
End Client.
Arguments CatClient F {_} C S.

(** ** Against a session that records what it is asked *)

(** A session that answers with a function of the request and keeps a log. *)
Record Recorder : Type := mk_Recorder { log : list bytes; answer : bytes -> bytes }.
Definition recorder_execute (s : Recorder) (request : bytes)
  : Recorder * bytes * result ResponseDisposition string :=
  (mk_Recorder (s.(log) ++ [request]) s.(answer), s.(answer) request, Ok ResponseWritten).
#[export] Instance recorder_session : CatSession Recorder string := {|
  execute := recorder_execute; session_send := default_send recorder_execute |}.

Section Contract.
  Context {F : Type} `{!CatWireFormat F} `{!WireFormatLaws F} {C S E : Type} `{!CatSession S E}.

(** The client never sends what its table does not allow: a read is put on
    the wire only for a command the table has and marks readable, a write only
    for one it marks writable, and then the frame is the one the wire format
    reads back as that command with those parameters; in every other case the
    session is not touched. *)
Theorem client_guards_session (c : CatClient F C S) (k : Code) params :
  (forall c' r, query_with_param (E := E) c k params = (c', r) ->
     (c'.(session) = c.(session) /\ exists e, r = Err e)
     \/ exists d, table_find c.(table) k = Some d /\ is_readable d = true
        /\ c'.(session) = (execute (E := E) c.(session) (encode_request c.(format) k params)).1.1
        /\ (addressable c.(format) c.(table) d params ->
            find_command c.(format) c.(table) (encode_request c.(format) k params) = Ok (d, params)))
  /\ (forall c' r, set (E := E) c k params = (c', r) ->
     (c'.(session) = c.(session) /\ exists e, r = Err e)
     \/ exists d, table_find c.(table) k = Some d /\ is_writable d = true
        /\ c'.(session) = (session_send (E := E) c.(session) (encode_request c.(format) k params)).1
        /\ (addressable c.(format) c.(table) d params ->
            find_command c.(format) c.(table) (encode_request c.(format) k params) = Ok (d, params))).
Proof.
  assert (Hcode : forall d, table_find c.(table) k = Some d -> d.(code) = k).
  { intros d Hd. apply List.find_some in Hd as [_ Hd]. by apply bool_decide_eq_true in Hd. }
  assert (Hfe : forall d, table_find c.(table) k = Some d -> addressable c.(format) c.(table) d params ->
    find_command c.(format) c.(table) (encode_request c.(format) k params) = Ok (d, params)).
  { intros d Hd Ha. rewrite <- (Hcode d Hd). by apply find_encode. }
  split; intros c' r.
  - unfold query_with_param, validate_code. destruct (table_find (table c) k) as [d|] eqn:Hd; cbn [ok_or];
      [|intros [= <- <-]; left; eauto].
    destruct (is_readable d) eqn:Hr; cbn [negb]; [|intros [= <- <-]; left; eauto].
    unfold execute_query, execute_query_bytes.
    destruct (execute (session c) _) as [[s resp] rr] eqn:He. intros [= <- <-]. right. exists d.
    split_and!; auto.
  - unfold set, validate_code. destruct (table_find (table c) k) as [d|] eqn:Hd; cbn [ok_or];
      [|intros [= <- <-]; left; eauto].
    destruct (is_writable d) eqn:Hr; cbn [negb]; [|intros [= <- <-]; left; eauto].
    destruct (session_send (session c) _) as [s rr] eqn:He. intros [= <- <-]. right. exists d.
    split_and!; auto.
Qed.
End Contract.

Definition example_client : CatClient AsciiLineFormat nat Recorder :=
  mk_CatClient (mk_Recorder [] (fun r => r)) [example_definition] ascii_line.

Example client_query_example :
  let '(c, r) := query (E := string) example_client example_definition.(code) in
  c.(session).(log) = [as_bytes "FA;"] /\ r = Ok (txt "FA;").
Proof. vm_compute. auto. Qed.
