(* ===== verification/Tcp.v ===== *)
(** * Tcp: length-prefixed frames over a byte stream
    (cat-transport-tcp/src/codec.rs, cat-transport-tcp/src/session.rs)

    The codec is a set of pure functions.  The stream is an interface, since
    it is monoio's: [TcpStream] has the three calls the session makes,
    [TcpStreamLaws] what those calls are documented to do on a connection that
    delivers some bytes and is then closed.  [Segments], a stream that hands
    out the bytes in arbitrary pieces with interruptions between them, is an
    instance. *)

From S2P Require Import Prelude Text Framework Client.

Definition MAX_FRAME_SIZE : Z := 64 * 1024.

Inductive IoError : Type := Interrupted | UnexpectedEof | OtherIo (kind : Z).
#[export] Instance IoError_eq_dec : EqDecision IoError.
Proof. solve_decision. Defined.

Inductive TcpSessionError : Type := Io (e : IoError) | FrameTooLarge (len max : Z).

Definition check_frame_len (len : Z) : result () TcpSessionError :=
  if MAX_FRAME_SIZE <? len then Err (FrameTooLarge len MAX_FRAME_SIZE) else Ok tt.

(** [u32::try_from(payload.len()).unwrap_or(u32::MAX)]. *)
Definition frame_len (payload : bytes) : Z := Z.min (Z.of_nat (length payload)) u32_max.
Definition encode_frame (payload : bytes) : result bytes TcpSessionError :=
  let len := frame_len payload in
  let? _ := check_frame_len len in
  Ok (to_be_bytes 4 len ++ payload).

Definition decode_len_prefix (len_buf : bytes) : result Z TcpSessionError :=
  let len := from_be_bytes len_buf in
  let? _ := check_frame_len len in
  Ok len.

(** ** The stream *)

(** [read] answers with the filled part of a buffer of the given length. *)
Class TcpStream (T : Type) : Type := {
  read : T -> nat -> T * result bytes IoError;
  read_exact : T -> nat -> T * result bytes IoError;
  write_all : T -> bytes -> T * result () IoError }.

(** A stream that [delivers] some bytes and then ends; [patience] bounds the
    reads the system may still interrupt; [sent] is what was written. *)
Class TcpStreamLaws (T : Type) `{!TcpStream T} : Type := {
  delivers : T -> bytes -> Prop;
  patience : T -> nat;
  sent : T -> bytes;
  read_law : forall s c n, delivers s c -> (0 < n)%nat ->
    exists s', sent s' = sent s /\
    ((read s n = (s', Err Interrupted) /\ delivers s' c /\ (patience s' < patience s)%nat)
     \/ (c = [] /\ read s n = (s', Ok []) /\ delivers s' [] /\ (patience s' <= patience s)%nat)
     \/ exists chunk c', c = chunk ++ c' /\ (0 < length chunk <= n)%nat
        /\ read s n = (s', Ok chunk) /\ delivers s' c' /\ (patience s' <= patience s)%nat);
  read_exact_law : forall s c n, delivers s c ->
    exists s', sent s' = sent s /\
    (((n <= length c)%nat /\ read_exact s n = (s', Ok (take n c)) /\ delivers s' (drop n c)
        /\ (patience s' <= patience s)%nat)
     \/ ((length c < n)%nat /\ read_exact s n = (s', Err UnexpectedEof)));
  write_all_law : forall s c data, delivers s c ->
    exists s', write_all s data = (s', Ok tt) /\ sent s' = sent s ++ data
      /\ delivers s' c /\ (patience s' <= patience s)%nat }.

Section Session.
  Context {T : Type} `{!TcpStream T}.

Definition write_frame (s : T) (payload : bytes) : T * result () TcpSessionError :=
  match encode_frame payload with
  | Err e => (s, Err e)
  | Ok frame => let '(s, r) := write_all s frame in (s, map_err Io r)
  end.

(** The read loop; [None] when the fuel is used up. *)
Fixpoint read_exact_or_eof (fuel : nat) (s : T) (len : nat) (out : bytes)
  : option (T * result (option bytes) TcpSessionError) :=
  match fuel with
  | O => None
  | S fuel =>
      let remaining := (len - length out)%nat in
      if (remaining =? 0)%nat then Some (s, Ok (Some out))
      else
        let '(s, r) := read s remaining in
        match r with
        | Ok [] => Some (s, match out with [] => Ok None | _ => Err (Io UnexpectedEof) end)
        | Ok chunk => read_exact_or_eof fuel s len (out ++ chunk)
        | Err Interrupted => read_exact_or_eof fuel s len out
        | Err e => Some (s, Err (Io e))
        end
  end.

Definition read_frame_or_eof (fuel : nat) (s : T)
  : option (T * result (option bytes) TcpSessionError) :=
  '(s, header) ← read_exact_or_eof fuel s 4 [];
  match header with
  | Err e => Some (s, Err e)
  | Ok None => Some (s, Ok None)
  | Ok (Some len_buf) =>
      match decode_len_prefix len_buf with
      | Err e => Some (s, Err e)
      | Ok len =>
          let '(s, r) := read_exact s (Z.to_nat len) in
          Some (s, let? payload := map_err Io r in Ok (Some payload))
      end
  end.

Definition read_frame (fuel : nat) (s : T) : option (T * result bytes TcpSessionError) :=
  '(s, r) ← read_frame_or_eof fuel s;
  Some (s, let? f := r in
           match f with Some payload => Ok payload | None => Err (Io UnexpectedEof) end).

(** [TcpCatSession::execute]: one request frame out, one response frame in. *)
Definition tcp_execute (fuel : nat) (s : T) (request : bytes)
  : option (T * bytes * result ResponseDisposition TcpSessionError) :=
  let '(s, w) := write_frame s request in
  match w with
  | Err e => Some (s, [], Err e)
  | Ok _ =>
      '(s, r) ← read_frame fuel s;
      Some (match r with
            | Err e => (s, [], Err e)
            | Ok payload =>
                (s, payload, Ok (match payload with [] => NoResponse | _ => ResponseWritten end))
            end)
  end.

(** Frames until a clean end or an error: how a connection is consumed by
    calling [read_frame_or_eof] again and again, at most [k] times. *)
Fixpoint read_frames (k fuel : nat) (s : T) : option (T * list bytes * result () TcpSessionError) :=
  match k with
  | O => None
  | S k =>
      '(s, r) ← read_frame_or_eof fuel s;
      match r with
      | Err e => Some (s, [], Err e)
      | Ok None => Some (s, [], Ok tt)
      | Ok (Some p) => '(s, ps, e) ← read_frames k fuel s; Some (s, p :: ps, e)
      end
  end.
End Session.

(** ** Codec lemmas *)

Definition frame_of (payload : bytes) : bytes :=
  to_be_bytes 4 (Z.of_nat (length payload)) ++ payload.

Lemma encode_frame_spec (p : bytes) :
  encode_frame p = if Z.of_nat (length p) <=? MAX_FRAME_SIZE then Ok (frame_of p)
                   else Err (FrameTooLarge (frame_len p) MAX_FRAME_SIZE).
Proof.
  unfold encode_frame, check_frame_len, frame_of, frame_len, MAX_FRAME_SIZE, u32_max.
  destruct (Z.leb_spec (Z.of_nat (length p)) (64 * 1024)) as [H|H].
  - rewrite Z.min_l by lia. by destruct (Z.ltb_spec (64 * 1024) (Z.of_nat (length p))); [lia|].
  - by destruct (Z.ltb_spec (64 * 1024) (Z.min (Z.of_nat (length p)) (2 ^ 32 - 1))); [|lia].
Qed.

Lemma decode_len_prefix_frame (p : bytes) :
  Z.of_nat (length p) <= MAX_FRAME_SIZE ->
  decode_len_prefix (to_be_bytes 4 (Z.of_nat (length p))) = Ok (Z.of_nat (length p)).
Proof.
  unfold decode_len_prefix, check_frame_len, MAX_FRAME_SIZE. intros H.
  rewrite from_to_be_bytes_small by (cbn; lia).
  by destruct (Z.ltb_spec (64 * 1024) (Z.of_nat (length p))); [lia|].
Qed.

Lemma length_frame_of (p : bytes) : length (frame_of p) = (4 + length p)%nat.
Proof. unfold frame_of. by rewrite length_app, length_to_be_bytes. Qed.

(** ** Reading against the stream's laws *)

Section Laws.
  Context {T : Type} `{!TcpStream T} `{!TcpStreamLaws T}.
  Implicit Types (s : T) (c : bytes).

(** Enough bytes: the loop returns exactly the next [len - length out] of
    them, however they are cut up. *)
Lemma read_exact_or_eof_enough fuel : forall s c len out,
  delivers s c -> (length out <= len)%nat -> (len - length out <= length c)%nat ->
  (len - length out + patience s < fuel)%nat ->
  exists s', read_exact_or_eof fuel s len out
               = Some (s', Ok (Some (out ++ take (len - length out) c)))
    /\ delivers s' (drop (len - length out) c) /\ (patience s' <= patience s)%nat /\ sent s' = sent s.
Proof.
  induction fuel as [|fuel IH]; intros s c len out Hd Hl Hc Hf; [lia|]. cbn [read_exact_or_eof].
  destruct (Nat.eqb_spec (len - length out) 0) as [->|Hr].
  { exists s. rewrite take_0, drop_0, app_nil_r. auto. }
  destruct (read_law s c (len - length out) Hd ltac:(lia))
    as (s' & Hs & [(-> & Hd' & Hp)|[(-> & _)|(chunk & c' & -> & Hn & -> & Hd' & Hp)]]).
  - destruct (IH s' c len out Hd' Hl Hc ltac:(lia)) as (s2 & ? & ? & ? & ?).
    exists s2. split_and!; [done|done|lia|congruence].
  - cbn in Hc. lia.
  - destruct chunk as [|b chunk]; [cbn in Hn; lia|]. set (ch := b :: chunk) in *.
    rewrite length_app in Hc.
    destruct (IH s' c' len (out ++ ch) Hd') as (s2 & -> & Hd2 & Hp2 & Hs2);
      rewrite ?length_app; [lia..|].
    exists s2. rewrite length_app in Hd2.
    replace (len - length out)%nat with (length ch + (len - (length out + length ch)))%nat by lia.
    rewrite take_app_add, drop_app_add, <- app_assoc. split_and!; [done|done|lia|congruence].
Qed.

(** Too few: a clean end only when nothing at all was read. *)
Lemma read_exact_or_eof_short fuel : forall s c len out,
  delivers s c -> (length out + length c < len)%nat ->
  (length c + patience s < fuel)%nat ->
  exists s', read_exact_or_eof fuel s len out
    = Some (s', if decide (out ++ c = []) then Ok None else Err (Io UnexpectedEof))
    /\ sent s' = sent s.
Proof.
  induction fuel as [|fuel IH]; intros s c len out Hd Hc Hf; [lia|]. cbn [read_exact_or_eof].
  destruct (Nat.eqb_spec (len - length out) 0) as [?|Hr]; [lia|].
  destruct (read_law s c (len - length out) Hd ltac:(lia))
    as (s' & Hs & [(-> & Hd' & Hp)|[(-> & -> & _)|(chunk & c' & -> & Hn & -> & Hd' & Hp)]]).
  - rewrite <- Hs. apply (IH s' c); [done|lia|lia].
  - exists s'. by destruct out.
  - destruct chunk as [|b chunk]; [cbn in Hn; lia|]. rewrite length_app in Hc, Hf. cbn in Hc, Hf.
    destruct (IH s' c' len (out ++ b :: chunk) Hd') as (s2 & -> & Hs2); rewrite ?length_app; cbn; [lia..|].
    exists s2. rewrite <- app_assoc. split; [done|congruence].
Qed.

Lemma read_frame_or_eof_frame fuel s (p : bytes) c :
  Z.of_nat (length p) <= MAX_FRAME_SIZE -> delivers s (frame_of p ++ c) ->
  (4 + patience s < fuel)%nat ->
  exists s', read_frame_or_eof fuel s = Some (s', Ok (Some p))
    /\ delivers s' c /\ (patience s' <= patience s)%nat /\ sent s' = sent s.
Proof.
  intros Hp Hd Hf. unfold read_frame_or_eof.
  destruct (read_exact_or_eof_enough fuel s _ 4 [] Hd) as (s1 & -> & Hd1 & Hp1 & Hs1);
    [cbn; lia|rewrite length_app, length_frame_of; cbn; lia|cbn; lia|].
  cbn [mbind option_bind app length Nat.sub] in *. unfold frame_of in *. rewrite <- app_assoc in *.
  rewrite take_app_length' by (by rewrite length_to_be_bytes).
  rewrite drop_app_length' in Hd1 by (by rewrite length_to_be_bytes).
  rewrite decode_len_prefix_frame by done. rewrite Nat2Z.id.
  destruct (read_exact_law s1 _ (length p) Hd1)
    as (s2 & Hs2 & [(_ & -> & Hd2 & Hp2)|(Hlen & _)]); [|rewrite length_app in Hlen; lia].
  rewrite take_app_length, drop_app_length in *. exists s2.
  split_and!; [done|done|lia|congruence].
Qed.

(** A connection that ends inside a frame, or exactly between two. *)
Lemma read_frame_or_eof_cut fuel s (p : bytes) n :
  Z.of_nat (length p) <= MAX_FRAME_SIZE -> (n < length (frame_of p))%nat ->
  delivers s (take n (frame_of p)) -> (4 + patience s < fuel)%nat ->
  exists s', read_frame_or_eof fuel s
    = Some (s', if (n =? 0)%nat then Ok None else Err (Io UnexpectedEof))
    /\ sent s' = sent s.
Proof.
  intros Hp Hn Hd Hf. rewrite length_frame_of in Hn. unfold read_frame_or_eof.
  assert (Hlt : length (take n (frame_of p)) = n) by (rewrite length_take, length_frame_of; lia).
  destruct (Nat.lt_ge_cases n 4) as [H4|H4].
  - destruct (read_exact_or_eof_short fuel s _ 4 [] Hd) as (s1 & -> & Hs1);
      [rewrite Hlt; cbn; lia|lia|]. exists s1. cbn [mbind option_bind app].
    destruct (Nat.eqb_spec n 0) as [->|Hn0]; [by rewrite take_0|].
    case_decide as He; [|done]. rewrite He in Hlt. by cbn in Hlt.
  - destruct (read_exact_or_eof_enough fuel s _ 4 [] Hd) as (s1 & -> & Hd1 & Hp1 & Hs1);
      [cbn; lia|rewrite Hlt; cbn; lia|cbn; lia|].
    cbn [mbind option_bind app length Nat.sub] in *. unfold frame_of in *.
    rewrite take_take, Nat.min_l by lia.
    rewrite take_app_length' by (by rewrite length_to_be_bytes).
    rewrite decode_len_prefix_frame by done. rewrite Nat2Z.id.
    destruct (Nat.eqb_spec n 0); [lia|].
    destruct (read_exact_law s1 _ (length p) Hd1) as (s2 & Hs2 & [(Hl & _)|(_ & ->)]).
    2: { exists s2. split; [done|congruence]. }
    rewrite length_drop, Hlt in Hl. lia.
Qed.

Definition sendable (p : bytes) : Prop := Z.of_nat (length p) <= MAX_FRAME_SIZE.

Lemma read_frames_prefix ps : forall k fuel s c,
  Forall sendable ps -> delivers s (concat (map frame_of ps) ++ c) -> (4 + patience s < fuel)%nat ->
  exists s', delivers s' c /\ (patience s' <= patience s)%nat /\
    read_frames (length ps + k) fuel s
      = '(s2, qs, e) ← read_frames k fuel s'; Some (s2, ps ++ qs, e).
Proof.
  induction ps as [|p ps IH]; intros k fuel s c Hps Hd Hf; cbn [map concat app length Nat.add] in *.
  { exists s. split_and!; [done|done|]. by destruct (read_frames k fuel s) as [[[??]?]|]. }
  apply Forall_cons_1 in Hps as [Hp Hps]. rewrite <- app_assoc in Hd.
  destruct (read_frame_or_eof_frame fuel s p _ Hp Hd Hf) as (s1 & E1 & Hd1 & Hp1 & _).
  destruct (IH k fuel s1 c Hps Hd1) as (s2 & Hd2 & Hp2 & E2); [lia|].
  exists s2. split_and!; [done|lia|]. cbn [read_frames]. rewrite E1. cbn [mbind option_bind].
  rewrite E2. by destruct (read_frames k fuel s2) as [[[??]?]|].
Qed.

(** C8. Frames survive the stream: whatever sequence of payloads was written,
    and however the stream cuts the bytes up or interrupts the reads, reading
    frames until the connection ends terminates and gives back exactly the
    payloads, in order; a connection that ends between frames is a clean end,
    one that ends anywhere inside a further frame is an error. *)
Theorem tcp_frames_survive (s : T) ps p n fuel :
  Forall sendable ps -> sendable p -> (n < length (frame_of p))%nat ->
  delivers s (concat (map frame_of ps) ++ take n (frame_of p)) -> (4 + patience s < fuel)%nat ->
  exists s', read_frames (length ps + 1) fuel s
    = Some (s', ps, if (n =? 0)%nat then Ok tt else Err (Io UnexpectedEof)).
Proof.
  intros Hps Hp Hn Hd Hf.
  destruct (read_frames_prefix ps 1 fuel s _ Hps Hd Hf) as (s1 & Hd1 & Hp1 & ->).
  destruct (read_frame_or_eof_cut fuel s1 p n Hp Hn Hd1) as (s2 & E & _); [lia|].
  exists s2. cbn [read_frames]. rewrite E. cbn [mbind option_bind].
  by destruct (Nat.eqb_spec n 0); cbn; rewrite app_nil_r.
Qed.

(** A declared length above the limit is refused as soon as the prefix is
    read: no payload byte is consumed, and the error names the length and the
    limit. *)
Theorem tcp_oversize_refused (s : T) len c fuel :
  MAX_FRAME_SIZE < len <= u32_max -> delivers s (to_be_bytes 4 len ++ c) ->
  (4 + patience s < fuel)%nat ->
  exists s', read_frame_or_eof fuel s = Some (s', Err (FrameTooLarge len MAX_FRAME_SIZE))
    /\ delivers s' c.
Proof.
  unfold MAX_FRAME_SIZE, u32_max. intros Hlen Hd Hf. unfold read_frame_or_eof.
  destruct (read_exact_or_eof_enough fuel s _ 4 [] Hd) as (s1 & -> & Hd1 & _);
    [cbn; lia|rewrite length_app, length_to_be_bytes; cbn; lia|cbn; lia|].
  cbn [mbind option_bind app length Nat.sub] in *.
  rewrite take_app_length' by (by rewrite length_to_be_bytes).
  rewrite drop_app_length' in Hd1 by (by rewrite length_to_be_bytes). exists s1. split; [|done].
  unfold decode_len_prefix, check_frame_len, MAX_FRAME_SIZE.
  rewrite from_to_be_bytes_small by (cbn; lia).
  by destruct (Z.ltb_spec (64 * 1024) len); [|lia].
Qed.

(** An exchange with a peer that answers terminates: exactly one frame
    carrying the request is written, the response is the payload of exactly
    one frame read, an empty one is reported as no response, and the next
    exchange starts at the next frame; a request over the limit is refused
    with nothing written. *)
Theorem tcp_execute_exchange (s : T) request response c fuel :
  sendable response -> delivers s (frame_of response ++ c) -> (4 + patience s < fuel)%nat ->
  (sendable request ->
   exists s', tcp_execute fuel s request
       = Some (s', response, Ok (match response with [] => NoResponse | _ => ResponseWritten end))
     /\ sent s' = sent s ++ frame_of request /\ delivers s' c)
  /\ (~ sendable request ->
     tcp_execute fuel s request
       = Some (s, [], Err (FrameTooLarge (frame_len request) MAX_FRAME_SIZE))).
Proof.
  intros Hr Hd Hf. unfold tcp_execute, write_frame, sendable. split; intros Hq; rewrite encode_frame_spec.
  - destruct (Z.leb_spec (Z.of_nat (length request)) MAX_FRAME_SIZE); [|lia].
    destruct (write_all_law s _ (frame_of request) Hd) as (s1 & -> & Hs1 & Hd1 & Hp1).
    cbn [map_err]. unfold read_frame.
    destruct (read_frame_or_eof_frame fuel s1 response c Hr Hd1) as (s2 & -> & Hd2 & _ & Hs2); [lia|].
    exists s2. split_and!; [done|by rewrite Hs2|done].
  - by destruct (Z.leb_spec (Z.of_nat (length request)) MAX_FRAME_SIZE); [lia|].
Qed.
End Laws.

(** ** A stream in pieces *)

(** [None] is an interrupted read, [Some l] a piece that has arrived. *)
Record Segments : Type := mk_Segments { inbound : list (option bytes); outbound : bytes }.

Definition segments_read (s : Segments) (n : nat) : Segments * result bytes IoError :=
  match s.(inbound) with
  | [] => (s, Ok [])
  | None :: l => (mk_Segments l s.(outbound), Err Interrupted)
  | Some p :: l =>
      (mk_Segments (if (length p <=? n)%nat then l else Some (drop n p) :: l) s.(outbound),
       Ok (take n p))
  end.

Fixpoint segments_take (n : nat) (l : list (option bytes)) : option (bytes * list (option bytes)) :=
  match l with
  | [] => if (n =? 0)%nat then Some ([], []) else None
  | None :: l => segments_take n l
  | Some p :: l =>
      if (length p <=? n)%nat then '(r, l) ← segments_take (n - length p) l; Some (p ++ r, l)
      else Some (take n p, Some (drop n p) :: l)
  end.
Definition segments_read_exact (s : Segments) (n : nat) : Segments * result bytes IoError :=
  match segments_take n s.(inbound) with
  | Some (r, l) => (mk_Segments l s.(outbound), Ok r)
  | None => (mk_Segments [] s.(outbound), Err UnexpectedEof)
  end.

#[export] Instance segments_stream : TcpStream Segments := {|
  read := segments_read; read_exact := segments_read_exact;
  write_all s data := (mk_Segments s.(inbound) (s.(outbound) ++ data), Ok tt) |}.

Definition segment_bytes (p : option bytes) : bytes := match p with Some l => l | None => [] end.
Definition segments_content (l : list (option bytes)) : bytes := concat (map segment_bytes l).
(** A piece that arrived has at least one byte: zero bytes are the end. *)
Definition segments_ok (l : list (option bytes)) : Prop := Forall (fun p => p <> Some []) l.
Definition segments_delivers (s : Segments) (c : bytes) : Prop :=
  segments_ok s.(inbound) /\ segments_content s.(inbound) = c.
Definition segments_patience (s : Segments) : nat := length (filter (fun p => p = None) s.(inbound)).

Lemma segments_take_spec l : forall n, segments_ok l ->
  if (n <=? length (segments_content l))%nat
  then exists l', segments_take n l = Some (take n (segments_content l), l') /\ segments_ok l'
         /\ segments_content l' = drop n (segments_content l)
         /\ (length (filter (fun p => p = None) l') <= length (filter (fun p => p = None) l))%nat
  else segments_take n l = None.
Proof.
  unfold segments_content. induction l as [|[p|] l IH]; intros n Hok; cbn [segments_take map concat].
  - destruct n; cbn; [|done]. exists []. done.
  - apply Forall_cons_1 in Hok as [Hp Hok]. rewrite length_app. cbn [segment_bytes].
    rewrite filter_cons_False by done.
    destruct (Nat.leb_spec (length p) n) as [Hn|Hn].
    + specialize (IH (n - length p)%nat Hok). revert IH.
      destruct (Nat.leb_spec (n - length p) (length (concat (map segment_bytes l)))) as [H1|H1];
        destruct (Nat.leb_spec n (length p + length (concat (map segment_bytes l)))); try lia.
      * intros (l' & -> & Hl' & Hc' & Hf'). exists l'. cbn [mbind option_bind].
        rewrite take_app_ge, drop_app_ge by lia. done.
      * by intros ->.
    + destruct (Nat.leb_spec n (length p + length (concat (map segment_bytes l)))); [|lia].
      exists (Some (drop n p) :: l). rewrite take_app_le, drop_app_le by lia. split_and!.
      * done.
      * constructor; [|done]. intros [= Hx]. apply (f_equal length) in Hx. rewrite length_drop in Hx. cbn in Hx. lia.
      * done.
      * by rewrite filter_cons_False.
  - apply Forall_cons_1 in Hok as [_ Hok]. rewrite filter_cons_True by done.
    specialize (IH n Hok). revert IH. cbn [segment_bytes app length].
    destruct (Nat.leb_spec n (length (concat (map segment_bytes l)))) as [H1|H1]; [|done].
    intros (l' & ? & ? & ? & ?). exists l'. split_and!; auto.
Qed.

#[export, program] Instance segments_laws : TcpStreamLaws Segments := {|
  delivers := segments_delivers; patience := segments_patience; sent := outbound |}.
Next Obligation.
  intros [[|[p|] l] out] c n [Hok <-] Hn; cbn [read segments_stream segments_read inbound outbound] in *.
  - exists (mk_Segments [] out). split; [done|]. right. left. split_and!; done.
  - apply Forall_cons_1 in Hok as [Hp Hok].
    exists (mk_Segments (if (length p <=? n)%nat then l else Some (drop n p) :: l) out).
    split; [done|]. right. right.
    exists (take n p), (drop n p ++ segments_content l).
    assert (length p <> 0%nat) by (by destruct p). rewrite length_take, app_assoc, take_drop.
    split_and!; [done|lia|lia|done| |].
    + split; cbn [inbound].
      * case_match eqn:Hle; [done|]. constructor; [|done]. intros [= H']. apply (f_equal length) in H'.
        rewrite length_drop in H'. cbn in H'. apply Nat.leb_gt in Hle. lia.
      * case_match; [|done]. rewrite drop_ge; [done|]. by apply Nat.leb_le.
    + unfold segments_patience; cbn [inbound]. rewrite (filter_cons_False _ (Some p)) by done.
      case_match; [done|]. by rewrite filter_cons_False.
  - apply Forall_cons_1 in Hok as [_ Hok]. exists (mk_Segments l out).
    split; [done|]. left. split_and!; try done.
    unfold segments_patience; cbn [inbound]. rewrite (filter_cons_True _ None) by done. cbn. lia.
Qed.
Next Obligation.
  intros [l out] c n [Hok <-]; cbn [read_exact segments_stream inbound outbound] in *.
  unfold segments_read_exact; cbn [inbound outbound].
  pose proof (segments_take_spec l n Hok) as H.
  destruct (Nat.leb_spec n (length (segments_content l))) as [Hn|Hn].
  - destruct H as (l' & -> & Hl' & Hc' & Hf'). exists (mk_Segments l' out). split; [done|]. left. split_and!; done.
  - rewrite H. exists (mk_Segments [] out). split; [done|]. by right.
Qed.
Next Obligation. intros [l out] c data Hd. by exists (mk_Segments l (out ++ data)). Qed.

(** Three bytes of a prefix, an interruption, the rest of the frame with the
    start of the next. *)
Definition example_stream : Segments :=
  mk_Segments [Some (map u8 [0; 0; 0]); None; Some (map u8 [3; 70; 65; 59; 0]); Some (map u8 [0; 0])] [].

Lemma tcp_frames_survive_witness :
  exists s', read_frames 2 10 example_stream = Some (s', [as_bytes "FA;"], Err (Io UnexpectedEof)).
Proof.
  apply (tcp_frames_survive example_stream [as_bytes "FA;"] [] 3 10);
    [repeat constructor; vm_compute; discriminate|vm_compute; discriminate|vm_compute; lia| |vm_compute; lia].
  split; [repeat constructor; discriminate|vm_compute; reflexivity].
Defined.

Lemma tcp_oversize_refused_witness :
  exists s', read_frame_or_eof 10 (mk_Segments [Some (map u8 [0; 1; 0; 1; 7])] [])
      = Some (s', Err (FrameTooLarge 65537 65536))
    /\ delivers s' (map u8 [7]).
Proof.
  apply (tcp_oversize_refused (mk_Segments [Some (map u8 [0; 1; 0; 1; 7])] []) 65537 (map u8 [7]) 10);
    [vm_compute; split; [reflexivity|discriminate]| |vm_compute; lia].
  split; [repeat constructor; discriminate|vm_compute; reflexivity].
Defined.

Lemma tcp_execute_exchange_witness :
  exists s', tcp_execute 10 (mk_Segments [Some (map u8 [0; 0; 0; 1]); None; Some (map u8 [63])] []) (as_bytes "FA;")
      = Some (s', as_bytes "?", Ok ResponseWritten)
    /\ sent s' = map u8 [0; 0; 0; 3; 70; 65; 59] /\ delivers s' [].
Proof.
  refine (proj1 (tcp_execute_exchange
    (mk_Segments [Some (map u8 [0; 0; 0; 1]); None; Some (map u8 [63])] [])
    (as_bytes "FA;") (as_bytes "?") [] 10 _ _ _) _);
    [vm_compute; discriminate| |vm_compute; lia|vm_compute; discriminate].
  split; [repeat constructor; discriminate|vm_compute; reflexivity].
Defined.
