(* ===== verification/Udp.v ===== *)
(** * Udp: enveloped datagrams (cat-transport-udp/src/codec.rs,
    cat-transport-udp/src/session.rs)

    A datagram is a 16-byte header, session id and request id, and a payload.
    The socket is what the network makes of it: a queue of the things
    [recv_from] returns before the deadline of an exchange.  What a session
    leaves unread stays queued for its next exchange. *)

From S2P Require Import Prelude Text Framework Client Tcp.

Definition SESSION_ID_LEN : nat := 8.
Definition REQUEST_ID_LEN : nat := 8.
Definition ENVELOPE_HEADER_LEN : nat := SESSION_ID_LEN + REQUEST_ID_LEN.
Definition MAX_PAYLOAD_SIZE : nat := 1024.
Definition MAX_DATAGRAM_SIZE : nat := ENVELOPE_HEADER_LEN + MAX_PAYLOAD_SIZE.
Definition DEDUP_CACHE_CAPACITY : nat := 32.
(** Durations in milliseconds. *)
Definition DEFAULT_RESPONSE_TIMEOUT : Z := 2000.

(** A socket address: only its equality matters. *)
Definition SocketAddr : Type := Z.

Inductive UdpSessionError : Type :=
| UdpIo (e : IoError)
| Timeout_ (peer : SocketAddr) (timeout : Z)
| PayloadTooLarge (len max : nat).

Definition encode_envelope (session_id request_id : Z) (payload : bytes) : result bytes UdpSessionError :=
  if (MAX_PAYLOAD_SIZE <? length payload)%nat
  then Err (PayloadTooLarge (length payload) MAX_PAYLOAD_SIZE)
  else Ok (to_be_bytes SESSION_ID_LEN session_id ++ to_be_bytes REQUEST_ID_LEN request_id ++ payload).

Definition decode_envelope (datagram : bytes) : option (Z * Z * bytes) :=
  if (length datagram <? ENVELOPE_HEADER_LEN)%nat then None
  else Some (from_be_bytes (take SESSION_ID_LEN datagram),
             from_be_bytes (take REQUEST_ID_LEN (drop SESSION_ID_LEN datagram)),
             drop ENVELOPE_HEADER_LEN datagram).

(** ** The deduplication cache: completed ids, oldest first *)

Definition RequestIdCache : Type := list Z.
Definition cache_new : RequestIdCache := [].
Definition remember_completed (c : RequestIdCache) (request_id : Z) : RequestIdCache :=
  (if (DEDUP_CACHE_CAPACITY <=? length c)%nat then drop 1 c else c) ++ [request_id].
Definition is_known_duplicate (c : RequestIdCache) (request_id : Z) : bool :=
  existsb (Z.eqb request_id) c.

(** ** The session *)

(** What one [recv_from] completes with. *)
Inductive Arrival : Type :=
| Datagram (from : SocketAddr) (data : bytes)
| RecvError (e : IoError).

Record UdpSocket : Type := mk_UdpSocket { queue : list Arrival; datagrams_sent : list (SocketAddr * bytes) }.
Record UdpCatSession : Type := mk_UdpCatSession {
  socket : UdpSocket;
  peer_addr : SocketAddr;
  udp_session_id : Z;
  next_request_id : Z;
  dedup_cache : RequestIdCache;
  response_timeout : Z }.

(** [UdpCatSession::new]; the random session id is an argument. *)
Definition udp_new (session_id : Z) (s : UdpSocket) (peer : SocketAddr) (timeout : Z) : UdpCatSession :=
  mk_UdpCatSession s peer session_id 0 cache_new timeout.

(** The receive loop of one exchange, to the deadline at the end of the
    queue.  [recv_from]'s buffer holds [MAX_DATAGRAM_SIZE] bytes: what is
    longer is cut. *)
Fixpoint receive_loop (peer session_id request_id timeout : Z) (q : list Arrival)
  : list Arrival * result bytes UdpSessionError :=
  match q with
  | [] => ([], Err (Timeout_ peer timeout))
  | RecvError e :: q => (q, Err (UdpIo e))
  | Datagram from data :: q =>
      if negb (from =? peer) then receive_loop peer session_id request_id timeout q
      else match decode_envelope (take MAX_DATAGRAM_SIZE data) with
           | None => receive_loop peer session_id request_id timeout q
           | Some (sid, rid, payload) =>
               if negb (sid =? session_id) then receive_loop peer session_id request_id timeout q
               else if negb (rid =? request_id) then receive_loop peer session_id request_id timeout q
               else (q, Ok payload)
           end
  end.

(** [execute], in a network where [send_to] ends with [sending] and then
    [arriving] reaches the socket before the deadline. *)
Definition udp_execute (s : UdpCatSession) (sending : result () IoError) (arriving : list Arrival)
    (request : bytes) : UdpCatSession * bytes * result ResponseDisposition UdpSessionError :=
  let request_id := wrapping_add_u64 s.(next_request_id) 1 in
  let update sock cache :=
    mk_UdpCatSession sock s.(peer_addr) s.(udp_session_id) request_id cache s.(response_timeout) in
  match encode_envelope s.(udp_session_id) request_id request with
  | Err e => (update s.(socket) s.(dedup_cache), [], Err e)
  | Ok datagram =>
      match sending with
      | Err e => (update s.(socket) s.(dedup_cache), [], Err (UdpIo e))
      | Ok _ =>
          let out := s.(socket).(datagrams_sent) ++ [(s.(peer_addr), datagram)] in
          let '(q, r) := receive_loop s.(peer_addr) s.(udp_session_id) request_id
                           s.(response_timeout) (s.(socket).(queue) ++ arriving) in
          match r with
          | Err e => (update (mk_UdpSocket q out) s.(dedup_cache), [], Err e)
          | Ok payload =>
              (update (mk_UdpSocket q out) (remember_completed s.(dedup_cache) request_id), payload,
               Ok (match payload with [] => NoResponse | _ => ResponseWritten end))
          end
      end
  end.

(** ** Codec *)

Definition is_u64 (z : Z) : Prop := 0 <= z < 2 ^ 64.
Definition envelope_of (session_id request_id : Z) (payload : bytes) : bytes :=
  to_be_bytes 8 session_id ++ to_be_bytes 8 request_id ++ payload.

Lemma decode_envelope_of sid rid p :
  is_u64 sid -> is_u64 rid -> decode_envelope (envelope_of sid rid p) = Some (sid, rid, p).
Proof.
  intros Hs Hr. unfold decode_envelope, envelope_of, ENVELOPE_HEADER_LEN, SESSION_ID_LEN, REQUEST_ID_LEN.
  destruct (Nat.ltb_spec (length (to_be_bytes 8 sid ++ to_be_bytes 8 rid ++ p)) (8 + 8)) as [Hl|_].
  { rewrite !length_app, !length_to_be_bytes in Hl. lia. }
  rewrite take_app_length', drop_app_length' by (by rewrite length_to_be_bytes).
  rewrite take_app_length' by (by rewrite length_to_be_bytes).
  rewrite app_assoc, drop_app_length' by (by rewrite length_app, !length_to_be_bytes).
  by rewrite !from_to_be_bytes_small by done.
Qed.

Lemma decode_envelope_inv d sid rid p :
  decode_envelope d = Some (sid, rid, p) -> is_u64 sid /\ is_u64 rid /\ d = envelope_of sid rid p.
Proof.
  unfold decode_envelope, envelope_of, ENVELOPE_HEADER_LEN, SESSION_ID_LEN, REQUEST_ID_LEN, is_u64.
  destruct (Nat.ltb_spec (length d) (8 + 8)) as [Hl|Hl]; [done|]. intros [= <- <- <-].
  assert (H8 : length (take 8 d) = 8%nat) by (rewrite length_take; lia).
  assert (H8' : length (take 8 (drop 8 d)) = 8%nat) by (rewrite length_take, length_drop; lia).
  pose proof (from_be_bytes_range (take 8 d)) as R1.
  pose proof (from_be_bytes_range (take 8 (drop 8 d))) as R2. rewrite H8 in R1. rewrite H8' in R2.
  pose proof (to_from_be_bytes (take 8 d)) as E1.
  pose proof (to_from_be_bytes (take 8 (drop 8 d))) as E2. rewrite H8 in E1. rewrite H8' in E2.
  split_and!; [lia..|]. rewrite E1, E2. change (drop 16 d) with (drop (8 + 8) d).
  by rewrite <- drop_drop, !take_drop.
Qed.

(** The envelope codec is exact: a datagram decodes to ids and a payload
    if and only if it is the encoding of them, so what is encoded within the
    size limit is what the other side decodes, and nothing else decodes to
    it. *)
Theorem envelope_exact d sid rid p :
  (decode_envelope d = Some (sid, rid, p)
     <-> is_u64 sid /\ is_u64 rid /\ d = envelope_of sid rid p)
  /\ encode_envelope sid rid p
     = if (length p <=? MAX_PAYLOAD_SIZE)%nat then Ok (envelope_of sid rid p)
       else Err (PayloadTooLarge (length p) MAX_PAYLOAD_SIZE).
Proof.
  split.
  - split; [apply decode_envelope_inv|]. intros (? & ? & ->). by apply decode_envelope_of.
  - unfold encode_envelope, envelope_of, SESSION_ID_LEN, REQUEST_ID_LEN.
    destruct (Nat.ltb_spec MAX_PAYLOAD_SIZE (length p)), (Nat.leb_spec (length p) MAX_PAYLOAD_SIZE);
      try lia; done.
Qed.

Lemma envelope_exact_witness :
  decode_envelope (map u8 [0;0;0;0;0;0;0;7; 0;0;0;0;0;0;0;8; 63]) = Some (7, 8, as_bytes "?").
Proof.
  apply (proj1 (envelope_exact (map u8 [0;0;0;0;0;0;0;7; 0;0;0;0;0;0;0;8; 63]) 7 8 (as_bytes "?"))).
  split_and!; [unfold is_u64; lia..|vm_compute; reflexivity].
Defined.

(** ** What an exchange accepts *)

(** The datagram [a] is what exchange [rid] of the session waits for. *)
Definition answer_for (peer sid rid : Z) (a : Arrival) : option bytes :=
  match a with
  | Datagram from data =>
      if from =? peer then
        match decode_envelope (take MAX_DATAGRAM_SIZE data) with
        | Some (s, r, p) => if (s =? sid) && (r =? rid) then Some p else None
        | None => None
        end
      else None
  | RecvError _ => None
  end.

(** The loop's result is the first thing in the queue that is not noise. *)
Inductive first_answer (peer sid rid : Z) : list Arrival -> list Arrival -> result bytes IoError -> Prop :=
| first_accept a q p : answer_for peer sid rid a = Some p -> first_answer peer sid rid (a :: q) q (Ok p)
| first_error e q : first_answer peer sid rid (RecvError e :: q) q (Err e)
| first_noise from data q q' r :
    answer_for peer sid rid (Datagram from data) = None -> first_answer peer sid rid q q' r ->
    first_answer peer sid rid (Datagram from data :: q) q' r.

Lemma receive_loop_step peer sid rid timeout from data q :
  receive_loop peer sid rid timeout (Datagram from data :: q)
  = match answer_for peer sid rid (Datagram from data) with
    | Some p => (q, Ok p)
    | None => receive_loop peer sid rid timeout q
    end.
Proof.
  cbn [receive_loop answer_for]. destruct (from =? peer); cbn [negb]; [|done].
  destruct (decode_envelope _) as [[[s r] p]|]; [|done].
  destruct (s =? sid), (r =? rid); done.
Qed.

Lemma receive_loop_spec peer sid rid timeout q :
  match receive_loop peer sid rid timeout q with
  | (q', Ok p) => first_answer peer sid rid q q' (Ok p)
  | (q', Err (UdpIo e)) => first_answer peer sid rid q q' (Err e)
  | (q', Err (Timeout_ a t)) =>
      q' = [] /\ a = peer /\ t = timeout
      /\ Forall (fun a => answer_for peer sid rid a = None /\ forall e, a <> RecvError e) q
  | (_, Err (PayloadTooLarge _ _)) => False
  end.
Proof.
  induction q as [|[from data|e] q IH].
  - cbn. auto.
  - rewrite receive_loop_step. destruct (answer_for peer sid rid (Datagram from data)) as [p|] eqn:Ha.
    { by apply first_accept. }
    destruct (receive_loop peer sid rid timeout q) as [q' [p|[e|a t|n m]]]; [by apply first_noise..| |done].
    destruct IH as (-> & -> & -> & H). split_and!; [done..|]. constructor; [|done]. split; [done|]. done.
  - cbn. apply first_error.
Qed.

Lemma first_answer_det peer sid rid q q1 r1 q2 r2 :
  first_answer peer sid rid q q1 r1 -> first_answer peer sid rid q q2 r2 -> q1 = q2 /\ r1 = r2.
Proof.
  intros H. revert q2 r2. induction H; intros q2 r2 H2; inversion H2; subst; try congruence; try done;
    try (split; congruence); eauto.
Qed.

Lemma first_answer_loop peer sid rid timeout q q' p :
  first_answer peer sid rid q q' (Ok p) -> receive_loop peer sid rid timeout q = (q', Ok p).
Proof.
  intros H. remember (Ok p) as r eqn:Er. induction H as [[from data|] q p' Ha| |from data q q' r Ha H IH];
    try done.
  - rewrite receive_loop_step, Ha. by injection Er as ->.
  - rewrite receive_loop_step, Ha. auto.
Qed.

(** An exchange accepts exactly its own answer: it succeeds with a payload
    if and only if, before any socket error, a datagram came from the
    configured peer with this session's id and this request's id carrying that
    payload, and it is the first such; everything before it was discarded and
    everything after it is left for later exchanges.  The id used is the one
    after the last, and only a completed request is remembered. *)
Theorem udp_accepts_own_answer s request arriving q p :
  (length request <= MAX_PAYLOAD_SIZE)%nat ->
  let rid := wrapping_add_u64 s.(next_request_id) 1 in
  first_answer s.(peer_addr) s.(udp_session_id) rid (s.(socket).(queue) ++ arriving) q (Ok p)
  <-> exists s' d, udp_execute s (Ok tt) arriving request = (s', p, Ok d)
      /\ s'.(socket).(queue) = q
      /\ s'.(socket).(datagrams_sent) = s.(socket).(datagrams_sent)
           ++ [(s.(peer_addr), envelope_of s.(udp_session_id) rid request)]
      /\ s'.(next_request_id) = rid /\ s'.(dedup_cache) = remember_completed s.(dedup_cache) rid.
Proof.
  intros Hlen rid. unfold udp_execute. fold rid.
  unfold encode_envelope, SESSION_ID_LEN, REQUEST_ID_LEN.
  destruct (Nat.ltb_spec MAX_PAYLOAD_SIZE (length request)); [lia|].
  pose proof (receive_loop_spec s.(peer_addr) s.(udp_session_id) rid s.(response_timeout)
                (s.(socket).(queue) ++ arriving)) as Hspec.
  split.
  - intros Hf. rewrite (first_answer_loop _ _ _ s.(response_timeout) _ _ _ Hf). eauto 10.
  - intros (s' & d & Hx & <- & _). revert Hspec Hx.
    destruct (receive_loop _ _ _ _ _) as [q' [p'|e]]; [|done]. intros Hspec [= <- <- <-]. done.
Qed.

Definition example_session : UdpCatSession := udp_new 7 (mk_UdpSocket [] []) 1 2000.
Definition example_noise : list Arrival :=
  [Datagram 2 (envelope_of 7 1 (as_bytes "stranger")); Datagram 1 (as_bytes "short");
   Datagram 1 (envelope_of 7 0 (as_bytes "stale")); Datagram 1 (envelope_of 8 1 (as_bytes "other"))].

Lemma udp_accepts_own_answer_witness :
  exists s' d, udp_execute example_session (Ok tt)
      (example_noise ++ [Datagram 1 (envelope_of 7 1 (as_bytes "FA1;")); Datagram 1 []]) (as_bytes "FA;")
      = (s', as_bytes "FA1;", Ok d)
    /\ s'.(socket).(queue) = [Datagram 1 []]
    /\ s'.(socket).(datagrams_sent) = [(1, envelope_of 7 1 (as_bytes "FA;"))]
    /\ s'.(next_request_id) = 1 /\ s'.(dedup_cache) = [1].
Proof.
  apply (udp_accepts_own_answer example_session (as_bytes "FA;")
    (example_noise ++ [Datagram 1 (envelope_of 7 1 (as_bytes "FA1;")); Datagram 1 []])
    [Datagram 1 []] (as_bytes "FA1;")); [vm_compute; lia|].
  do 4 (apply first_noise; [vm_compute; reflexivity|]).
  apply first_accept. vm_compute. reflexivity.
Defined.

(** ** A run of exchanges *)

(** One exchange: the request, how [send_to] ended, and what the network
    delivered to the socket before its deadline. *)
Record Exchange : Type := mk_Exchange {
  ex_request : bytes; ex_sending : result () IoError; ex_arriving : list Arrival }.

Fixpoint udp_run (s : UdpCatSession) (xs : list Exchange)
  : list (bytes * result ResponseDisposition UdpSessionError) :=
  match xs with
  | [] => []
  | x :: xs =>
      let '(s, p, r) := udp_execute s x.(ex_sending) x.(ex_arriving) x.(ex_request) in
      (p, r) :: udp_run s xs
  end.

(** The peer answers a request id with one answer, however often, late or out
    of order the network delivers it. *)
Definition honest (peer sid : Z) (answers : Z -> bytes) (a : Arrival) : Prop :=
  forall rid p, answer_for peer sid rid a = Some p -> p = answers rid.

Lemma first_answer_from_queue peer sid rid answers q q' r :
  Forall (honest peer sid answers) q -> first_answer peer sid rid q q' r ->
  Forall (honest peer sid answers) q' /\ forall p, r = Ok p -> p = answers rid.
Proof.
  intros Hq H. induction H as [a q p Ha|e q|from data q q' r Ha H IH]; apply Forall_cons_1 in Hq as [H1 Hq].
  - split; [done|]. intros p' [= ->]. eauto.
  - done.
  - eauto.
Qed.

Lemma udp_execute_honest answers s x s' p r :
  Forall (honest s.(peer_addr) s.(udp_session_id) answers) (s.(socket).(queue) ++ x.(ex_arriving)) ->
  udp_execute s x.(ex_sending) x.(ex_arriving) x.(ex_request) = (s', p, r) ->
  Forall (honest s.(peer_addr) s.(udp_session_id) answers) s'.(socket).(queue)
  /\ s'.(peer_addr) = s.(peer_addr) /\ s'.(udp_session_id) = s.(udp_session_id)
  /\ s'.(next_request_id) = wrapping_add_u64 s.(next_request_id) 1
  /\ (forall d, r = Ok d -> p = answers (wrapping_add_u64 s.(next_request_id) 1)).
Proof.
  intros Hq. unfold udp_execute.
  destruct (encode_envelope _ _ _) as [dg|]; [|intros [= <- <- <-]; apply Forall_app in Hq as [??]; done].
  destruct (ex_sending x) as [[]|]; [|intros [= <- <- <-]; apply Forall_app in Hq as [??]; done].
  pose proof (receive_loop_spec s.(peer_addr) s.(udp_session_id)
    (wrapping_add_u64 s.(next_request_id) 1) s.(response_timeout)
    (s.(socket).(queue) ++ ex_arriving x)) as Hspec. revert Hspec.
  destruct (receive_loop _ _ _ _ _) as [q [p'|[e|a t|n m]]]; intros Hspec [= <- <- <-]; cbn [socket queue
    peer_addr udp_session_id next_request_id].
  - destruct (first_answer_from_queue _ _ _ answers _ _ _ Hq Hspec) as [? Hp].
    split_and!; try done. intros _ _. auto.
  - destruct (first_answer_from_queue _ _ _ answers _ _ _ Hq Hspec) as [? _]. done.
  - by destruct Hspec as (-> & _).
  - done.
Qed.

(** C7. Responses are never misattributed: over any run of exchanges of a
    fresh session, whatever the network loses, delays, duplicates or reorders
    and whatever strangers send, if the peer gives one answer per request id
    then every exchange that succeeds returns the answer to its own request,
    the n-th exchange's being the answer to id n. *)
Theorem udp_replies_correlated sid peer timeout sent xs answers :
  Z.of_nat (length xs) < 2 ^ 64 ->
  Forall (honest peer sid answers) (concat (map ex_arriving xs)) ->
  forall n p d,
    udp_run (udp_new sid (mk_UdpSocket [] sent) peer timeout) xs !! n = Some (p, Ok d) ->
    p = answers (Z.of_nat n + 1).
Proof.
  enough (forall xs s, 0 <= s.(next_request_id) -> s.(next_request_id) + Z.of_nat (length xs) < 2 ^ 64 ->
    Forall (honest s.(peer_addr) s.(udp_session_id) answers)
      (s.(socket).(queue) ++ concat (map ex_arriving xs)) ->
    forall n p d, udp_run s xs !! n = Some (p, Ok d) -> p = answers (s.(next_request_id) + Z.of_nat n + 1))
    as H.
  { intros Hl Hh n p d. exact (H xs (udp_new sid (mk_UdpSocket [] sent) peer timeout)
      ltac:(cbn; lia) ltac:(cbn [udp_new next_request_id]; lia) Hh n p d). }
  clear xs. intros xs. induction xs as [|x xs IH]; intros s H0 Hl Hh n p d Hr; [done|].
  cbn [udp_run map concat length] in *. rewrite app_assoc in Hh. apply Forall_app in Hh as [Hh1 Hh2].
  destruct (udp_execute _ _ _ _) as [[s' p'] r] eqn:Hx.
  destruct (udp_execute_honest answers s x s' p' r Hh1 Hx) as (Hq & Hpeer & Hsid & Hid & Hp).
  unfold wrapping_add_u64 in *. rewrite Z.mod_small in Hid, Hp by lia.
  destruct n as [|n]; cbn in Hr.
  - injection Hr as -> ->. rewrite Z.add_0_r. eauto.
  - rewrite (IH s' ltac:(lia) ltac:(lia)) with (n := n) (p := p) (d := d); [|rewrite Hpeer, Hsid|done].
    + f_equal. lia.
    + by apply Forall_app.
Qed.

Definition example_answers (rid : Z) : bytes := if rid =? 1 then as_bytes "FA1;" else as_bytes "FB2;".
(** The first answer arrives twice, its copy ahead of the second answer. *)
Definition example_run : list Exchange :=
  [mk_Exchange (as_bytes "FA;") (Ok tt)
     [Datagram 1 (envelope_of 7 1 (as_bytes "FA1;")); Datagram 1 (envelope_of 7 1 (as_bytes "FA1;"))];
   mk_Exchange (as_bytes "FB;") (Ok tt) [Datagram 1 (envelope_of 7 2 (as_bytes "FB2;"))]].

Lemma honest_envelope peer sid answers j p :
  is_u64 sid -> is_u64 j -> p = answers j -> (length p <= MAX_PAYLOAD_SIZE)%nat ->
  honest peer sid answers (Datagram peer (envelope_of sid j p)).
Proof.
  intros Hs Hj Hp Hl rid p' H. cbn [answer_for] in H. rewrite Z.eqb_refl in H.
  rewrite take_ge in H.
  2: { unfold envelope_of. rewrite !length_app, !length_to_be_bytes.
       unfold MAX_DATAGRAM_SIZE, ENVELOPE_HEADER_LEN, SESSION_ID_LEN, REQUEST_ID_LEN. lia. }
  assert (Hd : decode_envelope (envelope_of sid j p) = Some (sid, j, p)) by by apply decode_envelope_of.
  rewrite Hd, Z.eqb_refl in H. cbn [andb] in H. destruct (Z.eqb_spec j rid); congruence.
Qed.

Lemma udp_replies_correlated_witness :
  udp_run example_session example_run !! 1%nat = Some (as_bytes "FB2;", Ok ResponseWritten)
  /\ as_bytes "FB2;" = example_answers 2.
Proof.
  assert (H : udp_run example_session example_run !! 1%nat = Some (as_bytes "FB2;", Ok ResponseWritten))
    by (vm_compute; reflexivity).
  split; [exact H|].
  refine (udp_replies_correlated 7 1 2000 [] example_run example_answers _ _ 1 _ ResponseWritten H);
    [vm_compute; reflexivity|].
  repeat constructor; apply honest_envelope; try (unfold is_u64; lia); try reflexivity; vm_compute; lia.
Defined.

(** The client's cache is the last 32 completed ids: after any sequence of
    completions it holds exactly the most recent 32, in order, and recognises
    an id as a duplicate exactly when it is among them. *)
Theorem cache_is_last_completed ids :
  let c := fold_left remember_completed ids cache_new in
  c = drop (length ids - DEDUP_CACHE_CAPACITY) ids
  /\ (length c <= DEDUP_CACHE_CAPACITY)%nat
  /\ forall id, is_known_duplicate c id = true <-> id ∈ drop (length ids - DEDUP_CACHE_CAPACITY) ids.
Proof.
  intros c. assert (Hc : c = drop (length ids - DEDUP_CACHE_CAPACITY) ids).
  { subst c. induction ids as [|id ids IH] using rev_ind; [done|].
    rewrite fold_left_app. cbn [fold_left]. rewrite IH. unfold remember_completed.
    rewrite !length_app, length_drop. cbn [length]. unfold DEDUP_CACHE_CAPACITY in *.
    destruct (Nat.leb_spec 32 (length ids - (length ids - 32))).
    - rewrite drop_drop, <- drop_app_le by lia. f_equal. lia.
    - rewrite <- drop_app_le by lia. f_equal. lia. }
  split_and!; [done| |].
  - rewrite Hc, length_drop. lia.
  - intros id. rewrite <- Hc. unfold is_known_duplicate. rewrite existsb_exists. split.
    + intros (x & Hx & He). apply Z.eqb_eq in He as ->. by apply list_elem_of_In.
    + intros Hx. exists id. rewrite Z.eqb_refl. split; [by apply list_elem_of_In|done].
Qed.
