(* ===== verification/Serial.v ===== *)
(** * Serial: a session over a byte transport
    (cat-transport-serial/src/session.rs, cat-transport-core/src/transport.rs,
    errors.rs, cat-transport-serial/src/timeouts.rs)

    The byte transport is the class [Transport]; [TransportLaws] says what its
    operations are documented to do, in terms of the bytes still to come from
    the radio.  The session writes a request and reads one byte at a time until
    the wire format says the frame is complete. *)

From S2P Require Import Prelude Text Utf8 Framework Civ Client Tcp.

Inductive TransportError : Type :=
| TIo (e : IoError) | NotOpen | WriteTimeout | ReadTimeout | TOther (message : text).

(** [Transport]; the clock is read between its operations. *)
Class Transport (T : Type) : Type := {
  t_write : T -> bytes -> T * result nat TransportError;
  t_read : T -> nat -> T * result bytes TransportError;
  t_flush : T -> T * result () TransportError;
  t_flush_rx : T -> T;
  t_drain : T -> T;
  t_now : T -> Z }.

(** [READ_TIMEOUT], 2 s in nanoseconds. *)
Definition READ_TIMEOUT : Z := 2000000000.
Definition MAX_FRAME_LEN : nat := 64.

Record SerialCatSession (T F : Type) : Type := with_format { transport : T; s_format : F }.
Arguments with_format {T F}.
Arguments transport {T F}.
Arguments s_format {T F}.

Definition too_long : TransportError :=
  TOther (txt "response exceeded 64 bytes with no terminator").

Section Serial.
  Context {T F : Type} `{!Transport T} `{!FrameScanner F}.

(** The read loop of [execute]; [None] when the fuel is used up. *)
Fixpoint serial_loop (fuel : nat) (f : F) (deadline : Z) (t : T) (response : bytes)
  : option (T * bytes * result () TransportError) :=
  match fuel with
  | O => None
  | S fuel =>
      if deadline <=? t_now t then Some (t_flush_rx t, [], Err ReadTimeout)
      else
        let '(t, r) := t_read t 1 in
        match r with
        | Err e => Some (t_flush_rx t, [], Err e)
        | Ok [] => Some (t, response, Ok tt)
        | Ok (b :: _) =>
            let response := response ++ [b] in
            if frame_complete f response then Some (t, response, Ok tt)
            else if (MAX_FRAME_LEN <=? length response)%nat then Some (t_flush_rx t, [], Err too_long)
            else serial_loop fuel f deadline t response
        end
  end.

Definition disposition (response : bytes) : ResponseDisposition :=
  match response with [] => NoResponse | _ => ResponseWritten end.

(** [execute]: 64 rounds are enough, see [serial_loop_total]. *)
Definition serial_try_execute (s : SerialCatSession T F) (request : bytes)
  : option (SerialCatSession T F * bytes * result ResponseDisposition TransportError) :=
  let t := t_drain s.(transport) in
  let '(t, w) := t_write t request in
  match w with
  | Err e => Some (with_format t s.(s_format), [], Err e)
  | Ok _ =>
      let '(t, fl) := t_flush t in
      match fl with
      | Err e => Some (with_format t s.(s_format), [], Err e)
      | Ok _ =>
          '(t, response, r) ← serial_loop MAX_FRAME_LEN s.(s_format) (t_now t + READ_TIMEOUT) t [];
          Some (with_format t s.(s_format), response, result_map (fun _ => disposition response) r)
      end
  end.

Definition serial_execute (s : SerialCatSession T F) (request : bytes)
  : SerialCatSession T F * bytes * result ResponseDisposition TransportError :=
  default (s, [], Err NotOpen) (serial_try_execute s request).

Definition serial_send (s : SerialCatSession T F) (request : bytes)
  : SerialCatSession T F * result () TransportError :=
  let '(t, w) := t_write s.(transport) request in
  match w with
  | Err e => (with_format t s.(s_format), Err e)
  | Ok _ =>
      let '(t, fl) := t_flush t in
      match fl with
      | Err e => (with_format t s.(s_format), Err e)
      | Ok _ => (with_format (t_drain t) s.(s_format), Ok tt)
      end
  end.

Definition serial_flush_rx (s : SerialCatSession T F) : SerialCatSession T F :=
  with_format (t_flush_rx s.(transport)) s.(s_format).
End Serial.

#[export] Instance serial_session {T F} `{!Transport T} `{!FrameScanner F}
  : CatSession (SerialCatSession T F) TransportError := {|
  execute := serial_execute; session_send := serial_send |}.

(** ** What a transport promises *)

(** [incoming]: the bytes reads will yield if nothing more is written.
    [answers]: what the radio says to a request.  [settles]: what the radio is
    sending stops soon enough for [drain] to wait for it. *)
Class TransportLaws (T : Type) `{!Transport T} : Type := {
  incoming : T -> bytes;
  answers : T -> bytes -> bytes;
  settles : T -> Prop;
  drain_law : forall t, settles t -> incoming (t_drain t) = [];
  write_law : forall t req t' n, t_write t req = (t', Ok n) -> incoming t' = incoming t ++ answers t req;
  flush_law : forall t t' r, t_flush t = (t', r) -> incoming t' = incoming t;
  byte_law : forall t n t' b, t_read t n = (t', Ok b) -> incoming t = b ++ incoming t' /\ (length b <= n)%nat }.

Section Laws.
  Context {T F : Type} `{!Transport T} `{!FrameScanner F}.
  Implicit Types (t : T) (f : F).

(** No earlier end: the format sees no frame in a proper non-empty prefix. *)
Definition first_end (f : F) (response : bytes) : Prop :=
  forall n, (0 < n < length response)%nat -> frame_complete f (take n response) = false.

Lemma first_end_snoc f response b :
  first_end f response -> (response <> [] -> frame_complete f response = false) -> first_end f (response ++ [b]).
Proof.
  intros H Hc n Hn. rewrite length_app in Hn. cbn in Hn. rewrite take_app_le by lia.
  destruct (decide (n = length response)) as [->|]; [|apply H; lia].
  rewrite firstn_all. apply Hc. by destruct response; [cbn in Hn; lia|].
Qed.

(** The loop ends within as many rounds as there is room left. *)
Lemma serial_loop_total f deadline fuel : forall t response,
  (length response < MAX_FRAME_LEN)%nat -> (MAX_FRAME_LEN <= fuel + length response)%nat ->
  is_Some (serial_loop fuel f deadline t response).
Proof.
  induction fuel as [|fuel IH]; intros t response Hl Hf; [cbn in Hf; lia|]. cbn [serial_loop].
  destruct (deadline <=? t_now t); [by eexists|]. destruct (t_read t 1) as [t' [[|b x]|e]]; try by eexists.
  cbn zeta. destruct (frame_complete _ _); [by eexists|].
  destruct (Nat.leb_spec MAX_FRAME_LEN (length (response ++ [b]))) as [|Hlt]; [by eexists|].
  apply IH; [done|]. rewrite length_app. cbn. lia.
Qed.

(** An exchange always comes to an end, in at most 64 reads. *)
Theorem serial_execute_total (s : SerialCatSession T F) request :
  serial_try_execute s request = Some (serial_execute s request).
Proof.
  unfold serial_execute. enough (is_Some (serial_try_execute s request)) as [x ->] by done.
  unfold serial_try_execute. destruct (t_write _ _) as [t [n|e]]; [|by eexists].
  destruct (t_flush t) as [t' [[]|e]]; [|by eexists].
  destruct (serial_loop_total s.(s_format) (t_now t' + READ_TIMEOUT) MAX_FRAME_LEN t' []) as [[[t2 resp] r] ->];
    [unfold MAX_FRAME_LEN; cbn; lia|unfold MAX_FRAME_LEN; cbn; lia|]. by eexists.
Qed.

Context `{!TransportLaws T}.

(** What the loop returns are the next bytes, up to the first end of a frame. *)
Lemma serial_loop_spec f deadline fuel : forall t response t' out r,
  serial_loop fuel f deadline t response = Some (t', out, r) ->
  first_end f response -> (response <> [] -> frame_complete f response = false) ->
  (length response < MAX_FRAME_LEN)%nat ->
  match r with
  | Ok _ => exists next, out = response ++ next /\ incoming t = next ++ incoming t'
            /\ first_end f out /\ (length out <= MAX_FRAME_LEN)%nat
  | Err _ => out = []
  end.
Proof.
  induction fuel as [|fuel IH]; intros t response t' out r E Hf Hc Hl; [done|]. cbn [serial_loop] in E.
  destruct (deadline <=? t_now t); [by simplify_eq|].
  destruct (t_read t 1) as [t1 [[|b x]|e]] eqn:Er; [| |by simplify_eq].
  - simplify_eq. apply byte_law in Er as [Er _]. exists []. rewrite app_nil_r. cbn in Er. split_and!; [done|done|done|lia].
  - apply byte_law in Er as [Er Hx]. cbn in Hx. assert (x = []) as -> by (destruct x; [done|cbn in Hx; lia]). cbn zeta in E.
    pose proof (first_end_snoc f response b Hf Hc) as Hf'.
    destruct (frame_complete f (response ++ [b])) eqn:Hfc.
    + simplify_eq. exists [b]. split_and!; [done|done|done|]. rewrite length_app. cbn. lia.
    + destruct (Nat.leb_spec MAX_FRAME_LEN (length (response ++ [b]))); [by simplify_eq|].
      specialize (IH _ _ _ _ _ E Hf' (fun _ => Hfc) ltac:(lia)). destruct r as [[]|]; [|done].
      destruct IH as (next & -> & Ei & H1 & H2). exists (b :: next). rewrite <- app_assoc in H1, H2 |- *.
      split_and!; [done| |done|done]. rewrite Er, Ei. done.
Qed.

Lemma first_end_nil f : first_end f [].
Proof. intros n Hn. cbn in Hn. lia. Qed.

(** C17. Responses do not cross: whatever was left in the port before, what an
    exchange returns is the beginning of what the radio says to this very
    request, up to and not past the first end of a frame; an exchange that
    fails returns no byte. *)
Theorem serial_never_crosses (s : SerialCatSession T F) request s' response r :
  settles s.(transport) ->
  execute s request = (s', response, r) ->
  match r with
  | Ok d => (exists rest, answers (t_drain s.(transport)) request = response ++ rest)
            /\ first_end s.(s_format) response /\ (length response <= MAX_FRAME_LEN)%nat /\ d = disposition response
  | Err _ => response = []
  end.
Proof.
  intros Hs E. cbn in E. assert (E' : serial_try_execute s request = Some (s', response, r)).
  { rewrite <- E. apply serial_execute_total. }
  clear E. unfold serial_try_execute in E'. pose proof (drain_law _ Hs) as Hd.
  destruct (t_write (t_drain s.(transport)) request) as [t [n|e]] eqn:Ew; [|by simplify_eq].
  apply write_law in Ew. rewrite Hd in Ew. cbn in Ew.
  destruct (t_flush t) as [t1 [[]|e]] eqn:Ef; [|by simplify_eq]. apply flush_law in Ef.
  destruct (serial_loop _ _ _ t1 []) as [[[t2 out] r2]|] eqn:El; [|done]. cbn in E'. simplify_eq.
  apply serial_loop_spec in El; [|apply first_end_nil|done|cbn; unfold MAX_FRAME_LEN; lia].
  destruct r2 as [[]|]; [|done]. destruct El as (next & -> & Ei & H1 & H2). cbn. cbn in H1, H2.
  split_and!; [|done|done|done]. exists (incoming t2). congruence.
Qed.

(** The next [n] bytes are read one at a time, each before the deadline. *)
Fixpoint prompt (deadline : Z) (n : nat) (t : T) : Prop :=
  match n with
  | O => True
  | S n => t_now t < deadline /\ exists b t', t_read t 1 = (t', Ok [b]) /\ prompt deadline n t'
  end.

Lemma serial_loop_reads f deadline frame : forall fuel t response rest,
  prompt deadline (length frame) t -> incoming t = frame ++ rest -> frame <> [] ->
  first_end f (response ++ frame) -> frame_complete f (response ++ frame) = true ->
  (length (response ++ frame) <= MAX_FRAME_LEN)%nat -> (length frame <= fuel)%nat ->
  exists t', serial_loop fuel f deadline t response = Some (t', response ++ frame, Ok tt) /\ incoming t' = rest.
Proof.
  induction frame as [|b frame IH]; intros fuel t response rest Hp Ei Hne Hf Hc Hl Hfu; [done|].
  destruct fuel as [|fuel]; [cbn in Hfu; lia|]. cbn [length prompt] in Hp. destruct Hp as (Hnow & b' & t1 & Er & Hp).
  cbn [serial_loop]. destruct (Z.leb_spec deadline (t_now t)); [lia|]. rewrite Er.
  apply byte_law in Er as [Er _]. rewrite Ei in Er. injection Er as -> Er. cbn zeta.
  rewrite (cons_middle b' response frame) in Hf, Hc, Hl |- *. rewrite (app_assoc response) in Hf, Hc, Hl |- *.
  destruct frame as [|b frame].
  - rewrite app_nil_r in Hf, Hc, Hl |- *. rewrite Hc. by exists t1.
  - assert (Hlt : (length (response ++ [b']) < length ((response ++ [b']) ++ b :: frame))%nat) by (rewrite (length_app (response ++ [b'])); cbn; lia).
    pose proof (Hf (length (response ++ [b']))) as H1. rewrite take_app_length in H1.
    rewrite H1 by (rewrite length_app in Hlt |- *; cbn in *; lia).
    destruct (Nat.leb_spec MAX_FRAME_LEN (length (response ++ [b']))); [lia|].
    apply IH; try done. cbn in Hfu |- *. lia.
Qed.

Lemma serial_execute_reads (s : SerialCatSession T F) request frame rest t1 n t2 :
  settles s.(transport) -> t_write (t_drain s.(transport)) request = (t1, Ok n) -> t_flush t1 = (t2, Ok tt) ->
  answers (t_drain s.(transport)) request = frame ++ rest ->
  frame <> [] -> first_end s.(s_format) frame -> frame_complete s.(s_format) frame = true ->
  (length frame <= MAX_FRAME_LEN)%nat -> prompt (t_now t2 + READ_TIMEOUT) (length frame) t2 ->
  exists s', execute s request = (s', frame, Ok ResponseWritten) /\ incoming s'.(transport) = rest.
Proof.
  intros Hs Ew Ef Ea Hne Hf Hc Hl Hp. cbn. unfold serial_execute, serial_try_execute. rewrite Ew, Ef.
  apply flush_law in Ef. apply write_law in Ew. rewrite drain_law, Ea in Ew by done. cbn in Ew. rewrite Ew in Ef.
  destruct (serial_loop_reads s.(s_format) (t_now t2 + READ_TIMEOUT) frame MAX_FRAME_LEN t2 [] rest) as (t3 & -> & E);
    try done. cbn. exists (with_format t3 s.(s_format)). split; [by destruct frame|exact E].
Qed.

(** A prompt answer is read whole and alone: when the radio answers with a
    frame of at most 64 bytes in time, the exchange returns exactly that frame,
    and what follows it is left in the port. *)
Theorem serial_reads_frame (s : SerialCatSession T F) request frame rest t1 n t2 :
  settles s.(transport) -> t_write (t_drain s.(transport)) request = (t1, Ok n) -> t_flush t1 = (t2, Ok tt) ->
  answers (t_drain s.(transport)) request = frame ++ rest ->
  frame <> [] -> first_end s.(s_format) frame -> frame_complete s.(s_format) frame = true ->
  (length frame <= MAX_FRAME_LEN)%nat -> prompt (t_now t2 + READ_TIMEOUT) (length frame) t2 ->
  exists s', execute s request = (s', frame, Ok ResponseWritten) /\ incoming s'.(transport) = rest.
Proof. apply serial_execute_reads. Qed.

(** A set leaves nothing behind for the next reader. *)
Lemma serial_send_settled (s : SerialCatSession T F) request s' :
  session_send s request = (s', Ok tt) ->
  (forall t n t' x, t_write s.(transport) request = (t, Ok n) -> t_flush t = (t', x) -> settles t') ->
  incoming s'.(transport) = [].
Proof.
  cbn. unfold serial_send. intros E Hs. destruct (t_write _ _) as [t [n|e]] eqn:Ew; [|done].
  destruct (t_flush t) as [t1 [[]|e]] eqn:Ef; [|done]. simplify_eq. cbn. apply drain_law. by eapply Hs.
Qed.
End Laws.

(** ** CI-V on one wire *)

Section OneWire.
  Context {T : Type} `{!Transport T} `{!TransportLaws T}.

(** On a bus that echoes, a CI-V exchange returns the echo: when every byte
    the controller sends comes back before the radio answers, the response is
    the request itself, a frame [is_echo] recognises and nothing here asks it
    about, and the radio's answer is left for the next exchange to drain. *)
Theorem civ_exchange_returns_echo (s : SerialCatSession T CivFormat) c params reply t1 n t2 :
  let request := encode_request s.(s_format) c params in
  settles s.(transport) -> t_write (t_drain s.(transport)) request = (t1, Ok n) -> t_flush t1 = (t2, Ok tt) ->
  answers (t_drain s.(transport)) request = request ++ reply ->
  Forall (fun b => b <> END_OF_MESSAGE) ([s.(s_format).(radio); s.(s_format).(controller)] ++ code_bytes c ++ params) ->
  (length request <= MAX_FRAME_LEN)%nat -> prompt (t_now t2 + READ_TIMEOUT) (length request) t2 ->
  exists s', execute s request = (s', request, Ok ResponseWritten)
    /\ is_echo s.(s_format) request = true /\ incoming s'.(transport) = reply.
Proof.
  intros request Hs Ew Ef Ea Hno Hl Hp.
  assert (Hne : request <> []) by (unfold request; by destruct c).
  assert (Hlen : (0 < length request)%nat) by (by destruct request; [|cbn; lia]).
  destruct (serial_execute_reads s request request reply t1 n t2) as (s' & E & Ei); try done.
  - intros k Hk. apply (civ_frame_complete_exact _ _ _ k Hno). cbn in Hk |- *. lia.
  - by apply (civ_frame_complete_exact _ _ _ 0 Hno).
  - exists s'. split_and!; [done| |done]. unfold is_echo. rewrite (civ_request_envelope s.(s_format) c params : parse_envelope request = _). cbn.
    by rewrite !bool_decide_eq_true_2.
Qed.
End OneWire.

(** ** A line in memory *)

(** A radio that answers with a function of the request, on a line with some
    bytes already in it; every byte read takes a millisecond. *)
Record Line : Type := mk_Line { in_line : bytes; says : bytes -> bytes; line_clock : Z; written : bytes }.

#[export] Instance line_transport : Transport Line := {|
  t_write l req := (mk_Line (l.(in_line) ++ l.(says) req) l.(says) l.(line_clock) (l.(written) ++ req), Ok (length req));
  t_read l n := match n, l.(in_line) with
                | S _, b :: rest => (mk_Line rest l.(says) (l.(line_clock) + 1000000) l.(written), Ok [b])
                | _, _ => (l, Ok [])
                end;
  t_flush l := (l, Ok tt);
  t_flush_rx l := mk_Line [] l.(says) l.(line_clock) l.(written);
  t_drain l := mk_Line [] l.(says) l.(line_clock) l.(written);
  t_now l := l.(line_clock) |}.

#[export] Instance line_laws : TransportLaws Line.
Proof.
  refine {| incoming := in_line; answers l req := l.(says) req; settles _ := True |}.
  - done.
  - intros l req l' n E. cbn in E. by simplify_eq/=.
  - intros l l' r E. cbn in E. by simplify_eq/=.
  - intros l n l' b E. cbn in E. destruct n, (in_line l) eqn:El; simplify_eq/=; rewrite ?El; (split; [done|lia]).
Defined.

Lemma line_prompt deadline n : forall l,
  (n <= length l.(in_line))%nat -> l.(line_clock) + Z.of_nat n * 1000000 <= deadline -> prompt deadline n l.
Proof.
  induction n as [|n IH]; intros [q f c w] Hn Hd; [done|]. cbn [in_line line_clock] in *.
  destruct q as [|b q]; cbn [length] in Hn; [lia|].
  split; [cbn; lia|]. exists b, (mk_Line q f (c + 1000000) w). split; [done|]. apply IH; cbn; lia.
Qed.

(** Junk in the port, a radio that answers [FA;]. *)
Definition junk_line : Line :=
  mk_Line (as_bytes "0002000008 ;SM0011;")
          (fun req => if bool_decide (req = as_bytes "FA;") then as_bytes "FA00014250000;" else as_bytes "?;") 0 [].
Definition junk_session : SerialCatSession Line AsciiLineFormat := with_format junk_line ascii_line.

Lemma serial_never_crosses_witness :
  exists rest, answers (t_drain junk_line) (as_bytes "FA;") = (execute junk_session (as_bytes "FA;")).1.2 ++ rest.
Proof.
  pose proof (serial_never_crosses junk_session (as_bytes "FA;")
    (execute junk_session (as_bytes "FA;")).1.1 (as_bytes "FA00014250000;") (Ok ResponseWritten) I ltac:(vm_compute; reflexivity)) as H.
  exact (proj1 H).
Defined.

Lemma serial_reads_frame_witness :
  exists s', execute junk_session (as_bytes "FA;") = (s', as_bytes "FA00014250000;", Ok ResponseWritten)
    /\ incoming s'.(transport) = [].
Proof.
  eapply (serial_reads_frame junk_session (as_bytes "FA;") (as_bytes "FA00014250000;") []);
    [exact I|reflexivity|reflexivity|vm_compute; reflexivity|discriminate| |vm_compute; reflexivity|unfold MAX_FRAME_LEN; cbn; lia|].
  - intros n Hn. cbn in Hn. do 14 (destruct n as [|n]; [try lia; vm_compute; reflexivity|]). lia.
  - apply line_prompt; [vm_compute; lia|]. unfold READ_TIMEOUT. cbn. lia.
Defined.

(** An IC-7100 on one wire, asked for its frequency. *)
Definition wire_session : SerialCatSession Line CivFormat :=
  with_format (mk_Line [] (fun req => req ++ encode_response civ_default (u8 3, None) (map u8 [0; 0; 0x25; 0x14; 0])) 0 []) civ_default.

Lemma civ_exchange_returns_echo_witness :
  exists s', execute wire_session (encode_request civ_default (u8 3, None) [])
             = (s', encode_request civ_default (u8 3, None) [], Ok ResponseWritten)
    /\ is_echo civ_default (encode_request civ_default (u8 3, None) []) = true
    /\ incoming s'.(transport) = encode_response civ_default (u8 3, None) (map u8 [0; 0; 0x25; 0x14; 0]).
Proof.
  eapply (civ_exchange_returns_echo wire_session (u8 3, None) []);
    [exact I|reflexivity|reflexivity|reflexivity| |unfold MAX_FRAME_LEN; cbn; lia|].
  - repeat (apply Forall_cons_2; [vm_compute; discriminate|]). apply Forall_nil_2.
  - apply line_prompt; [vm_compute; lia|]. unfold READ_TIMEOUT. cbn. lia.
Defined.
