(* ===== verification/SerialPort.v ===== *)
(** * SerialPort: the Linux serial port
    (cat-transport-serial/src/io_uring.rs, config.rs, baud.rs)

    The kernel's terminal is the class [Tty], with what its calls are documented
    to do in [TtyLaws]: writes append to what goes out on the wire, reads hand
    out what has arrived, time passes.  The port's retry loops, its drain, the
    line settings and the modem lines it drives at opening are definitions. *)

From S2P Require Import Prelude Text Utf8 Framework Tcp Serial.

(** ** Configuration *)

Inductive Parity : Type := ParityNone | ParityEven | ParityOdd.
Inductive FlowControl : Type := FlowNone | FlowSoftware | FlowHardware.

Record SerialConfig : Type := mk_SerialConfig {
  baud_rate : Z; data_bits : Z; stop_bits : Z; parity : Parity; flow_control : FlowControl;
  initial_rts : bool; initial_dtr : bool }.

Definition serial_config_default : SerialConfig :=
  mk_SerialConfig 9600 8 2 ParityNone FlowNone true false.

Inductive SerialError : Type := InvalidConfig (what : bytes).

Definition SUPPORTED_BAUD_RATES : list Z := [1200; 2400; 4800; 9600; 19200; 38400; 57600; 115200; 230400].
Definition unsupported_baud (baud : Z) : SerialError :=
  InvalidConfig (as_bytes "Unsupported baud rate: " ++ show_dec baud).
Definition validate_baud_rate (baud : Z) : result Z SerialError :=
  if existsb (Z.eqb baud) SUPPORTED_BAUD_RATES then Ok baud else Err (unsupported_baud baud).

Inductive BaudRate : Type := B1200 | B2400 | B4800 | B9600 | B19200 | B38400 | B57600 | B115200 | B230400.
Definition baud_rate_from_u32 (baud : Z) : result BaudRate SerialError :=
  let? baud := validate_baud_rate baud in
  match baud with
  | 1200 => Ok B1200 | 2400 => Ok B2400 | 4800 => Ok B4800 | 9600 => Ok B9600
  | 19200 => Ok B19200 | 38400 => Ok B38400 | 57600 => Ok B57600 | 115200 => Ok B115200
  | 230400 => Ok B230400
  | other => Err (unsupported_baud other)
  end.

(** The flags of a terminal that [configure_termios] decides. *)
Inductive CharSize : Type := CS5 | CS6 | CS7 | CS8.
Record Termios : Type := mk_Termios {
  csize : CharSize; cstopb : bool; parenb : bool; parodd : bool; crtscts : bool; ixon : bool; ixoff : bool }.

(** [configure_termios] on what [cfmakeraw] left; the speeds go with it. *)
Definition configure_termios (raw : Termios) (config : SerialConfig) : result (Termios * BaudRate) SerialError :=
  let? speed := baud_rate_from_u32 config.(baud_rate) in
  let size := match config.(data_bits) with 5 => CS5 | 6 => CS6 | 7 => CS7 | _ => CS8 end in
  let stopb := 2 <=? config.(stop_bits) in
  let '(enb, odd) := match config.(parity) with
                     | ParityNone => (false, false)
                     | ParityEven => (true, false)
                     | ParityOdd => (true, true)
                     end in
  let '(rtscts, xon) := match config.(flow_control) with
                        | FlowNone => (false, false)
                        | FlowHardware => (true, false)
                        | FlowSoftware => (false, true)
                        end in
  Ok (mk_Termios size stopb enb odd rtscts xon xon, speed).

(** ** The terminal *)

Definition WouldBlock : IoError := OtherIo 11.
Definition WriteZero : IoError := OtherIo (-1).

Inductive ModemBit : Type := TIOCM_RTS | TIOCM_DTR | TIOCM_CTS | TIOCM_DSR | TIOCM_CAR.

Class Tty (K : Type) : Type := {
  k_now : K -> Z;
  k_writev : K -> bytes -> K * result nat IoError;
  k_readv : K -> nat -> K * result bytes IoError;
  k_read : K -> nat -> K * result bytes IoError;
  k_tcdrain : K -> K * result () IoError;
  k_tcflush : K -> K;
  k_sleep : K -> Z -> K;
  k_set_bit : K -> ModemBit -> bool -> K * result () IoError;
  k_get_bit : K -> ModemBit -> result bool IoError }.

Definition is_retryable (e : IoError) : bool := bool_decide (e = WouldBlock) || bool_decide (e = Interrupted).

Definition SETTLE : Z := 20000000.
Definition BUDGET : Z := 400000000.
Definition QUIET_READS : nat := 3.

Section Port.
  Context {K : Type} `{!Tty K}.
  Implicit Types k : K.

(** The loop of [write]; [None] when the fuel is used up. *)
Fixpoint write_loop (fuel : nat) k (data : bytes) (written : nat) (deadline : Z)
  : option (K * result nat TransportError) :=
  match fuel with
  | O => None
  | S fuel =>
      if (written <? length data)%nat then
        let '(k, r) := k_writev k (drop written data) in
        match r with
        | Ok O => Some (k, Err (TIo WriteZero))
        | Ok n => write_loop fuel k data (written + n) deadline
        | Err e =>
            if is_retryable e then
              if deadline <=? k_now k then Some (k, Err WriteTimeout)
              else write_loop fuel k data written deadline
            else Some (k, Err (TIo e))
        end
      else Some (k, Ok written)
  end.
Definition port_write (fuel : nat) k (data : bytes) : option (K * result nat TransportError) :=
  write_loop fuel k data 0 (k_now k + READ_TIMEOUT).

Fixpoint read_loop (fuel : nat) k (len : nat) (deadline : Z) : option (K * result bytes TransportError) :=
  match fuel with
  | O => None
  | S fuel =>
      let '(k, r) := k_readv k len in
      match r with
      | Ok b => Some (k, Ok b)
      | Err e =>
          if is_retryable e then
            if deadline <=? k_now k then Some (k, Err ReadTimeout) else read_loop fuel k len deadline
          else Some (k, Err (TIo e))
      end
  end.
Definition port_read (fuel : nat) k (len : nat) : option (K * result bytes TransportError) :=
  read_loop fuel k len (k_now k + READ_TIMEOUT).

Fixpoint drain_loop (fuel : nat) k (give_up_at : Z) (empty : nat) : option K :=
  match fuel with
  | O => None
  | S fuel =>
      if (empty <? QUIET_READS)%nat && (k_now k <? give_up_at) then
        let '(k, r) := k_read k 64 in
        match r with
        | Ok (_ :: _) => drain_loop fuel k give_up_at 0
        | _ => drain_loop fuel (k_sleep k SETTLE) give_up_at (S empty)
        end
      else Some k
  end.
Definition port_drain (fuel : nat) k : option K := drain_loop fuel k (k_now k + BUDGET) 0.

Fixpoint port_flush (fuel : nat) k : option (K * result () TransportError) :=
  match fuel with
  | O => None
  | S fuel =>
      let '(k, r) := k_tcdrain k in
      match r with
      | Ok _ => Some (k, Ok tt)
      | Err e => if is_retryable e then port_flush fuel k else Some (k, Err (TIo e))
      end
  end.

Definition modem_bits_set k (b : ModemBit) (asserted : bool) : K * result () TransportError :=
  let '(k, r) := k_set_bit k b asserted in (k, map_err TIo r).
Definition modem_bit_get k (b : ModemBit) : result bool TransportError := map_err TIo (k_get_bit k b).

(** The end of [open]: both lines are driven, failures ignored. *)
Definition drive_lines k (config : SerialConfig) : K :=
  let k := (modem_bits_set k TIOCM_RTS config.(initial_rts)).1 in
  (modem_bits_set k TIOCM_DTR config.(initial_dtr)).1.
End Port.

(** ** What the kernel promises *)

(** [wire]: what has gone out.  [arrivals]: what is still to be read, with the
    time it comes in.  [line]: the level of a modem line. *)
Class TtyLaws (K : Type) `{!Tty K} : Type := {
  wire : K -> bytes;
  arrivals : K -> list (Z * byte);
  line : K -> ModemBit -> bool;
  writev_law : forall k d k' r, k_writev k d = (k', r) ->
    k_now k < k_now k' /\
    match r with
    | Ok n => wire k' = wire k ++ take n d /\ (n <= length d)%nat
    | Err _ => wire k' = wire k
    end;
  readv_law : forall k n k' r, k_readv k n = (k', r) -> k_now k < k_now k';
  raw_read_law : forall k n k' r, k_read k n = (k', r) -> (0 < n)%nat ->
    k_now k <= k_now k' /\
    match r with
    | Ok ((_ :: _) as b) => exists a, arrivals k = a ++ arrivals k' /\ map snd a = b
                            /\ Forall (fun x => x.1 <= k_now k') a
    | Ok [] => arrivals k' = arrivals k /\ Forall (fun x => k_now k < x.1) (arrivals k)
    | Err e => e = WouldBlock /\ arrivals k' = arrivals k /\ Forall (fun x => k_now k < x.1) (arrivals k)
    end;
  sleep_law : forall k d, k_now k + d <= k_now (k_sleep k d) /\ arrivals (k_sleep k d) = arrivals k;
  set_bit_law : forall k b v k' r, k_set_bit k b v = (k', r) ->
    (r = Ok tt -> line k' b = v) /\ forall b', b' <> b -> line k' b' = line k b' }.

Section PortLaws.
  Context {K : Type} `{!Tty K} `{!TtyLaws K}.
  Implicit Types k : K.

(** ** Writing *)

Lemma write_loop_spec data deadline fuel : forall k written k' r,
  write_loop fuel k data written deadline = Some (k', r) -> (written <= length data)%nat ->
  match r with
  | Ok n => n = length data /\ wire k' = wire k ++ drop written data
  | Err _ => exists n, (written <= n <= length data)%nat /\ wire k' = wire k ++ take (n - written) (drop written data)
  end.
Proof.
  induction fuel as [|fuel IH]; intros k written k' r E Hw; [done|]. cbn [write_loop] in E.
  destruct (Nat.ltb_spec written (length data)).
  2:{ simplify_eq. split; [lia|]. rewrite drop_ge by lia. by rewrite app_nil_r. }
  destruct (k_writev k (drop written data)) as [k1 r1] eqn:Ew. apply writev_law in Ew as [_ Ew].
  assert (Hzero : exists n, (written <= n <= length data)%nat /\ wire k = wire k ++ take (n - written) (drop written data)).
  { exists written. rewrite Nat.sub_diag, take_0, app_nil_r. split; [lia|done]. }
  destruct r1 as [n|e].
  - destruct Ew as [Ew Hn]. rewrite length_drop in Hn. destruct n as [|n].
    { simplify_eq. rewrite take_0, app_nil_r in Ew. by rewrite Ew. }
    specialize (IH _ _ _ _ E ltac:(lia)). rewrite Ew in IH. destruct r as [m|e].
    + destruct IH as [-> ->]. split; [done|]. rewrite <- app_assoc. f_equal. rewrite <- drop_drop. apply take_drop.
    + destruct IH as (m & Hm & ->). exists m. split; [lia|]. rewrite <- app_assoc. f_equal. rewrite <- drop_drop.
      replace (m - written)%nat with (S n + (m - (written + S n)))%nat by lia. apply take_take_drop.
  - destruct (is_retryable e); [|by simplify_eq; rewrite Ew].
    destruct (deadline <=? k_now k1); [by simplify_eq; rewrite Ew|].
    specialize (IH _ _ _ _ E Hw). by rewrite Ew in IH.
Qed.

(** Retries end with the deadline: each call takes time. *)
Lemma read_loop_total len deadline fuel : forall k,
  (Z.to_nat (deadline - k_now k) < fuel)%nat -> is_Some (read_loop fuel k len deadline).
Proof.
  induction fuel as [|fuel IH]; intros k Hf; [lia|]. cbn [read_loop].
  destruct (k_readv k len) as [k1 [b|e]] eqn:Er; [by eexists|]. apply readv_law in Er.
  destruct (is_retryable e); [|by eexists]. destruct (Z.leb_spec deadline (k_now k1)); [by eexists|]. apply IH. lia.
Qed.

Lemma write_loop_total data deadline fuel : forall k written,
  (Z.to_nat (deadline - k_now k) + (length data - written) < fuel)%nat ->
  is_Some (write_loop fuel k data written deadline).
Proof.
  induction fuel as [|fuel IH]; intros k written Hf; [lia|]. cbn [write_loop].
  destruct (Nat.ltb_spec written (length data)); [|by eexists].
  destruct (k_writev k _) as [k1 [[|n]|e]] eqn:Ew; apply writev_law in Ew as [Ew _]; [by eexists|apply IH; lia|].
  destruct (is_retryable e); [|by eexists]. destruct (Z.leb_spec deadline (k_now k1)); [by eexists|]. apply IH. lia.
Qed.

(** A write ends, and puts its bytes on the wire once each and in order,
    however the kernel cuts it up and however often it is interrupted: all of
    them when it succeeds, the first few when it fails. *)
Theorem port_write_exact k data :
  (exists fuel, is_Some (port_write fuel k data))
  /\ forall fuel k' r, port_write fuel k data = Some (k', r) ->
     match r with
     | Ok n => n = length data /\ wire k' = wire k ++ data
     | Err _ => exists sent, sent `prefix_of` data /\ wire k' = wire k ++ sent
     end.
Proof.
  split; [eexists; apply write_loop_total, Nat.lt_succ_diag_r|]. intros fuel k' r E.
  apply write_loop_spec in E; [|lia]. rewrite drop_0 in E. destruct r as [n|e]; [done|].
  destruct E as (n & _ & ->). eexists. split; [|done]. apply prefix_take.
Qed.

(** ** Draining *)

(** Between two arrivals, and from [p] to the first, no more than [gap]. *)
Fixpoint chained (gap p : Z) (l : list (Z * byte)) : Prop :=
  match l with [] => True | x :: l => x.1 <= p + gap /\ chained gap x.1 l end.

Lemma chained_app gap a : forall p l, chained gap p (a ++ l) ->
  exists q, chained gap q l /\ (q = p \/ exists x, x ∈ a /\ q = x.1).
Proof.
  induction a as [|x a IH]; intros p l H; [eauto|]. cbn in H. destruct H as [_ H].
  destruct (IH _ _ H) as (q & Hq & [->|(y & Hy & ->)]).
  - exists x.1. split; [done|]. right. exists x. split; [constructor|done].
  - exists y.1. split; [done|]. right. exists y. split; [by constructor|done].
Qed.

(** [e] empty reads so far: nothing came for that many settling times. *)
Definition quiet_for k (e : nat) : Prop :=
  exists p, chained (2 * SETTLE) p (arrivals k) /\ p + SETTLE * Z.of_nat e <= k_now k
    /\ ((0 < e)%nat -> Forall (fun x => p + SETTLE * (Z.of_nat e - 1) < x.1) (arrivals k)).

Lemma quiet_after_bytes k e k' b bs :
  quiet_for k e -> k_read k 64 = (k', Ok (b :: bs)) -> quiet_for k' 0.
Proof.
  intros (p & Hc & Hp & _) E. apply raw_read_law in E as [Ht (a & Ea & Em & Hf)]; [|lia].
  rewrite Ea in Hc. destruct a as [|x a]; [done|]. cbn in Hc. destruct Hc as [_ Hc].
  apply chained_app in Hc as (q & Hq & Hin). exists q. split; [done|]. split; [|lia].
  rewrite Forall_forall in Hf. destruct Hin as [->|(y & Hy & ->)]; [specialize (Hf x)|specialize (Hf y)].
  all: rewrite elem_of_cons in Hf; specialize (Hf ltac:(auto)); lia.
Qed.

Lemma quiet_after_nothing k e k' r :
  quiet_for k e -> k_read k 64 = (k', r) -> (forall b bs, r <> Ok (b :: bs)) ->
  quiet_for (k_sleep k' SETTLE) (S e).
Proof.
  intros (p & Hc & Hp & _) E Hr. apply raw_read_law in E as [Ht E]; [|lia].
  assert (H : arrivals k' = arrivals k /\ Forall (fun x => k_now k < x.1) (arrivals k)).
  { destruct r as [[|b bs]|]; [done|by destruct (Hr b bs)|by destruct E]. }
  destruct H as [Ea Hf]. destruct (sleep_law k' SETTLE) as [Hs Ha]. exists p. rewrite Ha, Ea.
  split; [done|]. split; [lia|]. intros _. eapply Forall_impl; [exact Hf|]. cbn. intros x Hx. lia.
Qed.

Lemma quiet_enough k : quiet_for k QUIET_READS -> arrivals k = [].
Proof.
  intros (p & Hc & Hp & Hq). specialize (Hq ltac:(unfold QUIET_READS; lia)).
  destruct (arrivals k) as [|x l]; [done|]. cbn in Hc. inversion Hq as [|? ? Hx]; subst. unfold QUIET_READS in Hx. lia.
Qed.

Lemma drain_loop_quiet give_up_at fuel : forall k e k',
  drain_loop fuel k give_up_at e = Some k' -> (e <= QUIET_READS)%nat -> quiet_for k e ->
  arrivals k' = [] \/ give_up_at <= k_now k'.
Proof.
  induction fuel as [|fuel IH]; intros k e k' E He Hq; [done|]. cbn [drain_loop] in E.
  destruct (Nat.ltb_spec e QUIET_READS); cbn [andb] in E.
  2:{ simplify_eq. left. apply quiet_enough. by replace QUIET_READS with e by lia. }
  destruct (Z.ltb_spec (k_now k) give_up_at); [|right; by simplify_eq].
  destruct (k_read k 64) as [k1 r] eqn:Er. destruct r as [[|b bs]|err].
  - eapply IH; [exact E|lia|]. by eapply quiet_after_nothing.
  - eapply IH; [exact E|lia|]. by eapply quiet_after_bytes.
  - eapply IH; [exact E|lia|]. by eapply quiet_after_nothing.
Qed.

(** It returns: every byte read is one fewer to come. *)
Lemma drain_loop_total give_up_at fuel : forall k e, (e <= QUIET_READS)%nat ->
  (S QUIET_READS * length (arrivals k) + (QUIET_READS - e) < fuel)%nat -> is_Some (drain_loop fuel k give_up_at e).
Proof.
  induction fuel as [|fuel IH]; intros k e He Hf; [lia|]. cbn [drain_loop].
  destruct (Nat.ltb_spec e QUIET_READS); cbn [andb]; [|by eexists].
  destruct (k_now k <? give_up_at); [|by eexists].
  destruct (k_read k 64) as [k1 r] eqn:Er. apply raw_read_law in Er as [_ Er]; [|lia].
  destruct (sleep_law k1 SETTLE) as [_ Hs]. unfold QUIET_READS in *.
  destruct r as [[|b bs]|err].
  - destruct Er as [Ea _]. apply IH; [lia|]. rewrite Hs, Ea. lia.
  - destruct Er as (a & Ea & Em & _). apply IH; [lia|]. rewrite Ea, length_app in Hf. destruct a; [done|]. cbn in Hf |- *. lia.
  - destruct Er as (_ & Ea & _). apply IH; [lia|]. rewrite Hs, Ea. lia.
Qed.

(** A drain returns, one read for each byte on its way and three more being
    enough, and has waited the radio out: if what is still coming in never
    pauses for more than 40 ms, it is all gone, unless the drain has used up its
    400 ms. *)
Theorem drain_waits_it_out fuel k :
  (S QUIET_READS * length (arrivals k) + QUIET_READS < fuel)%nat -> chained (2 * SETTLE) (k_now k) (arrivals k) ->
  exists k', port_drain fuel k = Some k' /\ (arrivals k' = [] \/ k_now k + BUDGET <= k_now k').
Proof.
  intros Hf Hc. destruct (drain_loop_total (k_now k + BUDGET) fuel k 0) as [k' E]; [lia|lia|]. exists k'. split; [done|].
  eapply drain_loop_quiet; [exact E|lia|]. exists (k_now k). split; [done|]. split; [lia|lia].
Qed.

(** ** Opening *)

(** A port opened without saying anything about the modem lines does not key a
    station whose push-to-talk is DTR: when the line can be driven it is low. *)
Theorem open_default_leaves_dtr_low k k1 :
  (modem_bits_set k TIOCM_RTS true) = (k1, Ok tt) -> (modem_bits_set k1 TIOCM_DTR false).2 = Ok tt ->
  line (drive_lines k serial_config_default) TIOCM_DTR = false
  /\ line (drive_lines k serial_config_default) TIOCM_RTS = true.
Proof.
  unfold drive_lines. cbn [initial_rts initial_dtr serial_config_default]. intros E1 E2. rewrite E1. cbn [fst].
  unfold modem_bits_set in *. destruct (k_set_bit k TIOCM_RTS true) as [k1' r1] eqn:Er.
  destruct r1 as [[]|]; [|done]. cbn in E1. simplify_eq. apply set_bit_law in Er as [Hr _]. specialize (Hr eq_refl).
  destruct (k_set_bit k1 TIOCM_DTR false) as [k2 r2] eqn:Ed. destruct r2 as [[]|]; [|done].
  apply set_bit_law in Ed as [Hd Ho]. cbn. split; [by apply Hd|]. by rewrite Ho.
Qed.
End PortLaws.

(** ** A terminal in memory *)

(** Bytes come in after given pauses; a write takes at most four bytes. *)
Record SimTty : Type := mk_SimTty {
  sim_now : Z; sim_base : Z; sim_pauses : list (N * byte); sim_wire : bytes; sim_lines : ModemBit -> bool }.

#[export] Instance ModemBit_eq_dec : EqDecision ModemBit.
Proof. solve_decision. Defined.

Fixpoint timed (base : Z) (l : list (N * byte)) : list (Z * byte) :=
  match l with [] => [] | (d, b) :: l => (base + Z.of_N d, b) :: timed (base + Z.of_N d) l end.

(** What is due at [now], at most [n] bytes. *)
Fixpoint take_due (n : nat) (now base : Z) (l : list (N * byte)) : bytes * Z * list (N * byte) :=
  match n, l with
  | S n, (d, b) :: rest =>
      if base + Z.of_N d <=? now
      then let '(bs, base', left_over) := take_due n now (base + Z.of_N d) rest in (b :: bs, base', left_over)
      else ([], base, l)
  | _, _ => ([], base, l)
  end.

Definition sim_read (adv : Z) (k : SimTty) (n : nat) : SimTty * result bytes IoError :=
  let '(bs, base, l) := take_due n k.(sim_now) k.(sim_base) k.(sim_pauses) in
  match bs with
  | [] => (mk_SimTty (k.(sim_now) + adv) k.(sim_base) k.(sim_pauses) k.(sim_wire) k.(sim_lines), Err WouldBlock)
  | _ => (mk_SimTty (k.(sim_now) + adv) base l k.(sim_wire) k.(sim_lines), Ok bs)
  end.

Definition accepts (d : bytes) : nat := length (take 4 d).
Lemma accepts_le d : (accepts d <= length d)%nat.
Proof. unfold accepts. rewrite length_take. lia. Qed.
Lemma take_accepts d : take (accepts d) d = take 4 d.
Proof. do 4 (destruct d as [|? d]; [done|]). done. Qed.

#[export] Instance sim_tty : Tty SimTty := {|
  k_now := sim_now;
  k_writev k d := (mk_SimTty (k.(sim_now) + 1) k.(sim_base) k.(sim_pauses) (k.(sim_wire) ++ take 4 d) k.(sim_lines), Ok (accepts d));
  k_readv := sim_read 1;
  k_read := sim_read 0;
  k_tcdrain k := (k, Ok tt);
  k_tcflush k := k;
  k_sleep k d := mk_SimTty (k.(sim_now) + Z.max 0 d) k.(sim_base) k.(sim_pauses) k.(sim_wire) k.(sim_lines);
  k_set_bit k b v := (mk_SimTty k.(sim_now) k.(sim_base) k.(sim_pauses) k.(sim_wire)
                        (fun b' => if decide (b' = b) then v else k.(sim_lines) b'), Ok tt);
  k_get_bit k b := Ok (k.(sim_lines) b) |}.

Lemma timed_later base now l : now < base -> Forall (fun x => now < x.1) (timed base l).
Proof. revert base. induction l as [|[d b] l IH]; intros base H; [done|]. cbn. constructor; [cbn; lia|]. apply IH. lia. Qed.

Lemma take_due_spec n now : forall base l bs base' rest,
  take_due n now base l = (bs, base', rest) ->
  exists a, timed base l = a ++ timed base' rest /\ map snd a = bs /\ Forall (fun x => x.1 <= now) a
    /\ ((0 < n)%nat -> bs = [] -> Forall (fun x => now < x.1) (timed base l)).
Proof.
  induction n as [|n IH]; intros base l bs base' rest E; cbn in E.
  { simplify_eq. exists []. split_and!; [done|done|done|lia]. }
  destruct l as [|[d b] l]; [simplify_eq; by exists []|].
  destruct (Z.leb_spec (base + Z.of_N d) now).
  - destruct (take_due n now _ l) as [[bs1 base1] rest1] eqn:E1. simplify_eq.
    destruct (IH _ _ _ _ _ E1) as (a & Ea & Em & Hf & _). exists ((base + Z.of_N d, b) :: a). cbn.
    split_and!; [by rewrite Ea|by rewrite Em|by constructor|done].
  - simplify_eq. exists []. split_and!; [done|done|done|]. intros _ _. cbn. constructor; [cbn; lia|]. apply timed_later. lia.
Qed.

#[export] Instance sim_tty_laws : TtyLaws SimTty.
Proof.
  refine {| wire := sim_wire; arrivals k := timed k.(sim_base) k.(sim_pauses); line := sim_lines |}.
  - intros k d k' r E. unfold k_writev, sim_tty in E. injection E as <- <-. split; [cbn; lia|].
    split; [cbn [sim_wire]; by rewrite take_accepts|apply accepts_le].
  - intros k n k' r E. cbn in E. unfold sim_read in E. destruct (take_due _ _ _ _) as [[bs base] l].
    destruct bs; simplify_eq/=; lia.
  - intros k n k' r E Hn. cbn in E. unfold sim_read in E. destruct (take_due _ _ _ _) as [[bs base] l] eqn:Ed.
    apply take_due_spec in Ed as (a & Ea & Em & Hf & Hz). destruct bs as [|b bs]; simplify_eq/=; (split; [lia|]).
    + split_and!; [done|done|by apply Hz].
    + exists a. split_and!; [done|done|]. eapply Forall_impl; [exact Hf|]. cbn. lia.
  - intros k d. cbn. split; [lia|done].
  - intros k b v k' r E. cbn in E. simplify_eq/=. split; [by rewrite decide_True|]. intros b' Hb. by rewrite decide_False.
Defined.

Definition sim_start (l : list (N * byte)) : SimTty := mk_SimTty 0 0 l [] (fun _ => true).

(** The tail of an answer is still coming in, 10 ms a byte. *)
Definition busy_tty : SimTty := sim_start (map (fun b => (10000000%N, b)) (as_bytes "08 ;")).

Lemma port_write_exact_witness :
  exists k', port_write 9 (sim_start []) (as_bytes "FA00014250000;") = Some (k', Ok 14%nat)
    /\ wire k' = as_bytes "FA00014250000;".
Proof.
  destruct (port_write 9 (sim_start []) (as_bytes "FA00014250000;")) as [[k' r]|] eqn:E; [|vm_compute in E; discriminate E].
  pose proof (proj2 (port_write_exact (sim_start []) (as_bytes "FA00014250000;")) _ _ _ E) as H. vm_compute in E. injection E as <- <-.
  eexists. split; [reflexivity|]. exact (proj2 H).
Defined.

(** ... and is all gone when the drain returns. *)
Lemma drain_waits_it_out_witness :
  length (arrivals busy_tty) = 4%nat
  /\ exists k', port_drain 20 busy_tty = Some k' /\ (arrivals k' = [] \/ k_now busy_tty + BUDGET <= k_now k').
Proof.
  split; [vm_compute; reflexivity|]. apply (drain_waits_it_out 20 busy_tty); [vm_compute; lia|].
  unfold SETTLE. vm_compute. repeat (split; [discriminate|]). exact I.
Defined.

(** Three empty reads 20 ms apart see 40 ms of quiet, not 60: the byte that
    comes in after 50 ms is left in the port. *)
Example drain_leaves_late_byte :
  match port_drain 20 (sim_start [(50000000%N, semicolon)]) with
  | Some k => arrivals k = [(50000000, semicolon)] /\ k_now k = 60000000
  | None => False
  end.
Proof. vm_compute. done. Qed.

Lemma open_default_leaves_dtr_low_witness :
  line (drive_lines (sim_start []) serial_config_default) TIOCM_DTR = false
  /\ line (drive_lines (sim_start []) serial_config_default) TIOCM_RTS = true.
Proof. exact (open_default_leaves_dtr_low (sim_start []) _ eq_refl eq_refl). Defined.
