(* ===== verification/Rfc2217.v ===== *)
(** * Rfc2217: a serial port over Telnet (cat-transport-rfc2217/src/codec.rs,
    cat-transport-rfc2217/src/server.rs)

    The Telnet framing with its escape byte, the streaming decoder, and the
    device server's half of a connection: which lines the client drives, what
    it is answered, and what it is told of the modem lines. *)

From S2P Require Import Prelude.

Definition IAC : byte := u8 255.
Definition SE : byte := u8 240.
Definition SB : byte := u8 250.
Definition WILL : byte := u8 251.
Definition WONT : byte := u8 252.
Definition DO : byte := u8 253.
Definition DONT : byte := u8 254.
Definition OPT_BINARY : byte := u8 0.
Definition OPT_SUPPRESS_GO_AHEAD : byte := u8 3.
Definition OPT_COM_PORT : byte := u8 44.

(** The command codes of [mod client]; the server's are 100 higher. *)
Definition SIGNATURE : byte := u8 0.
Definition SET_BAUDRATE : byte := u8 1.
Definition SET_DATASIZE : byte := u8 2.
Definition SET_PARITY : byte := u8 3.
Definition SET_STOPSIZE : byte := u8 4.
Definition SET_CONTROL : byte := u8 5.
Definition NOTIFY_MODEMSTATE : byte := u8 7.
Definition SET_MODEMSTATE_MASK : byte := u8 11.
Definition SERVER_OFFSET : Z := 100.
Definition server_code (c : byte) : byte := u8 (unsigned c + SERVER_OFFSET).

(** [mod control]. *)
Definition FLOW_NONE : byte := u8 1.
Definition BREAK_ON : byte := u8 5.
Definition BREAK_OFF : byte := u8 6.
Definition DTR_REQUEST : byte := u8 7.
Definition DTR_ON : byte := u8 8.
Definition DTR_OFF : byte := u8 9.
Definition RTS_REQUEST : byte := u8 10.
Definition RTS_ON : byte := u8 11.
Definition RTS_OFF : byte := u8 12.

(** [mod modem]: line levels and deltas of a state byte, as integers. *)
Definition CTS : Z := 0x10.
Definition DSR : Z := 0x20.
Definition RI : Z := 0x40.
Definition DCD : Z := 0x80.
Definition DELTA_CTS : Z := 0x01.
Definition DELTA_DSR : Z := 0x02.
Definition DELTA_DCD : Z := 0x08.
Definition ALL_LEVELS : Z := Z.lor (Z.lor CTS DSR) (Z.lor RI DCD).
Definition modem_cts (state : Z) : bool := negb (Z.land state CTS =? 0).
Definition modem_dsr (state : Z) : bool := negb (Z.land state DSR =? 0).
Definition modem_dcd (state : Z) : bool := negb (Z.land state DCD =? 0).

(** ** Encoding *)

Definition byte_is (b c : byte) : bool := bool_decide (b = c).

Fixpoint escape (l : bytes) : bytes :=
  match l with
  | [] => []
  | b :: l => if byte_is b IAC then b :: IAC :: escape l else b :: escape l
  end.
Definition encode_data (data : bytes) : bytes := escape data.
Definition negotiate (verb option : byte) : bytes := [IAC; verb; option].
Definition com_port (command : byte) (params : bytes) : bytes :=
  [IAC; SB; OPT_COM_PORT; command] ++ escape params ++ [IAC; SE].
Definition set_control (value : byte) : bytes := com_port SET_CONTROL [value].
Definition set_baud_rate (baud : Z) : bytes := com_port SET_BAUDRATE (to_be_bytes 4 baud).
Definition notify_modem_state (state : Z) : bytes := com_port (server_code NOTIFY_MODEMSTATE) [u8 state].

(** ** The decoder *)

Inductive Event : Type :=
| EvData (l : bytes)
| EvComPort (command : byte) (params : bytes)
| EvNegotiate (verb option : byte)
| EvOther (option : byte) (body : bytes).
Inductive DecState : Type := StData | StIac | StVerb (v : byte) | StSubOption | StSubBody | StSubIac.

Record Decoder : Type := mk_Decoder {
  dec_state : DecState; sub_option : byte; sub_body : bytes; dec_data : bytes }.
Definition decoder_new : Decoder := mk_Decoder StData (u8 0) [] [].

Definition flush_data (d : Decoder) : Decoder * list Event :=
  match d.(dec_data) with
  | [] => (d, [])
  | l => (mk_Decoder d.(dec_state) d.(sub_option) d.(sub_body) [], [EvData l])
  end.

Definition is_verb (b : byte) : bool := byte_is b WILL || byte_is b WONT || byte_is b DO || byte_is b DONT.

(** [Decoder::step]: the decoder after one byte and what became complete. *)
Definition step (d : Decoder) (b : byte) : Decoder * list Event :=
  let goto s := mk_Decoder s d.(sub_option) d.(sub_body) d.(dec_data) in
  match d.(dec_state) with
  | StData =>
      if byte_is b IAC then (goto StIac, [])
      else (mk_Decoder StData d.(sub_option) d.(sub_body) (d.(dec_data) ++ [b]), [])
  | StIac =>
      if byte_is b IAC then (mk_Decoder StData d.(sub_option) d.(sub_body) (d.(dec_data) ++ [IAC]), [])
      else if is_verb b then (goto (StVerb b), [])
      else if byte_is b SB then (goto StSubOption, [])
      else (goto StData, [])
  | StVerb verb =>
      let '(d, out) := flush_data d in
      (mk_Decoder StData d.(sub_option) d.(sub_body) d.(dec_data), out ++ [EvNegotiate verb b])
  | StSubOption => (mk_Decoder StSubBody b [] d.(dec_data), [])
  | StSubBody =>
      if byte_is b IAC then (goto StSubIac, [])
      else (mk_Decoder StSubBody d.(sub_option) (d.(sub_body) ++ [b]) d.(dec_data), [])
  | StSubIac =>
      if byte_is b IAC then (mk_Decoder StSubBody d.(sub_option) (d.(sub_body) ++ [IAC]) d.(dec_data), [])
      else if byte_is b SE then
        let '(d, out) := flush_data d in
        (mk_Decoder StData d.(sub_option) [] d.(dec_data),
         out ++ (if byte_is d.(sub_option) OPT_COM_PORT then
                   match d.(sub_body) with
                   | command :: params => [EvComPort command params]
                   | [] => []
                   end
                 else [EvOther d.(sub_option) d.(sub_body)]))
      else (mk_Decoder StData d.(sub_option) [] d.(dec_data), [])
  end.

Fixpoint steps (d : Decoder) (l : bytes) : Decoder * list Event :=
  match l with
  | [] => (d, [])
  | b :: l => let '(d, out) := step d b in let '(d, out') := steps d l in (d, out ++ out')
  end.
(** [Decoder::push]. *)
Definition push (d : Decoder) (l : bytes) : Decoder * list Event :=
  let '(d, out) := steps d l in let '(d, out') := flush_data d in (d, out ++ out').

(** ** The device server *)

Inductive PeerEvent : Type := PData (l : bytes) | PDtr (b : bool) | PRts (b : bool) | PBreak (b : bool).
Record Rfc2217Peer : Type := mk_Peer {
  decoder : Decoder; dtr : bool; rts : bool; modem_mask : Z; last_notified : option Z }.
Definition peer_new : Rfc2217Peer := mk_Peer decoder_new false true 0 None.

Definition answer_negotiation (verb option : byte) : bytes :=
  let supported := byte_is option OPT_BINARY || byte_is option OPT_SUPPRESS_GO_AHEAD
                   || byte_is option OPT_COM_PORT in
  if byte_is verb WILL then negotiate (if supported then DO else DONT) option
  else if byte_is verb DO then negotiate (if supported then WILL else WONT) option
  else [].

Definition control_echo (value : byte) : bytes := com_port (server_code SET_CONTROL) [value].

Definition with_dtr (p : Rfc2217Peer) (b : bool) : Rfc2217Peer :=
  mk_Peer p.(decoder) b p.(rts) p.(modem_mask) p.(last_notified).
Definition with_rts (p : Rfc2217Peer) (b : bool) : Rfc2217Peer :=
  mk_Peer p.(decoder) p.(dtr) b p.(modem_mask) p.(last_notified).

(** [SET-CONTROL]: the value's effect, its event and its answer. *)
Definition handle_control (p : Rfc2217Peer) (value : byte) : Rfc2217Peer * list PeerEvent * bytes :=
  if byte_is value DTR_ON || byte_is value DTR_OFF then
    let on := byte_is value DTR_ON in (with_dtr p on, [PDtr on], control_echo value)
  else if byte_is value RTS_ON || byte_is value RTS_OFF then
    let on := byte_is value RTS_ON in (with_rts p on, [PRts on], control_echo value)
  else if byte_is value BREAK_ON || byte_is value BREAK_OFF then
    (p, [PBreak (byte_is value BREAK_ON)], control_echo value)
  else if byte_is value DTR_REQUEST then (p, [], control_echo (if p.(dtr) then DTR_ON else DTR_OFF))
  else if byte_is value RTS_REQUEST then (p, [], control_echo (if p.(rts) then RTS_ON else RTS_OFF))
  else (p, [], control_echo FLOW_NONE).

Definition is_setting (command : byte) : bool :=
  byte_is command SET_BAUDRATE || byte_is command SET_DATASIZE
  || byte_is command SET_PARITY || byte_is command SET_STOPSIZE.

Definition handle_com_port (p : Rfc2217Peer) (command : byte) (params : bytes)
  : Rfc2217Peer * list PeerEvent * bytes :=
  if byte_is command SET_CONTROL then
    match params with value :: _ => handle_control p value | [] => (p, [], []) end
  else if byte_is command SET_MODEMSTATE_MASK then
    match params with
    | mask :: _ =>
        (mk_Peer p.(decoder) p.(dtr) p.(rts) (unsigned mask) p.(last_notified), [],
         com_port (server_code SET_MODEMSTATE_MASK) [mask])
    | [] => (p, [], [])
    end
  else if is_setting command then (p, [], com_port (server_code command) params)
  else if byte_is command SIGNATURE then (p, [], com_port (server_code SIGNATURE) params)
  else (p, [], []).

Definition handle_event (p : Rfc2217Peer) (e : Event) : Rfc2217Peer * list PeerEvent * bytes :=
  match e with
  | EvData l => (p, [PData l], [])
  | EvNegotiate verb option => (p, [], answer_negotiation verb option)
  | EvComPort command params => handle_com_port p command params
  | EvOther _ _ => (p, [], [])
  end.
Fixpoint handle_events (p : Rfc2217Peer) (l : list Event) : Rfc2217Peer * list PeerEvent * bytes :=
  match l with
  | [] => (p, [], [])
  | e :: l =>
      let '(p, ev, r) := handle_event p e in
      let '(p, ev', r') := handle_events p l in (p, ev ++ ev', r ++ r')
  end.
(** [Rfc2217Peer::push]. *)
Definition peer_push (p : Rfc2217Peer) (l : bytes) : Rfc2217Peer * list PeerEvent * bytes :=
  let '(d, decoded) := push p.(decoder) l in
  handle_events (mk_Peer d p.(dtr) p.(rts) p.(modem_mask) p.(last_notified)) decoded.

Definition modem_state (p : Rfc2217Peer) (state : Z) : Rfc2217Peer * option bytes :=
  if p.(modem_mask) =? 0 then (p, None)
  else
    let masked := Z.land state p.(modem_mask) in
    let previous := option_map (fun s => Z.land s p.(modem_mask)) p.(last_notified) in
    if bool_decide (previous = Some masked) then (p, None)
    else
      let delta bit d changed := if Z.land changed bit =? 0 then 0 else d in
      let out := match previous with
                 | None => masked
                 | Some prev =>
                     let changed := Z.lxor prev masked in
                     Z.lor (Z.lor (Z.lor masked (delta CTS DELTA_CTS changed)) (delta DSR DELTA_DSR changed))
                       (delta DCD DELTA_DCD changed)
                 end in
      (mk_Peer p.(decoder) p.(dtr) p.(rts) p.(modem_mask) (Some masked), Some (notify_modem_state out)).

(** ** What a byte stream means *)

(** Events with every data byte on its own: runs of data are cut by the reads
    they arrive in, which says nothing about the stream. *)
Definition data_bytes (l : bytes) : list Event := map (fun b => EvData [b]) l.
Fixpoint explode (l : list Event) : list Event :=
  match l with
  | [] => []
  | EvData d :: l => data_bytes d ++ explode l
  | e :: l => e :: explode l
  end.

Lemma explode_app l1 l2 : explode (l1 ++ l2) = explode l1 ++ explode l2.
Proof. induction l1 as [|[] l1 IH]; cbn; rewrite ?IH, ?app_assoc; done. Qed.
Lemma data_bytes_app l1 l2 : data_bytes (l1 ++ l2) = data_bytes l1 ++ data_bytes l2.
Proof. apply map_app. Qed.

Definition clear (d : Decoder) : Decoder := mk_Decoder d.(dec_state) d.(sub_option) d.(sub_body) [].

(** The decoder from a flushed state, with its pending data counted as
    events. *)
Definition feed (d : Decoder) (l : bytes) : Decoder * list Event :=
  let '(d1, o) := steps (clear d) l in (clear d1, explode o ++ data_bytes d1.(dec_data)).

Lemma step_clear d b :
  clear (step d b).1 = clear (step (clear d) b).1
  /\ explode (step d b).2 ++ data_bytes (step d b).1.(dec_data)
     = data_bytes d.(dec_data) ++ explode (step (clear d) b).2 ++ data_bytes (step (clear d) b).1.(dec_data).
Proof.
  destruct d as [st so sb [|x data]]; destruct st; cbn -[byte_is explode data_bytes];
    repeat match goal with |- context [if ?c then _ else _] => destruct c end;
    repeat match goal with |- context [match ?c with [] => _ | _ :: _ => _ end] => destruct c end;
    (split; [done|]); unfold data_bytes; cbn; rewrite ?map_app, ?app_nil_r; cbn; done.
Qed.

Lemma steps_app d l1 l2 :
  steps d (l1 ++ l2)
  = let '(d1, o1) := steps d l1 in let '(d2, o2) := steps d1 l2 in (d2, o1 ++ o2).
Proof.
  revert d. induction l1 as [|b l1 IH]; intros d; cbn; [by destruct (steps d l2)|].
  destruct (step d b) as [d1 o1]. rewrite IH. destruct (steps d1 l1) as [d2 o2].
  destruct (steps d2 l2) as [d3 o3]. by rewrite app_assoc.
Qed.

Lemma steps_clear l : forall d,
  clear (steps d l).1 = clear (steps (clear d) l).1
  /\ explode (steps d l).2 ++ data_bytes (steps d l).1.(dec_data)
     = data_bytes d.(dec_data) ++ explode (steps (clear d) l).2 ++ data_bytes (steps (clear d) l).1.(dec_data).
Proof.
  induction l as [|b l IH]; intros d; [cbn; by rewrite app_nil_r|]. cbn [steps].
  destruct (step_clear d b) as [H1 H2].
  destruct (step d b) as [d1 o1], (step (clear d) b) as [d2 o2]. cbn [fst snd] in *.
  destruct (IH d1) as [A1 A2], (IH d2) as [B1 B2]. rewrite H1 in A1, A2.
  destruct (steps d1 l) as [d3 o3], (steps d2 l) as [d4 o4], (steps (clear d2) l) as [d5 o5]. cbn [fst snd] in *.
  rewrite !explode_app, <- !app_assoc. split; [congruence|].
  rewrite A2, B2, !app_assoc. f_equal. f_equal. by rewrite H2, app_assoc.
Qed.

Lemma feed_app d l1 l2 :
  feed d (l1 ++ l2)
  = let '(d1, e1) := feed d l1 in let '(d2, e2) := feed d1 l2 in (d2, e1 ++ e2).
Proof.
  unfold feed. rewrite steps_app. destruct (steps (clear d) l1) as [d1 o1].
  destruct (steps_clear l2 d1) as [H1 H2]. change (clear (clear d1)) with (clear d1).
  destruct (steps d1 l2) as [d2 o2], (steps (clear d1) l2) as [d3 o3]. cbn [fst snd] in *.
  rewrite explode_app, <- app_assoc, H1. f_equal. by rewrite H2, !app_assoc.
Qed.

Lemma push_feed d l d' o : d.(dec_data) = [] -> push d l = (d', o) -> feed d l = (d', explode o) /\ d'.(dec_data) = [].
Proof.
  intros Hd. unfold push, feed.
  assert (Hc : clear d = d) by (destruct d; cbn in *; by subst). rewrite Hc.
  destruct (steps d l) as [[st so sb data] o1]. unfold flush_data. cbn [dec_data dec_state sub_option sub_body].
  destruct data as [|x data]; intros [= <- <-]; (split; [|done]).
  - cbn. by rewrite !app_nil_r.
  - rewrite explode_app. cbn. by rewrite app_nil_r.
Qed.

(** Successive reads. *)
Fixpoint push_all (d : Decoder) (chunks : list bytes) : Decoder * list Event :=
  match chunks with
  | [] => (d, [])
  | c :: chunks => let '(d, o) := push d c in let '(d, o') := push_all d chunks in (d, o ++ o')
  end.

Lemma push_all_feed chunks : forall d, d.(dec_data) = [] ->
  (let '(d', o) := push_all d chunks in (d', explode o)) = feed d (concat chunks).
Proof.
  induction chunks as [|c chunks IH]; intros d Hd; cbn [push_all concat].
  - unfold feed. cbn. by destruct d; cbn in *; subst.
  - rewrite feed_app. destruct (push d c) as [d1 o1] eqn:Hp.
    destruct (push_feed d c d1 o1 Hd Hp) as [-> Hd1]. specialize (IH d1 Hd1).
    destruct (push_all d1 chunks) as [d2 o2]. rewrite <- IH. by rewrite explode_app.
Qed.

(** The decoder does not depend on how the network cuts the stream up:
    whatever the sizes of the reads, it ends in the same state and reports the
    same negotiations and subnegotiations with the same data bytes before,
    between and after them. *)
Theorem decoder_chunking_irrelevant chunks chunks' :
  concat chunks = concat chunks' ->
  (push_all decoder_new chunks).1 = (push_all decoder_new chunks').1
  /\ explode (push_all decoder_new chunks).2 = explode (push_all decoder_new chunks').2.
Proof.
  intros H. pose proof (push_all_feed chunks decoder_new eq_refl) as H1.
  pose proof (push_all_feed chunks' decoder_new eq_refl) as H2. rewrite <- H in H2.
  destruct (push_all decoder_new chunks), (push_all decoder_new chunks'). rewrite <- H1 in H2. by simplify_eq.
Qed.

Lemma decoder_chunking_irrelevant_witness :
  (push_all decoder_new [map u8 [70; 255]; map u8 [251; 44; 65]]).1
  = (push_all decoder_new [map u8 [70; 255; 251; 44; 65]]).1
  /\ explode (push_all decoder_new [map u8 [70; 255]; map u8 [251; 44; 65]]).2
     = explode (push_all decoder_new [map u8 [70; 255; 251; 44; 65]]).2.
Proof.
  apply (decoder_chunking_irrelevant [map u8 [70; 255]; map u8 [251; 44; 65]] [map u8 [70; 255; 251; 44; 65]]).
  reflexivity.
Defined.

(** The events themselves do depend on it: a run of data bytes is one event
    per read. *)
Example chunking_shows_in_events :
  (push_all decoder_new [map u8 [70; 65]]).2 = [EvData (map u8 [70; 65])]
  /\ (push_all decoder_new [map u8 [70]; map u8 [65]]).2 = [EvData (map u8 [70]); EvData (map u8 [65])].
Proof. split; vm_compute; reflexivity. Qed.

(** ** Round trip *)

(** What one end sends: data, a negotiation, a Com Port command. *)
Inductive Item : Type := IData (l : bytes) | INegotiate (verb option : byte) | IComPort (command : byte) (params : bytes).
Definition encode_item (i : Item) : bytes :=
  match i with
  | IData l => encode_data l
  | INegotiate v o => negotiate v o
  | IComPort c ps => com_port c ps
  end.
Definition item_event (i : Item) : Event :=
  match i with IData l => EvData l | INegotiate v o => EvNegotiate v o | IComPort c ps => EvComPort c ps end.
(** A negotiation uses one of the four verbs; a command code is not escaped,
    so it is not the escape byte (the highest in use is 112). *)
Definition item_ok (i : Item) : Prop :=
  match i with
  | IData _ => True
  | INegotiate v _ => is_verb v = true
  | IComPort c _ => byte_is c IAC = false
  end.

Lemma feed_nil d : feed d [] = (clear d, []).
Proof. by destruct d. Qed.
Lemma feed_cons d b l :
  feed d (b :: l) = let '(d1, e1) := feed d [b] in let '(d2, e2) := feed d1 l in (d2, e1 ++ e2).
Proof. change (b :: l) with ([b] ++ l). apply feed_app. Qed.

Lemma byte_is_refl b : byte_is b b = true.
Proof. by apply bool_decide_eq_true. Qed.
Lemma byte_is_true b c : byte_is b c = true -> b = c.
Proof. apply bool_decide_eq_true. Qed.

(** Escaped data in the data state, and escaped parameters in a body. *)
Lemma feed_escape_data l so sb :
  feed (mk_Decoder StData so sb []) (escape l) = (mk_Decoder StData so sb [], data_bytes l).
Proof.
  induction l as [|b l IH]; [done|]. cbn [escape].
  destruct (byte_is b IAC) eqn:Hb.
  - apply byte_is_true in Hb as ->.
    change (IAC :: IAC :: escape l) with ([IAC; IAC] ++ escape l). rewrite feed_app.
    change (feed (mk_Decoder StData so sb []) [IAC; IAC]) with (mk_Decoder StData so sb [], [EvData [IAC]]).
    cbv beta iota. by rewrite IH.
  - rewrite feed_cons.
    assert (E : feed (mk_Decoder StData so sb []) [b] = (mk_Decoder StData so sb [], [EvData [b]])).
    { unfold feed. cbn -[byte_is]. by rewrite Hb. }
    rewrite E. cbv beta iota. by rewrite IH.
Qed.

Lemma feed_escape_body ps so : forall sb,
  feed (mk_Decoder StSubBody so sb []) (escape ps) = (mk_Decoder StSubBody so (sb ++ ps) [], []).
Proof.
  induction ps as [|b ps IH]; intros sb; cbn [escape]; [by rewrite feed_nil, app_nil_r|].
  destruct (byte_is b IAC) eqn:Hb.
  - apply byte_is_true in Hb as ->.
    change (IAC :: IAC :: escape ps) with ([IAC; IAC] ++ escape ps). rewrite feed_app.
    change (feed (mk_Decoder StSubBody so sb []) [IAC; IAC]) with (mk_Decoder StSubBody so (sb ++ [IAC]) [], @nil Event).
    cbv beta iota. by rewrite IH, <- app_assoc.
  - rewrite feed_cons.
    assert (E : feed (mk_Decoder StSubBody so sb []) [b] = (mk_Decoder StSubBody so (sb ++ [b]) [], [])).
    { unfold feed. cbn -[byte_is]. by rewrite Hb. }
    rewrite E. cbv beta iota. by rewrite IH, <- app_assoc.
Qed.

Lemma feed_item i so sb : item_ok i ->
  exists so' sb', feed (mk_Decoder StData so sb []) (encode_item i)
    = (mk_Decoder StData so' sb' [], explode [item_event i]).
Proof.
  destruct i as [l|v o|c ps]; cbn [encode_item item_event item_ok]; intros Hi.
  - exists so, sb. unfold encode_data. rewrite feed_escape_data. cbn. by rewrite app_nil_r.
  - exists so, sb. unfold negotiate. change [IAC; v; o] with ([IAC] ++ [v; o]). rewrite feed_app.
    change (feed (mk_Decoder StData so sb []) [IAC]) with (mk_Decoder StIac so sb [], @nil Event).
    cbv beta iota. unfold feed. cbn -[byte_is is_verb].
    assert (Hv : byte_is v IAC = false).
    { apply bool_decide_eq_false. intros ->. vm_compute in Hi. done. }
    by rewrite Hv, Hi.
  - exists OPT_COM_PORT, []. unfold com_port.
    change ([IAC; SB; OPT_COM_PORT; c] ++ escape ps ++ [IAC; SE])
      with ([IAC; SB; OPT_COM_PORT] ++ [c] ++ escape ps ++ [IAC; SE]).
    rewrite feed_app.
    change (feed (mk_Decoder StData so sb []) [IAC; SB; OPT_COM_PORT])
      with (mk_Decoder StSubBody OPT_COM_PORT [] [], @nil Event).
    cbv beta iota. rewrite (feed_app _ [c]).
    assert (E : feed (mk_Decoder StSubBody OPT_COM_PORT [] []) [c]
                = (mk_Decoder StSubBody OPT_COM_PORT [c] [], [])).
    { unfold feed. cbn -[byte_is]. by rewrite Hi. }
    rewrite E. cbv beta iota. rewrite feed_app, feed_escape_body. done.
Qed.

Lemma feed_items l : forall so sb, Forall item_ok l ->
  exists so' sb', feed (mk_Decoder StData so sb []) (concat (map encode_item l))
    = (mk_Decoder StData so' sb' [], explode (map item_event l)).
Proof.
  induction l as [|i l IH]; intros so sb Hl; [by exists so, sb|].
  apply Forall_cons_1 in Hl as [Hi Hl]. cbn [map concat]. rewrite feed_app.
  destruct (feed_item i so sb Hi) as (so1 & sb1 & ->). cbv beta iota.
  destruct (IH so1 sb1 Hl) as (so2 & sb2 & ->).
  exists so2, sb2. f_equal. change (item_event i :: map item_event l) with ([item_event i] ++ map item_event l).
  by rewrite explode_app.
Qed.

(** C28. Whatever one end encodes, the other decodes: any sequence of data
    (with escape bytes anywhere), negotiations and commands with any parameter
    bytes, cut into reads of any size, is reported as exactly that sequence,
    and leaves the decoder between messages. *)
Theorem rfc2217_roundtrip l chunks :
  Forall item_ok l -> concat chunks = concat (map encode_item l) ->
  explode (push_all decoder_new chunks).2 = explode (map item_event l)
  /\ (push_all decoder_new chunks).1.(dec_state) = StData.
Proof.
  intros Hl Hc. pose proof (push_all_feed chunks decoder_new eq_refl) as H. rewrite Hc in H.
  destruct (feed_items l (u8 0) [] Hl) as (so & sb & E). fold decoder_new in E. rewrite E in H.
  destruct (push_all decoder_new chunks) as [d o]. injection H as -> Ho. done.
Qed.

Lemma rfc2217_roundtrip_witness :
  explode (push_all decoder_new [map u8 [255; 255; 255; 250; 44]; map u8 [1; 255; 255; 0; 255; 240]]).2
  = [EvData [u8 255]; EvComPort (u8 1) (map u8 [255; 0])]
  /\ (push_all decoder_new [map u8 [255; 255; 255; 250; 44]; map u8 [1; 255; 255; 0; 255; 240]]).1.(dec_state) = StData.
Proof.
  apply (rfc2217_roundtrip [IData [u8 255]; IComPort (u8 1) (map u8 [255; 0])]
    [map u8 [255; 255; 255; 250; 44]; map u8 [1; 255; 255; 0; 255; 240]]);
    [repeat constructor|reflexivity].
Defined.

(** ** The lines a client drives *)

Definition peer_events (p : Rfc2217Peer) (l : bytes) : list PeerEvent := (peer_push p l).1.2.
Definition peer_after (p : Rfc2217Peer) (l : bytes) : Rfc2217Peer := (peer_push p l).1.1.
Fixpoint peer_run (p : Rfc2217Peer) (reads : list bytes) : Rfc2217Peer * list PeerEvent :=
  match reads with
  | [] => (p, [])
  | l :: reads =>
      let '(p', ev) := peer_run (peer_after p l) reads in (p', peer_events p l ++ ev)
  end.

(** The line levels a host arrives at by following the events. *)
Definition follow (lines : bool * bool) (e : PeerEvent) : bool * bool :=
  match e with PDtr b => (b, lines.2) | PRts b => (lines.1, b) | _ => lines end.
Definition lines_of (p : Rfc2217Peer) : bool * bool := (p.(dtr), p.(rts)).

Lemma handle_event_lines p e p' ev r :
  handle_event p e = (p', ev, r) -> lines_of p' = fold_left follow ev (lines_of p).
Proof.
  destruct e as [l|c ps|v o|o b]; cbn [handle_event]; [by intros [= <- <- <-]| |by intros [= <- <- <-]..].
  unfold handle_com_port, handle_control.
  destruct ps as [|v ps]; repeat match goal with |- context [if ?c then _ else _] => destruct c end;
    by intros [= <- <- <-].
Qed.

Lemma handle_events_lines l : forall p p' ev r,
  handle_events p l = (p', ev, r) -> lines_of p' = fold_left follow ev (lines_of p).
Proof.
  induction l as [|e l IH]; intros p p' ev r; cbn [handle_events]; [by intros [= <- <- <-]|].
  destruct (handle_event p e) as [[p1 ev1] r1] eqn:E1. destruct (handle_events p1 l) as [[p2 ev2] r2] eqn:E2.
  intros [= <- <- <-]. rewrite fold_left_app, <- (handle_event_lines _ _ _ _ _ E1). eauto.
Qed.

Lemma peer_push_lines p l : lines_of (peer_after p l) = fold_left follow (peer_events p l) (lines_of p).
Proof.
  unfold peer_after, peer_events, peer_push. destruct (push p.(decoder) l) as [d dec].
  destruct (handle_events _ dec) as [[p' ev] r] eqn:E. apply handle_events_lines in E. exact E.
Qed.

(** The host always knows the lines: through any bytes a client sends, the
    DTR and RTS the server holds are what following its events gives, from DTR
    low and RTS high; DTR, which keys a transmitter, is high only if the last
    event about it said so. *)
Theorem lines_follow_events reads :
  lines_of (peer_run peer_new reads).1 = fold_left follow (peer_run peer_new reads).2 (false, true).
Proof.
  change (false, true) with (lines_of peer_new). generalize peer_new.
  induction reads as [|l reads IH]; intros p; [done|]. cbn [peer_run].
  specialize (IH (peer_after p l)). destruct (peer_run (peer_after p l) reads) as [p' ev]. cbn [fst snd] in *.
  by rewrite fold_left_app, <- peer_push_lines.
Qed.

Definition is_pdata (e : PeerEvent) : Prop := match e with PData _ => True | _ => False end.

Lemma handle_events_data p l : Forall (fun e => match e with EvData _ => True | _ => False end) l ->
  handle_events p l = (p, map (fun e => match e with EvData d => PData d | _ => PData [] end) l, []).
Proof.
  induction l as [|e l IH]; intros Hl; [done|]. apply Forall_cons_1 in Hl as [He Hl].
  destruct e; try done. cbn [handle_events handle_event map]. by rewrite IH.
Qed.

Lemma explode_only_data l data : explode l = data_bytes data ->
  Forall (fun e => match e with EvData _ => True | _ => False end) l.
Proof.
  revert data. induction l as [|e l IH]; intros data H; [constructor|].
  destruct e as [d|c ps|v o|o b]; [|by destruct data..].
  constructor; [done|]. cbn in H.
  assert (E : exists data', explode l = data_bytes data').
  { clear IH. revert data H. induction d as [|x d IHd]; intros data H; [by exists data|].
    destruct data as [|y data]; [done|]. cbn in H. injection H as _ H. eauto. }
  destruct E as [data' E]. eauto.
Qed.

Definition pdata (e : PeerEvent) : bytes := match e with PData l => l | _ => [] end.

Lemma explode_data_concat l data : explode l = data_bytes data ->
  concat (map (fun e => match e with EvData d => d | _ => [] end) l) = data.
Proof.
  revert data. induction l as [|e l IH]; intros data H; [by destruct data|].
  destruct e as [d|c ps|v o|o b]; [|by destruct data..]. cbn [map concat]. cbn [explode] in H.
  revert data H. induction d as [|x d IHd]; intros data H; [by apply IH|].
  destruct data as [|y data]; [done|]. cbn in H. injection H as -> H. cbn [app]. f_equal. by apply IHd.
Qed.

(** Data never keys: between messages, any CAT bytes a client sends as
    data, the escape byte included, reach the host as exactly those bytes, are
    not answered, and leave DTR, RTS and the subscription as they were. *)
Theorem data_never_keys p data :
  p.(decoder).(dec_state) = StData -> p.(decoder).(dec_data) = [] ->
  let '(p', ev, r) := peer_push p (encode_data data) in
  p' = p /\ r = [] /\ Forall is_pdata ev /\ concat (map pdata ev) = data.
Proof.
  intros Hs Hd. unfold peer_push. destruct (push p.(decoder) (encode_data data)) as [d dec] eqn:Hp.
  destruct (push_feed _ _ _ _ Hd Hp) as [Hf _].
  destruct p as [[st so sb pd] dt rt mm ln]. cbn [decoder dec_state dec_data] in *. subst st pd.
  unfold encode_data in Hf. rewrite feed_escape_data in Hf. injection Hf as <- He. symmetry in He.
  rewrite handle_events_data by (by eapply explode_only_data). cbn.
  pose proof (explode_only_data _ _ He) as Hall. pose proof (explode_data_concat _ _ He) as Hc.
  split_and!; [done|done| |].
  - apply Forall_map. eapply Forall_impl; [exact Hall|]. by intros [].
  - rewrite map_map. rewrite <- Hc. f_equal. apply map_ext_in. intros e Hin.
    rewrite Forall_forall in Hall. specialize (Hall e (proj2 (list_elem_of_In _ _) Hin)). by destruct e.
Qed.

Lemma data_never_keys_witness :
  let '(p', ev, r) := peer_push peer_new (encode_data (map u8 [70; 255; 59])) in
  p' = peer_new /\ r = [] /\ Forall is_pdata ev /\ concat (map pdata ev) = map u8 [70; 255; 59].
Proof. apply (data_never_keys peer_new (map u8 [70; 255; 59])); reflexivity. Defined.

(** ** Modem-line notifications *)

(** A subscribed client is told exactly when a line it asked for has
    changed: an announcement carries the current levels of the subscribed
    lines, none is sent to a client that did not subscribe, and the same state
    is not announced twice. *)
Theorem modem_state_announces_changes p state :
  let '(p', msg) := modem_state p state in
  (msg = None <-> p.(modem_mask) = 0
     \/ option_map (fun s => Z.land s p.(modem_mask)) p.(last_notified) = Some (Z.land state p.(modem_mask)))
  /\ (forall m, msg = Some m -> exists out, m = notify_modem_state out
        /\ Z.land out 0xF0 = Z.land (Z.land state p.(modem_mask)) 0xF0
        /\ p'.(last_notified) = Some (Z.land state p.(modem_mask)))
  /\ snd (modem_state p' state) = None.
Proof.
  unfold modem_state at 1. destruct (Z.eqb_spec p.(modem_mask) 0) as [H0|H0].
  { split_and!; [tauto|done|]. unfold modem_state. by rewrite H0. }
  case_bool_decide as Hp.
  { split_and!; [tauto|done|]. unfold modem_state.
    destruct (Z.eqb_spec p.(modem_mask) 0); [done|]. by rewrite bool_decide_eq_true_2. }
  split_and!.
  - split; [done|]. by intros [?|?].
  - intros m [= <-]. eexists. split_and!; [done| |done].
    set (masked := Z.land state p.(modem_mask)). destruct (option_map _ _) as [prev|]; [|done].
    set (ch := Z.lxor prev masked).
    assert (Hd : forall d bit, Z.land d 0xF0 = 0 -> Z.land (if Z.land ch bit =? 0 then 0 else d) 0xF0 = 0)
      by (intros d bit Hz; by destruct (_ =? 0)).
    rewrite !Z.land_lor_distr_l, !Hd by reflexivity. by rewrite !Z.lor_0_r.
  - unfold modem_state. cbn [modem_mask last_notified option_map].
    destruct (Z.eqb_spec p.(modem_mask) 0); [done|].
    rewrite <- Z.land_assoc, Z.land_diag. by rewrite bool_decide_eq_true_2.
Qed.

(** A client that subscribes again, or to more lines that are low, is told
    nothing until something changes. *)
Example resubscription_not_announced :
  let p := peer_after peer_new (com_port SET_MODEMSTATE_MASK [u8 0x10]) in
  let p := fst (modem_state p 0) in
  let p := peer_after p (com_port SET_MODEMSTATE_MASK [u8 ALL_LEVELS]) in
  p.(modem_mask) = ALL_LEVELS /\ snd (modem_state p 0) = None.
Proof. split; vm_compute; reflexivity. Qed.
