(* ===== verification/RemotePort.v ===== *)
(** * RemotePort: a serial port at the far end of a Telnet connection
    (cat-transport-rfc2217/src/port.rs)

    The client half: the opening exchange, the reader thread with its inbox and
    its cache of the modem lines, and the port's operations.  Joined to the
    device server's half of [Rfc2217], what the port does to its lines and
    writes is what the host at the far end sees. *)

From S2P Require Import Prelude Text Utf8 Framework Client Tcp Serial Rfc2217.

Inductive Parity : Type := NoParity | OddParity | EvenParity | MarkParity | SpaceParity.
Definition parity_wire (p : Parity) : byte :=
  u8 match p with NoParity => 1 | OddParity => 2 | EvenParity => 3 | MarkParity => 4 | SpaceParity => 5 end.

Record Rfc2217Config : Type := mk_Rfc2217Config {
  rc_baud_rate : Z; rc_data_bits : byte; rc_stop_bits : byte; rc_parity : Parity;
  rc_initial_rts : bool; rc_initial_dtr : bool }.
Definition rfc2217_config_default : Rfc2217Config := mk_Rfc2217Config 9600 (u8 8) (u8 2) NoParity true false.

(** The write half of the socket. *)
Class SocketWriter (W : Type) : Type := {
  sw_write_all : W -> bytes -> W * result () IoError;
  sw_shutdown : W -> W }.

(** Of the waiting reader only that it is there matters. *)
Record Inbox : Type := mk_Inbox { ib_data : bytes; ib_waiter : bool; ib_closed : option text }.
Record PortShared (W : Type) : Type := mk_PortShared {
  inbox : Inbox; last_modem_state : Z; modem_seen : bool; socket : W }.
Arguments mk_PortShared {W}.
Arguments inbox {W}.
Arguments last_modem_state {W}.
Arguments modem_seen {W}.
Arguments socket {W}.

(** The opening exchange, as what is sent and as its bytes. *)
Definition opening_items (config : Rfc2217Config) : list Item :=
  flat_map (fun verb => [INegotiate verb OPT_BINARY; INegotiate verb OPT_SUPPRESS_GO_AHEAD]) [WILL; DO]
  ++ [INegotiate WILL OPT_COM_PORT;
      IComPort SET_BAUDRATE (to_be_bytes 4 config.(rc_baud_rate));
      IComPort SET_DATASIZE [config.(rc_data_bits)];
      IComPort SET_PARITY [parity_wire config.(rc_parity)];
      IComPort SET_STOPSIZE [config.(rc_stop_bits)];
      IComPort SET_CONTROL [FLOW_NONE];
      IComPort SET_CONTROL [if config.(rc_initial_dtr) then DTR_ON else DTR_OFF];
      IComPort SET_CONTROL [if config.(rc_initial_rts) then RTS_ON else RTS_OFF];
      IComPort SET_MODEMSTATE_MASK [u8 ALL_LEVELS]].
Definition opening (config : Rfc2217Config) : bytes :=
  flat_map (fun verb => negotiate verb OPT_BINARY ++ negotiate verb OPT_SUPPRESS_GO_AHEAD) [WILL; DO]
  ++ negotiate WILL OPT_COM_PORT
  ++ set_baud_rate config.(rc_baud_rate)
  ++ com_port SET_DATASIZE [config.(rc_data_bits)]
  ++ com_port SET_PARITY [parity_wire config.(rc_parity)]
  ++ com_port SET_STOPSIZE [config.(rc_stop_bits)]
  ++ set_control FLOW_NONE
  ++ set_control (if config.(rc_initial_dtr) then DTR_ON else DTR_OFF)
  ++ set_control (if config.(rc_initial_rts) then RTS_ON else RTS_OFF)
  ++ com_port SET_MODEMSTATE_MASK [u8 ALL_LEVELS].

Section Port.
  Context {W : Type} `{!SocketWriter W}.
  Implicit Types (sh : PortShared W).

Definition with_inbox sh (i : Inbox) : PortShared W := mk_PortShared i sh.(last_modem_state) sh.(modem_seen) sh.(socket).
Definition write_raw sh (data : bytes) : PortShared W * result () TransportError :=
  let '(w, r) := sw_write_all sh.(socket) data in
  (mk_PortShared sh.(inbox) sh.(last_modem_state) sh.(modem_seen) w, map_err TIo r).
Definition set_line sh (on : bool) (on_value off_value : byte) : PortShared W * result () TransportError :=
  write_raw sh (set_control (if on then on_value else off_value)).
(** [close]: says whether a suspended reader was woken. *)
Definition close sh (why : text) : PortShared W * bool :=
  let i := sh.(inbox) in
  (with_inbox sh (mk_Inbox i.(ib_data) false (match i.(ib_closed) with Some w => Some w | None => Some why end)),
   i.(ib_waiter)).

Definition port_new (w : W) : PortShared W := mk_PortShared (mk_Inbox [] false None) 0 false w.
Definition port_negotiate sh (config : Rfc2217Config) : PortShared W * result () TransportError :=
  write_raw sh (opening config).
Definition modem_state_reported sh : bool := sh.(modem_seen).

(** [answer_negotiation] of the client: agreed options are not answered. *)
Definition client_answer sh (verb option : byte) : PortShared W :=
  let supported := byte_is option OPT_BINARY || byte_is option OPT_SUPPRESS_GO_AHEAD || byte_is option OPT_COM_PORT in
  let reply := if byte_is verb DO && negb supported then Some WONT
               else if byte_is verb WILL && negb supported then Some DONT else None in
  match reply with Some v => (write_raw sh (negotiate v option)).1 | None => sh end.

(** One round of the reader thread on what a read returned. *)
Definition client_event (x : PortShared W * bool) (e : Event) : PortShared W * bool :=
  let '(sh, arrived) := x in
  match e with
  | EvData l =>
      (with_inbox sh (mk_Inbox (sh.(inbox).(ib_data) ++ l) sh.(inbox).(ib_waiter) sh.(inbox).(ib_closed)), true)
  | EvComPort command params =>
      (if byte_is command (server_code NOTIFY_MODEMSTATE) then
         match params with
         | state :: _ => mk_PortShared sh.(inbox) (unsigned state) true sh.(socket)
         | [] => sh
         end
       else sh, arrived)
  | EvNegotiate verb option => (client_answer sh verb option, arrived)
  | EvOther _ _ => x
  end.
Definition take_waiter sh : PortShared W * bool :=
  (with_inbox sh (mk_Inbox sh.(inbox).(ib_data) false sh.(inbox).(ib_closed)), sh.(inbox).(ib_waiter)).
Definition reader_round (d : Decoder) sh (read : bytes) : Decoder * PortShared W * bool :=
  let '(d, events) := push d read in
  let '(sh, arrived) := fold_left client_event events (sh, false) in
  if arrived then let '(sh, woken) := take_waiter sh in (d, sh, woken) else (d, sh, false).

(** The port's operations.  [remote_read] is one turn of its loop: [None] when
    it suspends, the waiter registered under the same lock. *)
Definition remote_write sh (data : bytes) : PortShared W * result nat TransportError :=
  let '(sh, r) := write_raw sh (encode_data data) in (sh, result_map (fun _ => length data) r).
Definition remote_read sh (len : nat) : PortShared W * option (result bytes TransportError) :=
  let i := sh.(inbox) in
  match len with
  | O => (sh, Some (Ok []))
  | _ =>
      match i.(ib_data) with
      | _ :: _ => (with_inbox sh (mk_Inbox (drop len i.(ib_data)) i.(ib_waiter) i.(ib_closed)), Some (Ok (take len i.(ib_data))))
      | [] =>
          match i.(ib_closed) with
          | Some why => (sh, Some (Err (TOther why)))
          | None => (with_inbox sh (mk_Inbox [] true None), None)
          end
      end
  end.
Definition remote_flush_rx sh : PortShared W := with_inbox sh (mk_Inbox [] sh.(inbox).(ib_waiter) sh.(inbox).(ib_closed)).
Definition remote_set_rts sh (asserted : bool) : PortShared W * result () TransportError := set_line sh asserted RTS_ON RTS_OFF.
Definition remote_set_dtr sh (asserted : bool) : PortShared W * result () TransportError := set_line sh asserted DTR_ON DTR_OFF.
Definition remote_read_cts sh : bool := modem_cts sh.(last_modem_state).
Definition remote_read_dsr sh : bool := modem_dsr sh.(last_modem_state).
Definition remote_read_dcd sh : bool := modem_dcd sh.(last_modem_state).
(** Dropping the port. *)
Definition port_drop sh : PortShared W := mk_PortShared sh.(inbox) sh.(last_modem_state) sh.(modem_seen) (sw_shutdown sh.(socket)).
End Port.

Lemma opening_is_items config : opening config = concat (map encode_item (opening_items config)).
Proof. destruct config as [b d s p [] []]; reflexivity. Qed.

(** ** What the far end sees, however the stream is cut *)

Definition set_decoder (p : Rfc2217Peer) (d : Decoder) : Rfc2217Peer :=
  mk_Peer d p.(dtr) p.(rts) p.(modem_mask) p.(last_notified).

Lemma handle_event_decoder p d e : handle_event (set_decoder p d) e
  = let '(p', ev, r) := handle_event p e in (set_decoder p' d, ev, r).
Proof.
  destruct e as [l|c ps|v o|o b]; cbn [handle_event]; try done. unfold handle_com_port, handle_control. cbn [dtr rts set_decoder].
  destruct ps as [|x ps]; repeat match goal with |- context [if ?c then _ else _] => destruct c end; done.
Qed.
Lemma handle_events_decoder l : forall p d, handle_events (set_decoder p d) l
  = let '(p', ev, r) := handle_events p l in (set_decoder p' d, ev, r).
Proof.
  induction l as [|e l IH]; intros p d; [done|]. cbn [handle_events]. rewrite handle_event_decoder.
  destruct (handle_event p e) as [[p1 ev1] r1]. rewrite IH. by destruct (handle_events p1 l) as [[? ?] ?].
Qed.
Lemma handle_events_app l l' : forall p, handle_events p (l ++ l')
  = let '(p1, ev1, r1) := handle_events p l in
    let '(p2, ev2, r2) := handle_events p1 l' in (p2, ev1 ++ ev2, r1 ++ r2).
Proof.
  induction l as [|e l IH]; intros p; [cbn; by destruct (handle_events p l') as [[? ?] ?]|]. cbn [handle_events app].
  destruct (handle_event p e) as [[p1 ev1] r1]. rewrite IH. destruct (handle_events p1 l) as [[p2 ev2] r2].
  destruct (handle_events p2 l') as [[p3 ev3] r3]. by rewrite !app_assoc.
Qed.

(** The host's events with every data byte on its own. *)
Fixpoint host_explode (l : list PeerEvent) : list PeerEvent :=
  match l with
  | [] => []
  | PData d :: l => map (fun b => PData [b]) d ++ host_explode l
  | e :: l => e :: host_explode l
  end.
Lemma host_explode_app l l' : host_explode (l ++ l') = host_explode l ++ host_explode l'.
Proof. induction l as [|[] l IH]; cbn; rewrite ?IH, ?app_assoc; done. Qed.

Lemma handle_events_explode l : forall p, handle_events p (explode l)
  = let '(p', ev, r) := handle_events p l in (p', host_explode ev, r).
Proof.
  induction l as [|e l IH]; intros p; [done|].
  assert (Hd : forall (d : bytes) q, handle_events q (data_bytes d) = (q, map (fun b => PData [b]) d, [])).
  { induction d as [|b d IHd]; intros q; [done|]. cbn [data_bytes map handle_events handle_event]. unfold data_bytes in IHd. by rewrite IHd. }
  destruct e as [d|c ps|v o|o b].
  - cbn [explode]. rewrite handle_events_app, Hd, IH. cbn [handle_events handle_event].
    by destruct (handle_events p l) as [[p1 ev1] r1].
  - cbn [explode handle_events]. destruct (handle_event p (EvComPort c ps)) as [[p1 ev1] r1] eqn:E. rewrite IH.
    destruct (handle_events p1 l) as [[p2 ev2] r2]. rewrite host_explode_app. do 2 f_equal. f_equal.
    cbn [handle_event] in E. unfold handle_com_port, handle_control in E. revert E.
    destruct ps as [|x ps]; repeat match goal with |- context [if ?c then _ else _] => destruct c end; by intros [= <- <- <-].
  - cbn [explode handle_events handle_event]. rewrite IH. by destruct (handle_events p l) as [[p1 ev1] r1].
  - cbn [explode handle_events handle_event]. rewrite IH. by destruct (handle_events p l) as [[p1 ev1] r1].
Qed.

Lemma peer_run_events chunks : forall p, peer_run p chunks
  = let '(d, o) := push_all p.(decoder) chunks in
    let '(p', ev, _) := handle_events p o in (set_decoder p' d, ev).
Proof.
  induction chunks as [|c chunks IH]; intros p; [by destruct p|]. cbn [peer_run push_all].
  unfold peer_after, peer_events, peer_push. destruct (push p.(decoder) c) as [d1 o1].
  change (mk_Peer d1 p.(dtr) p.(rts) p.(modem_mask) p.(last_notified)) with (set_decoder p d1). rewrite handle_events_decoder.
  destruct (handle_events p o1) as [[p1 ev1] r1] eqn:E1. cbn [fst snd]. rewrite IH. cbn [decoder set_decoder].
  destruct (push_all d1 chunks) as [d2 o2]. rewrite handle_events_decoder, handle_events_app, E1.
  destruct (handle_events p1 o2) as [[p2 ev2] r2]. done.
Qed.

(** A stream that encodes items is heard as those items. *)
Lemma peer_hears l chunks :
  Forall item_ok l -> concat chunks = concat (map encode_item l) ->
  let '(p', ev) := peer_run peer_new chunks in
  let '(q, ev', _) := handle_events peer_new (map item_event l) in
  host_explode ev = host_explode ev' /\ p'.(dtr) = q.(dtr) /\ p'.(rts) = q.(rts) /\ p'.(modem_mask) = q.(modem_mask).
Proof.
  intros Hl Hc. rewrite peer_run_events. pose proof (push_all_feed chunks decoder_new eq_refl) as H. rewrite Hc in H.
  destruct (feed_items l (u8 0) [] Hl) as (so & sb & E). fold decoder_new in E. rewrite E in H.
  change (decoder peer_new) with decoder_new. destruct (push_all decoder_new chunks) as [d o]. injection H as _ Ho.
  pose proof (handle_events_explode o peer_new) as H1. pose proof (handle_events_explode (map item_event l) peer_new) as H2.
  rewrite Ho in H1. rewrite H1 in H2. destruct (handle_events peer_new o) as [[p1 ev1] r1].
  destruct (handle_events peer_new (map item_event l)) as [[p2 ev2] r2]. by injection H2 as -> -> _.
Qed.

(** ** The port's operations at the far end *)

Class SocketWriterLaws (W : Type) `{!SocketWriter W} : Type := {
  sw_sent : W -> bytes;
  sw_write_law : forall w data w' r, sw_write_all w data = (w', r) ->
    match r with
    | Ok _ => sw_sent w' = sw_sent w ++ data
    | Err _ => exists k, sw_sent w' = sw_sent w ++ take k data
    end;
  sw_shutdown_law : forall w, sw_sent (sw_shutdown w) = sw_sent w }.

Inductive PortOp : Type := OpWrite (data : bytes) | OpDtr (b : bool) | OpRts (b : bool).
Definition op_item (op : PortOp) : Item :=
  match op with
  | OpWrite data => IData data
  | OpDtr b => IComPort SET_CONTROL [if b then DTR_ON else DTR_OFF]
  | OpRts b => IComPort SET_CONTROL [if b then RTS_ON else RTS_OFF]
  end.
(** What the host at the far end is to see of it. *)
Definition op_event (op : PortOp) : PeerEvent :=
  match op with OpWrite data => PData data | OpDtr b => PDtr b | OpRts b => PRts b end.

Section FarEnd.
  Context {W : Type} `{!SocketWriter W} `{!SocketWriterLaws W}.
  Implicit Types (sh : PortShared W).

Definition run_op sh (op : PortOp) : PortShared W * result () TransportError :=
  match op with
  | OpWrite data => let '(sh, r) := remote_write sh data in (sh, result_map (fun _ => tt) r)
  | OpDtr b => remote_set_dtr sh b
  | OpRts b => remote_set_rts sh b
  end.
(** As long as they succeed. *)
Fixpoint run_ops sh (l : list PortOp) : option (PortShared W) :=
  match l with
  | [] => Some sh
  | op :: l => match run_op sh op with (sh, Ok _) => run_ops sh l | (_, Err _) => None end
  end.

Lemma write_raw_sent sh data sh' : write_raw sh data = (sh', Ok tt) -> sw_sent sh'.(socket) = sw_sent sh.(socket) ++ data.
Proof.
  unfold write_raw. destruct (sw_write_all sh.(socket) data) as [w r] eqn:E. apply sw_write_law in E.
  intros [= <- Hr]. destruct r; [done|discriminate Hr].
Qed.

Lemma run_op_sent sh op sh' : run_op sh op = (sh', Ok tt) ->
  sw_sent sh'.(socket) = sw_sent sh.(socket) ++ encode_item (op_item op).
Proof.
  destruct op as [data|b|b]; cbn [run_op op_item encode_item].
  - unfold remote_write. destruct (write_raw sh (encode_data data)) as [sh1 [[]|e]] eqn:E; intros [= <-].
    by apply write_raw_sent.
  - apply write_raw_sent.
  - apply write_raw_sent.
Qed.

Lemma run_ops_sent l : forall sh sh', run_ops sh l = Some sh' ->
  sw_sent sh'.(socket) = sw_sent sh.(socket) ++ concat (map encode_item (map op_item l)).
Proof.
  induction l as [|op l IH]; intros sh sh'; cbn [run_ops map concat]; [intros [= <-]; by rewrite app_nil_r|].
  destruct (run_op sh op) as [sh1 [[]|e]] eqn:E; [|done]. intros H%IH. rewrite H, (run_op_sent _ _ _ E). by rewrite app_assoc.
Qed.

Lemma op_items_ok l : Forall item_ok (map op_item l).
Proof. apply Forall_map, Forall_true. by intros []. Qed.
Lemma opening_items_ok config : Forall item_ok (opening_items config).
Proof. repeat constructor. Qed.

Lemma opening_heard config : let '(q, ev, _) := handle_events peer_new (map item_event (opening_items config)) in
  ev = [PDtr config.(rc_initial_dtr); PRts config.(rc_initial_rts)]
  /\ q = mk_Peer decoder_new config.(rc_initial_dtr) config.(rc_initial_rts) ALL_LEVELS None.
Proof. destruct config as [b d s p [] []]; split; reflexivity. Qed.

Lemma ops_heard l : forall p, let '(q, ev, _) := handle_events p (map item_event (map op_item l)) in
  ev = map op_event l /\ lines_of q = fold_left follow (map op_event l) (lines_of p) /\ q.(modem_mask) = p.(modem_mask).
Proof.
  induction l as [|op l IH]; intros p; [done|]. cbn [map handle_events fold_left].
  assert (E : exists r, handle_event p (item_event (op_item op))
    = (match op with OpWrite _ => p | OpDtr b => with_dtr p b | OpRts b => with_rts p b end, [op_event op], r))
    by (destruct op as [data|[]|[]]; eexists; reflexivity).
  destruct E as [r ->]. specialize (IH (match op with OpWrite _ => p | OpDtr b => with_dtr p b | OpRts b => with_rts p b end)).
  destruct (handle_events _ (map item_event (map op_item l))) as [[q ev] r']. destruct IH as (-> & -> & ->).
  split_and!; [done|by destruct op|by destruct op].
Qed.

(** C26. The remote port is a serial port: however the network cuts the stream,
    the host at the far end sees the lines set as the configuration says, DTR
    before anything else and not raised unless asked for, and then every write
    and every line change of the client, in order, and nothing else; the lines
    it ends with are those last set, and it will report the modem lines. *)
Theorem remote_port_faithful config ops w sh sh' chunks :
  sw_sent w = [] -> port_negotiate (port_new w) config = (sh, Ok tt) -> run_ops sh ops = Some sh' ->
  concat chunks = sw_sent sh'.(socket) ->
  let '(p, ev) := peer_run peer_new chunks in
  host_explode ev = PDtr config.(rc_initial_dtr) :: PRts config.(rc_initial_rts) :: host_explode (map op_event ops)
  /\ lines_of p = fold_left follow (map op_event ops) (config.(rc_initial_dtr), config.(rc_initial_rts))
  /\ p.(modem_mask) = ALL_LEVELS.
Proof.
  intros Hw Hn Hr Hc. rewrite (run_ops_sent _ _ _ Hr), (write_raw_sent _ _ _ Hn) in Hc. cbn [socket port_new] in Hc.
  rewrite Hw, opening_is_items in Hc. cbn [app] in Hc. rewrite <- concat_app, <- map_app in Hc.
  pose proof (peer_hears _ chunks (proj2 (Forall_app _ _ _) (conj (opening_items_ok config) (op_items_ok ops))) Hc) as H.
  destruct (peer_run peer_new chunks) as [p ev]. rewrite map_app, handle_events_app in H.
  pose proof (opening_heard config) as H1. destruct (handle_events peer_new (map item_event (opening_items config))) as [[q1 ev1] r1].
  destruct H1 as [-> ->]. pose proof (ops_heard ops (mk_Peer decoder_new config.(rc_initial_dtr) config.(rc_initial_rts) ALL_LEVELS None)) as H2.
  destruct (handle_events _ (map item_event (map op_item ops))) as [[q2 ev2] r2]. destruct H2 as (-> & Hl & Hm).
  destruct H as (He & Hd & Hrts & Hmask). split_and!; [by rewrite He| |by rewrite Hmask, Hm].
  unfold lines_of in *. cbn [dtr rts] in Hl. by rewrite Hd, Hrts, Hl.
Qed.
End FarEnd.

(** ** What the port hears *)

(** The data and the last report of the modem lines in a list of events. *)
Definition event_data (l : list Event) : bytes := concat (map (fun e => match e with EvData d => d | _ => [] end) l).
Definition report (state : Z) (e : Event) : Z :=
  match e with
  | EvComPort c (s :: _) => if byte_is c (server_code NOTIFY_MODEMSTATE) then unsigned s else state
  | _ => state
  end.
Definition last_report (state : Z) (l : list Event) : Z := fold_left report l state.

Lemma event_data_app l l' : event_data (l ++ l') = event_data l ++ event_data l'.
Proof. unfold event_data. by rewrite map_app, concat_app. Qed.
Lemma event_data_explode l : event_data (explode l) = event_data l.
Proof.
  induction l as [|e l IH]; [done|]. destruct e as [d|c ps|v o|o b]; cbn [explode]; rewrite ?event_data_app, ?IH; try done.
  change (EvData d :: l) with ([EvData d] ++ l). rewrite event_data_app. f_equal.
  unfold event_data, data_bytes. cbn. rewrite app_nil_r. induction d as [|x d IHd]; [done|]. cbn in *. by rewrite IHd.
Qed.
Lemma last_report_explode l : forall s, last_report s (explode l) = last_report s l.
Proof.
  induction l as [|e l IH]; intros s; [done|]. unfold last_report in *.
  destruct e as [d|c ps|v o|o b]; cbn [explode fold_left]; rewrite ?fold_left_app, ?IH; try done.
  assert (E : fold_left report (data_bytes d) s = s) by (induction d as [|x d IHd]; cbn; auto). by rewrite E.
Qed.

Section NearEnd.
  Context {W : Type} `{!SocketWriter W}.
  Implicit Types (sh : PortShared W).

Lemma client_answer_inbox sh v o :
  (client_answer sh v o).(inbox) = sh.(inbox) /\ (client_answer sh v o).(last_modem_state) = sh.(last_modem_state).
Proof.
  unfold client_answer. repeat match goal with |- context [if ?c then _ else _] => destruct c end; try done;
    unfold write_raw; destruct (sw_write_all _ _); done.
Qed.

Lemma client_events_hear l : forall sh a, let '(sh', a') := fold_left client_event l (sh, a) in
  sh'.(inbox).(ib_data) = sh.(inbox).(ib_data) ++ event_data l
  /\ sh'.(inbox).(ib_waiter) = sh.(inbox).(ib_waiter) /\ sh'.(inbox).(ib_closed) = sh.(inbox).(ib_closed)
  /\ sh'.(last_modem_state) = last_report sh.(last_modem_state) l
  /\ (a' = false -> a = false /\ event_data l = []).
Proof.
  induction l as [|e l IH]; intros sh a; cbn [fold_left]; [by rewrite app_nil_r|].
  change (e :: l) with ([e] ++ l). rewrite event_data_app. unfold last_report. rewrite fold_left_app. fold (last_report sh.(last_modem_state) [e]).
  destruct (client_event (sh, a) e) as [sh1 a1] eqn:E. specialize (IH sh1 a1).
  destruct (fold_left client_event l (sh1, a1)) as [sh2 a2]. destruct IH as (-> & -> & -> & -> & Ha).
  fold (last_report (last_report sh.(last_modem_state) [e]) l).
  assert (H1 : sh1.(inbox).(ib_data) = sh.(inbox).(ib_data) ++ event_data [e]
    /\ sh1.(inbox).(ib_waiter) = sh.(inbox).(ib_waiter) /\ sh1.(inbox).(ib_closed) = sh.(inbox).(ib_closed)
    /\ sh1.(last_modem_state) = last_report sh.(last_modem_state) [e] /\ (a1 = false -> a = false /\ event_data [e] = [])).
  { destruct e as [d|c ps|v o|o b]; cbn [client_event] in E; injection E as <- <-.
    - unfold event_data. cbn. by rewrite app_nil_r.
    - unfold event_data, last_report. cbn. rewrite app_nil_r. destruct ps as [|s ps]; [by destruct (byte_is _ _)|]. by destruct (byte_is _ _).
    - destruct (client_answer_inbox sh v o) as [-> ->]. unfold event_data. cbn. by rewrite app_nil_r.
    - unfold event_data. cbn. by rewrite app_nil_r. }
  destruct H1 as (-> & -> & -> & -> & Ha1). rewrite app_assoc. split_and!; try done.
  intros Hf. destruct (Ha Hf) as [Hf1 He]. destruct (Ha1 Hf1) as [-> He1]. by rewrite He1, He.
Qed.

(** The reader thread over successive reads. *)
Fixpoint reader_run (d : Decoder) sh (reads : list bytes) : PortShared W :=
  match reads with
  | [] => sh
  | r :: reads => let '(d, sh, _) := reader_round d sh r in reader_run d sh reads
  end.

Lemma reader_round_hears d sh r d' sh' woken : reader_round d sh r = (d', sh', woken) ->
  d' = (push d r).1 /\ sh'.(inbox).(ib_data) = sh.(inbox).(ib_data) ++ event_data (push d r).2
  /\ sh'.(inbox).(ib_closed) = sh.(inbox).(ib_closed)
  /\ sh'.(last_modem_state) = last_report sh.(last_modem_state) (push d r).2
  /\ ((sh'.(inbox).(ib_waiter) = false /\ woken = sh.(inbox).(ib_waiter))
      \/ (sh'.(inbox).(ib_waiter) = sh.(inbox).(ib_waiter) /\ woken = false /\ event_data (push d r).2 = [])).
Proof.
  unfold reader_round. destruct (push d r) as [d1 ev]. pose proof (client_events_hear ev sh false) as H.
  destruct (fold_left client_event ev (sh, false)) as [sh1 a]. destruct H as (H1 & H2 & H3 & H4 & H5).
  destruct a; cbn; intros [= <- <- <-]; (split_and!; [done|done|done|done|]).
  - left. cbn. split; [done|exact H2].
  - right. split_and!; [done|done|by apply H5].
Qed.

Lemma reader_run_hears reads : forall d sh,
  (reader_run d sh reads).(inbox).(ib_data) = sh.(inbox).(ib_data) ++ event_data (push_all d reads).2
  /\ (reader_run d sh reads).(last_modem_state) = last_report sh.(last_modem_state) (push_all d reads).2.
Proof.
  induction reads as [|r reads IH]; intros d sh; cbn [reader_run push_all]; [by rewrite app_nil_r|].
  destruct (reader_round d sh r) as [[d1 sh1] woken] eqn:E. apply reader_round_hears in E as (-> & E1 & _ & E2 & _).
  destruct (push d r) as [d1 o1]. cbn [fst snd] in *. destruct (IH d1 sh1) as [-> ->].
  destruct (push_all d1 reads) as [d2 o2]. cbn [snd]. rewrite E1, E2, event_data_app, app_assoc.
  unfold last_report. by rewrite fold_left_app.
Qed.

(** The port hears what the server says: however its reads cut the stream, the
    inbox holds the server's data in order and nothing else, and the lines the
    port answers for are those of the last report. *)
Theorem remote_port_hears l reads sh :
  Forall item_ok l -> concat reads = concat (map encode_item l) ->
  let sh' := reader_run decoder_new sh reads in
  sh'.(inbox).(ib_data) = sh.(inbox).(ib_data) ++ event_data (map item_event l)
  /\ remote_read_cts sh' = modem_cts (last_report sh.(last_modem_state) (map item_event l))
  /\ remote_read_dsr sh' = modem_dsr (last_report sh.(last_modem_state) (map item_event l))
  /\ remote_read_dcd sh' = modem_dcd (last_report sh.(last_modem_state) (map item_event l)).
Proof.
  intros Hl Hc sh'. unfold remote_read_cts, remote_read_dsr, remote_read_dcd.
  destruct (reader_run_hears reads decoder_new sh) as [E1 E2]. subst sh'. rewrite E1, E2.
  pose proof (push_all_feed reads decoder_new eq_refl) as H. rewrite Hc in H.
  destruct (feed_items l (u8 0) [] Hl) as (so & sb & E). fold decoder_new in E. rewrite E in H.
  destruct (push_all decoder_new reads) as [d o]. injection H as _ Ho. cbn [snd].
  rewrite <- (event_data_explode o), <- (event_data_explode (map item_event l)), Ho.
  rewrite <- !(last_report_explode o), <- !(last_report_explode (map item_event l)), Ho. done.
Qed.
End NearEnd.

(** ** The reading task and the reader thread *)

(** [asleep]: the task is suspended in [read].  The completion it waits on is
    taken to deliver its wake. *)
Record ReadWorld (W : Type) : Type := mk_ReadWorld { rw_port : PortShared W; rw_decoder : Decoder; rw_asleep : bool }.
Arguments mk_ReadWorld {W}.
Arguments rw_port {W}.
Arguments rw_decoder {W}.
Arguments rw_asleep {W}.

Section Tasks.
  Context {W : Type} `{!SocketWriter W}.
  Implicit Types (sh : PortShared W).

Inductive read_step : ReadWorld W -> ReadWorld W -> Prop :=
| rs_read sh d len sh' r : remote_read sh len = (sh', r) ->
    read_step (mk_ReadWorld sh d false) (mk_ReadWorld sh' d (match r with None => true | Some _ => false end))
| rs_poll sh d a : read_step (mk_ReadWorld sh d a) (mk_ReadWorld sh d false)
| rs_chunk sh d a bytes d' sh' woken : reader_round d sh bytes = (d', sh', woken) ->
    read_step (mk_ReadWorld sh d a) (mk_ReadWorld sh' d' (a && negb woken))
| rs_end sh d a why sh' woken : close sh why = (sh', woken) ->
    read_step (mk_ReadWorld sh d a) (mk_ReadWorld sh' d (a && negb woken))
| rs_write sh d a data : read_step (mk_ReadWorld sh d a) (mk_ReadWorld (write_raw sh data).1 d a)
| rs_flush sh d : read_step (mk_ReadWorld sh d false) (mk_ReadWorld (remote_flush_rx sh) d false).

Definition waits_for_good (w : ReadWorld W) : Prop :=
  w.(rw_asleep) = true -> w.(rw_port).(inbox) = mk_Inbox [] true None.

Lemma read_step_waits w w' : read_step w w' -> waits_for_good w -> waits_for_good w'.
Proof.
  unfold waits_for_good. intros [sh d len sh' r E|sh d a|sh d a b d' sh' woken E|sh d a why sh' woken E|sh d a data|sh d] H; cbn in *; try done.
  - unfold remote_read in E. destruct len; [by injection E as <- <-|]. destruct (ib_data (inbox sh)) as [|x l]; [|by injection E as <- <-].
    destruct (ib_closed (inbox sh)); by injection E as <- <-.
  - apply reader_round_hears in E as (_ & E1 & E2 & _ & E3). destruct a; [|done]. cbn. rewrite (H eq_refl) in *. cbn in *.
    destruct E3 as [[_ ->]|(E3 & -> & E4)]; [done|]. intros _. rewrite E4 in E1. destruct (inbox sh') as [dt wt cl]. cbn in *. congruence.
  - unfold close in E. injection E as <- <-. destruct a; [|done]. rewrite (H eq_refl). done.
  - intros Ha. specialize (H Ha). unfold write_raw. by destruct (sw_write_all _ _).
Qed.

(** A suspended read waits for something to happen: whatever the reader
    thread, the end of the link and the other users of the port do, a task
    that is asleep has nothing to read, the link is up, and its waiter is
    registered for the next byte or the end. *)
Theorem remote_read_never_oversleeps w0 d w :
  rtc read_step (mk_ReadWorld (port_new w0) d false) w -> w.(rw_asleep) = true ->
  w.(rw_port).(inbox) = mk_Inbox [] true None.
Proof.
  intros Hr. change (waits_for_good w). assert (H0 : waits_for_good (mk_ReadWorld (port_new w0) d false)) by done.
  revert H0. induction Hr; eauto using read_step_waits.
Qed.
End Tasks.

(** ** The port under a CAT session *)

(** A port with what its peer is still going to send, and when. *)
Record RemoteLine (W : Type) : Type := mk_RemoteLine {
  rl_port : PortShared W; rl_decoder : Decoder; rl_coming : list (Z * bytes); rl_now : Z }.
Arguments mk_RemoteLine {W}.
Arguments rl_port {W}.
Arguments rl_decoder {W}.
Arguments rl_coming {W}.
Arguments rl_now {W}.

Definition CLOSED : text := txt "the remote port closed the connection".

Section Under.
  Context {W : Type} `{!SocketWriter W}.

(** [read], awaiting the reader thread; when the peer sends nothing more it
    closes. *)
Fixpoint await_read (sh : PortShared W) (d : Decoder) (coming : list (Z * bytes)) (now : Z) (len : nat)
  : RemoteLine W * result bytes TransportError :=
  match remote_read sh len with
  | (sh, Some r) => (mk_RemoteLine sh d coming now, r)
  | (sh, None) =>
      match coming with
      | [] => let sh := (close sh CLOSED).1 in (mk_RemoteLine sh d [] now, Err (TOther CLOSED))
      | (at_, bytes) :: coming =>
          let '(d, sh, _) := reader_round d sh bytes in await_read sh d coming (Z.max now at_) len
      end
  end.

(** [drain] is the trait's own, which does nothing. *)
#[export] Instance remote_transport : Transport (RemoteLine W) := {|
  t_write l data := let '(sh, r) := remote_write l.(rl_port) data in (mk_RemoteLine sh l.(rl_decoder) l.(rl_coming) l.(rl_now), r);
  t_read l len := await_read l.(rl_port) l.(rl_decoder) l.(rl_coming) l.(rl_now) len;
  t_flush l := (l, Ok tt);
  t_flush_rx l := mk_RemoteLine (remote_flush_rx l.(rl_port)) l.(rl_decoder) l.(rl_coming) l.(rl_now);
  t_drain l := l;
  t_now l := l.(rl_now) |}.

Lemma buffered_read sh d coming now b rest w0 : sh.(inbox) = mk_Inbox (b :: rest) w0 None ->
  await_read sh d coming now 1 = (mk_RemoteLine (with_inbox sh (mk_Inbox rest w0 None)) d coming now, Ok [b]).
Proof. intros E. destruct coming; cbn; rewrite E; done. Qed.

Lemma loop_reads_buffered {F} `{!FrameScanner F} (f : F) deadline frame : forall fuel sh d coming now response rest w0,
  sh.(inbox) = mk_Inbox (frame ++ rest) w0 None -> now < deadline -> frame <> [] ->
  first_end f (response ++ frame) -> frame_complete f (response ++ frame) = true ->
  (length (response ++ frame) <= MAX_FRAME_LEN)%nat -> (length frame <= fuel)%nat ->
  exists sh', serial_loop fuel f deadline (mk_RemoteLine sh d coming now) response
    = Some (mk_RemoteLine sh' d coming now, response ++ frame, Ok tt).
Proof.
  induction frame as [|b frame IH]; intros fuel sh d coming now response rest w0 Hi Hnow Hne Hf Hc Hl Hfu; [done|].
  destruct fuel as [|fuel]; [cbn in Hfu; lia|]. cbn [serial_loop t_now t_read remote_transport rl_now rl_port rl_decoder rl_coming].
  destruct (Z.leb_spec deadline now); [lia|]. rewrite (buffered_read _ _ _ _ _ _ _ Hi). cbv zeta.
  rewrite (cons_middle b response frame), (app_assoc response) in Hf, Hc, Hl |- *. destruct frame as [|c frame].
  - rewrite app_nil_r in *. rewrite Hc. by eexists.
  - assert (Hlt : (length (response ++ [b]) < length ((response ++ [b]) ++ c :: frame))%nat) by (rewrite (length_app (response ++ [b])); cbn; lia).
    pose proof (Hf (length (response ++ [b]))) as H1. rewrite take_app_length in H1.
    rewrite H1 by (rewrite length_app in Hlt |- *; cbn in *; lia).
    destruct (Nat.leb_spec MAX_FRAME_LEN (length (response ++ [b]))); [lia|].
    eapply IH; try done. cbn in Hfu |- *. lia.
Qed.

(** A frame left over answers the next request: the port has an inbox and no
    [drain], so that whatever complete frame is in it when an exchange begins
    is returned as the response, whatever the request was. *)
Theorem remote_stale_frame_answers {F} `{!FrameScanner F} (s : SerialCatSession (RemoteLine W) F) request frame rest w0 sh :
  s.(transport).(rl_port).(inbox) = mk_Inbox (frame ++ rest) w0 None ->
  remote_write s.(transport).(rl_port) request = (sh, Ok (length request)) ->
  frame <> [] -> first_end s.(s_format) frame -> frame_complete s.(s_format) frame = true -> (length frame <= MAX_FRAME_LEN)%nat ->
  exists s', execute s request = (s', frame, Ok ResponseWritten).
Proof.
  intros Hi Hw Hne Hf Hc Hl. cbn [execute serial_session]. unfold serial_execute, serial_try_execute.
  cbn [t_drain t_write t_flush remote_transport]. rewrite Hw. cbn [t_now remote_transport rl_now].
  assert (Hi' : sh.(inbox) = mk_Inbox (frame ++ rest) w0 None).
  { unfold remote_write, write_raw in Hw. destruct (sw_write_all _ _) as [w r]. injection Hw as <- _. exact Hi. }
  destruct (loop_reads_buffered s.(s_format) (s.(transport).(rl_now) + READ_TIMEOUT) frame MAX_FRAME_LEN sh s.(transport).(rl_decoder)
    s.(transport).(rl_coming) s.(transport).(rl_now) [] rest w0 Hi') as [sh' ->]; try done; [unfold READ_TIMEOUT; lia|].
  cbn [mbind option_bind default from_option id]. eexists. by destruct frame.
Qed.
End Under.

(** ** A socket in memory *)

Record MemSocket : Type := mk_MemSocket { ms_sent : bytes; ms_open : bool }.
#[export] Instance mem_socket : SocketWriter MemSocket := {|
  sw_write_all w data := if w.(ms_open) then (mk_MemSocket (w.(ms_sent) ++ data) true, Ok tt) else (w, Err (OtherIo 32));
  sw_shutdown w := mk_MemSocket w.(ms_sent) false |}.
#[export] Instance mem_socket_laws : SocketWriterLaws MemSocket.
Proof.
  refine {| sw_sent := ms_sent |}; [|done].
  intros w data w' r E. cbn in E. destruct (ms_open w); injection E as <- <-; cbn; [done|]. exists 0%nat. by rewrite app_nil_r.
Defined.

Definition mem_start : MemSocket := mk_MemSocket [] true.
Definition key_and_ask : list PortOp := [OpDtr true; OpWrite (map u8 [73; 70; 255; 59]); OpDtr false].

Definition opened_port : PortShared MemSocket := (port_negotiate (port_new mem_start) rfc2217_config_default).1.
Definition used_port : PortShared MemSocket := default opened_port (run_ops opened_port key_and_ask).

Lemma remote_port_faithful_witness :
  let '(p, ev) := peer_run peer_new [ms_sent used_port.(socket)] in
  host_explode ev = [PDtr false; PRts true; PDtr true; PData [u8 73]; PData [u8 70]; PData [u8 255]; PData [u8 59]; PDtr false]
  /\ lines_of p = (false, true) /\ p.(modem_mask) = ALL_LEVELS.
Proof.
  apply (remote_port_faithful rfc2217_config_default key_and_ask mem_start opened_port used_port [ms_sent used_port.(socket)]);
    [reflexivity|reflexivity|reflexivity|]. cbn [concat]. apply app_nil_r.
Defined.

Lemma remote_port_hears_witness :
  let l := [IData (as_bytes "IF"); IComPort (server_code NOTIFY_MODEMSTATE) [u8 0x30]; IData (as_bytes ";")] in
  let sh' := reader_run decoder_new (port_new mem_start) [take 5 (concat (map encode_item l)); drop 5 (concat (map encode_item l))] in
  sh'.(inbox).(ib_data) = as_bytes "IF;" /\ remote_read_cts sh' = true /\ remote_read_dsr sh' = true /\ remote_read_dcd sh' = false.
Proof.
  intros l. apply (remote_port_hears l [take 5 (concat (map encode_item l)); drop 5 (concat (map encode_item l))] (port_new mem_start)).
  - repeat constructor.
  - cbn [concat]. rewrite app_nil_r. apply take_drop.
Defined.

Lemma remote_read_never_oversleeps_witness :
  exists w, rtc read_step (mk_ReadWorld (port_new mem_start) decoder_new false) w /\ w.(rw_asleep) = true
    /\ w.(rw_port).(inbox) = mk_Inbox [] true None.
Proof.
  set (w := mk_ReadWorld (remote_read (port_new mem_start) 1).1 decoder_new true).
  assert (Hr : rtc read_step (mk_ReadWorld (port_new mem_start) decoder_new false) w).
  { eapply rtc_l; [|apply rtc_refl]. apply (rs_read _ _ 1 _ None). reflexivity. }
  exists w. split; [exact Hr|]. split; [reflexivity|]. apply (remote_read_never_oversleeps mem_start decoder_new w Hr). reflexivity.
Defined.

(** The tail of an earlier exchange, and then a question. *)
Definition stale_port : RemoteLine MemSocket :=
  mk_RemoteLine (mk_PortShared (mk_Inbox (as_bytes "SM0011;") false None) 0 true mem_start) decoder_new
    [(1000000, as_bytes "FA00014250000;")] 0.

Lemma remote_stale_frame_answers_witness :
  exists s', execute (with_format stale_port ascii_line) (as_bytes "FA;") = (s', as_bytes "SM0011;", Ok ResponseWritten).
Proof.
  apply (remote_stale_frame_answers (with_format stale_port ascii_line) (as_bytes "FA;") (as_bytes "SM0011;") [] false
    (remote_write stale_port.(rl_port) (as_bytes "FA;")).1).
  - reflexivity.
  - reflexivity.
  - discriminate.
  - intros n Hn. cbn in Hn. do 7 (destruct n as [|n]; [try lia; vm_compute; reflexivity|]). lia.
  - vm_compute. reflexivity.
  - unfold MAX_FRAME_LEN. cbn. lia.
Defined.
