(* ===== verification/Ring.v ===== *)
(** * Ring: the drop-oldest ring between a sound card and its reader
    (cat-signal-audio/src/ring.rs)

    A producer that never waits and a blocking reader.  The conversion of a
    sample to its two bytes is an argument.  The ring of bytes implements a
    bounded queue of samples as long as whole samples are read. *)

From S2P Require Import Prelude Text.

Definition BYTES_PER_SAMPLE : nat := 2.

Record RingState : Type := mk_RingState { rg_bytes : bytes; rg_closed : option text }.
(** [overruns] is an [AtomicU64]. *)
Record PcmRing : Type := mk_PcmRing { rg_state : RingState; capacity : nat; overruns : Z }.

Definition ring_new (capacity_samples : nat) : PcmRing :=
  mk_PcmRing (mk_RingState [] None) (max capacity_samples 1 * BYTES_PER_SAMPLE) 0.
Definition ring_is_open (r : PcmRing) : bool := is_none r.(rg_state).(rg_closed).

Section Ring.
  Context {S : Type} (to_le_bytes : S -> bytes).

Definition ring_push (r : PcmRing) (samples : list S) : PcmRing :=
  match samples with
  | [] => r
  | _ =>
      match r.(rg_state).(rg_closed) with
      | Some _ => r
      | None =>
          let capacity_samples := (r.(capacity) / BYTES_PER_SAMPLE)%nat in
          let skipped := (length samples - capacity_samples)%nat in
          let kept := drop skipped samples in
          let incoming := (length kept * BYTES_PER_SAMPLE)%nat in
          let would_be := (length r.(rg_state).(rg_bytes) + incoming)%nat in
          let '(buffered, evicted) :=
            if (r.(capacity) <? would_be)%nat then
              let excess := (would_be - r.(capacity))%nat in
              (drop excess r.(rg_state).(rg_bytes), (excess / BYTES_PER_SAMPLE)%nat)
            else (r.(rg_state).(rg_bytes), 0%nat) in
          let o := if (0 <? skipped + evicted)%nat then wrapping_add_u64 r.(overruns) (Z.of_nat (skipped + evicted)) else r.(overruns) in
          mk_PcmRing (mk_RingState (buffered ++ flat_map to_le_bytes kept) None) r.(capacity) o
      end
  end.

Definition ring_close (r : PcmRing) (reason : text) : PcmRing :=
  mk_PcmRing (mk_RingState r.(rg_state).(rg_bytes)
                (match r.(rg_state).(rg_closed) with Some w => Some w | None => Some reason end)) r.(capacity) r.(overruns).

(** One turn of the reader's loop: [None] when it waits on the condition. *)
Definition ring_read (r : PcmRing) (len : nat) : PcmRing * option (result bytes text) :=
  match len with
  | O => (r, Some (Ok []))
  | _ =>
      match r.(rg_state).(rg_bytes) with
      | _ :: _ =>
          let n := min (length r.(rg_state).(rg_bytes)) len in
          (mk_PcmRing (mk_RingState (drop n r.(rg_state).(rg_bytes)) r.(rg_state).(rg_closed)) r.(capacity) r.(overruns),
           Some (Ok (take n r.(rg_state).(rg_bytes))))
      | [] => (r, match r.(rg_state).(rg_closed) with Some reason => Some (Err reason) | None => None end)
      end
  end.

(** ** The queue it implements *)

(** Samples in order, how many fit, how many were dropped, how many read. *)
Record Queue : Type := mk_Queue { q_samples : list S; q_room : nat; q_dropped : nat; q_read : list S; q_end : option text }.

Definition q_push (q : Queue) (l : list S) : Queue :=
  match q.(q_end) with
  | Some _ => q
  | None =>
      let all := q.(q_samples) ++ l in
      let excess := (length all - q.(q_room))%nat in
      mk_Queue (drop excess all) q.(q_room) (q.(q_dropped) + excess) q.(q_read) None
  end.
Definition q_take (q : Queue) (k : nat) : Queue :=
  mk_Queue (drop k q.(q_samples)) q.(q_room) q.(q_dropped) (q.(q_read) ++ take k q.(q_samples)) q.(q_end).
Definition q_close (q : Queue) (reason : text) : Queue :=
  mk_Queue q.(q_samples) q.(q_room) q.(q_dropped) q.(q_read) (match q.(q_end) with Some w => Some w | None => Some reason end).

Inductive RingOp : Type := RPush (l : list S) | RRead (k : nat) | RClose (reason : text).

(** [RRead k]: a read into a buffer of [k] samples. *)
Definition ring_op (x : PcmRing * bytes) (op : RingOp) : PcmRing * bytes :=
  let '(r, heard) := x in
  match op with
  | RPush l => (ring_push r l, heard)
  | RRead k => match ring_read r (k * BYTES_PER_SAMPLE) with (r, Some (Ok b)) => (r, heard ++ b) | (r, _) => (r, heard) end
  | RClose reason => (ring_close r reason, heard)
  end.
Definition queue_op (q : Queue) (op : RingOp) : Queue :=
  match op with RPush l => q_push q l | RRead k => q_take q k | RClose reason => q_close q reason end.

Context (Hle : forall s, length (to_le_bytes s) = BYTES_PER_SAMPLE).

Definition wire_of (l : list S) : bytes := flat_map to_le_bytes l.
Lemma wire_length l : length (wire_of l) = (length l * BYTES_PER_SAMPLE)%nat.
Proof. unfold wire_of. induction l as [|x l IH]; [done|]. cbn. rewrite length_app, Hle, IH. done. Qed.
Lemma wire_app l l' : wire_of (l ++ l') = wire_of l ++ wire_of l'.
Proof. apply flat_map_app. Qed.
Lemma wire_drop k l : drop (k * BYTES_PER_SAMPLE) (wire_of l) = wire_of (drop k l).
Proof.
  revert k. induction l as [|x l IH]; intros [|k]; try done. cbn [wire_of flat_map drop Nat.mul].
  change (flat_map to_le_bytes l) with (wire_of l). rewrite drop_app_ge by (rewrite Hle; lia). rewrite Hle.
  replace (BYTES_PER_SAMPLE + k * BYTES_PER_SAMPLE - BYTES_PER_SAMPLE)%nat with (k * BYTES_PER_SAMPLE)%nat by lia. apply IH.
Qed.
Lemma wire_take k l : take (k * BYTES_PER_SAMPLE) (wire_of l) = wire_of (take k l).
Proof.
  revert k. induction l as [|x l IH]; intros [|k]; try done. cbn [wire_of flat_map take Nat.mul].
  change (flat_map to_le_bytes l) with (wire_of l). rewrite take_app_ge by (rewrite Hle; lia). rewrite Hle.
  replace (BYTES_PER_SAMPLE + k * BYTES_PER_SAMPLE - BYTES_PER_SAMPLE)%nat with (k * BYTES_PER_SAMPLE)%nat by lia. by rewrite IH.
Qed.

(** The ring holds the queue's samples, two bytes each. *)
Record simulates (r : PcmRing) (q : Queue) : Prop := mk_simulates {
  sm_bytes : r.(rg_state).(rg_bytes) = wire_of q.(q_samples);
  sm_closed : r.(rg_state).(rg_closed) = q.(q_end);
  sm_room : r.(capacity) = (q.(q_room) * BYTES_PER_SAMPLE)%nat;
  sm_fits : (length q.(q_samples) <= q.(q_room))%nat;
  sm_dropped : r.(overruns) = Z.of_nat q.(q_dropped) mod 2 ^ 64 }.

Lemma push_simulates r q l : simulates r q -> simulates (ring_push r l) (q_push q l).
Proof.
  intros [H1 H2 H3 H4 H5]. unfold ring_push, q_push. destruct l as [|x l].
  { rewrite app_nil_r. replace (length (q_samples q) - q_room q)%nat with 0%nat by lia. rewrite drop_0, Nat.add_0_r.
    destruct (q_end q) eqn:E; split; cbn [rg_state rg_bytes rg_closed capacity overruns q_samples q_end q_room q_dropped]; (congruence || lia). }
  set (new := x :: l). rewrite H2. destruct (q_end q) eqn:E; [split; cbn [rg_state rg_bytes rg_closed capacity overruns q_samples q_end q_room q_dropped]; (congruence || lia)|].
  rewrite H1, H3, wire_length. unfold BYTES_PER_SAMPLE. rewrite Nat.div_mul by done.
  set (skipped := (length new - q_room q)%nat). rewrite length_drop, length_app.
  assert (Hw : forall k, (drop (k * 2) (wire_of (q_samples q)) ++ flat_map to_le_bytes (drop skipped new))
    = wire_of (drop k (q_samples q) ++ drop skipped new)).
  { intros k. rewrite wire_app. f_equal. exact (wire_drop k (q_samples q)). }
  assert (Hover : forall k, (if (0 <? k)%nat then wrapping_add_u64 (overruns r) (Z.of_nat k) else overruns r)
    = Z.of_nat (q_dropped q + k) mod 2 ^ 64).
  { intros k. rewrite H5, Nat2Z.inj_add. destruct (Nat.ltb_spec 0 k).
    - unfold wrapping_add_u64. by rewrite Zplus_mod_idemp_l.
    - replace k with 0%nat by lia. by rewrite Z.add_0_r. }
  destruct (Nat.ltb_spec (q_room q * 2) (length (q_samples q) * 2 + (length new - skipped) * 2)) as [Hover'|Hfit].
  - set (k := (length (q_samples q) + (length new - skipped) - q_room q)%nat).
    replace (length (q_samples q) * 2 + (length new - skipped) * 2 - q_room q * 2)%nat with (k * 2)%nat by (unfold k; lia).
    rewrite Nat.div_mul by done.
    assert (Hk : (length (q_samples q) + length new - q_room q = skipped + k)%nat) by (unfold k, skipped; lia).
    assert (Hd : drop (skipped + k) (q_samples q ++ new) = drop k (q_samples q) ++ drop skipped new).
    { rewrite drop_app. destruct (decide (skipped = 0)%nat) as [E0|Hs].
      - rewrite E0. cbn. f_equal. replace (k - length (q_samples q))%nat with 0%nat by (unfold k, skipped in *; lia). done.
      - rewrite (drop_ge (q_samples q)) by (unfold k, skipped in *; lia). rewrite (drop_ge (q_samples q)) by (unfold k, skipped in *; lia).
        cbn [app]. replace (skipped + k - length (q_samples q))%nat with skipped; [done|]. unfold k, skipped in *. lia. }
    split; cbn [rg_state rg_bytes rg_closed capacity overruns q_samples q_end q_room q_dropped]; rewrite ?Hk, ?Hd.
    + apply Hw.
    + done.
    + done.
    + rewrite length_app, !length_drop. unfold k, skipped. lia.
    + apply Hover.
  - assert (Hk : (length (q_samples q) + length new - q_room q = skipped)%nat) by (unfold skipped in *; lia).
    assert (Hd : drop skipped (q_samples q ++ new) = q_samples q ++ drop skipped new).
    { rewrite drop_app. destruct (decide (skipped = 0)%nat) as [E0|Hs]; [rewrite E0; cbn; done|].
      assert (Eq : q_samples q = []) by (apply nil_length_inv; unfold skipped in *; lia). rewrite Eq. cbn. by rewrite drop_nil, Nat.sub_0_r. }
    rewrite Hk, Nat.add_0_r, Hd.
    split; cbn [rg_state rg_bytes rg_closed capacity overruns q_samples q_end q_room q_dropped].
    + specialize (Hw 0%nat). cbn in Hw. by rewrite !drop_0 in Hw.
    + done.
    + done.
    + rewrite length_app, length_drop. unfold skipped in *. lia.
    + apply Hover.
Qed.

Lemma ring_read_pos r len : (0 < len)%nat -> ring_read r len
  = match r.(rg_state).(rg_bytes) with
    | _ :: _ =>
        let n := min (length r.(rg_state).(rg_bytes)) len in
        (mk_PcmRing (mk_RingState (drop n r.(rg_state).(rg_bytes)) r.(rg_state).(rg_closed)) r.(capacity) r.(overruns),
         Some (Ok (take n r.(rg_state).(rg_bytes))))
    | [] => (r, match r.(rg_state).(rg_closed) with Some reason => Some (Err reason) | None => None end)
    end.
Proof. by destruct len; [lia|]. Qed.

Lemma read_simulates r q k heard : simulates r q -> heard = wire_of q.(q_read) ->
  let '(r', heard') := ring_op (r, heard) (RRead k) in simulates r' (q_take q k) /\ heard' = wire_of (q_take q k).(q_read).
Proof.
  intros [H1 H2 H3 H4 H5] Hh. destruct k as [|k].
  { cbn. rewrite app_nil_r. unfold q_take. split; [split; cbn [rg_state rg_bytes rg_closed capacity overruns q_samples q_end q_room q_dropped]; rewrite ?drop_0; (congruence || lia)|].
    cbn. by rewrite take_0, app_nil_r. }
  cbn [ring_op]. rewrite ring_read_pos by (unfold BYTES_PER_SAMPLE; lia).
  rewrite H1. destruct (wire_of (q_samples q)) as [|b0 rest] eqn:Ew.
  { assert (q_samples q = []) as Eq.
    { apply (f_equal length) in Ew. rewrite wire_length in Ew. destruct (q_samples q); [done|cbn in Ew; lia]. }
    destruct (rg_closed (rg_state r)) eqn:Ec; unfold q_take; rewrite Eq, ?drop_nil, ?take_nil, ?app_nil_r;
      (split; [|done]); split; cbn [rg_state rg_bytes rg_closed capacity overruns q_samples q_end q_room q_dropped]; rewrite ?Eq in *; try congruence; try lia. }
  rewrite <- Ew. cbv zeta.
  assert (Hmin : min (length (wire_of (q_samples q))) (Datatypes.S k * BYTES_PER_SAMPLE)
    = (min (length (q_samples q)) (Datatypes.S k) * BYTES_PER_SAMPLE)%nat) by (rewrite wire_length; unfold BYTES_PER_SAMPLE; lia).
  rewrite Hmin, wire_drop, wire_take. unfold q_take.
  assert (Hd : drop (min (length (q_samples q)) (Datatypes.S k)) (q_samples q) = drop (Datatypes.S k) (q_samples q)).
  { destruct (Nat.le_gt_cases (length (q_samples q)) (Datatypes.S k)); [rewrite Nat.min_l by lia; by rewrite !drop_ge by lia|by rewrite Nat.min_r by lia]. }
  assert (Ht : take (min (length (q_samples q)) (Datatypes.S k)) (q_samples q) = take (Datatypes.S k) (q_samples q)).
  { destruct (Nat.le_gt_cases (length (q_samples q)) (Datatypes.S k)); [rewrite Nat.min_l by lia; by rewrite !take_ge by lia|by rewrite Nat.min_r by lia]. }
  rewrite Hd, Ht. split.
  - split; cbn [rg_state rg_bytes rg_closed capacity overruns q_samples q_end q_room q_dropped]; try done. rewrite length_drop. lia.
  - cbn [q_read]. by rewrite wire_app, Hh.
Qed.

(** C27. The ring is a bounded queue of samples: through any pushes, reads of whole
    samples and closings, what the reader has heard is what the queue gave out,
    what is buffered are the newest samples in order, never more than fit, the
    counter says how many were dropped, and no stream is shifted by a byte. *)
Theorem ring_is_queue cap l :
  let '(r, heard) := fold_left ring_op l (ring_new cap, []) in
  let q := fold_left queue_op l (mk_Queue [] (max cap 1) 0 [] None) in
  simulates r q /\ heard = wire_of q.(q_read).
Proof.
  assert (H : forall r q heard, simulates r q -> heard = wire_of q.(q_read) ->
    let '(r', heard') := fold_left ring_op l (r, heard) in
    simulates r' (fold_left queue_op l q) /\ heard' = wire_of (fold_left queue_op l q).(q_read)).
  { induction l as [|op l IH]; intros r q heard Hs Hh; [done|]. cbn [fold_left].
    destruct op as [x|k|reason]; cbn [queue_op].
    - apply IH; [by apply push_simulates|]. unfold q_push. by destruct (q_end q).
    - pose proof (read_simulates r q k heard Hs Hh) as Hr. destruct (ring_op (r, heard) (RRead k)) as [r' heard'].
      destruct Hr. by apply IH.
    - cbn [ring_op]. apply IH; [|done]. destruct Hs as [H1 H2 H3 H4 H5]. unfold ring_close, q_close.
      split; cbn [rg_state rg_bytes rg_closed capacity overruns q_samples q_end q_room q_dropped]; try done. by rewrite H2. }
  apply H; [|done]. split; cbn; try done; lia.
Qed.

(** Nothing is lost unseen: of the samples pushed before the end, each was
    dropped and counted, or read, or is still there. *)
Lemma queue_accounts l : forall q, q.(q_end) = None -> Forall (fun op => match op with RClose _ => False | _ => True end) l ->
  let q' := fold_left queue_op l q in
  (length q'.(q_read) + q'.(q_dropped) + length q'.(q_samples)
   = length q.(q_read) + q.(q_dropped) + length q.(q_samples)
     + length (concat (map (fun op => match op with RPush x => x | _ => [] end) l)))%nat.
Proof.
  induction l as [|op l IH]; intros q He Hl; [cbn; lia|]. apply Forall_cons in Hl as [Ho Hl]. cbn [fold_left map concat].
  destruct op as [x|k|reason]; [| |done]; rewrite length_app.
  - cbn [queue_op]. cbv zeta in IH. rewrite IH; [|unfold q_push; by rewrite He|done]. unfold q_push. rewrite He.
    cbn [q_read q_dropped q_samples]. rewrite length_drop, length_app. lia.
  - cbn [queue_op]. cbv zeta in IH. rewrite IH by done. unfold q_take. cbn [q_read q_dropped q_samples].
    rewrite length_app, length_take, length_drop. cbn. lia.
Qed.
End Ring.

(** A 16-bit sample, low byte first. *)
Definition sample_bytes (s : Z) : bytes := [u8 (s mod 256); u8 (s / 256 mod 256)].

Lemma ring_is_queue_witness :
  let l := [RPush [1; 2; 3; 4]; RRead 1; RPush [5; 6]; RRead 3; RClose (txt "unplugged")] in
  let '(r, heard) := fold_left (ring_op sample_bytes) l (ring_new 4, []) in
  heard = wire_of sample_bytes [1; 3; 4; 5] /\ r.(overruns) = 1.
Proof.
  intros l. pose proof (ring_is_queue sample_bytes (fun _ => eq_refl) 4 l) as H. unfold l in *.
  destruct (fold_left (ring_op sample_bytes) _ (ring_new 4, [])) as [r heard]. cbv zeta in H. destruct H as [Hs Hh]. split.
  - rewrite Hh. vm_compute. reflexivity.
  - rewrite (sm_dropped _ _ _ Hs). vm_compute. reflexivity.
Defined.

(** A read of an odd number of bytes does shift it, once the ring overflows:
    the reader, having taken the low byte of the first sample, next gets the
    low byte of the third. *)
Example odd_read_shifts :
  let r := ring_push sample_bytes (ring_new 2) [0x1122; 0x3344] in
  let '(r, b) := ring_read r 1 in
  let r := ring_push sample_bytes r [0x5566] in
  b = Some (Ok [u8 0x22]) /\ r.(rg_state).(rg_bytes) = [u8 0x44; u8 0x33; u8 0x66; u8 0x55].
Proof. vm_compute. done. Qed.
