(* ===== verification/LocalChannel.v ===== *)
(** * LocalChannel: the broker's queue and reply slots
    (cat-server/src/local_channel.rs)

    A many-producer queue and a single-use reply slot, each a record with the
    operations of its halves.  An operation that may wake the waiting task
    says whether it did.  The waiting task is part of the step relation:
    [parked] while its last poll was pending and nothing has woken it. *)

From S2P Require Import Prelude.

Inductive Poll (T : Type) : Type := Ready (v : T) | Pending.
Arguments Ready {T}.
Arguments Pending {T}.

(** ** The queue *)

Record Channel (T : Type) : Type := mk_Channel {
  ch_queue : list T; recv_waker : bool; sender_count : nat; ch_receiver_dropped : bool }.
Arguments mk_Channel {T}.
Arguments ch_queue {T}.
Arguments recv_waker {T}.
Arguments sender_count {T}.
Arguments ch_receiver_dropped {T}.

Section Channel.
  Context {T : Type}.
  Implicit Types (c : Channel T) (v : T).

Definition channel : Channel T := mk_Channel [] false 1 false.

Definition sender_clone c : Channel T :=
  mk_Channel c.(ch_queue) c.(recv_waker) (S c.(sender_count)) c.(ch_receiver_dropped).

(** [Drop for Sender]: the last one wakes the receiver. *)
Definition sender_drop c : Channel T * bool :=
  let n := pred c.(sender_count) in
  if (n =? 0)%nat then (mk_Channel c.(ch_queue) false n c.(ch_receiver_dropped), c.(recv_waker))
  else (mk_Channel c.(ch_queue) c.(recv_waker) n c.(ch_receiver_dropped), false).

Definition channel_send c v : Channel T * bool * result () T :=
  if c.(ch_receiver_dropped) then (c, false, Err v)
  else (mk_Channel (c.(ch_queue) ++ [v]) false c.(sender_count) c.(ch_receiver_dropped),
        c.(recv_waker), Ok tt).

Definition recv_poll c : Channel T * Poll (option T) :=
  match c.(ch_queue) with
  | v :: q => (mk_Channel q c.(recv_waker) c.(sender_count) c.(ch_receiver_dropped), Ready (Some v))
  | [] =>
      if (c.(sender_count) =? 0)%nat then (c, Ready None)
      else (mk_Channel [] true c.(sender_count) c.(ch_receiver_dropped), Pending)
  end.

Definition receiver_drop c : Channel T :=
  mk_Channel c.(ch_queue) c.(recv_waker) c.(sender_count) true.

(** The channel, whether the receiving task sleeps, what was accepted and what
    was received. *)
Record ChannelWorld : Type := mk_ChannelWorld {
  chan : Channel T; ch_parked : bool; accepted : list T; received : list T }.
Definition channel_start : ChannelWorld := mk_ChannelWorld channel false [] [].

(** A sender exists for the steps only a sender takes; a parked task does not
    poll, and neither polls nor is dropped twice. *)
Inductive channel_step : ChannelWorld -> ChannelWorld -> Prop :=
| step_clone c p a r : (0 < c.(sender_count))%nat ->
    channel_step (mk_ChannelWorld c p a r) (mk_ChannelWorld (sender_clone c) p a r)
| step_sender_drop c p a r c' w : (0 < c.(sender_count))%nat -> sender_drop c = (c', w) ->
    channel_step (mk_ChannelWorld c p a r) (mk_ChannelWorld c' (p && negb w) a r)
| step_send c p a r v c' w : (0 < c.(sender_count))%nat -> channel_send c v = (c', w, Ok tt) ->
    channel_step (mk_ChannelWorld c p a r) (mk_ChannelWorld c' (p && negb w) (a ++ [v]) r)
| step_send_refused c p a r v c' w : (0 < c.(sender_count))%nat -> channel_send c v = (c', w, Err v) ->
    channel_step (mk_ChannelWorld c p a r) (mk_ChannelWorld c' (p && negb w) a r)
| step_recv c a r c' v : c.(ch_receiver_dropped) = false -> recv_poll c = (c', Ready (Some v)) ->
    channel_step (mk_ChannelWorld c false a r) (mk_ChannelWorld c' false a (r ++ [v]))
| step_recv_closed c a r c' : c.(ch_receiver_dropped) = false -> recv_poll c = (c', Ready None) ->
    channel_step (mk_ChannelWorld c false a r) (mk_ChannelWorld c' false a r)
| step_recv_pending c a r c' : c.(ch_receiver_dropped) = false -> recv_poll c = (c', Pending) ->
    channel_step (mk_ChannelWorld c false a r) (mk_ChannelWorld c' true a r)
| step_receiver_drop c p a r : c.(ch_receiver_dropped) = false ->
    channel_step (mk_ChannelWorld c p a r) (mk_ChannelWorld (receiver_drop c) false a r).

Definition channel_inv (w : ChannelWorld) : Prop :=
  w.(accepted) = w.(received) ++ w.(chan).(ch_queue)
  /\ (w.(ch_parked) = true ->
      w.(chan).(ch_queue) = [] /\ (0 < w.(chan).(sender_count))%nat /\ w.(chan).(recv_waker) = true).

Lemma channel_inv_step w w' : channel_inv w -> channel_step w w' -> channel_inv w'.
Proof.
  intros [Ha Hp] Hs.
  destruct Hs as [c p a r Hn|c p a r c' w Hn E|c p a r v c' w Hn E|c p a r v c' w Hn E|c a r c' v Hd E
                 |c a r c' Hd E|c a r c' Hd E|c p a r Hd]; cbn [chan ch_parked accepted received] in *.
  - split; [done|]. intros H. destruct (Hp H) as (? & ? & ?). split_and!; [done|cbn; lia|done].
  - unfold sender_drop in E.
    destruct (Nat.eqb_spec (pred c.(sender_count)) 0); injection E as <- <-; split; try done.
    + cbn. intros [H1 H2]%andb_true_iff. destruct (Hp H1) as (_ & _ & Hw). by rewrite Hw in H2.
    + cbn. rewrite andb_true_r. intros H. destruct (Hp H) as (? & ? & ?). split_and!; [done|lia|done].
  - unfold channel_send in E. destruct (ch_receiver_dropped c); [done|]. injection E as <- <-. split.
    + cbn. by rewrite Ha, app_assoc.
    + cbn. intros [H1 H2]%andb_true_iff. destruct (Hp H1) as (_ & _ & Hw). by rewrite Hw in H2.
  - unfold channel_send in E. destruct (ch_receiver_dropped c); [|done]. injection E as <- <-.
    split; [done|]. cbn. by rewrite andb_true_r.
  - unfold recv_poll in E. destruct (ch_queue c) as [|x q] eqn:Hq.
    + by destruct (sender_count c =? 0)%nat.
    + injection E as <- <-. split; [|done]. cbn. by rewrite Ha, <- app_assoc.
  - unfold recv_poll in E. destruct (ch_queue c) as [|x q] eqn:Hq; [|done].
    destruct (sender_count c =? 0)%nat; [|done]. injection E as <-. split; [|done]. cbn. by rewrite Hq.
  - unfold recv_poll in E. destruct (ch_queue c) as [|x q] eqn:Hq; [|done].
    destruct (Nat.eqb_spec c.(sender_count) 0); [done|]. injection E as <-. split; [done|].
    intros _. cbn. split_and!; [done|lia|done].
  - split; [done|]. done.
Qed.

(** The queue loses neither jobs nor wake-ups: along every interleaving of
    its handles, what has been accepted is what has been received followed by
    what is queued, in order, and the receiving task sleeps only while there
    is nothing to receive and a sender is left, so that polling it again would
    be pending. *)
Theorem channel_fifo_and_wakes w :
  rtc channel_step channel_start w ->
  w.(accepted) = w.(received) ++ w.(chan).(ch_queue)
  /\ (w.(ch_parked) = true -> snd (recv_poll w.(chan)) = Pending).
Proof.
  intros Hr. assert (Hi : channel_inv w).
  { assert (H0 : channel_inv channel_start) by done. revert H0.
    induction Hr as [|w1 w2 w3 Hs _ IH]; [done|]. intros H0. eauto using channel_inv_step. }
  destruct Hi as [Ha Hp]. split; [done|]. intros H. destruct (Hp H) as (Hq & Hn & _).
  unfold recv_poll. rewrite Hq. by destruct (Nat.eqb_spec (sender_count w.(chan)) 0); [lia|].
Qed.

(** Jobs still queued when the receiver is dropped are stranded: nothing
    takes them off the queue, so the reply slots they own are neither filled
    nor given up for as long as any sender keeps the queue alive. *)
Theorem dropped_receiver_strands_jobs w w' :
  w.(chan).(ch_receiver_dropped) = true -> rtc channel_step w w' ->
  w'.(chan).(ch_receiver_dropped) = true
  /\ w'.(chan).(ch_queue) = w.(chan).(ch_queue) /\ w'.(received) = w.(received).
Proof.
  intros Hd Hr. induction Hr as [|w1 w2 w3 Hs _ IH]; [done|].
  assert (H : w2.(chan).(ch_receiver_dropped) = true /\ w2.(chan).(ch_queue) = w1.(chan).(ch_queue)
              /\ w2.(received) = w1.(received)).
  { destruct Hs as [c p a r Hn|c p a r c' w Hn E|c p a r v c' w Hn E|c p a r v c' w Hn E|c a r c' v Hd' E
                 |c a r c' Hd' E|c a r c' Hd' E|c p a r Hd']; cbn [chan received] in *; try congruence.
    - done.
    - unfold sender_drop in E. destruct (_ =? 0)%nat; by injection E as <- <-.
    - unfold channel_send in E. by rewrite Hd in E.
    - unfold channel_send in E. rewrite Hd in E. by injection E as <- <-. }
  destruct H as (H1 & H2 & H3). rewrite <- H2, <- H3. auto.
Qed.
End Channel.
Arguments ChannelWorld : clear implicits.

Lemma channel_fifo_and_wakes_witness :
  [5; 6] = [5] ++ [6]
  /\ (false = true -> snd (recv_poll (mk_Channel [6] false 1 false)) = Pending).
Proof.
  apply (channel_fifo_and_wakes (mk_ChannelWorld (mk_Channel [6] false 1 false) false [5; 6] [5])).
  eapply rtc_l; [eapply step_recv_pending; reflexivity|].
  eapply rtc_l; [eapply (step_send _ _ _ _ 5); [cbn; lia|reflexivity]|].
  eapply rtc_l; [eapply (step_send _ _ _ _ 6); [cbn; lia|reflexivity]|].
  eapply rtc_l; [eapply step_recv; reflexivity|]. apply rtc_refl.
Defined.

(** One job queued, the receiver dropped, and a caller's send refused. *)
Lemma dropped_receiver_strands_jobs_witness :
  true = true /\ [5] = [5] /\ @nil Z = [].
Proof.
  apply (dropped_receiver_strands_jobs (mk_ChannelWorld (mk_Channel [5] false 1 true) false [5] [])
           (mk_ChannelWorld (mk_Channel [5] false 1 true) false [5] [])); [reflexivity|].
  apply rtc_once. eapply (step_send_refused _ false _ _ 6 _ false); [cbn; lia|reflexivity].
Defined.

(** ** The reply slot *)

Record Oneshot (T : Type) : Type := mk_Oneshot {
  value : option T; waker : bool; sender_dropped : bool; os_receiver_dropped : bool }.
Arguments mk_Oneshot {T}.
Arguments value {T}.
Arguments waker {T}.
Arguments sender_dropped {T}.
Arguments os_receiver_dropped {T}.

Section Oneshot.
  Context {T : Type}.
  Implicit Types (o : Oneshot T) (v : T).

Definition oneshot : Oneshot T := mk_Oneshot None false false false.

(** [Drop for OneshotSender]. *)
Definition oneshot_sender_drop o : Oneshot T * bool :=
  (mk_Oneshot o.(value) false true o.(os_receiver_dropped), o.(waker)).

(** [OneshotSender::send], which consumes the sender: its drop follows. *)
Definition oneshot_send o v : Oneshot T * bool * result () T :=
  let '(o, w, r) :=
    if o.(os_receiver_dropped) then (o, false, Err v)
    else (mk_Oneshot (Some v) false o.(sender_dropped) o.(os_receiver_dropped), o.(waker), Ok tt) in
  let '(o, w') := oneshot_sender_drop o in (o, w || w', r).

Definition oneshot_poll o : Oneshot T * Poll (option T) :=
  match o.(value) with
  | Some v => (mk_Oneshot None o.(waker) o.(sender_dropped) o.(os_receiver_dropped), Ready (Some v))
  | None =>
      if o.(sender_dropped) then (o, Ready None)
      else (mk_Oneshot None true o.(sender_dropped) o.(os_receiver_dropped), Pending)
  end.
Definition oneshot_receiver_drop o : Oneshot T :=
  mk_Oneshot o.(value) o.(waker) o.(sender_dropped) true.

(** The slot, whether the caller sleeps, what the worker did with the sending
    half, and what the caller got. *)
Inductive SenderFate : Type := Alive | SentReply (v : T) | GaveUp.
Inductive CallerFate : Type := Waiting | Got (r : option T) | Gone.
Record SlotWorld : Type := mk_SlotWorld {
  slot : Oneshot T; os_parked : bool; sender : SenderFate; caller : CallerFate }.
Definition slot_start : SlotWorld := mk_SlotWorld oneshot false Alive Waiting.

Inductive slot_step : SlotWorld -> SlotWorld -> Prop :=
| slot_send o p c v o' w r : oneshot_send o v = (o', w, r) ->
    slot_step (mk_SlotWorld o p Alive c) (mk_SlotWorld o' (p && negb w) (SentReply v) c)
| slot_give_up o p c o' w : oneshot_sender_drop o = (o', w) ->
    slot_step (mk_SlotWorld o p Alive c) (mk_SlotWorld o' (p && negb w) GaveUp c)
| slot_ready o s o' r : oneshot_poll o = (o', Ready r) ->
    slot_step (mk_SlotWorld o false s Waiting) (mk_SlotWorld o' false s (Got r))
| slot_pending o s o' : oneshot_poll o = (o', Pending) ->
    slot_step (mk_SlotWorld o false s Waiting) (mk_SlotWorld o' true s Waiting)
| slot_receiver_drop o p s :
    slot_step (mk_SlotWorld o p s Waiting) (mk_SlotWorld (oneshot_receiver_drop o) false s Gone).

Definition slot_inv (w : SlotWorld) : Prop :=
  (w.(caller) = Waiting -> w.(slot).(os_receiver_dropped) = false
     /\ w.(slot).(value) = match w.(sender) with SentReply v => Some v | _ => None end)
  /\ w.(slot).(sender_dropped) = (match w.(sender) with Alive => false | _ => true end)
  /\ (w.(os_parked) = true -> w.(sender) = Alive /\ w.(slot).(waker) = true)
  /\ (forall r, w.(caller) = Got r ->
        match w.(sender) with SentReply v => r = Some v | GaveUp => r = None | Alive => False end).

Lemma slot_inv_step w w' : slot_inv w -> slot_step w w' -> slot_inv w'.
Proof.
  intros (Hv & Hd & Hp & Hg) Hs.
  destruct Hs as [o p c v o' w r E|o p c o' w E|o s o' r E|o s o' E|o p s];
    cbn [slot os_parked sender caller] in *.
  - unfold oneshot_send, oneshot_sender_drop in E. destruct (os_receiver_dropped o) eqn:Hrd; injection E as <- <- <-.
    + split_and!; cbn; [intros Hc; destruct (Hv Hc); congruence|done| |].
      * intros [H1 H2]%andb_true_iff. destruct (Hp H1) as [_ Hw]. by rewrite Hw in H2.
      * intros r Hc. by specialize (Hg r Hc).
    + split_and!; cbn; [done|done| |].
      * intros [H1 H2]%andb_true_iff. destruct (Hp H1) as [_ Hw]. by rewrite Hw in H2.
      * intros r Hc. by specialize (Hg r Hc).
  - injection E as <- <-. split_and!; cbn; [done|done| |].
    + intros [H1 H2]%andb_true_iff. destruct (Hp H1) as [_ Hw]. by rewrite Hw in H2.
    + intros r Hc. by specialize (Hg r Hc).
  - unfold oneshot_poll in E. destruct (Hv eq_refl) as [_ Hval].
    destruct (value o) as [v|] eqn:Ho.
    + injection E as <- <-. split_and!; cbn; try done. intros r [= <-]. by destruct s; simplify_eq.
    + destruct (sender_dropped o) eqn:Hsd; [|done]. injection E as <- <-.
      split_and!; cbn; try done; [congruence|]. intros r [= <-]. by destruct s.
  - unfold oneshot_poll in E. destruct (Hv eq_refl) as [Hrd Hval].
    destruct (value o) as [v|] eqn:Ho; [done|].
    destruct (sender_dropped o) eqn:Hsd; [done|]. injection E as <-. split_and!; cbn; try done.
    intros _. split; [|done]. by destruct s.
  - split_and!; cbn; done.
Qed.

(** A caller gets the reply to its own job and nothing else: along every
    interleaving, what it receives is what the worker sent into its slot, it
    learns that the worker is gone only if the worker gave the slot up without
    a reply, and it sleeps only while the worker still holds the slot. *)
Theorem oneshot_delivers w :
  rtc slot_step slot_start w ->
  (forall r, w.(caller) = Got r ->
     match w.(sender) with SentReply v => r = Some v | GaveUp => r = None | Alive => False end)
  /\ (w.(os_parked) = true -> w.(sender) = Alive)
  /\ (w.(caller) = Waiting -> w.(os_parked) = false -> w.(sender) <> Alive ->
      exists r, snd (oneshot_poll w.(slot)) = Ready r).
Proof.
  intros Hr. assert (Hi : slot_inv w).
  { assert (H0 : slot_inv slot_start) by (split_and!; done). revert H0.
    induction Hr as [|w1 w2 w3 Hs _ IH]; [done|]. intros H0. eauto using slot_inv_step. }
  destruct Hi as (Hv & Hd & Hp & Hg). split_and!; [done|intros H; by destruct (Hp H)|].
  intros Hc _ Ha. unfold oneshot_poll. destruct (value w.(slot)); [by eexists|].
  rewrite Hd. destruct (sender w); [done|by eexists..].
Qed.
End Oneshot.
Arguments SlotWorld : clear implicits.

Lemma oneshot_delivers_witness :
  Some 5 = Some 5 /\ (false = true -> SentReply 5 = Alive)
  /\ (Got (Some 5) = Waiting -> false = false -> SentReply 5 <> Alive ->
      exists r, snd (oneshot_poll (mk_Oneshot (T := Z) None false true false)) = Ready r).
Proof.
  destruct (oneshot_delivers
    (mk_SlotWorld (mk_Oneshot None false true false) false (SentReply 5) (Got (Some 5)))) as (H1 & H2 & H3).
  - eapply rtc_l; [eapply slot_pending; reflexivity|].
    eapply rtc_l; [eapply (slot_send _ _ _ 5); reflexivity|].
    eapply rtc_l; [eapply slot_ready; reflexivity|]. apply rtc_refl.
  - split; [exact (H1 _ eq_refl)|split; [exact H2|exact H3]].
Defined.
