(* ===== verification/Completion.v ===== *)
(** * Completion: a reply slot between threads
    (cat-transport-core/src/completion.rs)

    The slot a worker thread answers through.  The halves live on different
    threads, so an operation is not one step: each critical section of the two
    mutexes is, and the halves' steps interleave anyhow. *)

From S2P Require Import Prelude LocalChannel.

Inductive Slot (T : Type) : Type := Empty | Value (v : T) | SlotCanceled.
Arguments Empty {T}.
Arguments Value {T}.
Arguments SlotCanceled {T}.

Inductive Canceled : Type := mk_Canceled.

(** The two mutexes.  Of a registered waker only that it is there matters:
    there is one receiver. *)
Record Completion (T : Type) : Type := mk_Completion { slot : Slot T; waker : bool }.
Arguments mk_Completion {T}.
Arguments slot {T}.
Arguments waker {T}.

Section Completion.
  Context {T : Type}.
  Implicit Types (c : Completion T) (v : T).

Definition completion_channel : Completion T := mk_Completion Empty false.

(** [wake_if_registered]: take the waker and wake; says whether it woke. *)
Definition wake_if_registered c : Completion T * bool := (mk_Completion c.(slot) false, c.(waker)).

(** The critical section of [CompletionTx::send]. *)
Definition store c v : Completion T := mk_Completion (Value v) c.(waker).

(** The critical section of [CompletionTx]'s [drop]; says whether a wake is to
    follow. *)
Definition mark_canceled c : Completion T * bool :=
  match c.(slot) with Empty => (mk_Completion SlotCanceled c.(waker), true) | _ => (c, false) end.

(** The two critical sections of [CompletionRx::poll]: the slot is taken and
    its lock released; only then, if it was empty, the waker is registered. *)
Definition take_slot c : Completion T * Poll (result T Canceled) :=
  (mk_Completion Empty c.(waker),
   match c.(slot) with
   | Empty => Pending
   | Value v => Ready (Ok v)
   | SlotCanceled => Ready (Err mk_Canceled)
   end).
Definition register_waker c : Completion T := mk_Completion c.(slot) true.

(** ** The two threads *)

(** Where the sending thread is: holding the half, having stored the value,
    having woken the receiver, having marked the slot cancelled, done. *)
Inductive Sender : Type := Holding | Stored | Sent | Marked | SenderDone.

(** Where the receiving task is: about to poll, between the two critical
    sections of a poll, parked after a pending poll, resolved, dropped. *)
Inductive Receiver : Type :=
  Runnable | SawEmpty | Parked | Resolved (r : result T Canceled) | Dropped.

(** [notified]: a wake came while the task was running, so that its executor
    polls it again instead of parking it.  [sent]: the value given to [send]. *)
Record World : Type := mk_World {
  shared : Completion T; sender : Sender; receiver : Receiver; notified : bool; sent_value : option T }.

Definition completion_start : World := mk_World completion_channel Holding Runnable false None.

(** What a wake does to the task. *)
Definition wake (r : Receiver) (n : bool) (woke : bool) : Receiver * bool :=
  if woke then match r with Parked => (Runnable, n) | Runnable | SawEmpty => (r, true) | _ => (r, n) end
  else (r, n).

(** A poll whose slot was empty ends here: parked, unless notified meanwhile. *)
Definition park (n : bool) : Receiver := if n then Runnable else Parked.

Inductive sender_step : World -> World -> Prop :=
| step_store c r n v :
    sender_step (mk_World c Holding r n None) (mk_World (store c v) Stored r n (Some v))
| step_wake c r n o c' woke r' n' : wake_if_registered c = (c', woke) -> wake r n woke = (r', n') ->
    sender_step (mk_World c Stored r n o) (mk_World c' Sent r' n' o)
| step_drop_sent c r n o c' : mark_canceled c = (c', false) ->
    sender_step (mk_World c Sent r n o) (mk_World c' SenderDone r n o)
| step_drop_taken c r n o c' : mark_canceled c = (c', true) ->
    sender_step (mk_World c Sent r n o) (mk_World c' Marked r n o)
| step_abandon c r n c' : mark_canceled c = (c', true) ->
    sender_step (mk_World c Holding r n None) (mk_World c' Marked r n None)
| step_wake_canceled c r n o c' woke r' n' : wake_if_registered c = (c', woke) -> wake r n woke = (r', n') ->
    sender_step (mk_World c Marked r n o) (mk_World c' SenderDone r' n' o).

(** A parked task may also be polled for reasons of its own, such as a timer. *)
Inductive receiver_step : World -> World -> Prop :=
| step_poll_ready c s n o c' x : take_slot c = (c', Ready x) ->
    receiver_step (mk_World c s Runnable n o) (mk_World c' s (Resolved x) n o)
| step_poll_empty c s n o c' : take_slot c = (c', Pending) ->
    receiver_step (mk_World c s Runnable n o) (mk_World c' s SawEmpty false o)
| step_register c s n o :
    receiver_step (mk_World c s SawEmpty n o) (mk_World (register_waker c) s (park n) false o)
| step_poll_again c s n o :
    receiver_step (mk_World c s Parked n o) (mk_World c s Runnable n o)
| step_drop c s n o r : r = Runnable \/ r = Parked ->
    receiver_step (mk_World c s r n o) (mk_World c s Dropped n o).

Definition completion_step (w w' : World) : Prop := sender_step w w' \/ receiver_step w w'.

(** ** What was sent is what is received *)

Definition resolved (r : Receiver) : Prop := exists x, r = Resolved x.

(** What the receiver is to be told. *)
Definition outcome (o : option T) : result T Canceled := ok_or o mk_Canceled.

(** The shapes a run goes through. *)
Inductive phase : World -> Prop :=
| ph_waiting wk r n : ~ resolved r -> phase (mk_World (mk_Completion Empty wk) Holding r n None)
| ph_answered v wk s r n : s = Stored \/ s = Sent \/ s = SenderDone -> ~ resolved r ->
    phase (mk_World (mk_Completion (Value v) wk) s r n (Some v))
| ph_canceled wk s r n : s = Marked \/ s = SenderDone -> ~ resolved r ->
    phase (mk_World (mk_Completion SlotCanceled wk) s r n None)
| ph_resolved sl wk s n o : s <> Holding -> (forall v, sl <> Value v) ->
    phase (mk_World (mk_Completion sl wk) s (Resolved (outcome o)) n o).

Lemma unresolved_wake r n b r' n' : wake r n b = (r', n') -> ~ resolved r -> ~ resolved r'.
Proof. unfold wake, resolved. destruct b, r; intros [= <- <-] Hr [x Hx]; try discriminate Hx; apply Hr; eexists; exact Hx. Qed.
Lemma unresolved_park n : ~ resolved (park n).
Proof. unfold park. destruct n; by intros [? ?]. Qed.
Lemma resolved_wake x n b r' n' : wake (Resolved x) n b = (r', n') -> r' = Resolved x.
Proof. unfold wake. by destruct b; intros [= <- <-]. Qed.
Lemma unresolved_others : ~ resolved Runnable /\ ~ resolved SawEmpty /\ ~ resolved Parked /\ ~ resolved Dropped.
Proof. split_and!; by intros [? ?]. Qed.

Lemma phase_step w w' : phase w -> completion_step w w' -> phase w'.
Proof.
  destruct unresolved_others as (U1 & U2 & U3 & U4).
  intros Hp [Hs|Hs]; destruct Hp as [wk r n Hr|v wk s r n Hs' Hr|wk s r n Hs' Hr|sl wk s n o Hs' Hv];
    inversion Hs; subst; clear Hs; unfold mark_canceled, take_slot, wake_if_registered in *; simplify_eq/=; try by destruct_or?.
  all: try by (constructor; eauto using unresolved_wake, unresolved_park).
  all: try match goal with E : wake (Resolved _) _ _ = _ |- _ => rewrite (resolved_wake _ _ _ _ _ E) end.
  all: try by constructor.
  - by destruct sl; simplify_eq; constructor.
  - by destruct sl; simplify_eq; constructor.
  - apply (ph_resolved _ _ _ _ (Some v)); [by destruct_or?; subst|done].
  - apply (ph_resolved _ _ _ _ None); [by destruct_or?; subst|done].
Qed.

Lemma reachable_phase w : rtc completion_step completion_start w -> phase w.
Proof.
  intros Hr. assert (H0 : phase completion_start) by (constructor; by intros [? ?]). revert H0.
  induction Hr; eauto using phase_step.
Qed.

(** The reply slot delivers, whatever the threads do: a receiver that is
    resolved was told the value sent, or that the sender gave up without
    sending; and once the sender has got past its first critical section, the
    next poll of a receiver that is not resolved resolves it. *)
Theorem completion_delivers w :
  rtc completion_step completion_start w ->
  (forall x, w.(receiver) = Resolved x -> x = outcome w.(sent_value))
  /\ (w.(sender) <> Holding -> ~ resolved w.(receiver) ->
      snd (take_slot w.(shared)) = Ready (outcome w.(sent_value))).
Proof.
  intros Hr. destruct (reachable_phase w Hr) as [wk r n Hu|v wk s r n Hs Hu|wk s r n Hs Hu|sl wk s n o Hs Hv];
    cbn; (split; [intros x Hx|intros H1 H2]); try done.
  all: try (exfalso; apply Hu; by eexists).
  - by injection Hx as <-.
  - exfalso. apply H2. by eexists.
Qed.

(** ** Nobody sleeps through the answer, once registered *)

(** With a waker registered before the sender starts, the receiver is woken. *)
Definition armed (w : World) : Prop :=
  match w.(sender) with
  | Holding | Stored => w.(shared).(waker) = true
  | Marked => w.(shared).(waker) = true \/ resolved w.(receiver)
  | Sent | SenderDone => w.(receiver) <> Parked /\ (w.(receiver) = SawEmpty -> w.(notified) = true)
  end.

Lemma wake_true r n r' n' : wake r n true = (r', n') -> r' <> Parked /\ (r' = SawEmpty -> n' = true).
Proof. unfold wake. destruct r; intros [= <- <-]; done. Qed.

Lemma armed_step w w' : phase w -> armed w -> completion_step w w' -> armed w'.
Proof.
  unfold armed.
  intros Hp Ha [Hs|Hs]; destruct Hp as [wk r n Hr|v wk s r n Hs' Hr|wk s r n Hs' Hr|sl wk s n o Hs' Hv];
    inversion Hs; subst; clear Hs; unfold mark_canceled, take_slot, wake_if_registered in *; simplify_eq/=; try by destruct_or?; simplify_eq/=.
  all: try match goal with E : wake (Resolved _) _ _ = _ |- _ => rewrite (resolved_wake _ _ _ _ _ E) end.
  all: try done; try by eapply wake_true.
  { by left. }
  { destruct Ha as [->|?]; [by eapply wake_true|done]. }
  { right. by eexists. }
  all: destruct s; try done; try (by left); try (destruct Ha as [? Ha]; rewrite Ha by done; done).
  all: destruct Ha as [?|Ha]; [by left|by destruct (Hr Ha)].
Qed.

(** A receiver that has registered before its worker answers is never left
    asleep: from then on, along every interleaving, it is parked only while
    the worker has still to wake it, and the waker is there for that. *)
Theorem completion_wakes w w' :
  rtc completion_step completion_start w -> w.(sender) = Holding -> w.(shared).(waker) = true ->
  rtc completion_step w w' -> w'.(receiver) = Parked ->
  w'.(shared).(waker) = true /\ (w'.(sender) = Holding \/ w'.(sender) = Stored \/ w'.(sender) = Marked).
Proof.
  intros Hr Hs Hw Hr'. apply reachable_phase in Hr. assert (Ha : armed w) by (unfold armed; by rewrite Hs).
  clear Hs Hw. induction Hr' as [w|w1 w2 w3 Hstep _ IH]; [|eauto using phase_step, armed_step].
  unfold armed in Ha. intros E. destruct w as [c s r n o]. cbn in *. subst r.
  destruct s; try (by destruct Ha); [by eauto|by eauto|]. destruct Ha as [?|[? ?]]; [by eauto|done].
Qed.

(** In the first poll nothing is registered yet, and the answer may fall
    between its two critical sections: the worker finds no waker to wake and
    is done, and then the task parks beside its answer.  Nothing the worker
    could still do will wake it. *)
Theorem completion_loses_wake v :
  exists w, rtc completion_step completion_start w
    /\ w.(receiver) = Parked /\ w.(shared).(slot) = Value v /\ w.(sent_value) = Some v
    /\ forall w', rtc sender_step w w' -> w' = w.
Proof.
  exists (mk_World (mk_Completion (Value v) true) SenderDone Parked false (Some v)). split_and!; try done.
  - eapply rtc_l; [right; by eapply step_poll_empty|].
    eapply rtc_l; [left; by eapply step_store|].
    eapply rtc_l; [left; by eapply step_wake|].
    eapply rtc_l; [left; by eapply step_drop_sent|].
    eapply rtc_l; [right; by eapply step_register|]. apply rtc_refl.
  - intros w' Hr. inversion Hr as [|? ? ? Hs]; subst; [done|]. inversion Hs.
Qed.
End Completion.
Arguments World T : clear implicits.

(** A reply of 7, sent after the receiver has registered. *)
Definition registered : World nat := mk_World (mk_Completion Empty true) Holding Parked false None.
Definition answered : World nat := mk_World (mk_Completion (Value 7%nat) true) Stored Parked false (Some 7%nat).

Lemma registered_reachable : rtc completion_step completion_start registered.
Proof.
  eapply rtc_l; [right; by eapply step_poll_empty|].
  eapply rtc_l; [right; by eapply step_register|]. apply rtc_refl.
Qed.
Lemma answered_reachable : rtc completion_step registered answered.
Proof. eapply rtc_l; [left; by eapply step_store|]. apply rtc_refl. Qed.

Lemma completion_delivers_witness :
  rtc completion_step completion_start answered
  /\ snd (take_slot answered.(shared)) = Ready (outcome (Some 7%nat)).
Proof.
  assert (Hr : rtc completion_step completion_start answered).
  { etrans; [apply registered_reachable|apply answered_reachable]. }
  split; [exact Hr|]. apply (completion_delivers answered Hr); [done|by intros [? ?]].
Defined.

Lemma completion_wakes_witness :
  rtc completion_step registered answered /\ answered.(shared).(waker) = true.
Proof.
  split; [apply answered_reachable|].
  apply (completion_wakes registered answered registered_reachable eq_refl eq_refl answered_reachable eq_refl).
Defined.
