(* ===== verification/Broker.v ===== *)
(** * Broker: one ordered worker in front of the radio
    (cat-server/src/broker.rs, cat-server/src/release.rs)

    [dispatch] checks one raw frame against the command table and routes it to
    the client; the worker serves jobs off its queue; a handle puts jobs on
    the queue, unless its gate refuses, and can reach the modem lines past the
    queue to release the transmitter. *)

From S2P Require Import Prelude Text Utf8 Framework Client LocalChannel.

(** [{:?}] of a [Duration] given in nanoseconds. *)
Fixpoint strip_zeros (l : bytes) : bytes :=
  match l with
  | b :: l' => if unsigned b =? 48 then strip_zeros l' else l
  | [] => []
  end.
Definition pad_left (n : nat) (l : bytes) : bytes := replicate (n - length l) (u8 48) ++ l.
Definition decimal (whole frac : Z) (digits : nat) : bytes :=
  show_dec whole ++ (if frac =? 0 then []
                     else u8 46 :: rev (strip_zeros (rev (pad_left digits (show_dec frac))))).
Definition debug_duration (ns : Z) : bytes :=
  if 1000000000 <=? ns then decimal (ns / 1000000000) (ns mod 1000000000) 9 ++ as_bytes "s"
  else if 1000000 <=? ns then decimal (ns / 1000000) (ns mod 1000000) 6 ++ as_bytes "ms"
  else if 1000 <=? ns then decimal (ns / 1000) (ns mod 1000) 3 ++ map u8 [194; 181] ++ as_bytes "s"
  else decimal ns 0 0 ++ as_bytes "ns".
Arguments debug_duration : simpl never.

Example debug_duration_examples :
  debug_duration 5000000000 = as_bytes "5s" /\ debug_duration 1500000000 = as_bytes "1.5s"
  /\ debug_duration 200000000 = as_bytes "200ms".
Proof. split_and!; vm_compute; reflexivity. Qed.

Definition DEFAULT_REQUEST_TIMEOUT : Z := 5000000000.

Inductive DispatchOutcome : Type := BResponse (b : bytes) | BNoResponse.
Inductive DispatchError (E : Type) : Type :=
| Malformed (e : ParseError)
| DispatchTimeout (d : Z)
| SessionError (e : ClientError E).
Arguments Malformed {E}.
Arguments DispatchTimeout {E}.
Arguments SessionError {E}.

Definition outcome_text (o : DispatchOutcome) : option text :=
  match o with BResponse b => Some (from_utf8_lossy b) | BNoResponse => None end.

Definition debug_protocol_error (k : ProtocolErrorKind) : bytes :=
  as_bytes match k with
           | PeUnknownCommand => "UnknownCommand" | PeInvalidSyntax => "InvalidSyntax"
           | PeInvalidParameter => "InvalidParameter" | PeUnsupportedOperation => "UnsupportedOperation"
           end.

Section Display.
  Context {E : Type} (show_E : E -> bytes).
Definition show_client_error (e : ClientError E) : bytes :=
  match e with
  | CUnknownCommand c => as_bytes "unknown command: " ++ c
  | CommandNotReadable c => as_bytes "command " ++ c ++ as_bytes " does not support read (query)"
  | CommandNotWritable c => as_bytes "command " ++ c ++ as_bytes " does not support write (set)"
  | CProtocolError k => as_bytes "session reported a protocol error: " ++ debug_protocol_error k
  | Transport e => as_bytes "transport error: " ++ show_E e
  end.
Definition show_dispatch_error (e : DispatchError E) : bytes :=
  match e with
  | Malformed e => as_bytes "malformed request: " ++ show_parse_error e
  | DispatchTimeout d => as_bytes "physical radio session did not respond within " ++ debug_duration d
  | SessionError e => as_bytes "physical radio session error: " ++ show_client_error e
  end.
Definition outcome_to_wire (r : result DispatchOutcome (DispatchError E)) : bytes :=
  match r with
  | Ok (BResponse b) => b
  | Ok BNoResponse => []
  | Err e => as_bytes "ERR " ++ show_dispatch_error e
  end.
End Display.

(** ** Dispatch *)

Section Dispatch.
  Context {F : Type} `{!CatWireFormat F} {C S E : Type} `{!CatSession S E}.

Record Broker : Type := mk_Broker {
  br_client : CatClient F C S; br_table : CommandTable C Code; br_format : F; request_timeout : Z }.

Definition with_format_and_timeout (s : S) (t : CommandTable C Code) (f : F) (timeout : Z) : Broker :=
  mk_Broker (mk_CatClient s t f) t f timeout.

(** Whether an accepted request is a read, by its operation and the form its
    width matches; [None] when the definition is neither. *)
Definition is_read (d : CommandDefinition C Code) (op : CommandOperation) (len : nat) : option bool :=
  match op with
  | Query => Some true
  | Action => Some false
  | Set_ =>
      if is_selector_read d len then Some true
      else if is_writable d then Some false
      else if is_readable d then Some true
      else None
  | Response => None
  end.

(** The call under the timeout.  [late] is [Some s] when the deadline passes
    first: the call is cancelled and the session is left as [s]. *)
Definition with_request_timeout (b : Broker) (late : option S)
    (call : CatClient F C S -> CatClient F C S * result DispatchOutcome (ClientError E))
  : Broker * result DispatchOutcome (DispatchError E) :=
  let update c := mk_Broker c b.(br_table) b.(br_format) b.(request_timeout) in
  match late with
  | Some s => (update (with_session b.(br_client) s), Err (DispatchTimeout b.(request_timeout)))
  | None => let '(c, r) := call b.(br_client) in (update c, map_err SessionError r)
  end.

(** The call itself: a read's response, or a write that is not answered. *)
Definition dispatch_call (read : bool) (code : Code) (params : bytes) (c : CatClient F C S)
  : CatClient F C S * result DispatchOutcome (ClientError E) :=
  if read then let '(c, r) := query_with_bytes c code params in (c, result_map BResponse r)
  else let '(c, r) := set c code params in (c, result_map (fun _ => BNoResponse) r).

(** [Broker::dispatch].  A code that [parse] accepted and the table does not
    find would be a panic; [dispatch_total] shows there is none. *)
Definition dispatch (b : Broker) (late : option S) (request : bytes)
  : option (Broker * result DispatchOutcome (DispatchError E)) :=
  match parse b.(br_table) b.(br_format) request with
  | Err e => Some (b, Err (Malformed e))
  | Ok parsed =>
      let code := parsed.(req_code) in
      let params := parsed.(parameters) in
      definition ← table_find b.(br_table) code;
      match parsed.(req_operation), is_read definition parsed.(req_operation) (length params) with
      | Response, _ => Some (b, Err (SessionError (CUnknownCommand (debug_code code))))
      | _, None => Some (b, Err (Malformed (UnsupportedOperation (debug_code code))))
      | _, Some read => Some (with_request_timeout b late (dispatch_call read code params))
      end
  end.

Definition session_of (b : Broker) : S := b.(br_client).(session).

(** The client of a broker has the broker's table and format. *)
Definition broker_ok (b : Broker) : Prop :=
  b.(br_client).(table) = b.(br_table) /\ b.(br_client).(format) = b.(br_format).

Lemma with_format_ok s t f timeout : broker_ok (with_format_and_timeout s t f timeout).
Proof. done. Qed.

(** What reaches the radio for an accepted request whose command is found. *)
Definition session_call (s : S) (read : bool) (frame : bytes) : S :=
  if read then (execute (E := E) s frame).1.1 else (session_send (E := E) s frame).1.

(** The call touches the session at most once, and not at all when the client
    refuses it. *)
Lemma dispatch_call_session read (c : CatClient F C S) k params c' r :
  dispatch_call read k params c = (c', r) ->
  c'.(table) = c.(table) /\ c'.(format) = c.(format)
  /\ ((c'.(session) = c.(session) /\ exists e, r = Err e)
      \/ c'.(session) = session_call c.(session) read (encode_request c.(format) k params)).
Proof.
  unfold dispatch_call, query_with_bytes, set, execute_query_bytes, session_call.
  destruct (validate_code c k) as [d|]; [|destruct read; intros [= <- <-]; split_and!; eauto].
  destruct read.
  - destruct (negb (is_readable d)); [intros [= <- <-]; split_and!; eauto|].
    destruct (execute (session c) _) as [[s resp] rr]. intros [= <- <-]. auto.
  - destruct (negb (is_writable d)); [intros [= <- <-]; split_and!; eauto|].
    destruct (session_send (session c) _) as [s rr]. intros [= <- <-]. auto.
Qed.
End Dispatch.
Arguments Broker F {_} C S.

Section DispatchLaws.
  Context {F : Type} `{!CatWireFormat F} `{!WireFormatLaws F} {C S E : Type} `{!CatSession S E}.
  Implicit Types (b : Broker F C S).

Lemma parse_resolves b request parsed :
  parse b.(br_table) b.(br_format) request = Ok parsed ->
  exists d, table_find b.(br_table) parsed.(req_code) = Some d
    /\ find_command b.(br_format) b.(br_table) request = Ok (d, parsed.(parameters))
    /\ classify d parsed.(parameters) = Ok parsed.(req_operation).
Proof.
  unfold parse. destruct (find_command _ _ request) as [[d params]|] eqn:Hf; [|done]. cbn [result_bind].
  destruct (classify d params) as [op|] eqn:Hc; [|done]. cbn. intros [= <-]. exists d.
  split_and!; [|done|done]. by apply find_resolves in Hf.
Qed.

(** The panic of [dispatch] is unreachable. *)
Lemma dispatch_total b late request : is_Some (dispatch (E := E) b late request).
Proof.
  unfold dispatch. destruct (parse _ _ request) as [parsed|] eqn:Hp; [|by eexists].
  apply parse_resolves in Hp as (d & -> & _). cbn [mbind option_bind].
  destruct (req_operation parsed); [|..|by eexists];
    (destruct (is_read d _ (length (parameters parsed))); by eexists).
Qed.

Lemma with_request_timeout_spec b late read k params b' r :
  broker_ok b -> with_request_timeout (E := E) b late (dispatch_call read k params) = (b', r) ->
  broker_ok b'
  /\ ((session_of b' = session_of b /\ exists e, r = Err e)
      \/ match late with
         | Some s => session_of b' = s /\ r = Err (DispatchTimeout b.(request_timeout))
         | None => session_of b'
                   = session_call (E := E) (session_of b) read (encode_request b.(br_format) k params)
         end).
Proof.
  intros [Ht Hf]. unfold with_request_timeout. destruct late as [s|].
  { intros [= <- <-]. split; [done|]. by right. }
  destruct (dispatch_call _ _ _ _) as [c' r'] eqn:Hc. intros [= <- <-].
  apply dispatch_call_session in Hc as (H1 & H2 & H3). rewrite Hf in H3.
  unfold broker_ok, session_of in *. cbn. rewrite H1, H2. split; [done|].
  destruct H3 as [[H3 [e ->]]|H3]; [left|by right]. split; [done|]. by eexists.
Qed.

(** C6. The broker's gate.  Dispatch is total, and a request either leaves the
    radio untouched and gets an error, or was accepted by the command table;
    then, unless the deadline cancels it, the radio sees at most one exchange,
    the encoding of that command with those parameters, sent as a read exactly
    when the operation is a query, a selector read, or a width that is not
    writable. *)
Theorem dispatch_gates_radio b late request :
  broker_ok b ->
  exists b' r, dispatch (E := E) b late request = Some (b', r) /\ broker_ok b'
    /\ ((session_of b' = session_of b /\ exists e, r = Err e)
        \/ exists d parsed read,
             parse b.(br_table) b.(br_format) request = Ok parsed
             /\ table_find b.(br_table) parsed.(req_code) = Some d
             /\ is_read d parsed.(req_operation) (length parsed.(parameters)) = Some read
             /\ match late with
                | Some s => session_of b' = s /\ r = Err (DispatchTimeout b.(request_timeout))
                | None => session_of b' = session_call (E := E) (session_of b) read
                            (encode_request b.(br_format) parsed.(req_code) parsed.(parameters))
                end).
Proof.
  intros Hok.
  destruct (dispatch_total b late request) as [[b' r] Hd]. exists b', r. split; [done|].
  unfold dispatch in Hd. destruct (parse _ _ request) as [parsed|e] eqn:Hp.
  2: { injection Hd as <- <-. eauto. }
  destruct (parse_resolves b request parsed Hp) as (d & Hfind & _ & _). rewrite Hfind in Hd.
  cbn [mbind option_bind] in Hd.
  destruct (is_read d (req_operation parsed) (length (parameters parsed))) as [read|] eqn:Hr.
  - assert (H : Some (with_request_timeout (E := E) b late
                  (dispatch_call read parsed.(req_code) parsed.(parameters))) = Some (b', r))
      by (by destruct (req_operation parsed)).
    injection H as H. destruct (with_request_timeout_spec b late _ _ _ b' r Hok H) as [H1 [H2|H2]];
      split; auto. right. exists d, parsed, read. auto.
  - destruct (req_operation parsed); try done; injection Hd as <- <-; eauto.
Qed.
End DispatchLaws.

(** ** The worker, the queue and the handles *)

Definition ClientId : Type := Z.

(** What the radio's modem-control lines are is the transport's business; a
    task is a function of them, when the session has any. *)
Section Worker.
  Context {F : Type} `{!CatWireFormat F} `{!WireFormatLaws F} {C S E : Type} `{!CatSession S E}.
  Context (show_E : E -> bytes) {Lines : Type}.

Definition TaskFn : Type := option Lines -> option Lines * result bytes bytes.
Definition run_task (run : TaskFn) (lines : option Lines) : option Lines * bytes :=
  let '(lines, r) := run lines in
  (lines, match r with Ok b => b | Err message => as_bytes "ERR " ++ message end).

Inductive Work : Type := Wire (payload : bytes) | Task (run : TaskFn).
(** [reply] names the caller's reply slot. *)
Record Job : Type := mk_Job { client_id : ClientId; job_request_id : Z; work : Work; reply : nat }.

(** [ReleaseLines]: whether the duplicate is still open, whether there ever
    was one, and whether the fallback has been warned of. *)
Record ReleaseLines : Type := mk_ReleaseLines { lines_open : bool; had_lines : bool; warned : bool }.
Definition from_session (offered : bool) : ReleaseLines := mk_ReleaseLines offered offered false.
Definition close_release (r : ReleaseLines) : ReleaseLines := mk_ReleaseLines false r.(had_lines) r.(warned).
Definition should_warn_of_fallback (r : ReleaseLines) : ReleaseLines * bool :=
  if negb r.(had_lines) then (mk_ReleaseLines r.(lines_open) r.(had_lines) true, negb r.(warned))
  else (r, false).

(** The broker's world: the physical [lines], whether the session lends them
    to tasks, the duplicate, the queue, the job the worker has in hand, and the
    replies written into slots, with the jobs served so far and how each met its
    deadline. *)
Record BrokerWorld : Type := mk_BrokerWorld {
  broker : Broker F C S;
  lines : Lines;
  modem : bool;
  release : ReleaseLines;
  jobs : Channel Job;
  in_hand : option Job;
  next_job_id : Z;
  next_slot : nat;
  replies : list (nat * bytes);
  served : list (Job * option S);
  accepted_jobs : list Job }.

Definition build (b : Broker F C S) (l : Lines) (has_modem offers_release : bool) : BrokerWorld :=
  mk_BrokerWorld b l has_modem (from_session offers_release) channel None 0 0 [] [] [].

Inductive Submission : Type := Answered (b : bytes) | Queued (slot : nat) | BrokerGone.

(** Queueing a job: the request id and the reply slot are taken first. *)
Definition enqueue (w : BrokerWorld) (client : ClientId) (k : Work) : BrokerWorld * Submission :=
  let job := mk_Job client w.(next_job_id) k w.(next_slot) in
  let '(q, _, r) := channel_send w.(jobs) job in
  (mk_BrokerWorld w.(broker) w.(lines) w.(modem) w.(release) q w.(in_hand)
     (wrapping_add_u64 w.(next_job_id) 1) (w.(next_slot) + 1) w.(replies) w.(served)
     (match r with Ok _ => w.(accepted_jobs) ++ [job] | Err _ => w.(accepted_jobs) end),
   match r with Ok _ => Queued w.(next_slot) | Err _ => BrokerGone end).

(** [BrokerHandle::submit]; [gate] is what the handle's gate says now. *)
Definition submit (w : BrokerWorld) (gate : option bytes) (client : ClientId) (payload : bytes)
  : BrokerWorld * Submission :=
  match gate with
  | Some reason => (w, Answered (as_bytes "ERR " ++ reason))
  | None => enqueue w client (Wire payload)
  end.
Definition submit_task (w : BrokerWorld) (client : ClientId) (run : TaskFn) : BrokerWorld * Submission :=
  enqueue w client (Task run).

Definition set_release (w : BrokerWorld) (l : Lines) (r : ReleaseLines) : BrokerWorld :=
  mk_BrokerWorld w.(broker) l w.(modem) r w.(jobs) w.(in_hand) w.(next_job_id) w.(next_slot) w.(replies)
    w.(served) w.(accepted_jobs).

(** [ReleaseLines::try_now], then the ordered queue if it hands the task
    back. *)
Definition release_now_bypassing_queue (w : BrokerWorld) (client : ClientId) (run : TaskFn)
  : BrokerWorld * Submission :=
  if w.(release).(lines_open) then
    let '(l, b) := run_task run (Some w.(lines)) in
    (set_release w (default w.(lines) l) w.(release), Answered b)
  else
    let '(r, _) := should_warn_of_fallback w.(release) in
    submit_task (set_release w w.(lines) r) client run.

(** One turn of [BrokerWorker::run] is two steps, and handles run in between,
    for as long as the exchange takes: the worker takes the next job ... *)
Definition worker_take (w : BrokerWorld) : option BrokerWorld :=
  match w.(in_hand), recv_poll w.(jobs) with
  | None, (q, Ready (Some job)) =>
      Some (mk_BrokerWorld w.(broker) w.(lines) w.(modem) w.(release) q (Some job) w.(next_job_id) w.(next_slot)
              w.(replies) w.(served) w.(accepted_jobs))
  | _, _ => None
  end.
(** ... and later it has served it, and sends its reply. *)
Definition worker_finish (w : BrokerWorld) (late : option S) : option BrokerWorld :=
  job ← w.(in_hand);
  '(b, l, wire) ← match job.(work) with
    | Wire payload =>
        '(b, r) ← dispatch w.(broker) late payload;
        Some (b, w.(lines), outcome_to_wire show_E r)
    | Task run =>
        let '(l, wire) := run_task run (if w.(modem) then Some w.(lines) else None) in
        Some (w.(broker), if w.(modem) then default w.(lines) l else w.(lines), wire)
    end;
  Some (mk_BrokerWorld b l w.(modem) w.(release) w.(jobs) None w.(next_job_id) w.(next_slot)
          (w.(replies) ++ [(job.(reply), wire)]) (w.(served) ++ [(job, late)]) w.(accepted_jobs)).

(** The worker is dropped: its receiver and the release duplicate with it, and
    the job in hand is never finished. *)
Definition worker_drop (w : BrokerWorld) : BrokerWorld :=
  mk_BrokerWorld w.(broker) w.(lines) w.(modem) (close_release w.(release)) (receiver_drop w.(jobs))
    w.(in_hand) w.(next_job_id) w.(next_slot) w.(replies) w.(served) w.(accepted_jobs).

Definition worker_alive (w : BrokerWorld) : bool := negb w.(jobs).(ch_receiver_dropped).

(** Any interleaving of handles and worker. *)
Inductive broker_step : BrokerWorld -> BrokerWorld -> Prop :=
| step_submit w gate client payload :
    broker_step w (submit w gate client payload).1
| step_submit_task w client run :
    broker_step w (submit_task w client run).1
| step_release w client run :
    broker_step w (release_now_bypassing_queue w client run).1
| step_take w w' :
    worker_alive w = true -> worker_take w = Some w' -> broker_step w w'
| step_finish w late w' :
    worker_alive w = true -> worker_finish w late = Some w' -> broker_step w w'
| step_drop w :
    worker_alive w = true -> broker_step w (worker_drop w).

(** The sequential reference: one job after the other against one broker. *)
Definition serve_job (b : Broker F C S) (j : Job * option S) : Broker F C S :=
  match j.1.(work) with
  | Wire payload => match dispatch (E := E) b j.2 payload with Some (b, _) => b | None => b end
  | Task _ => b
  end.
Definition serve_jobs (b : Broker F C S) (l : list (Job * option S)) : Broker F C S := fold_left serve_job l b.
(** The reply the reference gives to a wire request. *)
Definition wire_reply (b : Broker F C S) (late : option S) (payload : bytes) : option bytes :=
  '(_, r) ← dispatch b late payload; Some (outcome_to_wire show_E r).

Definition replies_ok (b0 : Broker F C S) (w : BrokerWorld) : Prop :=
  map fst w.(replies) = map (fun j => reply j.1) w.(served)
  /\ forall n job late payload wire,
       w.(served) !! n = Some (job, late) -> job.(work) = Wire payload ->
       w.(replies) !! n = Some (job.(reply), wire) ->
       wire_reply (serve_jobs b0 (take n w.(served))) late payload = Some wire.

Definition broker_inv (b0 : Broker F C S) (offered : bool) (w : BrokerWorld) : Prop :=
  w.(accepted_jobs) = map fst w.(served) ++ option_list w.(in_hand) ++ w.(jobs).(ch_queue)
  /\ w.(broker) = serve_jobs b0 w.(served)
  /\ replies_ok b0 w
  /\ NoDup (map reply w.(accepted_jobs)) /\ Forall (fun n => n < w.(next_slot))%nat (map reply w.(accepted_jobs))
  /\ w.(release).(lines_open) = offered && worker_alive w.

Lemma enqueue_inv b0 o w client k : broker_inv b0 o w -> broker_inv b0 o (enqueue w client k).1.
Proof.
  intros (Ha & Hb & Hr & Hn & Hlt & Ho). unfold enqueue, channel_send.
  destruct (ch_receiver_dropped w.(jobs)) eqn:Hd; split_and!; cbn; try done.
  - eapply Forall_impl; [exact Hlt|]. cbn. lia.
  - by rewrite Ha, <- !app_assoc.
  - rewrite map_app. apply NoDup_app. split_and!; [done| |apply NoDup_singleton].
    intros n Hin Hs. apply list_elem_of_singleton in Hs. cbn in Hs. subst n.
    rewrite Forall_forall in Hlt. specialize (Hlt _ Hin). lia.
  - rewrite map_app. apply Forall_app. split; [|by repeat constructor; cbn; lia].
    eapply Forall_impl; [exact Hlt|]. cbn. lia.
  - rewrite Ho. unfold worker_alive. cbn. by rewrite Hd.
Qed.

Lemma set_release_inv b0 o w l r :
  r.(lines_open) = w.(release).(lines_open) -> broker_inv b0 o w -> broker_inv b0 o (set_release w l r).
Proof. intros Hr (Ha & Hb & Hrep & Hn & Hlt & Ho). split_and!; try done. cbn. by rewrite Hr. Qed.

Lemma worker_take_inv b0 o w w' : broker_inv b0 o w -> worker_take w = Some w' -> broker_inv b0 o w'.
Proof.
  intros (Ha & Hb & Hr & Hn & Hlt & Ho). unfold worker_take, recv_poll.
  destruct (in_hand w); [done|]. destruct (ch_queue w.(jobs)) as [|job q] eqn:Hq; [by destruct (sender_count (jobs w) =? 0)%nat|].
  intros [= <-]. by split_and!.
Qed.

Lemma worker_finish_shape w late w' :
  worker_finish w late = Some w' ->
  exists job wire, w.(in_hand) = Some job /\ w'.(in_hand) = None
    /\ w'.(broker) = serve_job w.(broker) (job, late) /\ w'.(jobs) = w.(jobs)
    /\ w'.(replies) = w.(replies) ++ [(job.(reply), wire)] /\ w'.(served) = w.(served) ++ [(job, late)]
    /\ w'.(accepted_jobs) = w.(accepted_jobs) /\ w'.(next_slot) = w.(next_slot)
    /\ w'.(release) = w.(release)
    /\ forall payload, job.(work) = Wire payload -> wire_reply w.(broker) late payload = Some wire.
Proof.
  unfold worker_finish, serve_job, wire_reply.
  destruct (in_hand w) as [job|]; [|done]. cbn [mbind option_bind].
  destruct (work job) as [payload|run] eqn:Hw; cbn [fst snd].
  - destruct (dispatch w.(broker) late payload) as [[b r]|] eqn:Hd; [|done]. cbn. intros [= <-].
    exists job, (outcome_to_wire show_E r). rewrite Hw, Hd. split_and!; try done.
    intros p [= <-]. by rewrite Hd.
  - destruct (run_task run _) as [l wire]. cbn. intros [= <-]. exists job, wire.
    rewrite Hw. split_and!; done.
Qed.

Lemma worker_finish_inv b0 o w late w' :
  broker_inv b0 o w -> worker_finish w late = Some w' -> broker_inv b0 o w'.
Proof.
  intros (Ha & Hb & [Hr1 Hr2] & Hn & Hlt & Ho) Ht.
  apply worker_finish_shape in Ht as (job & wire & Hi & Ei & Eb & Ej & Er & Es & Ea & En & El & Hwire).
  assert (Hlen : length w.(replies) = length w.(served)).
  { apply (f_equal length) in Hr1. by rewrite !length_map in Hr1. }
  split_and!.
  - rewrite Ea, Es, Ej, Ei, Ha, Hi, map_app, <- app_assoc. done.
  - rewrite Eb, Es, Hb. unfold serve_jobs. by rewrite fold_left_app.
  - split; [by rewrite Er, Es, !map_app, Hr1|]. rewrite Er, Es. intros n j l p wi Hs Hwk Hrep.
    destruct (Nat.lt_ge_cases n (length w.(served))) as [Hlt'|Hge].
    + rewrite lookup_app_l in Hs by done. rewrite lookup_app_l in Hrep by lia.
      rewrite take_app_le by lia. eauto.
    + rewrite lookup_app_r in Hs by done. rewrite lookup_app_r in Hrep by lia.
      apply list_lookup_singleton_Some in Hs as [Hz [= <- <-]]. rewrite Hlen, Hz in Hrep. cbn in Hrep.
      injection Hrep as <-. replace n with (length w.(served)) by lia.
      rewrite take_app_length, <- Hb. auto.
  - by rewrite Ea.
  - by rewrite Ea, En.
  - rewrite El, Ho. unfold worker_alive. by rewrite Ej.
Qed.

Lemma broker_step_inv b0 o w w' : broker_inv b0 o w -> broker_step w w' -> broker_inv b0 o w'.
Proof.
  intros Hi Hs. destruct Hs as [w gate client payload|w client run|w client run|w w' Ha Ht|w late w' Ha Ht|w Ha].
  - unfold submit. destruct gate; [done|]. by apply enqueue_inv.
  - by apply enqueue_inv.
  - unfold release_now_bypassing_queue. destruct (lines_open w.(release)) eqn:Ho.
    + destruct (run_task _ _) as [l b]. by apply set_release_inv.
    + destruct (should_warn_of_fallback w.(release)) as [r x] eqn:Hw. apply enqueue_inv, set_release_inv; [|done].
      unfold should_warn_of_fallback in Hw. destruct (negb _); by injection Hw as <- <-.
  - by eapply worker_take_inv.
  - by eapply worker_finish_inv.
  - destruct Hi as (H1 & H2 & H3 & H4 & H5 & _). split_and!; try done. cbn. by rewrite andb_false_r.
Qed.

Lemma broker_reachable_inv b0 l modem offered w :
  rtc broker_step (build b0 l modem offered) w -> broker_inv b0 offered w.
Proof.
  assert (H0 : broker_inv b0 offered (build b0 l modem offered)).
  { split_and!; try done; [apply NoDup_nil_2|]. cbn. by rewrite andb_true_r. }
  intros Hr. revert H0. induction Hr as [|w1 w2 w3 Hs _ IH]; [done|]. eauto using broker_step_inv.
Qed.

(** C5. The broker serialises its clients: along every interleaving of
    handles and worker, the jobs served are a prefix of the jobs accepted, in
    the order they were accepted; the radio session is exactly what serving
    them one after the other on one broker would leave; every wire request
    gets, in its own slot and no other, the reply that sequential run gives
    it. *)
Theorem broker_serialises b0 l modem offered w :
  rtc broker_step (build b0 l modem offered) w ->
  (exists pending, w.(accepted_jobs) = map fst w.(served) ++ pending)
  /\ w.(broker) = serve_jobs b0 w.(served)
  /\ NoDup (map fst w.(replies))
  /\ (forall n job late payload, w.(served) !! n = Some (job, late) -> job.(work) = Wire payload ->
      exists wire, w.(replies) !! n = Some (job.(reply), wire)
        /\ wire_reply (serve_jobs b0 (take n w.(served))) late payload = Some wire).
Proof.
  intros Hr. destruct (broker_reachable_inv _ _ _ _ _ Hr) as (Ha & Hb & [Hr1 Hr2] & Hn & _). split_and!; [eauto|done| |].
  - rewrite Hr1. rewrite Ha, map_app, map_map in Hn. by apply NoDup_app in Hn as [? _].
  - intros n job late payload Hs Hw.
    assert (Hm : map fst w.(replies) !! n = Some job.(reply)).
    { rewrite Hr1. by erewrite list_lookup_fmap, Hs. }
    apply list_lookup_fmap_Some in Hm as ([s wire] & Hs' & Hrep). cbn in Hs'. subst s. eauto.
Qed.

(** C22. A release neither waits for an exchange nor disturbs it: on a broker
    whose session offered release lines, as long as the worker lives, a release
    task runs at once against the lines, whatever is queued and also while the
    worker is in the middle of a job; if that job is a CAT request, it ends with
    the same reply and leaves the same session as without the release, and the
    lines as the release left them.  Without release lines, or once the worker
    is gone, the task is queued or refused and the lines are left alone. *)
Theorem release_does_not_wait b0 l modem offered w client run :
  rtc broker_step (build b0 l modem offered) w ->
  let '(w1, answer) := release_now_bypassing_queue w client run in
  if offered && worker_alive w then
    answer = Answered (run_task run (Some w.(lines))).2
    /\ w1.(lines) = default w.(lines) (run (Some w.(lines))).1
    /\ w1.(broker) = w.(broker) /\ w1.(jobs) = w.(jobs) /\ w1.(in_hand) = w.(in_hand)
    /\ forall job payload late w2, w.(in_hand) = Some job -> job.(work) = Wire payload ->
       worker_finish w late = Some w2 ->
       exists w3, worker_finish w1 late = Some w3 /\ w3.(replies) = w2.(replies) /\ w3.(broker) = w2.(broker)
         /\ w3.(lines) = w1.(lines)
  else
    w1.(lines) = w.(lines) /\ w1.(broker) = w.(broker)
    /\ answer = (if worker_alive w then Queued w.(next_slot) else BrokerGone).
Proof.
  intros Hr. destruct (broker_reachable_inv _ _ _ _ _ Hr) as (_ & _ & _ & _ & _ & Ho).
  unfold release_now_bypassing_queue. rewrite Ho. destruct (offered && worker_alive w) eqn:Hoff.
  - unfold run_task. destruct (run (Some (lines w))) as [l' r]. cbn [fst snd].
    split_and!; try done. intros job payload late w2 Hj Hwk. unfold worker_finish. cbn [in_hand set_release broker].
    rewrite Hj. cbn [mbind option_bind]. rewrite Hwk. destruct (dispatch (broker w) late payload) as [[b r']|]; [|done].
    cbn. intros [= <-]. eexists. by split_and!.
  - destruct (should_warn_of_fallback _) as [r x]. unfold submit_task, enqueue, channel_send. cbn.
    unfold worker_alive. destruct (ch_receiver_dropped (jobs w)); done.
Qed.
End Worker.
Arguments TaskFn : clear implicits.
Arguments Work : clear implicits.
Arguments Job : clear implicits.
Arguments BrokerWorld F {_} C S Lines.

(** ** A broker in front of a recording session *)

Definition example_broker : Broker AsciiLineFormat nat Recorder :=
  with_format_and_timeout (mk_Recorder [] (fun r => r)) [example_definition] ascii_line
    DEFAULT_REQUEST_TIMEOUT.

Lemma dispatch_gates_radio_witness :
  exists b' r, dispatch (E := string) example_broker None (as_bytes "FA;") = Some (b', r) /\ broker_ok b'
    /\ ((session_of b' = session_of example_broker /\ exists e, r = Err e)
        \/ exists d parsed read,
             parse [example_definition] ascii_line (as_bytes "FA;") = Ok parsed
             /\ table_find [example_definition] parsed.(req_code) = Some d
             /\ is_read d parsed.(req_operation) (length parsed.(parameters)) = Some read
             /\ session_of b' = session_call (E := string) (session_of example_broker) read
                  (encode_request ascii_line parsed.(req_code) parsed.(parameters))).
Proof. apply (dispatch_gates_radio (E := string) example_broker None (as_bytes "FA;")). split; reflexivity. Defined.

(** What the radio saw and what the caller gets, for a query and for a frame
    the table does not accept. *)
Definition observe (x : option (Broker AsciiLineFormat nat Recorder * result DispatchOutcome (DispatchError string)))
  : option (list bytes * bytes) :=
  option_map (fun '(b, r) => ((session_of b).(log), outcome_to_wire as_bytes r)) x.
Example dispatch_examples :
  observe (dispatch example_broker None (as_bytes "FA;")) = Some ([as_bytes "FA;"], as_bytes "FA;")
  /\ observe (dispatch example_broker None (as_bytes "FA123;"))
     = Some ([], as_bytes "ERR malformed request: invalid parameter width for "
                ++ debug_str (as_bytes "FA") ++ as_bytes ": 3").
Proof. split; vm_compute; reflexivity. Qed.

(** The reply to a request whose second byte is a semicolon ends with one. *)
Example error_reply_ends_like_a_frame :
  observe (dispatch example_broker None (as_bytes "A;;"))
  = Some ([], as_bytes "ERR malformed request: unknown command: A;").
Proof. vm_compute. reflexivity. Qed.

(** Lines are a keyed flag; the release task clears it. *)
Definition unkey : TaskFn bool := fun l => (option_map (fun _ => false) l, Ok []).
Definition example_world : BrokerWorld AsciiLineFormat nat Recorder bool :=
  build example_broker true true true.
Definition example_queued : BrokerWorld AsciiLineFormat nat Recorder bool :=
  (submit (submit example_world None 1 (as_bytes "FA;")).1 None 2 (as_bytes "XX;")).1.
Definition example_taken : BrokerWorld AsciiLineFormat nat Recorder bool :=
  default example_queued (worker_take example_queued).
Definition example_served : BrokerWorld AsciiLineFormat nat Recorder bool :=
  default example_queued (worker_finish (E := string) as_bytes example_taken None).

Lemma some_default {A} (d : A) o : is_none o = false -> o = Some (default d o).
Proof. by destruct o. Qed.

Lemma example_taken_reachable : rtc (broker_step as_bytes) (build example_broker true true true) example_taken.
Proof.
  eapply rtc_l; [apply (step_submit _ _ None 1 (as_bytes "FA;"))|].
  eapply rtc_l; [apply (step_submit _ _ None 2 (as_bytes "XX;"))|].
  apply rtc_once. fold example_queued. apply step_take; [vm_compute; reflexivity|].
  apply some_default. vm_compute. reflexivity.
Qed.
Lemma example_reachable : rtc (broker_step as_bytes) (build example_broker true true true) example_served.
Proof.
  eapply rtc_r; [exact example_taken_reachable|]. apply (step_finish _ _ None); [vm_compute; reflexivity|].
  apply some_default. vm_compute. reflexivity.
Qed.

Lemma broker_serialises_witness :
  (exists pending, example_served.(accepted_jobs) = map fst example_served.(served) ++ pending)
  /\ example_served.(broker) = serve_jobs (E := string) example_broker example_served.(served)
  /\ NoDup (map fst example_served.(replies))
  /\ (forall n job late payload, example_served.(served) !! n = Some (job, late) ->
      job.(work) = Wire payload ->
      exists wire, example_served.(replies) !! n = Some (job.(reply), wire)
        /\ wire_reply as_bytes (serve_jobs (E := string) example_broker (take n example_served.(served))) late payload
           = Some wire).
Proof. exact (broker_serialises as_bytes example_broker true true true example_served example_reachable). Defined.

(** The line is released while the first query is under way. *)
Lemma release_does_not_wait_witness :
  let w1 := (release_now_bypassing_queue example_taken 3 unkey).1 in
  w1.(lines) = false
  /\ exists w3, worker_finish (E := string) as_bytes w1 None = Some w3 /\ w3.(replies) = [(0%nat, as_bytes "FA;")]
       /\ w3.(lines) = false.
Proof.
  pose proof (release_does_not_wait as_bytes example_broker true true true example_taken 3 unkey
    example_taken_reachable) as H.
  destruct (release_now_bypassing_queue example_taken 3 unkey) as [w1 a]. cbn [fst].
  assert (E : true && worker_alive example_taken = true) by (vm_compute; reflexivity). rewrite E in H.
  destruct H as (_ & Hl & _ & _ & _ & Hf).
  assert (El : default example_taken.(lines) (unkey (Some example_taken.(lines))).1 = false) by (vm_compute; reflexivity).
  rewrite El in Hl. split; [exact Hl|].
  destruct (Hf (mk_Job 1 0 (Wire (as_bytes "FA;")) 0) (as_bytes "FA;") None example_served) as (w3 & E3 & Er & _ & E4).
  - vm_compute. reflexivity.
  - reflexivity.
  - apply some_default. vm_compute. reflexivity.
  - exists w3. split; [exact E3|]. split; [rewrite Er; vm_compute; reflexivity|by rewrite E4].
Defined.
