(* ===== verification/BrokerSession.v ===== *)
(** * BrokerSession: a session through the broker
    (cat-server/src/broker_session.rs)

    A remote client's [CatSession]: it submits the request through a handle and
    reads the reply bytes back as a response.  Joined to the broker's
    serialisation it is transparent: the client sees what it would see on the
    physical session itself. *)

From S2P Require Import Prelude Text Utf8 Framework Client Tcp Serial LocalChannel Broker.

Record BrokerCatSession : Type := mk_BrokerCatSession { bs_client : ClientId }.

Definition shut_down : TransportError := TOther (txt "broker worker has shut down").
Definition ERR_PREFIX : bytes := as_bytes "ERR ".

(** [slice::strip_prefix]. *)
Fixpoint strip_prefix (p l : bytes) : option bytes :=
  match p, l with
  | [], _ => Some l
  | a :: p, b :: l => if decide (a = b) then strip_prefix p l else None
  | _ :: _, [] => None
  end.

(** [execute], after the handle has answered; [None] when the worker is gone. *)
Definition read_reply (wire : option bytes) : bytes * result ResponseDisposition TransportError :=
  match wire with
  | None => ([], Err shut_down)
  | Some [] => ([], Ok NoResponse)
  | Some wire =>
      match strip_prefix ERR_PREFIX wire with
      | Some message => ([], Err (TOther (from_utf8_lossy message)))
      | None => (wire, Ok ResponseWritten)
      end
  end.

Section Session.
  Context {F : Type} `{!CatWireFormat F} `{!WireFormatLaws F} {C S E : Type} `{!CatSession S E}.
  Context (show_E : E -> bytes) {Lines : Type}.
  Implicit Types (w : BrokerWorld F C S Lines) (b : Broker F C S).

(** [execute] up to its await, and what it returns once the reply is there. *)
Definition bs_submit w (gate : option bytes) (s : BrokerCatSession) (request : bytes)
  : BrokerWorld F C S Lines * Submission := submit w gate s.(bs_client) request.

Definition bs_submit_task w (s : BrokerCatSession) (run : TaskFn Lines) : BrokerWorld F C S Lines * Submission :=
  submit_task w s.(bs_client) run.
Definition bs_release_now_bypassing_queue w (s : BrokerCatSession) (run : TaskFn Lines)
  : BrokerWorld F C S Lines * Submission := release_now_bypassing_queue w s.(bs_client) run.

(** What is in a reply slot. *)
Definition reply_in w (slot : nat) : option bytes :=
  option_map snd (List.find (fun x => Nat.eqb x.1 slot) w.(replies)).

(** The awaiting end: pending while the slot is empty and the worker lives. *)
Definition bs_await w (s : Submission) : Poll (bytes * result ResponseDisposition TransportError) :=
  match s with
  | Answered b => Ready (read_reply (Some b))
  | BrokerGone => Ready (read_reply None)
  | Queued slot =>
      match reply_in w slot with
      | Some wire => Ready (read_reply (Some wire))
      | None => Pending
      end
  end.

(** ** Transparency *)

Lemma strip_prefix_app p l : strip_prefix p (p ++ l) = Some l.
Proof. induction p as [|a p IH]; [done|]. cbn. by rewrite decide_True. Qed.
Lemma strip_prefix_none p l : ~ p `prefix_of` l -> strip_prefix p l = None.
Proof.
  revert l. induction p as [|a p IH]; intros l H; cbn; [by destruct H; apply prefix_nil|].
  destruct l as [|b l]; [done|]. destruct (decide (a = b)) as [->|]; [|done]. apply IH. intros Hp. apply H. by apply prefix_cons.
Qed.

Lemma dispatch_keeps b late p b' r :
  dispatch (E := E) b late p = Some (b', r) ->
  b'.(br_table) = b.(br_table) /\ b'.(br_format) = b.(br_format) /\ (broker_ok b -> broker_ok b').
Proof.
  unfold dispatch. destruct (parse _ _ p) as [parsed|e]; [|by intros [= <- <-]].
  destruct (table_find _ _) as [d|]; [|done]. cbn [mbind option_bind].
  assert (H : forall read k params, with_request_timeout (E := E) b late (dispatch_call read k params) = (b', r) ->
    b'.(br_table) = b.(br_table) /\ b'.(br_format) = b.(br_format) /\ (broker_ok b -> broker_ok b')).
  { intros read k params Hw. split_and!; [| |intros Hok; by apply (with_request_timeout_spec _ _ _ _ _ _ _ Hok Hw)].
    all: unfold with_request_timeout in Hw; destruct late; [by injection Hw as <- <-|].
    all: destruct (dispatch_call _ _ _ _); by injection Hw as <- <-. }
  destruct (is_read d (req_operation parsed) (length (parameters parsed))), (req_operation parsed); intros Hd; try by injection Hd as <- <-.
  all: injection Hd as Hd; by eapply H.
Qed.

Lemma serve_jobs_keeps (jobs : list (Job Lines * option S)) : forall b,
  (serve_jobs (E := E) b jobs).(br_table) = b.(br_table) /\ (serve_jobs (E := E) b jobs).(br_format) = b.(br_format)
  /\ (broker_ok b -> broker_ok (serve_jobs (E := E) b jobs)).
Proof.
  induction jobs as [|[j late] jobs IH]; intros b; [done|]. cbn [serve_jobs fold_left].
  destruct (IH (serve_job (E := E) b (j, late))) as (H1 & H2 & H3). unfold serve_jobs in *. rewrite H1, H2.
  unfold serve_job in *. cbn [fst snd] in *. destruct (work j) as [p|]; [|by split_and!; auto].
  destruct (dispatch b late p) as [[b' r]|] eqn:Hd; [|by split_and!; auto].
  apply dispatch_keeps in Hd as (-> & -> & Hok). split_and!; auto.
Qed.

(** A read that the table accepts is one exchange of the same frame. *)
Lemma dispatch_read b d params s' response dispo :
  broker_ok b -> addressable b.(br_format) b.(br_table) d params ->
  table_find b.(br_table) d.(code) = Some d ->
  classify d params = Ok Query -> is_readable d = true ->
  execute (E := E) (session_of b) (encode_request b.(br_format) d.(code) params) = (s', response, Ok dispo) ->
  (forall k, dispo <> ProtocolError k) ->
  exists b', dispatch (E := E) b None (encode_request b.(br_format) d.(code) params) = Some (b', Ok (BResponse response)).
Proof.
  intros [Ht Hf] Ha Hd Hc Hr He Hp. unfold dispatch, parse. rewrite find_encode by done. cbn [result_bind]. rewrite Hc.
  cbn [result_bind req_code parameters req_operation]. rewrite Hd. cbn [mbind option_bind is_read].
  unfold with_request_timeout, dispatch_call, query_with_bytes, validate_code. rewrite Ht, Hf, Hd. cbn [ok_or]. rewrite Hr. cbn [negb].
  unfold execute_query_bytes. unfold session_of in He. rewrite He. cbn. destruct dispo as [| |k]; [by eexists|by eexists|by destruct (Hp k)].
Qed.

Lemma reply_in_slot w n job wire :
  NoDup (map fst w.(replies)) -> w.(replies) !! n = Some (job, wire) -> reply_in w job = Some wire.
Proof.
  unfold reply_in. generalize w.(replies). intros l. revert n.
  induction l as [|[k x] l IH]; intros n Hn Hl; [done|]. cbn in Hn. apply NoDup_cons in Hn as [Hk Hn]. cbn.
  destruct n as [|n]; cbn in Hl; [injection Hl as -> ->; by rewrite Nat.eqb_refl|].
  destruct (Nat.eqb_spec k job) as [->|]; [|eauto]. destruct Hk.
  apply (list_elem_of_fmap_2 fst l (job, wire)), (list_elem_of_lookup_2 l n). done.
Qed.

(** C20. The broker is transparent to a reading client: whatever other clients
    have in flight, a query that the table accepts and that meets its deadline
    gives, through the broker, exactly the response the physical session gives
    to that frame at its turn, provided the response is not empty and does not
    begin with the broker's error mark. *)
Theorem broker_session_transparent b0 l has_modem offered w n job d params s' response dispo :
  rtc (broker_step show_E) (build b0 l has_modem offered) w -> broker_ok b0 ->
  w.(served) !! n = Some (job, None) -> job.(work) = Wire (encode_request b0.(br_format) d.(code) params) ->
  addressable b0.(br_format) b0.(br_table) d params -> table_find b0.(br_table) d.(code) = Some d ->
  classify d params = Ok Query -> is_readable d = true ->
  execute (E := E) (session_of (serve_jobs (E := E) b0 (take n w.(served)))) (encode_request b0.(br_format) d.(code) params)
    = (s', response, Ok dispo) ->
  (forall k, dispo <> ProtocolError k) -> response <> [] -> ~ ERR_PREFIX `prefix_of` response ->
  bs_await w (Queued job.(reply)) = Ready (response, Ok ResponseWritten).
Proof.
  intros Hr Hok Hs Hw Ha Hd Hc Hrd He Hp Hne Herr.
  destruct (broker_reachable_inv _ _ _ _ _ _ Hr) as (Hacc & _ & [Hr1 Hr2] & Hn & _).
  destruct (serve_jobs_keeps (take n w.(served)) b0) as (Et & Ef & Hok').
  destruct (dispatch_read (serve_jobs (E := E) b0 (take n w.(served))) d params s' response dispo) as [b' Hdis];
    rewrite ?Et, ?Ef in *; auto.
  assert (Hm : map fst w.(replies) !! n = Some job.(reply)) by (rewrite Hr1; by erewrite list_lookup_fmap, Hs).
  apply list_lookup_fmap_Some in Hm as ([slot wire] & Hslot & Hrep). cbn in Hslot. subst slot.
  pose proof (Hr2 n job None _ wire Hs Hw Hrep) as Hwire. unfold wire_reply in Hwire. rewrite Hdis in Hwire. cbn in Hwire.
  injection Hwire as <-. cbn [bs_await]. rewrite (reply_in_slot w n job.(reply) response); [|rewrite Hr1|done].
  - cbn [read_reply]. destruct response as [|x response]; [done|]. by rewrite strip_prefix_none.
  - rewrite Hacc, map_app, map_map in Hn. by apply NoDup_app in Hn as [? _].
Qed.
End Session.

(** An error at any layer comes back as an error with its message. *)
Lemma read_reply_error {E} (show_E : E -> bytes) e :
  read_reply (Some (outcome_to_wire show_E (Err e)))
  = ([], Err (TOther (from_utf8_lossy (show_dispatch_error show_E e)))).
Proof. done. Qed.

(** ** Examples *)

(** The answer of a radio whose own command [ER] takes text is read as the
    broker's error mark, although it is a frame with a two-letter code. *)
Example response_read_as_error :
  read_reply (Some (as_bytes "ERR 12;")) = ([], Err (TOther (txt "12;"))).
Proof. vm_compute. reflexivity. Qed.

Lemma broker_session_transparent_witness :
  bs_await example_served (Queued 0) = Ready (as_bytes "FA;", Ok ResponseWritten).
Proof.
  eapply (broker_session_transparent as_bytes example_broker true true true example_served 0
           (mk_Job 1 0 (Wire (as_bytes "FA;")) 0) example_definition []).
  - exact example_reachable.
  - done.
  - vm_compute. reflexivity.
  - reflexivity.
  - vm_compute. split_and!; reflexivity.
  - vm_compute. reflexivity.
  - vm_compute. reflexivity.
  - reflexivity.
  - vm_compute. reflexivity.
  - discriminate.
  - discriminate.
  - intros [x Hx]. vm_compute in Hx. discriminate Hx.
Defined.
