(* ===== verification/Diagnostics.v ===== *)
(** * Diagnostics: the radio's self-test (cat-diagnostics/src/engine.rs)

    Every command of a table is probed in its read form or skipped.  The
    deadline is an argument: [late n] gives the session a cancelled exchange
    left behind when probe [n] was not answered in time.  The theorems show
    that a run reads and never writes, whatever the radio answers. *)

From S2P Require Import Prelude Text Utf8 Framework Client.
From S2P Require Broker.

Definition DEFAULT_COMMAND_TIMEOUT : Z := 2000000000.
Record DiagnosticConfig : Type := mk_DiagnosticConfig { per_command_timeout : Z }.
Definition config_default : DiagnosticConfig := mk_DiagnosticConfig DEFAULT_COMMAND_TIMEOUT.

Inductive CommandResult : Type :=
| Success (response : text) | Failure (m : bytes) | Timeout | Skipped (reason : string).
Definition is_success (r : CommandResult) : bool := match r with Success _ => true | _ => false end.
Definition is_failure (r : CommandResult) : bool := match r with Failure _ | Timeout => true | _ => false end.
Definition is_skipped (r : CommandResult) : bool := match r with Skipped _ => true | _ => false end.

Abbreviation Ascii := (Code (F := AsciiLineFormat)).

Section Run.
  Context {C S E : Type} `{!CatSession S E} (show_E : E -> bytes).

Record CommandOutcome : Type := mk_CommandOutcome {
  out_id : C; out_code : Ascii; out_name : string; out_request : bytes; out_result : CommandResult; latency : Z }.
Definition DiagnosticReport : Type := list CommandOutcome.
Definition total (r : DiagnosticReport) : nat := length r.
Definition passed (r : DiagnosticReport) : nat := length (List.filter (fun o => is_success o.(out_result)) r).
Definition failed (r : DiagnosticReport) : nat := length (List.filter (fun o => is_failure o.(out_result)) r).
Definition skipped (r : DiagnosticReport) : nat := length (List.filter (fun o => is_skipped o.(out_result)) r).

Definition zero : byte := "0"%byte.
Definition choose_probe (d : CommandDefinition C Ascii) : option bytes :=
  if existsb (fun form => bool_decide (form.(operation) = Query) && (form.(min_len) =? 0)%nat && (form.(max_len) =? 0)%nat)
       d.(query_forms)
  then Some []
  else (fun form => repeat zero form.(min_len)) <$> List.find form_selector_read d.(set_forms).

(** The probe of one command under its deadline. *)
Definition probe (late : option S) (c : CatClient AsciiLineFormat C S) (d : CommandDefinition C Ascii) (params : bytes)
  : CatClient AsciiLineFormat C S * CommandResult :=
  match late with
  | Some s => (with_session c s, Timeout)
  | None =>
      let '(c, r) := query_with_param (E := E) c d.(code) params in
      (c, match r with Ok response => Success response | Err e => Failure (Broker.show_client_error show_E e) end)
  end.
Definition skip_reason : string := "no generic-safe read form (write/action-only command)".
Definition test_command (late : S -> bytes -> option S) (elapsed : Z) (c : CatClient AsciiLineFormat C S) (d : CommandDefinition C Ascii)
  : CatClient AsciiLineFormat C S * CommandOutcome :=
  match choose_probe d with
  | None => (c, mk_CommandOutcome d.(id) d.(code) d.(name) [] (Skipped skip_reason) 0)
  | Some params =>
      let request := d.(code) ++ params ++ [semicolon] in
      let '(c, r) := probe (late c.(session) request) c d params in
      (c, mk_CommandOutcome d.(id) d.(code) d.(name) request r elapsed)
  end.
(** [run_diagnostics_with]; each outcome is shown to the callback as it is
    added to the report. *)
Fixpoint run_diagnostics_with (late : nat -> S -> bytes -> option S) (elapsed : nat -> Z) (n : nat)
    (c : CatClient AsciiLineFormat C S) (defs : CommandTable C Ascii) : CatClient AsciiLineFormat C S * DiagnosticReport :=
  match defs with
  | [] => (c, [])
  | d :: defs =>
      let '(c, o) := test_command (late n) (elapsed n) c d in
      let '(c, r) := run_diagnostics_with late elapsed (Datatypes.S n) c defs in
      (c, o :: r)
  end.
Definition run_diagnostics (late : nat -> S -> bytes -> option S) (elapsed : nat -> Z)
    (c : CatClient AsciiLineFormat C S) (defs : CommandTable C Ascii) : CatClient AsciiLineFormat C S * DiagnosticReport :=
  run_diagnostics_with late elapsed 0 c defs.
End Run.
Arguments CommandOutcome : clear implicits.
Arguments DiagnosticReport : clear implicits.

(** ** Reading only *)

Section Reads.
  Context {C S E : Type} `{!CatSession S E} (show_E : E -> bytes).
  Implicit Types (t : CommandTable C Ascii) (d : CommandDefinition C Ascii).

(** The engine takes the frame for a read of a command of the table. *)
Definition reads t (frame : bytes) : Prop :=
  exists req d, parse t ascii_line frame = Ok req /\ table_find t req.(req_code) = Some d
  /\ Broker.is_read d req.(req_operation) (length req.(parameters)) = Some true.
(** A selector form, as [CommandForm::selector_read] makes it, of at least one digit. *)
Definition selectors_ok d : Prop :=
  Forall (fun f => f.(form_selector_read) = true -> f.(operation) = Set_ /\ (0 < f.(min_len) <= f.(max_len))%nat) d.(set_forms).

(** The two read forms that need no knowledge of the radio: the command alone,
    and the command with a selector. *)
Definition bare_query d : Prop :=
  exists f, f ∈ d.(query_forms) /\ f.(operation) = Query /\ f.(min_len) = 0%nat /\ f.(max_len) = 0%nat.
Definition selected_by d (n : nat) : Prop :=
  exists f, f ∈ d.(set_forms) /\ f.(form_selector_read) = true /\ f.(min_len) = n.
(** What the report says of a command: skipped, with nothing sent, exactly when
    it has neither form; otherwise the request sent is the command alone where
    it has that form, and the command with a selector of zeros where not, and
    it is a read. *)
Definition reported t d (o : CommandOutcome C) : Prop :=
  o.(out_id) = d.(id) /\ o.(out_code) = d.(code) /\ o.(out_name) = d.(name) /\
  (is_skipped o.(out_result) = true <-> ~ bare_query d /\ forall n, ~ selected_by d n) /\
  (is_skipped o.(out_result) = true -> o.(out_request) = []) /\
  (is_skipped o.(out_result) = false -> reads t o.(out_request) /\
     (bare_query d /\ o.(out_request) = d.(code) ++ [semicolon] \/
      ~ bare_query d /\ exists n, selected_by d n /\ o.(out_request) = d.(code) ++ repeat zero n ++ [semicolon])).

Lemma existsb_intro {A} (f : A -> bool) l x : In x l -> f x = true -> existsb f l = true.
Proof. intros H1 H2. apply existsb_exists. eauto. Qed.
Lemma choose_probe_spec d :
  match choose_probe d with
  | None => ~ bare_query d /\ forall n, ~ selected_by d n
  | Some params => bare_query d /\ params = [] \/ ~ bare_query d /\ exists n, selected_by d n /\ params = repeat zero n
  end.
Proof.
  unfold choose_probe. destruct (existsb _ (query_forms d)) eqn:Eq.
  - left. split; [|done]. apply existsb_exists in Eq as (f & Hin & Hf). exists f. split; [by apply list_elem_of_In|].
    apply andb_true_iff in Hf as [[Hf H1]%andb_true_iff H2]. apply bool_decide_eq_true in Hf.
    split; [done|]. by rewrite <- !Nat.eqb_eq.
  - assert (Hb : ~ bare_query d).
    { intros (f & Hin & Hop & Hmin & Hmax). rewrite (existsb_intro _ _ f) in Eq; [done|by apply list_elem_of_In|].
      by rewrite Hop, Hmin, Hmax. }
    destruct (List.find form_selector_read (set_forms d)) as [f|] eqn:Ef; cbn [fmap option_fmap option_map].
    + apply List.find_some in Ef as [Hin Hf]. right. split; [done|]. exists (min_len f). split; [|done]. exists f.
      split; [by apply list_elem_of_In|done].
    + split; [done|]. intros n (f & Hin & Hf & _). apply list_elem_of_In in Hin. by rewrite (List.find_none _ _ Ef f Hin) in Hf.
Qed.
Lemma classify_probe d params :
  selectors_ok d -> choose_probe d = Some params ->
  exists op, classify d params = Ok op /\ Broker.is_read d op (length params) = Some true.
Proof.
  intros Hs. unfold choose_probe. destruct (existsb _ (query_forms d)) eqn:Eq.
  - intros [= <-]. exists Query. split; [|done]. apply existsb_exists in Eq as (f & Hin & Hf).
    unfold classify. cbn [length]. replace (supports d Query 0) with true; [done|]. symmetry.
    apply existsb_intro with f; [done|]. unfold matches. by destruct (bool_decide _), (min_len f), (max_len f).
  - destruct (List.find form_selector_read (set_forms d)) as [f|] eqn:Ef; [|done]. intros [= <-].
    apply List.find_some in Ef as [Hin Hf]. destruct (proj1 (Forall_forall _ _) Hs f) as [Hop Hlen]; [by apply list_elem_of_In|done|].
    assert (Hm : matches f Set_ (min_len f) = true).
    { unfold matches. rewrite bool_decide_true by done. cbn [andb]. apply andb_true_iff. rewrite !Nat.leb_le. lia. }
    unfold classify. rewrite repeat_length. destruct (supports d Query (min_len f)); [by exists Query|].
    destruct (min_len f) as [|n] eqn:En; [lia|]. cbn [repeat andb].
    replace (supports d Set_ (Datatypes.S n)) with true by (symmetry; by apply existsb_intro with f).
    exists Set_. split; [done|]. cbn [Broker.is_read].
    replace (is_selector_read d (Datatypes.S n)) with true; [done|]. symmetry. apply existsb_intro with f; [done|]. by rewrite Hm, Hf.
Qed.
Lemma probe_reads t d params :
  ascii_addressable t d -> selectors_ok d -> choose_probe d = Some params -> reads t (d.(code) ++ params ++ [semicolon]).
Proof.
  intros Ha Hs Hp. destruct (classify_probe d params Hs Hp) as (op & Hc & Hr).
  exists (mk_CommandRequest d.(id) d.(code) op params), d. split; [|split; [apply Ha|done]].
  assert (Hf : find_command ascii_line t (d.(code) ++ params ++ [semicolon]) = Ok (d, params)) by exact (ascii_find_encode t d params Ha).
  unfold parse. rewrite Hf. cbn [result_bind]. by rewrite Hc.
Qed.

Context (I : S -> Prop) (late : nat -> S -> bytes -> option S) (elapsed : nat -> Z).

Lemma probe_keeps t n (c c' : CatClient AsciiLineFormat C S) d params r :
  (forall s frame, I s -> reads t frame -> I (execute (E := E) s frame).1.1) ->
  (forall n s frame s', I s -> reads t frame -> late n s frame = Some s' -> I s') ->
  I c.(session) -> reads t (d.(code) ++ params ++ [semicolon]) ->
  probe (E := E) show_E (late n c.(session) (d.(code) ++ params ++ [semicolon])) c d params = (c', r) ->
  I c'.(session) /\ is_skipped r = false.
Proof.
  intros Hx Hl Hi Hr. unfold probe. destruct (late n (session c) _) as [s|] eqn:El.
  { intros [= <- <-]. split; [by eapply Hl|done]. }
  unfold query_with_param. destruct (validate_code c (code d)) as [meta|e]; [|intros [= <- <-]; by split].
  destruct (negb (is_readable meta)); [intros [= <- <-]; by split|].
  unfold execute_query, execute_query_bytes. specialize (Hx (session c) _ Hi Hr).
  change (encode_request (format c) (code d) params) with (d.(code) ++ params ++ [semicolon]).
  destruct (execute (session c) _) as [[s b] res]. cbn in Hx.
  intros H. apply pair_equal_spec in H as [<- <-]. cbn. split; [done|]. by destruct (result_map _ _).
Qed.
Lemma test_command_spec t n (c c' : CatClient AsciiLineFormat C S) d o :
  ascii_addressable t d -> selectors_ok d ->
  (forall s frame, I s -> reads t frame -> I (execute (E := E) s frame).1.1) ->
  (forall n s frame s', I s -> reads t frame -> late n s frame = Some s' -> I s') ->
  I c.(session) -> test_command (E := E) show_E (late n) (elapsed n) c d = (c', o) ->
  I c'.(session) /\ reported t d o.
Proof.
  intros Ha Hs Hx Hl Hi. unfold test_command. pose proof (choose_probe_spec d) as Hc.
  destruct (choose_probe d) as [params|] eqn:Hp.
  2: { intros [= <- <-]. split; [done|]. destruct Hc as [Hb Hn]. unfold reported. cbn.
       do 3 (split; [done|]). split; [done|]. by split. }
  destruct (probe show_E _ c d params) as [c1 r] eqn:Er. intros H. apply pair_equal_spec in H as [<- <-].
  pose proof (probe_reads t d params Ha Hs Hp) as Hr.
  destruct (probe_keeps t n c c1 d params r Hx Hl Hi Hr Er) as [Hi1 Hk]. split; [done|].
  unfold reported. cbn [out_id out_code out_name out_request out_result]. rewrite Hk.
  do 3 (split; [done|]). split; [|split; [done|]].
  - split; [done|]. intros [Hb Hn]. exfalso. destruct Hc as [[? _]|(_ & k & Hk' & _)]; [done|by apply (Hn k)].
  - intros _. split; [done|]. destruct Hc as [[? ->]|(? & k & ? & ->)]; [by left|right; eauto].
Qed.

Lemma counts_add (r : list (CommandOutcome C)) : total r = (passed r + failed r + skipped r)%nat.
Proof. induction r as [|o r IH]; [done|]. unfold total, passed, failed, skipped in *. cbn. rewrite IH. destruct (out_result o); cbn; lia. Qed.

Lemma run_spec t n : forall defs (c c' : CatClient AsciiLineFormat C S) r,
  Forall (fun d => ascii_addressable t d /\ selectors_ok d) defs ->
  (forall s frame, I s -> reads t frame -> I (execute (E := E) s frame).1.1) ->
  (forall n s frame s', I s -> reads t frame -> late n s frame = Some s' -> I s') ->
  I c.(session) -> run_diagnostics_with (E := E) show_E late elapsed n c defs = (c', r) ->
  I c'.(session) /\ Forall2 (reported t) defs r.
Proof.
  intros defs. revert n. induction defs as [|d defs IH]; intros n c c' r Hok Hx Hl Hi; cbn [run_diagnostics_with].
  { intros [= <- <-]. by split; [|constructor]. }
  apply Forall_cons in Hok as [[Ha Hs] Hok]. destruct (test_command _ _ _ c d) as [c1 o] eqn:Et.
  destruct (test_command_spec t n c c1 d o Ha Hs Hx Hl Hi Et) as (Hi1 & Ho).
  destruct (run_diagnostics_with _ _ _ _ c1 defs) as [c2 r2] eqn:Er. intros [= <- <-].
  destruct (IH (Datatypes.S n) c1 c2 r2 Hok Hx Hl Hi1 Er) as [Hi2 Hr]. split; [done|]. by constructor.
Qed.
End Reads.

(** C40. A diagnostic run reads and never writes, whatever the radio answers and
    however often it answers too late: what survives the reads of the table,
    completed or cancelled, survives the run.  The report has one outcome per
    command, in the order of the table, each counted once.  A command is
    skipped, nothing being sent, exactly when it has neither a query form of no
    width nor a selector form; the others are asked by the command alone, or
    with a selector of zeros, a request the table itself takes for a read. *)
Theorem diagnostics_only_read {C S E} `{!CatSession S E} (show_E : E -> bytes) (I : S -> Prop)
    (late : nat -> S -> bytes -> option S) (elapsed : nat -> Z) (t : CommandTable C Ascii)
    (c c' : CatClient AsciiLineFormat C S) r :
  Forall (fun d => ascii_addressable t d /\ selectors_ok d) t ->
  (forall s frame, I s -> reads t frame -> I (execute (E := E) s frame).1.1) ->
  (forall n s frame s', I s -> reads t frame -> late n s frame = Some s' -> I s') ->
  I c.(session) -> run_diagnostics (E := E) show_E late elapsed c t = (c', r) ->
  I c'.(session)
  /\ Forall2 (reported t) t r
  /\ total r = (passed r + failed r + skipped r)%nat.
Proof.
  intros Hok Hx Hl Hi Hr. destruct (run_spec show_E I late elapsed t 0 t c c' r Hok Hx Hl Hi Hr) as [H1 H2].
  split; [done|]. split; [done|apply counts_add].
Qed.

(** ** A bench *)

(** A frequency that can be read and set, a meter read by its number, and the
    transmitter, which can only be keyed. *)
Definition bench_table : CommandTable nat Ascii :=
  [example_definition;
   mk_CommandDefinition 1%nat (as_bytes "RM" : Ascii) "Meter" "a meter" [] [selector_read 1] [] [] true false;
   mk_CommandDefinition 2%nat (as_bytes "TX" : Ascii) "Transmit" "key the transmitter" [] [] [fixed Action 0] [] false true].
Definition bench_client : CatClient AsciiLineFormat nat Recorder :=
  mk_CatClient (mk_Recorder [] (fun b => b)) bench_table ascii_line.
Lemma bench_table_ok : Forall (fun d => ascii_addressable bench_table d /\ selectors_ok d) bench_table.
Proof.
  repeat constructor; cbn; try done; try lia.
Qed.
Lemma diagnostics_only_read_witness :
  let c := (run_diagnostics (E := string) as_bytes (fun _ _ _ => None) (fun _ => 0) bench_client bench_table).1 in
  Forall (reads bench_table) c.(session).(log).
Proof.
  destruct (run_diagnostics (E := string) as_bytes (fun _ _ _ => None) (fun _ => 0) bench_client bench_table) as [c r] eqn:E.
  apply (diagnostics_only_read (E := string) as_bytes (fun s => Forall (reads bench_table) s.(log)) (fun _ _ _ => None) (fun _ => 0)
           bench_table bench_client c r bench_table_ok).
  - intros s frame Hs Hf. cbn. apply Forall_app. split; [exact Hs|]. constructor; [exact Hf|constructor].
  - intros n s frame s' _ _ H. discriminate.
  - constructor.
  - exact E.
Defined.
Example bench_run :
  let '(c, r) := run_diagnostics (E := string) as_bytes (fun _ _ _ => None) (fun _ => 0) bench_client bench_table in
  c.(session).(log) = [as_bytes "FA;"; as_bytes "RM0;"] /\ passed r = 2%nat /\ skipped r = 1%nat.
Proof. vm_compute. repeat split. Qed.
(** A command that is read with a three-digit address, as the framework's own
    tables have it: a read of the table, but not one the engine tries. *)
Definition addressed_query : CommandDefinition nat Ascii :=
  mk_CommandDefinition 3%nat (as_bytes "EX" : Ascii) "Menu" "a menu item" [fixed Query 3] [] [] [] true false.
(** The report calls it a command that can only be written or acted on. *)
Theorem addressed_query_skipped :
  reads [addressed_query] (as_bytes "EX000;")
  /\ (run_diagnostics (E := string) as_bytes (fun _ _ _ => None) (fun _ => 0)
        (mk_CatClient (mk_Recorder [] (fun b => b)) [addressed_query] ascii_line) [addressed_query]).2
     = [mk_CommandOutcome 3%nat (as_bytes "EX" : Ascii) "Menu" [] (Skipped skip_reason) 0].
Proof.
  split; [|vm_compute; reflexivity].
  eexists _, addressed_query. split; [vm_compute; reflexivity|].
  repeat split; vm_compute; reflexivity.
Qed.
