(* ===== verification/Server.v ===== *)
(** * Server: the network listeners in front of the broker
    (cat-server/src/registry.rs, dedup.rs, udp.rs, tcp.rs)

    The registry of clients, the server's deduplication cache, the datagram
    handler with its tasks in flight, and the connection loop.  What the
    broker answers is a parameter here: [Broker] says what it is. *)

From stdpp Require Import gmap.
From S2P Require Import Prelude Text Utf8 Framework Client Tcp Udp Broker.

(** ** Registry *)

Record ClientRegistry : Type := mk_ClientRegistry { next_id : Z; active : gset Z }.
Definition registry_new : ClientRegistry := mk_ClientRegistry 0 ∅.
Definition register (r : ClientRegistry) : ClientRegistry * ClientId :=
  (mk_ClientRegistry (wrapping_add_u64 r.(next_id) 1) ({[ r.(next_id) ]} ∪ r.(active)), r.(next_id)).
Definition unregister (r : ClientRegistry) (id : ClientId) : ClientRegistry :=
  mk_ClientRegistry r.(next_id) (r.(active) ∖ {[ id ]}).
Definition is_active (r : ClientRegistry) (id : ClientId) : bool := bool_decide (id ∈ r.(active)).
Definition active_count (r : ClientRegistry) : nat := size r.(active).

(** Ids still to be given out are fresh: they are handed out in order. *)
Definition registry_ok (r : ClientRegistry) : Prop :=
  0 <= r.(next_id) < 2 ^ 64 /\ forall id, id ∈ r.(active) -> 0 <= id < r.(next_id).

Lemma register_ok r :
  registry_ok r -> r.(next_id) + 1 < 2 ^ 64 ->
  registry_ok (register r).1 /\ is_active r (register r).2 = false
  /\ is_active (register r).1 (register r).2 = true.
Proof.
  intros [Hn Ha] Hlt. unfold register, is_active, registry_ok, wrapping_add_u64. cbn.
  rewrite Z.mod_small by lia. split_and!; [lia..| | |].
  - intros id Hid. apply elem_of_union in Hid as [->%elem_of_singleton|Hid]; [lia|].
    specialize (Ha id Hid). lia.
  - apply bool_decide_eq_false_2. intros Hin. specialize (Ha _ Hin). lia.
  - apply bool_decide_eq_true_2, elem_of_union_l, elem_of_singleton_2. done.
Qed.

(** ** The deduplication cache *)

Definition SERVER_DEDUP_CAPACITY : nat := 256.
(** Peer address, session id, request id. *)
Definition DedupKey : Type := Z * Z * Z.
Record DedupCache : Type := mk_DedupCache { order : list DedupKey; responses : gmap DedupKey bytes }.
Definition dedup_new : DedupCache := mk_DedupCache [] ∅.
Definition dedup_get (c : DedupCache) (k : DedupKey) : option bytes := c.(responses) !! k.
Definition dedup_insert (c : DedupCache) (k : DedupKey) (r : bytes) : DedupCache :=
  match c.(responses) !! k with
  | Some _ => mk_DedupCache c.(order) (<[k := r]> c.(responses))
  | None =>
      let '(o, m) :=
        if (SERVER_DEDUP_CAPACITY <=? length c.(order))%nat then
          match c.(order) with
          | oldest :: o => (o, delete oldest c.(responses))
          | [] => (c.(order), c.(responses))
          end
        else (c.(order), c.(responses)) in
      mk_DedupCache (o ++ [k]) (<[k := r]> m)
  end.

(** The map holds exactly the keys of the queue, each once, at most 256. *)
Definition dedup_ok (c : DedupCache) : Prop :=
  NoDup c.(order) /\ (length c.(order) <= SERVER_DEDUP_CAPACITY)%nat
  /\ forall k, k ∈ c.(order) <-> is_Some (c.(responses) !! k).

Lemma dedup_new_ok : dedup_ok dedup_new.
Proof.
  split_and!; [apply NoDup_nil_2|cbn; lia|]. intros k. cbn. rewrite lookup_empty.
  split; [by intros ?%elem_of_nil|by intros [??]].
Qed.

Lemma dedup_insert_ok c k r : dedup_ok c -> dedup_ok (dedup_insert c k r).
Proof.
  intros (Hn & Hl & Hd). unfold dedup_insert, SERVER_DEDUP_CAPACITY in *.
  destruct (responses c !! k) as [r0|] eqn:Hk.
  - split_and!; [done|done|]. intros k'. cbn. rewrite Hd.
    destruct (decide (k = k')) as [<-|Hne]; [rewrite lookup_insert_eq, Hk|rewrite lookup_insert_ne by done];
      [split; by eexists|done].
  - assert (Hk' : k ∉ c.(order)). { rewrite Hd, Hk. by intros [??]. }
    assert (Hsnoc : forall o, NoDup o -> k ∉ o -> NoDup (o ++ [k])).
    { intros o Ho Hko. apply NoDup_app. split_and!; [done| |apply NoDup_singleton].
      intros y Hy Hy'. apply list_elem_of_singleton in Hy' as ->. done. }
    assert (Hins : forall o (m : gmap DedupKey bytes), (forall k', k' <> k -> k' ∈ o <-> is_Some (m !! k')) ->
      forall k', k' ∈ o ++ [k] <-> is_Some (<[k:=r]> m !! k')).
    { intros o m Hom k'. rewrite elem_of_app, list_elem_of_singleton. destruct (decide (k' = k)) as [->|Hne].
      - rewrite lookup_insert_eq. split; [by eexists|auto].
      - rewrite lookup_insert_ne, <- Hom by done. tauto. }
    destruct (Nat.leb_spec 256 (length c.(order))) as [Hge|Hlt].
    + destruct c as [[|x o] m]; cbn [order responses length] in *; [lia|].
      apply NoDup_cons in Hn as [Hx Hn]. apply not_elem_of_cons in Hk' as [Hkx Hko]. split_and!; cbn [order responses].
      * auto.
      * unfold SERVER_DEDUP_CAPACITY. rewrite length_app. cbn. lia.
      * apply Hins. intros k' Hne. destruct (decide (k' = x)) as [->|Hnx].
        { rewrite lookup_delete_eq. split; [done|by intros [??]]. }
        rewrite lookup_delete_ne, <- Hd by done. rewrite elem_of_cons. tauto.
    + split_and!; cbn [order responses]; [auto|unfold SERVER_DEDUP_CAPACITY; rewrite length_app; cbn; lia|apply Hins; auto].
Qed.

(** An entry that is not the oldest of a full cache survives an insertion,
    and at most one more entry comes after it. *)
Lemma dedup_insert_keeps c k r k' r' i :
  dedup_ok c -> c.(order) !! i = Some k -> dedup_get c k = Some r -> k' <> k ->
  (length c.(order) < SERVER_DEDUP_CAPACITY \/ 0 < i)%nat ->
  exists j, (dedup_insert c k' r').(order) !! j = Some k /\ dedup_get (dedup_insert c k' r') k = Some r
    /\ (length (dedup_insert c k' r').(order) + i <= S (length c.(order)) + j)%nat.
Proof.
  intros (Hn & Hl & Hd) Hi Hg Hne Hroom. unfold dedup_insert, dedup_get in *.
  destruct (responses c !! k') as [r0|] eqn:Hk'.
  { exists i. cbn. rewrite lookup_insert_ne by done. split_and!; [done|done|lia]. }
  destruct (Nat.leb_spec SERVER_DEDUP_CAPACITY (length c.(order))) as [Hge|Hlt].
  - destruct c as [[|x o] m]; cbn [order responses] in *; [done|]. destruct i as [|i]; [cbn in *; lia|].
    exists i. cbn in Hi |- *. rewrite lookup_app_l by (by eapply lookup_lt_Some).
    assert (k <> x). { intros ->. apply NoDup_cons in Hn as [Hx _]. apply Hx. by eapply list_elem_of_lookup_2. }
    rewrite lookup_insert_ne, lookup_delete_ne by done. rewrite length_app. cbn.
    split_and!; [done|done|lia].
  - exists i. cbn. rewrite lookup_app_l by (by eapply lookup_lt_Some). rewrite lookup_insert_ne by done.
    rewrite length_app. cbn. split_and!; [done|done|lia].
Qed.

Definition insert_all (c : DedupCache) (l : list (DedupKey * bytes)) : DedupCache :=
  fold_left (fun c e => dedup_insert c e.1 e.2) l c.

Lemma insert_all_keeps l : forall c k r i,
  dedup_ok c -> c.(order) !! i = Some k -> dedup_get c k = Some r ->
  Forall (fun e => e.1 <> k) l -> (length c.(order) + length l <= SERVER_DEDUP_CAPACITY + i)%nat ->
  dedup_get (insert_all c l) k = Some r.
Proof.
  induction l as [|[k' r'] l IH]; intros c k r i Hok Hi Hg Hl Hlen; [done|].
  apply Forall_cons_1 in Hl as [Hne Hl]. cbn [length fst snd insert_all fold_left] in *.
  destruct (dedup_insert_keeps c k r k' r' i Hok Hi Hg Hne) as (j & Hj & Hgj & Hlj); [lia|].
  apply (IH _ k r j); [by apply dedup_insert_ok|done|done|done|lia].
Qed.

Lemma insert_all_ok l : forall c, dedup_ok c -> dedup_ok (insert_all c l).
Proof. induction l as [|e l IH]; intros c Hok; [done|]. apply IH. by apply dedup_insert_ok. Qed.

Lemma dedup_insert_fresh c k r :
  dedup_get c k = None ->
  exists o, (dedup_insert c k r).(order) = o ++ [k] /\ dedup_get (dedup_insert c k r) k = Some r.
Proof.
  intros Hg. unfold dedup_insert, dedup_get in *. rewrite Hg.
  destruct (_ <=? _)%nat, c.(order) as [|x o]; eexists; (split; [reflexivity|apply lookup_insert_eq]).
Qed.

(** The server's cache replays: from any sequence of insertions, a newly
    cached response is found under its key, unchanged, until 256 further
    responses have been cached; the cache never holds more than 256, and its
    map and its queue never disagree. *)
Theorem dedup_replays before k r l :
  let c := insert_all dedup_new before in
  dedup_get c k = None -> Forall (fun e => e.1 <> k) l -> (length l < SERVER_DEDUP_CAPACITY)%nat ->
  dedup_get (insert_all (dedup_insert c k r) l) k = Some r
  /\ dedup_ok (insert_all (dedup_insert c k r) l).
Proof.
  intros c Hg Hl Hlen. assert (Hok : dedup_ok c) by apply insert_all_ok, dedup_new_ok.
  assert (Hok' : dedup_ok (dedup_insert c k r)) by by apply dedup_insert_ok.
  split; [|by apply insert_all_ok].
  destruct (dedup_insert_fresh c k r Hg) as (o & Ho & Hgr). apply (insert_all_keeps l _ k r (length o)); try done.
  - rewrite Ho, lookup_app_r, Nat.sub_diag by lia. done.
  - rewrite Ho, length_app. cbn [length]. lia.
Qed.

Lemma dedup_replays_witness :
  dedup_get (insert_all (dedup_insert (insert_all dedup_new [((1, 1, 1), as_bytes "a")]) (1, 1, 2) (as_bytes "b"))
    [((1, 1, 3), as_bytes "c")]) (1, 1, 2) = Some (as_bytes "b")
  /\ dedup_ok (insert_all (dedup_insert (insert_all dedup_new [((1, 1, 1), as_bytes "a")]) (1, 1, 2) (as_bytes "b"))
    [((1, 1, 3), as_bytes "c")]).
Proof.
  apply (dedup_replays [((1, 1, 1), as_bytes "a")] (1, 1, 2) (as_bytes "b") [((1, 1, 3), as_bytes "c")]);
    [vm_compute; reflexivity|repeat constructor; discriminate|vm_compute; lia].
Defined.

(** ** The datagram listener *)

(** A task waiting for the broker's answer. *)
Record InFlight : Type := mk_InFlight { fl_from : Z; fl_session : Z; fl_request : Z }.
Definition fl_key (t : InFlight) : DedupKey := (t.(fl_from), t.(fl_session), t.(fl_request)).

(** [submitted] is what the broker was given, in order. *)
Record UdpServer : Type := mk_UdpServer {
  dedup : DedupCache;
  registry : ClientRegistry;
  peer_ids : gmap Z ClientId;
  tasks : list InFlight;
  submitted : list (ClientId * DedupKey * bytes);
  sent_to : list (Z * bytes) }.
Definition server_new : UdpServer := mk_UdpServer dedup_new registry_new ∅ [] [] [].

Definition TOO_LARGE : bytes := as_bytes "ERR response too large to send".
(** What [send_envelope] puts on the wire; the fallback's [expect] holds. *)
Definition response_datagram (session_id request_id : Z) (payload : bytes) : bytes :=
  match encode_envelope session_id request_id payload with
  | Ok d => d
  | Err _ => match encode_envelope session_id request_id TOO_LARGE with Ok d => d | Err _ => [] end
  end.
Definition send_envelope (s : UdpServer) (to session_id request_id : Z) (payload : bytes) : UdpServer :=
  mk_UdpServer s.(dedup) s.(registry) s.(peer_ids) s.(tasks) s.(submitted)
    (s.(sent_to) ++ [(to, response_datagram session_id request_id payload)]).

(** [peer_ids.entry(from).or_insert_with(register)]. *)
Definition client_for (s : UdpServer) (from : Z) : UdpServer * ClientId :=
  match s.(peer_ids) !! from with
  | Some id => (s, id)
  | None =>
      let '(r, id) := register s.(registry) in
      (mk_UdpServer s.(dedup) r (<[from := id]> s.(peer_ids)) s.(tasks) s.(submitted) s.(sent_to), id)
  end.

(** [handle_datagram] up to the broker: a cached answer is resent, anything
    else is submitted. *)
Definition handle_datagram (s : UdpServer) (from session_id request_id : Z) (payload : bytes) : UdpServer :=
  match dedup_get s.(dedup) (from, session_id, request_id) with
  | Some cached => send_envelope s from session_id request_id cached
  | None =>
      let '(s, client) := client_for s from in
      mk_UdpServer s.(dedup) s.(registry) s.(peer_ids)
        (s.(tasks) ++ [mk_InFlight from session_id request_id])
        (s.(submitted) ++ [(client, (from, session_id, request_id), payload)]) s.(sent_to)
  end.

(** The loop of [serve], one datagram. *)
Definition serve_datagram (s : UdpServer) (from : Z) (data : bytes) : UdpServer :=
  match decode_envelope (take MAX_DATAGRAM_SIZE data) with
  | None => s
  | Some (session_id, request_id, payload) => handle_datagram s from session_id request_id payload
  end.

(** [handle_datagram] from the broker's answer on, for the task at [n];
    [None] when the broker is gone. *)
Definition finish_task (s : UdpServer) (n : nat) (response : option bytes) : UdpServer :=
  match s.(tasks) !! n with
  | None => s
  | Some t =>
      let rest := take n s.(tasks) ++ drop (S n) s.(tasks) in
      match response with
      | None => mk_UdpServer s.(dedup) s.(registry) s.(peer_ids) rest s.(submitted) s.(sent_to)
      | Some r =>
          send_envelope
            (mk_UdpServer (dedup_insert s.(dedup) (fl_key t) r) s.(registry) s.(peer_ids) rest
               s.(submitted) s.(sent_to))
            t.(fl_from) t.(fl_session) t.(fl_request) r
      end
  end.

Inductive ServerEvent : Type :=
| EvDatagram (from : Z) (data : bytes)
| EvFinish (n : nat) (response : option bytes).
Definition server_step (s : UdpServer) (e : ServerEvent) : UdpServer :=
  match e with
  | EvDatagram from data => serve_datagram s from data
  | EvFinish n response => finish_task s n response
  end.
Definition server_run (s : UdpServer) (l : list ServerEvent) : UdpServer := fold_left server_step l s.
Definition completions (l : list ServerEvent) : nat :=
  length (List.filter (fun e => match e with EvFinish _ _ => true | _ => false end) l).

(** The submissions made for a key. *)
Definition submissions (k : DedupKey) (s : UdpServer) : list (ClientId * DedupKey * bytes) :=
  List.filter (fun x => bool_decide (x.1.2 = k)) s.(submitted).

Lemma handle_datagram_shape s from sid rid payload :
  let s' := handle_datagram s from sid rid payload in
  s'.(dedup) = s.(dedup) /\
  match dedup_get s.(dedup) (from, sid, rid) with
  | Some r => s'.(tasks) = s.(tasks) /\ s'.(submitted) = s.(submitted)
              /\ s'.(sent_to) = s.(sent_to) ++ [(from, response_datagram sid rid r)]
  | None => s'.(tasks) = s.(tasks) ++ [mk_InFlight from sid rid] /\ s'.(sent_to) = s.(sent_to)
            /\ exists c, s'.(submitted) = s.(submitted) ++ [(c, (from, sid, rid), payload)]
  end.
Proof.
  unfold handle_datagram. destruct (dedup_get _ _) as [r|]; [done|].
  unfold client_for. destruct (s.(peer_ids) !! from) as [id|]; cbn; [eauto|].
  split_and!; eauto.
Qed.

Lemma finish_task_shape s n response :
  let s' := finish_task s n response in
  s'.(submitted) = s.(submitted) /\ (forall t, t ∈ s'.(tasks) -> t ∈ s.(tasks)) /\
  ((s'.(dedup) = s.(dedup) /\ s'.(sent_to) = s.(sent_to))
   \/ exists t r, t ∈ s.(tasks) /\ s'.(dedup) = dedup_insert s.(dedup) (fl_key t) r
      /\ s'.(sent_to) = s.(sent_to) ++ [(t.(fl_from), response_datagram t.(fl_session) t.(fl_request) r)]).
Proof.
  unfold finish_task. destruct (s.(tasks) !! n) as [t|] eqn:Ht; [|split_and!; auto].
  assert (Hin : forall x, x ∈ take n s.(tasks) ++ drop (S n) s.(tasks) -> x ∈ s.(tasks)).
  { intros x [Hx|Hx]%elem_of_app; [by eapply elem_of_take in Hx as (? & ?%list_elem_of_lookup_2 & _)|].
    rewrite <- (take_drop (S n)). apply elem_of_app. by right. }
  destruct response as [r|]; cbn; split_and!; auto.
  right. exists t, r. split_and!; [by eapply list_elem_of_lookup_2|done|done].
Qed.

(** [k] is answered: cached at a place that [room] more completions cannot
    push out, and no task can answer it differently. *)
Definition settled (k : DedupKey) (r : bytes) (room : nat) (s : UdpServer) : Prop :=
  dedup_ok s.(dedup) /\ dedup_get s.(dedup) k = Some r /\ Forall (fun t => fl_key t <> k) s.(tasks)
  /\ exists i, s.(dedup).(order) !! i = Some k
     /\ (length s.(dedup).(order) + room <= SERVER_DEDUP_CAPACITY + i)%nat.

Lemma settled_step k r room s e :
  settled k r (completions [e] + room) s ->
  settled k r room (server_step s e) /\ submissions k (server_step s e) = submissions k s.
Proof.
  unfold completions. intros (Hok & Hg & Ht & i & Hi & Hroom). destruct e as [from data|n response]; cbn [completions List.filter length Nat.add] in Hroom; cbn [server_step].
  - unfold serve_datagram. destruct (decode_envelope _) as [[[sid rid] p]|]; [|split; [split_and!|]; eauto].
    destruct (handle_datagram_shape s from sid rid p) as [Hd H].
    unfold settled, submissions. rewrite Hd.
    destruct (dedup_get s.(dedup) (from, sid, rid)) as [r'|] eqn:Hk.
    + destruct H as (-> & -> & _). split; [split_and!|]; eauto.
    + destruct H as (-> & _ & c & ->). assert ((from, sid, rid) <> k) by congruence.
      split; [split_and!; eauto|].
      * apply Forall_app. split; [done|]. by repeat constructor.
      * rewrite List.filter_app. cbn. rewrite bool_decide_eq_false_2 by done. apply app_nil_r.
  - destruct (finish_task_shape s n response) as (Hs & Htk & H). unfold submissions. rewrite Hs.
    split; [|done]. assert (Ht' : Forall (fun t => fl_key t <> k) (finish_task s n response).(tasks)).
    { rewrite Forall_forall in *. auto. }
    unfold settled. destruct H as [[-> _]|(t & r' & Hin & -> & _)].
    + split_and!; [done..|]. exists i. split; [done|lia].
    + assert (Hne : fl_key t <> k) by (rewrite Forall_forall in Ht; auto).
      destruct (dedup_insert_keeps s.(dedup) k r (fl_key t) r' i Hok Hi Hg Hne) as (j & Hj & Hgj & Hlj); [lia|].
      split_and!; [by apply dedup_insert_ok|done|done|]. exists j. split; [done|lia].
Qed.

Lemma settled_run k r evs : forall s,
  settled k r (completions evs) s ->
  settled k r 0 (server_run s evs) /\ submissions k (server_run s evs) = submissions k s.
Proof.
  induction evs as [|e evs IH]; intros s Hs; [done|]. cbn [server_run fold_left].
  destruct (settled_step k r (completions evs) s e) as [H1 H2].
  { revert Hs. unfold completions. cbn. destruct e; done. }
  destruct (IH _ H1) as [H3 H4]. split; [done|]. by rewrite <- H2.
Qed.

(** C21. A completed request is not executed again: once the broker's answer
    to a request has been cached, and no copy of the request was already in
    flight, then through any further traffic with fewer than 256 completions
    no copy of it is submitted to the radio, and a copy that arrives at the
    end of it is answered at once with the same bytes. *)
Theorem completed_request_not_reexecuted s n t r evs data payload :
  let k := fl_key t in
  let s1 := finish_task s n (Some r) in
  let s2 := server_run s1 evs in
  dedup_ok s.(dedup) -> s.(tasks) !! n = Some t -> dedup_get s.(dedup) k = None ->
  Forall (fun t' => fl_key t' <> k) s1.(tasks) -> (completions evs < SERVER_DEDUP_CAPACITY)%nat ->
  decode_envelope (take MAX_DATAGRAM_SIZE data) = Some (t.(fl_session), t.(fl_request), payload) ->
  submissions k s2 = submissions k s
  /\ serve_datagram s2 t.(fl_from) data = send_envelope s2 t.(fl_from) t.(fl_session) t.(fl_request) r.
Proof.
  intros k s1 s2 Hok Ht Hg Hno Hc Hdec.
  assert (H1 : s1.(dedup) = dedup_insert s.(dedup) k r /\ s1.(submitted) = s.(submitted)).
  { subst s1 k. unfold finish_task. by rewrite Ht. }
  destruct H1 as [Hd Hsub]. destruct (dedup_insert_fresh s.(dedup) k r Hg) as (o & Ho & Hgr).
  assert (Hset : settled k r (completions evs) s1).
  { unfold settled. rewrite Hd. split_and!; [by apply dedup_insert_ok|done|done|].
    exists (length o). rewrite Ho, lookup_app_r, Nat.sub_diag, length_app by lia. split; [done|cbn [length]; lia]. }
  destruct (settled_run k r evs s1 Hset) as [(_ & Hg2 & _) Hs2]. split.
  - trans (submissions k s1); [exact Hs2|]. unfold submissions. by rewrite Hsub.
  - unfold serve_datagram. rewrite Hdec. unfold handle_datagram.
    change (t.(fl_from), t.(fl_session), t.(fl_request)) with k. fold s2 in Hg2. by rewrite Hg2.
Qed.

Definition example_request : bytes := envelope_of 7 1 (as_bytes "TX;").
Definition example_server : UdpServer := serve_datagram server_new 9 example_request.

Lemma completed_request_not_reexecuted_witness :
  let s2 := server_run (finish_task example_server 0 (Some (as_bytes "ok"))) [EvDatagram 9 example_request] in
  submissions (9, 7, 1) s2 = submissions (9, 7, 1) example_server
  /\ serve_datagram s2 9 example_request = send_envelope s2 9 7 1 (as_bytes "ok").
Proof.
  apply (completed_request_not_reexecuted example_server 0 (mk_InFlight 9 7 1) (as_bytes "ok")
           [EvDatagram 9 example_request] example_request (as_bytes "TX;"));
    [apply dedup_new_ok|vm_compute; reflexivity|vm_compute; reflexivity|vm_compute; constructor
    |vm_compute; lia|vm_compute; reflexivity].
Defined.

(** But a copy that arrives while the first is still being served is
    executed a second time: the cache is filled only when the broker has
    answered, so the same request, same session id and same request id, is
    submitted to the radio twice. *)
Theorem duplicate_in_flight_reexecuted :
  let s := serve_datagram example_server 9 example_request in
  submissions (9, 7, 1) s = [(0, (9, 7, 1), as_bytes "TX;"); (0, (9, 7, 1), as_bytes "TX;")].
Proof. vm_compute. reflexivity. Qed.

(** ** Where responses go *)

Definition was_submitted (s : UdpServer) (k : DedupKey) : Prop := exists c p, (c, k, p) ∈ s.(submitted).
Definition server_inv (s : UdpServer) : Prop :=
  dedup_ok s.(dedup)
  /\ (forall t, t ∈ s.(tasks) -> was_submitted s (fl_key t))
  /\ (forall k, is_Some (dedup_get s.(dedup) k) -> was_submitted s k)
  /\ (forall a d, (a, d) ∈ s.(sent_to) ->
        exists sid rid p, was_submitted s (a, sid, rid) /\ d = response_datagram sid rid p).

Lemma was_submitted_mono s s' l k :
  s'.(submitted) = s.(submitted) ++ l -> was_submitted s k -> was_submitted s' k.
Proof. intros H (c & p & Hin). exists c, p. rewrite H. apply elem_of_app. by left. Qed.

Lemma dedup_insert_get c k r k' :
  is_Some (dedup_get (dedup_insert c k r) k') -> k' = k \/ is_Some (dedup_get c k').
Proof.
  unfold dedup_get, dedup_insert. intros H. destruct (decide (k' = k)) as [->|Hne]; [by left|]. right. revert H.
  destruct (responses c !! k); [cbn [responses]; by rewrite lookup_insert_ne|].
  destruct (SERVER_DEDUP_CAPACITY <=? length (order c))%nat; [destruct (order c) as [|x o]|];
    cbn [responses]; rewrite lookup_insert_ne by done; try done.
  destruct (decide (k' = x)) as [->|?]; [rewrite lookup_delete_eq; by intros [??]|by rewrite lookup_delete_ne].
Qed.

Lemma server_inv_step s e : server_inv s -> server_inv (server_step s e).
Proof.
  intros (Hok & Ht & Hc & Ha). destruct e as [from data|n response]; cbn [server_step].
  - unfold serve_datagram. destruct (decode_envelope _) as [[[sid rid] p]|]; [|done].
    destruct (handle_datagram_shape s from sid rid p) as [Hd H].
    destruct (dedup_get s.(dedup) (from, sid, rid)) as [r|] eqn:Hk.
    + destruct H as (E1 & E2 & E3). unfold server_inv, was_submitted. rewrite Hd, E1, E2, E3.
      split_and!; try done. intros a d [Hin|Hin]%elem_of_app; [eauto|].
      apply list_elem_of_singleton in Hin as [= -> ->]. exists sid, rid, r. split; [|done]. apply Hc. by eexists.
    + destruct H as (E1 & E3 & c & E2).
      split_and!.
      * by rewrite Hd.
      * intros t. rewrite E1. intros [Hin|Hin]%elem_of_app; [eapply was_submitted_mono; eauto|].
        apply list_elem_of_singleton in Hin as ->. exists c, p. rewrite E2. apply elem_of_app. right.
        by apply list_elem_of_singleton.
      * rewrite Hd. intros k Hg. eapply was_submitted_mono; eauto.
      * rewrite E3. intros a d Hin. destruct (Ha a d Hin) as (s' & r' & p' & Hs & ->).
        exists s', r', p'. split; [|done]. eapply was_submitted_mono; eauto.
  - destruct (finish_task_shape s n response) as (Hs & Htk & H). unfold server_inv, was_submitted. rewrite Hs.
    destruct H as [[E1 E2]|(t & r & Hin & E1 & E2)]; rewrite E1, E2.
    + split_and!; [done|intros t Hin; apply (Ht t (Htk t Hin))|done|done].
    + split_and!; [by apply dedup_insert_ok|intros t' Hin'; apply (Ht t' (Htk t' Hin'))| |].
      * intros k [->|Hg]%dedup_insert_get; [exact (Ht t Hin)|exact (Hc k Hg)].
      * intros a d [Hi|Hi]%elem_of_app; [exact (Ha a d Hi)|]. apply list_elem_of_singleton in Hi as [= -> ->].
        exists t.(fl_session), t.(fl_request), r. split; [|done]. exact (Ht t Hin).
Qed.

(** Answers go where they are due: through any traffic, every datagram the
    server sends goes to an address that asked, and carries the session and
    request ids of a request submitted for that address; it always decodes, so
    a response too long to send is replaced and never cut. *)
Theorem responses_addressed evs a d :
  (a, d) ∈ (server_run server_new evs).(sent_to) ->
  exists sid rid c payload, (c, (a, sid, rid), payload) ∈ (server_run server_new evs).(submitted)
    /\ exists p, d = response_datagram sid rid p
       /\ d = envelope_of sid rid (if (length p <=? MAX_PAYLOAD_SIZE)%nat then p else TOO_LARGE).
Proof.
  intros Hin. assert (Hi : server_inv (server_run server_new evs)).
  { assert (H0 : server_inv server_new).
    { split_and!; [apply dedup_new_ok|by intros t ?%elem_of_nil| |by intros ?? ?%elem_of_nil].
      intros k [r Hr]. unfold dedup_get in Hr. cbn in Hr. by rewrite lookup_empty in Hr. }
    clear Hin. revert H0. generalize server_new. induction evs as [|e evs IH]; intros s Hs; [done|].
    apply IH. by apply server_inv_step. }
  destruct Hi as (_ & _ & _ & Ha). destruct (Ha a d Hin) as (sid & rid & p & (c & payload & Hs) & ->).
  exists sid, rid, c, payload. split; [done|]. exists p. split; [done|].
  unfold response_datagram, encode_envelope. rewrite Nat.leb_antisym.
  by destruct (MAX_PAYLOAD_SIZE <? length p)%nat.
Qed.

Lemma responses_addressed_witness :
  exists sid rid c payload,
    (c, (9, sid, rid), payload)
      ∈ (server_run server_new [EvDatagram 9 example_request; EvFinish 0 (Some (as_bytes "ok"))]).(submitted)
    /\ exists p, envelope_of 7 1 (as_bytes "ok") = response_datagram sid rid p
       /\ envelope_of 7 1 (as_bytes "ok")
          = envelope_of sid rid (if (length p <=? MAX_PAYLOAD_SIZE)%nat then p else TOO_LARGE).
Proof.
  apply (responses_addressed [EvDatagram 9 example_request; EvFinish 0 (Some (as_bytes "ok"))]).
  apply list_elem_of_singleton. vm_compute. reflexivity.
Defined.

(** ** The connection loop *)

(** [B] is the broker, [submit] its answer to a client's request, [None] once
    it is gone; [show_io] is the text of an I/O error. *)
Section Connection.
  Context {T : Type} `{!TcpStream T} {B : Type}.
  Context (submit : B -> ClientId -> bytes -> B * option bytes) (show_io : IoError -> bytes).

Definition show_tcp_error (e : TcpSessionError) : bytes :=
  match e with
  | Io e => as_bytes "I/O error: " ++ show_io e
  | FrameTooLarge len max =>
      as_bytes "frame length " ++ show_dec len ++ as_bytes " exceeds max frame size " ++ show_dec max
      ++ as_bytes " bytes"
  end.

(** At most [k] frames; [None] when [k] or the fuel is used up. *)
Fixpoint connection_loop (k fuel : nat) (s : T) (b : B) (id : ClientId) : option (T * B) :=
  match k with
  | O => None
  | S k =>
      '(s, frame) ← read_frame_or_eof fuel s;
      match frame with
      | Ok (Some payload) =>
          let '(b, answer) := submit b id payload in
          match answer with
          | None => Some (s, b)
          | Some response =>
              let '(s, w) := write_frame s response in
              match w with
              | Err _ => Some (s, b)
              | Ok _ => connection_loop k fuel s b id
              end
          end
      | Ok None => Some (s, b)
      | Err e => let '(s, _) := write_frame s (as_bytes "ERR " ++ show_tcp_error e) in Some (s, b)
      end
  end.

Definition handle_connection (k fuel : nat) (s : T) (b : B) (r : ClientRegistry)
  : option (T * B * ClientRegistry) :=
  let '(r, id) := register r in
  '(s, b) ← connection_loop k fuel s b id;
  Some (s, b, unregister r id).

(** The reference: the requests put to the broker one after the other. *)
Fixpoint submit_all (b : B) (id : ClientId) (ps : list bytes) : B * list bytes :=
  match ps with
  | [] => (b, [])
  | p :: ps =>
      let '(b, answer) := submit b id p in
      let '(b, l) := submit_all b id ps in (b, default [] answer :: l)
  end.

Context `{!TcpStreamLaws T}.
(** The broker is there, and its answers fit a frame. *)
Context (answers : forall b id p, exists b' r, submit b id p = (b', Some r) /\ sendable r).

Lemma connection_loop_frames ps : forall fuel s b id,
  Forall sendable ps -> delivers s (concat (map frame_of ps)) -> (4 + patience s < fuel)%nat ->
  exists s', connection_loop (length ps + 1) fuel s b id = Some (s', (submit_all b id ps).1)
    /\ sent s' = sent s ++ concat (map frame_of (submit_all b id ps).2).
Proof.
  induction ps as [|p ps IH]; intros fuel s b id Hps Hd Hf; cbn [length Nat.add connection_loop map concat] in *.
  - destruct (read_frame_or_eof_cut fuel s [] 0) as (s' & E & Hs);
      [vm_compute; discriminate|rewrite length_frame_of; lia|by rewrite take_0|done|].
    rewrite E. cbn. exists s'. by rewrite app_nil_r.
  - apply Forall_cons_1 in Hps as [Hp Hps].
    destruct (read_frame_or_eof_frame fuel s p _ Hp Hd Hf) as (s1 & E1 & Hd1 & Hp1 & Hs1).
    rewrite E1. cbn [mbind option_bind submit_all].
    destruct (answers b id p) as (b' & r & Es & Hr). rewrite Es.
    unfold write_frame. rewrite encode_frame_spec.
    destruct (Z.leb_spec (Z.of_nat (length r)) MAX_FRAME_SIZE) as [_|]; [|unfold sendable in Hr; lia].
    destruct (write_all_law s1 _ (frame_of r) Hd1) as (s2 & E2 & Hs2 & Hd2 & Hp2). rewrite E2. cbn [map_err].
    destruct (IH fuel s2 b' id Hps Hd2) as (s3 & E3 & Hs3); [lia|]. fold (write_frame (T := T)) in *.
    exists s3. destruct (submit_all b' id ps) as [b3 l]. split; [exact E3|].
    cbn [snd map concat default] in *. by rewrite Hs3, Hs2, Hs1, app_assoc.
Qed.

(** The server answers every frame with exactly one frame: whatever
    requests arrive on a connection and however they are cut up, the loop ends
    when the connection does, the broker has been given exactly those requests
    in order under one client id, what was written back is the frames of its
    answers in the same order, and the client is no longer registered. *)
Theorem connection_answers_every_frame ps fuel (s : T) b r :
  Forall sendable ps -> delivers s (concat (map frame_of ps)) -> (4 + patience s < fuel)%nat ->
  registry_ok r -> r.(next_id) + 1 < 2 ^ 64 ->
  exists s' r', handle_connection (length ps + 1) fuel s b r = Some (s', (submit_all b r.(next_id) ps).1, r')
    /\ sent s' = sent s ++ concat (map frame_of (submit_all b r.(next_id) ps).2)
    /\ r'.(active) = r.(active).
Proof.
  intros Hps Hd Hf Hr Hn. unfold handle_connection, register.
  destruct (connection_loop_frames ps fuel s b r.(next_id) Hps Hd Hf) as (s' & -> & Hs).
  eexists s', _. split_and!; [done|done|]. cbn.
  assert (r.(next_id) ∉ r.(active)). { intros Hin. destruct Hr as [_ Hr]. specialize (Hr _ Hin). lia. }
  apply set_eq. intros x. rewrite elem_of_difference, elem_of_union, elem_of_singleton.
  split; [|intros Hx; split; [by right|intros ->%elem_of_singleton; done]].
  intros [[->|?] Hx]; [|done]. destruct Hx. by apply elem_of_singleton.
Qed.
End Connection.

Definition count_requests (b : nat) (_ : ClientId) (_ : bytes) : nat * option bytes :=
  (S b, Some (as_bytes "?")).

Lemma count_requests_answers b id p :
  exists b' r, count_requests b id p = (b', Some r) /\ sendable r.
Proof. exists (S b), (as_bytes "?"). split; [reflexivity|vm_compute; discriminate]. Qed.
Definition example_connection : Segments :=
  mk_Segments [Some (map u8 [0; 0]); None; Some (map u8 [0; 3; 70; 65; 59])] [].

Lemma connection_answers_every_frame_witness :
  exists s' r', handle_connection count_requests (fun _ => []) 2 10
      example_connection 0%nat registry_new
      = Some (s', 1%nat, r')
    /\ sent s' = map u8 [0; 0; 0; 1; 63] /\ r'.(active) = ∅.
Proof.
  destruct (connection_answers_every_frame count_requests (fun _ => []) count_requests_answers
           [as_bytes "FA;"] 10 example_connection 0%nat registry_new) as (s' & r' & H1 & H2 & H3).
  - constructor; [vm_compute; discriminate|constructor].
  - split; [repeat constructor; discriminate|vm_compute; reflexivity].
  - vm_compute. lia.
  - split; [cbn; lia|]. intros id Hid. exfalso. by apply elem_of_empty in Hid.
  - vm_compute. reflexivity.
  - exists s', r'. split_and!; [exact H1|rewrite H2; vm_compute; reflexivity|exact H3].
Defined.
