(* ===== verification/Morse.v ===== *)
(** * Morse: the code table and its tokenizer (cat-morse/src/codec.rs)

    [pattern]/[decode_group_with] between tokens and element groups,
    [tokenize]/[tokens_to_text] between text and tokens. *)

From S2P Require Import Prelude Text.

Inductive Element : Type := Dit | Dah.
Inductive Prosign : Type := Ar | Sk | Bt | Kn | As | Hh | Sos.
Inductive Token : Type :=
| TChar (c : char)
| TProsign (p : Prosign)
| WordSpace.
Inductive DecodeStyle : Type := Prosigns | Characters.
Inductive CodecError : Type :=
| UnknownChar (ch : char) (offset : Z)
| UnknownProsign (name : text) (offset : Z)
| UnterminatedProsign (offset : Z).

#[export] Instance Element_eq_dec : EqDecision Element.
Proof. solve_decision. Defined.
#[export] Instance Prosign_eq_dec : EqDecision Prosign.
Proof. solve_decision. Defined.
#[export] Instance Token_eq_dec : EqDecision Token.
Proof. solve_decision. Defined.

Definition ALL : list Prosign := [Ar; Sk; Bt; Kn; As; Hh; Sos].

Definition prosign_name (p : Prosign) : text :=
  txt match p with
      | Ar => "AR" | Sk => "SK" | Bt => "BT" | Kn => "KN" | As => "AS" | Hh => "HH" | Sos => "SOS"
      end.

Definition from_name (name : text) : option Prosign :=
  List.find (fun p => eq_ignore_ascii_case (prosign_name p) name) ALL.

(** The code point of a one-character literal. *)
Definition ch (s : string) : char := match txt s with c :: _ => c | [] => 0 end.
#[global] Arguments ch : simpl never.

Definition prosign_display (p : Prosign) : text := ch "<" :: prosign_name p ++ [ch ">"].
Definition token_display (t : Token) : text :=
  match t with
  | TChar c => [c]
  | TProsign p => prosign_display p
  | WordSpace => [space]
  end.

Definition TEXT_TABLE : list (Token * string) :=
  [(TChar (ch "A"), ".-"); (TChar (ch "B"), "-..."); (TChar (ch "C"), "-.-.");
   (TChar (ch "D"), "-.."); (TChar (ch "E"), "."); (TChar (ch "F"), "..-.");
   (TChar (ch "G"), "--."); (TChar (ch "H"), "...."); (TChar (ch "I"), "..");
   (TChar (ch "J"), ".---"); (TChar (ch "K"), "-.-"); (TChar (ch "L"), ".-..");
   (TChar (ch "M"), "--"); (TChar (ch "N"), "-."); (TChar (ch "O"), "---");
   (TChar (ch "P"), ".--."); (TChar (ch "Q"), "--.-"); (TChar (ch "R"), ".-.");
   (TChar (ch "S"), "..."); (TChar (ch "T"), "-"); (TChar (ch "U"), "..-");
   (TChar (ch "V"), "...-"); (TChar (ch "W"), ".--"); (TChar (ch "X"), "-..-");
   (TChar (ch "Y"), "-.--"); (TChar (ch "Z"), "--.."); (TChar (ch "0"), "-----");
   (TChar (ch "1"), ".----"); (TChar (ch "2"), "..---"); (TChar (ch "3"), "...--");
   (TChar (ch "4"), "....-"); (TChar (ch "5"), "....."); (TChar (ch "6"), "-....");
   (TChar (ch "7"), "--..."); (TChar (ch "8"), "---.."); (TChar (ch "9"), "----.");
   (TChar (ch "."), ".-.-.-"); (TChar (ch ","), "--..--"); (TChar (ch "?"), "..--..");
   (TChar (ch "/"), "-..-."); (TChar (ch "="), "-...-"); (TChar (ch "-"), "-....-");
   (TChar (ch "'"), ".----."); (TChar (ch ":"), "---..."); (TChar 34, ".-..-.");
   (TChar (ch "("), "-.--."); (TChar (ch ")"), "-.--.-"); (TChar (ch "@"), ".--.-.");
   (TChar (ch "+"), ".-.-."); (TChar (ch "!"), "-.-.--"); (TChar (ch "&"), ".-...");
   (TProsign Ar, ".-.-."); (TProsign Sk, "...-.-"); (TProsign Bt, "-...-");
   (TProsign Kn, "-.--."); (TProsign As, ".-..."); (TProsign Hh, "........");
   (TProsign Sos, "...---...")]%string.

Definition SHARED_PATTERNS : list (Prosign * char) :=
  [(Bt, ch "="); (Ar, ch "+"); (Kn, ch "("); (As, ch "&")].

(** [table_storage]: the table with its patterns read as elements. *)
Definition table_storage : list (Token * list Element) :=
  Eval vm_compute in
  map (fun '(t, s) => (t, map (fun c => if c =? ch "." then Dit else Dah) (txt s))) TEXT_TABLE.

Definition upper_token (t : Token) : Token :=
  match t with TChar c => TChar (to_ascii_uppercase c) | other => other end.

Definition pattern (token : Token) : option (list Element) :=
  let token := upper_token token in
  snd <$> List.find (fun '(t, _) => bool_decide (t = token)) table_storage.

#[global] Arguments pattern : simpl never.
#[global] Arguments from_name : simpl never.

Definition canonical (token : Token) : Token :=
  match token with
  | TChar c =>
      let c := to_ascii_uppercase c in
      match List.find (fun '(_, chr) => chr =? c) SHARED_PATTERNS with
      | Some (p, _) => TProsign p
      | None => TChar c
      end
  | other => other
  end.

(** [decode_group_with]: the loop over the table, [found] its accumulator. *)
Definition wanted (style : DecodeStyle) (t : Token) : bool :=
  match style, t with
  | Prosigns, TProsign _ | Characters, TChar _ => true
  | _, _ => false
  end.
Fixpoint decode_group_loop (elements : list Element) (style : DecodeStyle) (found : option Token)
    (table : list (Token * list Element)) : option Token :=
  match table with
  | [] => found
  | (t, e) :: table =>
      if bool_decide (e = elements) then
        if wanted style t then Some t
        else decode_group_loop elements style
               (match found with Some _ => found | None => Some t end) table
      else decode_group_loop elements style found table
  end.
Definition decode_group_with (elements : list Element) (style : DecodeStyle) : option Token :=
  decode_group_loop elements style None table_storage.
Definition decode_group (elements : list Element) : option Token :=
  decode_group_with elements Prosigns.

(** The inner loop of [tokenize]: characters up to the closing bracket, with
    the rest of the input and the byte offset reached. *)
Fixpoint read_name (name t : text) (offset : Z) : option (text * text * Z) :=
  match t with
  | [] => None
  | c :: t =>
      if c =? ch ">" then Some (name, t, offset + len_utf8 c)
      else read_name (name ++ [c]) t (offset + len_utf8 c)
  end.

(** [tokenize]: the [while let] loop.  Each round consumes at least one
    character, so as much fuel as there are characters is enough; [None] is
    running out of fuel. *)
Fixpoint tokenize_loop (fuel : nat) (out : list Token) (pending_space : bool) (offset : Z) (t : text)
    : option (result (list Token) CodecError) :=
  match t with
  | [] => Some (Ok out)
  | c :: t =>
      match fuel with
      | O => None
      | S fuel =>
          let next := offset + len_utf8 c in
          if is_whitespace c then
            tokenize_loop fuel out (negb (bool_decide (out = []))) next t
          else
            let emit token t next :=
              tokenize_loop fuel (out ++ (if pending_space then [WordSpace; token] else [token]))
                false next t in
            if c =? ch "<" then
              match read_name [] t next with
              | None => Some (Err (UnterminatedProsign offset))
              | Some (name, t, next) =>
                  match from_name name with
                  | Some p => emit (TProsign p) t next
                  | None => Some (Err (UnknownProsign name offset))
                  end
              end
            else
              let up := to_ascii_uppercase c in
              match pattern (TChar up) with
              | None => Some (Err (UnknownChar c offset))
              | Some _ => emit (TChar up) t next
              end
      end
  end.
Definition tokenize_fuel (t : text) : option (result (list Token) CodecError) :=
  tokenize_loop (length t) [] false 0 t.
Definition tokenize (t : text) : result (list Token) CodecError :=
  default (Ok []) (tokenize_fuel t).

Definition encode (t : text) : result (list (Token * list Element)) CodecError :=
  result_map (map (fun t => (t, default [] (pattern t)))) (tokenize t).

Definition tokens_to_text (tokens : list Token) : text := concat (map token_display tokens).

Definition elements_to_string (elements : list Element) : text :=
  map (fun e => match e with Dit => ch "." | Dah => ch "-" end) elements.

(** ** Totality of the tokenizer *)

Lemma read_name_length t : forall name off name' rest off',
  read_name name t off = Some (name', rest, off') -> (length rest < length t)%nat.
Proof.
  induction t as [|c t IH]; intros *; cbn; [done|].
  destruct (c =? ch ">"); [intros ?; simplify_eq; lia|]. intros H%IH. lia.
Qed.

Lemma tokenize_loop_total fuel : forall out ps off t,
  (length t <= fuel)%nat -> is_Some (tokenize_loop fuel out ps off t).
Proof.
  induction fuel as [|fuel IH]; intros out ps off [|c t] Hlen; cbn [tokenize_loop length] in *;
    try done; [lia|].
  destruct (is_whitespace c); [apply IH; lia|].
  destruct (c =? ch "<").
  - destruct (read_name [] t _) as [[[name rest] off']|] eqn:E; [|done].
    apply read_name_length in E. destruct (from_name name); [apply IH; lia|done].
  - destruct (pattern _); [apply IH; lia|done].
Qed.

(** The tokenizer's loop ends within one round per character. *)
Theorem tokenize_terminates t : tokenize_fuel t = Some (tokenize t).
Proof.
  unfold tokenize. destruct (tokenize_loop_total (length t) [] false 0 t) as [r Hr]; [lia|].
  unfold tokenize_fuel. by rewrite Hr.
Qed.

(** ** The table *)

Lemma pattern_upper c : to_ascii_uppercase (to_ascii_uppercase c) = to_ascii_uppercase c.
Proof.
  unfold to_ascii_uppercase. destruct ((97 <=? c) && (c <=? 122)) eqn:E; [|by rewrite E].
  replace ((97 <=? c - 32) && (c - 32 <=? 122)) with false by lia. done.
Qed.

Lemma pattern_In t e : pattern t = Some e -> (upper_token t, e) ∈ table_storage.
Proof.
  unfold pattern. destruct (List.find _ _) as [[t' e']|] eqn:E; cbn; [|done].
  intros [= <-]. apply List.find_some in E as [Hin Heq].
  apply bool_decide_eq_true in Heq as ->. by apply list_elem_of_In.
Qed.

Lemma table_forall (f : Token * list Element -> bool) t e :
  forallb f table_storage = true -> (t, e) ∈ table_storage -> f (t, e) = true.
Proof. rewrite forallb_forall. intros Hall Hin. by apply Hall, list_elem_of_In. Qed.

Lemma canonical_upper t : canonical (upper_token t) = canonical t.
Proof. destruct t; [|done..]. cbn. by rewrite pattern_upper. Qed.

(** Decoding what a token is sent as gives the token back, in its canonical
    (prosign) form in the default style, and up to [canonical] in either. *)
Theorem decode_pattern t e : pattern t = Some e ->
  decode_group e = Some (canonical t)
  /\ exists t', decode_group_with e Characters = Some t' /\ canonical t' = canonical t.
Proof.
  intros Hin%pattern_In. rewrite <- canonical_upper. revert Hin. generalize (upper_token t). intros u Hin.
  apply (table_forall (fun x => bool_decide (decode_group x.2 = Some (canonical x.1))
    && bool_decide (canonical <$> decode_group_with x.2 Characters = Some (canonical x.1)))) in Hin;
    [|by vm_compute].
  apply andb_true_iff in Hin as [H1%bool_decide_eq_true H2%bool_decide_eq_true].
  cbn [fst snd] in H1, H2.
  split; [exact H1|]. destruct (decode_group_with e Characters) as [t'|]; [|done].
  exists t'. split; [reflexivity|]. by apply (inj Some) in H2.
Qed.

(** ** Text round trip *)

(** A token the tokenizer can produce other than a gap. *)
Definition sendable (t : Token) : Prop :=
  match t with
  | TChar c => is_Some (pattern t) /\ to_ascii_uppercase c = c
  | TProsign _ => True
  | WordSpace => False
  end.

(** Token sequences with single gaps, none leading or trailing. *)
Inductive spaced : list Token -> Prop :=
| spaced_nil : spaced []
| spaced_token t ts : sendable t -> spaced ts -> spaced (t :: ts)
| spaced_gap t ts : sendable t -> spaced ts -> spaced (WordSpace :: t :: ts).
Inductive well_spaced : list Token -> Prop :=
| well_spaced_nil : well_spaced []
| well_spaced_cons t ts : sendable t -> spaced ts -> well_spaced (t :: ts).

Lemma read_name_spec n : forall acc rest off,
  Forall (fun c => c <> ch ">") n ->
  exists off', read_name acc (n ++ ch ">" :: rest) off = Some (acc ++ n, rest, off').
Proof.
  induction n as [|c n IH]; intros acc rest off Hn; cbn [read_name app].
  - rewrite Z.eqb_refl, app_nil_r. by eexists.
  - apply Forall_cons in Hn as [Hc Hn]. rewrite (proj2 (Z.eqb_neq c _) Hc).
    destruct (IH (acc ++ [c]) rest (off + len_utf8 c) Hn) as [off' ->].
    rewrite <- app_assoc. by eexists.
Qed.

Lemma prosign_name_ok p :
  Forall (fun c => c <> ch ">") (prosign_name p) /\ from_name (prosign_name p) = Some p.
Proof.
  split; [|by destruct p].
  apply Forall_forall. intros c Hc ->. revert Hc. by destruct p; intros Hc%(bool_decide_eq_true_2 _).
Qed.

Lemma pattern_char_ok c e :
  pattern (TChar c) = Some e -> to_ascii_uppercase c = c ->
  is_whitespace c = false /\ c <> ch "<".
Proof.
  intros Hin%pattern_In Hup. cbn in Hin. rewrite Hup in Hin.
  apply (table_forall (fun x => match x.1 with
    | TChar c => negb (is_whitespace c) && negb (c =? ch "<") | _ => true end)) in Hin;
    [|by vm_compute].
  cbn in Hin. apply andb_true_iff in Hin as [H1%negb_true_iff H2%negb_true_iff].
  split; [done|]. by apply Z.eqb_neq.
Qed.

Lemma tokenize_loop_token fuel out ps off t rest :
  sendable t -> (length (token_display t ++ rest) <= fuel)%nat ->
  exists fuel' off', (length rest <= fuel')%nat /\
    tokenize_loop fuel out ps off (token_display t ++ rest)
    = tokenize_loop fuel' (out ++ if ps then [WordSpace; t] else [t]) false off' rest.
Proof.
  intros Ht Hlen. destruct fuel as [|fuel]; [destruct t; cbn in Hlen; lia|].
  destruct t as [c|p|]; [| |done]; cbn [token_display prosign_display app tokenize_loop].
  - destruct Ht as [[e He] Hup]. destruct (pattern_char_ok _ _ He Hup) as [Hw Hlt].
    rewrite Hw, (proj2 (Z.eqb_neq c _) Hlt), Hup, He.
    cbn in Hlen. eexists fuel, _. split; [lia|done].
  - change (is_whitespace (ch "<")) with false. cbn match. rewrite Z.eqb_refl.
    destruct (prosign_name_ok p) as [Hn Hf]. rewrite <- app_assoc. cbn [app].
    destruct (read_name_spec _ [] rest (off + len_utf8 (ch "<")) Hn) as [off' ->]. cbn [app].
    rewrite Hf. eexists fuel, _. split; [|done].
    cbn in Hlen. rewrite !length_app in Hlen. cbn in Hlen. lia.
Qed.

Lemma tokenize_loop_spaced ts : spaced ts -> forall fuel out off,
  out <> [] -> (length (tokens_to_text ts) <= fuel)%nat ->
  tokenize_loop fuel out false off (tokens_to_text ts) = Some (Ok (out ++ ts)).
Proof.
  induction 1 as [|t ts Ht _ IH|t ts Ht _ IH]; intros fuel out off Hout Hlen.
  - rewrite app_nil_r. by destruct fuel.
  - change (tokens_to_text (t :: ts)) with (token_display t ++ tokens_to_text ts) in *.
    destruct (tokenize_loop_token fuel out false off _ _ Ht Hlen) as (fuel' & off' & Hf & ->).
    rewrite IH; [by rewrite <- app_assoc| by destruct out |done].
  - change (tokens_to_text (WordSpace :: t :: ts))
      with (space :: token_display t ++ tokens_to_text ts) in *.
    destruct fuel as [|fuel]; [cbn in Hlen; lia|]. cbn [tokenize_loop length] in *.
    change (is_whitespace space) with true. cbn match. rewrite bool_decide_eq_false_2 by done. cbn [negb].
    destruct (tokenize_loop_token fuel out true (off + len_utf8 space) _ (tokens_to_text ts) Ht)
      as (fuel' & off' & Hf & ->); [lia|].
    rewrite IH; [by rewrite <- app_assoc| by destruct out |done].
Qed.

Lemma tokenize_well_spaced ts : well_spaced ts -> tokenize (tokens_to_text ts) = Ok ts.
Proof.
  intros H. unfold tokenize, tokenize_fuel. destruct H as [|t ts Ht Hts]; [done|].
  change (tokens_to_text (t :: ts)) with (token_display t ++ tokens_to_text ts).
  destruct (tokenize_loop_token (length (token_display t ++ tokens_to_text ts)) [] false 0 _
    (tokens_to_text ts) Ht) as (fuel' & off' & Hf & ->); [lia|].
  by rewrite (tokenize_loop_spaced _ Hts).
Qed.

(** Rendering a token sequence and tokenizing it again gives the sequence. *)
Theorem tokenize_tokens_to_text ts : well_spaced ts -> tokenize (tokens_to_text ts) = Ok ts.
Proof. apply tokenize_well_spaced. Qed.

Lemma decode_pattern_witness :
  decode_group [Dit; Dah] = Some (TChar (ch "A"))
  /\ exists t', decode_group_with [Dit; Dah] Characters = Some t' /\ canonical t' = TChar (ch "A").
Proof. apply (decode_pattern (TChar (ch "a")) [Dit; Dah]). vm_compute. reflexivity. Defined.

Lemma tokenize_tokens_to_text_witness :
  tokenize (tokens_to_text [TChar (ch "C"); WordSpace; TProsign Ar]) = Ok [TChar (ch "C"); WordSpace; TProsign Ar].
Proof.
  apply (tokenize_tokens_to_text [TChar (ch "C"); WordSpace; TProsign Ar]).
  apply well_spaced_cons; [split; [eexists; vm_compute; reflexivity|reflexivity]|].
  apply spaced_gap; [exact I|apply spaced_nil].
Defined.
