(* ===== verification/Score.v ===== *)
(** * Score: how well a copy matches what was sent (cat-morse/src/score.rs)

    The alignment is computed the way the code does, in a flat table filled row
    by row and traced back; it is compared with the recursive definition of the
    edit distance, and with every other way of editing one text into the
    other. *)

From S2P Require Import Prelude Text Morse.

(** A unit of text being scored. *)
Abbreviation Unit := Token (only parsing).

Inductive SpacePolicy : Type := ScoreSpaces | IgnoreSpaces.
Record ScoreOptions : Type := mk_ScoreOptions { spaces : SpacePolicy; fold_equivalents : bool }.
Definition score_options_default : ScoreOptions := mk_ScoreOptions ScoreSpaces true.

Inductive AlignOp : Type :=
| Match (expected : Unit)
| Substitution (expected copied : Unit)
| Deletion (expected : Unit)
| Insertion (copied : Unit) (attributed_to : option nat).

Record Alignment : Type := mk_Alignment { al_expected : list Unit; ops : list AlignOp }.
Record Score : Type := mk_Score {
  sc_expected : nat; matches : nat; substitutions : nat; deletions : nat; insertions : nat }.
Definition score_default : Score := mk_Score 0 0 0 0 0.
Definition score_add (s o : Score) : Score :=
  mk_Score (s.(sc_expected) + o.(sc_expected)) (s.(matches) + o.(matches)) (s.(substitutions) + o.(substitutions))
    (s.(deletions) + o.(deletions)) (s.(insertions) + o.(insertions)).

(** ** Reading a copy *)

(** The characters up to a closing bracket, and what follows it. *)
Fixpoint find_close (t : text) : option (text * text) :=
  match t with
  | [] => None
  | c :: t =>
      if c =? ch ">" then Some ([], t)
      else '(name, rest) ← find_close t; Some (c :: name, rest)
  end.

(** One unit of a copy, and what is left. *)
Definition copy_unit (c : char) (t : text) : Unit * text :=
  let plain := (TChar (to_ascii_uppercase c), t) in
  if c =? ch "<" then
    match find_close t with
    | Some (name, rest) => match from_name name with Some p => (TProsign p, rest) | None => plain end
    | None => plain
    end
  else plain.

(** [tokenize_copy]; [None] when the fuel is used up. *)
Fixpoint copy_loop (fuel : nat) (out : list Unit) (pending_space : bool) (t : text) : option (list Unit) :=
  match t with
  | [] => Some out
  | c :: t =>
      match fuel with
      | O => None
      | S fuel =>
          if is_whitespace c then copy_loop fuel out (negb (bool_decide (out = []))) t
          else let '(token, rest) := copy_unit c t in
               copy_loop fuel (out ++ (if pending_space then [WordSpace; token] else [token])) false rest
      end
  end.
Definition tokenize_copy (t : text) : list Unit := default [] (copy_loop (length t) [] false t).

Definition prepare (units : list Unit) (opts : ScoreOptions) : list Unit :=
  map (fun u => if opts.(fold_equivalents) then canonical u else u)
    (List.filter (fun u => negb (match opts.(spaces) with
                                 | IgnoreSpaces => bool_decide (u = WordSpace)
                                 | ScoreSpaces => false
                                 end)) units).

(** ** Aligning *)

Section Align.
  Context (e c : list Unit).

Definition width : nat := S (length c).
(** [d[i * w + j]] and [e[i]]. *)
Definition cell (d : list Z) (i j : nat) : Z := default 0 (d !! (i * width + j)%nat).
Definition e_at (i : nat) : Unit := default WordSpace (e !! i).
Definition c_at (j : nat) : Unit := default WordSpace (c !! j).
Definition differs (i j : nat) : Z := if bool_decide (e_at i = c_at j) then 0 else 1.

Definition as_u32 (n : nat) : Z := Z.of_nat n mod 2 ^ 32.
Definition borders : list Z :=
  let d := replicate (S (length e) * width) 0 in
  let d := fold_left (fun d i => <[(i * width)%nat := as_u32 i]> d) (seq 0 (S (length e))) d in
  fold_left (fun d j => <[j := as_u32 j]> d) (seq 0 (S (length c))) d.

Definition fill_cell (i : nat) (d : list Z) (j : nat) : list Z :=
  let sub := wrapping_add_u32 (cell d (i - 1) (j - 1)) (differs (i - 1) (j - 1)) in
  let del := wrapping_add_u32 (cell d (i - 1) j) 1 in
  let ins := wrapping_add_u32 (cell d i (j - 1)) 1 in
  <[(i * width + j)%nat := Z.min (Z.min sub del) ins]> d.
Definition fill_row (d : list Z) (i : nat) : list Z := fold_left (fill_cell i) (seq 1 (length c)) d.
Definition filled : list Z := fold_left fill_row (seq 1 (length e)) borders.

(** The steps as the loop pushes them, from the end of the texts. *)
Fixpoint trace_back (fuel : nat) (d : list Z) (i j : nat) : option (list AlignOp) :=
  match fuel with
  | O => if (0 <? i)%nat || (0 <? j)%nat then None else Some []
  | S fuel =>
      if (0 <? i)%nat || (0 <? j)%nat then
        let here := cell d i j in
        if (0 <? i)%nat && (0 <? j)%nat
           && (here =? wrapping_add_u32 (cell d (i - 1) (j - 1)) (differs (i - 1) (j - 1))) then
          rest ← trace_back fuel d (i - 1) (j - 1);
          Some ((if bool_decide (e_at (i - 1) = c_at (j - 1)) then Match (e_at (i - 1))
                 else Substitution (e_at (i - 1)) (c_at (j - 1))) :: rest)
        else if (0 <? i)%nat && (here =? wrapping_add_u32 (cell d (i - 1) j) 1) then
          rest ← trace_back fuel d (i - 1) j; Some (Deletion (e_at (i - 1)) :: rest)
        else
          rest ← trace_back fuel d i (j - 1); Some (Insertion (c_at (j - 1)) None :: rest)
      else Some []
  end.
End Align.

Definition is_insertion (op : AlignOp) : bool := match op with Insertion _ _ => true | _ => false end.
Definition is_sub (op : AlignOp) : bool := match op with Substitution _ _ => true | _ => false end.

(** [attribute_insertions]: the index of the expected unit at a step, of the
    last one before it, the nearest steps with one on each side. *)
Definition sent_before (l : list AlignOp) (p : nat) : nat :=
  length (List.filter (fun op => negb (is_insertion op)) (take p l)).
Definition idx_of (l : list AlignOp) (p : nat) : option nat :=
  op ← l !! p; if is_insertion op then None else Some (sent_before l p).
Definition before (l : list AlignOp) (p : nat) : option nat :=
  match sent_before l p with O => None | S k => Some k end.
Definition has_idx (l : list AlignOp) (q : nat) : bool := negb (is_none (idx_of l q)).
Definition prev_sent (l : list AlignOp) (p : nat) : option nat := List.find (has_idx l) (rev (seq 0 p)).
Definition next_sent (l : list AlignOp) (p : nat) : option nat :=
  List.find (has_idx l) (seq (S p) (length l - S p)).
Definition sub_at (l : list AlignOp) (q : nat) : bool := match l !! q with Some op => is_sub op | None => false end.
Definition target (l : list AlignOp) (n p : nat) : option nat :=
  let t := match prev_sent l p, next_sent l p with
           | Some a, Some b => if sub_at l a then idx_of l a else if sub_at l b then idx_of l b else idx_of l a
           | Some a, None => idx_of l a
           | None, Some b => idx_of l b
           | None, None => None
           end in
  let t := match t with Some _ => t | None => before l p end in
  match t with Some t => if (t <? n)%nat then Some t else None | None => None end.
Definition attribute_insertions (l : list AlignOp) (n : nat) : list AlignOp :=
  imap (fun p op => match op with Insertion copied _ => Insertion copied (target l n p) | op => op end) l.

Definition align_units (expected copied : list Unit) (opts : ScoreOptions) : Alignment :=
  let e := prepare expected opts in
  let c := prepare copied opts in
  let steps := default [] (trace_back e c (length e + length c) (filled e c) (length e) (length c)) in
  mk_Alignment e (attribute_insertions (rev steps) (length e)).
Definition align (expected copied : text) (opts : ScoreOptions) : result Alignment CodecError :=
  let? e := tokenize expected in Ok (align_units e (tokenize_copy copied) opts).

Definition count_op (s : Score) (op : AlignOp) : Score :=
  match op with
  | Match _ => mk_Score s.(sc_expected) (S s.(matches)) s.(substitutions) s.(deletions) s.(insertions)
  | Substitution _ _ => mk_Score s.(sc_expected) s.(matches) (S s.(substitutions)) s.(deletions) s.(insertions)
  | Deletion _ => mk_Score s.(sc_expected) s.(matches) s.(substitutions) (S s.(deletions)) s.(insertions)
  | Insertion _ _ => mk_Score s.(sc_expected) s.(matches) s.(substitutions) s.(deletions) (S s.(insertions))
  end.
Definition alignment_score (a : Alignment) : Score :=
  fold_left count_op a.(ops) (mk_Score (length a.(al_expected)) 0 0 0 0).

(** ** The reference *)

(** What a list of steps says was sent and was copied, and what it costs. *)
Definition sent_unit (op : AlignOp) : option Unit :=
  match op with Match x | Substitution x _ | Deletion x => Some x | Insertion _ _ => None end.
Definition copied_unit (op : AlignOp) : option Unit :=
  match op with Match x | Substitution _ x | Insertion x _ => Some x | Deletion _ => None end.
Definition sent_of (l : list AlignOp) : list Unit := omap sent_unit l.
Definition copied_of (l : list AlignOp) : list Unit := omap copied_unit l.
Definition op_cost (op : AlignOp) : Z := match op with Match _ => 0 | _ => 1 end.
Fixpoint cost (l : list AlignOp) : Z := match l with [] => 0 | op :: l => op_cost op + cost l end.

Lemma sent_of_app l l' : sent_of (l ++ l') = sent_of l ++ sent_of l'.
Proof. apply omap_app. Qed.
Lemma copied_of_app l l' : copied_of (l ++ l') = copied_of l ++ copied_of l'.
Proof. apply omap_app. Qed.
Lemma cost_app l l' : cost (l ++ l') = cost l + cost l'.
Proof. induction l as [|op l IH]; cbn; [done|]. rewrite IH. lia. Qed.

Section Reference.
  Context (e c : list Unit).

(** The edit distance between the first [i] units sent and the first [j]
    copied, by its recursion. *)
Fixpoint lev (i : nat) : nat -> Z :=
  match i with
  | O => fun j => Z.of_nat j
  | S i' =>
      fix row (j : nat) : Z :=
        match j with
        | O => Z.of_nat (S i')
        | S j' => Z.min (Z.min (lev i' j' + differs e c i' j') (lev i' (S j') + 1)) (row j' + 1)
        end
  end.

Lemma lev_0 i : lev i 0 = Z.of_nat i.
Proof. by destruct i. Qed.
Lemma lev_SS i j : lev (S i) (S j)
  = Z.min (Z.min (lev i j + differs e c i j) (lev i (S j) + 1)) (lev (S i) j + 1).
Proof. done. Qed.
Lemma differs_range i j : 0 <= differs e c i j <= 1.
Proof. unfold differs. case_bool_decide; lia. Qed.

Lemma lev_range i j : 0 <= lev i j <= Z.of_nat (i + j).
Proof.
  revert j. induction i as [|i IH]; intros j; [cbn; lia|].
  induction j as [|j IHj]; [rewrite lev_0; lia|]. rewrite lev_SS.
  pose proof (differs_range i j). pose proof (IH j). pose proof (IH (S j)). lia.
Qed.

(** ** The table holds it *)

Definition done_cells := nat -> nat -> Prop.
Definition table_ok (d : list Z) (P : done_cells) : Prop :=
  length d = (S (length e) * width c)%nat
  /\ forall i j, (i <= length e)%nat -> (j <= length c)%nat -> P i j -> cell c d i j = lev i j.

Lemma index_inj i j i' j' : (j <= length c)%nat -> (j' <= length c)%nat ->
  (i * width c + j = i' * width c + j')%nat -> i = i' /\ j = j'.
Proof.
  unfold width. intros Hj Hj' E.
  destruct (Nat.lt_trichotomy i i') as [H|[->|H]]; [exfalso; nia|split; [done|lia]|exfalso; nia].
Qed.
Lemma index_lt i j (d : list Z) : length d = (S (length e) * width c)%nat ->
  (i <= length e)%nat -> (j <= length c)%nat -> (i * width c + j < length d)%nat.
Proof. unfold width. intros -> Hi Hj. nia. Qed.

Lemma table_set d P i j v :
  table_ok d P -> (i <= length e)%nat -> (j <= length c)%nat -> v = lev i j ->
  table_ok (<[(i * width c + j)%nat := v]> d) (fun i' j' => P i' j' \/ (i' = i /\ j' = j)).
Proof.
  intros [Hl Hd] Hi Hj ->. split; [by rewrite length_insert|]. intros i' j' Hi' Hj' HP. unfold cell.
  destruct (decide (i * width c + j = i' * width c + j')%nat) as [E|Hne].
  - destruct (index_inj _ _ _ _ Hj Hj' E) as [<- <-]. rewrite list_lookup_insert_eq by (by apply index_lt). done.
  - rewrite list_lookup_insert_ne by done. apply Hd; try done. destruct HP as [?|[-> ->]]; done.
Qed.

Lemma table_weaken d P Q : table_ok d P ->
  (forall i j, (i <= length e)%nat -> (j <= length c)%nat -> Q i j -> P i j) -> table_ok d Q.
Proof. intros [Hl Hd] H. split; [done|]. intros i j Hi Hj HQ. apply Hd; auto. Qed.

Context (Hsize : Z.of_nat (length e + length c) < 2 ^ 32).

Lemma as_u32_small k : (k <= length e + length c)%nat -> as_u32 k = Z.of_nat k.
Proof. intros. unfold as_u32. apply Z.mod_small. lia. Qed.
Lemma wrapping_small a b : 0 <= a -> 0 <= b -> a + b < 2 ^ 32 -> wrapping_add_u32 a b = a + b.
Proof. intros. unfold wrapping_add_u32. apply Z.mod_small. lia. Qed.

Lemma borders_ok : table_ok (borders e c) (fun i j => i = 0%nat \/ j = 0%nat).
Proof.
  unfold borders.
  assert (H0 : table_ok (replicate (S (length e) * width c) 0) (fun _ _ => False)).
  { split; [apply length_replicate|done]. }
  assert (H1 : forall k d P, (k <= S (length e))%nat -> table_ok d P ->
    table_ok (fold_left (fun d i => <[(i * width c)%nat := as_u32 i]> d) (seq 0 k) d)
      (fun i j => P i j \/ ((i < k)%nat /\ j = 0%nat))).
  { induction k as [|k IH]; intros d P Hk Hd; [eapply table_weaken; [exact Hd|]; intros i j _ _ [?|[? ?]]; [done|lia]|].
    rewrite seq_S, fold_left_app. cbn [fold_left Nat.add]. specialize (IH d P ltac:(lia) Hd).
    eapply (table_set _ _ k 0 (as_u32 k)) in IH; [|lia|lia|by rewrite lev_0, as_u32_small by lia].
    rewrite Nat.add_0_r in IH. eapply table_weaken; [exact IH|]. intros i j _ _ [?|[? ?]]; [by left; left|].
    destruct (decide (i = k)) as [->|]; [by right|]. left. right. lia. }
  assert (H2 : forall k d P, (k <= S (length c))%nat -> table_ok d P ->
    table_ok (fold_left (fun d j => <[j := as_u32 j]> d) (seq 0 k) d)
      (fun i j => P i j \/ ((j < k)%nat /\ i = 0%nat))).
  { induction k as [|k IH]; intros d P Hk Hd; [eapply table_weaken; [exact Hd|]; intros i j _ _ [?|[? ?]]; [done|lia]|].
    rewrite seq_S, fold_left_app. cbn [fold_left Nat.add]. specialize (IH d P ltac:(lia) Hd).
    eapply (table_set _ _ 0 k (as_u32 k)) in IH; [|lia|lia|cbn; by rewrite as_u32_small by lia].
    cbn [Nat.mul Nat.add] in IH. eapply table_weaken; [exact IH|]. intros i j _ _ [?|[? ?]]; [by left; left|].
    destruct (decide (j = k)) as [->|]; [by right|]. left. right. lia. }
  eapply table_weaken; [apply H2; [lia|]; apply H1; [lia|exact H0]|]. cbn. intros i j Hi Hj [->| ->]; [right; lia|left; right; lia].
Qed.

Lemma fill_cell_ok d P i j :
  table_ok d P -> (0 < i <= length e)%nat -> (0 < j <= length c)%nat ->
  P (i - 1)%nat (j - 1)%nat -> P (i - 1)%nat j -> P i (j - 1)%nat ->
  table_ok (fill_cell e c i d j) (fun i' j' => P i' j' \/ (i' = i /\ j' = j)).
Proof.
  intros Hd Hi Hj P1 P2 P3. unfold fill_cell. apply table_set; [done|lia|lia|].
  destruct Hd as [_ Hd]. rewrite !Hd by (done || lia).
  destruct i as [|i]; [lia|]. destruct j as [|j]; [lia|]. rewrite lev_SS, !Nat.sub_succ, !Nat.sub_0_r.
  pose proof (differs_range i j). pose proof (lev_range i j). pose proof (lev_range i (S j)). pose proof (lev_range (S i) j).
  rewrite !wrapping_small by lia. done.
Qed.

Lemma fill_row_ok d i :
  table_ok d (fun i' j' => (i' < i)%nat \/ j' = 0%nat) -> (0 < i <= length e)%nat ->
  table_ok (fill_row e c d i) (fun i' j' => (i' < S i)%nat \/ j' = 0%nat).
Proof.
  intros Hd Hi. unfold fill_row.
  assert (H : forall k, (k <= length c)%nat -> table_ok (fold_left (fill_cell e c i) (seq 1 k) d)
    (fun i' j' => ((i' < i)%nat \/ j' = 0%nat) \/ (i' = i /\ (j' <= k)%nat))).
  { induction k as [|k IH]; intros Hk; [eapply table_weaken; [exact Hd|]; intros i' j' _ _ [?|[_ ?]]; [done|right; lia]|].
    rewrite seq_S, fold_left_app. cbn [fold_left Nat.add]. specialize (IH ltac:(lia)).
    eapply table_weaken; [eapply (fill_cell_ok _ _ i (S k)); [exact IH|lia|lia|left; left; lia|left; left; lia|right; lia]|].
    cbn. intros i' j' _ _ [?|[-> ?]]; [by left; left|]. destruct (decide (j' = S k)) as [->|]; [by right|left; right; lia]. }
  eapply table_weaken; [apply (H (length c)); lia|]. cbn. intros i' j' _ Hj' [?| ->]; [|by left; right].
  destruct (decide (i' = i)) as [->|]; [right; lia|left; left; lia].
Qed.

Lemma filled_ok : table_ok (filled e c) (fun _ _ => True).
Proof.
  unfold filled.
  assert (H : forall k, (k <= length e)%nat -> table_ok (fold_left (fill_row e c) (seq 1 k) (borders e c))
    (fun i' j' => (i' < S k)%nat \/ j' = 0%nat)).
  { induction k as [|k IH]; intros Hk; [eapply table_weaken; [apply borders_ok|]; intros i j _ _ [?| ->]; [left; lia|by right]|].
    rewrite seq_S, fold_left_app. cbn [fold_left Nat.add]. apply fill_row_ok; [apply IH; lia|lia]. }
  eapply table_weaken; [apply (H (length e)); lia|]. intros i j Hi Hj _. left. lia.
Qed.

(** ** Tracing back *)

Lemma take_at (l : list Unit) i : (i < length l)%nat -> take (S i) l = take i l ++ [default WordSpace (l !! i)].
Proof. intros H. destruct (lookup_lt_is_Some_2 l i H) as [x Hx]. rewrite (take_S_r _ _ x Hx).  by rewrite Hx. Qed.

(** The steps say what was sent and copied, and cost no more than they must. *)
Definition script (l : list AlignOp) (i j : nat) : Prop :=
  sent_of l = take i e /\ copied_of l = take j c /\ cost l = lev i j.

Lemma trace_back_ok fuel : forall i j, (i <= length e)%nat -> (j <= length c)%nat -> (i + j <= fuel)%nat ->
  exists l, trace_back e c fuel (filled e c) i j = Some l /\ script (rev l) i j.
Proof.
  destruct filled_ok as [_ Hd].
  induction fuel as [|fuel IH]; intros i j Hi Hj Hf.
  { assert (i = 0%nat /\ j = 0%nat) as [-> ->] by lia. exists []. done. }
  cbn [trace_back]. destruct i as [|i], j as [|j]; cbn [Nat.ltb Nat.leb orb andb].
  - exists []. done.
  - rewrite !Nat.sub_succ, !Nat.sub_0_r. destruct (IH 0%nat j) as (l & -> & Hs & Hc & Hk); [lia|lia|lia|].
    eexists. split; [reflexivity|]. cbn [rev]. unfold script. rewrite sent_of_app, copied_of_app, cost_app, Hs, Hc, Hk.
    split_and!; [done|by rewrite take_at by lia|cbn; lia].
  - rewrite !Nat.sub_succ, !Nat.sub_0_r. rewrite !Hd by (done || lia). rewrite !lev_0, wrapping_small by lia.
    rewrite (proj2 (Z.eqb_eq _ _)) by lia. destruct (IH i 0%nat) as (l & -> & Hs & Hc & Hk); [lia|lia|lia|].
    eexists. split; [reflexivity|]. cbn [rev]. unfold script. rewrite sent_of_app, copied_of_app, cost_app, Hs, Hc, Hk.
    split_and!; [by rewrite take_at by lia|by rewrite app_nil_r|rewrite !lev_0; cbn; lia].
  - rewrite !Nat.sub_succ, !Nat.sub_0_r. rewrite !Hd by (done || lia).
    pose proof (differs_range i j). pose proof (lev_range i j). pose proof (lev_range i (S j)). pose proof (lev_range (S i) j).
    rewrite !wrapping_small by lia. pose proof (lev_SS i j) as Hlev.
    destruct (Z.eqb_spec (lev (S i) (S j)) (lev i j + differs e c i j)) as [E|N1].
    + destruct (IH i j) as (l & -> & Hs & Hc & Hk); [lia|lia|lia|]. eexists. split; [reflexivity|]. cbn [rev]. unfold script.
      rewrite sent_of_app, copied_of_app, cost_app, Hs, Hc, Hk, E, !take_at by lia. unfold differs, e_at, c_at.
      case_bool_decide as Heq; cbn; [rewrite Heq|]; split_and!; (done || lia).
    + destruct (Z.eqb_spec (lev (S i) (S j)) (lev i (S j) + 1)) as [E|N2].
      * destruct (IH i (S j)) as (l & -> & Hs & Hc & Hk); [lia|lia|lia|]. eexists. split; [reflexivity|]. cbn [rev]. unfold script.
        rewrite sent_of_app, copied_of_app, cost_app, Hs, Hc, Hk, E, (take_at e) by lia.
        split_and!; [done|apply app_nil_r|cbn [cost op_cost]; lia].
      * destruct (IH (S i) j) as (l & -> & Hs & Hc & Hk); [lia|lia|lia|]. eexists. split; [reflexivity|]. cbn [rev]. unfold script.
        rewrite sent_of_app, copied_of_app, cost_app, Hs, Hc, Hk, (take_at c) by lia.
        split_and!; [apply app_nil_r|done|cbn [cost op_cost]; lia].
Qed.

(** ** Nothing is cheaper *)

Lemma snoc_take (l l' : list Unit) i x : (i <= length l)%nat -> l' ++ [x] = take i l ->
  exists k, i = S k /\ l' = take k l /\ default WordSpace (l !! k) = x /\ (k < length l)%nat.
Proof.
  intros Hi E. destruct i as [|k]; [by destruct l'|]. exists k. rewrite take_at in E by lia.
  apply app_inj_tail in E as [-> <-]. split_and!; (done || lia).
Qed.

Lemma lev_least l : forall i j, (i <= length e)%nat -> (j <= length c)%nat ->
  sent_of l = take i e -> copied_of l = take j c -> lev i j <= cost l.
Proof.
  induction l as [|op l IH] using rev_ind; intros i j Hi Hj Hs Hc.
  { cbn in *. symmetry in Hs, Hc. apply (f_equal length) in Hs, Hc. rewrite length_take in Hs, Hc. cbn in *.
    assert (i = 0%nat) as -> by lia. assert (j = 0%nat) as -> by lia. done. }
  rewrite sent_of_app in Hs. rewrite copied_of_app in Hc. rewrite cost_app.
  destruct op as [x|x y|x|y a]; cbn in Hs, Hc |- *; try rewrite app_nil_r in Hs; try rewrite app_nil_r in Hc.
  - apply snoc_take in Hs as (i' & -> & Hs & Ex & ?); [|done]. apply snoc_take in Hc as (j' & -> & Hc & Ey & ?); [|done].
    specialize (IH i' j' ltac:(lia) ltac:(lia) Hs Hc). rewrite lev_SS.
    assert (differs e c i' j' = 0) by (unfold differs, e_at, c_at; rewrite Ex, Ey; by rewrite bool_decide_eq_true_2). lia.
  - apply snoc_take in Hs as (i' & -> & Hs & Ex & ?); [|done]. apply snoc_take in Hc as (j' & -> & Hc & Ey & ?); [|done].
    specialize (IH i' j' ltac:(lia) ltac:(lia) Hs Hc). rewrite lev_SS. pose proof (differs_range i' j'). lia.
  - apply snoc_take in Hs as (i' & -> & Hs & Ex & ?); [|done]. specialize (IH i' j ltac:(lia) ltac:(lia) Hs Hc).
    destruct j as [|j]; [rewrite lev_0 in *; lia|]. rewrite lev_SS. lia.
  - apply snoc_take in Hc as (j' & -> & Hc & Ey & ?); [|done]. specialize (IH i j' ltac:(lia) ltac:(lia) Hs Hc).
    destruct i as [|i]; [cbn in *; lia|]. rewrite lev_SS. lia.
Qed.
End Reference.

(** ** Charging the insertions *)

Lemma attribute_same {A} (f : AlignOp -> option A) l n :
  (forall x t t', f (Insertion x t) = f (Insertion x t')) -> omap f (attribute_insertions l n) = omap f l.
Proof.
  intros Hf. unfold attribute_insertions. generalize (target l n) as g. intros g. revert g.
  induction l as [|op l IH]; intros g; [done|]. cbn [imap].
  specialize (IH (g ∘ S)).
  assert (Ho : f (match op with Insertion x _ => Insertion x (g 0%nat) | op => op end) = f op) by (destruct op; auto).
  cbn [omap list_omap]. rewrite Ho. destruct (f op); [f_equal|]; exact IH.
Qed.

Lemma attribute_cost l n : cost (attribute_insertions l n) = cost l.
Proof.
  unfold attribute_insertions. generalize (target l n) as g. induction l as [|op l IH]; intros g; [done|].
  cbn [imap cost]. rewrite <- (IH (g ∘ S)). destruct op; done.
Qed.

Lemma idx_of_lt l q k : idx_of l q = Some k -> (k < length (sent_of l))%nat.
Proof.
  unfold idx_of. destruct (l !! q) as [op|] eqn:Hq; [cbn|done]. destruct (is_insertion op) eqn:Ho; [done|]. intros [= <-].
  unfold sent_before. rewrite <- (take_drop_middle l q op Hq) at 2. rewrite sent_of_app, length_app.
  assert (H : forall l', length (List.filter (fun op => negb (is_insertion op)) l') = length (sent_of l')).
  { induction l' as [|[] l' IHl]; cbn; auto. }
  rewrite H. destruct op; cbn; try lia. done.
Qed.

Lemma has_idx_spec l q : has_idx l q = true -> exists k, idx_of l q = Some k.
Proof. unfold has_idx. destruct (idx_of l q); [eauto|done]. Qed.

Lemma no_idx_sent l : (forall q, (q < length l)%nat -> has_idx l q = false) -> sent_of l = [].
Proof.
  intros H. destruct (sent_of l) as [|x r] eqn:E; [done|]. exfalso.
  assert (Hx : x ∈ sent_of l) by (rewrite E; left). apply list_elem_of_omap in Hx as (op & Hop & Hs).
  apply list_elem_of_lookup in Hop as [q Hq]. specialize (H q (lookup_lt_Some _ _ _ Hq)).
  unfold has_idx, idx_of in H. rewrite Hq in H. by destruct op.
Qed.

Lemma target_found l p x t : l !! p = Some (Insertion x t) -> sent_of l <> [] ->
  exists k, target l (length (sent_of l)) p = Some k /\ (k < length (sent_of l))%nat.
Proof.
  intros Hp Hne.
  assert (H : exists q k, (prev_sent l p = Some q \/ next_sent l p = Some q) /\ idx_of l q = Some k).
  { destruct (prev_sent l p) as [a|] eqn:Ea; unfold prev_sent in Ea.
    { apply find_some in Ea as [_ Ha]. apply has_idx_spec in Ha as [k Hk]. eauto. }
    destruct (next_sent l p) as [b|] eqn:Eb; unfold next_sent in Eb.
    { apply find_some in Eb as [_ Hb]. apply has_idx_spec in Hb as [k Hk]. eauto. }
    exfalso. apply Hne, no_idx_sent. intros q Hq. destruct (Nat.lt_trichotomy q p) as [?|[->|?]].
    - eapply find_none in Ea; [exact Ea|]. apply in_rev. rewrite rev_involutive. apply in_seq. lia.
    - unfold has_idx, idx_of. by rewrite Hp.
    - eapply find_none in Eb; [exact Eb|]. apply in_seq. lia. }
  unfold target.
  assert (Hall : forall q, prev_sent l p = Some q \/ next_sent l p = Some q ->
    exists k, idx_of l q = Some k /\ (k < length (sent_of l))%nat).
  { intros q [Hq|Hq]; apply find_some in Hq as [_ Hq]; apply has_idx_spec in Hq as [k Hk]; exists k; eauto using idx_of_lt. }
  destruct (prev_sent l p) as [a|]; [destruct (Hall a (or_introl eq_refl)) as (ka & -> & Hka)|];
    (destruct (next_sent l p) as [b|]; [destruct (Hall b (or_intror eq_refl)) as (kb & -> & Hkb)|]);
    try (destruct H as (? & ? & [?|?] & ?); done);
    try destruct (sub_at l a); try destruct (sub_at l b);
    eexists; (split; [rewrite (proj2 (Nat.ltb_lt _ _)) by eassumption; reflexivity|eassumption]).
Qed.

(** ** The score *)

Definition errors (s : Score) : nat := s.(substitutions) + s.(deletions) + s.(insertions).

Lemma count_ops l : forall s, let s' := fold_left count_op l s in
  s'.(sc_expected) = s.(sc_expected)
  /\ (s'.(matches) + s'.(substitutions) + s'.(deletions)
      = s.(matches) + s.(substitutions) + s.(deletions) + length (sent_of l))%nat
  /\ Z.of_nat (errors s') = Z.of_nat (errors s) + cost l.
Proof.
  induction l as [|op l IH]; intros s; [split_and!; [done|cbn [sent_of omap list_omap length fold_left]; lia|cbn [cost fold_left]; lia]|].
  cbn -[cost errors sent_of]. destruct (IH (count_op s op)) as (H1 & H2 & H3).
  cbv zeta in *. rewrite H1, H2, H3. unfold errors, sent_of. destruct op; cbn [count_op omap list_omap sent_unit length cost op_cost
    sc_expected matches substitutions deletions insertions]; (split_and!; [done|lia|lia]).
Qed.

Lemma length_prepare l opts : (length (prepare l opts) <= length l)%nat.
Proof. unfold prepare. rewrite length_map. apply List.filter_length_le. Qed.

Lemma align_units_sound expected copied opts :
  Z.of_nat (length expected + length copied) < 2 ^ 32 ->
  let a := align_units expected copied opts in
  let s := alignment_score a in
  a.(al_expected) = prepare expected opts
  /\ sent_of a.(ops) = prepare expected opts /\ copied_of a.(ops) = prepare copied opts
  /\ (forall l, sent_of l = prepare expected opts -> copied_of l = prepare copied opts -> Z.of_nat (errors s) <= cost l)
  /\ (s.(matches) + s.(substitutions) + s.(deletions) = s.(sc_expected))%nat
  /\ (forall x t, Insertion x t ∈ a.(ops) -> a.(al_expected) <> [] -> exists k, t = Some k /\ (k < length a.(al_expected))%nat).
Proof.
  intros Hsize a s. pose proof (length_prepare expected opts). pose proof (length_prepare copied opts).
  subst s a. unfold align_units, alignment_score. cbn [al_expected ops].
  set (e := prepare expected opts) in *. set (c := prepare copied opts) in *.
  destruct (trace_back_ok e c ltac:(lia) (length e + length c) (length e) (length c))
    as (l & -> & Hs & Hc & Hk); [lia..|]. rewrite firstn_all in Hs, Hc. cbn [default from_option id].
  pose proof (attribute_same sent_unit (rev l) (length e) ltac:(done)) as As.
  pose proof (attribute_same copied_unit (rev l) (length e) ltac:(done)) as Ac.
  change (sent_of (attribute_insertions (rev l) (length e)) = sent_of (rev l)) in As.
  change (copied_of (attribute_insertions (rev l) (length e)) = copied_of (rev l)) in Ac.
  destruct (count_ops (attribute_insertions (rev l) (length e)) (mk_Score (length e) 0 0 0 0)) as (C1 & C2 & C3).
  split_and!; [done|by rewrite As|by rewrite Ac| | |].
  - intros l' Hs' Hc'. rewrite C3, attribute_cost, Hk. cbn. apply lev_least; try lia.
    + by rewrite firstn_all.
    + by rewrite firstn_all.
  - rewrite C1, C2. rewrite As, Hs. cbn. lia.
  - intros x t Hin Hne. apply elem_of_lookup_imap_1 in Hin as (p & op & Hop & Hp).
    destruct op as [| | |y t']; [done..|]. injection Hop as -> ->. rewrite <- Hs in Hne |- *.
    by eapply target_found.
Qed.

(** C18. The table the code fills and traces back gives an
    alignment that is right and cannot be bettered: its steps spell the units
    that were sent and the units that were copied, no other way of turning the
    one into the other has fewer errors, every unit sent is a match, a
    substitution or a deletion, and every extra unit is charged to a unit that
    was sent, unless none was. *)
Theorem align_units_optimal expected copied opts :
  Z.of_nat (length expected + length copied) < 2 ^ 32 ->
  let a := align_units expected copied opts in
  let s := alignment_score a in
  a.(al_expected) = prepare expected opts
  /\ sent_of a.(ops) = prepare expected opts /\ copied_of a.(ops) = prepare copied opts
  /\ (forall l, sent_of l = prepare expected opts -> copied_of l = prepare copied opts -> Z.of_nat (errors s) <= cost l)
  /\ (s.(matches) + s.(substitutions) + s.(deletions) = s.(sc_expected))%nat
  /\ (forall x t, Insertion x t ∈ a.(ops) -> a.(al_expected) <> [] -> exists k, t = Some k /\ (k < length a.(al_expected))%nat).
Proof. apply align_units_sound. Qed.

Lemma align_units_optimal_witness :
  let sent := default [] (match tokenize (txt "ANT") with Ok e => Some e | Err _ => None end) in
  let a := align_units sent (tokenize_copy (txt "aett")) score_options_default in
  Z.of_nat (length sent + length (tokenize_copy (txt "aett"))) < 2 ^ 32
  /\ errors (alignment_score a) = 2%nat /\ sent_of a.(ops) = prepare sent score_options_default
  /\ Insertion (TChar (ch "E")) (Some 1%nat) ∈ a.(ops).
Proof.
  intros sent a. split_and!; [vm_compute; reflexivity|vm_compute; reflexivity| |vm_compute; right; left].
  apply (align_units_optimal sent (tokenize_copy (txt "aett")) score_options_default). vm_compute. reflexivity.
Defined.

(** ** Reading a copy of what can be sent *)

Lemma read_name_find_close t : forall acc off name rest off',
  read_name acc t off = Some (name, rest, off') -> exists n, find_close t = Some (n, rest) /\ name = acc ++ n.
Proof.
  induction t as [|c t IH]; intros acc off name rest off'; cbn; [done|].
  destruct (c =? ch ">"); [intros [= -> -> _]; exists []; by rewrite app_nil_r|].
  intros (n & -> & ->)%IH. exists (c :: n). by rewrite <- app_assoc.
Qed.

Lemma copy_loop_agrees fuel : forall out ps off t ts,
  tokenize_loop fuel out ps off t = Some (Ok ts) -> copy_loop fuel out ps t = Some ts.
Proof.
  induction fuel as [|fuel IH]; intros out ps off [|c t] ts; cbn; try congruence.
  destruct (is_whitespace c); [apply IH|]. unfold copy_unit. destruct (c =? ch "<").
  - destruct (read_name [] t _) as [[[name rest] off']|] eqn:E; [|done].
    apply read_name_find_close in E as (n & -> & ->). cbn. destruct (from_name n); [apply IH|done].
  - destruct (pattern _); [apply IH|done].
Qed.

Lemma tokenize_copy_agrees t ts : tokenize t = Ok ts -> tokenize_copy t = ts.
Proof.
  intros H. unfold tokenize_copy. pose proof (tokenize_terminates t) as Ht. rewrite H in Ht.
  by rewrite (copy_loop_agrees _ _ _ _ _ _ Ht).
Qed.

(** Any text is read: the loop stops within one round per character. *)
Lemma find_close_length t : forall name rest, find_close t = Some (name, rest) -> (length rest < length t)%nat.
Proof.
  induction t as [|c t IH]; intros name rest; cbn; [done|]. destruct (c =? ch ">"); [intros [= _ ->]; lia|].
  destruct (find_close t) as [[n r]|] eqn:E; cbn; [|done]. intros [= _ <-]. specialize (IH _ _ eq_refl). lia.
Qed.
Lemma copy_unit_length c t : (length (copy_unit c t).2 <= length t)%nat.
Proof.
  unfold copy_unit. destruct (c =? ch "<"); [|done]. destruct (find_close t) as [[n r]|] eqn:E; [|done].
  apply find_close_length in E. destruct (from_name n); cbn; lia.
Qed.
Lemma copy_loop_total fuel : forall out ps t, (length t <= fuel)%nat -> is_Some (copy_loop fuel out ps t).
Proof.
  induction fuel as [|fuel IH]; intros out ps [|c t] Hl; cbn [copy_loop length] in *; try done; [lia|].
  destruct (is_whitespace c); [apply IH; lia|]. pose proof (copy_unit_length c t).
  destruct (copy_unit c t) as [u rest]. apply IH. cbn in *. lia.
Qed.

Lemma canonical_idem u : canonical (canonical u) = canonical u.
Proof.
  destruct u as [c|p|]; try done. unfold canonical at 2 3. destruct (List.find (fun '(_, chr) => chr =? to_ascii_uppercase c) SHARED_PATTERNS) as [[p c']|] eqn:E; [done|].
  unfold canonical. by rewrite pattern_upper, E.
Qed.

Lemma perfect_script e : sent_of (map Match e) = e /\ copied_of (map Match e) = e /\ cost (map Match e) = 0.
Proof. induction e as [|x e (H1 & H2 & H3)]; [done|].
  split_and!; [exact (f_equal (cons x) H1)|exact (f_equal (cons x) H2)|exact H3].
Qed.

(** Copying a text exactly scores exactly: when the text can
    be sent, its copy is read as the tokens that were sent, and the alignment
    has no error and as many matches as there are units. *)
Theorem perfect_copy_scores_clean t ts opts :
  tokenize t = Ok ts -> Z.of_nat (length ts + length ts) < 2 ^ 32 ->
  exists a, align t t opts = Ok a
    /\ errors (alignment_score a) = 0%nat /\ (alignment_score a).(matches) = length (prepare ts opts).
Proof.
  intros Ht Hl. exists (align_units ts ts opts). unfold align. rewrite Ht, (tokenize_copy_agrees _ _ Ht).
  split; [done|]. destruct (perfect_script (prepare ts opts)) as (H1 & H2 & H3).
  destruct (align_units_sound ts ts opts Hl) as (Ea & _ & _ & Hmin & Hsum & _).
  specialize (Hmin _ H1 H2). rewrite H3 in Hmin. unfold alignment_score, errors in *. cbv zeta in *.
  destruct (count_ops (ops (align_units ts ts opts)) (mk_Score (length (al_expected (align_units ts ts opts))) 0 0 0 0)) as (C1 & _ & _).
  rewrite Ea in *. cbn [sc_expected] in C1. lia.
Qed.

Lemma perfect_copy_scores_clean_witness :
  let t := txt "cq de <bt> k" in
  let ts := [TChar (ch "C"); TChar (ch "Q"); WordSpace; TChar (ch "D"); TChar (ch "E"); WordSpace; TProsign Bt; WordSpace;
    TChar (ch "K")] in
  tokenize t = Ok ts /\ exists a, align t t score_options_default = Ok a
    /\ errors (alignment_score a) = 0%nat /\ (alignment_score a).(matches) = 9%nat.
Proof.
  split; [vm_compute; reflexivity|].
  destruct (perfect_copy_scores_clean (txt "cq de <bt> k") _ score_options_default ltac:(vm_compute; reflexivity)) as (a & H1 & H2 & H3);
    [vm_compute; reflexivity|]. exists a. split; [exact H1|]. split; [exact H2|]. rewrite H3. vm_compute. reflexivity.
Defined.
