(* ===== verification/Assign.v ===== *)
(** * Assign: the cheapest one-to-one assignment (cat-morse/src/score.rs)

    [hungarian] with its arrays, its growing tree of columns and its
    augmenting path, and the greedy stand-in.  The first is shown to end, and
    to return a permutation no other betters. *)

From stdpp Require Import sorting.
From S2P Require Import Prelude.

(** [i64] arithmetic without overflow checks. *)
Definition i64 (z : Z) : Z := (z + 2 ^ 63) mod 2 ^ 64 - 2 ^ 63.
Definition INF : Z := (2 ^ 63 - 1) / 4.

Section Hungarian.
  Context (cost : list (list Z)).

Definition size : nat := length cost.
Definition cost_at (i j : nat) : Z := (cost !!! i) !!! j.

(** The body of the scan over the columns that are not used yet. *)
Definition scan_col (u v : list Z) (used : list bool) (i0 j0 : nat) (x : list Z * list nat * Z * nat) (j : nat)
  : list Z * list nat * Z * nat :=
  let '(minv, way, delta, j1) := x in
  if (used !!! j : bool) then x
  else
    let cur := i64 (i64 (cost_at (i0 - 1) (j - 1) - u !!! i0) - v !!! j) in
    let '(minv, way) :=
      if cur <? minv !!! j then (<[j := cur]> minv, <[j := j0]> way) : list Z * list nat else (minv, way) in
    if minv !!! j <? delta then (minv, way, minv !!! j, j) else (minv, way, delta, j1).
Definition scan (u v : list Z) (used : list bool) (i0 j0 : nat) (minv : list Z) (way : list nat)
  : list Z * list nat * Z * nat :=
  fold_left (scan_col u v used i0 j0) (seq 1 size) (minv, way, INF, 0%nat).

(** The body of the update of the potentials. *)
Definition shift_col (p : list nat) (used : list bool) (delta : Z) (x : list Z * list Z * list Z) (j : nat)
  : list Z * list Z * list Z :=
  let '(u, v, minv) := x in
  if (used !!! j : bool) then
    (<[(p !!! j) := i64 (u !!! (p !!! j) + delta)]> u, <[j := i64 (v !!! j - delta)]> v, minv)
  else (u, v, <[j := i64 (minv !!! j - delta)]> minv).
Definition shift (p : list nat) (used : list bool) (delta : Z) (u v minv : list Z) : list Z * list Z * list Z :=
  fold_left (shift_col p used delta) (seq 0 (S size)) (u, v, minv).

(** The first inner loop; [None] when the fuel is used up. *)
Fixpoint grow (fuel : nat) (p : list nat) (j0 : nat) (u v minv : list Z) (way : list nat) (used : list bool)
  : option (list Z * list Z * list nat * nat) :=
  match fuel with
  | O => None
  | S fuel =>
      let used := <[j0 := true]> used in
      let '(minv, way, delta, j1) := scan u v used (p !!! j0) j0 minv way in
      let '(u, v, minv) := shift p used delta u v minv in
      if (p !!! j1 =? 0)%nat then Some (u, v, way, j1) else grow fuel p j1 u v minv way used
  end.

(** The second: back along the way. *)
Fixpoint augment (fuel : nat) (way p : list nat) (j0 : nat) : option (list nat) :=
  match fuel with
  | O => None
  | S fuel =>
      let j1 := way !!! j0 in
      let p := <[j0 := p !!! j1]> p in
      if (j1 =? 0)%nat then Some p else augment fuel way p j1
  end.

Definition add_row (x : list Z * list Z * list nat * list nat) (i : nat) : option (list Z * list Z * list nat * list nat) :=
  let '(u, v, p, way) := x in
  let p := <[0%nat := i]> p in
  '(u, v, way, j0) ← grow (S size) p 0 u v (replicate (S size) INF) way (replicate (S size) false);
  p ← augment (S size) way p j0;
  Some (u, v, p, way).
Fixpoint add_rows (x : list Z * list Z * list nat * list nat) (rows : list nat) : option (list Z * list Z * list nat * list nat) :=
  match rows with [] => Some x | i :: rows => x ← add_row x i; add_rows x rows end.

Definition read_row (p : list nat) (ans : list nat) (j : nat) : list nat :=
  if (0 <? p !!! j)%nat then <[(p !!! j - 1)%nat := (j - 1)%nat]> ans else ans.
Definition read_off (p : list nat) : list nat := fold_left (read_row p) (seq 1 size) (replicate size 0%nat).

Definition hungarian : option (list nat) :=
  '(_, _, p, _) ← add_rows (replicate (S size) 0, replicate (S size) 0, replicate (S size) 0%nat, replicate (S size) 0%nat) (seq 1 size);
  Some (read_off p).
End Hungarian.

Example hungarian_small : hungarian [[4; 1; 3]; [2; 0; 5]; [3; 2; 2]] = Some [1; 0; 2]%nat.
Proof. vm_compute. reflexivity. Qed.

(** ** Small facts *)

Lemma i64_small z : - 2 ^ 63 <= z < 2 ^ 63 -> i64 z = z.
Proof. intros H. unfold i64. rewrite Z.mod_small; lia. Qed.

Lemma INF_value : INF = 2305843009213693951.
Proof. reflexivity. Qed.

Lemma insert_at {A} `{Inhabited A} (l : list A) i j x : (i < length l)%nat ->
  <[i := x]> l !!! j = if decide (i = j) then x else l !!! j.
Proof.
  intros Hi. case_decide as E; [subst; by apply list_lookup_total_insert_eq|by apply list_lookup_total_insert_ne].
Qed.

Lemma replicate_at {A} `{Inhabited A} n (x : A) j : (j < n)%nat -> replicate n x !!! j = x.
Proof. apply lookup_total_replicate_2. Qed.

(** ** The scan *)

Section Scan.
  Context (cost : list (list Z)) (u v : list Z) (used : list bool) (i0 j0 : nat).
  Abbreviation n := (size cost).

Definition cur (j : nat) : Z := i64 (i64 (cost_at cost (i0 - 1) (j - 1) - u !!! i0) - v !!! j).
Definition open_col (j : nat) : Prop := (1 <= j <= n)%nat /\ used !!! j = false.

(** What the scan has done after the first [k] columns. *)
Record scanned (minv : list Z) (way : list nat) (k : nat) (x : list Z * list nat * Z * nat) : Prop := mk_scanned {
  sd_lengths : length x.1.1.1 = length minv /\ length x.1.1.2 = length way;
  sd_open : forall j, (1 <= j <= k)%nat -> used !!! j = false ->
    x.1.1.1 !!! j = Z.min (minv !!! j) (cur j)
    /\ x.1.1.2 !!! j = if cur j <? minv !!! j then j0 else way !!! j;
  sd_other : forall j, (k < j)%nat \/ used !!! j = true \/ j = 0%nat ->
    x.1.1.1 !!! j = minv !!! j /\ x.1.1.2 !!! j = way !!! j;
  sd_least : forall j, (1 <= j <= k)%nat -> used !!! j = false -> x.1.2 <= x.1.1.1 !!! j;
  sd_found : (x.1.2 = INF /\ x.2 = 0%nat) \/ ((1 <= x.2 <= k)%nat /\ used !!! x.2 = false /\ x.1.2 = x.1.1.1 !!! x.2) }.

Lemma scanned_step minv way k x :
  length minv = S n -> length way = S n -> (S k <= n)%nat ->
  scanned minv way k x -> scanned minv way (S k) (scan_col cost u v used i0 j0 x (S k)).
Proof.
  intros Hm Hw Hk [[L1 L2] Ho Hu Hl Hf]. destruct x as [[[m w] delta] j1]. cbn [fst snd] in *. unfold scan_col.
  destruct (Hu (S k)) as [Em Ew]; [left; lia|].
  destruct (used !!! S k) eqn:Eu.
  { split; cbn [fst snd]; [done| | | |].
    - intros j Hj Ej. destruct (decide (j = S k)) as [->|]; [congruence|]. apply Ho; [lia|done].
    - intros j Hj. apply Hu. destruct Hj as [?|[?|?]]; [left; lia|by right; left|by right; right].
    - intros j Hj Ej. destruct (decide (j = S k)) as [->|]; [congruence|]. apply Hl; [lia|done].
    - destruct Hf as [?|(? & ? & ?)]; [by left|right]. split; [lia|done]. }
  fold (cur (S k)).
  set (m' := if cur (S k) <? m !!! S k then <[S k := cur (S k)]> m else m).
  set (w' := if cur (S k) <? m !!! S k then <[S k := j0]> w else w).
  assert (Hm' : m' !!! S k = Z.min (minv !!! S k) (cur (S k)) /\ w' !!! S k = (if cur (S k) <? minv !!! S k then j0 else way !!! S k)
                /\ (forall j, j <> S k -> m' !!! j = m !!! j /\ w' !!! j = w !!! j) /\ length m' = length m /\ length w' = length w).
  { unfold m', w'. rewrite Em. destruct (Z.ltb_spec (cur (S k)) (minv !!! S k)).
    - rewrite !insert_at, !decide_True by (done || lia). rewrite !length_insert. split_and!; [lia|done| |done|done].
      intros j Hj. by rewrite !list_lookup_total_insert_ne by done.
    - split_and!; [lia|done|done|done|done]. }
  destruct Hm' as (M1 & M2 & M3 & M4 & M5).
  replace (if cur (S k) <? m !!! S k then (<[S k:=cur (S k)]> m, <[S k:=j0]> w) else (m, w)) with (m', w')
    by (unfold m', w'; by destruct (_ <? _)).
  assert (Hcols : forall j, (1 <= j <= S k)%nat -> used !!! j = false ->
    m' !!! j = Z.min (minv !!! j) (cur j) /\ w' !!! j = if cur j <? minv !!! j then j0 else way !!! j).
  { intros j Hj Ej. destruct (decide (j = S k)) as [->|Hne]; [done|]. destruct (M3 j Hne) as [-> ->]. apply Ho; [lia|done]. }
  assert (Hrest : forall j, (S k < j)%nat \/ used !!! j = true \/ j = 0%nat -> m' !!! j = minv !!! j /\ w' !!! j = way !!! j).
  { intros j Hj. assert (j <> S k) by (intros ->; destruct Hj as [?|[?|?]]; [lia|congruence|lia]).
    destruct (M3 j ltac:(done)) as [-> ->]. apply Hu. destruct Hj as [?|[?|?]]; [left; lia|by right; left|by right; right]. }
  destruct (Z.ltb_spec (m' !!! S k) delta) as [Hlt|Hge].
  - split; cbn [fst snd]; [lia|done|done| |].
    + intros j Hj Ej. destruct (decide (j = S k)) as [->|Hne]; [lia|]. destruct (M3 j Hne) as [-> _].
      specialize (Hl j ltac:(lia) Ej). lia.
    + right. split; [lia|done].
  - split; cbn [fst snd]; [lia|done|done| |].
    + intros j Hj Ej. destruct (decide (j = S k)) as [->|Hne]; [lia|]. destruct (M3 j Hne) as [-> _]. apply Hl; [lia|done].
    + destruct Hf as [?|(? & ? & ->)]; [by left|right]. split_and!; [lia|lia|done|]. destruct (M3 j1 ltac:(lia)) as [-> _]. done.
Qed.

Lemma scan_ok minv way : length minv = S n -> length way = S n ->
  scanned minv way n (scan cost u v used i0 j0 minv way).
Proof.
  intros Hm Hw. unfold scan.
  assert (H : forall k, (k <= n)%nat ->
    scanned minv way k (fold_left (scan_col cost u v used i0 j0) (seq 1 k) (minv, way, INF, 0%nat))).
  { induction k as [|k IH]; intros Hk.
    - split; cbn; [done|lia|done|lia|by left].
    - rewrite seq_S, fold_left_app. cbn [fold_left Nat.add]. apply scanned_step; [done|done|done|apply IH; lia]. }
  apply H. done.
Qed.
End Scan.

(** ** The shift of the potentials *)

Section Shift.
  Context (cost : list (list Z)) (p : list nat) (used : list bool) (delta : Z).
  Abbreviation n := (size cost).
  Context (Hp : forall j, (j <= n)%nat -> (p !!! j <= n)%nat).
  Context (Hinj : forall j j', (j <= n)%nat -> (j' <= n)%nat -> used !!! j = true -> used !!! j' = true ->
             p !!! j = p !!! j' -> j = j').

Record shifted (u v minv : list Z) (k : nat) (x : list Z * list Z * list Z) : Prop := mk_shifted {
  sf_lengths : length x.1.1 = length u /\ length x.1.2 = length v /\ length x.2 = length minv;
  sf_row : forall j, (j < k)%nat -> used !!! j = true -> x.1.1 !!! (p !!! j) = i64 (u !!! (p !!! j) + delta);
  sf_other_row : forall r, (forall j, (j < k)%nat -> used !!! j = true -> p !!! j <> r) -> x.1.1 !!! r = u !!! r;
  sf_col : forall j, x.1.2 !!! j = if (j <? k)%nat && used !!! j then i64 (v !!! j - delta) else v !!! j;
  sf_minv : forall j, x.2 !!! j = if (j <? k)%nat && negb (used !!! j) then i64 (minv !!! j - delta) else minv !!! j }.

Lemma below_S j k : (j <? S k)%nat = (j <? k)%nat || (j =? k)%nat.
Proof. destruct (Nat.ltb_spec j (S k)), (Nat.ltb_spec j k), (Nat.eqb_spec j k); cbn [orb]; (done || (exfalso; lia)). Qed.

Lemma shifted_step u v minv k x : length u = S n -> length v = S n -> length minv = S n -> (k <= n)%nat ->
  shifted u v minv k x -> shifted u v minv (S k) (shift_col p used delta x k).
Proof.
  intros Hu Hv Hm Hk [(L1 & L2 & L3) Hr Ho Hc Hmv]. destruct x as [[u' v'] m']. cbn [fst snd] in *. unfold shift_col.
  pose proof (Hc k) as Hck. pose proof (Hmv k) as Hmk. rewrite Nat.ltb_irrefl in Hck, Hmk. cbn in Hck, Hmk.
  destruct (used !!! k) eqn:Eu; (split; cbn [fst snd]; [rewrite ?length_insert; done|..]).
  - intros j Hj Ej. rewrite insert_at by (specialize (Hp k Hk); lia). case_decide as E.
    + assert (j = k) as -> by (symmetry; apply Hinj; [lia|lia|done|done|done]). rewrite Ho; [done|].
      intros i Hi Ei E'. assert (i = k) by (apply Hinj; [lia|lia|done|done|done]). lia.
    + apply Hr; [|done]. assert (j <> k) by congruence. lia.
  - intros r Hnr. rewrite list_lookup_total_insert_ne by (apply Hnr; [lia|done]). apply Ho. intros j Hj. apply Hnr. lia.
  - intros j. rewrite insert_at by lia. rewrite below_S. case_decide as E; [subst; rewrite Nat.eqb_refl, orb_true_r, Eu, Hck; done|].
    rewrite (proj2 (Nat.eqb_neq j k)), orb_false_r by done. apply Hc.
  - intros j. rewrite Hmv, below_S. destruct (Nat.eqb_spec j k) as [->|]; [|by rewrite orb_false_r].
    by rewrite Eu, !andb_false_r.
  - intros j Hj Ej. apply Hr; [|done]. assert (j <> k) by congruence. lia.
  - intros r Hnr. apply Ho. intros j Hj. apply Hnr. lia.
  - intros j. rewrite Hc, below_S. destruct (Nat.eqb_spec j k) as [->|]; [|by rewrite orb_false_r].
    by rewrite Eu, !andb_false_r.
  - intros j. rewrite insert_at by lia. rewrite below_S. case_decide as E; [subst; rewrite Nat.eqb_refl, orb_true_r, Eu, Hmk; done|].
    rewrite (proj2 (Nat.eqb_neq j k)), orb_false_r by done. apply Hmv.
Qed.

Lemma shift_ok u v minv : length u = S n -> length v = S n -> length minv = S n ->
  shifted u v minv (S n) (shift cost p used delta u v minv).
Proof.
  intros Hu Hv Hm. unfold shift.
  assert (H : forall k, (k <= S n)%nat -> shifted u v minv k (fold_left (shift_col p used delta) (seq 0 k) (u, v, minv))).
  { induction k as [|k IH]; intros Hk; [split; cbn; [done|lia|done|done|done]|].
    rewrite seq_S, fold_left_app. cbn [fold_left Nat.add]. apply shifted_step; [done|done|done|lia|apply IH; lia]. }
  apply H. done.
Qed.
End Shift.

(** ** The matching and its potentials *)

Section Phases.
  Context (cost : list (list Z)) (C : Z).
  Abbreviation n := (size cost).
  Context (Hcost : forall i j, (i < n)%nat -> (j < n)%nat -> 0 <= cost_at cost i j <= C).
  Context (HC : 2 * C < INF).

(** Rows and columns count from one; column 0 holds the row being added. *)
Definition red (u v : list Z) (r j : nat) : Z := cost_at cost (r - 1) (j - 1) - u !!! r - v !!! j.
Definition inside (k : nat) : Prop := (1 <= k <= n)%nat.

Record potentials (u v : list Z) (p : list nat) : Prop := mk_potentials {
  po_u : length u = S n; po_v : length v = S n;
  po_feasible : forall r j, inside r -> inside j -> 0 <= red u v r j;
  po_rows : forall r, inside r -> 0 <= u !!! r;
  po_cols : forall j, inside j -> v !!! j <= 0;
  po_free : forall j, inside j -> p !!! j = 0%nat -> v !!! j = 0 }.

(** Rows [1..i] are matched by the columns other than [h], along edges whose
    reduced cost is zero. *)
Record matching (u v : list Z) (i : nat) (p : list nat) (h : nat) : Prop := mk_matching {
  ma_p : length p = S n;
  ma_range : forall j, (j <= n)%nat -> j <> h -> (p !!! j <= i)%nat;
  ma_tight : forall j, inside j -> j <> h -> p !!! j <> 0%nat -> red u v (p !!! j) j = 0;
  ma_inj : forall j j', (j <= n)%nat -> (j' <= n)%nat -> j <> h -> j' <> h -> p !!! j = p !!! j' -> p !!! j <> 0%nat -> j = j';
  ma_sur : forall r, (1 <= r <= i)%nat -> exists j, (j <= n)%nat /\ j <> h /\ p !!! j = r }.

(** A column is free while a row is being added. *)
Lemma free_column u v i p : matching u v i p (S n) -> (1 <= i <= n)%nat -> p !!! 0%nat = i ->
  exists j, inside j /\ p !!! j = 0%nat.
Proof.
  intros [Hl Hr Ht Hi Hs] Hin H0.
  destruct (decide (Exists (fun j => p !!! j = 0%nat) (seq 1 n))) as [He|Hne].
  { apply Exists_exists in He as (j & Hj & E). exists j. split; [|done]. apply elem_of_seq in Hj. unfold inside. lia. }
  exfalso. assert (Hall : forall j, inside j -> p !!! j <> 0%nat).
  { intros j Hj E. apply Hne, Exists_exists. exists j. split; [|done]. apply elem_of_seq. unfold inside in Hj. lia. }
  assert (Hd : List.NoDup (map (fun j => p !!! j) (seq 0 (S n)))).
  { apply NoDup_ListNoDup, NoDup_fmap_2_strong; [|apply NoDup_ListNoDup, seq_NoDup]. intros j j' Hj Hj' E.
    apply elem_of_seq in Hj, Hj'. apply Hi; [lia|lia|lia|lia|done|].
    destruct (decide (j = 0%nat)) as [->|]; [lia|apply Hall; unfold inside; lia]. }
  assert (Hincl : incl (map (fun j => p !!! j) (seq 0 (S n))) (seq 1 i)).
  { intros r Hx. apply in_map_iff in Hx as (j & <- & Hj). apply in_seq in Hj. apply in_seq.
    specialize (Hr j ltac:(lia) ltac:(lia)). destruct (decide (j = 0%nat)) as [->|]; [lia|].
    specialize (Hall j ltac:(unfold inside; lia)). lia. }
  apply (NoDup_incl_length Hd) in Hincl. rewrite length_map, !length_seq in Hincl. lia.
Qed.

Lemma red_bounds u v i p j0 : potentials u v p -> matching u v i p (S n) -> (i <= n)%nat ->
  inside j0 -> p !!! j0 = 0%nat ->
  (forall r, inside r -> 0 <= u !!! r <= C) /\ (forall j, inside j -> - C <= v !!! j <= 0)
  /\ (forall r j, inside r -> inside j -> 0 <= red u v r j <= 2 * C).
Proof.
  intros [Lu Lv Hf Hu Hv Hz] [Lp Hr Ht _ _] Hi Hj0 E0. unfold inside in *.
  assert (HU : forall r, inside r -> 0 <= u !!! r <= C).
  { unfold inside. intros r Hr'. split; [by apply Hu|]. specialize (Hf r j0 Hr' Hj0). unfold red in Hf. rewrite (Hz j0 Hj0 E0) in Hf.
    specialize (Hcost (r - 1) (j0 - 1) ltac:(lia) ltac:(lia)). lia. }
  assert (HV : forall j, inside j -> - C <= v !!! j <= 0).
  { unfold inside in *. intros j Hj. split; [|by apply Hv]. destruct (decide (p !!! j = 0%nat)) as [E|E].
    - rewrite (Hz j Hj E). specialize (HU j Hj). lia.
    - specialize (Ht j Hj ltac:(lia) E). specialize (Hr j ltac:(lia) ltac:(lia)). specialize (HU (p !!! j) ltac:(lia)).
      unfold red in Ht. specialize (Hcost (p !!! j - 1) (j - 1) ltac:(lia) ltac:(lia)). lia. }
  split; [exact HU|]. split; [exact HV|]. unfold inside in *. intros r j Hr' Hj. split; [by apply Hf|].
  specialize (HU r Hr'). specialize (HV j Hj). specialize (Hcost (r - 1) (j - 1) ltac:(lia) ltac:(lia)). unfold red. lia.
Qed.
(** ** The tree of used columns *)

(** Newest first: every column but the root hangs on an older one by an edge
    whose reduced cost is zero, and is matched. *)
Inductive chain (u v : list Z) (p way : list nat) : list nat -> Prop :=
| chain_root : chain u v p way [0%nat]
| chain_grow t T : chain u v p way T -> t ∉ T -> inside t -> way !!! t ∈ T ->
    red u v (p !!! (way !!! t)) t = 0 -> p !!! t <> 0%nat -> chain u v p way (t :: T).

(** The cheapest edge from the tree to a column outside it. *)
Definition cheapest (u v : list Z) (p way : list nat) (minv : list Z) (T : list nat) (j : nat) : Prop :=
  way !!! j ∈ T /\ minv !!! j = red u v (p !!! (way !!! j)) j /\ forall t, t ∈ T -> minv !!! j <= red u v (p !!! t) j.

Record growing (u v : list Z) (i : nat) (p way : list nat) (minv : list Z) (used : list bool) (T : list nat) : Prop := mk_growing {
  g_pot : potentials u v p;
  g_match : matching u v i p (S n);
  g_row : (1 <= i <= n)%nat /\ p !!! 0%nat = i;
  g_lengths : length minv = S n /\ length way = S n /\ length used = S n;
  g_used : forall j, (j <= n)%nat -> used !!! j = true <-> j ∈ T }.

Lemma chain_nodes u v p way T : chain u v p way T -> p !!! 0%nat <> 0%nat ->
  NoDup T /\ 0%nat ∈ T /\ forall t, t ∈ T -> (t <= n)%nat /\ p !!! t <> 0%nat.
Proof.
  intros Hc H0. induction Hc as [|t T Hc (IH1 & IH2 & IH3) Ht Hin Hw Hr Hp].
  - split_and!; [by apply NoDup_singleton|by left|]. intros t ->%list_elem_of_singleton. split; [lia|done].
  - split_and!; [by constructor|by right|]. intros t' [->|Ht']%elem_of_cons; [split; [unfold inside in Hin; lia|done]|by apply IH3].
Qed.

Lemma chain_same u v p way u' v' way' T : chain u v p way T ->
  (forall t, t ∈ T -> way' !!! t = way !!! t) ->
  (forall t s, t ∈ T -> s ∈ T -> inside s -> red u' v' (p !!! t) s = red u v (p !!! t) s) ->
  chain u' v' p way' T.
Proof.
  intros Hc. induction Hc as [|t T Hc IH Ht Hin Hw Hr Hp]; intros Ew Er; [constructor|].
  assert (E : way' !!! t = way !!! t) by (apply Ew; left). constructor; rewrite ?E; try done.
  - apply IH; intros; [apply Ew; by right|apply Er; [by right|by right|done]].
  - rewrite Er; [done|by right|left|done].
Qed.

(** One round: the tree takes in [j0], the potentials shift, and the column
    found hangs on the tree by an edge of reduced cost zero. *)
Section Round.
  Context (u v : list Z) (i : nat) (p way : list nat) (minv : list Z) (used : list bool) (T : list nat) (j0 : nat).
  Context (Hg : growing u v i p way minv used T) (Hchain : chain u v p way (j0 :: T)).
  Context (Hmin : forall j, inside j -> j ∉ T ->
             (T = [] /\ minv !!! j = INF) \/ cheapest u v p way minv T j).
  Abbreviation used' := (<[j0 := true]> used).
  Abbreviation scan' := (scan cost u v used' (p !!! j0) j0 minv way).
  Abbreviation minv' := scan'.1.1.1.
  Abbreviation way' := scan'.1.1.2.
  Abbreviation delta := scan'.1.2.
  Abbreviation j1 := scan'.2.

Lemma tree_nodes : NoDup (j0 :: T) /\ 0%nat ∈ j0 :: T
  /\ forall t, t ∈ j0 :: T -> (t <= n)%nat /\ inside (p !!! t).
Proof.
  destruct Hg as [_ Hm [Hi H0] _ _]. destruct (chain_nodes _ _ _ _ _ Hchain) as (H1 & H2 & H3); [lia|].
  split_and!; [done|done|]. intros t Ht. destruct (H3 t Ht) as [Hl Hp]. split; [done|].
  pose proof (ma_range _ _ _ _ _ Hm t Hl ltac:(lia)). unfold inside. lia.
Qed.

Lemma used_tree j : (j <= n)%nat -> used' !!! j = true <-> j ∈ j0 :: T.
Proof.
  intros Hj. destruct Hg as [_ _ _ (_ & _ & Lu) Hu]. destruct tree_nodes as (_ & _ & Hn).
  destruct (Hn j0) as [Hj0 _]; [left|]. rewrite insert_at by lia. rewrite elem_of_cons. case_decide as E; [subst; tauto|].
  rewrite (Hu j Hj). split; [auto|]. by intros [?|?].
Qed.

Lemma unused_tree j : (j <= n)%nat -> used' !!! j = false <-> j ∉ j0 :: T.
Proof. intros Hj. rewrite <- (used_tree j Hj). by destruct (used' !!! j). Qed.

Lemma bounds : (forall r, inside r -> 0 <= u !!! r <= C) /\ (forall j, inside j -> - C <= v !!! j <= 0)
  /\ (forall r j, inside r -> inside j -> 0 <= red u v r j <= 2 * C).
Proof.
  destruct Hg as [Hpot Hm [Hi H0] _ _]. destruct (free_column _ _ _ _ Hm Hi H0) as (j & Hj & E).
  apply (red_bounds u v i p j Hpot Hm); [lia|done|done].
Qed.

Lemma cur_red j : inside j -> cur cost u v (p !!! j0) j = red u v (p !!! j0) j.
Proof.
  intros Hj. destruct bounds as (HU & HV & HR). destruct tree_nodes as (_ & _ & Hn). destruct (Hn j0) as [_ Hr]; [left|].
  specialize (HU _ Hr). specialize (HV _ Hj). specialize (HR _ _ Hr Hj). unfold cur, red in *. rewrite INF_value in HC.
  rewrite (i64_small (cost_at _ _ _ - _)); [apply i64_small|]; lia.
Qed.

Lemma scanned_tree : scanned cost u v used' (p !!! j0) j0 minv way n scan'.
Proof. destruct Hg as [_ _ _ (L1 & L2 & _) _]. by apply scan_ok. Qed.

Lemma cheapest_tree j : inside j -> j ∉ j0 :: T -> cheapest u v p way' minv' (j0 :: T) j.
Proof.
  intros Hj Hnj. pose proof Hj as [Hj1 Hj2]. destruct (sd_open _ _ _ _ _ _ _ _ _ _ scanned_tree j Hj) as [E1 E2]; [by apply unused_tree|].
  rewrite (cur_red j Hj) in E1, E2. destruct bounds as (_ & _ & HR). destruct tree_nodes as (_ & _ & Hn).
  assert (Hr0 : 0 <= red u v (p !!! j0) j <= 2 * C) by (apply HR; [apply Hn; left|done]).
  unfold cheapest. rewrite E1, E2. destruct (Hmin j Hj) as [[-> Hi]|(Hw & Hm & Hl)]; [by apply not_elem_of_cons in Hnj as [_ ?]| |].
  - rewrite Hi. rewrite (proj2 (Z.ltb_lt _ _)) by lia. split_and!; [left|lia|]. intros t ->%list_elem_of_singleton. lia.
  - destruct (Z.ltb_spec (red u v (p !!! j0) j) (minv !!! j)).
    + split_and!; [left|lia|]. intros t [->|Ht]%elem_of_cons; [lia|]. specialize (Hl t Ht). lia.
    + split_and!; [by right|lia|]. intros t [->|Ht]%elem_of_cons; [lia|]. specialize (Hl t Ht). lia.
Qed.

Lemma column_found : inside j1 /\ (j1 ∉ j0 :: T) /\ delta = minv' !!! j1 /\ 0 <= delta <= 2 * C
  /\ forall j, inside j -> j ∉ j0 :: T -> delta <= minv' !!! j.
Proof.
  destruct Hg as [Hpot Hm [Hi H0] _ _]. destruct (free_column _ _ _ _ Hm Hi H0) as (f & Hf & Ef).
  destruct bounds as (_ & _ & HR). destruct tree_nodes as (_ & _ & Hn).
  assert (Hlow : forall j, inside j -> j ∉ j0 :: T -> 0 <= minv' !!! j <= 2 * C).
  { intros j Hj Hnj. destruct (cheapest_tree j Hj Hnj) as (Hw & -> & _). apply HR; [by apply Hn|done]. }
  assert (Hleast : forall j, inside j -> j ∉ j0 :: T -> delta <= minv' !!! j).
  { intros j Hj Hnj. apply (sd_least _ _ _ _ _ _ _ _ _ _ scanned_tree j Hj). apply unused_tree; [unfold inside in Hj; lia|done]. }
  assert (Hnf : f ∉ j0 :: T). { intros Hin. destruct (Hn f Hin) as [_ Hx]. unfold inside in Hx. lia. }
  pose proof (Hleast f Hf Hnf) as Hd. pose proof (Hlow f Hf Hnf) as Hm2.
  destruct (sd_found _ _ _ _ _ _ _ _ _ _ scanned_tree) as [[E _]|(Hj1 & Hu1 & Ed)]; [lia|].
  assert (Hn1 : j1 ∉ j0 :: T) by (apply unused_tree; [lia|done]).
  specialize (Hlow j1 Hj1 Hn1). split_and!; [apply Hj1|done|done|lia|lia|done].
Qed.

  Abbreviation shift' := (shift cost p used' delta u v minv').
  Abbreviation u' := shift'.1.1.
  Abbreviation v' := shift'.1.2.
  Abbreviation minv'' := shift'.2.

Lemma shifted_tree : shifted p used' delta u v minv' (S n) shift'.
Proof.
  destruct Hg as [[Lu Lv _ _ _ _] Hm [Hi H0] (L1 & L2 & L3) _].
  destruct (sd_lengths _ _ _ _ _ _ _ _ _ _ scanned_tree) as [E1 _]. destruct tree_nodes as (_ & _ & Hn).
  apply shift_ok; [| |done|done|congruence].
  - intros j Hj. pose proof (ma_range _ _ _ _ _ Hm j Hj ltac:(lia)). lia.
  - intros j j' Hj Hj' Uj Uj' E. apply (ma_inj _ _ _ _ _ Hm j j'); [done|done|lia|lia|done|].
    apply used_tree in Uj; [|done]. destruct (Hn j Uj) as [_ Hx]. unfold inside in Hx. lia.
Qed.

Lemma row_moves t : t ∈ j0 :: T -> u' !!! (p !!! t) = u !!! (p !!! t) + delta.
Proof.
  intros Ht. destruct tree_nodes as (_ & _ & Hn). destruct (Hn t Ht) as [Hl Hr].
  rewrite (sf_row _ _ _ _ _ _ _ _ shifted_tree t) by (lia || by apply used_tree).
  destruct bounds as (HU & _ & _). specialize (HU _ Hr). destruct column_found as (_ & _ & _ & Hd & _). rewrite INF_value in HC.
  apply i64_small. lia.
Qed.
Lemma row_stays r : (forall t, t ∈ j0 :: T -> p !!! t <> r) -> u' !!! r = u !!! r.
Proof.
  intros H. apply (sf_other_row _ _ _ _ _ _ _ _ shifted_tree). intros j Hj Hu. apply H. apply used_tree; [lia|done].
Qed.
Lemma col_moves j : inside j -> j ∈ j0 :: T -> v' !!! j = v !!! j - delta.
Proof.
  intros Hj Ht. unfold inside in Hj. rewrite (sf_col _ _ _ _ _ _ _ _ shifted_tree j), (proj2 (Nat.ltb_lt _ _)) by lia.
  rewrite (proj2 (used_tree j ltac:(lia)) Ht). cbn. destruct bounds as (_ & HV & _). specialize (HV _ Hj).
  destruct column_found as (_ & _ & _ & Hd & _). rewrite INF_value in HC. apply i64_small. lia.
Qed.
Lemma col_stays j : inside j -> j ∉ j0 :: T -> v' !!! j = v !!! j.
Proof.
  intros Hj Ht. unfold inside in Hj. rewrite (sf_col _ _ _ _ _ _ _ _ shifted_tree j).
  rewrite (proj2 (unused_tree j ltac:(lia)) Ht), andb_false_r. done.
Qed.
Lemma minv_moves j : inside j -> j ∉ j0 :: T -> minv'' !!! j = minv' !!! j - delta.
Proof.
  intros Hj Ht. pose proof Hj as Hj'. unfold inside in Hj'. rewrite (sf_minv _ _ _ _ _ _ _ _ shifted_tree j), (proj2 (Nat.ltb_lt _ _)) by lia.
  rewrite (proj2 (unused_tree j ltac:(lia)) Ht). cbn. destruct column_found as (_ & _ & _ & Hd & Hl). specialize (Hl j Hj Ht).
  destruct (cheapest_tree j Hj Ht) as (Hw & E & _). destruct bounds as (_ & _ & HR). destruct tree_nodes as (_ & _ & Hn).
  specialize (HR _ _ (proj2 (Hn _ Hw)) Hj). rewrite INF_value in HC. apply i64_small. lia.
Qed.

(** What the shift does to reduced costs. *)
Lemma red_tree t j : t ∈ j0 :: T -> inside j ->
  red u' v' (p !!! t) j = red u v (p !!! t) j - (if decide (j ∈ j0 :: T) then 0 else delta).
Proof.
  intros Ht Hj. unfold red. rewrite (row_moves t Ht). case_decide as E; [rewrite (col_moves j Hj E)|rewrite (col_stays j Hj E)]; lia.
Qed.
Lemma red_outside r j : (forall t, t ∈ j0 :: T -> p !!! t <> r) -> inside j ->
  red u' v' r j = red u v r j + (if decide (j ∈ j0 :: T) then delta else 0).
Proof.
  intros Hr Hj. unfold red. rewrite (row_stays r Hr). case_decide as E; [rewrite (col_moves j Hj E)|rewrite (col_stays j Hj E)]; lia.
Qed.
Lemma row_cases r : (exists t, t ∈ j0 :: T /\ p !!! t = r) \/ (forall t, t ∈ j0 :: T -> p !!! t <> r).
Proof.
  destruct (decide (Exists (fun t => p !!! t = r) (j0 :: T))) as [H|H]; [left; by apply Exists_exists|right].
  intros t Ht E. apply H, Exists_exists. eauto.
Qed.

Lemma potentials_kept : potentials u' v' p.
Proof.
  destruct column_found as (_ & _ & _ & Hd & Hl). destruct (g_pot _ _ _ _ _ _ _ _ Hg) as [Lu Lv Hf Hu Hv Hz].
  destruct (sf_lengths _ _ _ _ _ _ _ _ shifted_tree) as (E1 & E2 & _). destruct tree_nodes as (_ & _ & Hn).
  split; [congruence|congruence| | | |].
  - intros r j Hr Hj. destruct (row_cases r) as [(t & Ht & <-)|Ho].
    + rewrite (red_tree t j Ht Hj). case_decide as E; [specialize (Hf _ j Hr Hj); lia|].
      destruct (cheapest_tree j Hj E) as (_ & _ & Hc). specialize (Hc t Ht). specialize (Hl j Hj E). lia.
    + rewrite (red_outside r j Ho Hj). specialize (Hf r j Hr Hj). case_decide; lia.
  - intros r Hr. specialize (Hu r Hr). destruct (row_cases r) as [(t & Ht & <-)|Ho]; [rewrite (row_moves t Ht)|rewrite (row_stays r Ho)]; lia.
  - intros j Hj. specialize (Hv j Hj). destruct (decide (j ∈ j0 :: T)) as [E|E]; [rewrite (col_moves j Hj E)|rewrite (col_stays j Hj E)]; lia.
  - intros j Hj E. rewrite (col_stays j Hj); [by apply Hz|]. intros Ht. destruct (Hn j Ht) as [_ Hx]. unfold inside in Hx. lia.
Qed.

Lemma matching_kept : matching u' v' i p (S n).
Proof.
  destruct (g_match _ _ _ _ _ _ _ _ Hg) as [Lp Hr Ht Hi Hs]. destruct tree_nodes as (_ & _ & Hn).
  split; try done. intros j Hj Hne Hp. rewrite <- (Ht j Hj Hne Hp). destruct (decide (j ∈ j0 :: T)) as [E|E].
  - rewrite (red_tree j j E Hj), decide_True by done. lia.
  - rewrite (red_outside (p !!! j) j), decide_False by (done || intros t Ht' Et; apply E;
      assert (t = j) as <- by (apply Hi; [apply (Hn t Ht')|unfold inside in Hj; lia|destruct (Hn t Ht'); lia|done|done|congruence]); done). lia.
Qed.

Lemma chain_kept : chain u' v' p way' (j0 :: T).
Proof.
  eapply chain_same; [exact Hchain| |].
  - intros t Ht. destruct tree_nodes as (_ & _ & Hn). apply (sd_other _ _ _ _ _ _ _ _ _ _ scanned_tree).
    right. left. apply used_tree; [apply (Hn t Ht)|done].
  - intros t s Ht Hs Hin. rewrite (red_tree t s Ht Hin), decide_True by done. lia.
Qed.

Lemma cheapest_kept j : inside j -> j ∉ j0 :: T -> cheapest u' v' p way' minv'' (j0 :: T) j.
Proof.
  intros Hj Ht. destruct (cheapest_tree j Hj Ht) as (Hw & E & Hl). unfold cheapest. rewrite (minv_moves j Hj Ht).
  split_and!; [done| |]; [rewrite (red_tree _ j Hw Hj), decide_False by done; lia|].
  intros t Htt. rewrite (red_tree t j Htt Hj), decide_False by done. specialize (Hl t Htt). lia.
Qed.

Lemma growing_kept : growing u' v' i p way' minv'' used' (j0 :: T).
Proof.
  pose proof (g_row _ _ _ _ _ _ _ _ Hg). destruct (g_lengths _ _ _ _ _ _ _ _ Hg) as (L1 & L2 & L3).
  destruct (sd_lengths _ _ _ _ _ _ _ _ _ _ scanned_tree) as [E1 E2].
  destruct (sf_lengths _ _ _ _ _ _ _ _ shifted_tree) as (_ & _ & E3).
  split; [apply potentials_kept|apply matching_kept|done| |apply used_tree].
  rewrite length_insert. split_and!; congruence.
Qed.

Lemma found_edge : red u' v' (p !!! (way' !!! j1)) j1 = 0 /\ way' !!! j1 ∈ j0 :: T.
Proof.
  destruct column_found as (Hj & Hn & Ed & _ & _). destruct (cheapest_kept j1 Hj Hn) as (Hw & E & _).
  split; [|done]. rewrite <- E, (minv_moves j1 Hj Hn). lia.
Qed.
End Round.

(** ** Growing until a free column is found *)

Lemma chain_length u v i p way minv used T : growing u v i p way minv used T -> chain u v p way T -> (length T <= n)%nat.
Proof.
  intros [Hpot Hm [Hi H0] _ _] Hc. destruct (chain_nodes _ _ _ _ _ Hc) as (Hd & _ & Hn); [lia|].
  destruct (free_column _ _ _ _ Hm Hi H0) as (f & Hf & Ef).
  assert (Hincl : incl (f :: T) (seq 0 (S n))).
  { intros t [<-|Ht]; apply in_seq; [unfold inside in Hf; lia|]. apply list_elem_of_In in Ht. destruct (Hn t Ht). lia. }
  assert (Hd' : List.NoDup (f :: T)).
  { apply NoDup_ListNoDup. constructor; [|done]. intros Ht. by destruct (Hn f Ht). }
  apply (NoDup_incl_length Hd') in Hincl. rewrite length_seq in Hincl. cbn in Hincl. lia.
Qed.

Lemma grow_ok fuel : forall u v i p way minv used T j0,
  growing u v i p way minv used T -> chain u v p way (j0 :: T) -> j0 ∉ T ->
  (forall j, inside j -> j ∉ T -> (T = [] /\ minv !!! j = INF) \/ cheapest u v p way minv T j) ->
  (n < fuel + length T)%nat ->
  exists u' v' way' j1 T', grow cost fuel p j0 u v minv way used = Some (u', v', way', j1)
    /\ potentials u' v' p /\ matching u' v' i p (S n) /\ chain u' v' p way' T' /\ length way' = S n
    /\ inside j1 /\ (j1 ∉ T') /\ p !!! j1 = 0%nat /\ way' !!! j1 ∈ T' /\ red u' v' (p !!! (way' !!! j1)) j1 = 0.
Proof.
  induction fuel as [|fuel IH]; intros u v i p way minv used T j0 Hg Hc Hn Hm Hf.
  { exfalso. pose proof (growing_kept _ _ _ _ _ _ _ _ _ Hg Hc Hm) as Hg'. pose proof (chain_kept _ _ _ _ _ _ _ _ _ Hg Hc Hm) as Hc'.
    pose proof (chain_length _ _ _ _ _ _ _ _ Hg' Hc'). cbn in *. lia. }
  cbn [grow].
  pose proof (growing_kept _ _ _ _ _ _ _ _ _ Hg Hc Hm) as Hg'. pose proof (chain_kept _ _ _ _ _ _ _ _ _ Hg Hc Hm) as Hc'.
  pose proof (cheapest_kept _ _ _ _ _ _ _ _ _ Hg Hc Hm) as Hm'. destruct (found_edge _ _ _ _ _ _ _ _ _ Hg Hc Hm) as [He Hw].
  destruct (column_found _ _ _ _ _ _ _ _ _ Hg Hc Hm) as (Hj1 & Hn1 & _).
  destruct (scan cost u v _ (p !!! j0) j0 minv way) as [[[minv1 way1] delta] j1]. cbn [fst snd] in *.
  destruct (shift cost p _ delta u v minv1) as [[u1 v1] minv2]. cbn [fst snd] in *.
  destruct (Nat.eqb_spec (p !!! j1) 0) as [E|E].
  - exists u1, v1, way1, j1, (j0 :: T). destruct Hg' as [G1 G2 G3 (_ & G4 & _) _]. split_and!; done.
  - apply (IH u1 v1 i p way1 minv2 _ (j0 :: T) j1); [done|by constructor|done|by right; apply Hm'|cbn; lia].
Qed.

(** ** Back along the way *)

Lemma chain_cut u v p way T : chain u v p way T -> forall t, t ∈ T ->
  exists T', chain u v p way (t :: T') /\ (length T' < length T)%nat /\ (t ∉ T') /\ forall s, s ∈ T' -> s ∈ T.
Proof.
  intros Hc. induction Hc as [|t T Hc IH Ht Hin Hw Hr Hp]; intros s Hs.
  - apply list_elem_of_singleton in Hs as ->. exists []. split_and!; [constructor|cbn; lia|apply not_elem_of_nil|].
    intros s Hs%elem_of_nil. done.
  - apply elem_of_cons in Hs as [->|Hs].
    + exists T. split_and!; [by constructor|cbn; lia|done|by right].
    + destruct (IH s Hs) as (T' & H1 & H2 & H3 & H4). exists T'. split_and!; [done|cbn; lia|done|].
      intros x Hx. right. auto.
Qed.

Lemma chain_other_p u v p way T h x : chain u v p way T -> h ∉ T -> (h <= n)%nat -> length p = S n ->
  chain u v (<[h := x]> p) way T.
Proof.
  intros Hc Hh Hl Hp. induction Hc as [|t T Hc IH Ht Hin Hw Hr Hz]; [constructor|].
  apply not_elem_of_cons in Hh as [Hne Hh]. constructor; try done; [by apply IH| |]; rewrite list_lookup_total_insert_ne; try done.
  by intros ->.
Qed.

Lemma augment_ok fuel : forall u v i p way T j0,
  potentials u v p -> matching u v i p j0 -> chain u v p way T -> length way = S n ->
  inside j0 -> j0 ∉ T -> way !!! j0 ∈ T -> red u v (p !!! (way !!! j0)) j0 = 0 -> p !!! 0%nat <> 0%nat ->
  (length T <= fuel)%nat ->
  exists p', augment fuel way p j0 = Some p' /\ potentials u v p' /\ matching u v i p' 0.
Proof.
  induction fuel as [|fuel IH]; intros u v i p way T j0 Hpot Hm Hc Lw Hj0 Hn Hw He H0 Hf.
  { destruct T; [by apply elem_of_nil in Hw|cbn in Hf; lia]. }
  pose proof Hj0 as Hj0'. unfold inside in Hj0'. destruct Hm as [Lp Mr Mt Mi Ms].
  destruct (chain_nodes _ _ _ _ _ Hc H0) as (_ & _ & Hnode). destruct (Hnode _ Hw) as [Hl1 Hp1].
  cbn [augment]. set (j1 := way !!! j0) in *. set (p' := <[j0 := p !!! j1]> p).
  assert (Hj1 : j1 <> j0) by (intros ->; done).
  assert (Hp' : forall j, j <> j0 -> p' !!! j = p !!! j) by (intros j Hj; by apply list_lookup_total_insert_ne).
  assert (Hp0 : p' !!! j0 = p !!! j1) by (apply list_lookup_total_insert_eq; lia).
  assert (Hpot' : potentials u v p').
  { destruct Hpot as [P1 P2 P3 P4 P5 P6]. split; try done. intros j Hj E.
    destruct (decide (j = j0)) as [->|Hne]; [congruence|]. rewrite Hp' in E by done. by apply P6. }
  assert (Hm' : matching u v i p' j1).
  { split.
    - unfold p'. by rewrite length_insert.
    - intros j Hj Hne. destruct (decide (j = j0)) as [->|]; [rewrite Hp0; apply Mr; done|rewrite Hp' by done; by apply Mr].
    - intros j Hj Hne E. destruct (decide (j = j0)) as [->|]; [by rewrite Hp0|rewrite Hp' in * by done; by apply Mt].
    - intros j j' Hj Hj' Hne Hne' E Hz. destruct (decide (j = j0)) as [->|D], (decide (j' = j0)) as [->|D']; [done| | |].
      + rewrite Hp0, Hp' in E by done. destruct Hne'. symmetry. by apply Mi.
      + rewrite Hp0, Hp' in E by done. destruct Hne. apply Mi; try done; [congruence].
      + rewrite !Hp' in * by done. by apply Mi.
    - intros r Hr. destruct (Ms r Hr) as (j & Hj & Hne & E). destruct (decide (j = j1)) as [->|D].
      + exists j0. split_and!; [lia|done|congruence].
      + exists j. split_and!; [done|done|by rewrite Hp']. }
  destruct (Nat.eqb_spec j1 0) as [E|E].
  - exists p'. split_and!; [done|done|]. by rewrite <- E.
  - destruct (chain_cut _ _ _ _ _ Hc j1 Hw) as (T' & Hc1 & Hlen & Hn1 & Hsub).
    inversion Hc1 as [|? ? Hc2 _ Hin1 Hw1 Hr1 _]; subst; [done|].
    apply (IH u v i p' way T' j1); try done.
    + apply chain_other_p; [done| |lia|done]. intros Hx. by apply Hn, Hsub.
    + by rewrite Hp' by (intros Ex; apply Hn, Hsub; by rewrite <- Ex).
    + rewrite Hp' by lia. done.
    + lia.
Qed.

(** ** All the rows *)

Lemma row_enters u v i p : potentials u v p -> matching u v (i - 1) p 0 -> (1 <= i <= n)%nat ->
  potentials u v (<[0%nat := i]> p) /\ matching u v i (<[0%nat := i]> p) (S n).
Proof.
  intros [P1 P2 P3 P4 P5 P6] [Lp Mr Mt Mi Ms] Hi.
  assert (H0 : <[0%nat := i]> p !!! 0%nat = i) by (apply list_lookup_total_insert_eq; lia).
  assert (Hj : forall j, j <> 0%nat -> <[0%nat := i]> p !!! j = p !!! j) by (intros; by apply list_lookup_total_insert_ne).
  split; split; try done.
  - intros j Hin. rewrite Hj by (unfold inside in Hin; lia). by apply P6.
  - by rewrite length_insert.
  - intros j Hl _. destruct (decide (j = 0%nat)) as [->|]; [lia|]. rewrite Hj by done. specialize (Mr j Hl ltac:(done)). lia.
  - intros j Hin _. assert (j <> 0%nat) by (unfold inside in Hin; lia). rewrite !Hj by done. by apply Mt.
  - intros j j' Hl Hl' _ _ E Hz. destruct (decide (j = 0%nat)) as [->|D], (decide (j' = 0%nat)) as [->|D']; [done| | |].
    + rewrite H0, (Hj j') in E by done. specialize (Mr j' Hl' ltac:(done)). lia.
    + rewrite H0, (Hj j) in E by done. specialize (Mr j Hl ltac:(done)). lia.
    + rewrite !Hj in * by done. by apply Mi.
  - intros r Hr. destruct (decide (r = i)) as [->|D]; [exists 0%nat; split_and!; [lia|lia|done]|].
    destruct (Ms r) as (j & Hl & Hne & E); [lia|]. exists j. split_and!; [done|lia|by rewrite Hj].
Qed.

Lemma add_row_ok u v p way i : potentials u v p -> matching u v (i - 1) p 0 -> (1 <= i <= n)%nat -> length way = S n ->
  exists u' v' p' way', add_row cost (u, v, p, way) i = Some (u', v', p', way')
    /\ potentials u' v' p' /\ matching u' v' i p' 0 /\ length way' = S n.
Proof.
  intros Hpot Hm Hi Lw. destruct (row_enters u v i p Hpot Hm Hi) as [Hpot1 Hm1].
  assert (H0 : <[0%nat := i]> p !!! 0%nat = i) by (destruct Hm; apply list_lookup_total_insert_eq; lia).
  destruct (grow_ok (S n) u v i (<[0%nat := i]> p) way (replicate (S n) INF) (replicate (S n) false) [] 0)
    as (u1 & v1 & way1 & j1 & T & Eg & Hp1 & Hm2 & Hc & Lw1 & Hin & Hn & Ez & Hw & He).
  - split; [done|done|done|by rewrite !length_replicate|]. intros j Hj. rewrite replicate_at by lia.
    split; [done|by intros ?%elem_of_nil].
  - constructor.
  - apply not_elem_of_nil.
  - intros j Hj _. left. split; [done|]. apply replicate_at. unfold inside in Hj. lia.
  - cbn. lia.
  - unfold add_row. rewrite Eg. cbn [mbind option_bind].
    destruct (chain_nodes _ _ _ _ _ Hc) as (Hd & _ & Hnode); [lia|].
    destruct (augment_ok (S n) u1 v1 i (<[0%nat := i]> p) way1 T j1) as (p' & Ea & Hp' & Hm'); try done; [|lia| |].
    + destruct Hm2 as [M1 M2 M3 M4 M5]. split; [done|intros j Hj _; apply M2; [done|lia]| | |].
      * intros j Hj Hne. apply M3; [done|unfold inside in Hj; lia].
      * intros j j' Hj Hj' _ _. apply M4; try done; lia.
      * intros r Hr. destruct (M5 r Hr) as (j & Hj & _ & E). exists j. split_and!; [done|intros ->; lia|done].
    + assert (Hincl : incl T (seq 0 (S n))).
      { intros t Ht. apply list_elem_of_In in Ht. destruct (Hnode t Ht). apply in_seq. lia. }
      apply (NoDup_incl_length (proj1 (NoDup_ListNoDup T) Hd)) in Hincl. by rewrite length_seq in Hincl.
    + rewrite Ea. cbn. eauto 10.
Qed.

Lemma add_rows_ok k : forall u v p way, (k <= n)%nat -> potentials u v p -> matching u v (n - k) p 0 -> length way = S n ->
  exists u' v' p' way', add_rows cost (u, v, p, way) (seq (S (n - k)) k) = Some (u', v', p', way')
    /\ potentials u' v' p' /\ matching u' v' n p' 0.
Proof.
  induction k as [|k IH]; intros u v p way Hk Hpot Hm Lw.
  { rewrite Nat.sub_0_r in Hm. cbn. eauto 10. }
  cbn [seq add_rows]. destruct (add_row_ok u v p way (S (n - S k)) Hpot) as (u1 & v1 & p1 & way1 & -> & Hp1 & Hm1 & Lw1);
    [by rewrite Nat.sub_succ, Nat.sub_0_r|lia|done|]. cbn [mbind option_bind].
  replace (S (S (n - S k))) with (S (n - k)) by lia. apply IH; [lia|done| |done]. by replace (n - k)%nat with (S (n - S k)) by lia.
Qed.

Lemma start_ok : potentials (replicate (S n) 0) (replicate (S n) 0) (replicate (S n) 0%nat)
  /\ matching (replicate (S n) 0) (replicate (S n) 0) 0 (replicate (S n) 0%nat) 0.
Proof.
  assert (Hz : forall k, inside k -> replicate (S n) 0 !!! k = 0) by (intros k Hk; apply replicate_at; unfold inside in Hk; lia).
  split; split; rewrite ?length_replicate; try done.
  - intros r j Hr Hj. unfold red. rewrite !Hz by done. unfold inside in *. specialize (Hcost (r - 1) (j - 1) ltac:(lia) ltac:(lia)). lia.
  - intros r Hr. by rewrite Hz.
  - intros j Hj. by rewrite Hz.
  - intros j Hj _. by rewrite Hz.
  - intros j Hj _. rewrite replicate_at by lia. lia.
  - intros j Hj _ E. rewrite replicate_at in E by (unfold inside in Hj; lia). done.
  - intros j j' Hj Hj' _ _ _ E. rewrite replicate_at in E by lia. done.
  - intros r Hr. lia.
Qed.

(** ** Reading it off *)

Lemma read_off_ok u v p : matching u v n p 0 ->
  length (read_off cost p) = n /\ forall r, (r < n)%nat -> exists j, read_off cost p !!! r = j /\ (j < n)%nat
    /\ p !!! S j = S r /\ red u v (S r) (S j) = 0.
Proof.
  intros [Lp Mr Mt Mi Ms].
  assert (H : forall k, (k <= n)%nat -> length (fold_left (read_row p) (seq 1 k) (replicate n 0%nat)) = n
    /\ forall j, (1 <= j <= k)%nat -> p !!! j <> 0%nat ->
        fold_left (read_row p) (seq 1 k) (replicate n 0%nat) !!! (p !!! j - 1)%nat = (j - 1)%nat).
  { induction k as [|k IH]; intros Hk; [split; [apply length_replicate|lia]|].
    rewrite seq_S, fold_left_app. cbn [fold_left Nat.add]. destruct (IH ltac:(lia)) as [L Hr].
    pose proof (Mr (S k) ltac:(lia) ltac:(done)) as Hk'. unfold read_row at 1 3.
    destruct (Nat.ltb_spec 0 (p !!! S k)) as [Hpos|Hz].
    - rewrite length_insert. split; [done|]. intros j Hj Hne. rewrite insert_at by lia. case_decide as E.
      + assert (j = S k) as -> by (apply Mi; [lia|lia|lia|done|lia|done]). done.
      + apply Hr; [|done]. assert (j <> S k) by congruence. lia.
    - split; [done|]. intros j Hj Hne. apply Hr; [|done]. assert (j <> S k) by (intros ->; lia). lia. }
  destruct (H n ltac:(done)) as [L Hr]. split; [done|]. intros r Hr'. destruct (Ms (S r)) as (j & Hj & Hne & E); [lia|].
  exists (j - 1)%nat. unfold read_off. specialize (Hr j ltac:(lia) ltac:(lia)). rewrite E, Nat.sub_succ, Nat.sub_0_r in Hr.
  replace (S (j - 1)) with j by lia. split_and!; [done|lia|done|]. rewrite <- E. apply Mt; [unfold inside; lia|done|lia].
Qed.
End Phases.

(** ** What an assignment costs *)

Definition sumZ (l : list Z) : Z := fold_right Z.add 0 l.
Definition assignment_cost (cost : list (list Z)) (a : list nat) : Z := sumZ (imap (cost_at cost) a).

#[export] Instance sumZ_perm : Proper (Permutation ==> eq) sumZ.
Proof. intros l l' H. unfold sumZ. induction H; cbn; lia. Qed.

Lemma sum_parts a : forall (c : nat -> nat -> Z) (f g : nat -> Z),
  sumZ (imap c a) = sumZ (map f (seq 0 (length a))) + sumZ (map g a) + sumZ (imap (fun i j => c i j - f i - g j) a).
Proof.
  induction a as [|x a IH]; intros c f g; [done|]. cbn [imap length seq map]. rewrite <- seq_shift, map_map.
  pose proof (IH (c ∘ S) (f ∘ S) g) as E. unfold sumZ in *. cbn [fold_right]. unfold compose in *. lia.
Qed.

Lemma sum_imap_nonneg (f : nat -> nat -> Z) a : (forall i j, a !! i = Some j -> 0 <= f i j) -> 0 <= sumZ (imap f a).
Proof.
  revert f. induction a as [|x a IH]; intros f H; [done|]. cbn. specialize (IH (f ∘ S) (fun i j => H (S i) j)).
  specialize (H 0%nat x eq_refl). unfold sumZ in *. cbn. lia.
Qed.
Lemma sum_imap_zero (f : nat -> nat -> Z) a : (forall i j, a !! i = Some j -> f i j = 0) -> sumZ (imap f a) = 0.
Proof.
  revert f. induction a as [|x a IH]; intros f H; [done|]. cbn. specialize (IH (f ∘ S) (fun i j => H (S i) j)).
  specialize (H 0%nat x eq_refl). unfold sumZ in *. cbn. lia.
Qed.

Section Optimal.
  Context (cost : list (list Z)) (C : Z).
  Abbreviation n := (size cost).
  Context (Hcost : forall i j, (i < n)%nat -> (j < n)%nat -> 0 <= cost_at cost i j <= C).
  Context (HC : 2 * C < INF).

Lemma hungarian_sound : exists a, hungarian cost = Some a /\ a ≡ₚ seq 0 n
    /\ forall b, b ≡ₚ seq 0 n -> assignment_cost cost a <= assignment_cost cost b.
Proof.
  destruct (start_ok cost C Hcost) as [Hp0 Hm0].
  destruct (add_rows_ok cost C Hcost HC n _ _ _ (replicate (S n) 0%nat) ltac:(done) Hp0) as (u & v & p & way & E & Hp & Hm);
    [by rewrite Nat.sub_diag|by rewrite length_replicate|]. rewrite Nat.sub_diag in E.
  unfold hungarian. rewrite E. cbn [mbind option_bind]. exists (read_off cost p). split; [done|].
  destruct (read_off_ok cost u v p Hm) as [La Ha].
  assert (Hat : forall r j, read_off cost p !! r = Some j -> (r < n)%nat /\ (j < n)%nat /\ p !!! S j = S r /\ red cost u v (S r) (S j) = 0).
  { intros r j Hr. pose proof (lookup_lt_Some _ _ _ Hr) as Hl. rewrite La in Hl. destruct (Ha r Hl) as (j' & Ej & H1 & H2 & H3).
    rewrite list_lookup_total_alt, Hr in Ej. cbn in Ej. subst j'. done. }
  assert (Hperm : read_off cost p ≡ₚ seq 0 n).
  { apply NoDup_Permutation_bis; [|by rewrite length_seq, La|].
    - apply NoDup_ListNoDup, NoDup_alt. intros r r' j Hr Hr'. destruct (Hat r j Hr) as (_ & _ & E1 & _).
      destruct (Hat r' j Hr') as (_ & _ & E2 & _). congruence.
    - intros j Hj. apply list_elem_of_In, list_elem_of_lookup in Hj as [r Hr]. destruct (Hat r j Hr) as (_ & ? & _). apply in_seq. lia. }
  split; [done|]. intros b Hb. unfold assignment_cost.
  rewrite (sum_parts (read_off cost p) _ (fun r => u !!! S r) (fun j => v !!! S j)).
  rewrite (sum_parts b _ (fun r => u !!! S r) (fun j => v !!! S j)).
  rewrite (Permutation_length Hperm), (Permutation_length Hb).
  rewrite (sumZ_perm _ _ (Permutation_map (fun j => v !!! S j) Hperm)), (sumZ_perm _ _ (Permutation_map (fun j => v !!! S j) Hb)).
  rewrite (sum_imap_zero _ (read_off cost p)).
  - assert (0 <= sumZ (imap (fun i j => cost_at cost i j - u !!! S i - v !!! S j) b)); [|lia]. apply sum_imap_nonneg.
    intros i j Hij. pose proof (lookup_lt_Some _ _ _ Hij) as Hl. rewrite (Permutation_length Hb), length_seq in Hl.
    assert (Hj : j ∈ seq 0 n) by (rewrite <- Hb; by eapply list_elem_of_lookup_2). apply elem_of_seq in Hj.
    pose proof (po_feasible _ _ _ _ Hp (S i) (S j) ltac:(unfold inside; lia) ltac:(unfold inside; lia)) as Hf.
    unfold red in Hf. rewrite !Nat.sub_succ, !Nat.sub_0_r in Hf. exact Hf.
  - intros i j Hij. destruct (Hat i j Hij) as (_ & _ & _ & Hr). unfold red in Hr. rewrite !Nat.sub_succ, !Nat.sub_0_r in Hr. exact Hr.
Qed.

(** The assignment is the cheapest there is: on a square matrix of costs
    between nothing and an eighth of the [i64] range, [hungarian] ends, its
    result gives every row a column of its own, and no other such assignment
    costs less. *)
Theorem hungarian_optimal : exists a, hungarian cost = Some a /\ a ≡ₚ seq 0 n
    /\ forall b, b ≡ₚ seq 0 n -> assignment_cost cost a <= assignment_cost cost b.
Proof. apply hungarian_sound. Qed.
End Optimal.

Lemma hungarian_optimal_witness :
  let cost := [[4; 1; 3]; [2; 0; 5]; [3; 2; 2]] in
  exists a, hungarian cost = Some a /\ a ≡ₚ seq 0 3
    /\ forall b, b ≡ₚ seq 0 3 -> assignment_cost cost a <= assignment_cost cost b.
Proof.
  apply (hungarian_optimal [[4; 1; 3]; [2; 0; 5]; [3; 2; 2]] 5); [|reflexivity].
  intros [|[|[|i]]] [|[|[|j]]] Hi Hj; try (cbv in Hi; lia); try (cbv in Hj; lia); vm_compute; split; discriminate.
Defined.

(** ** The greedy stand-in *)

(** [sort_unstable] on the triples: no two of them are equal. *)
Definition pair_le (x y : Z * nat * nat) : Prop :=
  x.1.1 < y.1.1 \/ (x.1.1 = y.1.1 /\ ((x.1.2 < y.1.2)%nat \/ (x.1.2 = y.1.2 /\ (x.2 <= y.2)%nat))).
#[export] Instance pair_le_dec : RelDecision pair_le.
Proof. intros x y. unfold pair_le. apply _. Defined.

Definition worth_pairs (cost : list (list Z)) (n m : nat) : list (Z * nat * nat) :=
  flat_map (fun i => omap (fun j =>
      if cost_at cost i j <? i64 (cost_at cost i m + cost_at cost n j) then Some (cost_at cost i j, i, j) else None)
    (seq 0 m)) (seq 0 n).

(** [usize::MAX] in [row_of] is [None]. *)
Definition take_pair (x : list (option nat) * list bool) (q : Z * nat * nat) : list (option nat) * list bool :=
  let '(row_of, used) := x in
  let '(_, i, j) := q in
  if is_none (row_of !!! i) && negb (used !!! j) then (<[i := Some j]> row_of, <[j := true]> used) else x.
Definition greedy_rows (cost : list (list Z)) (n m : nat) : list (option nat) :=
  (fold_left take_pair (merge_sort pair_le (worth_pairs cost n m)) (replicate n None, replicate m false)).1.
Definition greedy_assign (cost : list (list Z)) (n m : nat) : list nat :=
  imap (fun i o => match o with Some j => j | None => (m + i)%nat end) (greedy_rows cost n m).

(** A pairing gives no column to two rows. *)
Definition pairing (m : nat) (rows : list (option nat)) : Prop :=
  (forall i j, rows !! i = Some (Some j) -> (j < m)%nat)
  /\ (forall i i' j, rows !! i = Some (Some j) -> rows !! i' = Some (Some j) -> i = i').

Lemma take_pair_ok m rows used q :
  length used = m -> (q.2 < m)%nat -> pairing m rows -> (forall i j, rows !! i = Some (Some j) -> used !!! j = true) ->
  let x := take_pair (rows, used) q in
  length x.1 = length rows /\ length x.2 = m /\ pairing m x.1 /\ (forall i j, x.1 !! i = Some (Some j) -> x.2 !!! j = true).
Proof.
  destruct q as [[z a] b]. cbn [snd]. intros Lu Hb [H1 H2] Hu. unfold take_pair.
  destruct (is_none _ && negb _) eqn:E; cbn [fst snd]; [|done]. apply andb_true_iff in E as [_ Eb]. apply negb_true_iff in Eb.
  rewrite !length_insert.
  assert (Hat : forall i j, <[a := Some b]> rows !! i = Some (Some j) -> (i = a /\ j = b) \/ (i <> a /\ rows !! i = Some (Some j))).
  { intros i j Hi. apply list_lookup_insert_Some in Hi as [(-> & [= ->] & _)|[? ?]]; [by left|by right]. }
  assert (Hfree : forall i j, rows !! i = Some (Some j) -> j <> b) by (intros i j Hi ->; specialize (Hu _ _ Hi); congruence).
  split_and!; [done|done| |].
  - split.
    + intros i j [[-> ->]|[_ Hi]]%Hat; [done|eauto].
    + intros i i' j [[-> ->]|[_ Hi]]%Hat [[-> ?]|[_ Hi']]%Hat; [done| | |by eauto].
      * by destruct (Hfree _ _ Hi').
      * subst. by destruct (Hfree _ _ Hi).
  - intros i j Hi. rewrite insert_at by lia. case_decide; [done|]. apply Hat in Hi as [[_ ->]|[_ Hi]]; [done|by eapply Hu].
Qed.

Lemma take_pairs_ok m l : forall rows used,
  length used = m -> Forall (fun q => (q.2 < m)%nat) l -> pairing m rows -> (forall i j, rows !! i = Some (Some j) -> used !!! j = true) ->
  let x := fold_left take_pair l (rows, used) in length x.1 = length rows /\ pairing m x.1.
Proof.
  induction l as [|q l IH]; intros rows used Lu Hl Hp Hu; [done|]. apply Forall_cons in Hl as [Hq Hl].
  destruct (take_pair_ok m rows used q Lu Hq Hp Hu) as (L1 & L2 & Hp' & Hu'). cbn [fold_left].
  destruct (take_pair (rows, used) q) as [rows' used']. cbn [fst snd] in *.
  destruct (IH rows' used' L2 Hl Hp' Hu') as [E H]. split; [congruence|done].
Qed.

Lemma greedy_rows_ok cost n m : length (greedy_rows cost n m) = n /\ pairing m (greedy_rows cost n m).
Proof.
  unfold greedy_rows. destruct (take_pairs_ok m (merge_sort pair_le (worth_pairs cost n m)) (replicate n None) (replicate m false)) as [E H].
  - apply length_replicate.
  - rewrite (merge_sort_Permutation pair_le). apply Forall_forall. intros q Hq. unfold worth_pairs in Hq.
    apply list_elem_of_In, in_flat_map in Hq as (i & _ & Hq). apply list_elem_of_In, list_elem_of_omap in Hq as (j & Hj & Eq).
    apply elem_of_seq in Hj. destruct (_ <? _); [|done]. injection Eq as <-. cbn. lia.
  - split; intros i *; rewrite lookup_replicate; by intros [? ?].
  - intros i j. rewrite lookup_replicate. by intros [? ?].
  - rewrite length_replicate in E. done.
Qed.
