(* ===== verification/Unordered.v ===== *)
(** * Unordered: order-free scoring (cat-morse/src/score.rs)

    [align_unordered]: which copied word is meant for which call, by the
    assignment of [Assign] over the alignments of [Score].  Up to 128 items and
    words the result is shown to be the pairing with the fewest errors. *)

From S2P Require Import Prelude Text Morse Score Assign.

Definition UNORDERED_OPTIMAL_MAX : nat := 128.

Record UnorderedAlignment : Type := mk_UnorderedAlignment {
  items : list Alignment; matched : list (option nat); copied_words : list text; extras : list Alignment }.

Definition unordered_score (a : UnorderedAlignment) : Score :=
  fold_left (fun total x => score_add total (alignment_score x)) (a.(items) ++ a.(extras)) score_default.

(** The words of a copy. *)
Definition push_unit (words : list (list Unit)) (u : Unit) : list (list Unit) :=
  if bool_decide (u = WordSpace) then words ++ [[]]
  else match last words with Some w => take (length words - 1) words ++ [w ++ [u]] | None => words end.
Definition split_words (units : list Unit) : list (list Unit) :=
  List.filter (fun w => negb (bool_decide (w = []))) (fold_left push_unit units [[]]).

(** [collect] into a [Result]: the first error wins. *)
Fixpoint collect {T E} (l : list (result T E)) : result (list T) E :=
  match l with [] => Ok [] | r :: l => let? x := r in let? xs := collect l in Ok (x :: xs) end.

Section Pairs.
  Context (exp words : list (list Unit)) (opts : ScoreOptions).

Definition pair_errors (i j : nat) : nat := errors (alignment_score (align_units (exp !!! i) (words !!! j) opts)).
Definition plausible (i j : nat) : bool := 2 * Z.of_nat (pair_errors i j) <=? Z.of_nat (length (exp !!! i)).
Definition pair_align (i j : nat) : option Alignment :=
  if plausible i j then Some (align_units (exp !!! i) (words !!! j) opts) else None.
Definition pair_cost (i j : nat) : Z :=
  match (i <? length exp)%nat, (j <? length words)%nat with
  | true, true => if plausible i j then Z.of_nat (pair_errors i j)
                  else Z.of_nat (length (exp !!! i) + length (words !!! j))
  | true, false => Z.of_nat (length (exp !!! i))
  | false, true => Z.of_nat (length (words !!! j))
  | false, false => 0
  end.
Definition cost_matrix : list (list Z) :=
  let size := (length exp + length words)%nat in map (fun i => map (pair_cost i) (seq 0 size)) (seq 0 size).

Definition assign_words : option (list nat) :=
  if (length exp + length words <=? UNORDERED_OPTIMAL_MAX)%nat then hungarian cost_matrix
  else Some (greedy_assign cost_matrix (length exp) (length words)).

(** The item at row [i], and the word it was matched with. *)
Definition matched_word (assign : list nat) (i : nat) : option nat :=
  let j := assign !!! i in
  if (j <? length words)%nat then match pair_align i j with Some _ => Some j | None => None end else None.
Definition item_of (assign : list nat) (i : nat) : Alignment :=
  match matched_word assign i with
  | Some j => align_units (exp !!! i) (words !!! j) opts
  | None => align_units (exp !!! i) [] opts
  end.
Definition word_used (assign : list nat) (j : nat) : bool :=
  existsb (fun i => bool_decide (matched_word assign i = Some j)) (seq 0 (length exp)).

Definition unordered_of (assign : list nat) : UnorderedAlignment :=
  let rows := seq 0 (length exp) in
  mk_UnorderedAlignment (map (item_of assign) rows) (map (matched_word assign) rows) (map tokens_to_text words)
    (map (fun j => align_units [] (words !!! j) opts)
       (List.filter (fun j => negb (word_used assign j)) (seq 0 (length words)))).
End Pairs.

Definition prepared_items (expected : list text) (opts : ScoreOptions) : result (list (list Unit)) CodecError :=
  collect (map (fun e => let? t := tokenize e in Ok (prepare t opts)) expected).
Definition prepared_words (copied : text) (opts : ScoreOptions) : list (list Unit) :=
  map (fun w => prepare w opts) (split_words (tokenize_copy copied)).

Definition align_unordered (expected : list text) (copied : text) (opts : ScoreOptions)
  : option (result UnorderedAlignment CodecError) :=
  match prepared_items expected opts with
  | Err e => Some (Err e)
  | Ok exp =>
      let words := prepared_words copied opts in
      assign ← assign_words exp words opts; Some (Ok (unordered_of exp words opts assign))
  end.

Example unordered_typo_missing_and_extra :
  match align_unordered [txt "W1AW"; txt "K0ABC"; txt "DL1XYZ"] (txt "N2ZZZ K0ABD W1AW") score_options_default with
  | Some (Ok a) => a.(matched) = [Some 2; Some 1; None]%nat /\ unordered_score a = mk_Score 15 8 1 6 5
  | _ => False
  end.
Proof. vm_compute. done. Qed.

(** ** Errors of a pair *)

Lemma canonical_space u : canonical u = WordSpace <-> u = WordSpace.
Proof. destruct u as [c|p|]; [|done|done]. unfold canonical. destruct (List.find _ _) as [[? ?]|]; done. Qed.

Lemma filter_map_idem {A} (keep : A -> bool) (f : A -> A) l :
  (forall u, keep u = true -> keep (f u) = true /\ f (f u) = f u) ->
  map f (List.filter keep (map f (List.filter keep l))) = map f (List.filter keep l).
Proof.
  intros H. induction l as [|x l IH]; [done|]. cbn. destruct (keep x) eqn:E; [|done].
  destruct (H x E) as [H1 H2]. cbn. rewrite H1. cbn. by rewrite H2, IH.
Qed.

Lemma prepare_idem l opts : prepare (prepare l opts) opts = prepare l opts.
Proof.
  apply filter_map_idem. destruct opts as [sp []]; cbn; [|done]. intros u Hu. split; [|apply canonical_idem].
  destruct sp; [done|]. apply negb_true_iff, bool_decide_eq_false in Hu. apply negb_true_iff, bool_decide_eq_false.
  by rewrite canonical_space.
Qed.

Lemma errors_cost a : Z.of_nat (errors (alignment_score a)) = cost a.(ops).
Proof. unfold alignment_score. destruct (count_ops a.(ops) (mk_Score (length a.(al_expected)) 0 0 0 0)) as (_ & _ & H). exact H. Qed.

Lemma cost_deletions l : copied_of l = [] -> cost l = Z.of_nat (length (sent_of l)).
Proof. unfold copied_of, sent_of. induction l as [|op l IH]; [done|]. destruct op; cbn -[Z.of_nat]; try done. intros H. rewrite (IH H). lia. Qed.
Lemma cost_insertions l : sent_of l = [] -> cost l = Z.of_nat (length (copied_of l)).
Proof. unfold copied_of, sent_of. induction l as [|op l IH]; [done|]. destruct op; cbn -[Z.of_nat]; try done. intros H. rewrite (IH H). lia. Qed.

Definition BIG : Z := 2 ^ 30.

Section Errors.
  Context (e w : list Unit) (opts : ScoreOptions).
  Context (He : prepare e opts = e) (Hw : prepare w opts = w).
  Context (Le : Z.of_nat (length e) < BIG) (Lw : Z.of_nat (length w) < BIG).

Lemma errors_missed : errors (alignment_score (align_units e [] opts)) = length e.
Proof.
  clear dependent w. unfold BIG in *. destruct (align_units_sound e [] opts) as (_ & Hs & Hc & _); [cbn; lia|].
  apply Nat2Z.inj. rewrite errors_cost, cost_deletions by (rewrite Hc; by destruct opts as [[] []]). by rewrite Hs, He.
Qed.
Lemma errors_extra : errors (alignment_score (align_units [] w opts)) = length w.
Proof.
  clear dependent e. unfold BIG in *. destruct (align_units_sound [] w opts) as (_ & Hs & Hc & _); [cbn; lia|].
  apply Nat2Z.inj. rewrite errors_cost, cost_insertions by (rewrite Hs; by destruct opts as [[] []]). by rewrite Hc, Hw.
Qed.
Lemma errors_bound : Z.of_nat (errors (alignment_score (align_units e w opts))) <= Z.of_nat (length e + length w).
Proof.
  unfold BIG in *. destruct (align_units_sound e w opts) as (_ & _ & _ & Hmin & _); [lia|]. rewrite He, Hw in Hmin.
  set (l := map Deletion e ++ map (fun x => Insertion x None) w).
  assert (H1 : forall x : list Unit, sent_of (map Deletion x) = x /\ copied_of (map Deletion x) = [] /\ cost (map Deletion x) = Z.of_nat (length x)).
  { intros x. induction x as [|y x (I1 & I2 & I3)]; [done|].
    split_and!; [exact (f_equal (cons y) I1)|exact I2|cbn [map cost op_cost length]; lia]. }
  assert (H2 : forall x : list Unit, sent_of (map (fun x => Insertion x None) x) = [] /\ copied_of (map (fun x => Insertion x None) x) = x
    /\ cost (map (fun x => Insertion x None) x) = Z.of_nat (length x)).
  { intros x. induction x as [|y x (I1 & I2 & I3)]; [done|].
    split_and!; [exact I1|exact (f_equal (cons y) I2)|cbn [map cost op_cost length]; lia]. }
  destruct (H1 e) as (A1 & A2 & A3), (H2 w) as (B1 & B2 & B3).
  specialize (Hmin l). unfold l in Hmin. rewrite sent_of_app, copied_of_app, cost_app, A1, A2, A3, B1, B2, B3, app_nil_r in Hmin.
  specialize (Hmin eq_refl eq_refl). lia.
Qed.
End Errors.

(** ** What a pairing costs *)

Section Pairings.
  Context (exp words : list (list Unit)) (opts : ScoreOptions).
  Abbreviation n := (length exp).
  Abbreviation m := (length words).

(** The errors of the items paired, the length of those that are not, and of
    the words nobody was paired with. *)
Definition row_cost (rows : list (option nat)) (i : nat) : Z :=
  match rows !!! i with Some j => Z.of_nat (pair_errors exp words opts i j) | None => Z.of_nat (length (exp !!! i)) end.
Definition paired (rows : list (option nat)) (j : nat) : bool :=
  existsb (fun i => bool_decide (rows !!! i = Some j)) (seq 0 n).
Definition word_cost (rows : list (option nat)) (j : nat) : Z :=
  if paired rows j then 0 else Z.of_nat (length (words !!! j)).
Definition pairing_cost (rows : list (option nat)) : Z :=
  sumZ (map (row_cost rows) (seq 0 n)) + sumZ (map (word_cost rows) (seq 0 m)).

(** The pairings an operator could be credited with. *)
Definition credible (rows : list (option nat)) : Prop :=
  length rows = n /\ pairing m rows
  /\ forall i j, rows !! i = Some (Some j) -> plausible exp words opts i j = true.

Lemma paired_spec rows j : length rows = n ->
  paired rows j = true <-> exists i, rows !! i = Some (Some j).
Proof.
  intros L. unfold paired. rewrite existsb_exists. split.
  - intros (i & Hi & E). apply in_seq in Hi. apply bool_decide_eq_true in E. exists i.
    destruct (lookup_lt_is_Some_2 rows i ltac:(lia)) as [x Hx]. rewrite list_lookup_total_alt, Hx in E. cbn in E. congruence.
  - intros [i Hi]. exists i. pose proof (lookup_lt_Some _ _ _ Hi). split; [apply in_seq; lia|].
    apply bool_decide_eq_true. by rewrite list_lookup_total_alt, Hi.
Qed.

Context (Hexp : Forall (fun e => prepare e opts = e /\ Z.of_nat (length e) < BIG) exp).
Context (Hwords : Forall (fun w => prepare w opts = w /\ Z.of_nat (length w) < BIG) words).

Lemma exp_at i : (i < n)%nat -> prepare (exp !!! i) opts = exp !!! i /\ Z.of_nat (length (exp !!! i)) < BIG.
Proof. intros Hi. destruct (lookup_lt_is_Some_2 exp i Hi) as [e He]. rewrite list_lookup_total_alt, He. by apply (Forall_lookup_1 _ _ _ _ Hexp He). Qed.
Lemma words_at j : (j < m)%nat -> prepare (words !!! j) opts = words !!! j /\ Z.of_nat (length (words !!! j)) < BIG.
Proof. intros Hj. destruct (lookup_lt_is_Some_2 words j Hj) as [e He]. rewrite list_lookup_total_alt, He. by apply (Forall_lookup_1 _ _ _ _ Hwords He). Qed.

Lemma size_matrix : size (cost_matrix exp words opts) = (n + m)%nat.
Proof. unfold size, cost_matrix. by rewrite length_map, length_seq. Qed.

Lemma matrix_at i j : (i < n + m)%nat -> (j < n + m)%nat ->
  cost_at (cost_matrix exp words opts) i j = pair_cost exp words opts i j.
Proof.
  intros Hi Hj. unfold cost_at, cost_matrix. rewrite !list_lookup_total_alt, list_lookup_fmap, (lookup_seq_lt _ _ _ Hi). cbn.
  by rewrite list_lookup_fmap, (lookup_seq_lt _ _ _ Hj).
Qed.

Lemma pair_cost_range i j : 0 <= pair_cost exp words opts i j <= 2 * BIG.
Proof.
  unfold pair_cost. destruct (Nat.ltb_spec i n), (Nat.ltb_spec j m); try (unfold BIG; lia).
  - destruct (exp_at i) as [E1 L1]; [done|]. destruct (words_at j) as [E2 L2]; [done|].
    pose proof (errors_bound _ _ _ E1 E2 L1 L2). unfold pair_errors. destruct (plausible _ _ _ _ _); lia.
  - destruct (exp_at i) as [E1 L1]; [done|]. lia.
  - destruct (words_at j) as [E1 L1]; [done|]. lia.
Qed.

(** An assignment whose costs split into rows and columns. *)
Lemma split_cost a (f h : nat -> Z) : a ≡ₚ seq 0 (n + m) ->
  (forall r j, a !! r = Some j -> pair_cost exp words opts r j = f r + h j) ->
  (forall r, (n <= r)%nat -> f r = 0) -> (forall j, (m <= j)%nat -> h j = 0) ->
  assignment_cost (cost_matrix exp words opts) a = sumZ (map f (seq 0 n)) + sumZ (map h (seq 0 m)).
Proof.
  intros Ha Hp Hf Hh. unfold assignment_cost. rewrite (sum_parts a _ f h), sum_imap_zero.
  - rewrite (sumZ_perm _ _ (Permutation_map h Ha)), (Permutation_length Ha), length_seq.
    assert (Hz : forall (g : nat -> Z) k l, (forall x, (k <= x)%nat -> g x = 0) -> sumZ (map g (seq 0 (k + l))) = sumZ (map g (seq 0 k))).
    { intros g k l Hg. induction l as [|l IH]; [by rewrite Nat.add_0_r|]. rewrite Nat.add_succ_r, seq_S, map_app, Permutation_app_comm.
      cbn. fold (sumZ (map g (seq 0 (k + l)))). rewrite IH, Hg by lia. lia. }
    rewrite (Hz f n m Hf), (Nat.add_comm n m), (Hz h m n Hh). lia.
  - intros r j Hr. pose proof (lookup_lt_Some _ _ _ Hr) as Hl. rewrite (Permutation_length Ha), length_seq in Hl.
    assert (Hj : j ∈ seq 0 (n + m)) by (rewrite <- Ha; by eapply list_elem_of_lookup_2). apply elem_of_seq in Hj.
    rewrite matrix_at by lia. rewrite (Hp r j Hr). lia.
Qed.

(** ** An assignment is a pairing, and a pairing an assignment *)

Definition rows_of (a : list nat) : list (option nat) := map (matched_word exp words opts a) (seq 0 n).

Lemma rows_of_at a i x : rows_of a !! i = Some x <-> (i < n)%nat /\ x = matched_word exp words opts a i.
Proof.
  unfold rows_of. destruct (Nat.lt_ge_cases i n) as [Hi|Hi].
  - rewrite list_lookup_fmap, (lookup_seq_lt _ _ _ Hi). cbn. split; [intros [= <-]; done|by intros [_ ->]].
  - rewrite lookup_ge_None_2 by (rewrite length_map, length_seq; lia). split; [done|]. intros [? _]. lia.
Qed.

Lemma matched_word_spec a i j : matched_word exp words opts a i = Some j <->
  a !!! i = j /\ (j < m)%nat /\ plausible exp words opts i j = true.
Proof.
  unfold matched_word, pair_align. destruct (Nat.ltb_spec (a !!! i) m) as [Hl|Hl].
  - destruct (plausible exp words opts i (a !!! i)) eqn:E; (split; [try done; intros [= <-]; done|intros (<- & _ & E'); congruence]).
  - split; [done|]. intros (<- & ? & _). lia.
Qed.

Lemma rows_of_credible a : NoDup a -> (n <= length a)%nat -> credible (rows_of a).
Proof.
  intros Hd Hl. split; [unfold rows_of; by rewrite length_map, length_seq|].
  assert (H : forall i j, rows_of a !! i = Some (Some j) -> a !! i = Some j /\ (j < m)%nat /\ plausible exp words opts i j = true).
  { intros i j [Hi E]%rows_of_at. symmetry in E. apply matched_word_spec in E as (E & Hj & Hp). split; [|done].
    destruct (lookup_lt_is_Some_2 a i ltac:(lia)) as [x Hx]. rewrite list_lookup_total_alt, Hx in E. cbn in E. congruence. }
  split; [split|].
  - intros i j Hi. by apply (H i j).
  - intros i i' j Hi Hi'. destruct (H i j Hi) as (E & _), (H i' j Hi') as (E' & _). by eapply NoDup_lookup.
  - intros i j Hi. by apply (H i j).
Qed.

Lemma assignment_is_pairing a : a ≡ₚ seq 0 (n + m) ->
  assignment_cost (cost_matrix exp words opts) a = pairing_cost (rows_of a).
Proof.
  intros Ha. assert (Hd : NoDup a) by (rewrite Ha; apply NoDup_ListNoDup, seq_NoDup).
  pose proof (Permutation_length Ha) as La. rewrite length_seq in La.
  destruct (rows_of_credible a Hd ltac:(lia)) as (Lr & [_ _] & _).
  rewrite (split_cost a (fun r => if (r <? n)%nat then row_cost (rows_of a) r else 0) (fun j => if (j <? m)%nat then word_cost (rows_of a) j else 0) Ha).
  - unfold pairing_cost. f_equal; f_equal; apply map_ext_in; intros x Hx; apply in_seq in Hx; by rewrite (proj2 (Nat.ltb_lt _ _)) by lia.
  - intros r j Hr. assert (Ej : a !!! r = j) by (by rewrite list_lookup_total_alt, Hr).
    assert (Hpaired : paired (rows_of a) j = true <-> (r < n)%nat /\ matched_word exp words opts a r = Some j).
    { rewrite (paired_spec _ j Lr). split.
      - intros [i Hi]. pose proof Hi as [Hin E]%rows_of_at. symmetry in E. pose proof E as (E1 & _ & _)%matched_word_spec.
        destruct (lookup_lt_is_Some_2 a i ltac:(lia)) as [x Hx]. rewrite list_lookup_total_alt, Hx in E1. cbn in E1. subst x.
        by assert (i = r) as -> by (by eapply NoDup_lookup).
      - intros [Hin E]. exists r. by apply rows_of_at. }
    assert (Er : (r < n)%nat -> rows_of a !!! r = matched_word exp words opts a r).
    { intros Hn. rewrite list_lookup_total_alt. by rewrite (proj2 (rows_of_at a r _) (conj Hn eq_refl)). }
    unfold pair_cost, word_cost. destruct (Nat.ltb_spec r n) as [Hn|Hn], (Nat.ltb_spec j m) as [Hm|Hm].
    + unfold row_cost. rewrite (Er Hn). destruct (plausible exp words opts r j) eqn:Ep.
      * assert (Em : matched_word exp words opts a r = Some j) by (by apply matched_word_spec).
        rewrite Em, (proj2 Hpaired) by done. lia.
      * assert (Em : matched_word exp words opts a r = None).
        { destruct (matched_word _ _ _ a r) as [x|] eqn:E; [|done]. apply matched_word_spec in E as (E1 & _ & E2). congruence. }
        rewrite Em. destruct (paired (rows_of a) j); [|lia]. destruct (proj1 Hpaired eq_refl). congruence.
    + unfold row_cost. rewrite (Er Hn).
      destruct (matched_word _ _ _ a r) as [x|] eqn:E; [|lia]. apply matched_word_spec in E as (E1 & E2 & _). lia.
    + destruct (paired (rows_of a) j); [|lia]. destruct (proj1 Hpaired eq_refl). lia.
    + lia.
  - intros r Hr. by rewrite (proj2 (Nat.ltb_ge _ _)).
  - intros j Hj. by rewrite (proj2 (Nat.ltb_ge _ _)).
Qed.

(** The assignment of a pairing: items that are not paired, and the rows of
    words that are, go to dummy columns. *)
Definition column_of (rows : list (option nat)) (r : nat) : nat :=
  if (r <? n)%nat then match rows !!! r with Some j => j | None => m + r end
  else match List.find (fun i => bool_decide (rows !!! i = Some (r - n)%nat)) (seq 0 n) with
       | Some i => m + i
       | None => r - n
       end.
Definition assignment_of (rows : list (option nat)) : list nat := map (column_of rows) (seq 0 (n + m)).

Lemma find_row rows k : (forall i, List.find (fun i => bool_decide (rows !!! i = Some k)) (seq 0 n) = Some i ->
    (i < n)%nat /\ rows !!! i = Some k)
  /\ (List.find (fun i => bool_decide (rows !!! i = Some k)) (seq 0 n) = None -> paired rows k = false).
Proof.
  split.
  - intros i [Hi E]%find_some. apply in_seq in Hi. apply bool_decide_eq_true in E. split; [lia|done].
  - intros Hnone. unfold paired. destruct (existsb _ _) eqn:E; [|done]. apply existsb_exists in E as (i & Hi & E).
    by rewrite (find_none _ _ Hnone i Hi) in E.
Qed.

Inductive column (rows : list (option nat)) (r : nat) : nat -> Prop :=
| col_word j : (r < n)%nat -> rows !! r = Some (Some j) -> (j < m)%nat -> column rows r j
| col_missed : (r < n)%nat -> rows !! r = Some None -> column rows r (m + r)
| col_taken i : (n <= r)%nat -> (i < n)%nat -> rows !! i = Some (Some (r - n)%nat) -> column rows r (m + i)
| col_extra : (n <= r)%nat -> paired rows (r - n) = false -> (r - n < m)%nat -> column rows r (r - n).

Lemma column_ok rows r : credible rows -> (r < n + m)%nat -> column rows r (column_of rows r).
Proof.
  intros (L & [H1 H2] & _) Hr. unfold column_of. destruct (Nat.ltb_spec r n) as [Hn|Hn].
  - destruct (lookup_lt_is_Some_2 rows r ltac:(lia)) as [x Hx]. rewrite list_lookup_total_alt, Hx. cbn.
    destruct x as [j|]; [apply col_word; eauto|by apply col_missed].
  - destruct (find_row rows (r - n)) as [F1 F2]. destruct (List.find _ _) as [i|]; [|apply col_extra; auto; lia].
    destruct (F1 i eq_refl) as [Hi E]. apply col_taken; [done|done|].
    destruct (lookup_lt_is_Some_2 rows i ltac:(lia)) as [x Hx]. rewrite list_lookup_total_alt, Hx in E. cbn in E. congruence.
Qed.

Lemma column_range rows r j : column rows r j -> (j < n + m)%nat.
Proof. intros []; lia. Qed.

Lemma column_inj rows r r' j : credible rows -> column rows r j -> column rows r' j -> r = r'.
Proof.
  intros (L & [H1 H2] & _) Hr Hr'.
  assert (Hp : forall i k, rows !! i = Some (Some k) -> paired rows k = true) by (intros i k Hi; apply paired_spec; eauto).
  inversion Hr; inversion Hr'; subst; try lia.
  - by eapply H2.
  - match goal with H : paired _ _ = false, H' : rows !! r = _ |- _ => rewrite (Hp _ _ H') in H; done end.
  - assert (i = r) by lia. subst. congruence.
  - assert (i = r') by lia. subst. congruence.
  - assert (i = i0) by lia. subst i0. simplify_eq. lia.
  - match goal with H : paired _ _ = false, H' : rows !! r' = _ |- _ => rewrite (Hp _ _ H') in H; done end.
Qed.

Lemma assignment_of_at rows r j : assignment_of rows !! r = Some j -> (r < n + m)%nat /\ j = column_of rows r.
Proof.
  unfold assignment_of. intros H. pose proof (lookup_lt_Some _ _ _ H) as Hl. rewrite length_map, length_seq in Hl.
  rewrite list_lookup_fmap, (lookup_seq_lt _ _ _ Hl) in H. cbn in H. by simplify_eq.
Qed.

Lemma assignment_of_perm rows : credible rows -> assignment_of rows ≡ₚ seq 0 (n + m).
Proof.
  intros Hc. apply NoDup_Permutation_bis.
  - apply NoDup_ListNoDup, NoDup_alt. intros r r' j [Hr ->]%assignment_of_at [Hr' E]%assignment_of_at.
    eapply column_inj; [exact Hc|by apply column_ok|]. rewrite E. by apply column_ok.
  - unfold assignment_of. by rewrite length_map, !length_seq.
  - intros j Hj. apply list_elem_of_In, list_elem_of_lookup in Hj as [r Hr]. apply assignment_of_at in Hr as [Hr ->].
    pose proof (column_range _ _ _ (column_ok rows r Hc Hr)). apply in_seq. lia.
Qed.

Lemma pairing_is_assignment rows : credible rows ->
  assignment_cost (cost_matrix exp words opts) (assignment_of rows) = pairing_cost rows.
Proof.
  intros Hc. pose proof Hc as (L & _ & Hpl).
  rewrite (split_cost _ (fun r => if (r <? n)%nat then row_cost rows r else 0) (fun j => if (j <? m)%nat then word_cost rows j else 0) (assignment_of_perm rows Hc)).
  - unfold pairing_cost. f_equal; f_equal; apply map_ext_in; intros x Hx; apply in_seq in Hx; by rewrite (proj2 (Nat.ltb_lt _ _)) by lia.
  - intros r j [Hr ->]%assignment_of_at. unfold pair_cost, word_cost, row_cost.
    destruct (column_ok rows r Hc Hr) as [j Hn E Hj|Hn E|i Hn Hi E|Hn E Hj].
    + rewrite !(proj2 (Nat.ltb_lt _ _)) by lia. rewrite (Hpl r j E). rewrite (proj2 (paired_spec rows j L)) by eauto.
      rewrite (list_lookup_total_alt rows), E. cbn. lia.
    + rewrite (proj2 (Nat.ltb_lt r n)), (proj2 (Nat.ltb_ge (m + r) m)) by lia. rewrite (list_lookup_total_alt rows), E. cbn. lia.
    + rewrite (proj2 (Nat.ltb_ge r n)), (proj2 (Nat.ltb_ge (m + i) m)) by lia. done.
    + rewrite (proj2 (Nat.ltb_ge r n)), (proj2 (Nat.ltb_lt (r - n) m)) by lia. by rewrite E.
  - intros r Hr. by rewrite (proj2 (Nat.ltb_ge _ _)).
  - intros j Hj. by rewrite (proj2 (Nat.ltb_ge _ _)).
Qed.

(** ** What the result scores *)

Lemma errors_add s t : errors (score_add s t) = (errors s + errors t)%nat.
Proof. unfold errors. cbn. lia. Qed.

Lemma errors_total l : forall s, Z.of_nat (errors (fold_left (fun total x => score_add total (alignment_score x)) l s))
  = Z.of_nat (errors s) + sumZ (map (fun x => Z.of_nat (errors (alignment_score x))) l).
Proof.
  induction l as [|x l IH]; intros s; [cbn; lia|]. cbn [fold_left map]. rewrite IH, errors_add. unfold sumZ. cbn [fold_right]. lia.
Qed.

Lemma sum_filter {A} (keep : A -> bool) (g : A -> Z) l :
  sumZ (map g (List.filter keep l)) = sumZ (map (fun x => if keep x then g x else 0) l).
Proof. unfold sumZ. induction l as [|x l IH]; [done|]. cbn. destruct (keep x); cbn; rewrite IH; lia. Qed.

Lemma sumZ_app l l' : sumZ (l ++ l') = sumZ l + sumZ l'.
Proof. unfold sumZ. induction l as [|x l IH]; [done|]. cbn. rewrite IH. lia. Qed.

Lemma unordered_errors a :
  Z.of_nat (errors (unordered_score (unordered_of exp words opts a))) = pairing_cost (rows_of a).
Proof.
  unfold unordered_score. rewrite errors_total. cbn [items extras unordered_of]. rewrite map_app, !map_map, sumZ_app.
  change (Z.of_nat (errors score_default)) with 0. unfold pairing_cost. rewrite Z.add_0_l. f_equal.
  - f_equal. apply map_ext_in. intros i Hi. apply in_seq in Hi. unfold item_of, row_cost.
    assert (Er : rows_of a !!! i = matched_word exp words opts a i).
    { rewrite list_lookup_total_alt. by rewrite (proj2 (rows_of_at a i _) (conj (proj2 Hi : (i < n)%nat) eq_refl)). }
    rewrite Er. destruct (matched_word exp words opts a i) as [j|]; [done|].
    destruct (exp_at i) as [E1 L1]; [lia|]. by rewrite (errors_missed _ _ E1 L1).
  - rewrite sum_filter. f_equal. apply map_ext_in. intros j Hj. apply in_seq in Hj. unfold word_cost.
    assert (Eu : word_used exp words opts a j = paired (rows_of a) j).
    { unfold word_used, paired. apply eq_true_iff_eq. rewrite !existsb_exists. split; intros (i & Hi & E); exists i; (split; [done|]);
        apply in_seq in Hi; rewrite list_lookup_total_alt, (proj2 (rows_of_at a i _) (conj (proj2 Hi : (i < n)%nat) eq_refl)) in *; done. }
    rewrite Eu. destruct (paired _ _); cbn [negb]; [done|]. destruct (words_at j) as [E1 L1]; [lia|]. by rewrite (errors_extra _ _ E1 L1).
Qed.
End Pairings.

(** ** Order-free scoring is optimal *)

Lemma collect_ok {T E} (l : list (result T E)) : forall xs, collect l = Ok xs -> l = map Ok xs.
Proof.
  induction l as [|r l IH]; intros xs; cbn; [by intros [= <-]|]. destruct r as [x|e]; cbn; [|done].
  destruct (collect l) as [ys|e]; cbn; [|done]. intros [= <-]. cbn. by rewrite (IH ys).
Qed.

Lemma prepared_items_ok expected opts exp : prepared_items expected opts = Ok exp -> Forall (fun e => prepare e opts = e) exp.
Proof.
  intros H%collect_ok. apply Forall_forall. intros e He. apply list_elem_of_In, (in_map (@Ok _ CodecError)) in He.
  rewrite <- H in He. apply in_map_iff in He as (t & E & _). destruct (tokenize t) as [ts|]; [|done]. cbn in E. injection E as <-. apply prepare_idem.
Qed.
Lemma prepared_words_ok copied opts : Forall (fun w => prepare w opts = w) (prepared_words copied opts).
Proof. apply Forall_map, Forall_true. intros w. apply prepare_idem. Qed.

(** C19. Order-free scoring credits the operator as far as can be: when every call
    can be sent and there are at most 128 calls and copied words, the score is
    there, its pairing gives no word to two calls and pairs nothing
    implausible, its errors are the cost of that pairing, and no other such
    pairing has fewer. *)
Theorem align_unordered_optimal expected copied opts exp :
  prepared_items expected opts = Ok exp ->
  let words := prepared_words copied opts in
  (length exp + length words <= UNORDERED_OPTIMAL_MAX)%nat ->
  Forall (fun e => Z.of_nat (length e) < BIG) (exp ++ words) ->
  exists ua, align_unordered expected copied opts = Some (Ok ua)
    /\ credible exp words opts ua.(matched)
    /\ Z.of_nat (errors (unordered_score ua)) = pairing_cost exp words opts ua.(matched)
    /\ forall rows, credible exp words opts rows -> Z.of_nat (errors (unordered_score ua)) <= pairing_cost exp words opts rows.
Proof.
  intros He words Hsize Hbig. apply Forall_app in Hbig as [Hb1 Hb2].
  assert (H1 : Forall (fun e => prepare e opts = e /\ Z.of_nat (length e) < BIG) exp)
    by (apply Forall_and; split; [by eapply prepared_items_ok|done]).
  assert (H2 : Forall (fun w => prepare w opts = w /\ Z.of_nat (length w) < BIG) words)
    by (apply Forall_and; split; [apply prepared_words_ok|done]).
  destruct (hungarian_sound (cost_matrix exp words opts) (2 * BIG)) as (a & Ea & Ha & Hmin).
  { rewrite size_matrix. intros i j Hi Hj. rewrite matrix_at by done. by apply pair_cost_range. }
  { reflexivity. }
  rewrite size_matrix in Ha, Hmin. exists (unordered_of exp words opts a). split_and!.
  - unfold align_unordered. rewrite He. fold words. unfold assign_words.
    rewrite (proj2 (Nat.leb_le _ _)) by done. by rewrite Ea.
  - apply rows_of_credible; [rewrite Ha; apply NoDup_ListNoDup, seq_NoDup|]. rewrite (Permutation_length Ha), length_seq. lia.
  - by apply unordered_errors.
  - intros rows Hr. rewrite (unordered_errors exp words opts H1 H2 a), <- (assignment_is_pairing exp words opts a Ha).
    rewrite <- (pairing_is_assignment exp words opts rows Hr). apply Hmin. by apply (assignment_of_perm exp words opts).
Qed.

Lemma align_unordered_optimal_witness :
  let calls := [txt "W1AW"; txt "K0ABC"] in
  let copied := txt "k0abd w1aw" in
  exists exp ua, prepared_items calls score_options_default = Ok exp
    /\ align_unordered calls copied score_options_default = Some (Ok ua)
    /\ errors (unordered_score ua) = 1%nat
    /\ forall rows, credible exp (prepared_words copied score_options_default) score_options_default rows ->
         1 <= pairing_cost exp (prepared_words copied score_options_default) score_options_default rows.
Proof.
  intros calls copied. destruct (prepared_items calls score_options_default) as [exp|] eqn:E; [|vm_compute in E; discriminate E].
  destruct (align_unordered_optimal calls copied score_options_default exp E) as (ua & Hu & _ & _ & Hmin).
  { vm_compute in E. injection E as <-. apply Nat.leb_le. vm_compute. reflexivity. }
  { vm_compute in E. injection E as <-. repeat constructor. }
  exists exp, ua. split; [done|]. split; [done|].
  assert (H1 : errors (unordered_score ua) = 1%nat) by (vm_compute in Hu; injection Hu as <-; vm_compute; reflexivity).
  split; [done|]. intros rows Hr. specialize (Hmin rows Hr). rewrite H1 in Hmin. exact Hmin.
Defined.
