(* ===== verification/Stats.v ===== *)
(** * Stats: how each sent unit fares (cat-morse/src/score.rs)

    [CharStats]: per-unit tallies over any number of alignments.  Recording is
    adding: the order of the alignments does not matter, and statistics kept
    apart and merged are those kept together. *)

From S2P Require Import Prelude Text Morse Score Unordered.

#[export] Instance Prosign_countable : Countable Prosign.
Proof.
  refine (inj_countable' (fun p => match p with Ar => 0 | Sk => 1 | Bt => 2 | Kn => 3 | As => 4 | Hh => 5 | Sos => 6 end)%nat
    (fun n => match n with 0 => Ar | 1 => Sk | 2 => Bt | 3 => Kn | 4 => As | 5 => Hh | _ => Sos end)%nat _).
  by intros [].
Defined.
#[export] Instance Token_countable : Countable Token.
Proof.
  refine (inj_countable' (fun t => match t with TChar c => inl (inl c) | TProsign p => inl (inr p) | WordSpace => inr tt end)
    (fun x => match x with inl (inl c) => TChar c | inl (inr p) => TProsign p | inr _ => WordSpace end) _).
  by intros [].
Defined.

(** The counters are [u32]. *)
Record CharTally : Type := mk_CharTally {
  sent : Z; correct : Z; missed : Z; inserted_near : Z; confused_as : gmap Unit Z }.
Definition tally_default : CharTally := mk_CharTally 0 0 0 0 ∅.

(** [*entry(u).or_insert(0) += n], for every entry of the other map. *)
Definition add_count (a b : option Z) : option Z :=
  match b with None => a | Some n => Some (wrapping_add_u32 (default 0 a) n) end.
Definition tally_merge (t o : CharTally) : CharTally :=
  mk_CharTally (wrapping_add_u32 t.(sent) o.(sent)) (wrapping_add_u32 t.(correct) o.(correct))
    (wrapping_add_u32 t.(missed) o.(missed)) (wrapping_add_u32 t.(inserted_near) o.(inserted_near))
    (merge add_count t.(confused_as) o.(confused_as)).

Abbreviation CharStats := (gmap Unit CharTally).
Definition add_tally (a b : option CharTally) : option CharTally :=
  match b with None => a | Some o => Some (tally_merge (default tally_default a) o) end.
Definition stats_merge (s o : CharStats) : CharStats := merge add_tally s o.

Definition update (s : CharStats) (u : Unit) (f : CharTally -> CharTally) : CharStats :=
  if bool_decide (u = WordSpace) then s else <[u := f (default tally_default (s !! u))]> s.
Definition bump (n : Z) : Z := wrapping_add_u32 n 1.

(** [record]: one step of an alignment of [expected]. *)
Definition record_op (expected : list Unit) (s : CharStats) (op : AlignOp) : CharStats :=
  match op with
  | Match u => update s u (fun t => mk_CharTally (bump t.(sent)) (bump t.(correct)) t.(missed) t.(inserted_near) t.(confused_as))
  | Deletion u => update s u (fun t => mk_CharTally (bump t.(sent)) t.(correct) (bump t.(missed)) t.(inserted_near) t.(confused_as))
  | Substitution u copied =>
      update s u (fun t => mk_CharTally (bump t.(sent)) t.(correct) t.(missed) t.(inserted_near)
                             (<[copied := bump (default 0 (t.(confused_as) !! copied))]> t.(confused_as)))
  | Insertion _ attributed_to =>
      match i ← attributed_to; expected !! i with
      | Some u => update s u (fun t => mk_CharTally t.(sent) t.(correct) t.(missed) (bump t.(inserted_near)) t.(confused_as))
      | None => s
      end
  end.
Definition record (s : CharStats) (a : Alignment) : CharStats := fold_left (record_op a.(al_expected)) a.(ops) s.
(** [record_unordered]: every item and every extra word. *)
Definition record_unordered (s : CharStats) (a : UnorderedAlignment) : CharStats :=
  fold_left record (a.(items) ++ a.(extras)) s.
Definition stats_get (s : CharStats) (u : Unit) : option CharTally := s !! u.

(** ** Recording is adding *)

Definition u32 (z : Z) : Prop := 0 <= z < 2 ^ 32.
Lemma wrapping_u32 a b : u32 (wrapping_add_u32 a b).
Proof. unfold u32, wrapping_add_u32. apply Z.mod_pos_bound. lia. Qed.
Lemma wrapping_0_l a : u32 a -> wrapping_add_u32 0 a = a.
Proof. intros. unfold wrapping_add_u32. apply Z.mod_small. done. Qed.
Lemma wrapping_0_r a : u32 a -> wrapping_add_u32 a 0 = a.
Proof. intros. unfold wrapping_add_u32. rewrite Z.add_0_r. apply Z.mod_small. done. Qed.
Lemma wrapping_comm a b : wrapping_add_u32 a b = wrapping_add_u32 b a.
Proof. unfold wrapping_add_u32. f_equal. lia. Qed.
Lemma wrapping_assoc a b c : wrapping_add_u32 a (wrapping_add_u32 b c) = wrapping_add_u32 (wrapping_add_u32 a b) c.
Proof. unfold wrapping_add_u32. rewrite Zplus_mod_idemp_r, Zplus_mod_idemp_l. f_equal. lia. Qed.

(** An addition on counts or tallies, carried to entries that may be absent. *)
Section Entries.
  Context {A : Type} (op : A -> A -> A) (unit : A) (ok : A -> Prop).
  Context (Hcomm : forall a b, ok a -> ok b -> op a b = op b a).
  Context (Hassoc : forall a b c, ok a -> ok b -> ok c -> op a (op b c) = op (op a b) c).
  Context (Hunit : forall a, ok a -> op unit a = a) (Hok_unit : ok unit) (Hok : forall a b, ok a -> ok b -> ok (op a b)).

Definition add_entry (a b : option A) : option A := match b with None => a | Some y => Some (op (default unit a) y) end.
Definition entry_ok (a : option A) : Prop := match a with Some x => ok x | None => True end.

Lemma add_entry_ok a b : entry_ok a -> entry_ok b -> entry_ok (add_entry a b).
Proof. destruct a, b; cbn; auto. Qed.
Lemma add_entry_comm a b : entry_ok a -> entry_ok b -> add_entry a b = add_entry b a.
Proof. destruct a as [x|], b as [y|]; cbn; intros Ha Hb; [by rewrite Hcomm|by rewrite Hunit|by rewrite Hunit|done]. Qed.
Lemma add_entry_assoc a b c : entry_ok a -> entry_ok b -> entry_ok c ->
  add_entry a (add_entry b c) = add_entry (add_entry a b) c.
Proof.
  destruct a as [x|], b as [y|], c as [z|]; cbn; intros Ha Hb Hc; try done; by rewrite ?Hunit, ?Hassoc by auto.
Qed.

Context {K : Type} `{Countable K}.
Definition map_ok (m : gmap K A) : Prop := forall k, entry_ok (m !! k).

Lemma merge_at (m m' : gmap K A) k : merge add_entry m m' !! k = add_entry (m !! k) (m' !! k).
Proof. rewrite lookup_merge. by destruct (m !! k), (m' !! k). Qed.
Lemma merge_ok m m' : map_ok m -> map_ok m' -> map_ok (merge add_entry m m').
Proof. intros Hm Hm' k. rewrite merge_at. by apply add_entry_ok. Qed.
Lemma merge_comm_ok m m' : map_ok m -> map_ok m' -> merge add_entry m m' = merge add_entry m' m.
Proof. intros Hm Hm'. apply map_eq. intros k. rewrite !merge_at. by apply add_entry_comm. Qed.
Lemma merge_assoc_ok m1 m2 m3 : map_ok m1 -> map_ok m2 -> map_ok m3 ->
  merge add_entry m1 (merge add_entry m2 m3) = merge add_entry (merge add_entry m1 m2) m3.
Proof. intros H1 H2 H3. apply map_eq. intros k. rewrite !merge_at. by apply add_entry_assoc. Qed.
Lemma merge_empty_r (m : gmap K A) : merge add_entry m ∅ = m.
Proof. apply map_eq. intros k. rewrite merge_at, lookup_empty. done. Qed.
Lemma merge_empty_l (m : gmap K A) : map_ok m -> merge add_entry ∅ m = m.
Proof. intros Hm. apply map_eq. intros k. rewrite merge_at, lookup_empty. specialize (Hm k). destruct (m !! k); cbn in *; [by rewrite Hunit|done]. Qed.
Lemma merge_one (m : gmap K A) k d : merge add_entry m {[k := d]} = <[k := op (default unit (m !! k)) d]> m.
Proof.
  apply map_eq. intros k'. rewrite merge_at. destruct (decide (k = k')) as [->|Hne].
  - by rewrite lookup_singleton_eq, lookup_insert_eq.
  - by rewrite lookup_singleton_ne, lookup_insert_ne.
Qed.
End Entries.

Definition tally_ok (t : CharTally) : Prop :=
  u32 t.(sent) /\ u32 t.(correct) /\ u32 t.(missed) /\ u32 t.(inserted_near) /\ map_ok u32 t.(confused_as).
Definition stats_ok (s : CharStats) : Prop := map_ok tally_ok s.

Lemma tally_merge_ok t o : tally_ok t -> tally_ok o -> tally_ok (tally_merge t o).
Proof.
  intros (_ & _ & _ & _ & H) (_ & _ & _ & _ & H'). split_and!; cbn; try apply wrapping_u32.
  apply (merge_ok wrapping_add_u32 0 u32); auto using wrapping_u32. by unfold u32.
Qed.
Lemma tally_default_ok : tally_ok tally_default.
Proof. split_and!; cbn; by unfold u32. Qed.
Lemma tally_merge_comm t o : tally_ok t -> tally_ok o -> tally_merge t o = tally_merge o t.
Proof.
  intros (_ & _ & _ & _ & H) (_ & _ & _ & _ & H'). unfold tally_merge. f_equal; try apply wrapping_comm.
  apply (merge_comm_ok wrapping_add_u32 0 u32); auto using wrapping_comm, wrapping_0_l.
Qed.
Lemma tally_merge_assoc t o q : tally_ok t -> tally_ok o -> tally_ok q ->
  tally_merge t (tally_merge o q) = tally_merge (tally_merge t o) q.
Proof.
  intros (_ & _ & _ & _ & H) (_ & _ & _ & _ & H') (_ & _ & _ & _ & H''). unfold tally_merge. cbn. f_equal; try apply wrapping_assoc.
  apply (merge_assoc_ok wrapping_add_u32 0 u32); auto using wrapping_assoc, wrapping_0_l, wrapping_u32. by unfold u32.
Qed.
Lemma tally_merge_unit t : tally_ok t -> tally_merge tally_default t = t.
Proof.
  intros (H1 & H2 & H3 & H4 & H5). unfold tally_merge. destruct t as [a b c d m]. cbn in *. rewrite !wrapping_0_l by done. f_equal.
  apply (merge_empty_l wrapping_add_u32 0 u32); auto using wrapping_0_l.
Qed.

(** ** One step is the addition of a small tally *)

Definition one_match : CharTally := mk_CharTally 1 1 0 0 ∅.
Definition one_missed : CharTally := mk_CharTally 1 0 1 0 ∅.
Definition one_near : CharTally := mk_CharTally 0 0 0 1 ∅.
Definition one_confused (copied : Unit) : CharTally := mk_CharTally 1 0 0 0 {[copied := 1]}.

Definition entry (u : Unit) (d : CharTally) : CharStats := if bool_decide (u = WordSpace) then ∅ else {[u := d]}.
Definition op_stats (expected : list Unit) (op : AlignOp) : CharStats :=
  match op with
  | Match u => entry u one_match
  | Deletion u => entry u one_missed
  | Substitution u copied => entry u (one_confused copied)
  | Insertion _ attributed_to => match i ← attributed_to; expected !! i with Some u => entry u one_near | None => ∅ end
  end.

Lemma update_entry s u f d : stats_ok s -> (forall t, tally_ok t -> f t = tally_merge t d) -> update s u f = stats_merge s (entry u d).
Proof.
  intros Hs Hf. unfold update, entry, stats_merge. case_bool_decide; [symmetry; apply (merge_empty_r tally_merge tally_default)|].
  rewrite Hf; [symmetry; apply (merge_one tally_merge tally_default)|].
  specialize (Hs u). destruct (s !! u); [done|apply tally_default_ok].
Qed.

Lemma confused_same (m : gmap Unit Z) : merge add_count m ∅ = m.
Proof. apply (merge_empty_r wrapping_add_u32 0). Qed.
Lemma confused_one (m : gmap Unit Z) c : merge add_count m {[c := 1]} = <[c := bump (default 0 (m !! c))]> m.
Proof. apply (merge_one wrapping_add_u32 0). Qed.

Lemma record_op_merge expected s op : stats_ok s -> record_op expected s op = stats_merge s (op_stats expected op).
Proof.
  intros Hs. destruct op as [u|u c|u|x a]; cbn [record_op op_stats].
  - apply update_entry; [done|]. intros t (_ & _ & H3 & H4 & _). unfold tally_merge. cbn.
    rewrite confused_same, !wrapping_0_r by done. done.
  - apply update_entry; [done|]. intros t (_ & H2 & H3 & H4 & _). unfold tally_merge. cbn.
    rewrite confused_one, !wrapping_0_r by done. done.
  - apply update_entry; [done|]. intros t (_ & H2 & _ & H4 & _). unfold tally_merge. cbn.
    rewrite confused_same, !wrapping_0_r by done. done.
  - destruct (i ← a; expected !! i) as [u|]; [|symmetry; apply (merge_empty_r tally_merge tally_default)].
    apply update_entry; [done|]. intros t (H1 & H2 & H3 & _ & _). unfold tally_merge. cbn.
    rewrite confused_same, !wrapping_0_r by done. done.
Qed.

Lemma entry_stats_ok u d : tally_ok d -> stats_ok (entry u d).
Proof.
  intros Hd k. unfold entry. case_bool_decide; [by rewrite lookup_empty|].
  destruct (decide (u = k)) as [->|]; [by rewrite lookup_singleton_eq|by rewrite lookup_singleton_ne].
Qed.
Lemma empty_stats_ok : stats_ok ∅.
Proof. intros k. by rewrite lookup_empty. Qed.
Lemma op_stats_ok expected op : stats_ok (op_stats expected op).
Proof.
  destruct op as [u|u c|u|x a]; cbn; [apply entry_stats_ok; by split_and!| |apply entry_stats_ok; by split_and!|].
  - apply entry_stats_ok. split_and!; cbn; try by unfold u32.
    intros k. destruct (decide (c = k)) as [->|]; [by rewrite lookup_singleton_eq|by rewrite lookup_singleton_ne].
  - destruct (i ← a; expected !! i) as [u|]; [apply entry_stats_ok; by split_and!|apply empty_stats_ok].
Qed.

Lemma stats_merge_ok s o : stats_ok s -> stats_ok o -> stats_ok (stats_merge s o).
Proof. apply (merge_ok tally_merge tally_default tally_ok); auto using tally_merge_ok, tally_default_ok. Qed.
Lemma stats_merge_comm s o : stats_ok s -> stats_ok o -> stats_merge s o = stats_merge o s.
Proof. apply (merge_comm_ok tally_merge tally_default tally_ok); auto using tally_merge_comm, tally_merge_unit. Qed.
Lemma stats_merge_assoc s o q : stats_ok s -> stats_ok o -> stats_ok q ->
  stats_merge s (stats_merge o q) = stats_merge (stats_merge s o) q.
Proof. apply (merge_assoc_ok tally_merge tally_default tally_ok); auto using tally_merge_assoc, tally_merge_unit, tally_default_ok, tally_merge_ok. Qed.
Lemma stats_merge_empty_l s : stats_ok s -> stats_merge ∅ s = s.
Proof. apply (merge_empty_l tally_merge tally_default tally_ok); auto using tally_merge_unit. Qed.
Lemma stats_merge_empty_r s : stats_merge s ∅ = s.
Proof. apply (merge_empty_r tally_merge tally_default). Qed.

(** All that an alignment adds. *)
Definition alignment_stats (a : Alignment) : CharStats := record ∅ a.

Lemma record_ops expected l : forall s, stats_ok s ->
  stats_ok (fold_left (record_op expected) l ∅)
  /\ fold_left (record_op expected) l s = stats_merge s (fold_left (record_op expected) l ∅).
Proof.
  induction l as [|op l IH] using rev_ind; intros s Hs; [split; [apply empty_stats_ok|by rewrite stats_merge_empty_r]|].
  rewrite !fold_left_app. cbn [fold_left]. destruct (IH s Hs) as [Hok ->]. pose proof (op_stats_ok expected op).
  rewrite !record_op_merge by auto using stats_merge_ok. split; [by apply stats_merge_ok|]. by rewrite stats_merge_assoc.
Qed.

Lemma record_merge s a : stats_ok s -> stats_ok (alignment_stats a) /\ record s a = stats_merge s (alignment_stats a).
Proof. intros Hs. apply (record_ops a.(al_expected) a.(ops) s Hs). Qed.

Definition record_all (l : list Alignment) : CharStats := fold_left record l ∅.

Lemma record_all_from l : forall s, stats_ok s -> stats_ok (record_all l) /\ fold_left record l s = stats_merge s (record_all l).
Proof.
  unfold record_all. induction l as [|a l IH] using rev_ind; intros s Hs; [split; [apply empty_stats_ok|by rewrite stats_merge_empty_r]|].
  rewrite !fold_left_app. cbn [fold_left]. destruct (IH s Hs) as [Hok ->].
  destruct (record_merge _ a Hok) as [Ha ->]. destruct (record_merge _ a (stats_merge_ok _ _ Hs Hok)) as [_ ->].
  split; [by apply stats_merge_ok|]. by rewrite stats_merge_assoc.
Qed.

Lemma record_all_app l l' : record_all (l ++ l') = stats_merge (record_all l) (record_all l').
Proof.
  unfold record_all at 1. rewrite fold_left_app. fold (record_all l).
  apply record_all_from. apply (record_all_from l ∅ empty_stats_ok).
Qed.
Lemma record_all_ok l : stats_ok (record_all l).
Proof. apply (record_all_from l ∅ empty_stats_ok). Qed.

#[export] Instance record_all_perm : Proper (Permutation ==> eq) record_all.
Proof.
  intros l l' H. induction H as [|a l l' _ IH|a b l|]; [done| | |congruence].
  - change (a :: l) with ([a] ++ l). change (a :: l') with ([a] ++ l'). by rewrite !record_all_app, IH.
  - change (b :: a :: l) with ([b] ++ [a] ++ l). change (a :: b :: l) with ([a] ++ [b] ++ l).
    rewrite !record_all_app, !stats_merge_assoc by apply record_all_ok. f_equal. apply stats_merge_comm; apply record_all_ok.
Qed.

(** ** What is counted *)

Definition tally_at (s : CharStats) (u : Unit) : CharTally := default tally_default (s !! u).
Definition occurrences (u : Unit) (l : list Unit) : Z := Z.of_nat (length (List.filter (fun x => bool_decide (x = u)) l)).

Lemma tally_at_merge s o u : stats_ok s -> stats_ok o -> tally_at (stats_merge s o) u = tally_merge (tally_at s u) (tally_at o u).
Proof.
  intros Hs Ho. unfold tally_at, stats_merge. pose proof (Hs u) as H1. pose proof (Ho u) as H2.
  etrans; [apply f_equal; apply (merge_at tally_merge tally_default)|]. destruct (o !! u) as [t|]; [done|].
  destruct (s !! u) as [t|]; cbn in *.
  - by rewrite tally_merge_comm, tally_merge_unit by auto using tally_default_ok.
  - by rewrite tally_merge_unit by apply tally_default_ok.
Qed.

Lemma op_sent expected op u : u <> WordSpace ->
  sent (tally_at (op_stats expected op) u) = occurrences u (sent_of [op]).
Proof.
  intros Hu.
  assert (He : forall x d, tally_at (entry x d) u = if bool_decide (x = u) then d else tally_default).
  { intros x d. unfold tally_at, entry. case_bool_decide as E1; case_bool_decide as E2; subst.
    - done.
    - by rewrite lookup_empty.
    - by rewrite lookup_singleton_eq.
    - by rewrite lookup_singleton_ne. }
  destruct op as [x|x c|x|x a]; cbn [op_stats]; rewrite ?He; unfold occurrences, sent_of; cbn [omap list_omap sent_unit List.filter].
  - by case_bool_decide.
  - by case_bool_decide.
  - by case_bool_decide.
  - destruct (i ← a; expected !! i) as [y|]; [rewrite He; by case_bool_decide|]. unfold tally_at. by rewrite lookup_empty.
Qed.

Lemma occurrences_app u l l' : occurrences u (l ++ l') = occurrences u l + occurrences u l'.
Proof. unfold occurrences. rewrite List.filter_app, length_app. lia. Qed.

Lemma wrapping_mod a b : wrapping_add_u32 (a mod 2 ^ 32) (b mod 2 ^ 32) = (a + b) mod 2 ^ 32.
Proof. unfold wrapping_add_u32. by rewrite <- Zplus_mod. Qed.

Lemma ops_sent expected l u : u <> WordSpace ->
  sent (tally_at (fold_left (record_op expected) l ∅) u) = occurrences u (sent_of l) mod 2 ^ 32.
Proof.
  intros Hu. induction l as [|op l IH] using rev_ind; [done|]. rewrite fold_left_app. cbn [fold_left].
  destruct (record_ops expected l ∅ empty_stats_ok) as [Hok _]. rewrite record_op_merge, tally_at_merge by auto using op_stats_ok.
  cbn [sent tally_merge]. rewrite IH, op_sent by done. rewrite sent_of_app, occurrences_app, <- wrapping_mod. f_equal.
  symmetry. apply Z.mod_small. unfold occurrences, sent_of. destruct (sent_unit op) as [x|] eqn:E; cbn; rewrite E; cbn; [case_bool_decide; cbn; lia|lia].
Qed.

(** Recording is adding: the statistics of a session do not depend on the order
    of its alignments, statistics kept apart and merged are those kept
    together, and a unit's tally says how often it was sent, up to the width of
    the counter. *)
Theorem stats_additive l l' u :
  (l ≡ₚ l' -> record_all l = record_all l')
  /\ record_all (l ++ l') = stats_merge (record_all l) (record_all l')
  /\ (u <> WordSpace ->
      sent (tally_at (record_all l) u) = occurrences u (concat (map (fun a => sent_of a.(ops)) l)) mod 2 ^ 32).
Proof.
  split; [by intros ->|]. split; [apply record_all_app|]. intros Hu.
  induction l as [|a l IH]; [done|]. change (a :: l) with ([a] ++ l).
  rewrite record_all_app, tally_at_merge by apply record_all_ok. cbn [sent tally_merge]. rewrite IH.
  cbn [app map concat]. rewrite occurrences_app, <- wrapping_mod. f_equal. apply (ops_sent a.(al_expected) a.(ops) u Hu).
Qed.

Definition sent_as (sent copied : string) : Alignment :=
  match align (txt sent) (txt copied) score_options_default with Ok a => a | Err _ => mk_Alignment [] [] end.

Lemma stats_additive_witness :
  let l := [sent_as "CQ CQ" "CO CQ"; sent_as "QTH" "QH"] in
  let q := TChar (ch "Q") in
  record_all l = record_all (rev l)
  /\ sent (tally_at (record_all l) q) = 3 /\ stats_get (record_all l) WordSpace = None.
Proof.
  intros l q. destruct (stats_additive l (rev l) q) as (H1 & _ & H3). split; [apply H1, Permutation_rev|].
  split; [rewrite H3 by discriminate; vm_compute; reflexivity|vm_compute; reflexivity].
Defined.
