(* ===== verification/Timing.v ===== *)
(** * Timing: seeded keying (cat-morse/src/rng.rs and timing.rs)

    The portable generator (xoshiro256 star-star), [f64] arithmetic as
    IEEE 754 binary64 computed exactly (the Standard Library's [SpecFloat]),
    sending speeds, fists, and [key], which turns tokens into key-down and
    key-up segments.  Durations are integers of nanoseconds. *)

From Stdlib Require Import Floats.SpecFloat.
From S2P Require Import Prelude Text Morse.

(** ** [f64] *)

Module F64.
Abbreviation f64 := spec_float.
Definition add : f64 -> f64 -> f64 := SFadd 53 1024.
Definition sub : f64 -> f64 -> f64 := SFsub 53 1024.
Definition mul : f64 -> f64 -> f64 := SFmul 53 1024.
Definition div : f64 -> f64 -> f64 := SFdiv 53 1024.
Definition ltb : f64 -> f64 -> bool := SFltb.
Definition leb : f64 -> f64 -> bool := SFleb.
(** An integer as [f64]: [as f64], correctly rounded. *)
Definition of_Z (z : Z) : f64 := binary_normalize 53 1024 z 0 false.
(** The decimal literal [n / 10^k]: one correctly rounded division of two
    exact integers is the literal's nearest [f64]. *)
Definition dec (n k : Z) : f64 := div (of_Z n) (of_Z (10 ^ k)).
Definition is_nan (x : f64) : bool := match x with S754_nan => true | _ => false end.
Definition is_finite (x : f64) : bool :=
  match x with S754_zero _ | S754_finite _ _ _ => true | _ => false end.
(** [f64::max]: a NaN loses. *)
Definition max (x y : f64) : f64 :=
  if is_nan x then y else if is_nan y then x else if ltb x y then y else x.
Definition clamp (x lo hi : f64) : f64 := if ltb x lo then lo else if ltb hi x then hi else x.
(** [x.round().max(0.0) as u64]: half away from zero, then the saturating cast. *)
Definition round_max0_u64 (x : f64) : Z :=
  match x with
  | S754_finite false m e =>
      let r := if 0 <=? e then Z.pos m * 2 ^ e
               else (2 * Z.pos m + 2 ^ (- e)) / 2 ^ (1 - e) in
      Z.min r u64_max
  | S754_infinity false => u64_max
  | _ => 0
  end.
End F64.
Abbreviation f64 := spec_float.

(** ** The generator *)

Definition wrapping_mul_u64 (a b : Z) : Z := (a * b) mod 2 ^ 64.
Definition rotate_left (x n : Z) : Z :=
  Z.lor (Z.shiftl x n mod 2 ^ 64) (Z.shiftr x (64 - n)).

Record Rng : Type := mk_Rng { s0 : Z; s1 : Z; s2 : Z; s3 : Z }.

(** [splitmix64]: the output and the advanced state. *)
Definition splitmix64 (state : Z) : Z * Z :=
  let state := wrapping_add_u64 state 0x9E3779B97F4A7C15 in
  let z := state in
  let z := wrapping_mul_u64 (Z.lxor z (Z.shiftr z 30)) 0xBF58476D1CE4E5B9 in
  let z := wrapping_mul_u64 (Z.lxor z (Z.shiftr z 27)) 0x94D049BB133111EB in
  (Z.lxor z (Z.shiftr z 31), state).

Definition seed_four (sm : Z) : Rng :=
  let '(a, sm) := splitmix64 sm in
  let '(b, sm) := splitmix64 sm in
  let '(c, sm) := splitmix64 sm in
  let '(d, _) := splitmix64 sm in
  mk_Rng a b c d.

Definition rng_new (seed : Z) : Rng := seed_four seed.

Definition fork (r : Rng) (stream : Z) : Rng :=
  seed_four (Z.lxor (Z.lxor (Z.lxor (Z.lxor r.(s0) (rotate_left r.(s1) 17))
               (rotate_left r.(s2) 31)) (rotate_left r.(s3) 47))
               (wrapping_mul_u64 stream 0xD1B54A32D192ED03)).

Definition next_u64 (r : Rng) : Z * Rng :=
  let result := wrapping_mul_u64 (rotate_left (wrapping_mul_u64 r.(s1) 5) 7) 9 in
  let t := Z.shiftl r.(s1) 17 mod 2 ^ 64 in
  let b2 := Z.lxor r.(s2) r.(s0) in
  let b3 := Z.lxor r.(s3) r.(s1) in
  let b1 := Z.lxor r.(s1) b2 in
  let b0 := Z.lxor r.(s0) b3 in
  let b2 := Z.lxor b2 t in
  let b3 := rotate_left b3 45 in
  (result, mk_Rng b0 b1 b2 b3).

Definition unit_f64 (r : Rng) : f64 * Rng :=
  let '(x, r) := next_u64 r in
  (F64.mul (F64.of_Z (Z.shiftr x 11)) (F64.div (F64.of_Z 1) (F64.of_Z (2 ^ 53))), r).

Fixpoint gauss_sum (n : nat) (sum : f64) (r : Rng) : f64 * Rng :=
  match n with
  | O => (sum, r)
  | S n => let '(u, r) := unit_f64 r in gauss_sum n (F64.add sum u) r
  end.
Definition gauss (r : Rng) : f64 * Rng :=
  let '(sum, r) := gauss_sum 12 (F64.of_Z 0) r in (F64.sub sum (F64.of_Z 6), r).

(** ** Speeds and fists *)

Inductive TimingError : Type :=
| InvalidWpm (w : f64)
| EffectiveExceedsChar (character effective : f64)
| InvalidFist (what : string)
| Codec (e : CodecError).

Record Speed : Type := mk_Speed { char_wpm : f64; effective_wpm : f64 }.

Definition MIN_WPM : f64 := F64.of_Z 3.
Definition MAX_WPM : f64 := F64.of_Z 100.

Definition check_wpm (w : f64) : result f64 TimingError :=
  if F64.is_finite w && (F64.leb MIN_WPM w && F64.leb w MAX_WPM) then Ok w
  else Err (InvalidWpm w).

(** [secs]: seconds to whole nanoseconds. *)
Definition secs (s : f64) : Z := F64.round_max0_u64 (F64.mul s (F64.of_Z 1000000000)).

Definition speed_wpm (wpm : f64) : result Speed TimingError :=
  let? w := check_wpm wpm in Ok (mk_Speed w w).
Definition farnsworth (cw ew : f64) : result Speed TimingError :=
  let? c := check_wpm cw in
  let? s := check_wpm ew in
  if F64.ltb c s then Err (EffectiveExceedsChar c s) else Ok (mk_Speed c s).

Definition is_farnsworth (s : Speed) : bool := F64.ltb s.(effective_wpm) s.(char_wpm).
Definition dot_secs (s : Speed) : f64 := F64.div (F64.dec 12 1) s.(char_wpm).
Definition farnsworth_ta (sp : Speed) : f64 :=
  let c := sp.(char_wpm) in
  let s := sp.(effective_wpm) in
  F64.div (F64.sub (F64.mul (F64.of_Z 60) c) (F64.mul (F64.dec 372 1) s)) (F64.mul s c).
Definition gap_secs (units : Z) (s : Speed) : f64 :=
  if is_farnsworth s then F64.div (F64.mul (F64.of_Z units) (farnsworth_ta s)) (F64.of_Z 19)
  else F64.mul (F64.of_Z units) (dot_secs s).
Definition letter_gap_secs : Speed -> f64 := gap_secs 3.
Definition word_gap_secs : Speed -> f64 := gap_secs 7.
Definition dot (s : Speed) : Z := secs (dot_secs s).
Definition letter_gap (s : Speed) : Z := secs (letter_gap_secs s).
Definition word_gap (s : Speed) : Z := secs (word_gap_secs s).

Record Fist : Type := mk_Fist {
  dash_ratio : f64; weight : f64; element_jitter : f64;
  letter_gap_jitter : f64; word_gap_jitter : f64; speed_drift : f64 }.

Definition perfect : Fist :=
  mk_Fist (F64.of_Z 3) (F64.of_Z 0) (F64.of_Z 0) (F64.of_Z 0) (F64.of_Z 0) (F64.of_Z 0).
Definition good : Fist :=
  mk_Fist (F64.of_Z 3) (F64.of_Z 0) (F64.dec 4 2) (F64.dec 6 2) (F64.dec 8 2) (F64.dec 1 2).
Definition typical : Fist :=
  mk_Fist (F64.dec 315 2) (F64.dec 5 2) (F64.dec 8 2) (F64.dec 12 2) (F64.dec 15 2) (F64.dec 2 2).
Definition sloppy : Fist :=
  mk_Fist (F64.dec 27 1) (F64.dec 12 2) (F64.dec 14 2) (F64.dec 25 2) (F64.dec 3 1) (F64.dec 4 2).

Definition in_range (v lo hi : f64) : bool :=
  F64.is_finite v && F64.leb lo v && F64.leb v hi.
Definition fist_validate (f : Fist) : result () TimingError :=
  let? _ := refuse_if (negb (in_range f.(dash_ratio) (F64.of_Z 2) (F64.of_Z 5)))
              (InvalidFist "dash_ratio must be in [2, 5]") in
  let? _ := refuse_if (negb (in_range f.(weight) (F64.dec (-4) 1) (F64.dec 4 1)))
              (InvalidFist "weight must be in [-0.4, 0.4]") in
  let? _ := refuse_if (negb (in_range f.(element_jitter) (F64.of_Z 0) (F64.dec 5 1)))
              (InvalidFist "element_jitter must be in [0, 0.5]") in
  let? _ := refuse_if (negb (in_range f.(letter_gap_jitter) (F64.of_Z 0) (F64.dec 6 1))
                       || negb (in_range f.(word_gap_jitter) (F64.of_Z 0) (F64.dec 6 1)))
              (InvalidFist "gap jitter must be in [0, 0.6]") in
  refuse_if (negb (in_range f.(speed_drift) (F64.of_Z 0) (F64.dec 2 1)))
    (InvalidFist "speed_drift must be in [0, 0.2]").

(** ** Keying *)

Record Segment : Type := mk_Segment { key_down : bool; duration : Z }.
#[export] Instance Segment_eq_dec : EqDecision Segment.
Proof. solve_decision. Defined.
Abbreviation Keying := (list Segment) (only parsing).

Definition total (k : Keying) : Z := foldr (fun s acc => s.(duration) + acc) 0 k.
Definition key_down_time (k : Keying) : Z :=
  total (List.filter (fun s => s.(key_down)) k).

(** [Keying::push]. *)
Fixpoint push (k : Keying) (down : bool) (d : Z) : Keying :=
  if d =? 0 then k
  else match k with
       | [] => [mk_Segment down d]
       | [last] => if Bool.eqb last.(key_down) down
                   then [mk_Segment last.(key_down) (last.(duration) + d)]
                   else [last; mk_Segment down d]
       | s :: k => s :: push k down d
       end.

(** [Keying::truncated]: the loop, then dropping a trailing key-up. *)
Fixpoint truncated_loop (out : Keying) (t max : Z) (k : Keying) : Keying :=
  match k with
  | [] => out
  | s :: k =>
      if max <=? t then out
      else truncated_loop (push out s.(key_down) (Z.min s.(duration) (max - t)))
             (t + s.(duration)) max k
  end.
Definition drop_key_up (k : Keying) : Keying :=
  match last k with
  | Some s => if s.(key_down) then k else removelast k
  | None => k
  end.
Definition truncated (k : Keying) (max : Z) : Keying := drop_key_up (truncated_loop [] 0 max k).

(** [Keying::append]. *)
Definition append_keying (k other : Keying) (gap : Z) : Keying :=
  fold_left (fun k s => push k s.(key_down) s.(duration)) other (push k false gap).

Definition STREAM_FIST : Z := 0x46495354.

(** One mark, preceded by the gap inside a character: the body of the inner
    loop of [key]; [first] is [i == 0]. *)
Definition key_element (fist : Fist) (d floor : f64) (st : bool * Keying * Rng) (el : Element)
  : bool * Keying * Rng :=
  let '(first, out, rng) := st in
  let '(out, rng) :=
    if first : bool then (out, rng)
    else let '(x, rng) := gauss rng in
         let g := F64.mul d (F64.add (F64.sub (F64.of_Z 1) fist.(weight))
                              (F64.mul fist.(element_jitter) x)) in
         (push out false (secs (F64.max g floor)), rng) in
  let units := match el with Dit => F64.of_Z 1 | Dah => fist.(dash_ratio) end in
  let '(x, rng) := gauss rng in
  let m := F64.mul d (F64.add (F64.add units fist.(weight)) (F64.mul fist.(element_jitter) x)) in
  (false, push out true (secs (F64.max m floor)), rng).

(** The variables of [key]'s outer loop. *)
Record KeyState : Type := mk_KeyState {
  k_out : Keying; k_rng : Rng; k_drift : f64; k_pending_gap : option f64 }.

(** The body of the outer loop, for a token with elements. *)
Definition key_group (speed : Speed) (fist : Fist) (dot floor : f64) (st : KeyState)
    (elements : list Element) : KeyState :=
  let '(drift, rng) :=
    if F64.ltb (F64.of_Z 0) fist.(speed_drift) then
      let '(x, rng) := gauss st.(k_rng) in
      let drift := F64.add (F64.mul (F64.dec 8 1) st.(k_drift)) (F64.mul fist.(speed_drift) x) in
      (F64.clamp drift (F64.dec (-3) 1) (F64.dec 3 1), rng)
    else (st.(k_drift), st.(k_rng)) in
  let scale := F64.add (F64.of_Z 1) drift in
  let d := F64.mul dot scale in
  let '(out, rng) :=
    if bool_decide (st.(k_out) = []) then (st.(k_out), rng)
    else
      let nominal := default (letter_gap_secs speed) st.(k_pending_gap) in
      let jitter := if F64.ltb (F64.mul (letter_gap_secs speed) (F64.dec 101 2)) nominal
                    then fist.(word_gap_jitter) else fist.(letter_gap_jitter) in
      let '(x, rng) := gauss rng in
      let g := F64.sub (F64.mul (F64.mul nominal scale)
                          (F64.add (F64.of_Z 1) (F64.mul jitter x)))
                 (F64.mul fist.(weight) dot) in
      (push st.(k_out) false (secs (F64.max g floor)), rng) in
  let '(_, out, rng) := fold_left (key_element fist d floor) elements (true, out, rng) in
  mk_KeyState out rng drift None.

Definition key_token (speed : Speed) (fist : Fist) (dot floor : f64) (st : KeyState) (t : Token)
  : KeyState :=
  match t with
  | WordSpace =>
      if bool_decide (st.(k_out) = []) then st
      else mk_KeyState st.(k_out) st.(k_rng) st.(k_drift) (Some (word_gap_secs speed))
  | _ =>
      match default [] (pattern t) with
      | [] => st
      | elements => key_group speed fist dot floor st elements
      end
  end.

Definition key (tokens : list Token) (speed : Speed) (fist : Fist) (seed : Z)
  : result Keying TimingError :=
  let? _ := fist_validate fist in
  let rng := fork (rng_new seed) STREAM_FIST in
  let dot := dot_secs speed in
  let floor := F64.mul (F64.dec 3 1) dot in
  Ok (fold_left (key_token speed fist dot floor) tokens
        (mk_KeyState [] rng (F64.of_Z 0) None)).(k_out).

Definition key_text (t : text) (speed : Speed) (fist : Fist) (seed : Z) : result Keying TimingError :=
  let? tokens := map_err Codec (tokenize t) in
  key tokens speed fist seed.

Example rng_pinned_first : fst (next_u64 (rng_new 0)) = 0x99EC5F36CB75F2B4.
Proof. vm_compute. reflexivity. Qed.

Ltac ltb_cases :=
  repeat match goal with |- context [?a <? ?b] => destruct (Z.ltb_spec a b) end.

(** ** What a keying means: the key's state at each instant *)

Fixpoint key_at (k : Keying) (t : Z) : bool :=
  match k with
  | [] => false
  | s :: k => if t <? s.(duration) then s.(key_down) else key_at k (t - s.(duration))
  end.

(** Adjacent segments differ in state and none has zero length. *)
Fixpoint alternating (k : Keying) : Prop :=
  match k with
  | [] => True
  | s :: k =>
      0 < s.(duration)
      /\ match k with [] => True | s' :: _ => s.(key_down) <> s'.(key_down) end
      /\ alternating k
  end.

Lemma total_cons s k : total (s :: k) = s.(duration) + total k.
Proof. done. Qed.

Lemma key_at_cons s k t :
  key_at (s :: k) t = if t <? s.(duration) then s.(key_down) else key_at k (t - s.(duration)).
Proof. done. Qed.

Lemma alternating_total k : alternating k -> 0 <= total k.
Proof.
  induction k as [|s k IH]; [done|]. intros (? & _ & ?%IH). rewrite total_cons. lia.
Qed.

Lemma push_zero k b : push k b 0 = k.
Proof. destruct k as [|s []]; done. Qed.

Lemma push_cons2 s s' k b d : push (s :: s' :: k) b d = s :: push (s' :: k) b d.
Proof. cbn. by destruct (d =? 0). Qed.

Lemma push_one s b d : d <> 0 ->
  push [s] b d = if Bool.eqb s.(key_down) b then [mk_Segment s.(key_down) (s.(duration) + d)]
                 else [s; mk_Segment b d].
Proof. intros Hd%Z.eqb_neq. cbn. by rewrite Hd. Qed.

Lemma push_head s k b d : exists s' k', push (s :: k) b d = s' :: k' /\ s'.(key_down) = s.(key_down).
Proof.
  destruct k as [|s' k]; [|rewrite push_cons2; eauto].
  destruct (Z.eq_dec d 0) as [->|Hd]; [rewrite push_zero; eauto|].
  rewrite push_one by done. destruct (Bool.eqb _ _); eauto.
Qed.

Lemma push_alternating k b d : alternating k -> 0 <= d -> alternating (push k b d).
Proof.
  intros Hk Hd. destruct (Z.eq_dec d 0) as [->|Hne]; [by rewrite push_zero|].
  induction k as [|s [|s' k] IH]; intros.
  - cbn. rewrite (proj2 (Z.eqb_neq d 0) Hne). cbn. lia.
  - rewrite push_one by done. destruct Hk as (? & _ & _).
    destruct (Bool.eqb_spec (key_down s) b); cbn; repeat split; lia || done.
  - rewrite push_cons2. destruct Hk as (? & Hdiff & Hk'). specialize (IH Hk').
    destruct (push_head s' k b d) as (s'' & k'' & E & Heq). rewrite E in *.
    split; [done|]. split; [congruence|exact IH].
Qed.

Lemma total_push k b d : total (push k b d) = total k + d.
Proof.
  destruct (Z.eq_dec d 0) as [->|Hd]; [rewrite push_zero; lia|].
  induction k as [|s [|s' k] IH].
  - cbn. rewrite (proj2 (Z.eqb_neq d 0) Hd). cbn. lia.
  - rewrite push_one by done. destruct (Bool.eqb _ _); cbn; lia.
  - rewrite push_cons2, !total_cons, IH, total_cons. lia.
Qed.

Lemma key_at_past k t : alternating k -> total k <= t -> key_at k t = false.
Proof.
  revert t. induction k as [|s k IH]; intros t; [done|]. intros (Hs & _ & Hk).
  rewrite total_cons. intros Ht. pose proof (alternating_total k Hk). cbn.
  destruct (Z.ltb_spec t (duration s)); [lia|]. apply IH; [done|lia].
Qed.

Lemma key_at_push k b d t :
  alternating k -> 0 <= d -> 0 <= t ->
  key_at (push k b d) t =
    if t <? total k then key_at k t else (t <? total k + d) && b.
Proof.
  intros Hk Hd. revert t. destruct (Z.eq_dec d 0) as [->|Hne].
  { intros t Ht. rewrite push_zero. destruct (Z.ltb_spec t (total k)); [done|].
    rewrite key_at_past by done. destruct (Z.ltb_spec t (total k + 0)); [lia|done]. }
  induction k as [|s [|s' k] IH]; intros t Ht.
  - cbn [push]. rewrite (proj2 (Z.eqb_neq d 0) Hne). cbn [key_at total foldr duration key_down].
    ltb_cases; cbn [andb]; lia || done.
  - rewrite push_one by done. destruct Hk as (? & _ & _). cbn [total foldr].
    destruct (Bool.eqb_spec (key_down s) b) as [<-|]; cbn [key_at duration key_down];
      ltb_cases; cbn [andb]; lia || done.
  - rewrite push_cons2. destruct Hk as (? & _ & Hk'). rewrite total_cons, !(key_at_cons s).
    destruct (Z.ltb_spec t (duration s)).
    + pose proof (alternating_total _ Hk'). ltb_cases; lia || done.
    + rewrite (IH Hk') by lia. ltb_cases; lia || done.
Qed.

Lemma truncated_loop_spec max k : forall out t,
  alternating out -> alternating k -> 0 <= t -> total out = Z.min t max -> 0 <= max ->
  alternating (truncated_loop out t max k)
  /\ total (truncated_loop out t max k) <= max
  /\ forall u, 0 <= u -> key_at (truncated_loop out t max k) u =
       if u <? t then key_at out u else (u <? max) && key_at k (u - t).
Proof.
  induction k as [|s k IH]; intros out t Hout Hk Ht Htot Hmax; cbn [truncated_loop].
  { repeat split; [done|lia|]. intros u Hu. cbn [key_at]. rewrite andb_false_r.
    destruct (Z.ltb_spec u t); [done|]. apply key_at_past; [done|lia]. }
  destruct Hk as (Hs & _ & Hk). destruct (Z.leb_spec max t) as [Hle|Hlt].
  - repeat split; [done|lia|]. intros u Hu. ltb_cases; cbn [andb]; try lia; try done.
    apply key_at_past; [done|lia].
  - assert (Hp : 0 <= Z.min (duration s) (max - t)) by lia.
    destruct (IH (push out (key_down s) (Z.min (duration s) (max - t))) (t + duration s))
      as (H1 & H2 & H3); [by apply push_alternating|done|lia|rewrite total_push; lia|done|].
    repeat split; [done..|]. intros u Hu. rewrite (H3 u Hu), key_at_push by done.
    cbn [key_at]. rewrite Htot.
    replace (u - (t + duration s)) with (u - t - duration s) by lia.
    ltb_cases; cbn [andb]; try lia; done.
Qed.

Lemma drop_key_up_spec k :
  alternating k ->
  alternating (drop_key_up k) /\ total (drop_key_up k) <= total k
  /\ (forall t, 0 <= t -> key_at (drop_key_up k) t = key_at k t)
  /\ (forall s, last (drop_key_up k) = Some s -> key_down s = true).
Proof.
  unfold drop_key_up. destruct (last k) as [s|] eqn:E; [|by rewrite E].
  destruct (key_down s) eqn:Hd; [intros; repeat split; [done|lia|]; rewrite E; congruence|].
  induction k as [|s1 [|s2 k] IH]; [done| |].
  - cbn in E. simplify_eq. intros (? & _ & _). cbn. repeat split; [lia| |done].
    intros t Ht. by destruct (t <? duration s).
  - intros (H1 & H2 & H3). change (last (s2 :: k) = Some s) in E.
    destruct (IH E H3) as (A & B & C & D).
    change (removelast (s1 :: s2 :: k)) with (s1 :: removelast (s2 :: k)).
    assert (Hhd : match removelast (s2 :: k) with [] => True | s' :: _ => key_down s1 <> key_down s' end)
      by (by destruct k).
    repeat split; [done..| | |].
    + rewrite !(total_cons s1). lia.
    + intros t Ht. cbn [key_at]. destruct (Z.ltb_spec t (duration s1)); [done|]. apply C. lia.
    + intros s' Hs'. destruct k as [|s3 k].
      * cbn in Hs', E. simplify_eq. rewrite Hd in H2. by destruct (key_down s').
      * apply (D s'). exact Hs'.
Qed.

Lemma truncated_total k max : alternating k -> 0 <= max -> 0 <= total (truncated k max) <= max.
Proof.
  intros Hk Hmax. destruct (truncated_loop_spec max k [] 0) as (H1 & H2 & _); [done..|cbn; lia|done|].
  destruct (drop_key_up_spec _ H1) as (A & B & _). pose proof (alternating_total _ A). unfold truncated. lia.
Qed.

(** [truncated] is the key's behaviour before [max] and silence after: it
    keys exactly what the whole keying does up to [max], lasts no longer, keeps
    the segment invariant, and never ends on a key-up segment. *)
Theorem truncated_correct k max :
  alternating k -> 0 <= max ->
  alternating (truncated k max) /\ total (truncated k max) <= max
  /\ (forall t, 0 <= t -> key_at (truncated k max) t = (t <? max) && key_at k t)
  /\ (forall s, last (truncated k max) = Some s -> key_down s = true).
Proof.
  intros Hk Hmax.
  destruct (truncated_loop_spec max k [] 0) as (H1 & H2 & H3); [done..|cbn; lia|done|].
  destruct (drop_key_up_spec _ H1) as (A & B & C & D).
  repeat split; [done|unfold truncated; lia| |done].
  intros t Ht. unfold truncated. rewrite C, H3 by done. rewrite Z.sub_0_r.
  destruct (Z.ltb_spec t 0); [lia|done].
Qed.

(** [append]: the second keying plays after the first and the gap. *)
Theorem append_correct k other gap :
  alternating k -> alternating other -> 0 <= gap ->
  alternating (append_keying k other gap)
  /\ total (append_keying k other gap) = total k + gap + total other
  /\ forall t, 0 <= t ->
       key_at (append_keying k other gap) t =
         if t <? total k then key_at k t
         else if t <? total k + gap then false else key_at other (t - (total k + gap)).
Proof.
  intros Hk Ho Hg. unfold append_keying.
  assert (Hgen : forall o p, alternating p -> alternating o ->
    let r := fold_left (fun k s => push k s.(key_down) s.(duration)) o p in
    alternating r /\ total r = total p + total o
    /\ forall t, 0 <= t -> key_at r t = if t <? total p then key_at p t else key_at o (t - total p)).
  { induction o as [|s o IH]; intros p Hp Hos r; subst r; cbn [fold_left].
    - repeat split; [done|cbn; lia|]. intros t Ht. cbn [key_at].
      destruct (Z.ltb_spec t (total p)); [done|]. by apply key_at_past.
    - destruct Hos as (Hs & _ & Hos).
      destruct (IH (push p (key_down s) (duration s))) as (A & B & C);
        [apply push_alternating; [done|lia]|done|].
      repeat split; [done|rewrite B, total_push, total_cons; lia|].
      intros t Ht. rewrite C, total_push, key_at_push by (done || lia). cbn [key_at].
      replace (t - (total p + duration s)) with (t - total p - duration s) by lia.
      ltb_cases; cbn [andb]; try lia; done. }
  destruct (Hgen other (push k false gap)) as (A & B & C); [by apply push_alternating|done|].
  repeat split; [done|rewrite B, total_push; lia|].
  intros t Ht. rewrite C, total_push, key_at_push by done.
  ltb_cases; cbn [andb]; try lia; done.
Qed.

(** ** The keying [key] builds *)

Lemma round_max0_u64_range x : 0 <= F64.round_max0_u64 x <= u64_max.
Proof.
  destruct x as [| | |sg m e]; cbn; try (destruct s); try (unfold u64_max; lia).
  destruct sg; [unfold u64_max; lia|].
  assert (0 <= u64_max) by done. split; [|lia]. apply Z.min_glb; [|done].
  destruct (Z.leb_spec 0 e); [apply Z.mul_nonneg_nonneg; [lia|apply Z.pow_nonneg; lia]|].
  apply Z.div_pos; [|apply Z.pow_pos_nonneg; lia]. pose proof (Z.pow_nonneg 2 (-e)). lia.
Qed.

Lemma secs_nonneg s : 0 <= secs s.
Proof. apply round_max0_u64_range. Qed.

Lemma key_element_alternating fist d floor st el :
  alternating st.1.2 -> alternating (key_element fist d floor st el).1.2.
Proof.
  destruct st as [[first out] rng]. cbn [fst snd]. intros H. unfold key_element.
  destruct first.
  - destruct (gauss rng). cbn. apply push_alternating; [done|apply secs_nonneg].
  - destruct (gauss rng) as [x rng1]. destruct (gauss rng1). cbn [fst snd].
    apply push_alternating; [|apply secs_nonneg]. apply push_alternating; [done|apply secs_nonneg].
Qed.

Lemma key_elements_alternating fist d floor els : forall st,
  alternating st.1.2 -> alternating (fold_left (key_element fist d floor) els st).1.2.
Proof.
  induction els as [|el els IH]; intros st H; cbn [fold_left]; [done|].
  by apply IH, key_element_alternating.
Qed.

Lemma key_group_alternating speed fist dot floor st els :
  alternating st.(k_out) -> alternating (key_group speed fist dot floor st els).(k_out).
Proof.
  intros H. unfold key_group.
  destruct (if F64.ltb _ _ then _ else _) as [drift rng].
  set (q := if bool_decide (k_out st = []) then _ else _).
  assert (Hq : alternating q.1).
  { subst q. case_bool_decide; [done|]. destruct (gauss rng). cbn [fst].
    apply push_alternating; [done|apply secs_nonneg]. }
  destruct q as [out rng']. cbn [fst] in Hq.
  pose proof (key_elements_alternating fist (F64.mul dot (F64.add (F64.of_Z 1) drift)) floor els
    (true, out, rng') Hq) as Hr.
  by destruct (fold_left _ els _) as [[? ?] ?].
Qed.

Lemma key_out_alternating tokens speed fist seed k :
  key tokens speed fist seed = Ok k -> alternating k.
Proof.
  unfold key. rewrite bind_unit_ok. intros [_ H]. injection H as <-.
  assert (Hgen : forall st, alternating st.(k_out) ->
    alternating (fold_left (key_token speed fist (dot_secs speed)
      (F64.mul (F64.dec 3 1) (dot_secs speed))) tokens st).(k_out)); [|by apply Hgen].
  induction tokens as [|t tokens IH]; intros st Hst; cbn [fold_left]; [done|].
  apply IH. unfold key_token. destruct t; try (by case_bool_decide).
  all: destruct (default [] _) as [|e els]; [done|by apply key_group_alternating].
Qed.

(** Every keying [key] produces, for any fist and seed, has the segment
    invariant, so its total is the sum of positive durations. *)
Theorem key_alternating tokens speed fist seed k :
  key tokens speed fist seed = Ok k -> alternating k.
Proof. apply key_out_alternating. Qed.

(** Key down for 3, up for 2, down for 4. *)
Definition example_keying : Keying := [mk_Segment true 3; mk_Segment false 2; mk_Segment true 4].
Lemma example_keying_alternating : alternating example_keying.
Proof. cbn. repeat split; lia || discriminate. Qed.

Lemma truncated_correct_witness :
  total (truncated example_keying 4) <= 4
  /\ key_at (truncated example_keying 4) 6 = (6 <? 4) && key_at example_keying 6.
Proof.
  destruct (truncated_correct example_keying 4 example_keying_alternating ltac:(lia)) as (_ & H1 & H2 & _).
  split; [exact H1|]. apply H2. lia.
Defined.

Lemma append_correct_witness :
  total (append_keying example_keying example_keying 1) = 19.
Proof.
  exact (proj1 (proj2 (append_correct example_keying example_keying 1 example_keying_alternating
    example_keying_alternating ltac:(lia)))).
Defined.

(** A perfect fist sending the letter E at 20 words a minute. *)
Definition example_key : result Keying TimingError :=
  key [TChar (ch "E")] (mk_Speed (F64.of_Z 20) (F64.of_Z 20)) perfect 1.
Lemma key_alternating_witness : exists k, example_key = Ok k /\ alternating k.
Proof.
  destruct example_key as [k|e] eqn:E; [|vm_compute in E; discriminate E].
  exists k. split; [reflexivity|].
  exact (key_alternating [TChar (ch "E")] (mk_Speed (F64.of_Z 20) (F64.of_Z 20)) perfect 1 k E).
Defined.
