(* ===== verification/Floats.v ===== *)
(** * Floats: what the audio code uses of [f64], [f32] and [Duration]

    On top of [Timing.F64]: binary32, the conversions, the rounding casts, and
    the functions of the platform's maths library as the class [Maths].  With
    the order of floats, which the proofs need. *)

From Stdlib Require Import Floats.SpecFloat.
From S2P Require Import Prelude Text Morse Timing.

Module F32.
Abbreviation f32 := spec_float.
Definition signed (s : bool) (m : positive) : Z := if s then Z.neg m else Z.pos m.
(** [f64 as f32] and [f64::from(f32)]. *)
Definition of_f64 (x : spec_float) : f32 :=
  match x with S754_finite s m e => binary_normalize 24 128 (signed s m) e s | x => x end.
Definition to_f64 (x : f32) : spec_float :=
  match x with S754_finite s m e => binary_normalize 53 1024 (signed s m) e s | x => x end.
(** The decimal literal [n / 10^k]. *)
Definition dec (n k : Z) : f32 :=
  SFdiv 24 128 (binary_normalize 24 128 n 0 false) (binary_normalize 24 128 (10 ^ k) 0 false).
Definition add : f32 -> f32 -> f32 := SFadd 24 128.
Definition sub : f32 -> f32 -> f32 := SFsub 24 128.
Definition div : f32 -> f32 -> f32 := SFdiv 24 128.
Definition mul : f32 -> f32 -> f32 := SFmul 24 128.
Definition of_Z (z : Z) : f32 := binary_normalize 24 128 z 0 false.
End F32.
Abbreviation f32 := spec_float.

(** [f64::round]: half away from zero. *)
Definition f64_round (x : f64) : f64 :=
  match x with
  | S754_finite s m e =>
      if 0 <=? e then x
      else let r := (2 * Z.pos m + 2 ^ (- e)) / 2 ^ (1 - e) in
           if r =? 0 then S754_zero s else F64.of_Z (if s then - r else r)
  | x => x
  end.

(** ** [f64] and [Duration] *)

(** Their last bits are the platform's. *)
Class Maths := {
  m_sin : f64 -> f64; m_cos : f64 -> f64; m_exp : f64 -> f64; m_ln : f64 -> f64; m_log10 : f64 -> f64;
  m_powf : f64 -> f64 -> f64; m_powi : f64 -> Z -> f64 }.

(** [std::f64::consts::PI]. *)
Definition PI : f64 := S754_finite false 7074237752028440 (-51).
Definition f64_neg (x : f64) : f64 := SFopp x.
Definition f64_sqrt (x : f64) : f64 := SFsqrt 53 1024 x.
(** [f64::min]: a NaN loses. *)
Definition f64_min (x y : f64) : f64 :=
  if F64.is_nan x then y else if F64.is_nan y then x else if F64.ltb y x then y else x.
Definition f64_eqb (x y : f64) : bool := SFeqb x y.
Abbreviation f_zero := (F64.of_Z 0) (only parsing).
Abbreviation f_half := (F64.dec 5 1) (only parsing).

Definition as_secs_f64 (ns : Z) : f64 :=
  F64.add (F64.of_Z (ns / 1000000000)) (F64.div (F64.of_Z (ns mod 1000000000)) (F64.of_Z 1000000000)).
(** [x.round() as usize]: half away from zero, then the saturating cast. *)
Definition round_usize (x : f64) : Z := F64.round_max0_u64 x.

(** [x as u64] and [x as usize]: towards zero, saturating. *)
Definition as_u64 (x : f64) : Z :=
  match x with
  | S754_finite false m e => Z.min (if 0 <=? e then Z.pos m * 2 ^ e else Z.pos m / 2 ^ (- e)) u64_max
  | S754_infinity false => u64_max
  | _ => 0
  end.
(** [x.ceil() as usize]. *)
Definition ceil_usize (x : f64) : Z :=
  match x with
  | S754_finite false m e =>
      Z.min (if 0 <=? e then Z.pos m * 2 ^ e else (Z.pos m + 2 ^ (- e) - 1) / 2 ^ (- e)) u64_max
  | S754_infinity false => u64_max
  | _ => 0
  end.

#[export] Instance f64_eq_dec : EqDecision spec_float.
Proof. solve_decision. Defined.

(** ** The order *)

Lemma SFcompare_trans x y z :
  SFcompare x y = Some Lt -> SFcompare y z = Some Lt -> SFcompare x z = Some Lt.
Proof.
  unfold SFcompare. destruct x as [[]|[]| |[] mx ex], y as [[]|[]| |[] my ey], z as [[]|[]| |[] mz ez];
    intros Hxy Hyz; try discriminate; try reflexivity;
    (destruct (Z.compare_spec ex ey), (Z.compare_spec ey ez), (Z.compare_spec ex ez); try discriminate;
      try reflexivity; try lia; injection Hxy as Hxy; injection Hyz as Hyz; f_equal).
  - change (CompOpp (mx ?= my)%positive = Lt) in Hxy. change (CompOpp (my ?= mz)%positive = Lt) in Hyz.
    change (CompOpp (mx ?= mz)%positive = Lt).
    rewrite <- Pos.compare_antisym in Hxy, Hyz |- *.
    apply Pos.compare_lt_iff in Hxy, Hyz. apply Pos.compare_lt_iff. by eapply Pos.lt_trans.
  - apply Pos.compare_lt_iff in Hxy, Hyz. apply Pos.compare_lt_iff. by eapply Pos.lt_trans.
Qed.
Lemma SFcompare_asym x y : SFcompare x y = Some Lt -> SFcompare y x = Some Gt.
Proof.
  unfold SFcompare. destruct x as [[]|[]| |[] mx ex], y as [[]|[]| |[] my ey];
    intros Hxy; try discriminate; try reflexivity;
    (destruct (Z.compare_spec ex ey), (Z.compare_spec ey ex); try discriminate; try reflexivity; try lia;
      injection Hxy as Hxy; f_equal).
  - change (CompOpp (mx ?= my)%positive = Lt) in Hxy. change (CompOpp (my ?= mx)%positive = Gt).
    rewrite <- Pos.compare_antisym in Hxy. by rewrite Hxy.
  - change ((mx ?= my)%positive = Lt) in Hxy. change ((my ?= mx)%positive = Gt).
    by rewrite Pos.compare_antisym, Hxy.
Qed.
Lemma ltb_trans x y z : F64.ltb x y = true -> F64.ltb y z = true -> F64.ltb x z = true.
Proof.
  unfold F64.ltb, SFltb. destruct (SFcompare x y) as [[]|] eqn:E1; try done.
  destruct (SFcompare y z) as [[]|] eqn:E2; try done. by rewrite (SFcompare_trans x y z).
Qed.
Lemma ltb_asym x y : F64.ltb x y = true -> F64.ltb y x = false.
Proof.
  unfold F64.ltb, SFltb. destruct (SFcompare x y) as [[]|] eqn:E1; try done. by rewrite (SFcompare_asym x y).
Qed.
Lemma ltb_leb x y : F64.ltb x y = true -> F64.leb x y = true.
Proof. unfold F64.ltb, F64.leb, SFltb, SFleb. by destruct (SFcompare x y) as [[]|]. Qed.

Lemma SFcompare_sym x y : SFcompare y x = CompOpp <$> SFcompare x y.
Proof.
  unfold SFcompare. destruct x as [[]|[]| |[] mx ex], y as [[]|[]| |[] my ey]; try done;
    rewrite (Z.compare_antisym ex ey); (destruct (ex ?= ey); cbn; [|done|done]);
    change (Pos.compare_cont Eq my mx) with (my ?= mx)%positive;
    change (Pos.compare_cont Eq mx my) with (mx ?= my)%positive; by rewrite (Pos.compare_antisym mx my).
Qed.
Lemma SFcompare_none x y : SFcompare x y = None -> F64.is_nan x = true \/ F64.is_nan y = true.
Proof. unfold SFcompare. destruct x as [[]|[]| |[] mx ex], y as [[]|[]| |[] my ey]; cbn; auto; first [done | by destruct (Z.compare _ _)]. Qed.
(** What compares equal is the same, or two zeros. *)
Lemma SFcompare_eq x y z : SFcompare x y = Some Eq -> SFcompare x z = SFcompare y z.
Proof.
  unfold SFcompare. destruct x as [[]|[]| |[] mx ex], y as [[]|[]| |[] my ey]; try done;
    (destruct (Z.compare_spec ex ey) as [->| |]; try done); intros [= H].
  - change (CompOpp (mx ?= my)%positive = Eq) in H. rewrite <- Pos.compare_antisym in H.
    by apply Pos.compare_eq in H as ->.
  - apply Pos.compare_eq in H. by subst.
Qed.
Lemma leb_trans x y z : F64.leb x y = true -> F64.leb y z = true -> F64.leb x z = true.
Proof.
  unfold F64.leb, SFleb. destruct (SFcompare x y) as [[]|] eqn:E1; try done.
  { by rewrite (SFcompare_eq x y z E1). }
  destruct (SFcompare y z) as [[]|] eqn:E2; try done; intros _ _; [|by rewrite (SFcompare_trans x y z)].
  rewrite SFcompare_sym. rewrite <- (SFcompare_eq y z x E2), SFcompare_sym, E1. done.
Qed.
Lemma leb_lt_trans x y z : F64.leb x y = true -> F64.ltb y z = true -> F64.ltb x z = true.
Proof.
  unfold F64.leb, F64.ltb, SFleb, SFltb. destruct (SFcompare x y) as [[]|] eqn:E1; try done; intros _ H.
  - by rewrite (SFcompare_eq x y z E1).
  - destruct (SFcompare y z) as [[]|] eqn:E2; try done. by rewrite (SFcompare_trans x y z).
Qed.
Lemma nltb_leb x y : F64.is_nan x = false -> F64.is_nan y = false -> F64.ltb x y = false -> F64.leb y x = true.
Proof.
  intros Hx Hy. unfold F64.ltb, F64.leb, SFltb, SFleb. rewrite (SFcompare_sym x y).
  destruct (SFcompare x y) as [[]|] eqn:E; try done. by apply SFcompare_none in E as [|]; congruence.
Qed.

(** [clamp] between proper bounds gives a value between them, or keeps a NaN. *)
Lemma clamp_range x lo hi :
  F64.is_nan lo = false -> F64.is_nan hi = false -> F64.leb lo hi = true ->
  F64.is_nan (F64.clamp x lo hi) = true \/
  F64.leb lo (F64.clamp x lo hi) = true /\ F64.leb (F64.clamp x lo hi) hi = true.
Proof.
  intros Hl Hh Hlh. assert (Hrefl : forall z, F64.is_nan z = false -> F64.leb z z = true).
  { intros z Hz. apply nltb_leb; [done..|]. destruct (F64.ltb z z) eqn:E; [|done].
    by rewrite (ltb_asym z z E) in E. }
  unfold F64.clamp. destruct (F64.ltb x lo) eqn:E1; [right; auto|].
  destruct (F64.ltb hi x) eqn:E2; [right; auto|].
  destruct (F64.is_nan x) eqn:Ex; [auto|]. right. split; by apply nltb_leb.
Qed.

(** ** A maths library to run the models with *)

(** Sums of power series with the argument reduced first: right to within a
    few units of the last place, which is all the sources rely on. *)
Module Approx.
(** [x.floor()] as an integer. *)
Definition floor (x : f64) : Z :=
  match x with
  | S754_finite s m e =>
      let v := F32.signed s m in if 0 <=? e then v * 2 ^ e else v / 2 ^ (- e)
  | _ => 0
  end.
(** [n] more terms, each the last times [y] over the next factor. *)
Fixpoint series (n : nat) (k : Z) (factor : Z -> Z) (y acc term : f64) : f64 :=
  match n with
  | O => acc
  | S n =>
      let term := F64.div (F64.mul term y) (F64.of_Z (factor k)) in
      series n (k + 1) factor y (F64.add acc term) term
  end.
Definition reduce (x : f64) : f64 :=
  let turn := F64.mul (F64.of_Z 2) PI in
  F64.sub x (F64.mul (F64.of_Z (floor (F64.add (F64.div x turn) f_half))) turn).
Definition cos (x : f64) : f64 :=
  let r := reduce x in
  series 12 1 (fun k => - ((2 * k - 1) * (2 * k))) (F64.mul r r) (F64.of_Z 1) (F64.of_Z 1).
Definition sin (x : f64) : f64 :=
  let r := reduce x in series 12 1 (fun k => - ((2 * k) * (2 * k + 1))) (F64.mul r r) r r.
Definition LN2 : f64 := F64.dec 6931471805599453 16.
Definition exp (x : f64) : f64 :=
  let k := floor (F64.add (F64.div x LN2) f_half) in
  let p := series 16 1 (fun k => k) (F64.sub x (F64.mul (F64.of_Z k) LN2)) (F64.of_Z 1) (F64.of_Z 1) in
  if 0 <=? k then F64.mul p (F64.of_Z (2 ^ k)) else F64.div p (F64.of_Z (2 ^ (- k))).
Fixpoint artanh (n : nat) (k : Z) (y2 acc power : f64) : f64 :=
  match n with
  | O => acc
  | S n => let power := F64.mul power y2 in artanh n (k + 2) y2 (F64.add acc (F64.div power (F64.of_Z k))) power
  end.
Definition ln (x : f64) : f64 :=
  match x with
  | S754_finite false m e =>
      let f := S754_finite false m (-52) in
      let y := F64.div (F64.sub f (F64.of_Z 1)) (F64.add f (F64.of_Z 1)) in
      F64.add (F64.mul (F64.of_Z (e + 52)) LN2) (F64.mul (F64.of_Z 2) (artanh 25 3 (F64.mul y y) y y))
  | S754_zero _ => S754_infinity true
  | S754_infinity false => x
  | _ => S754_nan
  end.
Fixpoint powi (x : f64) (n : nat) : f64 := match n with O => F64.of_Z 1 | S n => F64.mul (powi x n) x end.
Definition maths : Maths := {|
  m_sin := sin; m_cos := cos; m_exp := exp; m_ln := ln; m_log10 x := F64.div (ln x) (ln (F64.of_Z 10));
  m_powf x y := exp (F64.mul y (ln x)); m_powi x n := powi x (Z.to_nat n) |}.
End Approx.
