(* ===== verification/Tables.v ===== *)
(** * Tables: the words of a practice QSO (cat-morse/src/scenario/data.rs)

    The static tables the scripts are put together from, as they are written
    in the source. *)

From S2P Require Import Prelude Text.

(** A table of string literals. *)
Definition strs (l : list string) : list text := map txt l.

(** SOTA associations and their regions. *)
Definition SOTA_REGIONS : list (text * list text) :=
  map (fun r => (txt (fst r), strs (snd r))) [("W0C", ["FR"; "PR"; "SR"; "SP"]); ("W7W", ["KG"; "LC";
    "CW"]); ("W6", ["CT"; "SN"; "NC"]); ("W4C", ["CM"; "EM"]); ("W7A", ["AW"; "CN"]); ("G", ["LD"; "SP";
    "NP"]); ("GM", ["WS"; "ES"; "CS"]); ("DL", ["AL"]); ("HB", ["BE"; "VS"]); ("VE7", ["GV"])]%string.

(** Pools of given names, one per part of the world. *)
Module Names.
Inductive Names : Type :=
| Us | Anglo | German | French | Italian | Iberian | LatAm | Lusophone | Nordic | Finnish | Baltic | Dutch
  | WestSlavic | EastSlavic | Danube | Greek | Turkish | Caucasus | Albanian | Arabic | Hebrew | Persian |
  Indian | Japanese | Chinese | Korean | SeAsian | Mongol | African | Expedition.
End Names.

Definition NAMES_US : list text :=
  strs ["BOB"; "JIM"; "JOHN"; "MIKE"; "DAVE"; "TOM"; "BILL"; "STEVE"; "GARY"; "DON"; "RON"; "KEN"; "JOE";
    "PAUL"; "MARK"; "RICK"; "DAN"; "JEFF"; "CHUCK"; "ED"; "AL"; "ART"; "CARL"; "FRED"; "HANK"; "JACK";
    "LARRY"; "PETE"; "RAY"; "SAM"; "TED"; "WALT"; "ANN"; "SUE"; "MARY"; "JAN"; "KAREN"; "LIZ"; "PAT";
    "DEB"]%string.
Definition NAMES_ANGLO : list text :=
  strs ["JOHN"; "DAVID"; "PAUL"; "MARK"; "IAN"; "NIGEL"; "ANDY"; "CHRIS"; "STEVE"; "PETER"; "MIKE";
    "GRAHAM"; "ALAN"; "SIMON"; "TONY"; "MARTIN"; "KEVIN"; "GARY"; "SUE"; "JANE"]%string.
Definition NAMES_GERMAN : list text :=
  strs ["HANS"; "KLAUS"; "JUERGEN"; "WOLFGANG"; "PETER"; "UWE"; "DIETER"; "FRANK"; "THOMAS"; "STEFAN";
    "MICHAEL"; "ANDREAS"; "RALF"; "BERND"; "GERD"; "MARTIN"; "SABINE"; "KARIN"]%string.
Definition NAMES_FRENCH : list text :=
  strs ["JEAN"; "PIERRE"; "MICHEL"; "ALAIN"; "PHILIPPE"; "PATRICK"; "BERNARD"; "CHRISTIAN"; "DANIEL";
    "ERIC"; "FRANCOIS"; "LUC"; "DIDIER"; "OLIVIER"; "MARIE"; "SYLVIE"]%string.
Definition NAMES_ITALIAN : list text :=
  strs ["MARCO"; "LUCA"; "GIUSEPPE"; "PAOLO"; "FRANCO"; "ROBERTO"; "MAURO"; "STEFANO"; "GIANNI"; "ANDREA";
    "SERGIO"; "FABIO"; "CLAUDIO"; "SILVIA"]%string.
Definition NAMES_IBERIAN : list text :=
  strs ["JOSE"; "ANTONIO"; "MANUEL"; "JUAN"; "FRANCISCO"; "CARLOS"; "LUIS"; "JAVIER"; "PEDRO"; "MIGUEL";
    "PACO"; "JOAO"; "RUI"; "CARMEN"]%string.
Definition NAMES_LAT_AM : list text :=
  strs ["JOSE"; "CARLOS"; "JORGE"; "LUIS"; "MIGUEL"; "PEDRO"; "RAUL"; "OSCAR"; "RICARDO"; "ALEJANDRO";
    "DIEGO"; "FERNANDO"; "MARIO"; "GABRIEL"; "ANA"]%string.
Definition NAMES_LUSOPHONE : list text :=
  strs ["JOAO"; "PAULO"; "CARLOS"; "MARCOS"; "JOSE"; "RICARDO"; "ANDRE"; "FABIO"; "RODRIGO"; "EDSON";
    "MARCIO"; "LUIZ"; "RENATO"]%string.
Definition NAMES_NORDIC : list text :=
  strs ["LARS"; "SVEN"; "ERIK"; "OLA"; "BJORN"; "NILS"; "PER"; "JAN"; "ANDERS"; "MAGNUS"; "KNUT"; "ARNE";
    "INGE"; "OLE"]%string.
Definition NAMES_FINNISH : list text :=
  strs ["JUHA"; "MIKKO"; "PEKKA"; "JARI"; "KARI"; "TIMO"; "MATTI"; "HANNU"; "ESA"; "ARI"]%string.
Definition NAMES_BALTIC : list text :=
  strs ["JONAS"; "ANDRIS"; "TOOMAS"; "ALGIS"; "JANIS"; "MART"; "AIVARS"; "RAIMONDS"]%string.
Definition NAMES_DUTCH : list text :=
  strs ["JAN"; "PIET"; "HENK"; "KEES"; "WIM"; "JOOP"; "GERRIT"; "BART"; "DIRK"; "RUUD"; "JEROEN";
    "MARC"]%string.
Definition NAMES_WEST_SLAVIC : list text :=
  strs ["PIOTR"; "TOMASZ"; "PAVEL"; "JAN"; "MAREK"; "JIRI"; "MIRO"; "ZORAN"; "DRAGAN"; "BOJAN"; "GORAN";
    "PETAR"; "STANKO"; "ZDENEK"]%string.
Definition NAMES_EAST_SLAVIC : list text :=
  strs ["IGOR"; "SERGEI"; "VLADIMIR"; "ALEX"; "OLEG"; "YURI"; "ANDREI"; "DMITRI"; "NIKOLAI"; "VICTOR";
    "MIKHAIL"; "VALERY"; "GENNADY"; "OLGA"]%string.
Definition NAMES_DANUBE : list text :=
  strs ["LASZLO"; "ZOLTAN"; "GABOR"; "ISTVAN"; "ATTILA"; "SANDOR"; "ION"; "MIHAI"; "DAN"; "SORIN";
    "ADRIAN"; "VASILE"]%string.
Definition NAMES_GREEK : list text :=
  strs ["NIKOS"; "GIORGOS"; "KOSTAS"; "YANNIS"; "DIMITRIS"; "ANDREAS"; "PANOS"; "VASILIS"]%string.
Definition NAMES_TURKISH : list text :=
  strs ["MEHMET"; "AHMET"; "MUSTAFA"; "ALI"; "HASAN"; "MURAT"; "EMRE"; "OSMAN"; "KEMAL"; "ELDAR"]%string.
Definition NAMES_CAUCASUS : list text :=
  strs ["GIORGI"; "LEVAN"; "DAVIT"; "ARMEN"; "ARAM"; "VAHE"; "GAGIK"; "ZURAB"]%string.
Definition NAMES_ALBANIAN : list text :=
  strs ["ARBEN"; "BESNIK"; "GENTI"; "ILIR"; "AGIM"; "FATOS"]%string.
Definition NAMES_ARABIC : list text :=
  strs ["AHMED"; "MOHAMED"; "ALI"; "OMAR"; "KHALID"; "HASSAN"; "SAMIR"; "KARIM"; "YOUSEF"; "TARIQ";
    "FAISAL"; "NABIL"]%string.
Definition NAMES_HEBREW : list text :=
  strs ["DAVID"; "MOSHE"; "YOSSI"; "AVI"; "ITZIK"; "RONI"; "DANI"; "ERAN"; "GIL"]%string.
Definition NAMES_PERSIAN : list text :=
  strs ["REZA"; "ALI"; "MEHDI"; "HOSSEIN"; "AMIR"; "DARIUS"; "FARID"]%string.
Definition NAMES_INDIAN : list text :=
  strs ["RAJ"; "RAVI"; "SURESH"; "ANIL"; "VIJAY"; "AMIT"; "SANJAY"; "RAMESH"; "PRAKASH"; "IMRAN"; "ASIF";
    "KUMAR"]%string.
Definition NAMES_JAPANESE : list text :=
  strs ["KENJI"; "HIRO"; "TAKA"; "YOSHI"; "KAZU"; "AKIRA"; "MASA"; "TOSHI"; "SHIN"; "NOBU"; "KOJI";
    "MAKOTO"; "YUKI"]%string.
Definition NAMES_CHINESE : list text :=
  strs ["WEI"; "MING"; "JUN"; "LEI"; "HUA"; "GANG"; "YONG"; "BIN"; "JIAN"; "FENG"; "CHEN"; "LIN"]%string.
Definition NAMES_KOREAN : list text :=
  strs ["KIM"; "PARK"; "SUNG"; "JIN"; "HYUN"; "YOUNG"; "MIN"; "DONG"; "JAE"]%string.
Definition NAMES_SE_ASIAN : list text :=
  strs ["SOMCHAI"; "NGUYEN"; "BUDI"; "AGUS"; "AHMAD"; "RAMON"; "JOJO"; "EDDIE"; "ANDI"; "RIZAL"]%string.
Definition NAMES_MONGOL : list text :=
  strs ["BAT"; "GANBAA"; "TSOGT"; "BOLD"; "ENKH"]%string.
Definition NAMES_AFRICAN : list text :=
  strs ["JOHN"; "EMMANUEL"; "SAMUEL"; "JOSEPH"; "DANIEL"; "PATRICK"; "MOSES"; "FRANCIS"; "KOFI"; "KWAME";
    "DAVID"; "PETER"]%string.
Definition NAMES_EXPEDITION : list text :=
  strs ["DAVE"; "HANS"; "KEN"; "PAUL"; "ADRIAN"; "DOM"; "JUAN"; "KAZU"; "MAREK"; "ROB"]%string.

(** [Names::pool]. *)
Definition pool (n : Names.Names) : list text :=
  match n with
  | Names.Us => NAMES_US
  | Names.Anglo => NAMES_ANGLO
  | Names.German => NAMES_GERMAN
  | Names.French => NAMES_FRENCH
  | Names.Italian => NAMES_ITALIAN
  | Names.Iberian => NAMES_IBERIAN
  | Names.LatAm => NAMES_LAT_AM
  | Names.Lusophone => NAMES_LUSOPHONE
  | Names.Nordic => NAMES_NORDIC
  | Names.Finnish => NAMES_FINNISH
  | Names.Baltic => NAMES_BALTIC
  | Names.Dutch => NAMES_DUTCH
  | Names.WestSlavic => NAMES_WEST_SLAVIC
  | Names.EastSlavic => NAMES_EAST_SLAVIC
  | Names.Danube => NAMES_DANUBE
  | Names.Greek => NAMES_GREEK
  | Names.Turkish => NAMES_TURKISH
  | Names.Caucasus => NAMES_CAUCASUS
  | Names.Albanian => NAMES_ALBANIAN
  | Names.Arabic => NAMES_ARABIC
  | Names.Hebrew => NAMES_HEBREW
  | Names.Persian => NAMES_PERSIAN
  | Names.Indian => NAMES_INDIAN
  | Names.Japanese => NAMES_JAPANESE
  | Names.Chinese => NAMES_CHINESE
  | Names.Korean => NAMES_KOREAN
  | Names.SeAsian => NAMES_SE_ASIAN
  | Names.Mongol => NAMES_MONGOL
  | Names.African => NAMES_AFRICAN
  | Names.Expedition => NAMES_EXPEDITION
  end.

Definition RIGS : list text :=
  strs ["IC-7300"; "IC-7610"; "IC-705"; "K3"; "K4"; "KX2"; "KX3"; "FT-991A"; "FTDX10"; "FT-710"; "FT-818";
    "TS-590SG"; "TS-890S"; "TS-570D"; "FLEX 6600"; "QCX"; "K2"]%string.
Definition ANTENNAS : list text :=
  strs ["DIPOLE"; "EFHW"; "VERTICAL"; "YAGI"; "HEX BEAM"; "LOOP"; "G5RV"; "INV V"; "OCF DIPOLE";
    "LONG WIRE"]%string.
Definition PORTABLE_ANTENNAS : list text :=
  strs ["EFHW"; "VERTICAL"; "LINKED DIPOLE"; "WIRE"]%string.
Definition WX : list text :=
  strs ["SUNNY"; "CLOUDY"; "RAIN"; "SNOW"; "FOGGY"; "WINDY"; "CLEAR"; "OVERCAST"; "HOT"; "COLD"]%string.
Definition RST : list text :=
  strs ["599"; "589"; "579"; "569"; "559"; "549"; "449"; "559"; "579"]%string.
Definition RESERVED_CALLS : list text :=
  strs ["W1AW"; "K1JT"]%string.
Definition POWERS : list Z :=
  [5; 10; 50; 100; 100; 100; 200; 500].
Definition QRP_POWERS : list Z :=
  [5; 5; 10].
Definition SUFFIX_FIRST : list char := txt "ABCDEFGHIJKLMNOPRSTUVWYZ".
Definition LETTERS : list char := txt "ABCDEFGHIJKLMNOPQRSTUVWXYZ".
