(* ===== verification/World.v ===== *)
(** * World: the stations of the world (cat-morse/src/scenario/world.rs)

    The DXCC entities with their prefixes, call formats, zones and call areas:
    the source's table, row for row, and what looks an entity up in it. *)

From S2P Require Import Prelude Text Tables.

Module Continent.
Inductive Continent : Type := Na | Sa | Eu | Af | As | Oc | An.
End Continent.
Abbreviation Continent := Continent.Continent.
#[export] Instance Continent_eq_dec : EqDecision Continent.
Proof. solve_decision. Defined.

Module Activity.
Inductive Activity : Type := Common | Regular | Uncommon | Rare.
End Activity.
Abbreviation Activity := Activity.Activity.
#[export] Instance Activity_eq_dec : EqDecision Activity.
Proof. solve_decision. Defined.

(** [Activity::weight]. *)
Definition activity_weight (a : Activity) : Z :=
  match a with
  | Activity.Common => 100 | Activity.Regular => 25 | Activity.Uncommon => 5 | Activity.Rare => 1
  end.

(** Where a call's digit comes from. *)
Inductive DigitRule : Type :=
| InPrefix
| OneOf (digits : list Z)
| FromRegion.

Record CallFormat : Type := mk_CallFormat {
  cf_prefixes : list text; cf_digit : DigitRule; cf_suffix : Z * Z; cf_weight : Z }.

(** A call area: its digit, the prefixes it is limited to if any, its zones,
    its subdivisions with their towns. *)
Record Region : Type := mk_Region {
  r_digit : Z; r_prefixes : list text; r_weight : Z; r_cq : Z; r_itu : Z;
  r_subdivisions : list (text * list text) }.

Record Entity : Type := mk_Entity {
  e_dxcc : Z; e_name : text; e_continent : Continent; e_cq : Z; e_itu : Z;
  e_prefixes : list text; e_formats : list CallFormat; e_regions : list Region;
  e_tag : option text; e_iso : option text; e_activity : Activity;
  e_names : Names.Names; e_towns : list text }.

(** Entities are compared by their number, call areas by digit, prefixes and
    zones. *)
Definition entity_eqb (a b : Entity) : bool := a.(e_dxcc) =? b.(e_dxcc).
Definition region_eqb (a b : Region) : bool :=
  (a.(r_digit) =? b.(r_digit)) && bool_decide (a.(r_prefixes) = b.(r_prefixes))
  && (a.(r_cq) =? b.(r_cq)) && (a.(r_itu) =? b.(r_itu)).

(** ** Rows *)

Definition cf (prefixes : list string) (digit : DigitRule) (suffix : Z * Z) (weight : Z) : CallFormat :=
  mk_CallFormat (strs prefixes) digit suffix weight.
Definition rg (digit : Z) (prefixes : list string) (cq itu weight : Z)
    (subdivisions : list (string * list string)) : Region :=
  mk_Region digit (strs prefixes) weight cq itu (map (fun s => (txt (fst s), strs (snd s))) subdivisions).
Definition ent (dxcc : Z) (name : string) (continent : Continent) (cq itu : Z) (prefixes : list string)
    (formats : list CallFormat) (regions : list Region) (tag iso : option string) (activity : Activity)
    (names : Names.Names) (towns : list string) : Entity :=
  mk_Entity dxcc (txt name) continent cq itu (strs prefixes) formats regions (txt <$> tag) (txt <$> iso)
    activity names (strs towns).

(** Prefixes that take a suffix of exactly so many letters. *)
Definition EXACT_SUFFIX : list (text * nat) :=
  map (fun e => (txt (fst e), snd e)) [("KG4", 2%nat)]%string.

Definition USA : Z := 291.
Definition D1_9 : list Z :=
  [1; 2; 3; 4; 5; 6; 7; 8; 9].
Definition D0_9 : list Z :=
  [0; 1; 2; 3; 4; 5; 6; 7; 8; 9].
Definition US_1 : list string :=
  ["K"; "N"; "W"]%string.
Definition US_2 : list string :=
  ["KA"; "KB"; "KC"; "KD"; "KE"; "KF"; "KG"; "KI"; "KJ"; "KK"; "KM"; "KN"; "KO"; "KQ"; "KR"; "KS"; "KT";
    "KU"; "KV"; "KW"; "KX"; "KY"; "KZ"; "NA"; "NB"; "NC"; "ND"; "NE"; "NF"; "NG"; "NI"; "NJ"; "NK"; "NM";
    "NN"; "NO"; "NQ"; "NR"; "NS"; "NT"; "NU"; "NV"; "NW"; "NX"; "NY"; "NZ"; "WA"; "WB"; "WC"; "WD"; "WE";
    "WF"; "WG"; "WI"; "WJ"; "WK"; "WM"; "WN"; "WO"; "WQ"; "WR"; "WS"; "WT"; "WU"; "WV"; "WW"; "WX"; "WY";
    "WZ"; "AA"; "AB"; "AC"; "AD"; "AE"; "AF"; "AG"; "AI"; "AJ"; "AK"]%string.
Definition US_2_KW : list string :=
  ["KA"; "KB"; "KC"; "KD"; "KE"; "KF"; "KG"; "KI"; "KJ"; "KK"; "KM"; "KN"; "KO"; "KQ"; "KR"; "KS"; "KT";
    "KU"; "KV"; "KW"; "KX"; "KY"; "KZ"; "WA"; "WB"; "WC"; "WD"; "WE"; "WF"; "WG"; "WI"; "WJ"; "WK"; "WM";
    "WN"; "WO"; "WQ"; "WR"; "WS"; "WT"; "WU"; "WV"; "WW"; "WX"; "WY"; "WZ"]%string.
Definition US_MATCH : list string :=
  ["K"; "N"; "W"; "AA"; "AB"; "AC"; "AD"; "AE"; "AF"; "AG"; "AI"; "AJ"; "AK"]%string.
Definition US_FORMATS : list CallFormat :=
  [cf US_1 FromRegion (2, 2) 10;
   cf US_2 FromRegion (1, 1) 5;
   cf US_2 FromRegion (2, 2) 15;
   cf US_1 FromRegion (3, 3) 35;
   cf US_2_KW FromRegion (3, 3) 35].
Definition US_REGIONS : list Region :=
  [rg 1 [] 5 8 8 [("MA", ["BOSTON"; "WORCESTER"; "SALEM"]); ("CT", ["HARTFORD"; "NEWINGTON"; "MYSTIC"]);
     ("ME", ["PORTLAND"; "BANGOR"]); ("NH", ["NASHUA"; "CONCORD"]); ("VT", ["BURLINGTON"]); ("RI",
     ["PROVIDENCE"])];
   rg 2 [] 5 8 10 [("NY", ["ALBANY"; "BUFFALO"; "ROCHESTER"; "ITHACA"]); ("NJ", ["TRENTON"; "PRINCETON";
     "NEWARK"])];
   rg 3 [] 5 8 8 [("PA", ["PITTSBURGH"; "ERIE"; "LANCASTER"]); ("MD", ["BALTIMORE"; "FREDERICK"]); ("DE",
     ["DOVER"; "WILMINGTON"])];
   rg 4 [] 5 8 20 [("FL", ["TAMPA"; "ORLANDO"; "MIAMI"]); ("GA", ["ATLANTA"; "SAVANNAH"]); ("NC",
     ["RALEIGH"; "ASHEVILLE"; "DURHAM"]); ("VA", ["RICHMOND"; "ROANOKE"]); ("TN", ["NASHVILLE";
     "KNOXVILLE"]); ("KY", ["LEXINGTON"; "LOUISVILLE"]); ("AL", ["HUNTSVILLE"; "MOBILE"]); ("SC",
     ["CHARLESTON"; "COLUMBIA"])];
   rg 5 [] 4 7 12 [("TX", ["AUSTIN"; "DALLAS"; "EL PASO"; "HOUSTON"]); ("OK", ["TULSA"; "NORMAN"]); ("LA",
     ["BATON ROUGE"; "SHREVEPORT"]); ("NM", ["SANTA FE"; "TAOS"; "ALBUQUERQUE"]); ("AR", ["LITTLE ROCK"]);
     ("MS", ["JACKSON"; "BILOXI"])];
   rg 6 [] 3 6 14 [("CA", ["SAN DIEGO"; "FRESNO"; "SACRAMENTO"; "SAN JOSE"; "BISHOP"])];
   rg 7 [] 3 6 12 [("WA", ["SEATTLE"; "SPOKANE"; "OLYMPIA"]); ("OR", ["PORTLAND"; "BEND"; "EUGENE"]);
     ("AZ", ["TUCSON"; "PHOENIX"; "FLAGSTAFF"]); ("UT", ["OGDEN"; "MOAB"; "PROVO"]); ("MT", ["BOZEMAN";
     "MISSOULA"]); ("ID", ["BOISE"]); ("NV", ["RENO"; "ELKO"]); ("WY", ["CHEYENNE"; "CODY"])];
   rg 8 [] 4 8 10 [("OH", ["DAYTON"; "COLUMBUS"; "TOLEDO"]); ("MI", ["DETROIT"; "LANSING"; "MARQUETTE"]);
     ("WV", ["MORGANTOWN"; "CHARLESTON"])];
   rg 9 [] 4 8 8 [("IL", ["CHICAGO"; "PEORIA"; "SPRINGFIELD"]); ("IN", ["FORT WAYNE"; "INDIANAPOLIS"]);
     ("WI", ["MADISON"; "GREEN BAY"])];
   rg 0 [] 4 7 10 [("CO", ["DENVER"; "BOULDER"; "GOLDEN"; "DURANGO"]); ("MN", ["DULUTH"; "ROCHESTER";
     "ST PAUL"]); ("MO", ["ST LOUIS"; "JOPLIN"]); ("KS", ["WICHITA"; "LAWRENCE"]); ("NE", ["OMAHA";
     "LINCOLN"]); ("IA", ["DES MOINES"; "AMES"]); ("ND", ["FARGO"; "MINOT"]); ("SD", ["RAPID CITY";
     "SIOUX FALLS"])]]%string.

(** ** The table *)

Definition USA_ROW : list Entity :=
  [ent USA "USA" Continent.Na 5 8 US_MATCH US_FORMATS US_REGIONS None (Some "US") Activity.Common Names.Us
     []]%string.

Definition EUROPE_1 : list Entity :=
  [ent 246 "SOV MIL ORDER OF MALTA" Continent.Eu 15 28 ["1A"] [cf ["1A0"] InPrefix (1, 2) 1] [] None None
     Activity.Rare Names.Italian ["ROMA"];
   ent 260 "MONACO" Continent.Eu 14 27 ["3A"] [cf ["3A2"] InPrefix (2, 3) 1] [] None None Activity.Uncommon
     Names.French ["MONTE CARLO"];
   ent 514 "MONTENEGRO" Continent.Eu 15 28 ["4O"] [cf ["4O"] (OneOf [3; 4; 6; 7]) (2, 3) 1] [] None None
     Activity.Uncommon Names.WestSlavic ["PODGORICA"; "BUDVA"];
   ent 117 "ITU HQ" Continent.Eu 14 28 ["4U1ITU"] [cf ["4U1ITU"] InPrefix (0, 0) 1] [] None None
     Activity.Uncommon Names.Expedition ["GENEVA"];
   ent 497 "CROATIA" Continent.Eu 15 28 ["9A"] [cf ["9A"] (OneOf D1_9) (2, 3) 1] [] None None
     Activity.Regular Names.WestSlavic ["ZAGREB"; "SPLIT"];
   ent 257 "MALTA" Continent.Eu 15 28 ["9H"] [cf ["9H"] (OneOf [1; 5]) (2, 3) 1] [] None None
     Activity.Uncommon Names.Italian ["VALLETTA"; "MOSTA"];
   ent 203 "ANDORRA" Continent.Eu 14 27 ["C3"] [cf ["C3"] (OneOf [1; 7]) (2, 3) 1] [] None None
     Activity.Uncommon Names.Iberian ["ANDORRA LA VELLA"];
   ent 149 "AZORES" Continent.Eu 14 36 ["CU"] [cf ["CU"] (OneOf D1_9) (2, 3) 1] [] None None
     Activity.Uncommon Names.Iberian ["PONTA DELGADA"; "HORTA"];
   ent 272 "PORTUGAL" Continent.Eu 14 37 ["CT"; "CQ"; "CR"; "CS"] [cf ["CT"; "CS"] (OneOf [1; 2; 7]) (2, 3)
     1] [] None None Activity.Regular Names.Iberian ["LISBOA"; "PORTO"];
   ent 230 "GERMANY" Continent.Eu 14 28 ["DA"; "DB"; "DC"; "DD"; "DE"; "DF"; "DG"; "DH"; "DI"; "DJ"; "DK";
     "DL"; "DM"; "DN"; "DO"; "DP"; "DQ"; "DR"] [cf ["DL"; "DK"; "DJ"; "DF"; "DH"; "DG"; "DO"; "DB"; "DC";
     "DD"; "DM"] (OneOf D1_9) (2, 3) 1] [] None (Some "DE") Activity.Common Names.German ["BERLIN";
     "MUNICH"; "HAMBURG"; "BONN"];
   ent 501 "BOSNIA" Continent.Eu 15 28 ["E7"; "T9"] [cf ["E7"] (OneOf D1_9) (2, 3) 1] [] None None
     Activity.Regular Names.WestSlavic ["SARAJEVO"; "MOSTAR"];
   ent 281 "SPAIN" Continent.Eu 14 37 ["EA"; "EB"; "EC"; "ED"; "EE"; "EF"; "EG"; "EH"; "AM"; "AN"; "AO"]
     [cf ["EA"; "EB"; "EC"; "ED"] (OneOf [1; 2; 3; 4; 5; 7]) (2, 3) 1] [] None (Some "ES") Activity.Common
     Names.Iberian ["MADRID"; "SEVILLA"; "VALENCIA"];
   ent 21 "BALEARIC IS" Continent.Eu 14 37 ["EA6"; "EB6"; "EC6"; "ED6"; "EE6"; "EF6"; "EG6"; "EH6"; "AM6";
     "AN6"; "AO6"] [cf ["EA6"; "EB6"; "EC6"; "ED6"] InPrefix (2, 3) 1] [] None None Activity.Regular
     Names.Iberian ["PALMA"; "IBIZA"];
   ent 245 "IRELAND" Continent.Eu 14 27 ["EI"; "EJ"] [cf ["EI"; "EJ"] (OneOf [2; 3; 4; 5; 6; 7; 8; 9]) (2,
     3) 1] [] None None Activity.Regular Names.Anglo ["DUBLIN"; "CORK"];
   ent 179 "MOLDOVA" Continent.Eu 16 29 ["ER"] [cf ["ER"] (OneOf [1; 2; 3; 4; 5]) (2, 3) 1] [] None None
     Activity.Regular Names.Danube ["CHISINAU"];
   ent 52 "ESTONIA" Continent.Eu 15 29 ["ES"] [cf ["ES"] (OneOf [1; 2; 3; 4; 5; 6; 7; 8]) (2, 3) 1] [] None
     None Activity.Regular Names.Baltic ["TALLINN"; "TARTU"];
   ent 27 "BELARUS" Continent.Eu 16 29 ["EU"; "EV"; "EW"] [cf ["EU"; "EW"] (OneOf [1; 2; 3; 4; 5; 6; 7; 8])
     (2, 3) 1] [] None None Activity.Regular Names.EastSlavic ["MINSK"; "GOMEL"];
   ent 227 "FRANCE" Continent.Eu 14 27 ["F"] [cf ["F"] (OneOf D1_9) (2, 3) 1] [] None (Some "FR")
     Activity.Common Names.French ["PARIS"; "LYON"; "NANTES"];
   ent 223 "ENGLAND" Continent.Eu 14 27 ["G"; "M"; "2E"] [cf ["G"] (OneOf [0; 1; 2; 3; 4; 5; 6; 7; 8]) (2,
     3) 4; cf ["M"] (OneOf [0; 1; 3; 5; 6; 7]) (3, 3) 3; cf ["2E"] (OneOf [0; 1]) (3, 3) 1] [] None None
     Activity.Common Names.Anglo ["LONDON"; "BRISTOL"; "YORK"; "LEEDS"];
   ent 114 "ISLE OF MAN" Continent.Eu 14 27 ["GD"; "MD"; "2D"; "GT"; "MT"] [cf ["GD"; "MD"] (OneOf [0; 1;
     2; 3; 4; 5; 6; 7; 8]) (3, 3) 1] [] None None Activity.Uncommon Names.Anglo ["DOUGLAS"]]%string.

Definition EUROPE_2 : list Entity :=
  [ent 265 "NORTHERN IRELAND" Continent.Eu 14 27 ["GI"; "MI"; "2I"; "GN"; "MN"] [cf ["GI"; "MI"] (OneOf [0;
     1; 2; 3; 4; 5; 6; 7; 8]) (3, 3) 1] [] None None Activity.Regular Names.Anglo ["BELFAST"; "DERRY"];
   ent 122 "JERSEY" Continent.Eu 14 27 ["GJ"; "MJ"; "2J"; "GH"; "MH"] [cf ["GJ"; "MJ"] (OneOf [0; 1; 2; 3;
     4; 5; 6; 7; 8]) (3, 3) 1] [] None None Activity.Uncommon Names.Anglo ["ST HELIER"];
   ent 279 "SCOTLAND" Continent.Eu 14 27 ["GM"; "MM"; "2M"; "GS"; "MS"] [cf ["GM"; "MM"] (OneOf [0; 1; 2;
     3; 4; 5; 6; 7; 8]) (3, 3) 1] [] None None Activity.Regular Names.Anglo ["EDINBURGH"; "GLASGOW"];
   ent 106 "GUERNSEY" Continent.Eu 14 27 ["GU"; "MU"; "2U"; "GP"; "MP"] [cf ["GU"; "MU"] (OneOf [0; 1; 2;
     3; 4; 5; 6; 7; 8]) (3, 3) 1] [] None None Activity.Uncommon Names.Anglo ["ST PETER PORT"];
   ent 294 "WALES" Continent.Eu 14 27 ["GW"; "MW"; "2W"; "GC"; "MC"] [cf ["GW"; "MW"] (OneOf [0; 1; 2; 3;
     4; 5; 6; 7; 8]) (3, 3) 1] [] None None Activity.Regular Names.Anglo ["CARDIFF"; "SWANSEA"];
   ent 239 "HUNGARY" Continent.Eu 15 28 ["HA"; "HG"] [cf ["HA"; "HG"] (OneOf D1_9) (2, 3) 1] [] None None
     Activity.Regular Names.Danube ["BUDAPEST"; "PECS"];
   ent 287 "SWITZERLAND" Continent.Eu 14 28 ["HB"; "HE"] [cf ["HB9"] InPrefix (2, 3) 1] [] None None
     Activity.Regular Names.German ["BERN"; "ZURICH"];
   ent 251 "LIECHTENSTEIN" Continent.Eu 14 28 ["HB0"; "HE0"] [cf ["HB0"] InPrefix (2, 3) 1] [] None None
     Activity.Uncommon Names.German ["VADUZ"];
   ent 295 "VATICAN" Continent.Eu 15 28 ["HV"] [cf ["HV"] (OneOf [0]) (1, 2) 1] [] None None
     Activity.Uncommon Names.Italian ["VATICAN"];
   ent 248 "ITALY" Continent.Eu 15 28 ["I"] [cf ["I"; "IK"; "IZ"; "IW"; "IU"] (OneOf D1_9) (2, 3) 1] []
     None (Some "IT") Activity.Common Names.Italian ["ROMA"; "MILANO"; "TORINO"];
   ent 225 "SARDINIA" Continent.Eu 15 28 ["IS0"; "IM0"] [cf ["IS0"; "IM0"] InPrefix (2, 3) 1] [] None None
     Activity.Regular Names.Italian ["CAGLIARI"; "SASSARI"];
   ent 259 "SVALBARD" Continent.Eu 40 18 ["JW"] [cf ["JW"] (OneOf D0_9) (2, 3) 1] [] None None
     Activity.Uncommon Names.Nordic ["LONGYEARBYEN"];
   ent 118 "JAN MAYEN" Continent.Eu 40 18 ["JX"] [cf ["JX"] (OneOf D0_9) (2, 3) 1] [] None None
     Activity.Uncommon Names.Nordic ["OLONKINBYEN"];
   ent 266 "NORWAY" Continent.Eu 14 18 ["LA"; "LB"; "LC"; "LD"; "LE"; "LF"; "LG"; "LH"; "LI"; "LJ"; "LK";
     "LL"; "LM"; "LN"] [cf ["LA"; "LB"] (OneOf D1_9) (2, 3) 1] [] None None Activity.Regular Names.Nordic
     ["OSLO"; "BERGEN"];
   ent 254 "LUXEMBOURG" Continent.Eu 14 27 ["LX"] [cf ["LX"] (OneOf D1_9) (2, 3) 1] [] None None
     Activity.Uncommon Names.German ["LUXEMBOURG"];
   ent 146 "LITHUANIA" Continent.Eu 15 29 ["LY"] [cf ["LY"] (OneOf [1; 2; 3; 4; 5]) (2, 3) 1] [] None None
     Activity.Regular Names.Baltic ["VILNIUS"; "KAUNAS"];
   ent 212 "BULGARIA" Continent.Eu 20 28 ["LZ"] [cf ["LZ"] (OneOf D1_9) (2, 3) 1] [] None None
     Activity.Regular Names.WestSlavic ["SOFIA"; "VARNA"];
   ent 206 "AUSTRIA" Continent.Eu 15 28 ["OE"; "4U1VIC"] [cf ["OE"] (OneOf D1_9) (2, 3) 1] [] None None
     Activity.Regular Names.German ["WIEN"; "GRAZ"];
   ent 224 "FINLAND" Continent.Eu 15 18 ["OH"; "OF"; "OG"; "OI"; "OJ"] [cf ["OH"] (OneOf D1_9) (2, 3) 1] []
     None None Activity.Regular Names.Finnish ["HELSINKI"; "OULU"];
   ent 5 "ALAND IS" Continent.Eu 15 18 ["OH0"; "OF0"; "OG0"; "OI0"] [cf ["OH0"] InPrefix (2, 3) 1] [] None
     None Activity.Uncommon Names.Finnish ["MARIEHAMN"];
   ent 167 "MARKET REEF" Continent.Eu 15 18 ["OJ0"] [cf ["OJ0"] InPrefix (2, 3) 1] [] None None
     Activity.Uncommon Names.Finnish ["MARKET REEF"]]%string.

Definition EUROPE_3 : list Entity :=
  [ent 503 "CZECH REP" Continent.Eu 15 28 ["OK"; "OL"] [cf ["OK"; "OL"] (OneOf D1_9) (2, 3) 1] [] None None
     Activity.Common Names.WestSlavic ["PRAHA"; "BRNO"];
   ent 504 "SLOVAKIA" Continent.Eu 15 28 ["OM"] [cf ["OM"] (OneOf D1_9) (2, 3) 1] [] None None
     Activity.Regular Names.WestSlavic ["BRATISLAVA"; "KOSICE"];
   ent 209 "BELGIUM" Continent.Eu 14 27 ["ON"; "OO"; "OP"; "OQ"; "OR"; "OS"; "OT"] [cf ["ON"; "OO"; "OP";
     "OT"] (OneOf D1_9) (2, 3) 1] [] None None Activity.Regular Names.Dutch ["GENT"; "BRUGGE"];
   ent 222 "FAROE IS" Continent.Eu 14 18 ["OY"] [cf ["OY"] (OneOf D1_9) (2, 3) 1] [] None None
     Activity.Uncommon Names.Nordic ["TORSHAVN"];
   ent 221 "DENMARK" Continent.Eu 14 18 ["OZ"; "OU"; "OV"; "OW"; "5P"; "5Q"] [cf ["OZ"; "OU"] (OneOf D1_9)
     (2, 3) 1] [] None None Activity.Regular Names.Nordic ["KOBENHAVN"; "AARHUS"];
   ent 263 "NETHERLANDS" Continent.Eu 14 27 ["PA"; "PB"; "PC"; "PD"; "PE"; "PF"; "PG"; "PH"; "PI"] [cf
     ["PA"; "PD"; "PE"; "PH"] (OneOf D1_9) (2, 3) 1] [] None None Activity.Common Names.Dutch ["UTRECHT";
     "DELFT"];
   ent 61 "FRANZ JOSEF LAND" Continent.Eu 40 75 ["R1FJ"; "RI1FJ"; "UA1FJ"] [cf ["R1FJ"] InPrefix (1, 2) 1]
     [] None None Activity.Rare Names.EastSlavic ["KRENKEL"];
   ent 499 "SLOVENIA" Continent.Eu 15 28 ["S5"] [cf ["S5"] (OneOf D1_9) (2, 3) 1] [] None None
     Activity.Regular Names.WestSlavic ["LJUBLJANA"];
   ent 284 "SWEDEN" Continent.Eu 14 18 ["SA"; "SB"; "SC"; "SD"; "SE"; "SF"; "SG"; "SH"; "SI"; "SJ"; "SK";
     "SL"; "SM"; "7S"; "8S"] [cf ["SM"; "SA"; "SK"] (OneOf [0; 1; 2; 3; 4; 5; 6; 7]) (2, 3) 1] [] None None
     Activity.Regular Names.Nordic ["STOCKHOLM"; "LUND"];
   ent 269 "POLAND" Continent.Eu 15 28 ["SN"; "SO"; "SP"; "SQ"; "SR"; "3Z"; "HF"] [cf ["SP"; "SQ"; "SO"]
     (OneOf D1_9) (2, 3) 1] [] None None Activity.Common Names.WestSlavic ["KRAKOW"; "GDANSK"];
   ent 236 "GREECE" Continent.Eu 20 28 ["SV"; "SW"; "SX"; "SY"; "SZ"; "J4"] [cf ["SV"; "SW"; "SZ"] (OneOf
     [1; 2; 3; 4; 6; 7; 8]) (2, 3) 1] [] None None Activity.Regular Names.Greek ["ATHINA"; "PATRA"];
   ent 180 "MOUNT ATHOS" Continent.Eu 20 28 ["SV2"] [cf ["SV2"] InPrefix (3, 3) 1] [] (Some "A") None
     Activity.Rare Names.Greek ["KARYES"];
   ent 45 "DODECANESE" Continent.Eu 20 28 ["SV5"; "SW5"; "SX5"; "SY5"; "SZ5"; "J45"] [cf ["SV5"; "SX5"]
     InPrefix (2, 3) 1] [] None None Activity.Uncommon Names.Greek ["RODOS"; "KOS"];
   ent 40 "CRETE" Continent.Eu 20 28 ["SV9"; "SW9"; "SX9"; "SY9"; "SZ9"; "J49"] [cf ["SV9"; "SW9"] InPrefix
     (2, 3) 1] [] None None Activity.Regular Names.Greek ["HERAKLION"; "CHANIA"];
   ent 278 "SAN MARINO" Continent.Eu 15 28 ["T7"] [cf ["T7"] (OneOf [0]) (1, 2) 1] [] None None
     Activity.Uncommon Names.Italian ["SAN MARINO"];
   ent 390 "TURKEY" Continent.Eu 20 39 ["TA"; "TB"; "TC"; "YM"] [cf ["TA"; "TC"; "YM"] (OneOf D0_9) (2, 3)
     1] [] None None Activity.Regular Names.Turkish ["ANKARA"; "ISTANBUL"];
   ent 242 "ICELAND" Continent.Eu 40 17 ["TF"] [cf ["TF"] (OneOf [1; 2; 3; 4; 5; 6; 7; 8]) (2, 3) 1] []
     None None Activity.Uncommon Names.Nordic ["REYKJAVIK"; "AKUREYRI"];
   ent 214 "CORSICA" Continent.Eu 15 28 ["TK"] [cf ["TK"] (OneOf D0_9) (2, 3) 1] [] None None
     Activity.Uncommon Names.French ["AJACCIO"; "BASTIA"]]%string.

Definition EUROPE_4 : list Entity :=
  [ent 54 "EUROPEAN RUSSIA" Continent.Eu 16 29 ["R1"; "R3"; "R4"; "R6"; "R7"; "RA1"; "RA3"; "RA4"; "RA6";
     "RA7"; "RB1"; "RB3"; "RB4"; "RB6"; "RB7"; "RC1"; "RC3"; "RC4"; "RC6"; "RC7"; "RD1"; "RD3"; "RD4";
     "RD6"; "RD7"; "RE1"; "RE3"; "RE4"; "RE6"; "RE7"; "RF1"; "RF3"; "RF4"; "RF6"; "RF7"; "RG1"; "RG3";
     "RG4"; "RG6"; "RG7"; "RH1"; "RH3"; "RH4"; "RH6"; "RH7"; "RI1"; "RI3"; "RI4"; "RI6"; "RI7"; "RJ1";
     "RJ3"; "RJ4"; "RJ6"; "RJ7"; "RK1"; "RK3"; "RK4"; "RK6"; "RK7"; "RL1"; "RL3"; "RL4"; "RL6"; "RL7";
     "RM1"; "RM3"; "RM4"; "RM6"; "RM7"; "RN1"; "RN3"; "RN4"; "RN6"; "RN7"; "RO1"; "RO3"; "RO4"; "RO6";
     "RO7"; "RP1"; "RP3"; "RP4"; "RP6"; "RP7"; "RQ1"; "RQ3"; "RQ4"; "RQ6"; "RQ7"; "RR1"; "RR3"; "RR4";
     "RR6"; "RR7"; "RS1"; "RS3"; "RS4"; "RS6"; "RS7"; "RT1"; "RT3"; "RT4"; "RT6"; "RT7"; "RU1"; "RU3";
     "RU4"; "RU6"; "RU7"; "RV1"; "RV3"; "RV4"; "RV6"; "RV7"; "RW1"; "RW3"; "RW4"; "RW6"; "RW7"; "RX1";
     "RX3"; "RX4"; "RX6"; "RX7"; "RY1"; "RY3"; "RY4"; "RY6"; "RY7"; "RZ1"; "RZ3"; "RZ4"; "RZ6"; "RZ7";
     "UA1"; "UA3"; "UA4"; "UA6"; "UA7"; "UB1"; "UB3"; "UB4"; "UB6"; "UB7"; "UC1"; "UC3"; "UC4"; "UC6";
     "UC7"; "UD1"; "UD3"; "UD4"; "UD6"; "UD7"; "UE1"; "UE3"; "UE4"; "UE6"; "UE7"; "UF1"; "UF3"; "UF4";
     "UF6"; "UF7"; "UG1"; "UG3"; "UG4"; "UG6"; "UG7"; "UH1"; "UH3"; "UH4"; "UH6"; "UH7"; "UI1"; "UI3";
     "UI4"; "UI6"; "UI7"] [cf ["UA"; "RA"; "RW"; "RN"; "RV"; "RU"; "RX"; "RZ"; "R"; "UB"] FromRegion (2, 3)
     1] [rg 1 [] 16 29 12 [("NORTHWEST", ["SANKT PETERBURG"; "PSKOV"; "ARKHANGELSK"])]; rg 3 [] 16 29 30
     [("CENTRAL", ["MOSKVA"; "TULA"; "VORONEZH"])]; rg 4 [] 16 29 15 [("VOLGA", ["KAZAN"; "SAMARA";
     "SARATOV"])]; rg 6 [] 16 29 15 [("SOUTH", ["KRASNODAR"; "ROSTOV"; "STAVROPOL"])]; rg 7 [] 16 29 5
     [("NORTH CAUCASUS", ["MAKHACHKALA"; "NALCHIK"])]] None None Activity.Common Names.EastSlavic
     ["MOSKVA"; "KAZAN"];
   ent 126 "KALININGRAD" Continent.Eu 15 29 ["R2"; "RA2"; "RB2"; "RC2"; "RD2"; "RE2"; "RF2"; "RG2"; "RH2";
     "RI2"; "RJ2"; "RK2"; "RL2"; "RM2"; "RN2"; "RO2"; "RP2"; "RQ2"; "RR2"; "RS2"; "RT2"; "RU2"; "RV2";
     "RW2"; "RX2"; "RY2"; "RZ2"; "UA2"; "UB2"; "UC2"; "UD2"; "UE2"; "UF2"; "UG2"; "UH2"; "UI2"] [cf ["UA";
     "RA"; "RW"; "RN"; "RV"; "RU"; "RX"; "R"; "UB"] (OneOf [2]) (2, 3) 1] [] None None Activity.Regular
     Names.EastSlavic ["KALININGRAD"];
   ent 288 "UKRAINE" Continent.Eu 16 29 ["UR"; "US"; "UT"; "UU"; "UV"; "UW"; "UX"; "UY"; "UZ"; "EM"; "EN";
     "EO"] [cf ["UR"; "UT"; "UX"; "US"; "UY"; "UZ"; "UW"; "UV"; "EM"; "EO"] (OneOf D0_9) (2, 3) 1] [] None
     None Activity.Common Names.EastSlavic ["KYIV"; "LVIV"; "ODESA"];
   ent 145 "LATVIA" Continent.Eu 15 29 ["YL"] [cf ["YL"] (OneOf [1; 2; 3]) (2, 3) 1] [] None None
     Activity.Regular Names.Baltic ["RIGA"; "LIEPAJA"];
   ent 275 "ROMANIA" Continent.Eu 20 28 ["YO"; "YP"; "YQ"; "YR"] [cf ["YO"] (OneOf [2; 3; 4; 5; 6; 7; 8;
     9]) (2, 3) 1] [] None None Activity.Regular Names.Danube ["BUCURESTI"; "CLUJ"];
   ent 296 "SERBIA" Continent.Eu 15 28 ["YT"; "YU"] [cf ["YT"; "YU"] (OneOf D1_9) (2, 3) 1] [] None None
     Activity.Regular Names.WestSlavic ["BEOGRAD"; "NIS"];
   ent 502 "NORTH MACEDONIA" Continent.Eu 15 28 ["Z3"] [cf ["Z3"] (OneOf D0_9) (2, 3) 1] [] None None
     Activity.Uncommon Names.WestSlavic ["SKOPJE"];
   ent 522 "KOSOVO" Continent.Eu 15 28 ["Z6"] [cf ["Z6"] (OneOf D0_9) (2, 3) 1] [] None None
     Activity.Uncommon Names.Albanian ["PRISHTINA"];
   ent 7 "ALBANIA" Continent.Eu 15 28 ["ZA"] [cf ["ZA"] (OneOf [1]) (2, 3) 1] [] None None
     Activity.Uncommon Names.Albanian ["TIRANA"];
   ent 233 "GIBRALTAR" Continent.Eu 14 37 ["ZB2"; "ZG2"] [cf ["ZB2"] InPrefix (2, 3) 1] [] None None
     Activity.Uncommon Names.Anglo ["GIBRALTAR"]]%string.

Definition NORTH_AMERICA_1 : list Entity :=
  [ent 1 "CANADA" Continent.Na 4 4 ["VE"; "VA"; "VO"; "VY"; "VB"; "VC"; "VD"; "VG"; "VX"; "XJ"; "XK"; "XL";
     "XM"; "XN"; "XO"; "CF"; "CG"; "CH"; "CI"; "CJ"; "CK"; "CY"] [cf ["VE"; "VA"] FromRegion (2, 3) 1] [rg
     1 ["VE"; "VA"] 5 9 5 [("NS", ["HALIFAX"; "SYDNEY"])]; rg 2 ["VE"; "VA"] 5 4 15 [("QC", ["MONTREAL";
     "QUEBEC"])]; rg 3 ["VE"; "VA"] 4 4 40 [("ON", ["TORONTO"; "OTTAWA"; "LONDON"])]; rg 4 ["VE"; "VA"] 4 3
     4 [("MB", ["WINNIPEG"; "BRANDON"])]; rg 5 ["VE"; "VA"] 4 3 4 [("SK", ["REGINA"; "SASKATOON"])]; rg 6
     ["VE"; "VA"] 4 2 10 [("AB", ["CALGARY"; "EDMONTON"])]; rg 7 ["VE"; "VA"] 3 2 15 [("BC", ["VANCOUVER";
     "VICTORIA"; "KELOWNA"])]; rg 8 ["VE"] 1 2 1 [("NT", ["YELLOWKNIFE"])]; rg 9 ["VE"] 5 9 4 [("NB",
     ["FREDERICTON"; "MONCTON"])]; rg 1 ["VO"] 5 9 3 [("NL", ["ST JOHNS"; "GANDER"])]; rg 2 ["VO"] 2 9 1
     [("NL", ["HAPPY VALLEY"])]; rg 0 ["VY"] 2 4 1 [("NU", ["IQALUIT"])]; rg 1 ["VY"] 1 2 1 [("YT",
     ["WHITEHORSE"])]; rg 2 ["VY"] 5 9 1 [("PE", ["CHARLOTTETOWN"])]] None (Some "CA") Activity.Common
     Names.Anglo ["TORONTO"; "OTTAWA"; "CALGARY"];
   ent 211 "SABLE IS" Continent.Na 5 9 ["CY0"] [cf ["CY0"] InPrefix (2, 3) 1] [] None None Activity.Rare
     Names.Expedition ["SABLE IS"];
   ent 252 "ST PAUL IS" Continent.Na 5 9 ["CY9"] [cf ["CY9"] InPrefix (2, 3) 1] [] None None Activity.Rare
     Names.Expedition ["ST PAUL IS"];
   ent 6 "ALASKA" Continent.Na 1 1 ["KL"; "AL"; "NL"; "WL"] [cf ["KL"; "AL"; "NL"; "WL"] (OneOf [7]) (2, 3)
     1] [] None None Activity.Regular Names.Anglo ["ANCHORAGE"; "FAIRBANKS"; "JUNEAU"];
   ent 182 "NAVASSA IS" Continent.Na 8 11 ["KP1"; "NP1"; "WP1"] [cf ["KP1"] InPrefix (2, 3) 1] [] None None
     Activity.Rare Names.Expedition ["NAVASSA"];
   ent 285 "US VIRGIN IS" Continent.Na 8 11 ["KP2"; "NP2"; "WP2"] [cf ["KP2"; "NP2"; "WP2"] InPrefix (2, 3)
     1] [] None None Activity.Uncommon Names.Anglo ["ST THOMAS"; "ST CROIX"];
   ent 202 "PUERTO RICO" Continent.Na 8 11 ["KP3"; "KP4"; "NP3"; "NP4"; "WP3"; "WP4"] [cf ["KP4"; "NP4";
     "WP4"; "KP3"] InPrefix (2, 3) 1] [] None None Activity.Regular Names.LatAm ["SAN JUAN"; "PONCE"];
   ent 43 "DESECHEO IS" Continent.Na 8 11 ["KP5"; "NP5"; "WP5"] [cf ["KP5"] InPrefix (2, 3) 1] [] None None
     Activity.Rare Names.Expedition ["DESECHEO"];
   ent 105 "GUANTANAMO BAY" Continent.Na 8 11 ["KG4"] [cf ["KG4"] InPrefix (2, 2) 1] [] None None
     Activity.Rare Names.Anglo ["GUANTANAMO"];
   ent 289 "UN HQ" Continent.Na 5 8 ["4U1UN"] [cf ["4U1UN"] InPrefix (0, 0) 1] [] None None
     Activity.Uncommon Names.Anglo ["NEW YORK"];
   ent 64 "BERMUDA" Continent.Na 5 11 ["VP9"] [cf ["VP9"] InPrefix (2, 3) 1] [] None None Activity.Uncommon
     Names.Anglo ["HAMILTON"];
   ent 277 "ST PIERRE" Continent.Na 5 9 ["FP"] [cf ["FP"] (OneOf [5; 8]) (2, 3) 1] [] None None
     Activity.Uncommon Names.French ["ST PIERRE"];
   ent 237 "GREENLAND" Continent.Na 40 5 ["OX"; "XP"] [cf ["OX"] (OneOf [3; 5; 7]) (2, 3) 1] [] None None
     Activity.Uncommon Names.Nordic ["NUUK"; "ILULISSAT"];
   ent 60 "BAHAMAS" Continent.Na 8 11 ["C6"] [cf ["C6"] InPrefix (3, 3) 1] [] None None Activity.Uncommon
     Names.Anglo ["NASSAU"; "FREEPORT"];
   ent 70 "CUBA" Continent.Na 8 11 ["CM"; "CO"; "CL"; "T4"] [cf ["CO"; "CM"; "CL"] (OneOf D1_9) (2, 3) 1]
     [] None None Activity.Uncommon Names.LatAm ["HABANA"; "SANTIAGO"];
   ent 82 "JAMAICA" Continent.Na 8 11 ["6Y"] [cf ["6Y"] (OneOf [5]) (2, 2) 1] [] None None
     Activity.Uncommon Names.Anglo ["KINGSTON"];
   ent 78 "HAITI" Continent.Na 8 11 ["HH"; "4V"] [cf ["HH"] (OneOf [2]) (2, 3) 1] [] None None
     Activity.Uncommon Names.French ["PORT AU PRINCE"];
   ent 72 "DOMINICAN REP" Continent.Na 8 11 ["HI"] [cf ["HI"] (OneOf [3; 8]) (2, 3) 1] [] None None
     Activity.Uncommon Names.LatAm ["SANTO DOMINGO"]]%string.

Definition NORTH_AMERICA_2 : list Entity :=
  [ent 69 "CAYMAN IS" Continent.Na 8 11 ["ZF"] [cf ["ZF"] (OneOf [1; 2]) (2, 3) 1] [] None None
     Activity.Uncommon Names.Anglo ["GEORGE TOWN"];
   ent 89 "TURKS CAICOS" Continent.Na 8 11 ["VP5"] [cf ["VP5"] InPrefix (2, 3) 1] [] None None
     Activity.Uncommon Names.Anglo ["PROVIDENCIALES"];
   ent 94 "ANTIGUA" Continent.Na 8 11 ["V2"] [cf ["V2"] (OneOf [1; 5]) (2, 3) 1] [] None None
     Activity.Uncommon Names.Anglo ["ST JOHNS"];
   ent 249 "ST KITTS" Continent.Na 8 11 ["V4"] [cf ["V4"] (OneOf [1]) (2, 3) 1] [] None None
     Activity.Uncommon Names.Anglo ["BASSETERRE"];
   ent 12 "ANGUILLA" Continent.Na 8 11 ["VP2E"] [cf ["VP2E"] InPrefix (1, 2) 1] [] None None
     Activity.Uncommon Names.Anglo ["THE VALLEY"];
   ent 96 "MONTSERRAT" Continent.Na 8 11 ["VP2M"] [cf ["VP2M"] InPrefix (1, 2) 1] [] None None
     Activity.Uncommon Names.Anglo ["BRADES"];
   ent 65 "BRITISH VIRGIN IS" Continent.Na 8 11 ["VP2V"] [cf ["VP2V"] InPrefix (1, 2) 1] [] None None
     Activity.Uncommon Names.Anglo ["ROAD TOWN"];
   ent 79 "GUADELOUPE" Continent.Na 8 11 ["FG"] [cf ["FG"] (OneOf [4; 5; 8]) (2, 3) 1] [] None None
     Activity.Uncommon Names.French ["POINTE A PITRE"];
   ent 84 "MARTINIQUE" Continent.Na 8 11 ["FM"] [cf ["FM"] (OneOf [5]) (2, 3) 1] [] None None
     Activity.Uncommon Names.French ["FORT DE FRANCE"];
   ent 516 "ST BARTHELEMY" Continent.Na 8 11 ["FJ"] [cf ["FJ"] (OneOf [5]) (2, 3) 1] [] None None
     Activity.Uncommon Names.French ["GUSTAVIA"];
   ent 213 "ST MARTIN" Continent.Na 8 11 ["FS"] [cf ["FS"] (OneOf [4; 5]) (2, 3) 1] [] None None
     Activity.Uncommon Names.French ["MARIGOT"];
   ent 518 "SINT MAARTEN" Continent.Na 8 11 ["PJ7"] [cf ["PJ7"] InPrefix (2, 3) 1] [] None None
     Activity.Uncommon Names.Dutch ["PHILIPSBURG"];
   ent 519 "SABA ST EUSTATIUS" Continent.Na 8 11 ["PJ5"; "PJ6"] [cf ["PJ5"; "PJ6"] InPrefix (2, 3) 1] []
     None None Activity.Uncommon Names.Dutch ["THE BOTTOM"; "ORANJESTAD"];
   ent 95 "DOMINICA" Continent.Na 8 11 ["J7"] [cf ["J7"] (OneOf [3]) (2, 3) 1] [] None None
     Activity.Uncommon Names.Anglo ["ROSEAU"];
   ent 97 "ST LUCIA" Continent.Na 8 11 ["J6"] [cf ["J6"] (OneOf [8]) (2, 3) 1] [] None None
     Activity.Uncommon Names.Anglo ["CASTRIES"];
   ent 98 "ST VINCENT" Continent.Na 8 11 ["J8"] [cf ["J8"] (OneOf [8]) (2, 3) 1] [] None None
     Activity.Uncommon Names.Anglo ["KINGSTOWN"];
   ent 62 "BARBADOS" Continent.Na 8 11 ["8P"] [cf ["8P"] (OneOf [6]) (2, 3) 1] [] None None
     Activity.Uncommon Names.Anglo ["BRIDGETOWN"];
   ent 77 "GRENADA" Continent.Na 8 11 ["J3"] [cf ["J3"] (OneOf [4]) (2, 3) 1] [] None None
     Activity.Uncommon Names.Anglo ["ST GEORGES"];
   ent 17 "AVES IS" Continent.Na 8 11 ["YV0"] [cf ["YV0"] InPrefix (2, 3) 1] [] None None Activity.Rare
     Names.Expedition ["AVES"];
   ent 50 "MEXICO" Continent.Na 6 10 ["XA"; "XB"; "XC"; "XD"; "XE"; "XF"; "XG"; "XH"; "XI"; "4A"; "4B";
     "4C"; "6D"; "6E"; "6F"; "6G"; "6H"; "6I"; "6J"] [cf ["XE"; "XF"] (OneOf [1; 2; 3]) (2, 3) 1] [] None
     None Activity.Regular Names.LatAm ["PUEBLA"; "MERIDA"];
   ent 204 "REVILLAGIGEDO" Continent.Na 6 10 ["XA4"; "XB4"; "XC4"; "XD4"; "XE4"; "XF4"; "4A4"; "4B4"] [cf
     ["XF4"] InPrefix (2, 3) 1] [] None None Activity.Uncommon Names.LatAm ["SOCORRO"]]%string.

Definition NORTH_AMERICA_3 : list Entity :=
  [ent 76 "GUATEMALA" Continent.Na 7 11 ["TG"; "TD"] [cf ["TG"] (OneOf [9]) (2, 3) 1] [] None None
     Activity.Uncommon Names.LatAm ["GUATEMALA"; "ANTIGUA"];
   ent 66 "BELIZE" Continent.Na 7 11 ["V3"] [cf ["V3"] (OneOf [1]) (2, 3) 1] [] None None Activity.Uncommon
     Names.Anglo ["BELMOPAN"];
   ent 74 "EL SALVADOR" Continent.Na 7 11 ["YS"; "HU"] [cf ["YS"] (OneOf [1]) (2, 3) 1] [] None None
     Activity.Uncommon Names.LatAm ["SAN SALVADOR"];
   ent 80 "HONDURAS" Continent.Na 7 11 ["HR"; "HQ"] [cf ["HR"] (OneOf D1_9) (2, 3) 1] [] None None
     Activity.Uncommon Names.LatAm ["TEGUCIGALPA"];
   ent 86 "NICARAGUA" Continent.Na 7 11 ["YN"; "H6"; "H7"; "HT"] [cf ["YN"] (OneOf D1_9) (2, 3) 1] [] None
     None Activity.Uncommon Names.LatAm ["MANAGUA"];
   ent 308 "COSTA RICA" Continent.Na 7 11 ["TI"; "TE"] [cf ["TI"] (OneOf [2; 3; 4; 5; 8]) (2, 3) 1] [] None
     None Activity.Uncommon Names.LatAm ["SAN JOSE"];
   ent 37 "COCOS IS" Continent.Na 7 11 ["TI9"; "TE9"] [cf ["TI9"] InPrefix (2, 3) 1] [] None None
     Activity.Rare Names.Expedition ["COCOS"];
   ent 88 "PANAMA" Continent.Na 7 11 ["HP"; "HO"; "3E"; "3F"; "H3"; "H8"; "H9"] [cf ["HP"] (OneOf D1_9) (2,
     3) 1] [] None None Activity.Uncommon Names.LatAm ["PANAMA"];
   ent 216 "SAN ANDRES" Continent.Na 7 11 ["HK0"; "5J0"; "5K0"] [cf ["HK0"] InPrefix (2, 3) 1] [] None None
     Activity.Uncommon Names.LatAm ["SAN ANDRES"];
   ent 36 "CLIPPERTON" Continent.Na 7 10 ["FO"] [cf ["FO"] (OneOf [0]) (2, 3) 1] [] (Some "C") None
     Activity.Rare Names.Expedition ["CLIPPERTON"]]%string.

Definition SOUTH_AMERICA_1 : list Entity :=
  [ent 100 "ARGENTINA" Continent.Sa 13 14 ["LU"; "LO"; "LP"; "LQ"; "LR"; "LS"; "LT"; "LV"; "LW"; "AY";
     "AZ"; "L2"; "L3"; "L4"; "L5"; "L6"; "L7"; "L8"; "L9"] [cf ["LU"; "LW"] (OneOf D1_9) (2, 3) 1] [] None
     None Activity.Regular Names.LatAm ["CORDOBA"; "MENDOZA"];
   ent 112 "CHILE" Continent.Sa 12 14 ["CE"; "CA"; "CB"; "CC"; "CD"; "XQ"; "XR"; "3G"] [cf ["CE"; "CA";
     "XQ"] (OneOf [1; 2; 3; 4; 5; 6; 7; 8]) (2, 3) 1] [] None None Activity.Regular Names.LatAm
     ["SANTIAGO"; "VALPARAISO"];
   ent 47 "EASTER IS" Continent.Sa 12 63 ["CE0Y"; "XR0Y"; "CA0Y"; "3G0Y"] [cf ["CE0Y"; "XR0Y"] InPrefix (2,
     3) 1] [] None None Activity.Uncommon Names.LatAm ["HANGA ROA"];
   ent 125 "SAN FELIX" Continent.Sa 12 14 ["CE0X"; "XR0X"; "CA0X"; "3G0X"] [cf ["CE0X"; "XR0X"] InPrefix
     (2, 3) 1] [] None None Activity.Rare Names.LatAm ["SAN FELIX"];
   ent 217 "JUAN FERNANDEZ" Continent.Sa 12 14 ["CE0Z"; "XR0Z"; "CA0Z"; "3G0Z"] [cf ["CE0Z"; "XR0Z"]
     InPrefix (2, 3) 1] [] None None Activity.Uncommon Names.LatAm ["ROBINSON CRUSOE"];
   ent 144 "URUGUAY" Continent.Sa 13 14 ["CX"; "CV"; "CW"] [cf ["CX"] (OneOf D1_9) (2, 3) 1] [] None None
     Activity.Regular Names.LatAm ["MONTEVIDEO"];
   ent 132 "PARAGUAY" Continent.Sa 11 14 ["ZP"] [cf ["ZP"] (OneOf [5; 6]) (2, 3) 1] [] None None
     Activity.Uncommon Names.LatAm ["ASUNCION"];
   ent 104 "BOLIVIA" Continent.Sa 10 12 ["CP"] [cf ["CP"] (OneOf [1; 2; 3; 4; 5; 6; 7]) (2, 3) 1] [] None
     None Activity.Uncommon Names.LatAm ["LA PAZ"; "SUCRE"];
   ent 136 "PERU" Continent.Sa 10 12 ["OA"; "OB"; "OC"; "4T"] [cf ["OA"] (OneOf [4]) (2, 3) 1] [] None None
     Activity.Uncommon Names.LatAm ["LIMA"; "CUSCO"];
   ent 120 "ECUADOR" Continent.Sa 10 12 ["HC"; "HD"] [cf ["HC"; "HD"] (OneOf [1; 2; 3; 4; 5; 6; 7]) (2, 3)
     1] [] None None Activity.Uncommon Names.LatAm ["QUITO"; "GUAYAQUIL"];
   ent 71 "GALAPAGOS" Continent.Sa 10 12 ["HC8"; "HD8"] [cf ["HC8"; "HD8"] InPrefix (2, 3) 1] [] None None
     Activity.Uncommon Names.LatAm ["PUERTO AYORA"];
   ent 116 "COLOMBIA" Continent.Sa 9 12 ["HK"; "HJ"; "5J"; "5K"] [cf ["HK"; "HJ"] (OneOf [1; 2; 3; 4; 5; 6;
     7]) (2, 3) 1] [] None None Activity.Regular Names.LatAm ["BOGOTA"; "MEDELLIN"];
   ent 161 "MALPELO" Continent.Sa 9 12 ["HK0"] [cf ["HK0"] InPrefix (2, 3) 1] [] (Some "M") None
     Activity.Rare Names.Expedition ["MALPELO"];
   ent 148 "VENEZUELA" Continent.Sa 9 12 ["YV"; "YW"; "YX"; "YY"; "4M"] [cf ["YV"] (OneOf D1_9) (2, 3) 1]
     [] None None Activity.Regular Names.LatAm ["CARACAS"];
   ent 129 "GUYANA" Continent.Sa 9 12 ["8R"] [cf ["8R"] (OneOf [1]) (2, 3) 1] [] None None
     Activity.Uncommon Names.Anglo ["GEORGETOWN"];
   ent 140 "SURINAME" Continent.Sa 9 12 ["PZ"] [cf ["PZ"] (OneOf [1]) (2, 3) 1] [] None None
     Activity.Uncommon Names.Dutch ["PARAMARIBO"];
   ent 63 "FRENCH GUIANA" Continent.Sa 9 12 ["FY"] [cf ["FY"] (OneOf [1; 5]) (2, 3) 1] [] None None
     Activity.Uncommon Names.French ["CAYENNE"; "KOUROU"];
   ent 108 "BRAZIL" Continent.Sa 11 15 ["PP"; "PQ"; "PR"; "PS"; "PT"; "PU"; "PV"; "PW"; "PX"; "PY"; "ZV";
     "ZW"; "ZX"; "ZY"; "ZZ"] [cf ["PY"; "PU"; "PP"; "PT"; "PR"] FromRegion (2, 3) 1] [rg 1 [] 11 15 15
     [("RIO DE JANEIRO", ["RIO"; "NITEROI"])]; rg 2 [] 11 15 30 [("SAO PAULO", ["SAO PAULO"; "CAMPINAS"])];
     rg 3 [] 11 15 10 [("RIO GRANDE DO SUL", ["PORTO ALEGRE"])]; rg 4 [] 11 15 10 [("MINAS GERAIS",
     ["BELO HORIZONTE"])]; rg 5 [] 11 15 10 [("PARANA", ["CURITIBA"; "FLORIANOPOLIS"])]; rg 6 [] 11 13 5
     [("BAHIA", ["SALVADOR"])]; rg 7 [] 11 13 5 [("NORDESTE", ["RECIFE"; "FORTALEZA"; "NATAL"])]; rg 8 []
     11 13 3 [("NORTE", ["BELEM"; "SAO LUIS"])]; rg 9 [] 11 15 4 [("CENTRO OESTE", ["BRASILIA";
     "GOIANIA"])]] None None Activity.Common Names.Lusophone ["RIO"; "RECIFE"];
   ent 56 "FERNANDO DE NORONHA" Continent.Sa 11 13 ["PY0F"; "PP0F"; "PU0F"; "ZY0F"] [cf ["PY0F"; "PP0F"]
     InPrefix (2, 3) 1] [] None None Activity.Uncommon Names.Lusophone ["NORONHA"]]%string.

Definition SOUTH_AMERICA_2 : list Entity :=
  [ent 253 "ST PETER ST PAUL" Continent.Sa 11 13 ["PY0S"; "PW0S"; "PP0S"] [cf ["PY0S"; "PW0S"] InPrefix (2,
     3) 1] [] None None Activity.Rare Names.Expedition ["ST PETER ST PAUL"];
   ent 273 "TRINDADE" Continent.Sa 11 15 ["PY0T"; "PP0T"; "PW0T"] [cf ["PY0T"; "PP0T"] InPrefix (2, 3) 1]
     [] None None Activity.Rare Names.Expedition ["TRINDADE"];
   ent 90 "TRINIDAD TOBAGO" Continent.Sa 9 11 ["9Y"; "9Z"] [cf ["9Y"] (OneOf [4]) (2, 3) 1] [] None None
     Activity.Uncommon Names.Anglo ["PORT OF SPAIN"];
   ent 91 "ARUBA" Continent.Sa 9 11 ["P4"] [cf ["P4"] (OneOf [0]) (2, 3) 1] [] None None Activity.Uncommon
     Names.Dutch ["ORANJESTAD"];
   ent 517 "CURACAO" Continent.Sa 9 11 ["PJ2"] [cf ["PJ2"] InPrefix (2, 3) 1] [] None None
     Activity.Uncommon Names.Dutch ["WILLEMSTAD"];
   ent 520 "BONAIRE" Continent.Sa 9 11 ["PJ4"] [cf ["PJ4"] InPrefix (2, 3) 1] [] None None
     Activity.Uncommon Names.Dutch ["KRALENDIJK"];
   ent 141 "FALKLAND IS" Continent.Sa 13 16 ["VP8"] [cf ["VP8"] InPrefix (2, 3) 1] [] None None
     Activity.Uncommon Names.Anglo ["STANLEY"];
   ent 235 "SOUTH GEORGIA" Continent.Sa 13 73 ["VP8"] [cf ["VP8"] InPrefix (2, 3) 1] [] (Some "G") None
     Activity.Rare Names.Expedition ["GRYTVIKEN"];
   ent 238 "SOUTH ORKNEY" Continent.Sa 13 73 ["VP8"] [cf ["VP8"] InPrefix (2, 3) 1] [] (Some "O") None
     Activity.Rare Names.Expedition ["SIGNY"];
   ent 240 "SOUTH SANDWICH" Continent.Sa 13 73 ["VP8"] [cf ["VP8"] InPrefix (2, 3) 1] [] (Some "S") None
     Activity.Rare Names.Expedition ["THULE"];
   ent 241 "SOUTH SHETLAND" Continent.Sa 13 73 ["VP8"] [cf ["VP8"] InPrefix (2, 3) 1] [] (Some "H") None
     Activity.Uncommon Names.Expedition ["KING GEORGE IS"]]%string.

Definition AFRICA_1 : list Entity :=
  [ent 4 "AGALEGA" Continent.Af 39 53 ["3B6"; "3B7"] [cf ["3B6"; "3B7"] InPrefix (2, 3) 1] [] None None
     Activity.Rare Names.African ["AGALEGA"];
   ent 165 "MAURITIUS" Continent.Af 39 53 ["3B8"] [cf ["3B8"] InPrefix (2, 3) 1] [] None None
     Activity.Uncommon Names.African ["PORT LOUIS"];
   ent 207 "RODRIGUES" Continent.Af 39 53 ["3B9"] [cf ["3B9"] InPrefix (2, 3) 1] [] None None
     Activity.Uncommon Names.African ["PORT MATHURIN"];
   ent 49 "EQUATORIAL GUINEA" Continent.Af 36 47 ["3C"] [cf ["3C"] (OneOf D1_9) (2, 3) 1] [] None None
     Activity.Rare Names.Iberian ["MALABO"];
   ent 195 "ANNOBON" Continent.Af 36 52 ["3C0"] [cf ["3C0"] InPrefix (2, 3) 1] [] None None Activity.Rare
     Names.African ["SAN ANTONIO"];
   ent 468 "ESWATINI" Continent.Af 38 57 ["3DA"] [cf ["3DA"] (OneOf [0]) (2, 2) 1] [] None None
     Activity.Uncommon Names.African ["MBABANE"];
   ent 474 "TUNISIA" Continent.Af 33 37 ["3V"; "TS"] [cf ["3V"] (OneOf [8]) (2, 3) 1] [] None None
     Activity.Uncommon Names.Arabic ["TUNIS"; "SFAX"];
   ent 107 "GUINEA" Continent.Af 35 46 ["3X"] [cf ["3X"] (OneOf D1_9) (2, 3) 1] [] None None
     Activity.Uncommon Names.French ["CONAKRY"];
   ent 24 "BOUVET" Continent.Af 38 67 ["3Y"] [cf ["3Y"] (OneOf [0]) (2, 3) 1] [] (Some "B") None
     Activity.Rare Names.Expedition ["BOUVET"];
   ent 436 "LIBYA" Continent.Af 34 38 ["5A"] [cf ["5A"] (OneOf [1]) (2, 3) 1] [] None None Activity.Rare
     Names.Arabic ["TRIPOLI"];
   ent 470 "TANZANIA" Continent.Af 37 53 ["5H"; "5I"] [cf ["5H"] (OneOf [1; 3]) (2, 3) 1] [] None None
     Activity.Uncommon Names.African ["DAR ES SALAAM"; "ARUSHA"];
   ent 450 "NIGERIA" Continent.Af 35 46 ["5N"; "5O"] [cf ["5N"] (OneOf D0_9) (2, 3) 1] [] None None
     Activity.Uncommon Names.African ["LAGOS"; "ABUJA"];
   ent 438 "MADAGASCAR" Continent.Af 39 53 ["5R"; "5S"; "6X"] [cf ["5R"] (OneOf [8]) (2, 3) 1] [] None None
     Activity.Uncommon Names.French ["ANTANANARIVO"];
   ent 444 "MAURITANIA" Continent.Af 35 46 ["5T"] [cf ["5T"] (OneOf [5]) (2, 3) 1] [] None None
     Activity.Uncommon Names.French ["NOUAKCHOTT"];
   ent 187 "NIGER" Continent.Af 35 46 ["5U"] [cf ["5U"] (OneOf [5; 7]) (2, 3) 1] [] None None
     Activity.Uncommon Names.French ["NIAMEY"];
   ent 483 "TOGO" Continent.Af 35 46 ["5V"] [cf ["5V"] (OneOf [7]) (2, 3) 1] [] None None Activity.Uncommon
     Names.French ["LOME"];
   ent 286 "UGANDA" Continent.Af 37 48 ["5X"] [cf ["5X"] (OneOf [1]) (2, 3) 1] [] None None
     Activity.Uncommon Names.African ["KAMPALA"];
   ent 430 "KENYA" Continent.Af 37 48 ["5Y"; "5Z"] [cf ["5Z"] (OneOf [4]) (2, 3) 1] [] None None
     Activity.Uncommon Names.African ["NAIROBI"; "MOMBASA"];
   ent 456 "SENEGAL" Continent.Af 35 46 ["6V"; "6W"] [cf ["6W"] (OneOf [1; 7]) (2, 3) 1] [] None None
     Activity.Uncommon Names.French ["DAKAR"];
   ent 432 "LESOTHO" Continent.Af 38 57 ["7P"] [cf ["7P"] (OneOf [8]) (2, 3) 1] [] None None
     Activity.Uncommon Names.African ["MASERU"];
   ent 440 "MALAWI" Continent.Af 37 53 ["7Q"] [cf ["7Q"] (OneOf [7]) (2, 3) 1] [] None None
     Activity.Uncommon Names.African ["LILONGWE"]]%string.

Definition AFRICA_2 : list Entity :=
  [ent 400 "ALGERIA" Continent.Af 33 37 ["7R"; "7T"; "7U"; "7V"; "7W"; "7X"; "7Y"] [cf ["7X"] (OneOf [2;
     4]) (2, 3) 1] [] None None Activity.Uncommon Names.Arabic ["ALGER"; "ORAN"];
   ent 424 "GHANA" Continent.Af 35 46 ["9G"] [cf ["9G"] (OneOf [1; 5]) (2, 3) 1] [] None None
     Activity.Uncommon Names.African ["ACCRA"];
   ent 482 "ZAMBIA" Continent.Af 36 53 ["9I"; "9J"] [cf ["9J"] (OneOf [2]) (2, 3) 1] [] None None
     Activity.Uncommon Names.African ["LUSAKA"];
   ent 458 "SIERRA LEONE" Continent.Af 35 46 ["9L"] [cf ["9L"] (OneOf [1]) (2, 3) 1] [] None None
     Activity.Uncommon Names.African ["FREETOWN"];
   ent 414 "DR CONGO" Continent.Af 36 52 ["9O"; "9P"; "9Q"; "9R"; "9S"; "9T"] [cf ["9Q"] (OneOf D1_9) (2,
     3) 1] [] None None Activity.Uncommon Names.French ["KINSHASA"];
   ent 404 "BURUNDI" Continent.Af 36 52 ["9U"] [cf ["9U"] (OneOf [5]) (2, 3) 1] [] None None Activity.Rare
     Names.French ["BUJUMBURA"];
   ent 454 "RWANDA" Continent.Af 36 52 ["9X"] [cf ["9X"] (OneOf [0; 5]) (2, 3) 1] [] None None
     Activity.Uncommon Names.French ["KIGALI"];
   ent 402 "BOTSWANA" Continent.Af 38 57 ["A2"; "8O"] [cf ["A2"] (OneOf [2; 5]) (2, 3) 1] [] None None
     Activity.Uncommon Names.African ["GABORONE"];
   ent 422 "GAMBIA" Continent.Af 35 46 ["C5"] [cf ["C5"] InPrefix (2, 3) 1] [] None None Activity.Uncommon
     Names.African ["BANJUL"];
   ent 181 "MOZAMBIQUE" Continent.Af 37 53 ["C9"; "C8"] [cf ["C9"; "C8"] (OneOf [1]) (2, 3) 1] [] None None
     Activity.Uncommon Names.Lusophone ["MAPUTO"];
   ent 446 "MOROCCO" Continent.Af 33 37 ["CN"; "5C"; "5D"; "5E"; "5F"; "5G"] [cf ["CN"] (OneOf [2; 8]) (2,
     3) 1] [] None None Activity.Uncommon Names.Arabic ["RABAT"; "MARRAKECH"];
   ent 256 "MADEIRA" Continent.Af 33 36 ["CT3"; "CQ3"; "CR3"; "CS3"; "CT9"; "CQ9"; "CR9"; "CS9"] [cf
     ["CT3"; "CS3"] InPrefix (2, 3) 1] [] None None Activity.Uncommon Names.Iberian ["FUNCHAL"];
   ent 401 "ANGOLA" Continent.Af 36 52 ["D2"; "D3"] [cf ["D2"] (OneOf [2]) (2, 3) 1] [] None None
     Activity.Uncommon Names.Lusophone ["LUANDA"];
   ent 409 "CAPE VERDE" Continent.Af 35 46 ["D4"] [cf ["D4"] (OneOf [4]) (2, 3) 1] [] None None
     Activity.Uncommon Names.Lusophone ["PRAIA"];
   ent 411 "COMOROS" Continent.Af 39 53 ["D6"] [cf ["D6"] (OneOf [0]) (2, 3) 1] [] None None Activity.Rare
     Names.French ["MORONI"];
   ent 51 "ERITREA" Continent.Af 37 48 ["E3"] [cf ["E3"] (OneOf [0]) (2, 3) 1] [] None None Activity.Rare
     Names.African ["ASMARA"];
   ent 29 "CANARY IS" Continent.Af 33 36 ["EA8"; "EB8"; "EC8"; "ED8"; "EE8"; "EF8"; "EG8"; "EH8"; "AM8";
     "AN8"; "AO8"] [cf ["EA8"; "EB8"; "EC8"; "ED8"] InPrefix (2, 3) 1] [] None None Activity.Regular
     Names.Iberian ["LAS PALMAS"; "TENERIFE"];
   ent 32 "CEUTA MELILLA" Continent.Af 33 37 ["EA9"; "EB9"; "EC9"; "ED9"; "EE9"; "EF9"; "EG9"; "EH9";
     "AM9"; "AN9"; "AO9"] [cf ["EA9"; "EB9"] InPrefix (2, 3) 1] [] None None Activity.Uncommon
     Names.Iberian ["CEUTA"; "MELILLA"];
   ent 434 "LIBERIA" Continent.Af 35 46 ["EL"; "5L"; "5M"; "6Z"; "A8"; "D5"] [cf ["EL"] (OneOf [2]) (2, 3)
     1] [] None None Activity.Uncommon Names.African ["MONROVIA"];
   ent 53 "ETHIOPIA" Continent.Af 37 48 ["ET"; "9E"; "9F"] [cf ["ET"] (OneOf [3]) (2, 3) 1] [] None None
     Activity.Uncommon Names.African ["ADDIS ABABA"];
   ent 169 "MAYOTTE" Continent.Af 39 53 ["FH"] [cf ["FH"] (OneOf [4]) (2, 3) 1] [] None None
     Activity.Uncommon Names.French ["MAMOUDZOU"]]%string.

Definition AFRICA_3 : list Entity :=
  [ent 453 "REUNION" Continent.Af 39 53 ["FR"] [cf ["FR"] (OneOf [4; 5]) (2, 3) 1] [] None None
     Activity.Uncommon Names.French ["ST DENIS"];
   ent 99 "GLORIOSO IS" Continent.Af 39 53 ["FT0G"; "FT1G"; "FT2G"; "FT3G"; "FT4G"; "FT5G"; "FT6G"; "FT7G";
     "FT8G"; "FT9G"] [cf ["FT4G"; "FT5G"] InPrefix (1, 2) 1] [] None None Activity.Rare Names.Expedition
     ["GLORIEUSE"];
   ent 124 "JUAN DE NOVA" Continent.Af 39 53 ["FT0J"; "FT1J"; "FT2J"; "FT3J"; "FT4J"; "FT5J"; "FT6J";
     "FT7J"; "FT8J"; "FT9J"; "FT0E"; "FT1E"; "FT2E"; "FT3E"; "FT4E"; "FT5E"; "FT6E"; "FT7E"; "FT8E";
     "FT9E"] [cf ["FT4J"; "FT5J"; "FT4E"] InPrefix (1, 2) 1] [] None None Activity.Rare Names.Expedition
     ["JUAN DE NOVA"; "EUROPA"];
   ent 276 "TROMELIN" Continent.Af 39 53 ["FT0T"; "FT1T"; "FT2T"; "FT3T"; "FT4T"; "FT5T"; "FT6T"; "FT7T";
     "FT8T"; "FT9T"] [cf ["FT4T"; "FT5T"] InPrefix (1, 2) 1] [] None None Activity.Rare Names.Expedition
     ["TROMELIN"];
   ent 41 "CROZET" Continent.Af 39 68 ["FT0W"; "FT1W"; "FT2W"; "FT3W"; "FT4W"; "FT5W"; "FT6W"; "FT7W";
     "FT8W"; "FT9W"] [cf ["FT4W"; "FT5W"] InPrefix (1, 2) 1] [] None None Activity.Rare Names.Expedition
     ["ALFRED FAURE"];
   ent 131 "KERGUELEN" Continent.Af 39 68 ["FT0X"; "FT1X"; "FT2X"; "FT3X"; "FT4X"; "FT5X"; "FT6X"; "FT7X";
     "FT8X"; "FT9X"] [cf ["FT4X"; "FT5X"] InPrefix (1, 2) 1] [] None None Activity.Rare Names.Expedition
     ["PORT AUX FRANCAIS"];
   ent 10 "AMSTERDAM ST PAUL" Continent.Af 39 68 ["FT0Z"; "FT1Z"; "FT2Z"; "FT3Z"; "FT4Z"; "FT5Z"; "FT6Z";
     "FT7Z"; "FT8Z"; "FT9Z"] [cf ["FT4Z"; "FT5Z"] InPrefix (1, 2) 1] [] None None Activity.Rare
     Names.Expedition ["MARTIN DE VIVIES"];
   ent 382 "DJIBOUTI" Continent.Af 37 48 ["J2"] [cf ["J2"] (OneOf [8]) (2, 3) 1] [] None None
     Activity.Uncommon Names.French ["DJIBOUTI"];
   ent 109 "GUINEA BISSAU" Continent.Af 35 46 ["J5"] [cf ["J5"] InPrefix (2, 3) 1] [] None None
     Activity.Uncommon Names.Lusophone ["BISSAU"];
   ent 302 "WESTERN SAHARA" Continent.Af 33 46 ["S0"] [cf ["S0"] (OneOf [1]) (2, 3) 1] [] None None
     Activity.Rare Names.Arabic ["LAAYOUNE"];
   ent 379 "SEYCHELLES" Continent.Af 39 53 ["S7"] [cf ["S7"] (OneOf [9]) (2, 3) 1] [] None None
     Activity.Uncommon Names.African ["VICTORIA"];
   ent 219 "SAO TOME" Continent.Af 36 47 ["S9"] [cf ["S9"] (OneOf [2]) (2, 3) 1] [] None None
     Activity.Uncommon Names.Lusophone ["SAO TOME"];
   ent 466 "SUDAN" Continent.Af 34 48 ["ST"; "6T"; "6U"] [cf ["ST"] (OneOf [2]) (2, 3) 1] [] None None
     Activity.Uncommon Names.Arabic ["KHARTOUM"];
   ent 478 "EGYPT" Continent.Af 34 38 ["SU"; "SS"; "6A"; "6B"] [cf ["SU"] (OneOf D1_9) (2, 3) 1] [] None
     None Activity.Uncommon Names.Arabic ["CAIRO"; "ALEXANDRIA"];
   ent 232 "SOMALIA" Continent.Af 37 48 ["T5"; "6O"] [cf ["T5"] (OneOf [5]) (2, 3) 1] [] None None
     Activity.Rare Names.Arabic ["MOGADISHU"];
   ent 406 "CAMEROON" Continent.Af 36 47 ["TJ"] [cf ["TJ"] (OneOf [3]) (2, 3) 1] [] None None
     Activity.Uncommon Names.French ["YAOUNDE"; "DOUALA"];
   ent 408 "CENTRAL AFRICAN REP" Continent.Af 36 47 ["TL"] [cf ["TL"] (OneOf [8]) (2, 3) 1] [] None None
     Activity.Rare Names.French ["BANGUI"];
   ent 412 "CONGO" Continent.Af 36 52 ["TN"] [cf ["TN"] (OneOf [5]) (2, 3) 1] [] None None
     Activity.Uncommon Names.French ["BRAZZAVILLE"];
   ent 420 "GABON" Continent.Af 36 52 ["TR"] [cf ["TR"] (OneOf [8]) (2, 3) 1] [] None None
     Activity.Uncommon Names.French ["LIBREVILLE"];
   ent 410 "CHAD" Continent.Af 36 47 ["TT"] [cf ["TT"] (OneOf [8]) (2, 3) 1] [] None None Activity.Rare
     Names.French ["NDJAMENA"];
   ent 428 "COTE DIVOIRE" Continent.Af 35 46 ["TU"] [cf ["TU"] (OneOf [2; 5]) (2, 3) 1] [] None None
     Activity.Uncommon Names.French ["ABIDJAN"]]%string.

Definition AFRICA_4 : list Entity :=
  [ent 416 "BENIN" Continent.Af 35 46 ["TY"] [cf ["TY"] (OneOf [1; 2]) (2, 3) 1] [] None None
     Activity.Uncommon Names.French ["COTONOU"];
   ent 442 "MALI" Continent.Af 35 46 ["TZ"] [cf ["TZ"] (OneOf [4; 6]) (2, 3) 1] [] None None
     Activity.Uncommon Names.French ["BAMAKO"];
   ent 464 "NAMIBIA" Continent.Af 38 57 ["V5"] [cf ["V5"] (OneOf [1]) (2, 3) 1] [] None None
     Activity.Uncommon Names.African ["WINDHOEK"];
   ent 33 "CHAGOS IS" Continent.Af 39 41 ["VQ9"] [cf ["VQ9"] InPrefix (2, 2) 1] [] None None Activity.Rare
     Names.Anglo ["DIEGO GARCIA"];
   ent 480 "BURKINA FASO" Continent.Af 35 46 ["XT"] [cf ["XT"] (OneOf [2]) (2, 3) 1] [] None None
     Activity.Uncommon Names.French ["OUAGADOUGOU"];
   ent 452 "ZIMBABWE" Continent.Af 38 53 ["Z2"] [cf ["Z2"] (OneOf [1]) (2, 3) 1] [] None None
     Activity.Uncommon Names.African ["HARARE"; "BULAWAYO"];
   ent 521 "SOUTH SUDAN" Continent.Af 34 48 ["Z8"] [cf ["Z8"] (OneOf [1]) (2, 3) 1] [] None None
     Activity.Rare Names.African ["JUBA"];
   ent 250 "ST HELENA" Continent.Af 36 66 ["ZD7"] [cf ["ZD7"] InPrefix (2, 3) 1] [] None None
     Activity.Uncommon Names.Anglo ["JAMESTOWN"];
   ent 205 "ASCENSION IS" Continent.Af 36 66 ["ZD8"] [cf ["ZD8"] InPrefix (2, 3) 1] [] None None
     Activity.Uncommon Names.Anglo ["GEORGETOWN"];
   ent 274 "TRISTAN DA CUNHA" Continent.Af 38 66 ["ZD9"] [cf ["ZD9"] InPrefix (2, 3) 1] [] None None
     Activity.Rare Names.Anglo ["EDINBURGH"];
   ent 462 "SOUTH AFRICA" Continent.Af 38 57 ["ZS"; "ZR"; "ZT"; "ZU"; "S8"] [cf ["ZS"; "ZR"] (OneOf [1; 2;
     3; 4; 5; 6]) (2, 3) 1] [] None None Activity.Regular Names.Anglo ["DURBAN"; "PRETORIA"];
   ent 201 "PRINCE EDWARD MARION" Continent.Af 38 57 ["ZS8"; "ZR8"; "ZT8"; "ZU8"] [cf ["ZS8"] InPrefix (2,
     3) 1] [] None None Activity.Rare Names.Expedition ["MARION IS"];
   ent 111 "HEARD IS" Continent.Af 39 68 ["VK0"] [cf ["VK0"] InPrefix (2, 3) 1] [] (Some "H") None
     Activity.Rare Names.Expedition ["ATLAS COVE"]]%string.

Definition ASIA_1 : list Entity :=
  [ent 318 "CHINA" Continent.As 24 44 ["B"; "XS"; "3H"; "3I"; "3J"; "3K"; "3L"; "3M"; "3N"; "3O"; "3P";
     "3Q"; "3R"; "3S"; "3T"; "3U"] [cf ["BA"; "BD"; "BG"; "BH"; "BI"; "BY"] FromRegion (2, 3) 1] [rg 1 []
     24 44 4 [("BEIJING", ["BEIJING"])]; rg 2 [] 24 33 4 [("NORTHEAST", ["HARBIN"; "SHENYANG";
     "CHANGCHUN"])]; rg 3 [] 24 44 4 [("NORTH", ["TIANJIN"; "SHIJIAZHUANG"; "TAIYUAN"])]; rg 4 [] 24 44 8
     [("EAST", ["SHANGHAI"; "NANJING"; "JINAN"])]; rg 5 [] 24 44 6 [("SOUTHEAST", ["HANGZHOU"; "FUZHOU";
     "NANCHANG"])]; rg 6 [] 24 44 6 [("CENTRAL", ["WUHAN"; "ZHENGZHOU"; "HEFEI"])]; rg 7 [] 24 44 8
     [("SOUTH", ["GUANGZHOU"; "CHANGSHA"; "NANNING"])]; rg 8 [] 24 43 5 [("SOUTHWEST", ["CHENGDU";
     "CHONGQING"; "KUNMING"])]; rg 9 [] 23 43 3 [("NORTHWEST", ["LANZHOU"; "XINING"; "YINCHUAN"])]; rg 0 []
     23 42 2 [("WEST", ["URUMQI"; "LHASA"])]] None None Activity.Regular Names.Chinese ["BEIJING";
     "SHANGHAI"; "CHENGDU"];
   ent 386 "TAIWAN" Continent.As 24 44 ["BV"; "BX"; "BM"; "BN"; "BO"; "BP"; "BQ"; "BU"; "BW"] [cf ["BV";
     "BX"; "BM"; "BN"] (OneOf [0; 1; 2; 3; 4; 5; 6; 7; 8]) (2, 3) 1] [] None None Activity.Regular
     Names.Chinese ["TAIPEI"; "TAICHUNG"];
   ent 505 "PRATAS IS" Continent.As 24 44 ["BV9P"] [cf ["BV9P"] InPrefix (1, 2) 1] [] None None
     Activity.Rare Names.Chinese ["PRATAS"];
   ent 506 "SCARBOROUGH REEF" Continent.As 27 50 ["BS7H"] [cf ["BS7H"] InPrefix (0, 1) 1] [] None None
     Activity.Rare Names.Chinese ["HUANGYAN"];
   ent 339 "JAPAN" Continent.As 25 45 ["JA"; "JB"; "JC"; "JD"; "JE"; "JF"; "JG"; "JH"; "JI"; "JJ"; "JK";
     "JL"; "JM"; "JN"; "JO"; "JP"; "JQ"; "JR"; "JS"; "7J"; "7K"; "7L"; "7M"; "7N"; "8J"; "8K"; "8L"; "8M";
     "8N"] [cf ["JA"; "JE"; "JF"; "JG"; "JH"; "JI"; "JJ"; "JK"; "JL"; "JM"; "JN"; "JO"; "JP"; "JQ"; "JR"]
     FromRegion (3, 3) 8; cf ["JA"] FromRegion (2, 2) 1] [rg 1 [] 25 45 30 [("KANTO", ["TOKYO"; "YOKOHAMA";
     "CHIBA"])]; rg 2 [] 25 45 10 [("TOKAI", ["NAGOYA"; "SHIZUOKA"])]; rg 3 [] 25 45 12 [("KANSAI",
     ["OSAKA"; "KYOTO"; "KOBE"])]; rg 4 [] 25 45 5 [("CHUGOKU", ["HIROSHIMA"; "OKAYAMA"])]; rg 5 [] 25 45 3
     [("SHIKOKU", ["MATSUYAMA"; "TAKAMATSU"])]; rg 6 [] 25 45 6 [("KYUSHU", ["FUKUOKA"; "KAGOSHIMA";
     "NAHA"])]; rg 7 [] 25 45 5 [("TOHOKU", ["SENDAI"; "AOMORI"])]; rg 8 [] 25 45 4 [("HOKKAIDO",
     ["SAPPORO"; "HAKODATE"])]; rg 9 [] 25 45 2 [("HOKURIKU", ["KANAZAWA"; "TOYAMA"])]; rg 0 [] 25 45 3
     [("SHINETSU", ["NAGANO"; "NIIGATA"])]] None (Some "JP") Activity.Common Names.Japanese ["TOKYO";
     "OSAKA"; "SAPPORO"];
   ent 192 "OGASAWARA" Continent.As 27 45 ["JD1"] [cf ["JD1"] InPrefix (2, 3) 1] [] None None
     Activity.Uncommon Names.Japanese ["CHICHIJIMA"];
   ent 363 "MONGOLIA" Continent.As 23 32 ["JT"; "JU"; "JV"] [cf ["JT"] (OneOf [1; 2; 3]) (2, 3) 1] [] None
     None Activity.Uncommon Names.Mongol ["ULAANBAATAR"];
   ent 137 "SOUTH KOREA" Continent.As 25 44 ["HL"; "DS"; "DT"; "6K"; "6L"; "6M"; "6N"] [cf ["HL"; "DS";
     "6K"] (OneOf [1; 2; 3; 4; 5]) (2, 3) 1] [] None None Activity.Regular Names.Korean ["SEOUL"; "BUSAN"];
   ent 344 "NORTH KOREA" Continent.As 25 44 ["P5"] [cf ["P5"] (OneOf D0_9) (2, 3) 1] [] None None
     Activity.Rare Names.Korean ["PYONGYANG"];
   ent 321 "HONG KONG" Continent.As 24 44 ["VR2"] [cf ["VR2"] InPrefix (2, 3) 1] [] None None
     Activity.Uncommon Names.Chinese ["KOWLOON"];
   ent 152 "MACAO" Continent.As 24 44 ["XX9"] [cf ["XX9"] InPrefix (2, 3) 1] [] None None Activity.Uncommon
     Names.Chinese ["MACAO"];
   ent 387 "THAILAND" Continent.As 26 49 ["HS"; "E2"] [cf ["HS"; "E2"] (OneOf D0_9) (2, 3) 1] [] None None
     Activity.Regular Names.SeAsian ["BANGKOK"; "CHIANG MAI"];
   ent 293 "VIETNAM" Continent.As 26 49 ["3W"; "XV"] [cf ["3W"; "XV"] (OneOf D1_9) (2, 3) 1] [] None None
     Activity.Uncommon Names.SeAsian ["HANOI"; "SAIGON"];
   ent 143 "LAOS" Continent.As 26 49 ["XW"] [cf ["XW"] (OneOf D0_9) (2, 3) 1] [] None None
     Activity.Uncommon Names.SeAsian ["VIENTIANE"];
   ent 312 "CAMBODIA" Continent.As 26 49 ["XU7"] [cf ["XU7"] InPrefix (2, 3) 1] [] None None
     Activity.Uncommon Names.SeAsian ["PHNOM PENH"];
   ent 309 "MYANMAR" Continent.As 26 49 ["XY"; "XZ"] [cf ["XZ"] (OneOf D1_9) (2, 3) 1] [] None None
     Activity.Uncommon Names.SeAsian ["YANGON"]]%string.

Definition ASIA_2 : list Entity :=
  [ent 299 "WEST MALAYSIA" Continent.As 28 54 ["9M2"; "9M4"; "9W2"] [cf ["9M2"; "9M4"; "9W2"] InPrefix (2,
     3) 1] [] None None Activity.Uncommon Names.SeAsian ["KUALA LUMPUR"; "PENANG"];
   ent 381 "SINGAPORE" Continent.As 28 54 ["9V"; "S6"] [cf ["9V1"] InPrefix (2, 3) 1] [] None None
     Activity.Uncommon Names.Chinese ["SINGAPORE"];
   ent 247 "SPRATLY IS" Continent.As 26 50 ["9M0"; "1S"; "BV9S"; "DX0"] [cf ["9M0"; "1S0"] InPrefix (2, 3)
     1] [] None None Activity.Rare Names.SeAsian ["SPRATLY"];
   ent 324 "INDIA" Continent.As 22 41 ["VU"; "AT"; "AU"; "AV"; "AW"; "8T"; "8U"; "8V"; "8W"; "8X"; "8Y"]
     [cf ["VU"] (OneOf [2; 3]) (2, 3) 1] [] None None Activity.Regular Names.Indian ["DELHI"; "MUMBAI";
     "CHENNAI"];
   ent 11 "ANDAMAN NICOBAR" Continent.As 26 49 ["VU4"] [cf ["VU4"] InPrefix (2, 3) 1] [] None None
     Activity.Rare Names.Indian ["PORT BLAIR"];
   ent 142 "LAKSHADWEEP" Continent.As 22 41 ["VU7"] [cf ["VU7"] InPrefix (2, 3) 1] [] None None
     Activity.Rare Names.Indian ["KAVARATTI"];
   ent 315 "SRI LANKA" Continent.As 22 41 ["4P"; "4Q"; "4R"; "4S"] [cf ["4S7"] InPrefix (2, 3) 1] [] None
     None Activity.Uncommon Names.Indian ["COLOMBO"; "KANDY"];
   ent 159 "MALDIVES" Continent.As 22 41 ["8Q7"] [cf ["8Q7"] InPrefix (2, 3) 1] [] None None
     Activity.Uncommon Names.Indian ["MALE"];
   ent 369 "NEPAL" Continent.As 22 42 ["9N1"; "9N7"] [cf ["9N1"; "9N7"] InPrefix (2, 3) 1] [] None None
     Activity.Uncommon Names.Indian ["KATHMANDU"];
   ent 306 "BHUTAN" Continent.As 22 41 ["A51"] [cf ["A51"] InPrefix (2, 3) 1] [] None None Activity.Rare
     Names.Indian ["THIMPHU"];
   ent 305 "BANGLADESH" Continent.As 22 41 ["S2"; "S3"] [cf ["S21"] InPrefix (2, 3) 1] [] None None
     Activity.Uncommon Names.Indian ["DHAKA"];
   ent 372 "PAKISTAN" Continent.As 21 41 ["AP"; "AQ"; "AR"; "AS"; "6P"; "6Q"; "6R"; "6S"] [cf ["AP"] (OneOf
     [2]) (2, 3) 1] [] None None Activity.Uncommon Names.Indian ["KARACHI"; "LAHORE"];
   ent 3 "AFGHANISTAN" Continent.As 21 40 ["YA"; "T6"] [cf ["YA"; "T6"] (OneOf D1_9) (2, 3) 1] [] None None
     Activity.Rare Names.Persian ["KABUL"];
   ent 330 "IRAN" Continent.As 21 40 ["EP"; "EQ"; "9B"; "9C"; "9D"] [cf ["EP"] (OneOf D1_9) (2, 3) 1] []
     None None Activity.Uncommon Names.Persian ["TEHRAN"; "SHIRAZ"];
   ent 333 "IRAQ" Continent.As 21 39 ["YI"; "HN"] [cf ["YI"] (OneOf D1_9) (2, 3) 1] [] None None
     Activity.Rare Names.Arabic ["BAGHDAD"; "ERBIL"];
   ent 384 "SYRIA" Continent.As 20 39 ["YK"; "6C"] [cf ["YK"] (OneOf D1_9) (2, 3) 1] [] None None
     Activity.Rare Names.Arabic ["DAMASCUS"];
   ent 354 "LEBANON" Continent.As 20 39 ["OD5"] [cf ["OD5"] InPrefix (2, 3) 1] [] None None
     Activity.Uncommon Names.Arabic ["BEIRUT"];
   ent 336 "ISRAEL" Continent.As 20 39 ["4X"; "4Z"] [cf ["4X"; "4Z"] (OneOf [1; 2; 3; 4; 5; 6]) (2, 3) 1]
     [] None None Activity.Regular Names.Hebrew ["TEL AVIV"; "HAIFA"];
   ent 510 "PALESTINE" Continent.As 20 39 ["E4"] [cf ["E4"] (OneOf D0_9) (2, 3) 1] [] None None
     Activity.Uncommon Names.Arabic ["RAMALLAH"; "GAZA"];
   ent 342 "JORDAN" Continent.As 20 39 ["JY"] [cf ["JY"] (OneOf D1_9) (2, 3) 1] [] None None
     Activity.Uncommon Names.Arabic ["AMMAN"; "AQABA"];
   ent 378 "SAUDI ARABIA" Continent.As 21 39 ["HZ"; "7Z"; "8Z"] [cf ["HZ"; "7Z"] (OneOf D1_9) (2, 3) 1] []
     None None Activity.Uncommon Names.Arabic ["RIYADH"; "JEDDAH"]]%string.

Definition ASIA_3 : list Entity :=
  [ent 348 "KUWAIT" Continent.As 21 39 ["9K2"] [cf ["9K2"] InPrefix (2, 3) 1] [] None None
     Activity.Uncommon Names.Arabic ["KUWAIT"];
   ent 304 "BAHRAIN" Continent.As 21 39 ["A9"] [cf ["A92"] InPrefix (2, 3) 1] [] None None
     Activity.Uncommon Names.Arabic ["MANAMA"];
   ent 376 "QATAR" Continent.As 21 39 ["A7"] [cf ["A7"] (OneOf D1_9) (2, 3) 1] [] None None
     Activity.Uncommon Names.Arabic ["DOHA"];
   ent 391 "UAE" Continent.As 21 39 ["A6"] [cf ["A6"] (OneOf D1_9) (2, 3) 1] [] None None Activity.Uncommon
     Names.Arabic ["DUBAI"; "ABU DHABI"];
   ent 370 "OMAN" Continent.As 21 39 ["A4"] [cf ["A4"] (OneOf D1_9) (2, 3) 1] [] None None
     Activity.Uncommon Names.Arabic ["MUSCAT"];
   ent 492 "YEMEN" Continent.As 21 39 ["7O"] [cf ["7O"] (OneOf D0_9) (2, 3) 1] [] None None Activity.Rare
     Names.Arabic ["SANAA"; "ADEN"];
   ent 215 "CYPRUS" Continent.As 20 39 ["5B"; "C4"; "H2"; "P3"] [cf ["5B"] (OneOf [4]) (2, 3) 1] [] None
     None Activity.Uncommon Names.Greek ["NICOSIA"; "LIMASSOL"];
   ent 283 "UK BASES CYPRUS" Continent.As 20 39 ["ZC4"] [cf ["ZC4"] InPrefix (2, 3) 1] [] None None
     Activity.Uncommon Names.Anglo ["EPISKOPI"];
   ent 14 "ARMENIA" Continent.As 21 29 ["EK"] [cf ["EK"] (OneOf [6]) (2, 3) 1] [] None None
     Activity.Uncommon Names.Caucasus ["YEREVAN"];
   ent 75 "GEORGIA" Continent.As 21 29 ["4L"] [cf ["4L"] (OneOf D1_9) (2, 3) 1] [] None None
     Activity.Uncommon Names.Caucasus ["TBILISI"];
   ent 18 "AZERBAIJAN" Continent.As 21 29 ["4J"; "4K"] [cf ["4J"; "4K"] (OneOf D1_9) (2, 3) 1] [] None None
     Activity.Uncommon Names.Turkish ["BAKU"];
   ent 292 "UZBEKISTAN" Continent.As 17 30 ["UJ"; "UK"; "UL"; "UM"] [cf ["UK"] (OneOf [8]) (2, 3) 1] []
     None None Activity.Uncommon Names.EastSlavic ["TASHKENT"; "SAMARKAND"];
   ent 130 "KAZAKHSTAN" Continent.As 17 30 ["UN"; "UO"; "UP"; "UQ"] [cf ["UN"] (OneOf [6; 7; 8; 9]) (2, 3)
     1] [] None None Activity.Regular Names.EastSlavic ["ALMATY"; "ASTANA"];
   ent 135 "KYRGYZSTAN" Continent.As 17 31 ["EX"] [cf ["EX"] (OneOf [0; 2; 8]) (2, 3) 1] [] None None
     Activity.Uncommon Names.EastSlavic ["BISHKEK"];
   ent 262 "TAJIKISTAN" Continent.As 17 30 ["EY"] [cf ["EY"] (OneOf [8]) (2, 3) 1] [] None None
     Activity.Uncommon Names.EastSlavic ["DUSHANBE"];
   ent 280 "TURKMENISTAN" Continent.As 17 30 ["EZ"] [cf ["EZ"] (OneOf [8]) (2, 3) 1] [] None None
     Activity.Uncommon Names.EastSlavic ["ASHGABAT"];
   ent 15 "ASIATIC RUSSIA" Continent.As 17 30 ["R8"; "R9"; "R0"; "RA8"; "RA9"; "RA0"; "RB8"; "RB9"; "RB0";
     "RC8"; "RC9"; "RC0"; "RD8"; "RD9"; "RD0"; "RE8"; "RE9"; "RE0"; "RF8"; "RF9"; "RF0"; "RG8"; "RG9";
     "RG0"; "RH8"; "RH9"; "RH0"; "RI8"; "RI9"; "RI0"; "RJ8"; "RJ9"; "RJ0"; "RK8"; "RK9"; "RK0"; "RL8";
     "RL9"; "RL0"; "RM8"; "RM9"; "RM0"; "RN8"; "RN9"; "RN0"; "RO8"; "RO9"; "RO0"; "RP8"; "RP9"; "RP0";
     "RQ8"; "RQ9"; "RQ0"; "RR8"; "RR9"; "RR0"; "RS8"; "RS9"; "RS0"; "RT8"; "RT9"; "RT0"; "RU8"; "RU9";
     "RU0"; "RV8"; "RV9"; "RV0"; "RW8"; "RW9"; "RW0"; "RX8"; "RX9"; "RX0"; "RY8"; "RY9"; "RY0"; "RZ8";
     "RZ9"; "RZ0"; "UA8"; "UA9"; "UA0"; "UB8"; "UB9"; "UB0"; "UC8"; "UC9"; "UC0"; "UD8"; "UD9"; "UD0";
     "UE8"; "UE9"; "UE0"; "UF8"; "UF9"; "UF0"; "UG8"; "UG9"; "UG0"; "UH8"; "UH9"; "UH0"; "UI8"; "UI9";
     "UI0"] [cf ["UA"; "RA"; "RW"; "RV"; "RU"; "RX"; "RZ"; "R"; "UB"] FromRegion (2, 3) 1] [rg 9 [] 17 30
     20 [("URAL", ["YEKATERINBURG"; "CHELYABINSK"; "PERM"])]; rg 8 [] 18 31 5 [("SIBERIA", ["NOVOSIBIRSK";
     "TOMSK"; "BARNAUL"])]; rg 0 [] 19 34 8 [("FAR EAST", ["VLADIVOSTOK"; "KHABAROVSK"])]] None None
     Activity.Regular Names.EastSlavic ["NOVOSIBIRSK"; "OMSK"; "VLADIVOSTOK"]]%string.

Definition OCEANIA_1 : list Entity :=
  [ent 150 "AUSTRALIA" Continent.Oc 30 59 ["VK"; "AX"; "VH"; "VI"; "VJ"; "VL"; "VM"; "VN"; "VZ"] [cf ["VK"]
     FromRegion (2, 3) 1] [rg 1 [] 30 59 3 [("CAPITAL TERRITORY", ["CANBERRA"])]; rg 2 [] 30 59 25
     [("NEW SOUTH WALES", ["SYDNEY"; "NEWCASTLE"])]; rg 3 [] 30 59 25 [("VICTORIA", ["MELBOURNE";
     "GEELONG"])]; rg 4 [] 30 55 15 [("QUEENSLAND", ["BRISBANE"; "CAIRNS"])]; rg 5 [] 30 58 8
     [("SOUTH AUSTRALIA", ["ADELAIDE"])]; rg 6 [] 29 58 10 [("WESTERN AUSTRALIA", ["PERTH"; "BUNBURY"])];
     rg 7 [] 30 59 4 [("TASMANIA", ["HOBART"; "LAUNCESTON"])]; rg 8 [] 29 55 2 [("NORTHERN TERRITORY",
     ["DARWIN"; "ALICE SPRINGS"])]] None (Some "AU") Activity.Regular Names.Anglo ["SYDNEY"; "PERTH";
     "HOBART"];
   ent 38 "COCOS KEELING" Continent.Oc 29 54 ["VK9C"] [cf ["VK9C"] InPrefix (2, 2) 1] [] None None
     Activity.Uncommon Names.Anglo ["WEST IS"];
   ent 147 "LORD HOWE IS" Continent.Oc 30 60 ["VK9L"] [cf ["VK9L"] InPrefix (2, 2) 1] [] None None
     Activity.Uncommon Names.Anglo ["LORD HOWE"];
   ent 171 "MELLISH REEF" Continent.Oc 30 56 ["VK9M"] [cf ["VK9M"] InPrefix (2, 2) 1] [] None None
     Activity.Rare Names.Expedition ["MELLISH REEF"];
   ent 189 "NORFOLK IS" Continent.Oc 32 60 ["VK9N"] [cf ["VK9N"] InPrefix (2, 2) 1] [] None None
     Activity.Uncommon Names.Anglo ["KINGSTON"];
   ent 303 "WILLIS IS" Continent.Oc 30 55 ["VK9W"] [cf ["VK9W"] InPrefix (2, 2) 1] [] None None
     Activity.Rare Names.Expedition ["WILLIS IS"];
   ent 35 "CHRISTMAS IS" Continent.Oc 29 54 ["VK9X"] [cf ["VK9X"] InPrefix (2, 2) 1] [] None None
     Activity.Uncommon Names.Anglo ["FLYING FISH COVE"];
   ent 153 "MACQUARIE IS" Continent.Oc 30 60 ["VK0"] [cf ["VK0"] InPrefix (2, 3) 1] [] (Some "M") None
     Activity.Rare Names.Expedition ["MACQUARIE"];
   ent 170 "NEW ZEALAND" Continent.Oc 32 60 ["ZL"; "ZK"; "ZM"] [cf ["ZL"; "ZM"] FromRegion (2, 3) 1] [rg 1
     [] 32 60 10 [("AUCKLAND", ["AUCKLAND"; "WHANGAREI"])]; rg 2 [] 32 60 8 [("WELLINGTON", ["WELLINGTON";
     "NAPIER"])]; rg 3 [] 32 60 6 [("CANTERBURY", ["CHRISTCHURCH"; "NELSON"])]; rg 4 [] 32 60 4 [("OTAGO",
     ["DUNEDIN"; "INVERCARGILL"])]] None None Activity.Regular Names.Anglo ["AUCKLAND"; "NELSON"];
   ent 34 "CHATHAM IS" Continent.Oc 32 60 ["ZL7"; "ZM7"] [cf ["ZL7"; "ZM7"] InPrefix (2, 3) 1] [] None None
     Activity.Uncommon Names.Anglo ["WAITANGI"];
   ent 133 "KERMADEC IS" Continent.Oc 32 60 ["ZL8"; "ZM8"] [cf ["ZL8"; "ZM8"] InPrefix (2, 3) 1] [] None
     None Activity.Rare Names.Anglo ["RAOUL IS"];
   ent 16 "NZ SUBANTARCTIC" Continent.Oc 32 60 ["ZL9"; "ZM9"] [cf ["ZL9"; "ZM9"] InPrefix (2, 3) 1] [] None
     None Activity.Rare Names.Anglo ["CAMPBELL IS"];
   ent 270 "TOKELAU" Continent.Oc 31 62 ["ZK3"] [cf ["ZK3"] InPrefix (2, 3) 1] [] None None Activity.Rare
     Names.Anglo ["FAKAOFO"];
   ent 176 "FIJI" Continent.Oc 32 56 ["3D2"] [cf ["3D2"] InPrefix (2, 3) 1] [] None None Activity.Uncommon
     Names.Anglo ["SUVA"; "NADI"];
   ent 460 "ROTUMA" Continent.Oc 32 56 ["3D2"] [cf ["3D2"] InPrefix (2, 3) 1] [] (Some "R") None
     Activity.Rare Names.Expedition ["AHAU"];
   ent 489 "CONWAY REEF" Continent.Oc 32 56 ["3D2"] [cf ["3D2"] InPrefix (2, 3) 1] [] (Some "C") None
     Activity.Rare Names.Expedition ["CEVA I RA"];
   ent 160 "TONGA" Continent.Oc 32 62 ["A3"] [cf ["A3"] (OneOf [5]) (2, 3) 1] [] None None
     Activity.Uncommon Names.Anglo ["NUKUALOFA"];
   ent 190 "SAMOA" Continent.Oc 32 62 ["5W"] [cf ["5W"] (OneOf [0; 1]) (2, 3) 1] [] None None
     Activity.Uncommon Names.Anglo ["APIA"];
   ent 234 "SOUTH COOK IS" Continent.Oc 32 62 ["E51"] [cf ["E51"] InPrefix (2, 3) 1] [] None None
     Activity.Uncommon Names.Anglo ["RAROTONGA"]]%string.

Definition OCEANIA_2 : list Entity :=
  [ent 191 "NORTH COOK IS" Continent.Oc 32 62 ["E51"] [cf ["E51"] InPrefix (2, 3) 1] [] (Some "N") None
     Activity.Rare Names.Anglo ["MANIHIKI"];
   ent 188 "NIUE" Continent.Oc 32 62 ["E6"] [cf ["E6"] InPrefix (2, 2) 1] [] None None Activity.Uncommon
     Names.Anglo ["ALOFI"];
   ent 298 "WALLIS FUTUNA" Continent.Oc 32 62 ["FW"] [cf ["FW"] (OneOf [1; 5]) (2, 3) 1] [] None None
     Activity.Uncommon Names.French ["MATA UTU"];
   ent 175 "FRENCH POLYNESIA" Continent.Oc 32 63 ["FO"] [cf ["FO"] (OneOf [5]) (2, 3) 1] [] None None
     Activity.Uncommon Names.French ["PAPEETE"];
   ent 508 "AUSTRAL IS" Continent.Oc 32 63 ["FO"] [cf ["FO"] (OneOf [0]) (2, 3) 1] [] (Some "A") None
     Activity.Rare Names.French ["TUBUAI"];
   ent 509 "MARQUESAS IS" Continent.Oc 31 63 ["FO"] [cf ["FO"] (OneOf [0]) (2, 3) 1] [] (Some "M") None
     Activity.Uncommon Names.French ["NUKU HIVA"];
   ent 162 "NEW CALEDONIA" Continent.Oc 32 56 ["FK"] [cf ["FK"] (OneOf [8]) (2, 3) 1] [] None None
     Activity.Uncommon Names.French ["NOUMEA"];
   ent 512 "CHESTERFIELD IS" Continent.Oc 30 56 ["FK"] [cf ["FK"] (OneOf [8]) (2, 3) 1] [] (Some "C") None
     Activity.Rare Names.Expedition ["CHESTERFIELD"];
   ent 172 "PITCAIRN IS" Continent.Oc 32 63 ["VP6"] [cf ["VP6"] InPrefix (2, 2) 1] [] None None
     Activity.Rare Names.Anglo ["ADAMSTOWN"];
   ent 513 "DUCIE IS" Continent.Oc 32 63 ["VP6"] [cf ["VP6"] InPrefix (2, 2) 1] [] (Some "D") None
     Activity.Rare Names.Expedition ["DUCIE"];
   ent 158 "VANUATU" Continent.Oc 32 56 ["YJ"] [cf ["YJ"] (OneOf [0]) (2, 3) 1] [] None None
     Activity.Uncommon Names.Anglo ["PORT VILA"];
   ent 185 "SOLOMON IS" Continent.Oc 28 51 ["H4"] [cf ["H44"] InPrefix (2, 3) 1] [] None None
     Activity.Uncommon Names.Anglo ["HONIARA"];
   ent 507 "TEMOTU" Continent.Oc 32 51 ["H40"] [cf ["H40"] InPrefix (2, 3) 1] [] None None Activity.Rare
     Names.Expedition ["LATA"];
   ent 282 "TUVALU" Continent.Oc 31 65 ["T2"] [cf ["T2"] InPrefix (2, 3) 1] [] None None Activity.Uncommon
     Names.Anglo ["FUNAFUTI"];
   ent 301 "WEST KIRIBATI" Continent.Oc 31 65 ["T30"] [cf ["T30"] InPrefix (2, 3) 1] [] None None
     Activity.Uncommon Names.Anglo ["TARAWA"];
   ent 31 "CENTRAL KIRIBATI" Continent.Oc 31 62 ["T31"] [cf ["T31"] InPrefix (2, 3) 1] [] None None
     Activity.Rare Names.Anglo ["KANTON"];
   ent 48 "EAST KIRIBATI" Continent.Oc 31 61 ["T32"] [cf ["T32"] InPrefix (2, 3) 1] [] None None
     Activity.Uncommon Names.Anglo ["KIRITIMATI"];
   ent 490 "BANABA" Continent.Oc 31 65 ["T33"] [cf ["T33"] InPrefix (2, 3) 1] [] None None Activity.Rare
     Names.Expedition ["BANABA"];
   ent 157 "NAURU" Continent.Oc 31 65 ["C2"] [cf ["C2"] (OneOf [1]) (2, 3) 1] [] None None
     Activity.Uncommon Names.Anglo ["YAREN"];
   ent 168 "MARSHALL IS" Continent.Oc 31 65 ["V7"] [cf ["V7"] (OneOf [3]) (2, 3) 1] [] None None
     Activity.Uncommon Names.Anglo ["MAJURO"];
   ent 173 "MICRONESIA" Continent.Oc 27 65 ["V6"] [cf ["V6"] (OneOf [3]) (2, 3) 1] [] None None
     Activity.Uncommon Names.Anglo ["POHNPEI"; "CHUUK"]]%string.

Definition OCEANIA_3 : list Entity :=
  [ent 22 "PALAU" Continent.Oc 27 64 ["T8"] [cf ["T8"] (OneOf [8]) (2, 3) 1] [] None None Activity.Uncommon
     Names.Anglo ["KOROR"];
   ent 163 "PAPUA NEW GUINEA" Continent.Oc 28 51 ["P2"] [cf ["P2"] (OneOf [9]) (2, 3) 1] [] None None
     Activity.Uncommon Names.Anglo ["PORT MORESBY"; "LAE"];
   ent 327 "INDONESIA" Continent.Oc 28 51 ["YB"; "YC"; "YD"; "YE"; "YF"; "YG"; "YH"; "PK"; "PL"; "PM";
     "PN"; "PO"; "7A"; "7B"; "7C"; "7D"; "7E"; "7F"; "7G"; "7H"; "7I"; "8A"; "8B"; "8C"; "8D"; "8E"; "8F";
     "8G"; "8H"; "8I"] [cf ["YB"; "YC"; "YD"; "YE"; "YF"; "YG"; "YH"] (OneOf D0_9) (2, 3) 1] [] None None
     Activity.Regular Names.SeAsian ["JAKARTA"; "SURABAYA"; "BANDUNG"];
   ent 511 "TIMOR LESTE" Continent.Oc 28 54 ["4W"] [cf ["4W"] (OneOf [6]) (2, 3) 1] [] None None
     Activity.Uncommon Names.Lusophone ["DILI"];
   ent 375 "PHILIPPINES" Continent.Oc 27 50 ["DU"; "DV"; "DW"; "DX"; "DY"; "DZ"; "4D"; "4E"; "4F"; "4G";
     "4H"; "4I"] [cf ["DU"; "DV"; "DW"; "DY"; "DZ"; "4F"] (OneOf D1_9) (2, 3) 1] [] None None
     Activity.Regular Names.SeAsian ["MANILA"; "CEBU"; "DAVAO"];
   ent 46 "EAST MALAYSIA" Continent.Oc 28 54 ["9M6"; "9M8"; "9W6"; "9W8"] [cf ["9M6"; "9M8"; "9W6"; "9W8"]
     InPrefix (2, 3) 1] [] None None Activity.Uncommon Names.SeAsian ["KOTA KINABALU"; "KUCHING"];
   ent 345 "BRUNEI" Continent.Oc 28 54 ["V8"] [cf ["V85"] InPrefix (2, 3) 1] [] None None Activity.Uncommon
     Names.SeAsian ["BANDAR SERI BEGAWAN"];
   ent 110 "HAWAII" Continent.Oc 31 61 ["KH6"; "KH7"; "AH6"; "AH7"; "NH6"; "NH7"; "WH6"; "WH7"] [cf ["KH6";
     "AH6"; "NH6"; "WH6"; "KH7"] InPrefix (2, 3) 1] [] None None Activity.Regular Names.Anglo ["HONOLULU";
     "HILO"];
   ent 138 "KURE IS" Continent.Oc 31 61 ["KH7K"] [cf ["KH7K"] InPrefix (1, 2) 1] [] None None Activity.Rare
     Names.Expedition ["KURE"];
   ent 103 "GUAM" Continent.Oc 27 64 ["KH2"; "AH2"; "NH2"; "WH2"] [cf ["KH2"; "AH2"; "NH2"; "WH2"] InPrefix
     (2, 3) 1] [] None None Activity.Uncommon Names.Anglo ["HAGATNA"];
   ent 166 "MARIANA IS" Continent.Oc 27 64 ["KH0"; "AH0"; "NH0"; "WH0"] [cf ["KH0"; "AH0"; "NH0"; "WH0"]
     InPrefix (2, 3) 1] [] None None Activity.Uncommon Names.Anglo ["SAIPAN"];
   ent 20 "BAKER HOWLAND" Continent.Oc 31 61 ["KH1"; "AH1"; "NH1"; "WH1"] [cf ["KH1"] InPrefix (2, 3) 1] []
     None None Activity.Rare Names.Expedition ["BAKER IS"];
   ent 123 "JOHNSTON IS" Continent.Oc 31 61 ["KH3"; "AH3"; "NH3"; "WH3"] [cf ["KH3"] InPrefix (2, 3) 1] []
     None None Activity.Rare Names.Expedition ["JOHNSTON"];
   ent 174 "MIDWAY IS" Continent.Oc 31 61 ["KH4"; "AH4"; "NH4"; "WH4"] [cf ["KH4"] InPrefix (2, 3) 1] []
     None None Activity.Rare Names.Expedition ["SAND IS"];
   ent 197 "PALMYRA JARVIS" Continent.Oc 31 61 ["KH5"; "AH5"; "NH5"; "WH5"] [cf ["KH5"] InPrefix (2, 3) 1]
     [] None None Activity.Rare Names.Expedition ["PALMYRA"];
   ent 9 "AMERICAN SAMOA" Continent.Oc 32 62 ["KH8"; "AH8"; "NH8"; "WH8"] [cf ["KH8"; "AH8"; "NH8"; "WH8"]
     InPrefix (2, 3) 1] [] None None Activity.Uncommon Names.Anglo ["PAGO PAGO"];
   ent 515 "SWAINS IS" Continent.Oc 32 62 ["KH8"] [cf ["KH8"] InPrefix (2, 3) 1] [] (Some "S") None
     Activity.Rare Names.Expedition ["SWAINS"];
   ent 297 "WAKE IS" Continent.Oc 31 65 ["KH9"; "AH9"; "NH9"; "WH9"] [cf ["KH9"] InPrefix (2, 3) 1] [] None
     None Activity.Rare Names.Anglo ["WAKE"];
   ent 177 "MINAMI TORISHIMA" Continent.Oc 27 90 ["JD1"] [cf ["JD1"] InPrefix (2, 3) 1] [] (Some "M") None
     Activity.Rare Names.Japanese ["MINAMI TORISHIMA"]]%string.

Definition ANTARCTICA : list Entity :=
  [ent 13 "ANTARCTICA" Continent.An 13 74 ["CE9"; "KC4AA"; "KC4US"; "RI1AN"; "R1AN"; "8J1R"; "ZS7"; "FT0Y";
     "FT1Y"; "FT2Y"; "FT3Y"; "FT4Y"; "FT5Y"; "FT6Y"; "FT7Y"; "FT8Y"; "FT9Y"] [cf ["CE9"] InPrefix (2, 3) 1;
     cf ["KC4AA"; "KC4US"] InPrefix (1, 1) 1; cf ["RI1AN"] InPrefix (1, 2) 1; cf ["8J1R"] InPrefix (2, 3)
     1] [] None None Activity.Uncommon Names.Expedition ["MCMURDO"; "VOSTOK"; "MIRNY"];
   ent 199 "PETER I IS" Continent.An 12 72 ["3Y"] [cf ["3Y"] (OneOf [0]) (2, 3) 1] [] (Some "P") None
     Activity.Rare Names.Expedition ["PETER I"]]%string.

Definition WORLD : list Entity :=
  USA_ROW ++ EUROPE_1 ++ EUROPE_2 ++ EUROPE_3 ++ EUROPE_4 ++ NORTH_AMERICA_1 ++ NORTH_AMERICA_2 ++
    NORTH_AMERICA_3 ++ SOUTH_AMERICA_1 ++ SOUTH_AMERICA_2 ++ AFRICA_1 ++ AFRICA_2 ++ AFRICA_3 ++ AFRICA_4
    ++ ASIA_1 ++ ASIA_2 ++ ASIA_3 ++ OCEANIA_1 ++ OCEANIA_2 ++ OCEANIA_3 ++ ANTARCTICA.
