(* ===== verification/Draws.v ===== *)
(** * Draws: seeded choices that may fail (cat-morse/src/rng.rs, scenario/mod.rs)

    The generator's choices ([range_u32], [chance], [pick]), as computations
    over a state: a choice from an empty slice is a panic, and the rejection
    loop of [range_u32] has a bound of its own, [fuel], beyond which the
    computation is [Cut].  [triple] is what is proved of such a computation: it
    neither panics nor refuses, and what it returns is as said. *)

From Stdlib Require Import Floats.SpecFloat.
From S2P Require Import Prelude Text Morse Timing.

(** [ScenarioError]. *)
Inductive ScenarioError : Type :=
| InvalidCallsign (s : text)
| InvalidSetting (why : string)
| Unencodable (t : text) (source : CodecError).

(** ** Outcomes *)

Inductive outcome (A : Type) : Type :=
| Done (a : A)
| Refused (e : ScenarioError)
| Panic
| Cut.
Arguments Done {A} a.
Arguments Refused {A} e.
Arguments Panic {A}.
Arguments Cut {A}.

Definition outcome_bind {A B} (o : outcome A) (k : A -> outcome B) : outcome B :=
  match o with Done a => k a | Refused e => Refused e | Panic => Panic | Cut => Cut end.
Notation "'let#' x ':=' c 'in' k" := (outcome_bind c (fun x => k))
  (at level 10, x pattern, c at level 100, k at level 200) : cat_scope.
Open Scope cat_scope.

(** [okay o Q]: [o] is a result that satisfies [Q], or the bound cut it. *)
Definition okay {A} (o : outcome A) (Q : A -> Prop) : Prop :=
  match o with Done a => Q a | Cut => True | Refused _ | Panic => False end.

Lemma okay_mono {A} (o : outcome A) (Q Q' : A -> Prop) :
  okay o Q -> (forall a, Q a -> Q' a) -> okay o Q'.
Proof. destruct o; cbn; auto. Qed.

Lemma okay_bind {A B} (o : outcome A) (k : A -> outcome B) (P : A -> Prop) Q :
  okay o P -> (forall a, P a -> okay (k a) Q) -> okay (outcome_bind o k) Q.
Proof. destruct o; cbn; auto. Qed.

(** ** Computations over a state *)

Definition M (S A : Type) : Type := S -> outcome (A * S).
Definition ret {S A} (a : A) : M S A := fun s => Done (a, s).
Definition bind {S A B} (m : M S A) (k : A -> M S B) : M S B :=
  fun s => let# (a, s) := m s in k a s.
Definition lift {S A} (o : outcome A) : M S A := fun s => let# a := o in Done (a, s).
Notation "'let!' x ':=' c 'in' k" := (bind c (fun x => k))
  (at level 10, x pattern, c at level 100, k at level 200) : cat_scope.

Definition triple {S A} (P : S -> Prop) (m : M S A) (Q : A -> S -> Prop) : Prop :=
  forall s, P s -> okay (m s) (fun '(a, s') => Q a s').
(** A computation whose result does not depend on where it starts. *)
Definition gives {S A} (m : M S A) (Q : A -> Prop) : Prop := forall s, okay (m s) (fun '(a, _) => Q a).

Section Rules.
Context {S A B : Type}.
Implicit Types (P : S -> Prop) (m : M S A) (k : A -> M S B).

Lemma triple_ret P (a : A) (Q : A -> S -> Prop) : (forall s, P s -> Q a s) -> triple P (ret a) Q.
Proof. intros H s Hs. by apply H. Qed.

Lemma triple_bind P m k (R : A -> S -> Prop) Q :
  triple P m R -> (forall a, triple (R a) (k a) Q) -> triple P (bind m k) Q.
Proof.
  intros Hm Hk s Hs. unfold bind. eapply okay_bind; [by apply Hm|].
  intros [a s'] Ha. by apply (Hk a).
Qed.

Lemma triple_conseq P P' m (Q Q' : A -> S -> Prop) :
  triple P m Q -> (forall s, P' s -> P s) -> (forall a s, Q a s -> Q' a s) -> triple P' m Q'.
Proof.
  intros Hm HP HQ s Hs. eapply okay_mono; [by apply Hm, HP|]. intros [a s']. apply HQ.
Qed.

Lemma triple_pure P (phi : Prop) m Q : (phi -> triple P m Q) -> triple (fun s => phi /\ P s) m Q.
Proof. intros H s [Hphi Hs]. by apply H. Qed.

Lemma gives_ret (a : A) (Q : A -> Prop) : Q a -> gives (S:=S) (ret a) Q.
Proof. intros H s. exact H. Qed.

Lemma gives_bind m k (P : A -> Prop) Q :
  gives m P -> (forall a, P a -> gives (k a) Q) -> gives (bind m k) Q.
Proof.
  intros Hm Hk s. unfold bind. eapply okay_bind; [apply Hm|]. intros [a s'] Ha. by apply Hk.
Qed.

Lemma gives_mono m (Q Q' : A -> Prop) : gives m Q -> (forall a, Q a -> Q' a) -> gives m Q'.
Proof. intros Hm HQ s. eapply okay_mono; [apply Hm|]. intros [a s']. apply HQ. Qed.

Lemma gives_lift (o : outcome A) (Q : A -> Prop) : okay o Q -> gives (S:=S) (lift o) Q.
Proof. intros H s. unfold lift. by eapply okay_bind; [apply H|]. Qed.
End Rules.

(** ** The generator's choices *)

Abbreviation Gen := (M Rng) (only parsing).

(** The bound on the loops that end by chance. *)
Class Fuel := fuel : nat.

Fixpoint range_u32_loop (n : nat) (lo span threshold : Z) (r : Rng) : outcome (Z * Rng) :=
  match n with
  | O => Cut
  | S n =>
      let '(y, r) := next_u64 r in
      let m := Z.shiftr y 32 * span in
      if threshold <=? Z.land m 0xFFFFFFFF then Done (lo + Z.shiftr m 32, r)
      else range_u32_loop n lo span threshold r
  end.

Section Choices.
Context {F : Fuel}.

Definition range_u32 (lo hi : Z) : Gen Z := fun r =>
  let '(lo, hi) := if hi <? lo then (hi, lo) else (lo, hi) in
  let span := (hi - lo) + 1 in
  if u32_max <? span then let '(y, r) := next_u64 r in Done (y mod 2 ^ 32, r)
  else range_u32_loop fuel lo span (2 ^ 32 mod span) r.

Definition gen_unit_f64 : Gen f64 := fun r => Done (unit_f64 r).
Definition range_f64 (lo hi : f64) : Gen f64 :=
  let! u := gen_unit_f64 in ret (F64.add lo (F64.mul (F64.sub hi lo) u)).
Definition chance (p : f64) : Gen bool :=
  let! u := gen_unit_f64 in ret (F64.ltb u p).

(** [Rng::pick]: its assertion, and the index. *)
Definition pick {A} (items : list A) : Gen A :=
  match items with
  | [] => fun _ => Panic
  | _ =>
      let! i := range_u32 0 (Z.of_nat (length items) - 1) in
      lift (match items !! Z.to_nat i with Some a => Done a | None => Panic end)
  end.

(** The loop of [pick_weighted], and the draw it walks from.  A total beyond
    [u32], or none to draw below, panics in a checked build. *)
Fixpoint walk_weights {A} (weight : A -> Z) (roll : Z) (items : list A) : option A :=
  match items with
  | [] => None
  | it :: items =>
      if roll <? weight it then Some it else walk_weights weight (roll - weight it) items
  end.
Definition weight_total {A} (weight : A -> Z) (items : list A) : Z :=
  foldr (fun it acc => weight it + acc) 0 items.
Definition pick_weighted {A} (items : list A) (weight : A -> Z) : Gen A :=
  let total := weight_total weight items in
  if (u32_max <? total) || (total =? 0) then fun _ => Panic
  else
    let! roll := range_u32 0 (total - 1) in
    lift (match walk_weights weight roll items with
          | Some it => Done it
          | None => match last items with Some it => Done it | None => Panic end
          end).
End Choices.

(** ** What the choices give *)

Lemma next_u64_range r : 0 <= fst (next_u64 r) < 2 ^ 64.
Proof. unfold next_u64, wrapping_mul_u64. cbn [fst]. apply Z.mod_pos_bound. lia. Qed.

Lemma shiftr_range y a b : 0 <= a -> 0 <= b -> 0 <= y < 2 ^ (a + b) -> 0 <= Z.shiftr y a < 2 ^ b.
Proof.
  intros Ha Hb Hy. rewrite Z.shiftr_div_pow2 by lia. rewrite Z.pow_add_r in Hy by lia.
  split; [apply Z.div_pos; lia|]. apply Z.div_lt_upper_bound; lia.
Qed.

Lemma range_u32_loop_okay n lo span thr : 0 < span -> forall r,
  okay (range_u32_loop n lo span thr r) (fun '(x, _) => lo <= x < lo + span).
Proof.
  intros Hspan. induction n as [|n IH]; intros r; cbn [range_u32_loop]; [exact I|].
  pose proof (next_u64_range r) as Hy. destruct (next_u64 r) as [y r']. cbn [fst] in Hy.
  destruct (thr <=? _); [|apply IH]. cbn [okay].
  pose proof (shiftr_range y 32 32 ltac:(lia) ltac:(lia) Hy) as Hx.
  rewrite (Z.shiftr_div_pow2 (_ * span)) by lia.
  split; [assert (0 <= Z.shiftr y 32 * span / 2 ^ 32) by (apply Z.div_pos; nia); lia|].
  assert (Z.shiftr y 32 * span / 2 ^ 32 < span) by (apply Z.div_lt_upper_bound; nia). lia.
Qed.

Section Facts.
Context {F : Fuel}.

(** A draw from a range stays in it. *)
Lemma range_u32_gives lo hi :
  0 <= lo <= hi -> hi <= u32_max -> gives (range_u32 lo hi) (fun x => lo <= x <= hi).
Proof.
  intros Hlo Hhi r. unfold range_u32. replace (hi <? lo) with false by lia.
  destruct (u32_max <? hi - lo + 1) eqn:E.
  - unfold u32_max in *. pose proof (next_u64_range r) as Hy. destruct (next_u64 r) as [y r'].
    cbn [okay]. pose proof (Z.mod_pos_bound y (2 ^ 32) ltac:(lia)). lia.
  - eapply okay_mono; [apply range_u32_loop_okay; lia|]. intros [x r']. lia.
Qed.

Lemma gen_unit_f64_gives : gives gen_unit_f64 (fun _ => True).
Proof. intros r. unfold gen_unit_f64. destruct (unit_f64 r). exact I. Qed.

Lemma chance_gives p : gives (chance p) (fun _ => True).
Proof. eapply gives_bind; [apply gen_unit_f64_gives|]. intros u _. by apply gives_ret. Qed.

Lemma range_f64_gives lo hi : gives (range_f64 lo hi) (fun _ => True).
Proof. eapply gives_bind; [apply gen_unit_f64_gives|]. intros u _. by apply gives_ret. Qed.

(** A pick from a slice that is not empty is one of its items. *)
Lemma pick_gives {A} (items : list A) :
  items <> [] -> Z.of_nat (length items) <= u32_max -> gives (pick items) (fun x => x ∈ items).
Proof.
  intros Hne Hlen. assert (0 < Z.of_nat (length items)) by (destruct items; [done|cbn; lia]).
  destruct items as [|i0 items]; [done|]. unfold pick. set (l := i0 :: items) in *.
  eapply gives_bind; [apply range_u32_gives; lia|]. intros i Hi. apply gives_lift.
  destruct (l !! Z.to_nat i) as [a|] eqn:E; cbn [okay].
  - by eapply list_elem_of_lookup_2.
  - apply lookup_ge_None_1 in E. cbn beta in Hi. lia.
Qed.

Lemma walk_weights_positive {A} (weight : A -> Z) items : forall roll,
  0 <= roll < weight_total weight items -> Forall (fun it => 0 <= weight it) items ->
  exists it, walk_weights weight roll items = Some it /\ it ∈ items /\ 0 < weight it.
Proof.
  induction items as [|it items IH]; intros roll Hroll Hw; [cbn in Hroll; lia|].
  change (weight_total weight (it :: items)) with (weight it + weight_total weight items) in Hroll.
  apply Forall_cons in Hw as [Hit Hw]. cbn beta in Hit. cbn [walk_weights]. destruct (roll <? weight it) eqn:E.
  - exists it. split; [done|]. split; [apply list_elem_of_here|lia].
  - destruct (IH (roll - weight it)) as (x & -> & Hin & Hx); [lia|done|].
    exists x. split; [done|]. split; [by apply list_elem_of_further|done].
Qed.

(** A weighted pick is an item whose weight is not zero. *)
Lemma pick_weighted_gives {A} (items : list A) (weight : A -> Z) :
  Forall (fun it => 0 <= weight it) items -> 0 < weight_total weight items <= u32_max ->
  gives (pick_weighted items weight) (fun x => x ∈ items /\ 0 < weight x).
Proof.
  intros Hw Ht. unfold pick_weighted. cbv zeta.
  set (total := weight_total weight items) in *.
  replace ((u32_max <? total) || (total =? 0)) with false by lia.
  eapply gives_bind; [apply range_u32_gives; lia|]. intros roll Hroll. cbn beta in Hroll. apply gives_lift.
  destruct (walk_weights_positive weight items roll) as (it & -> & ?); [lia|done|].
  done.
Qed.
End Facts.

Create HintDb draws discriminated.
#[export] Hint Resolve chance_gives range_f64_gives gen_unit_f64_gives gives_ret : draws.
