(* ===== verification/Callsign.v ===== *)
(** * Callsign: calls and where they are from (cat-morse/src/scenario/callsign.rs)

    [Callsign::parse] and its base, [home_of] over the table of [World], and the
    generators of calls: from a home, as a station signs, not yet taken. *)

From Stdlib Require Import Floats.SpecFloat Numbers.DecimalString.
From S2P Require Import Prelude Text Morse Timing Tables World Draws.

(** ** What the sources use of [str] *)

(** [str::len], in bytes. *)
Definition str_len (t : text) : Z := foldr (fun c acc => len_utf8 c + acc) 0 t.
Definition is_ascii_digit (c : char) : bool := (48 <=? c) && (c <=? 57).
Definition is_ascii_uppercase (c : char) : bool := (65 <=? c) && (c <=? 90).
Definition slash : char := 47.

Fixpoint starts_with (t p : text) : bool :=
  match p, t with
  | [], _ => true
  | c :: p, d :: t => (c =? d) && starts_with t p
  | _ :: _, [] => false
  end.
Definition contains_char (c : char) (t : text) : bool := existsb (Z.eqb c) t.
Fixpoint contains_pair (c d : char) (t : text) : bool :=
  match t with
  | x :: t' => match t' with
               | y :: _ => ((x =? c) && (y =? d)) || contains_pair c d t'
               | [] => false
               end
  | [] => false
  end.
(** [str::split] at a character, collected. *)
Fixpoint split_on (c : char) (t : text) : list text :=
  match t with
  | [] => [[]]
  | d :: t =>
      if d =? c then [] :: split_on c t
      else match split_on c t with p :: ps => (d :: p) :: ps | [] => [[d]] end
  end.
Definition member (t : text) (l : list text) : bool := existsb (fun u => bool_decide (t = u)) l.

(** ** Looking up the table *)

(** [by_dxcc]: panics on an unknown number. *)
Definition by_dxcc (dxcc : Z) : outcome Entity :=
  match List.find (fun e => e.(e_dxcc) =? dxcc) WORLD with Some e => Done e | None => Panic end.

(** [Entity::region]. *)
Definition region_matches (piece : text) (digit : Z) (r : Region) : bool :=
  (r.(r_digit) =? digit)
  && (match r.(r_prefixes) with [] => true | ps => existsb (starts_with piece) ps end).
Definition entity_region (e : Entity) (piece : text) (digit : Z) : outcome (option Region) :=
  let# e := by_dxcc e.(e_dxcc) in Done (List.find (region_matches piece digit) e.(e_regions)).

(** ** Callsigns *)

(** A [Callsign] is its text. *)
Record Callsign : Type := mk_Callsign { as_str : text }.
#[export] Instance Callsign_eq_dec : EqDecision Callsign.
Proof. solve_decision. Defined.

Definition MODIFIERS : list text := strs ["P"; "M"; "A"; "B"; "QRP"]%string.
Definition NO_ENTITY : list text := strs ["MM"; "AM"]%string.

Definition is_bare_prefix (p : text) : bool :=
  (match last p with Some c => is_ascii_digit c | None => false end)
  || existsb (fun e => member p e.(e_prefixes)) WORLD.

(** [base_part]: the pieces are numbered, since [home_of] tells the base from
    an equal piece by its address. *)
Definition base_candidate (p : text) : bool :=
  existsb is_ascii_digit p && negb (member p MODIFIERS) && negb (member p NO_ENTITY).
Definition better_base (best : option (nat * text)) (p : nat * text) : option (nat * text) :=
  if base_candidate p.2 then
    match best with
    | None => Some p
    | Some b =>
        if str_len b.2 <? str_len p.2 then Some p
        else if (str_len p.2 =? str_len b.2) && is_bare_prefix b.2 && negb (is_bare_prefix p.2)
        then Some p else best
    end
  else best.
(** [max_by_key] of the length: the last of the longest. *)
Definition longer (best : option (nat * text)) (p : nat * text) : option (nat * text) :=
  match best with
  | Some b => if str_len p.2 <? str_len b.2 then best else Some p
  | None => Some p
  end.
Definition base_at (s : text) : nat * text :=
  if negb (contains_char slash s) then (0%nat, s)
  else
    let pieces := imap pair (split_on slash s) in
    match foldl better_base None pieces with
    | Some b => b
    | None => default (0%nat, s) (foldl longer None pieces)
    end.
Definition base_part (s : text) : text := (base_at s).2.

(** [Callsign::parse]. *)
Definition parse (s : text) : result Callsign ScenarioError :=
  let up := to_ascii_uppercase_str (trim s) in
  let bad := Err (InvalidCallsign s) in
  if negb ((3 <=? str_len up) && (str_len up <=? 14)) then bad
  else if negb (forallb (fun b => is_ascii_uppercase b || is_ascii_digit b || (b =? slash)) up) then bad
  else if (match up with c :: _ => c =? slash | [] => false end)
          || (match last up with Some c => c =? slash | None => false end)
          || contains_pair slash slash up then bad
  else
    let base := base_part up in
    if negb (existsb is_ascii_digit base) || negb (existsb is_ascii_uppercase base) then bad
    else Ok (mk_Callsign up).

Definition base (c : Callsign) : text := base_part c.(as_str).
Definition with_suffix (c : Callsign) (suffix : text) : Callsign :=
  mk_Callsign (c.(as_str) ++ slash :: suffix).

(** ** Homes *)

Record Home : Type := mk_Home { h_entity : Entity; h_region : option Region }.
Definition option_eqb {A} (f : A -> A -> bool) (a b : option A) : bool :=
  match a, b with Some a, Some b => f a b | None, None => true | _, _ => false end.
Definition home_eqb (a b : Home) : bool :=
  entity_eqb a.(h_entity) b.(h_entity) && option_eqb region_eqb a.(h_region) b.(h_region).
Definition home_cq (h : Home) : Z :=
  match h.(h_region) with Some r => r.(r_cq) | None => h.(h_entity).(e_cq) end.

(** [entity_of]: the two loops, [best] carried through. *)
Definition exact_suffix (p : text) : option nat :=
  snd <$> List.find (fun q => bool_decide (q.1 = p)) EXACT_SUFFIX.
Definition fits (piece : text) (designator : bool) (p : text) : bool :=
  match exact_suffix p with
  | None => true
  | Some n => (str_len piece =? str_len p + Z.of_nat n) || (designator && (str_len piece =? str_len p))
  end.
Definition better_prefix (piece : text) (designator : bool) (e : Entity) (best : option (Entity * Z))
    (p : text) : option (Entity * Z) :=
  if fits piece designator p && starts_with piece p
     && (match best with None => true | Some (_, l) => l <? str_len p end)
  then Some (e, str_len p) else best.
Definition better_entity (piece : text) (designator : bool) (best : option (Entity * Z)) (e : Entity)
    : option (Entity * Z) :=
  foldl (better_prefix piece designator e) best e.(e_prefixes).
Definition entity_of (piece : text) (designator : bool) : option Entity :=
  fst <$> foldl (better_entity piece designator) None
            (List.filter (fun e => match e.(e_tag) with None => true | Some _ => false end) WORLD).

Definition area_digit (piece : text) : option Z :=
  let b := match piece with
           | c :: (_ :: _) as t => if is_ascii_digit c then drop 1 t else t
           | t => t
           end in
  (fun c => c - 48) <$> List.find is_ascii_digit b.

Definition tagged (base tag : text) : option Entity :=
  List.find (fun e => bool_decide (e.(e_tag) = Some tag) && existsb (starts_with base) e.(e_prefixes)) WORLD.

(** The loop of [home_of] over the pieces: an early return, or the designators
    before and after the base. *)
Fixpoint home_pieces (base : nat * text) (past_base : bool) (before after : option text)
    (pieces : list (nat * text)) : option Home + (option text * option text) :=
  match pieces with
  | [] => inr (before, after)
  | (i, piece) :: pieces =>
      if (i =? base.1)%nat then home_pieces base true before after pieces
      else if negb past_base then home_pieces base past_base (Some piece) after pieces
      else match tagged base.2 piece with
           | Some entity => inl (Some (mk_Home entity None))
           | None =>
               if member piece MODIFIERS then home_pieces base past_base before after pieces
               else if member piece NO_ENTITY then inl None
               else home_pieces base past_base before (Some piece) pieces
           end
  end.
Definition home_of (call : Callsign) : outcome (option Home) :=
  let base := base_at call.(as_str) in
  match home_pieces base false None None (imap pair (split_on slash call.(as_str))) with
  | inl h => Done h
  | inr (before, after) =>
      let '(entity, prefix_from, digit_from) :=
        match (match before with Some _ => before | None => after end) with
        | Some d => if forallb is_ascii_digit d then (entity_of base.2 false, base.2, d)
                    else (entity_of d true, d, d)
        | None => (entity_of base.2 false, base.2, base.2)
        end in
      match entity with
      | None => Done None
      | Some entity =>
          let# region := (match area_digit digit_from with
                          | Some d => entity_region entity prefix_from d
                          | None => Done None
                          end) in
          Done (Some (mk_Home entity region))
      end
  end.

(** [Callsign::parse(s).ok().and_then(home_of) == Some(home)]. *)
Definition resolves_to (s : text) (home : Home) : outcome bool :=
  match parse s with
  | Err _ => Done false
  | Ok c =>
      let# back := home_of c in
      Done (match back with Some h => home_eqb h home | None => false end)
  end.

(** [HfBand] (scenario/mod.rs). *)
Inductive HfBand : Type := M160 | M80 | M40 | M30 | M20 | M17 | M15 | M12 | M10.
Definition path_weights (b : HfBand) : Z * Z :=
  match b with
  | M160 => (12, 1) | M80 => (8, 1) | M40 => (4, 1) | M30 => (3, 1) | M20 => (2, 1) | M17 => (1, 1)
  | M15 | M12 | M10 => (1, 2)
  end.

Definition NEAR_BOOST : Z := 3.
Definition P_PORTABLE : f64 := F64.dec 4 2.
Definition P_ABROAD : f64 := F64.dec 3 2.
Definition P_OTHER_AREA : f64 := F64.dec 3 2.
Definition CALL_TRIES : nat := 64.
Definition FRESH_TRIES : nat := 256.

(** [{}] of an unsigned integer, as text. *)
Definition show (z : Z) : text := txt (NilEmpty.string_of_uint (N.to_uint (Z.to_N z))).

Section Generators.
Context {F : Fuel}.

Definition random_in (entity : Entity) : Gen Home :=
  let! region := (match entity.(e_regions) with
                  | [] => ret None
                  | regions => let! r := pick_weighted regions r_weight in ret (Some r)
                  end) in
  ret (mk_Home entity region).

(** The operator's entity, the US when it is not known. *)
Definition entity_or_usa (me : option Home) : outcome Entity :=
  match me with Some h => Done h.(h_entity) | None => by_dxcc USA end.

Definition random_us : Gen Home := let! e := lift (by_dxcc USA) in random_in e.
Definition random_local (me : option Home) : Gen Home :=
  let! e := lift (entity_or_usa me) in random_in e.

Definition caller_weight (near : Continent) (not : list Z) (near_w far_w : Z) (e : Entity) : Z :=
  if existsb (Z.eqb e.(e_dxcc)) not then 0
  else if bool_decide (e.(e_continent) = near) then activity_weight e.(e_activity) * near_w
  else activity_weight e.(e_activity) * far_w.
Definition random_caller (me : option Home) (not : list Z) (band : option HfBand) : Gen Home :=
  let! mine := lift (entity_or_usa me) in
  let '(near_w, far_w) := match band with Some b => path_weights b | None => (NEAR_BOOST, 1) end in
  let! e := pick_weighted WORLD (caller_weight mine.(e_continent) not near_w far_w) in
  random_in e.
Definition random_dx (me : option Home) (band : option HfBand) : Gen Home :=
  let! home := lift (entity_or_usa me) in random_caller me [home.(e_dxcc)] band.

Definition rare_weight (own : option Z) (e : Entity) : Z :=
  if bool_decide (Some e.(e_dxcc) = own) then 0
  else match e.(e_activity) with
       | Activity.Rare => 5 | Activity.Uncommon => 1 | _ => 0
       end.
Definition random_rare (me : option Home) : Gen Home :=
  let! e := pick_weighted WORLD (rare_weight ((fun h => h.(h_entity).(e_dxcc)) <$> me)) in
  random_in e.

Fixpoint letters_from (first : bool) (n : nat) : Gen text :=
  match n with
  | O => ret []
  | S n =>
      let! c := pick (if first then SUFFIX_FIRST else LETTERS) in
      let! rest := letters_from false n in
      ret (c :: rest)
  end.
Definition letters (n : Z) : Gen text := letters_from true (Z.to_nat n).

Definition prefix_and_digit (f : CallFormat) (home : Home) : Gen (text * text) :=
  match f.(cf_digit) with
  | InPrefix => let! p := pick f.(cf_prefixes) in ret (p, [])
  | OneOf d => let! p := pick f.(cf_prefixes) in let! x := pick d in ret (p, show x)
  | FromRegion =>
      let! r := (match home.(h_region) with
                 | Some r => ret r
                 | None => pick home.(h_entity).(e_regions)
                 end) in
      let! p := pick (match r.(r_prefixes) with [] => f.(cf_prefixes) | ps => ps end) in
      ret (p, show r.(r_digit))
  end.
Definition call_in_format (f : CallFormat) (home : Home) : Gen text :=
  let! (p, digit) := prefix_and_digit f home in
  let! n := range_u32 f.(cf_suffix).1 f.(cf_suffix).2 in
  let! l := letters n in
  ret (p ++ digit ++ l ++ (match home.(h_entity).(e_tag) with Some tag => slash :: tag | None => [] end)).

Fixpoint call_from_loop (tries : nat) (s : text) (home : Home) : Gen text :=
  match tries with
  | O => ret s
  | S tries =>
      let! f := pick_weighted home.(h_entity).(e_formats) cf_weight in
      let! s := call_in_format f home in
      let! back := lift (resolves_to s home) in
      if back then ret s else call_from_loop tries s home
  end.
Definition call_from (home : Home) : Gen text := call_from_loop CALL_TRIES [] home.

(** The loop of [designator] over its tries for one draw. *)
Fixpoint designator_try (home : Home) (tries : list text) : outcome (option text) :=
  match tries with
  | [] => Done None
  | t :: tries =>
      let# region := (match area_digit t with
                      | Some dg => entity_region home.(h_entity) t dg
                      | None => Done None
                      end) in
      if option_eqb entity_eqb (entity_of t true) (Some home.(h_entity))
         && option_eqb region_eqb region home.(h_region)
      then Done (Some t) else designator_try home tries
  end.
Fixpoint designator_loop (n : nat) (home : Home) : Gen (option text) :=
  match n with
  | O => ret None
  | S n =>
      let! f := pick_weighted home.(h_entity).(e_formats) cf_weight in
      let! (p, d) := prefix_and_digit f home in
      let tries := (match f.(cf_digit) with OneOf _ => [p] | _ => [] end) ++ [p ++ d] in
      let! found := lift (designator_try home tries) in
      match found with Some t => ret (Some t) | None => designator_loop n home end
  end.
Definition designator (home : Home) : Gen (option text) :=
  match home.(h_entity).(e_tag) with
  | Some _ => ret None
  | None => designator_loop 16 home
  end.

(** [station_call]: its three decorated branches, each [None] when it falls
    through, and the whole. *)
Definition portable_call (home : Home) : Gen (option text) :=
  let! suffix := pick (strs ["P"; "P"; "P"; "M"; "QRP"]%string) in
  let! call := call_from home in
  let s := call ++ slash :: suffix in
  let! ok := lift (resolves_to s home) in
  ret (if ok then Some s else None).
Definition abroad_call (home : Home) : Gen (option text) :=
  let! licensed := random_dx (Some home) None in
  let! licence := call_from licensed in
  let! d := designator home in
  match d with
  | None => ret None
  | Some d =>
      let s := d ++ slash :: licence in
      let! back := (if negb (contains_char slash licence) && (str_len d <? str_len licence)
                    then lift (resolves_to s home) else ret false) in
      ret (if back then Some s else None)
  end.
Definition other_area_call (home : Home) : Gen (option text) :=
  match home.(h_region) with
  | None => ret None
  | Some area =>
      let! licensed := random_us in
      if option_eqb region_eqb licensed.(h_region) home.(h_region) then ret None
      else let! call := call_from licensed in ret (Some (call ++ slash :: show area.(r_digit)))
  end.
Definition or_plain (home : Home) (o : option text) : Gen text :=
  match o with Some s => ret s | None => call_from home end.
Definition station_call (home : Home) : Gen text :=
  let! roll := gen_unit_f64 in
  match home.(h_entity).(e_tag) with
  | Some _ => call_from home
  | None =>
      let! portable := (if F64.ltb roll P_PORTABLE then portable_call home else ret None) in
      match portable with
      | Some s => ret s
      | None =>
          let! other :=
            (if F64.ltb roll (F64.add P_PORTABLE P_ABROAD) then abroad_call home
             else if F64.ltb roll (F64.add (F64.add P_PORTABLE P_ABROAD) P_OTHER_AREA)
                     && (home.(h_entity).(e_dxcc) =? USA)
             then other_area_call home else ret None) in
          or_plain home other
      end
  end.

Fixpoint fresh_call_loop (tries : nat) (make : Gen text) (my_call : Callsign) (taken : list Callsign)
    : Gen (option Callsign) :=
  match tries with
  | O => ret None
  | S tries =>
      let! s := make in
      if member s RESERVED_CALLS then fresh_call_loop tries make my_call taken
      else
        let! c := lift (match parse s with Ok c => Done c | Err _ => Panic end) in
        if bool_decide (base c = base my_call) || existsb (fun t => bool_decide (base t = base c)) taken
        then fresh_call_loop tries make my_call taken
        else ret (Some c)
  end.
Definition fresh_call (make : Gen text) (my_call : Callsign) (taken : list Callsign)
    : Gen (option Callsign) := fresh_call_loop FRESH_TRIES make my_call taken.
End Generators.
