(* ===== verification/WorldFacts.v ===== *)
(** * WorldFacts: what the table of the world is held to

    The conditions the source's tests check of its table, as one boolean that
    is evaluated on it, and what the generators of calls rely on. *)

From S2P Require Import Prelude Text Morse Timing Tables World Draws Callsign.

(** ** Characters and calls *)

Definition is_alnum (c : char) : bool := is_ascii_uppercase c || is_ascii_digit c.
(** A call as the formats make it: capitals and digits, some of each, and short
    enough for any designator. *)
Definition plain_callb (b : text) : bool :=
  forallb is_alnum b && existsb is_ascii_digit b && existsb is_ascii_uppercase b
  && (3 <=? Z.of_nat (length b)) && (Z.of_nat (length b) <=? 9).
(** A character the Morse table has, or a space. *)
Definition plain_char (c : char) : bool :=
  is_whitespace c
  || (negb (c =? ch "<") && match pattern (TChar (to_ascii_uppercase c)) with Some _ => true | None => false end).
Definition plain_text (t : text) : bool := forallb plain_char t.

Definition short {A} (l : list A) : bool :=
  match l with [] => false | _ => Z.of_nat (length l) <=? u32_max end.
Definition digit_ok (d : Z) : bool := (0 <=? d) && (d <=? 9).
Definition zone_ok (lo hi z : Z) : bool := (lo <=? z) && (z <=? hi).

(** ** Rows *)

(** A prefix that makes a call with [digits] digits after it and [lo] to [hi]
    letters. *)
Definition prefix_ok (digits lo hi : Z) (p : text) : bool :=
  let n := Z.of_nat (length p) in
  forallb is_alnum p
  && ((0 <? digits) || existsb is_ascii_digit p) && ((0 <? lo) || existsb is_ascii_uppercase p)
  && (3 <=? n + digits + lo) && (n + digits + hi <=? 9).
Definition format_ok (regions : list Region) (f : CallFormat) : bool :=
  let '(lo, hi) := f.(cf_suffix) in
  (0 <=? lo) && (lo <=? hi) && (hi <=? 3) && (0 <? f.(cf_weight)) && short f.(cf_prefixes)
  && match f.(cf_digit) with
     | InPrefix => forallb (prefix_ok 0 lo hi) f.(cf_prefixes)
     | OneOf d => short d && forallb digit_ok d && forallb (prefix_ok 1 lo hi) f.(cf_prefixes)
     | FromRegion =>
         short regions && forallb (prefix_ok 1 lo hi) f.(cf_prefixes)
         && forallb (fun r => match r.(r_prefixes) with
                              | [] => true
                              | ps => short ps && forallb (prefix_ok 1 lo hi) ps
                              end) regions
     end.
Definition region_ok (r : Region) : bool :=
  digit_ok r.(r_digit) && (0 <? r.(r_weight)) && zone_ok 1 40 r.(r_cq) && zone_ok 1 90 r.(r_itu)
  && short r.(r_subdivisions)
  && forallb (fun s => plain_text s.1 && short s.2 && forallb plain_text s.2) r.(r_subdivisions).
Definition total_ok {A} (weight : A -> Z) (l : list A) : bool := weight_total weight l <=? u32_max.
Definition entity_ok (e : Entity) : bool :=
  short e.(e_formats) && forallb (format_ok e.(e_regions)) e.(e_formats) && total_ok cf_weight e.(e_formats)
  && forallb region_ok e.(e_regions) && total_ok r_weight e.(e_regions)
  && plain_text e.(e_name) && forallb plain_text e.(e_towns) && (Z.of_nat (length e.(e_towns)) <=? u32_max)
  && (match e.(e_towns) with [] => negb (match e.(e_regions) with [] => true | _ => false end) | _ => true end)
  && zone_ok 1 40 e.(e_cq) && zone_ok 1 90 e.(e_itu)
  && (match e.(e_tag) with
      | Some t => negb (match t with [] => true | _ => false end)
                  && forallb is_ascii_uppercase t && (Z.of_nat (length t) <=? 1)
      | None => true
      end)
  && (match e.(e_iso) with Some i => plain_text i | None => true end)
  && forallb plain_text (pool e.(e_names)) && short (pool e.(e_names))
  && (0 <? e.(e_dxcc)).

(** No two rows of a list share a key. *)
Fixpoint distinct {A} (eqb : A -> A -> bool) (l : list A) : bool :=
  match l with [] => true | a :: l => negb (existsb (eqb a) l) && distinct eqb l end.

Definition untagged (e : Entity) : bool := match e.(e_tag) with None => true | Some _ => false end.
Definition text_eqb (a b : text) : bool := bool_decide (a = b).

Lemma world_rows_ok : forallb entity_ok WORLD = true.
Proof. vm_cast_no_check (eq_refl true). Qed.
Lemma world_numbers_distinct : distinct Z.eqb (map e_dxcc WORLD) = true.
Proof. vm_cast_no_check (eq_refl true). Qed.
Lemma world_prefixes_distinct :
  distinct text_eqb (concat (map e_prefixes (List.filter untagged WORLD))) = true.
Proof. vm_cast_no_check (eq_refl true). Qed.
Lemma world_length : length WORLD = 340%nat.
Proof. vm_cast_no_check (eq_refl 340%nat). Qed.
#[global] Opaque WORLD.

(** ** What follows for a row *)

Lemma short_spec {A} (l : list A) : short l = true -> l <> [] /\ Z.of_nat (length l) <= u32_max.
Proof. unfold short. destruct l; [done|]. intros H%Z.leb_le. done. Qed.

Lemma forallb_elem {A} (f : A -> bool) l x : forallb f l = true -> x ∈ l -> f x = true.
Proof. intros H Hx. apply (proj1 (List.forallb_forall f l) H). by apply list_elem_of_In. Qed.

Ltac split_andb :=
  repeat match goal with H : _ && _ = true |- _ => apply andb_true_iff in H as [? ?] end.

(** A weight that is never negative adds up to at least any one of its
    values, and to at most its bound times the number of items. *)
Lemma weight_total_nonneg {A} (weight : A -> Z) (l : list A) :
  Forall (fun a => 0 <= weight a) l -> 0 <= weight_total weight l.
Proof.
  induction 1 as [|a l Ha Hl IH]; [done|].
  change (0 <= weight a + weight_total weight l). cbn beta in Ha. lia.
Qed.
Lemma weight_total_bound {A} (weight : A -> Z) (bound : Z) (l : list A) :
  Forall (fun a => weight a <= bound) l -> weight_total weight l <= bound * Z.of_nat (length l).
Proof.
  induction 1 as [|a l Ha Hl IH]; [cbn; lia|].
  change (weight_total weight (a :: l)) with (weight a + weight_total weight l).
  cbn [length]. cbn beta in Ha. lia.
Qed.
Lemma weight_total_pos {A} (weight : A -> Z) (l : list A) a :
  Forall (fun a => 0 <= weight a) l -> a ∈ l -> 0 < weight a -> 0 < weight_total weight l.
Proof.
  induction 1 as [|b l Hb Hl IH]; [by intros ?%elem_of_nil|].
  change (weight_total weight (b :: l)) with (weight b + weight_total weight l).
  pose proof (weight_total_nonneg weight l Hl). cbn beta in Hb.
  intros [->|Hin]%elem_of_cons Ha; [lia|]. specialize (IH Hin Ha). lia.
Qed.
Lemma weight_total_ok {A} (weight : A -> Z) (l : list A) :
  l <> [] -> Forall (fun a => 0 < weight a) l -> total_ok weight l = true ->
  Forall (fun a => 0 <= weight a) l /\ 0 < weight_total weight l <= u32_max.
Proof.
  intros Hne Hw Ht. assert (H0 : Forall (fun a => 0 <= weight a) l)
    by (eapply Forall_impl; [exact Hw|]; cbn; lia).
  split; [done|]. split; [|unfold total_ok in Ht; lia].
  destruct l as [|a l]; [done|]. apply Forall_cons in Hw as [Ha _].
  by apply (weight_total_pos weight _ a); [|apply list_elem_of_here|].
Qed.

Section Row.
Context (e : Entity) (He : e ∈ WORLD).

Lemma row_ok : entity_ok e = true.
Proof. exact (forallb_elem _ _ _ world_rows_ok He). Qed.

Lemma row_formats :
  e.(e_formats) <> [] /\ Forall (fun f => 0 <= f.(cf_weight)) e.(e_formats)
  /\ 0 < weight_total cf_weight e.(e_formats) <= u32_max.
Proof using He.
  pose proof row_ok as H. unfold entity_ok in H. split_andb.
  destruct (short_spec (e_formats e)) as [Hne _]; [done|].
  assert (Hw : Forall (fun f => 0 < f.(cf_weight)) e.(e_formats)).
  { apply Forall_forall. intros f Hf.
    eapply (forallb_elem (format_ok _)) in Hf; [|eassumption]. unfold format_ok in Hf.
    destruct (cf_suffix f). split_andb. lia. }
  split; [done|]. by apply weight_total_ok.
Qed.

Lemma row_format f : f ∈ e.(e_formats) -> format_ok e.(e_regions) f = true.
Proof using He.
  pose proof row_ok as H. unfold entity_ok in H. split_andb. intros Hf.
  by eapply (forallb_elem (format_ok _)).
Qed.

Lemma row_region r : r ∈ e.(e_regions) -> region_ok r = true.
Proof using He.
  pose proof row_ok as H. unfold entity_ok in H. split_andb. intros Hr.
  by eapply (forallb_elem region_ok).
Qed.

Lemma row_regions :
  e.(e_regions) <> [] -> Forall (fun r => 0 <= r.(r_weight)) e.(e_regions)
  /\ 0 < weight_total r_weight e.(e_regions) <= u32_max.
Proof using He.
  intros Hne. assert (Hw : Forall (fun r => 0 < r.(r_weight)) e.(e_regions)).
  { apply Forall_forall. intros r Hr%row_region. unfold region_ok in Hr. split_andb. lia. }
  pose proof row_ok as H. unfold entity_ok in H. split_andb. by apply weight_total_ok.
Qed.

Lemma row_tag t : e.(e_tag) = Some t -> forallb is_ascii_uppercase t = true /\ length t = 1%nat.
Proof using He.
  intros Ht. pose proof row_ok as H. unfold entity_ok in H. rewrite Ht in H. split_andb.
  split; [done|]. destruct t as [|c [|d t]]; [done|done|].
  match goal with H : (_ <=? 1) = true |- _ => apply Z.leb_le in H; cbn [length] in H; lia end.
Qed.

Lemma row_texts :
  plain_text e.(e_name) = true /\ Forall (fun t => plain_text t = true) e.(e_towns)
  /\ (match e.(e_iso) with Some i => plain_text i = true | None => True end)
  /\ Forall (fun t => plain_text t = true) (pool e.(e_names))
  /\ pool e.(e_names) <> [] /\ Z.of_nat (length (pool e.(e_names))) <= u32_max
  /\ (e.(e_regions) = [] -> e.(e_towns) <> []) /\ Z.of_nat (length e.(e_towns)) <= u32_max
  /\ 1 <= e.(e_cq) <= 40 /\ 0 < e.(e_dxcc).
Proof using He.
  pose proof row_ok as H. unfold entity_ok, zone_ok in H. split_andb.
  destruct (short_spec (pool (e_names e))) as [? ?]; [done|].
  repeat split; try done; try lia.
  - apply Forall_forall. intros x. by apply forallb_elem.
  - by destruct (e_iso e).
  - apply Forall_forall. intros x. by apply forallb_elem.
  - intros Hr Ht. rewrite Hr, Ht in *. done.
Qed.
End Row.

Lemma distinct_NoDup {A} (eqb : A -> A -> bool) l :
  (forall a b, eqb a b = true <-> a = b) -> distinct eqb l = true -> NoDup l.
Proof.
  intros Heq. induction l as [|a l IH]; cbn; [constructor|]. intros [Ha Hl]%andb_true_iff.
  constructor; [|by apply IH]. intros Hin. apply negb_true_iff in Ha.
  assert (existsb (eqb a) l = true); [|congruence].
  apply existsb_exists. exists a. split; [by apply list_elem_of_In|]. by apply Heq.
Qed.

(** Entities have different numbers. *)
Lemma world_numbers : NoDup (map e_dxcc WORLD).
Proof. exact (distinct_NoDup _ _ Z.eqb_eq world_numbers_distinct). Qed.
Lemma world_inj e e' : e ∈ WORLD -> e' ∈ WORLD -> e.(e_dxcc) = e'.(e_dxcc) -> e = e'.
Proof.
  pose proof world_numbers as H. revert H. generalize WORLD as l.
  induction l as [|a l IH]; [by intros _ ?%elem_of_nil|].
  intros [Hn H]%NoDup_cons He He' Heq.
  assert (Hmap : forall x, x ∈ l -> e_dxcc x ∈ map e_dxcc l)
    by (intros x Hx; apply list_elem_of_fmap; eauto).
  apply elem_of_cons in He as [->|He], He' as [->|He']; [done| | |by apply IH].
  - destruct Hn. rewrite Heq. by apply Hmap.
  - destruct Hn. rewrite <- Heq. by apply Hmap.
Qed.

Lemma by_dxcc_spec d e : by_dxcc d = Done e -> e ∈ WORLD /\ e.(e_dxcc) = d.
Proof.
  unfold by_dxcc. destruct (List.find _ _) as [e'|] eqn:E; [|done]. intros [= <-].
  apply List.find_some in E as [Hin Heq%Z.eqb_eq]. split; [by apply list_elem_of_In|done].
Qed.
(** The entity of a row is found by its number. *)
Lemma by_dxcc_row e : e ∈ WORLD -> by_dxcc e.(e_dxcc) = Done e.
Proof.
  intros He. unfold by_dxcc. destruct (List.find _ _) as [e'|] eqn:E.
  - apply List.find_some in E as [Hin Heq%Z.eqb_eq]. f_equal. symmetry.
    apply world_inj; [done|by apply list_elem_of_In|done].
  - apply list_elem_of_In in He. apply (List.find_none _ _ E e) in He. cbn in He. lia.
Qed.
