(* ===== verification/CallsignFacts.v ===== *)
(** * CallsignFacts: what is proved of calls and homes

    Parsing accepts its own results; [entity_of] finds the owner of the longest
    prefix; the homes drawn are rows of the table outside the ones excluded;
    every call generated is a call, and its base is one too. *)

From Stdlib Require Import Floats.SpecFloat.
From S2P Require Import Prelude Text Morse Timing Tables World Draws Callsign WorldFacts.

(** ** Text of capitals and digits *)

Definition alnum_text (t : text) : Prop := Forall (fun c => is_alnum c = true) t.
Definition call_char (c : char) : bool := is_ascii_uppercase c || is_ascii_digit c || (c =? slash).

Lemma is_alnum_range c : is_alnum c = true -> 48 <= c <= 57 \/ 65 <= c <= 90.
Proof. unfold is_alnum, is_ascii_uppercase, is_ascii_digit. lia. Qed.
Lemma call_char_range c : call_char c = true -> 47 <= c <= 57 \/ 65 <= c <= 90.
Proof. unfold call_char, is_ascii_uppercase, is_ascii_digit, slash. lia. Qed.
Lemma call_char_alnum c : is_alnum c = true -> call_char c = true.
Proof. unfold call_char, is_alnum. by intros ->. Qed.

Lemma call_char_upper c : call_char c = true -> to_ascii_uppercase c = c.
Proof.
  intros H%call_char_range. unfold to_ascii_uppercase.
  destruct ((97 <=? c) && (c <=? 122)) eqn:E; [lia|done].
Qed.
Lemma call_char_len c : call_char c = true -> len_utf8 c = 1.
Proof. intros H%call_char_range. unfold len_utf8. destruct (c <? 0x80) eqn:E; [done|lia]. Qed.
Lemma call_char_space c : call_char c = true -> is_whitespace c = false.
Proof. intros H%call_char_range. unfold is_whitespace. lia. Qed.

Lemma alnum_call t : alnum_text t -> Forall (fun c => call_char c = true) t.
Proof. intros H. eapply Forall_impl; [exact H|]. cbn. apply call_char_alnum. Qed.

Lemma str_len_call t : Forall (fun c => call_char c = true) t -> str_len t = Z.of_nat (length t).
Proof.
  induction 1 as [|c t Hc Ht IH]; [done|].
  change (str_len (c :: t)) with (len_utf8 c + str_len t).
  rewrite (call_char_len c Hc), IH. cbn [length]. lia.
Qed.
Lemma upper_call t : Forall (fun c => call_char c = true) t -> to_ascii_uppercase_str t = t.
Proof.
  induction 1 as [|c t Hc Ht IH]; [done|].
  change (to_ascii_uppercase c :: to_ascii_uppercase_str t = c :: t). by rewrite call_char_upper, IH.
Qed.
Lemma trim_start_call t : Forall (fun c => call_char c = true) t -> trim_start t = t.
Proof. intros [|c t' Hc Ht]; [done|]. cbn. by rewrite call_char_space. Qed.
Lemma trim_call t : Forall (fun c => call_char c = true) t -> trim t = t.
Proof.
  intros H. unfold trim, trim_end. rewrite (trim_start_call t H), trim_start_call; [apply rev_involutive|].
  apply Forall_rev in H. exact H.
Qed.

Lemma alnum_no_slash t : alnum_text t -> contains_char slash t = false.
Proof.
  induction 1 as [|c t Hc Ht IH]; [done|].
  change ((slash =? c) || contains_char slash t = false). rewrite IH.
  apply is_alnum_range in Hc. unfold slash. lia.
Qed.
Lemma split_on_none t : contains_char slash t = false -> split_on slash t = [t].
Proof.
  induction t as [|c t IH]; [done|]. intros H.
  change ((slash =? c) || contains_char slash t = false) in H. cbn [split_on].
  replace (c =? slash) with false by lia. rewrite IH; [done|]. by destruct (contains_char slash t), (slash =? c).
Qed.
Lemma split_on_app a t :
  contains_char slash a = false -> split_on slash (a ++ slash :: t) = a :: split_on slash t.
Proof.
  induction a as [|c a IH]; intros H; [done|].
  change ((slash =? c) || contains_char slash a = false) in H. cbn [split_on app].
  replace (c =? slash) with false by lia. rewrite IH; [done|]. by destruct (contains_char slash a), (slash =? c).
Qed.
Lemma contains_char_app c a b : contains_char c (a ++ b) = contains_char c a || contains_char c b.
Proof. apply existsb_app. Qed.
Lemma contains_pair_alnum t : alnum_text t -> contains_pair slash slash t = false.
Proof.
  induction 1 as [|c t Hc Ht IH]; [done|]. cbn [contains_pair]. destruct t; [done|].
  rewrite IH. apply is_alnum_range in Hc. unfold slash in *. lia.
Qed.
Lemma contains_pair_app a y :
  alnum_text a -> y <> [] -> head y <> Some slash -> contains_pair slash slash y = false ->
  contains_pair slash slash (a ++ slash :: y) = false.
Proof.
  intros Ha Hne Hh Hy. induction Ha as [|c a Hc Ha IH].
  - destruct y as [|d y]; [done|]. cbn [app contains_pair].
    change (match y with [] => false | z :: _ => (d =? slash) && (z =? slash) || contains_pair slash slash y end)
      with (contains_pair slash slash (d :: y)).
    rewrite Hy. destruct (d =? slash) eqn:E; [|by rewrite andb_false_r].
    apply Z.eqb_eq in E. cbn in Hh. congruence.
  - change ((c :: a) ++ slash :: y) with (c :: (a ++ slash :: y)). cbn [contains_pair].
    destruct (a ++ slash :: y); [done|]. rewrite IH.
    apply is_alnum_range in Hc. unfold slash. lia.
Qed.

(** ** Bases *)

Lemma base_at_plain s : contains_char slash s = false -> base_at s = (0%nat, s).
Proof. intros H. unfold base_at. by rewrite H. Qed.

Lemma split_on_chars t : forall p, p ∈ split_on slash t -> forall c, c ∈ p -> c ∈ t.
Proof.
  induction t as [|d t IH]; intros p Hp c Hc; cbn [split_on] in Hp.
  { apply list_elem_of_singleton in Hp as ->. by apply elem_of_nil in Hc. }
  destruct (d =? slash).
  - apply elem_of_cons in Hp as [->|Hp]; [by apply elem_of_nil in Hc|].
    apply list_elem_of_further. by eapply IH.
  - destruct (split_on slash t) as [|q ps].
    + apply list_elem_of_singleton in Hp as ->. apply list_elem_of_singleton in Hc as ->. apply list_elem_of_here.
    + apply elem_of_cons in Hp as [->|Hp].
      * apply elem_of_cons in Hc as [->|Hc]; [apply list_elem_of_here|].
        apply list_elem_of_further. eapply (IH q); [apply list_elem_of_here|done].
      * apply list_elem_of_further. eapply (IH p); [by apply list_elem_of_further|done].
Qed.
Lemma foldl_better (f : option (nat * text) -> nat * text -> option (nat * text)) :
  (forall best p, f best p = best \/ f best p = Some p) ->
  forall ps best r, foldl f best ps = Some r -> best = Some r \/ r ∈ ps.
Proof.
  intros Hf ps. induction ps as [|p ps IH]; intros best r Hr; [by left|].
  cbn in Hr. destruct (IH _ _ Hr) as [Hb|Hin]; [|right; by apply list_elem_of_further].
  destruct (Hf best p) as [E|E]; rewrite E in Hb; [by left|].
  injection Hb as ->. right. apply list_elem_of_here.
Qed.
(** A base is a piece of the call. *)
Lemma base_part_chars t : Forall (fun c => call_char c = true) t -> Forall (fun c => call_char c = true) (base_part t).
Proof.
  intros Ht. apply Forall_forall. intros c Hc. apply (proj1 (Forall_forall _ _) Ht).
  unfold base_part, base_at in Hc. destruct (negb _); [done|].
  assert (Hin : forall r, r ∈ imap pair (split_on slash t) -> c ∈ r.2 -> c ∈ t).
  { intros [i p] Hr Hcp. apply list_elem_of_lookup in Hr as [j Hj]. rewrite list_lookup_imap in Hj.
    destruct (split_on slash t !! j) as [q|] eqn:Eq; [|done]. cbn in Hj. injection Hj as <- <-.
    eapply split_on_chars; [by eapply list_elem_of_lookup_2|done]. }
  destruct (foldl better_base None _) as [r|] eqn:E.
  - apply foldl_better in E as [?|Hr]; [done|by eapply Hin|].
    intros best p. unfold better_base. repeat case_match; auto.
  - destruct (foldl longer None _) as [r|] eqn:E2; [|done]. cbn in Hc.
    apply foldl_better in E2 as [?|Hr]; [done|by eapply Hin|].
    intros best p. unfold longer. repeat case_match; auto.
Qed.

Lemma existsb_witness {A} (f : A -> bool) l x : x ∈ l -> f x = true -> existsb f l = true.
Proof. intros Hin Hx. apply existsb_exists. exists x. split; [by apply list_elem_of_In|done]. Qed.

(** A piece with a digit is not a modifier. *)
Lemma digit_candidate p : existsb is_ascii_digit p = true -> base_candidate p = true.
Proof.
  intros Hd. unfold base_candidate. rewrite Hd. cbn [andb].
  assert (H : forall l, forallb (fun q => negb (existsb is_ascii_digit q)) l = true -> member p l = false).
  { intros l Hl. destruct (member p l) eqn:E; [|done].
    apply existsb_exists in E as (q & Hq & ->%bool_decide_eq_true).
    apply list_elem_of_In in Hq. apply (forallb_elem _ _ _ Hl) in Hq. by rewrite Hd in Hq. }
  by rewrite !H by reflexivity.
Qed.

Lemma base_at_before b x :
  contains_char slash b = false -> contains_char slash x = false ->
  existsb is_ascii_digit b = true -> (base_candidate x = false \/ str_len x < str_len b) ->
  base_at (b ++ slash :: x) = (0%nat, b).
Proof.
  intros Hb Hx Hd Hor. unfold base_at.
  rewrite contains_char_app, split_on_app, split_on_none by done.
  replace (contains_char slash b || contains_char slash (slash :: x)) with true
    by (rewrite Hb; done).
  change (imap pair [b; x]) with [(0%nat, b); (1%nat, x)]. cbn [negb foldl].
  unfold better_base at 2. cbn [snd].
  rewrite (digit_candidate b Hd). unfold better_base. cbn [snd].
  destruct (base_candidate x) eqn:E; [|done]. destruct Hor as [?|Hlt]; [done|].
  replace (str_len b <? str_len x) with false by lia.
  by replace (str_len x =? str_len b) with false by lia.
Qed.
Lemma base_at_after d b :
  contains_char slash d = false -> contains_char slash b = false ->
  existsb is_ascii_digit b = true -> str_len d < str_len b ->
  base_at (d ++ slash :: b) = (1%nat, b).
Proof.
  intros Hd Hb Hdig Hlt. unfold base_at.
  rewrite contains_char_app, split_on_app, split_on_none by done.
  replace (contains_char slash d || contains_char slash (slash :: b)) with true
    by (rewrite Hd; done).
  change (imap pair [d; b]) with [(0%nat, d); (1%nat, b)]. cbn [negb foldl].
  unfold better_base at 1. cbn [snd].
  rewrite (digit_candidate b Hdig). unfold better_base. cbn [snd].
  destruct (base_candidate d); [|done]. cbn [snd]. by replace (str_len d <? str_len b) with true by lia.
Qed.

(** ** Parsing *)

Definition plain_call (b : text) : Prop := plain_callb b = true.

Lemma plain_call_spec b : plain_call b ->
  alnum_text b /\ existsb is_ascii_digit b = true /\ existsb is_ascii_uppercase b = true
  /\ 3 <= Z.of_nat (length b) <= 9.
Proof.
  unfold plain_call, plain_callb. intros H. split_andb.
  repeat split; try done; try lia. by apply Forall_forall; intros c; apply forallb_elem.
Qed.

(** What [parse] asks of a text that is already trimmed and in capitals. *)
Lemma parse_ok s :
  Forall (fun c => call_char c = true) s -> 3 <= Z.of_nat (length s) <= 14 ->
  head s <> Some slash -> last s <> Some slash -> contains_pair slash slash s = false ->
  existsb is_ascii_digit (base_part s) = true -> existsb is_ascii_uppercase (base_part s) = true ->
  parse s = Ok (mk_Callsign s).
Proof.
  intros Hs Hlen Hh Hl Hp Hd Hu. unfold parse. rewrite trim_call, upper_call, str_len_call by done.
  cbv zeta. rewrite Hd, Hu, Hp.
  replace ((3 <=? Z.of_nat (length s)) && (Z.of_nat (length s) <=? 14)) with true by lia.
  change (forallb (fun b => is_ascii_uppercase b || is_ascii_digit b || (b =? slash)) s)
    with (forallb call_char s).
  rewrite (proj2 (List.forallb_forall call_char s)).
  2:{ intros c Hc. apply list_elem_of_In in Hc. by apply (proj1 (Forall_forall _ _) Hs). }
  cbn [negb].
  replace (match s with c :: _ => c =? slash | [] => false end) with false.
  2:{ destruct s as [|c s]; [done|]. cbn in Hh. destruct (c =? slash) eqn:E; [|done].
      apply Z.eqb_eq in E. congruence. }
  replace (match last s with Some c => c =? slash | None => false end) with false; [done|].
  destruct (last s) as [c|] eqn:E; [|done]. destruct (c =? slash) eqn:E'; [|done].
  apply Z.eqb_eq in E'. congruence.
Qed.

Lemma alnum_ends t : alnum_text t -> head t <> Some slash /\ last t <> Some slash.
Proof.
  intros Ht. assert (H : forall c, c ∈ t -> c <> slash).
  { intros c Hc. apply (proj1 (Forall_forall _ _) Ht) in Hc. apply is_alnum_range in Hc.
    unfold slash. lia. }
  split.
  - destruct t as [|c t]; [done|]. intros [= Hc]. by apply (H c), Hc; apply list_elem_of_here.
  - intros Hl. apply last_Some_elem_of in Hl. by apply (H slash).
Qed.

Lemma parse_plain b : plain_call b -> parse b = Ok (mk_Callsign b).
Proof.
  intros (Ha & Hd & Hu & Hlen)%plain_call_spec. destruct (alnum_ends b Ha) as [Hh Hl].
  assert (Hb : base_part b = b) by (unfold base_part; by rewrite base_at_plain by by apply alnum_no_slash).
  apply parse_ok; rewrite ?Hb; try done; [by apply alnum_call|lia|by apply contains_pair_alnum].
Qed.

(** Two pieces of which one is the base. *)
Lemma parse_slashed a x b :
  alnum_text a -> alnum_text x -> a <> [] -> x <> [] ->
  Z.of_nat (length a + length x) <= 13 -> base_part (a ++ slash :: x) = b -> plain_call b ->
  parse (a ++ slash :: x) = Ok (mk_Callsign (a ++ slash :: x)).
Proof.
  intros Ha Hx Hna Hnx Hlen Hb (_ & Hd & Hu & _)%plain_call_spec.
  apply parse_ok; rewrite ?Hb; try done.
  - apply Forall_app. split; [by apply alnum_call|]. constructor; [done|by apply alnum_call].
  - rewrite length_app. cbn [length]. destruct a, x; try done. cbn [length] in *. lia.
  - destruct a as [|c a]; [done|]. apply (alnum_ends (c :: a) Ha).
  - rewrite last_app_cons. destruct x as [|c x]; [done|]. rewrite last_cons_cons. by apply alnum_ends.
  - apply contains_pair_app; [done|done|by apply alnum_ends|by apply contains_pair_alnum].
Qed.

Lemma parse_inv s c : parse s = Ok c ->
  Forall (fun d => call_char d = true) c.(as_str) /\ 3 <= Z.of_nat (length c.(as_str)) <= 14
  /\ head c.(as_str) <> Some slash /\ last c.(as_str) <> Some slash
  /\ contains_pair slash slash c.(as_str) = false
  /\ existsb is_ascii_digit (base c) = true /\ existsb is_ascii_uppercase (base c) = true.
Proof.
  unfold parse. set (up := to_ascii_uppercase_str (trim s)). cbv zeta.
  destruct (negb _) eqn:Hlen in |- *; [done|].
  destruct (negb (forallb _ up)) eqn:Hall; [done|].
  destruct (_ || _) eqn:Hends in |- *; [done|].
  destruct (_ || _) eqn:Hbase in |- *; [done|]. intros [= <-]. cbn [as_str]. unfold base. cbn [as_str].
  apply negb_false_iff in Hall. change (forallb call_char up = true) in Hall.
  assert (Hs : Forall (fun d => call_char d = true) up)
    by (apply Forall_forall; intros d; by apply forallb_elem).
  rewrite str_len_call in Hlen by done.
  apply orb_false_iff in Hends as [[Hh Hl]%orb_false_iff Hp].
  apply orb_false_iff in Hbase as [Hd%negb_false_iff Hu%negb_false_iff].
  repeat split; try done; try lia.
  - destruct up as [|d up']; [done|]. intros [= ->]. done.
  - intros E. by rewrite E in Hl.
Qed.

(** A call survives being written out and read back. *)
Theorem parse_reparses s c : parse s = Ok c -> parse c.(as_str) = Ok c.
Proof.
  intros (Hs & Hlen & Hh & Hl & Hp & Hd & Hu)%parse_inv. destruct c as [t]. cbn [as_str] in *.
  by apply parse_ok.
Qed.
Lemma parse_reparses_witness :
  parse (txt " ve3/w1xyz ") = Ok (mk_Callsign (txt "VE3/W1XYZ"))
  /\ parse (as_str (mk_Callsign (txt "VE3/W1XYZ"))) = Ok (mk_Callsign (txt "VE3/W1XYZ")).
Proof.
  assert (H : parse (txt " ve3/w1xyz ") = Ok (mk_Callsign (txt "VE3/W1XYZ"))) by (vm_compute; reflexivity).
  split; [exact H|]. exact (parse_reparses _ _ H).
Defined.

(** ** Homes *)

Definition home_ok (h : Home) : Prop :=
  h.(h_entity) ∈ WORLD /\ (forall r, h.(h_region) = Some r -> r ∈ h.(h_entity).(e_regions)).
(** A home with something to say for QTH. *)
Definition home_good (h : Home) : Prop :=
  home_ok h /\ (h.(h_region) = None -> h.(h_entity).(e_towns) <> []).
Definition homes_ok (o : option Home) : Prop := forall h, o = Some h -> home_ok h.

Lemma entity_region_ok e piece d : e ∈ WORLD ->
  exists o, entity_region e piece d = Done o /\ (forall r, o = Some r -> r ∈ e.(e_regions)).
Proof.
  intros He. unfold entity_region. rewrite by_dxcc_row by done. cbn [outcome_bind].
  eexists. split; [done|]. intros r [Hr _]%List.find_some. by apply list_elem_of_In.
Qed.

Lemma by_dxcc_usa : exists e, by_dxcc USA = Done e /\ e ∈ WORLD /\ e.(e_dxcc) = USA /\ e.(e_tag) = None.
Proof.
  assert (H : (match by_dxcc USA with Done e => bool_decide (e_tag e = None) | _ => false end) = true)
    by (vm_compute; reflexivity).
  destruct (by_dxcc USA) as [e| | |] eqn:E; try done. apply by_dxcc_spec in E as [? ?].
  apply bool_decide_eq_true in H. eauto.
Qed.

Lemma str_len_pos c t : 0 < str_len (c :: t).
Proof.
  change (0 < len_utf8 c + str_len t).
  assert (H : forall d, 0 < len_utf8 d) by (intros d; unfold len_utf8; repeat case_match; lia).
  assert (0 <= str_len t).
  { induction t as [|d t IH]; [done|]. change (0 <= len_utf8 d + str_len t). specialize (H d). lia. }
  specialize (H c). lia.
Qed.
(** Two prefixes of a text that are as long are the same. *)
Lemma starts_with_same_len t : forall p q,
  starts_with t p = true -> starts_with t q = true -> str_len p = str_len q -> p = q.
Proof.
  induction t as [|c t IH]; intros [|d p] [|e q] Hp Hq Hl; cbn in Hp, Hq; try done;
    try (pose proof (str_len_pos e q); change (str_len []) with 0 in Hl; lia);
    try (pose proof (str_len_pos d p); change (str_len []) with 0 in Hl; lia).
  apply andb_true_iff in Hp as [->%Z.eqb_eq Hp], Hq as [->%Z.eqb_eq Hq]. f_equal.
  apply IH; [done|done|]. change (len_utf8 c + str_len p = len_utf8 c + str_len q) in Hl. lia.
Qed.

(** [entity_of] as a search for the longest prefix among all rows. *)
Definition owns (piece : text) (designator : bool) (e : Entity) (p : text) : Prop :=
  e ∈ WORLD /\ e.(e_tag) = None /\ p ∈ e.(e_prefixes)
  /\ fits piece designator p = true /\ starts_with piece p = true.

(** The invariant of its loops: [best] is a longest of what was looked at. *)
Definition best_of (seen : list (Entity * text)) (best : option (Entity * Z)) : Prop :=
  match best with
  | None => seen = []
  | Some (e, l) => (exists p, (e, p) ∈ seen /\ str_len p = l) /\ Forall (fun q => str_len q.2 <= l) seen
  end.
Definition matching (piece : text) (designator : bool) (e : Entity) : list (Entity * text) :=
  map (pair e) (List.filter (fun p => fits piece designator p && starts_with piece p) e.(e_prefixes)).

Lemma best_of_prefix piece des e ps : forall seen best,
  best_of seen best ->
  best_of (seen ++ map (pair e) (List.filter (fun p => fits piece des p && starts_with piece p) ps))
    (foldl (better_prefix piece des e) best ps).
Proof.
  induction ps as [|p ps IH]; intros seen best Hb; cbn [foldl List.filter map]; [by rewrite app_nil_r|].
  unfold better_prefix at 2. destruct (fits piece des p && starts_with piece p) eqn:Hm; cbn [andb map].
  2:{ by apply IH. }
  rewrite cons_middle, app_assoc. apply IH. destruct best as [[e' l]|]; cbn [best_of] in *.
  - destruct Hb as [(p' & Hin & Hl) Hall]. destruct (l <? str_len p) eqn:E; cbn [best_of].
    + split; [exists p; split; [set_solver|done]|]. apply Forall_app. split; [|repeat constructor; cbn [snd]; lia].
      eapply Forall_impl; [exact Hall|]. cbn beta. lia.
    + split; [exists p'; split; [set_solver|done]|]. apply Forall_app. split; [done|].
      repeat constructor. cbn [snd]. lia.
  - subst seen. split; [exists p; split; [set_solver|done]|]. repeat constructor. cbn [snd]. lia.
Qed.

Lemma best_of_entities piece des es : forall seen best,
  best_of seen best ->
  best_of (seen ++ concat (map (matching piece des) es)) (foldl (better_entity piece des) best es).
Proof.
  induction es as [|e es IH]; intros seen best Hb; cbn [foldl map concat]; [by rewrite app_nil_r|].
  rewrite app_assoc. apply IH. by apply best_of_prefix.
Qed.

Lemma elem_of_matching piece des e q p :
  (q, p) ∈ matching piece des e <->
  q = e /\ p ∈ e.(e_prefixes) /\ fits piece des p = true /\ starts_with piece p = true.
Proof.
  unfold matching. rewrite list_elem_of_fmap. split.
  - intros (p' & [= -> ->] & Hp). apply list_elem_of_In, filter_In in Hp as [Hp Hm%andb_true_iff].
    by apply list_elem_of_In in Hp.
  - intros (-> & Hp & Hf & Hs). exists p. split; [done|].
    apply list_elem_of_In, filter_In. split; [by apply list_elem_of_In|]. by rewrite Hf, Hs.
Qed.
Lemma elem_of_all_matching piece des q p :
  (q, p) ∈ concat (map (matching piece des) (List.filter untagged WORLD)) <-> owns piece des q p.
Proof.
  rewrite <- flat_map_concat_map, list_elem_of_In, in_flat_map. unfold owns. split.
  - intros (e & He & Hin). apply filter_In in He as [He Ht].
    apply list_elem_of_In, elem_of_matching in Hin as (-> & ? & ? & ?). unfold untagged in Ht.
    apply list_elem_of_In in He. by destruct (e_tag e).
  - intros (He & Ht & Hp). exists q. split.
    + apply filter_In. split; [by apply list_elem_of_In|]. unfold untagged. by rewrite Ht.
    + by apply list_elem_of_In, elem_of_matching.
Qed.

Lemma text_eqb_eq a b : text_eqb a b = true <-> a = b.
Proof. apply bool_decide_eq_true. Qed.

(** A prefix has one owner. *)
Lemma prefix_owner e e' p :
  e ∈ WORLD -> e' ∈ WORLD -> e.(e_tag) = None -> e'.(e_tag) = None ->
  p ∈ e.(e_prefixes) -> p ∈ e'.(e_prefixes) -> e = e'.
Proof.
  pose proof (distinct_NoDup _ _ text_eqb_eq world_prefixes_distinct) as H.
  intros He He' Ht Ht'.
  assert (Hin : e ∈ List.filter untagged WORLD /\ e' ∈ List.filter untagged WORLD).
  { split; apply list_elem_of_In, filter_In; (split; [by apply list_elem_of_In|]); unfold untagged;
      by rewrite ?Ht, ?Ht'. }
  destruct Hin as [Hin Hin']. revert H Hin Hin'. clear He He' Ht Ht'.
  generalize (List.filter untagged WORLD) as l. intros l.
  induction l as [|a l IH]; cbn [map concat]; [by intros _ ?%elem_of_nil|].
  intros (Ha & Hdisj & Hl)%NoDup_app Hin Hin' Hp Hp'.
  assert (Hc : forall x, x ∈ l -> p ∈ x.(e_prefixes) -> p ∈ concat (map e_prefixes l)).
  { intros x Hx Hpx. rewrite <- flat_map_concat_map, list_elem_of_In, in_flat_map.
    exists x. by split; apply list_elem_of_In. }
  apply elem_of_cons in Hin as [->|Hin], Hin' as [->|Hin']; [done| | |by apply IH].
  - destruct (Hdisj p); eauto.
  - destruct (Hdisj p); eauto.
Qed.

Lemma entity_of_spec piece des e :
  entity_of piece des = Some e <->
  exists p, owns piece des e p /\ (forall e' p', owns piece des e' p' -> str_len p' <= str_len p).
Proof.
  pose proof (best_of_entities piece des (List.filter untagged WORLD) [] None eq_refl) as Hb.
  unfold entity_of. change (fun e => match e_tag e with None => true | Some _ => false end) with untagged.
  cbn [app] in Hb. revert Hb. generalize (foldl (better_entity piece des) None (List.filter untagged WORLD)).
  intros [[e0 l]|] Hb; cbn [best_of] in Hb; cbn.
  - destruct Hb as [(p0 & Hin & <-) Hall]. apply elem_of_all_matching in Hin.
    assert (Hmax : forall e' p', owns piece des e' p' -> str_len p' <= str_len p0).
    { intros e' p' Hown%elem_of_all_matching. apply (proj1 (Forall_forall _ _) Hall (e', p') Hown). }
    split; [intros [= <-]; eauto|]. intros (p & Hown & Hle). f_equal.
    assert (Hp : p0 = p).
    { pose proof (Hmax _ _ Hown). pose proof (Hle _ _ Hin).
      destruct Hin as (_ & _ & _ & _ & Hs0), Hown as (_ & _ & _ & _ & Hs).
      apply (starts_with_same_len piece); [done|done|lia]. }
    subst p0. destruct Hin as (? & ? & ? & _), Hown as (? & ? & ? & _). by eapply prefix_owner.
  - split; [done|]. intros (p & Hown%elem_of_all_matching & _). rewrite Hb in Hown.
    by apply elem_of_nil in Hown.
Qed.

Lemma entity_of_in piece des e : entity_of piece des = Some e -> e ∈ WORLD /\ e.(e_tag) = None.
Proof. intros (p & (? & ? & _) & _)%entity_of_spec. done. Qed.


(** [KG4] and two letters is Guantanamo, and so is the bare designator; with
    more letters it is a call of the United States. *)
Example guantanamo :
  (e_dxcc <$> entity_of (txt "KG4AB") false) = Some 105 /\ (e_dxcc <$> entity_of (txt "KG4") true) = Some 105
  /\ (e_dxcc <$> entity_of (txt "KG4ABC") false) = Some USA /\ entity_of (txt "QQ1A") false = None.
Proof. vm_compute. repeat split. Qed.

Lemma home_pieces_ok base pieces : forall past before after h,
  home_pieces base past before after pieces = inl h -> homes_ok h.
Proof.
  induction pieces as [|[i piece] pieces IH]; intros past before after h; cbn [home_pieces]; [done|].
  destruct (i =? base.1)%nat; [apply IH|]. destruct (negb past); [apply IH|].
  destruct (tagged base.2 piece) as [e|] eqn:Et.
  - intros [= <-] h' [= <-]. apply List.find_some in Et as [He _]. split; [by apply list_elem_of_In|done].
  - destruct (member piece MODIFIERS); [apply IH|]. destruct (member piece NO_ENTITY); [|apply IH].
    by intros [= <-].
Qed.

(** [home_of] answers, with a row of the table and one of its areas. *)
Lemma home_of_ok c : exists o, home_of c = Done o /\ homes_ok o.
Proof.
  unfold home_of. destruct (home_pieces _ _ _ _ _) as [h|[before after]] eqn:Eh.
  { eexists. split; [done|]. by eapply home_pieces_ok. }
  assert (H : forall entity prefix_from digit_from,
    (forall e, entity = Some e -> e ∈ WORLD) ->
    exists o, (match entity with
               | None => Done None
               | Some entity =>
                   let# region := (match area_digit digit_from with
                                   | Some d => entity_region entity prefix_from d
                                   | None => Done None
                                   end) in
                   Done (Some (mk_Home entity region))
               end) = Done o /\ homes_ok o).
  { intros [e|] pf df He; [|eexists; split; [done|]; intros h; done].
    specialize (He e eq_refl). destruct (area_digit df) as [d|].
    - destruct (entity_region_ok e pf d He) as (o & -> & Ho). cbn [outcome_bind].
      eexists. split; [done|]. by intros h [= <-].
    - cbn [outcome_bind]. eexists. split; [done|]. by intros h [= <-]. }
  destruct (match before with Some _ => before | None => after end) as [d|];
    [destruct (forallb is_ascii_digit d)|]; apply H; intros e He%entity_of_in; apply He.
Qed.

Lemma resolves_to_ok s h : exists b, resolves_to s h = Done b /\ (b = true -> exists c, parse s = Ok c).
Proof.
  unfold resolves_to. destruct (parse s) as [c|]; [|by eexists].
  destruct (home_of_ok c) as (o & -> & _). cbn [outcome_bind]. eexists. eauto.
Qed.

(** ** Homes drawn *)

Section Draw.
Context {F : Fuel}.

Lemma random_in_gives e : e ∈ WORLD -> gives (random_in e) (fun h => home_good h /\ h.(h_entity) = e).
Proof.
  intros He. unfold random_in.
  apply gives_bind with (P := fun o => (forall r, o = Some r -> r ∈ e.(e_regions))
                                       /\ (o = None -> e.(e_towns) <> [])).
  - destruct (e_regions e) as [|r0 rs] eqn:Er.
    { apply gives_ret. split; [done|]. intros _. by apply (row_texts e He). }
    destruct (row_regions e He) as [Hw Ht]; [by rewrite Er|]. rewrite Er in Hw, Ht.
    eapply gives_bind; [by apply pick_weighted_gives|]. intros r [Hr _]. apply gives_ret. split; [by intros r' [= <-]|done].
  - intros o [Ho Ht]. by apply gives_ret.
Qed.

Lemma entity_or_usa_okay me : homes_ok me ->
  exists e, entity_or_usa me = Done e /\ e ∈ WORLD.
Proof.
  intros Hme. destruct me as [h|]; cbn.
  - eexists. split; [done|]. by apply (Hme h).
  - destruct by_dxcc_usa as (e & -> & ? & _). eauto.
Qed.

Lemma random_local_gives me : homes_ok me -> gives (random_local me) home_good.
Proof.
  intros (e & He & Hin)%entity_or_usa_okay. unfold random_local. rewrite He.
  apply gives_bind with (P := eq e); [by apply gives_lift|]. intros ? <-.
  eapply gives_mono; [by apply random_in_gives|]. by intros h [? _].
Qed.
Lemma random_us_gives : gives random_us (fun h => home_good h /\ h.(h_entity).(e_tag) = None).
Proof.
  unfold random_us. destruct by_dxcc_usa as (e & -> & ? & ? & ?).
  apply gives_bind with (P := eq e); [by apply gives_lift|]. intros ? <-.
  eapply gives_mono; [by apply random_in_gives|]. intros h [? ->]. done.
Qed.

Lemma activity_weight_range a : 1 <= activity_weight a <= 100.
Proof. by destruct a. Qed.

(** Some entity is outside any short list of numbers. *)
Lemma world_outside not : (length not < 340)%nat -> exists e, e ∈ WORLD /\ ~ e.(e_dxcc) ∈ not.
Proof.
  intros Hlen. destruct (decide (Forall (fun e => e.(e_dxcc) ∈ not) WORLD)) as [Hall|Hn].
  - assert (Hsub : map e_dxcc WORLD ⊆ not).
    { intros d. rewrite list_elem_of_fmap. intros (e & -> & He).
      exact (proj1 (Forall_forall _ _) Hall e He). }
    pose proof (submseteq_length _ _ (NoDup_submseteq _ _ world_numbers Hsub)) as Hle.
    rewrite length_map, world_length in Hle. lia.
  - apply not_Forall_Exists in Hn; [|apply _]. apply Exists_exists in Hn as (e & ? & ?). eauto.
Qed.

Lemma elem_of_existsb_Z d l : existsb (Z.eqb d) l = true <-> d ∈ l.
Proof.
  rewrite existsb_exists. split.
  - intros (x & Hx & ->%Z.eqb_eq). by apply list_elem_of_In.
  - intros Hd. exists d. split; [by apply list_elem_of_In|by apply Z.eqb_refl].
Qed.

(** A caller is drawn from the table, and from none of the entities excluded. *)
Lemma random_caller_gives me not band : homes_ok me -> (length not < 340)%nat ->
  gives (random_caller me not band) (fun h => home_good h /\ ~ h.(h_entity).(e_dxcc) ∈ not).
Proof.
  intros (mine & Hmine & Hin)%entity_or_usa_okay Hlen. unfold random_caller. rewrite Hmine.
  apply gives_bind with (P := eq mine); [by apply gives_lift|]. intros ? <-.
  destruct (match band with Some b => path_weights b | None => (NEAR_BOOST, 1) end) as [near_w far_w] eqn:Ew.
  assert (Hnf : 1 <= near_w <= 12 /\ 1 <= far_w <= 12)
    by (destruct band as [[]|]; cbn in Ew; simplify_eq; unfold NEAR_BOOST; lia).
  set (weight := caller_weight (e_continent mine) not near_w far_w).
  assert (Hw : forall e, 0 <= weight e <= 1200 /\ (0 < weight e <-> ~ e.(e_dxcc) ∈ not)).
  { intros e. unfold weight, caller_weight. pose proof (activity_weight_range (e_activity e)).
    destruct (existsb _ not) eqn:E.
    - apply elem_of_existsb_Z in E. split; [lia|]. split; [lia|]. done.
    - assert (~ e.(e_dxcc) ∈ not) by (intros Hc%elem_of_existsb_Z; congruence).
      case_bool_decide; (split; [nia|]; split; [done|intros _; nia]). }
  eapply gives_bind; [apply pick_weighted_gives|].
  - apply Forall_forall. intros e _. apply Hw.
  - split.
    + destruct (world_outside not Hlen) as (e & He & Hne). apply (weight_total_pos weight _ e); [|done|].
      * apply Forall_forall. intros x _. apply Hw.
      * by apply Hw.
    + pose proof (weight_total_bound weight 1200 WORLD) as Hb. rewrite world_length in Hb.
      specialize (Hb (proj2 (Forall_forall _ _) (fun e _ => proj2 (proj1 (Hw e))))).
      unfold u32_max. lia.
  - intros e [He Hpos%Hw]. eapply gives_mono; [by apply random_in_gives|]. intros h [? ->]. done.
Qed.

Lemma random_dx_gives me band : homes_ok me -> gives (random_dx me band) home_good.
Proof.
  intros Hme. destruct (entity_or_usa_okay me Hme) as (e & He & _). unfold random_dx. rewrite He.
  apply gives_bind with (P := eq e); [by apply gives_lift|]. intros ? <-.
  eapply gives_mono; [apply random_caller_gives; [done|cbn; lia]|]. by intros h [? _].
Qed.

Lemma rare_rows d : d = 246 \/ d = 252 ->
  exists e, e ∈ WORLD /\ e.(e_dxcc) = d /\ e.(e_activity) = Activity.Rare.
Proof.
  intros Hd. assert (H : (match by_dxcc d with Done e => bool_decide (e_activity e = Activity.Rare) | _ => false end) = true)
    by (destruct Hd as [-> | ->]; vm_compute; reflexivity).
  destruct (by_dxcc d) as [e| | |] eqn:E; try done. apply by_dxcc_spec in E as [? ?].
  apply bool_decide_eq_true in H. eauto.
Qed.

Lemma random_rare_gives me :
  gives (random_rare me)
    (fun h => home_good h /\ (forall m, me = Some m -> h.(h_entity).(e_dxcc) <> m.(h_entity).(e_dxcc))).
Proof.
  unfold random_rare. set (own := _ <$> me). set (weight := rare_weight own).
  assert (Hw : forall e, 0 <= weight e <= 5 /\ (0 < weight e -> Some e.(e_dxcc) <> own)).
  { intros e. unfold weight, rare_weight. case_bool_decide; [lia|]. split; [|done].
    by destruct (e_activity e). }
  eapply gives_bind; [apply pick_weighted_gives|].
  - apply Forall_forall. intros e _. apply Hw.
  - split.
    + assert (exists d, (d = 246 \/ d = 252) /\ Some d <> own) as (d & Hd & Hown).
      { destruct (decide (Some 246 = own)) as [<-|]; [exists 252|exists 246]; split; auto; done. }
      destruct (rare_rows d Hd) as (e & He & <- & Hr). apply (weight_total_pos weight _ e); [|done|].
      * apply Forall_forall. intros x _. apply Hw.
      * unfold weight, rare_weight. rewrite bool_decide_eq_false_2 by done. by rewrite Hr.
    + pose proof (weight_total_bound weight 5 WORLD) as Hb. rewrite world_length in Hb.
      specialize (Hb (proj2 (Forall_forall _ _) (fun e _ => proj2 (proj1 (Hw e))))).
      unfold u32_max. lia.
  - intros e [He Hpos%Hw]. eapply gives_mono; [by apply random_in_gives|]. intros h [? ->].
    split; [done|]. intros m ->. unfold own in Hpos. cbn in Hpos. congruence.
Qed.

(** ** Calls generated *)

Lemma show_digit d : digit_ok d = true -> exists c, show d = [c] /\ is_ascii_digit c = true.
Proof.
  unfold digit_ok. intros H. assert (Hd : d ∈ map Z.of_nat (seq 0 10)).
  { apply list_elem_of_fmap. exists (Z.to_nat d). split; [lia|]. apply elem_of_seq. lia. }
  cbn in Hd. repeat (apply elem_of_cons in Hd as [->|Hd]; [eexists; split; reflexivity|]).
  by apply elem_of_nil in Hd.
Qed.

Lemma letters_from_gives n : forall first,
  gives (letters_from first n) (fun t => Forall (fun c => is_ascii_uppercase c = true) t /\ length t = n).
Proof.
  induction n as [|n IH]; intros first; cbn [letters_from]; [by apply gives_ret|].
  apply gives_bind with (P := fun c => is_ascii_uppercase c = true).
  - assert (Hp : gives (pick (if first then SUFFIX_FIRST else LETTERS))
                   (fun c => c ∈ if first then SUFFIX_FIRST else LETTERS)).
    { destruct first; apply pick_gives; done. }
    eapply gives_mono; [exact Hp|]. intros c Hc.
    destruct first; (eapply (forallb_elem is_ascii_uppercase); [|exact Hc]); reflexivity.
  - intros c Hc. eapply gives_bind; [apply IH|]. intros t [Ht <-]. apply gives_ret.
    split; [by constructor|done].
Qed.

(** What a format gives: a prefix that is as the table is checked to be, and
    the digit its rule asks for. *)
Definition drawn_prefix (f : CallFormat) (pd : text * text) : Prop :=
  exists digits, prefix_ok digits f.(cf_suffix).1 f.(cf_suffix).2 pd.1 = true
    /\ Z.of_nat (length pd.2) = digits /\ Forall (fun c => is_ascii_digit c = true) pd.2.

Lemma drawn_digit f p d : prefix_ok 1 f.(cf_suffix).1 f.(cf_suffix).2 p = true -> digit_ok d = true ->
  drawn_prefix f (p, show d).
Proof.
  intros Hp (c & Hc & Hd)%show_digit. exists 1. cbn [fst snd]. rewrite Hc.
  split; [done|]. split; [done|]. by repeat constructor.
Qed.

Lemma prefix_and_digit_gives f h : home_ok h -> f ∈ h.(h_entity).(e_formats) ->
  gives (prefix_and_digit f h) (drawn_prefix f).
Proof.
  intros [He Hr] Hf. pose proof (row_format _ He f Hf) as Hok. unfold format_ok in Hok.
  unfold prefix_and_digit. destruct (cf_suffix f) as [lo hi] eqn:Es. split_andb.
  destruct (short_spec (cf_prefixes f)) as [Hne Hlen]; [done|].
  destruct (cf_digit f) as [|ds|].
  - eapply gives_bind; [by apply pick_gives|]. intros p Hp. apply gives_ret.
    exists 0. rewrite Es. cbn [fst snd]. split; [by eapply forallb_elem|]. done.
  - split_andb. destruct (short_spec ds) as [? ?]; [done|].
    eapply gives_bind; [by apply pick_gives|]. intros p Hp.
    eapply gives_bind; [by apply pick_gives|]. intros d Hd. apply gives_ret.
    apply drawn_digit; [rewrite Es; cbn [fst snd]|]; by eapply forallb_elem.
  - split_andb. destruct (short_spec (e_regions (h_entity h))) as [? ?]; [done|].
    apply gives_bind with (P := fun r => r ∈ e_regions (h_entity h)).
    { destruct (h_region h) as [r|]; [apply gives_ret; by apply Hr|by apply pick_gives]. }
    intros r Hrin. pose proof (row_region _ He r Hrin) as Hrok. unfold region_ok in Hrok. split_andb.
    apply gives_bind with (P := fun p => prefix_ok 1 lo hi p = true).
    + match goal with H : forallb (fun r => match r_prefixes r with _ => _ end) _ = true |- _ =>
        apply (forallb_elem _ _ _ H) in Hrin end.
      destruct (r_prefixes r) as [|p0 ps].
      * eapply gives_mono; [by apply pick_gives|]. intros p Hp. by eapply forallb_elem.
      * split_andb. destruct (short_spec (p0 :: ps)) as [? ?]; [done|].
        eapply gives_mono; [by apply pick_gives|]. intros p Hp. by eapply (forallb_elem (prefix_ok 1 lo hi)).
    + intros p Hp. apply gives_ret. apply drawn_digit; [by rewrite Es|done].
Qed.

(** A call of an entity: a plain call, and the entity's tag if it has one. *)
Definition tag_part (e : Entity) : text := match e.(e_tag) with Some t => slash :: t | None => [] end.
Definition call_of_entity (e : Entity) (s : text) : Prop := exists b, plain_call b /\ s = b ++ tag_part e.

Lemma upper_alnum t : Forall (fun c => is_ascii_uppercase c = true) t -> alnum_text t.
Proof. intros Ht. eapply Forall_impl; [exact Ht|]. cbn beta. unfold is_alnum. by intros c ->. Qed.
Lemma digit_alnum t : Forall (fun c => is_ascii_digit c = true) t -> alnum_text t.
Proof. intros Ht. eapply Forall_impl; [exact Ht|]. cbn beta. unfold is_alnum. intros c ->. apply orb_true_r. Qed.
Lemma forallb_Forall {A} (f : A -> bool) l : forallb f l = true <-> Forall (fun x => f x = true) l.
Proof.
  rewrite Forall_forall, forallb_forall. split; intros Hx x Hin; by apply Hx, list_elem_of_In.
Qed.

Lemma drawn_call f p d l :
  drawn_prefix f (p, d) -> Forall (fun c => is_ascii_uppercase c = true) l ->
  f.(cf_suffix).1 <= Z.of_nat (length l) <= f.(cf_suffix).2 -> plain_call (p ++ d ++ l).
Proof.
  intros (digits & Hp & Hd & Hdig) Hl Hlen. cbn [fst snd] in *. unfold prefix_ok in Hp. cbv zeta in Hp.
  split_andb. unfold plain_call, plain_callb.
  assert (Ha : forallb is_alnum (p ++ d ++ l) = true).
  { apply forallb_Forall. repeat apply Forall_app_2; [by apply forallb_Forall|by apply digit_alnum|by apply upper_alnum]. }
  assert (Hdd : existsb is_ascii_digit (p ++ d ++ l) = true).
  { rewrite !existsb_app. destruct (existsb is_ascii_digit p) eqn:E; [done|].
    destruct d as [|c d]; [cbn [length] in *; lia|]. apply Forall_cons in Hdig as [Hc _]. cbn. by rewrite Hc. }
  assert (Huu : existsb is_ascii_uppercase (p ++ d ++ l) = true).
  { rewrite !existsb_app. destruct (existsb is_ascii_uppercase p) eqn:E; [done|].
    destruct l as [|c l]; [cbn [length] in *; lia|]. apply Forall_cons in Hl as [Hc _]. cbn [existsb].
    rewrite Hc. by rewrite orb_true_r. }
  rewrite Ha, Hdd, Huu, !length_app. cbn [andb].
  apply andb_true_iff. split; apply Z.leb_le; lia.
Qed.

Lemma call_in_format_gives f h : home_ok h -> f ∈ h.(h_entity).(e_formats) ->
  gives (call_in_format f h) (call_of_entity h.(h_entity)).
Proof.
  intros Hh Hf. unfold call_in_format.
  eapply gives_bind; [by apply prefix_and_digit_gives|]. intros [p d] Hpd.
  pose proof (row_format _ (proj1 Hh) f Hf) as Hok. unfold format_ok in Hok.
  assert (Hs : 0 <= f.(cf_suffix).1 <= f.(cf_suffix).2 /\ f.(cf_suffix).2 <= 3)
    by (destruct (cf_suffix f); split_andb; cbn [fst snd]; lia). clear Hok.
  eapply gives_bind; [apply range_u32_gives; unfold u32_max; lia|]. intros n Hn. cbn beta in Hn.
  eapply gives_bind; [apply letters_from_gives|]. intros l [Hl Hlen]. apply gives_ret.
  exists (p ++ d ++ l). split; [|by rewrite <- !app_assoc].
  apply (drawn_call f); [done|done|lia].
Qed.

Lemma pick_format_gives h : home_ok h ->
  gives (pick_weighted h.(h_entity).(e_formats) cf_weight) (fun f => f ∈ h.(h_entity).(e_formats)).
Proof.
  intros [He _]. destruct (row_formats _ He) as (Hne & Hw & Ht).
  eapply gives_mono; [by apply pick_weighted_gives|]. by intros f [Hf _].
Qed.

Lemma gives_lift_done {S A} (o : outcome A) a (Q : A -> Prop) :
  o = Done a -> Q a -> gives (S:=S) (lift o) Q.
Proof. intros -> Ha. by apply gives_lift. Qed.

Lemma call_from_loop_gives n h : home_ok h -> forall s, call_of_entity h.(h_entity) s ->
  gives (call_from_loop n s h) (call_of_entity h.(h_entity)).
Proof.
  intros Hh. induction n as [|n IH]; intros s Hs; cbn [call_from_loop]; [by apply gives_ret|].
  eapply gives_bind; [by apply pick_format_gives|]. intros f Hf.
  eapply gives_bind; [by apply call_in_format_gives|]. intros s' Hs'.
  destruct (resolves_to_ok s' h) as (b & Hb & _).
  eapply gives_bind; [by eapply (gives_lift_done _ b (fun _ => True))|]. intros b' _.
  destruct b'; [by apply gives_ret|by apply IH].
Qed.
Lemma call_from_gives h : home_ok h -> gives (call_from h) (call_of_entity h.(h_entity)).
Proof.
  intros Hh. unfold call_from, CALL_TRIES. change 64%nat with (S 63). generalize 63%nat as n. intros n.
  cbn [call_from_loop].
  eapply gives_bind; [by apply pick_format_gives|]. intros f Hf.
  eapply gives_bind; [by apply call_in_format_gives|]. intros s' Hs'.
  destruct (resolves_to_ok s' h) as (b & Hb & _).
  eapply gives_bind; [by eapply (gives_lift_done _ b (fun _ => True))|]. intros b' _.
  destruct b'; [by apply gives_ret|by apply call_from_loop_gives].
Qed.

(** A call as a station signs it. *)
Definition station_ok (s : text) : Prop := parse s = Ok (mk_Callsign s) /\ plain_call (base_part s).

Lemma plain_base b : plain_call b -> base_part b = b.
Proof.
  intros (Ha & _)%plain_call_spec. unfold base_part.
  by rewrite base_at_plain by by apply alnum_no_slash.
Qed.
Lemma plain_station b : plain_call b -> station_ok b.
Proof. intros Hb. split; [by apply parse_plain|]. by rewrite plain_base. Qed.

(** A suffix that is no base leaves the base of a plain call. *)
Lemma suffixed_station b x :
  plain_call b -> alnum_text x -> x <> [] -> Z.of_nat (length x) <= 4 ->
  existsb is_ascii_digit x = false \/ (length x < 3)%nat ->
  base_part (b ++ slash :: x) = b /\ station_ok (b ++ slash :: x).
Proof.
  intros Hb Hx Hne Hlen Hor. destruct (plain_call_spec b Hb) as (Ha & Hd & Hu & Hl).
  assert (Hbase : base_part (b ++ slash :: x) = b).
  { unfold base_part. rewrite base_at_before; [done|by apply alnum_no_slash|by apply alnum_no_slash|done|].
    destruct Hor as [Hn|Hs]; [left|right].
    - unfold base_candidate. by rewrite Hn.
    - rewrite !str_len_call by by apply alnum_call. lia. }
  split; [done|]. split; [|by rewrite Hbase].
  apply (parse_slashed b x b); try done; [by destruct b|lia].
Qed.

Lemma no_digit_upper x : Forall (fun c => is_ascii_uppercase c = true) x -> existsb is_ascii_digit x = false.
Proof.
  induction 1 as [|c x Hc Hx IH]; [done|]. cbn [existsb]. rewrite IH.
  unfold is_ascii_uppercase, is_ascii_digit in *. lia.
Qed.

(** A call straight from a row, signed portable, is a call with the same base. *)
Lemma portable_station e s : e ∈ WORLD -> call_of_entity e s ->
  base_part (s ++ slash :: txt "P") = base_part s /\ station_ok (s ++ slash :: txt "P").
Proof.
  intros He (b & Hb & ->). unfold tag_part. destruct (e_tag e) as [t|] eqn:Et.
  2:{ rewrite app_nil_r, (plain_base b) by done.
      apply suffixed_station; [done|by apply forallb_Forall|done|by vm_compute|by left]. }
  destruct (row_tag e He t Et) as [Hup Hlen]. apply forallb_Forall in Hup.
  pose proof (upper_alnum t Hup) as Hta. pose proof (no_digit_upper t Hup) as Htd.
  destruct (plain_call_spec b Hb) as (Ha & Hd & Hu & Hl). destruct (alnum_ends b Ha) as [Hbh _].
  destruct (suffixed_station b t) as [Hbase _]; [done|done|by destruct t|lia|by left|].
  rewrite Hbase, <- app_assoc. cbn [app].
  assert (Hbase2 : base_part (b ++ slash :: t ++ slash :: txt "P") = b).
  { unfold base_part, base_at. rewrite contains_char_app, (alnum_no_slash b Ha).
    rewrite (split_on_app b) by by apply alnum_no_slash. rewrite (split_on_app t) by by apply alnum_no_slash.
    change (split_on slash (txt "P")) with [txt "P"].
    change (imap pair [b; t; txt "P"]) with [(0%nat, b); (1%nat, t); (2%nat, txt "P")].
    cbn [negb orb contains_char existsb foldl]. change (slash =? slash) with true. cbn [orb negb].
    unfold better_base. cbn [snd]. rewrite (digit_candidate b Hd).
    replace (base_candidate t) with false by (unfold base_candidate; by rewrite Htd). done. }
  split; [done|]. split; [|by rewrite Hbase2].
  assert (Hct : call_char slash = true) by done.
  apply parse_ok; rewrite ?Hbase2; try done.
  - apply Forall_app_2; [by apply alnum_call|]. constructor; [done|].
    apply Forall_app_2; [by apply alnum_call|]. by repeat constructor.
  - rewrite length_app. cbn [length]. rewrite length_app. change (length (slash :: txt "P")) with 2%nat. lia.
  - by destruct b.
  - rewrite last_app_cons. destruct t as [|c [|]]; [done|done|done].
  - apply contains_pair_app; [done|by destruct t| |].
    + destruct t; [done|]. exact (proj1 (alnum_ends _ Hta)).
    + by apply contains_pair_app.
Qed.

Lemma call_of_entity_station e s : e ∈ WORLD -> call_of_entity e s -> station_ok s.
Proof.
  intros He (b & Hb & ->). unfold tag_part. destruct (e_tag e) as [t|] eqn:Et.
  - destruct (row_tag e He t Et) as [Hup Hlen]. apply forallb_Forall in Hup.
    apply suffixed_station; [done|by apply upper_alnum|by destruct t|lia|]. left. by apply no_digit_upper.
  - rewrite app_nil_r. by apply plain_station.
Qed.

Lemma gives_resolves {S} s h (Q : bool -> Prop) :
  (forall b, (b = true -> exists c, parse s = Ok c) -> Q b) -> gives (S:=S) (lift (resolves_to s h)) Q.
Proof.
  intros HQ. destruct (resolves_to_ok s h) as (b & Hb & Hp).
  by eapply gives_lift_done; [exact Hb|apply HQ].
Qed.

Definition optionally (Q : text -> Prop) (o : option text) : Prop := forall s, o = Some s -> Q s.

Lemma call_from_untagged h : home_ok h -> h.(h_entity).(e_tag) = None -> gives (call_from h) plain_call.
Proof.
  intros Hh Ht. eapply gives_mono; [by apply call_from_gives|]. intros s (b & Hb & ->).
  unfold tag_part. by rewrite Ht, app_nil_r.
Qed.

Lemma portable_call_gives h : home_ok h -> h.(h_entity).(e_tag) = None ->
  gives (portable_call h) (optionally station_ok).
Proof.
  intros Hh Ht. unfold portable_call.
  eapply gives_bind; [by apply pick_gives|]. intros x Hx.
  eapply gives_bind; [by apply call_from_untagged|]. intros b Hb.
  eapply gives_bind; [apply gives_resolves with (Q := fun _ => True); done|]. intros [] _; apply gives_ret; [|done].
  intros s [= <-]. assert (Hok : forallb is_ascii_uppercase x = true /\ 0 < Z.of_nat (length x) <= 4).
  { cbn in Hx. repeat (apply elem_of_cons in Hx as [->|Hx]; [split; [reflexivity|]; split; [reflexivity|by vm_compute]|]). by apply elem_of_nil in Hx. }
  destruct Hok as [Hup%forallb_Forall Hlen].
  apply suffixed_station; [done|by apply upper_alnum|intros ->; cbn in Hlen; lia|lia|]. left. by apply no_digit_upper.
Qed.

Lemma designator_try_gives h tries : home_ok h -> Forall alnum_text tries ->
  okay (designator_try h tries) (optionally alnum_text).
Proof.
  intros [He _] Htries. induction Htries as [|t tries Ht Htries IH]; cbn [designator_try]; [done|].
  assert (Hr : exists o, (match area_digit t with
                         | Some dg => entity_region (h_entity h) t dg
                         | None => Done None
                         end) = Done o).
  { destruct (area_digit t); [|by eexists]. edestruct entity_region_ok as (o & -> & _); eauto. }
  destruct Hr as [o ->]. cbn [outcome_bind]. destruct (_ && _); [|exact IH]. by intros s [= <-].
Qed.
Lemma drawn_alnum f p d : drawn_prefix f (p, d) -> alnum_text p /\ alnum_text (p ++ d).
Proof.
  intros (n & Hp & _ & Hd). unfold prefix_ok in Hp. cbv zeta in Hp. cbn [fst snd] in *. split_andb.
  assert (Hpa : alnum_text p) by by apply forallb_Forall.
  split; [done|]. apply Forall_app_2; [done|by apply digit_alnum].
Qed.
Lemma designator_gives h : home_ok h -> gives (designator h) (optionally alnum_text).
Proof.
  intros Hh. unfold designator. destruct (e_tag (h_entity h)); [by apply gives_ret|].
  generalize 16%nat as n. induction n as [|n IH]; cbn [designator_loop]; [by apply gives_ret|].
  eapply gives_bind; [by apply pick_format_gives|]. intros f Hf.
  eapply gives_bind; [by apply prefix_and_digit_gives|]. intros [p d] [Hp Hpd]%drawn_alnum.
  eapply gives_bind.
  { apply gives_lift, designator_try_gives; [done|]. apply Forall_app_2; [|by repeat constructor].
    by destruct (cf_digit f); repeat constructor. }
  intros [t|] Ht; [by apply gives_ret|apply IH].
Qed.

Lemma abroad_call_gives h : home_ok h -> gives (abroad_call h) (optionally station_ok).
Proof.
  intros Hh. unfold abroad_call.
  eapply gives_bind; [apply random_dx_gives; by intros h' [= <-]|]. intros l [Hl _].
  eapply gives_bind; [by apply call_from_gives|]. intros licence (b & Hb & ->).
  eapply gives_bind; [by apply designator_gives|]. intros [d|] Hd; [|by apply gives_ret].
  specialize (Hd d eq_refl). set (licence := b ++ tag_part (h_entity l)).
  destruct (negb (contains_char slash licence) && (str_len d <? str_len licence)) eqn:E.
  2:{ eapply gives_bind; [by apply gives_ret with (Q := fun b => b = false)|]. intros ? ->. by apply gives_ret. }
  apply gives_bind with (P := fun b => b = true -> exists c, parse (d ++ slash :: licence) = Ok c).
  { by apply gives_resolves. }
  intros [] Hp; apply gives_ret; [|done].
  destruct (Hp eq_refl) as [c Hc]. intros s [= <-]. apply andb_true_iff in E as [Hs%negb_true_iff Hlt%Z.ltb_lt].
  assert (Hlic : licence = b).
  { unfold licence, tag_part in *. destruct (e_tag (h_entity l)); [|by rewrite app_nil_r].
    rewrite contains_char_app in Hs. apply orb_false_iff in Hs as [_ Hs]. done. }
  rewrite Hlic in *. clear Hlic licence. destruct (plain_call_spec b Hb) as (Ha & Hdig & _).
  assert (Hbase : base_part (d ++ slash :: b) = b).
  { unfold base_part. by rewrite base_at_after; [|apply alnum_no_slash| | |]. }
  split; [|by rewrite Hbase]. apply parse_inv in Hc as Hi. destruct Hi as (Hall & Hlen & Hh1 & Hl1 & Hpair & _).
  assert (Hcs : c = mk_Callsign (d ++ slash :: b)).
  { revert Hc. unfold parse. rewrite trim_call, upper_call by
      (apply Forall_app_2; [by apply alnum_call|constructor; [done|by apply alnum_call]]).
    repeat case_match; congruence. }
  by rewrite Hc, Hcs.
Qed.

Lemma other_area_call_gives h : home_ok h -> gives (other_area_call h) (optionally station_ok).
Proof.
  intros [He Hr]. unfold other_area_call. destruct (h_region h) as [area|] eqn:Ea; [|by apply gives_ret].
  eapply gives_bind; [apply random_us_gives|]. intros l [[Hl _] Ht].
  destruct (option_eqb _ _ _); [by apply gives_ret|].
  eapply gives_bind; [by apply call_from_untagged|]. intros b Hb. apply gives_ret. intros s [= <-].
  pose proof (row_region _ He area (Hr area eq_refl)) as Hok. unfold region_ok in Hok. split_andb.
  destruct (show_digit (r_digit area)) as (c & -> & Hc); [done|].
  apply suffixed_station; [done|by apply digit_alnum; repeat constructor|done|cbn; lia|right; cbn; lia].
Qed.

Lemma station_call_gives h : home_ok h -> gives (station_call h) station_ok.
Proof.
  intros Hh. unfold station_call.
  assert (Hplain : gives (call_from h) station_ok).
  { eapply gives_mono; [by apply call_from_gives|]. intros s. apply call_of_entity_station, Hh. }
  eapply gives_bind; [apply gen_unit_f64_gives|]. intros roll _.
  destruct (e_tag (h_entity h)) eqn:Et; [done|].
  apply gives_bind with (P := optionally station_ok).
  { destruct (F64.ltb _ _); [by apply portable_call_gives|by apply gives_ret]. }
  intros [s|] Hs; [by apply gives_ret, Hs|].
  apply gives_bind with (P := optionally station_ok).
  { destruct (F64.ltb _ _); [by apply abroad_call_gives|].
    destruct (_ && _); [by apply other_area_call_gives|by apply gives_ret]. }
  intros [s|] Hs'; cbn [or_plain]; [by apply gives_ret, Hs'|done].
Qed.

(** A fresh call is a station's, not the operator's and not taken. *)
Definition fresh (my_call : Callsign) (taken : list Callsign) (c : Callsign) : Prop :=
  station_ok c.(as_str) /\ base c <> base my_call /\ Forall (fun t => base t <> base c) taken
  /\ ~ c.(as_str) ∈ RESERVED_CALLS.

Lemma member_spec t l : member t l = true <-> t ∈ l.
Proof.
  unfold member. rewrite existsb_exists. split.
  - intros (u & Hu & ->%bool_decide_eq_true). by apply list_elem_of_In.
  - intros Ht. exists t. split; [by apply list_elem_of_In|by apply bool_decide_eq_true].
Qed.

Lemma fresh_call_gives (Q : Callsign -> Prop) make my_call taken :
  gives make (fun s => Q (mk_Callsign s)) -> (forall s, Q (mk_Callsign s) -> station_ok s) ->
  gives (fresh_call make my_call taken) (fun o => forall c, o = Some c -> Q c /\ fresh my_call taken c).
Proof.
  intros Hmake HQ. unfold fresh_call. generalize FRESH_TRIES as n.
  induction n as [|n IH]; cbn [fresh_call_loop]; [by apply gives_ret|].
  eapply gives_bind; [exact Hmake|]. intros s Hs. destruct (member s RESERVED_CALLS) eqn:Er; [exact IH|].
  eapply gives_bind with (P := eq (mk_Callsign s)); [apply gives_lift; by rewrite (proj1 (HQ s Hs))|]. intros c <-.
  destruct (_ || _) eqn:E; [exact IH|]. apply gives_ret. intros c [= <-].
  apply orb_false_iff in E as [Hmy%bool_decide_eq_false Htaken].
  split; [done|]. split; [by apply HQ|]. split; [done|]. split.
  - apply Forall_forall. intros t Ht Heq. assert (existsb (fun t => bool_decide (base t = base (mk_Callsign s))) taken = true); [|congruence].
    eapply existsb_witness; [exact Ht|]. by apply bool_decide_eq_true.
  - cbn [as_str]. intros Hin%member_spec. congruence.
Qed.
End Draw.
