(* ===== verification/Scenario.v ===== *)
(** * Scenario: what a practice script is made of (cat-morse/src/scenario/mod.rs, band.rs)

    The settings with their checks, and the script's data: stations, parties,
    transmissions. *)

From Stdlib Require Import Floats.SpecFloat.
From S2P Require Import Prelude Text Morse Timing Floats Tables World Draws Callsign.

(** [a.is_finite() && b.is_finite() && a <= b]. *)
Definition range_ok (r : f32 * f32) : bool :=
  F64.is_finite r.1 && F64.is_finite r.2 && F64.leb r.1 r.2.
(** [(0.0..=1.0).contains(&x)]. *)
Definition probability (x : f64) : bool := F64.leb (F64.of_Z 0) x && F64.leb x (F64.of_Z 1).

(** ** The band *)

Record QsbOdds : Type := mk_QsbOdds { qsb_chance : f64; qsb_depth_db : f32 * f32; qsb_period_s : f32 * f32 }.
Record QrnOdds : Type := mk_QrnOdds {
  qrn_chance : f64; qrn_crashes_per_sec : f32 * f32; qrn_level_db : f32 * f32; qrn_decay_ms : Z * Z }.
Record QrmOdds : Type := mk_QrmOdds { qrm_chance : f64; qrm_offset_hz : f32 * f32; qrm_level_db : f32 * f32 }.
Record BandConditions : Type := mk_BandConditions {
  bc_snr_db : option (f32 * f32); bc_qsb : option QsbOdds; bc_qrn : option QrnOdds;
  bc_qrm : option QrmOdds; bc_rx_bandwidth_hz : option f32 }.

Definition band_clean : BandConditions := mk_BandConditions None None None None None.
Definition band_beginner : BandConditions :=
  mk_BandConditions (Some (F32.of_Z 19, F32.of_Z 21)) None None None (Some (F32.of_Z 500)).
Definition band_intermediate : BandConditions :=
  mk_BandConditions (Some (F32.of_Z 9, F32.of_Z 11))
    (Some (mk_QsbOdds (F64.dec 4 1) (F32.of_Z 5, F32.of_Z 7) (F32.of_Z 6, F32.of_Z 10)))
    (Some (mk_QrnOdds (F64.of_Z 1) (F32.dec 2 1, F32.dec 4 1) (F32.of_Z (-11), F32.of_Z (-9)) (30, 50)))
    (Some (mk_QrmOdds (F64.dec 3 1) (F32.of_Z 200, F32.of_Z 400) (F32.of_Z (-7), F32.of_Z (-5))))
    (Some (F32.of_Z 500)).
Definition band_advanced : BandConditions :=
  mk_BandConditions (Some (F32.of_Z 2, F32.of_Z 4))
    (Some (mk_QsbOdds (F64.dec 7 1) (F32.of_Z 10, F32.of_Z 14) (F32.of_Z 4, F32.of_Z 6)))
    (Some (mk_QrnOdds (F64.of_Z 1) (F32.dec 8 1, F32.dec 12 1) (F32.of_Z (-4), F32.of_Z (-2)) (50, 70)))
    (Some (mk_QrmOdds (F64.dec 6 1) (F32.of_Z 100, F32.of_Z 300) (F32.of_Z (-4), F32.of_Z (-2))))
    (Some (F32.of_Z 500)).

(** [if cond { return bad(why) }] of the sections of [validate]. *)
Definition refuse_some {A} (o : option A) (check : A -> result () ScenarioError) : result () ScenarioError :=
  match o with Some a => check a | None => Ok () end.
Definition setting_error (why : string) : ScenarioError := InvalidSetting why.

(** [BandConditions::validate]. *)
Definition band_validate (b : BandConditions) : result () ScenarioError :=
  let zero := F32.of_Z 0 in
  let? _ := refuse_some b.(bc_snr_db) (fun r =>
    refuse_if (negb (range_ok r)) (setting_error "SNR range must be finite with lo ≤ hi")) in
  let? _ := refuse_some b.(bc_qsb) (fun q =>
    let? _ := refuse_if (negb (probability q.(qsb_chance)) || negb (range_ok q.(qsb_depth_db))
                         || F64.ltb q.(qsb_depth_db).1 zero)
                (setting_error "QSB needs a chance in [0, 1] and a depth range ≥ 0") in
    refuse_if (negb (range_ok q.(qsb_period_s)) || F64.leb q.(qsb_period_s).1 zero)
      (setting_error "QSB period range must be > 0")) in
  let? _ := refuse_some b.(bc_qrn) (fun q =>
    let? _ := refuse_if (negb (probability q.(qrn_chance)) || negb (range_ok q.(qrn_crashes_per_sec))
                         || F64.ltb q.(qrn_crashes_per_sec).1 zero)
                (setting_error "QRN needs a chance in [0, 1] and a rate range ≥ 0") in
    refuse_if (negb (range_ok q.(qrn_level_db)) || (q.(qrn_decay_ms).1 =? 0)
               || (q.(qrn_decay_ms).2 <? q.(qrn_decay_ms).1))
      (setting_error "QRN needs a level range and a decay range > 0 ms")) in
  let? _ := refuse_some b.(bc_qrm) (fun q =>
    refuse_if (negb (probability q.(qrm_chance)) || negb (range_ok q.(qrm_offset_hz))
               || F64.ltb q.(qrm_offset_hz).1 zero || negb (range_ok q.(qrm_level_db)))
      (setting_error "QRM needs a chance in [0, 1], an offset range ≥ 0 and a level range")) in
  refuse_some b.(bc_rx_bandwidth_hz) (fun w =>
    refuse_if (negb (F64.is_finite w && F64.ltb zero w))
      (setting_error "receive filter bandwidth must be > 0")).

(** ** Settings *)

Inductive ContestExchange : Type := CqZone | Serial.
Inductive ScenarioKind : Type :=
| RagChew
| Contest (exchange : ContestExchange) (cut_numbers : bool)
| Pota (park_to_park : bool)
| Sota (summit_to_summit : bool)
| DxPileup (callers : Z)
| DxChase (callers : Z).

Record Difficulty : Type := mk_Difficulty {
  d_wpm : Z * Z; d_farnsworth_effective : option f64; d_fists : list Fist;
  d_strength_db : f32 * f32; d_pitch_offset_hz : f32 * f32; d_repeat_requests : f64;
  d_band : BandConditions; d_hf_band : option HfBand }.

Definition beginner : Difficulty :=
  mk_Difficulty (15, 18) (Some (F64.of_Z 10)) [perfect; good] (F32.of_Z (-3), F32.of_Z 0)
    (F32.of_Z (-30), F32.of_Z 30) (F64.dec 5 2) band_beginner None.
Definition intermediate : Difficulty :=
  mk_Difficulty (18, 25) None [good; typical] (F32.of_Z (-12), F32.of_Z 0)
    (F32.of_Z (-100), F32.of_Z 100) (F64.dec 15 2) band_intermediate None.
Definition advanced : Difficulty :=
  mk_Difficulty (25, 35) None [good; typical; sloppy] (F32.of_Z (-20), F32.of_Z 0)
    (F32.of_Z (-250), F32.of_Z 250) (F64.dec 25 2) band_advanced None.

(** [impl From<TimingError> for ScenarioError]. *)
Definition from_timing (_ : TimingError) : ScenarioError := InvalidSetting "speed or fist out of range".

Fixpoint validate_fists (fs : list Fist) : result () ScenarioError :=
  match fs with
  | [] => Ok ()
  | f :: fs => let? _ := map_err from_timing (fist_validate f) in validate_fists fs
  end.
(** [Difficulty::validate]. *)
Definition validate (d : Difficulty) : result () ScenarioError :=
  let '(lo, hi) := d.(d_wpm) in
  let? _ := refuse_if ((lo <? 5) || (60 <? hi) || (hi <? lo)) (setting_error "wpm range must be within 5..=60") in
  let? _ := refuse_some d.(d_farnsworth_effective) (fun e =>
    refuse_if (negb (F64.is_finite e && F64.leb (F64.of_Z 3) e))
      (setting_error "Farnsworth speed must be ≥ 3 wpm")) in
  let? _ := refuse_if (match d.(d_fists) with [] => true | _ => false end)
              (setting_error "at least one fist is needed") in
  let? _ := validate_fists d.(d_fists) in
  let? _ := refuse_if (negb (range_ok d.(d_strength_db)) || negb (range_ok d.(d_pitch_offset_hz)))
              (setting_error "ranges must be finite with lo ≤ hi") in
  let? _ := refuse_if (negb (probability d.(d_repeat_requests)))
              (setting_error "repeat_requests must be in [0, 1]") in
  band_validate d.(d_band).

Record ScenarioConfig : Type := mk_ScenarioConfig {
  kind : ScenarioKind; my_call : Callsign; difficulty : Difficulty; seed : Z }.

(** ** Scripts *)

Record SignalProfile : Type := mk_SignalProfile {
  sp_pitch_offset_hz : f32; sp_speed : Speed; sp_fist : Fist; sp_fist_seed : Z; sp_strength_db : f32 }.
Record Persona : Type := mk_Persona {
  p_call : Callsign; p_name : text; p_qth : text; p_region : text; p_zone : Z; p_rig : text;
  p_power_w : Z; p_antenna : text; p_reference : option text }.
Record Station : Type := mk_Station { persona : Persona; signal : SignalProfile }.
Inductive Party : Type := Them (i : nat) | You.
(** Durations in nanoseconds. *)
Inductive Start : Type := AfterPrevious (gap : Z) | WithPrevious (delay : Z).
Record Transmission : Type := mk_Transmission { from : Party; tx_text : text; start : Start }.
Record Script : Type := mk_Script {
  s_kind : ScenarioKind; s_me : Persona; s_stations : list Station; s_transmissions : list Transmission }.

(** [Script::signal_for]. *)
Definition signal_for (s : Script) (t : Transmission) : option SignalProfile :=
  match t.(from) with
  | Them i => signal <$> s.(s_stations) !! i
  | You => None
  end.
