(* ===== verification/Qso.v ===== *)
(** * Qso: the script builders (cat-morse/src/scenario/qso.rs, generate of mod.rs)

    One definition per builder, over the state of the source's [Builder]; the
    four streams of the generator are fields of it. *)

From Stdlib Require Import Floats.SpecFloat.
From S2P Require Import Prelude Text Morse Timing Floats Tables World Draws Callsign WorldFacts Scenario.

(** ** Formatting *)

(** [format!] with strings for its arguments: the template is read once, and
    each [{}] of it takes the next. *)
Fixpoint holes (template : string) : list (option char) :=
  match template with
  | EmptyString => []
  | String "{" (String "}" rest) => None :: holes rest
  | String c rest => Some (char_of c) :: holes rest
  end.
Fixpoint fill (template : list (option char)) (args : list text) : text :=
  match template with
  | [] => []
  | Some c :: rest => c :: fill rest args
  | None :: rest => match args with a :: args => a ++ fill rest args | [] => fill rest [] end
  end.
Definition fmt (template : string) (args : list text) : text := fill (holes template) args.
(** [{n:04}] and [{n:03}]. *)
Definition show_pad (width : nat) (n : Z) : text :=
  let t := show n in replicate (width - length t) 48 ++ t.

Definition from_millis (ms : Z) : Z := ms * 1000000.

Definition P_MARITIME : f64 := F64.dec 3 2.
Definition STREAM_ME : Z := 1.
Definition STREAM_STATIONS : Z := 2.
Definition STREAM_TEXT : Z := 3.
Definition STREAM_TIMING : Z := 4.

Record Builder : Type := mk_Builder {
  me : Persona; stations : list Station; tx : list Transmission; st_rng : Rng;
  avoid : option Z; text_rng : Rng; timing_rng : Rng }.

(** ** Personas and references *)

Section Personas.
Context {F : Fuel}.

Definition make_persona (call : Callsign) (home : option Home) (portable : bool) : Gen Persona :=
  let! (name, qth, region, zone) :=
    (match home with
     | Some home =>
         let! (qth, region) :=
           (match home.(h_region) with
            | Some r =>
                let! (code, towns) := pick r.(r_subdivisions) in
                let region := if str_len code =? 2 then code else home.(h_entity).(e_name) in
                let! qth := pick towns in ret (qth, region)
            | None =>
                let! qth := pick home.(h_entity).(e_towns) in ret (qth, home.(h_entity).(e_name))
            end) in
         let! name := pick (pool home.(h_entity).(e_names)) in
         ret (name, qth, region, home_cq home)
     | None =>
         let! name := pick (pool Names.Expedition) in
         let! zone := range_u32 1 40 in
         ret (name, txt "HOME", txt "DX", zone)
     end) in
  let! (power_w, antenna) :=
    (if portable then
       let! w := pick QRP_POWERS in let! a := pick PORTABLE_ANTENNAS in ret (w, a)
     else let! w := pick POWERS in let! a := pick ANTENNAS in ret (w, a)) in
  let! rig := pick RIGS in
  ret (mk_Persona call name qth region zone rig power_w antenna None).

Definition my_persona (call : Callsign) : Gen Persona :=
  let! home := lift (home_of call) in make_persona call home false.

Definition exchange_region (p : Persona) : text :=
  if str_len p.(p_region) =? 2 then p.(p_region) else txt "DX".

Definition pota_ref (iso : text) : Gen text :=
  let! big := (if text_eqb iso (txt "US") then chance (F64.dec 1 1) else ret false) in
  let! n := (if big then range_u32 10000 11999 else range_u32 1 9999) in
  ret (fmt "{}-{}" [iso; show_pad 4 n]).

Definition us_area (d : Z) : outcome Home :=
  let# entity := by_dxcc USA in
  let# region := entity_region entity (txt "W") d in Done (mk_Home entity region).
Definition whole (dxcc : Z) : outcome Home := let# e := by_dxcc dxcc in Done (mk_Home e None).
Definition sota_home (assoc : text) : Gen Home :=
  let named s := text_eqb assoc (txt s) in
  if named "W0C" then lift (us_area 0)
  else if named "W7W" || named "W7A" then lift (us_area 7)
  else if named "W6" then lift (us_area 6)
  else if named "W4C" then lift (us_area 4)
  else if named "G" then lift (whole 223)
  else if named "GM" then lift (whole 279)
  else if named "DL" then lift (whole 230)
  else if named "HB" then lift (whole 287)
  else if named "VE7" then lift (whole 1)
  else let! d := range_u32 0 9 in lift (us_area d).
Definition sota_state (assoc : text) : option text :=
  let named s := text_eqb assoc (txt s) in
  if named "W0C" then Some (txt "CO") else if named "W7W" then Some (txt "WA")
  else if named "W7A" then Some (txt "AZ") else if named "W6" then Some (txt "CA")
  else if named "W4C" then Some (txt "NC") else None.
Definition sota_ref : Gen (text * text) :=
  let! (assoc, regions) := pick SOTA_REGIONS in
  let! region := pick regions in
  let! n := range_u32 1 199 in
  ret (fmt "{}/{}-{}" [assoc; region; show_pad 3 n], assoc).

(** Contest cut numbers. *)
Definition cut (t : text) : text := map (fun c => if c =? 48 then 84 else if c =? 57 then 78 else c) t.

(** ** The builder *)

Abbreviation B := (M Builder) (only parsing).
Context (cfg : ScenarioConfig).

Definition set_st_rng (b : Builder) (r : Rng) : Builder :=
  mk_Builder b.(me) b.(stations) b.(tx) r b.(avoid) b.(text_rng) b.(timing_rng).
Definition set_text_rng (b : Builder) (r : Rng) : Builder :=
  mk_Builder b.(me) b.(stations) b.(tx) b.(st_rng) b.(avoid) r b.(timing_rng).
Definition set_timing_rng (b : Builder) (r : Rng) : Builder :=
  mk_Builder b.(me) b.(stations) b.(tx) b.(st_rng) b.(avoid) b.(text_rng) r.
Definition set_stations (b : Builder) (l : list Station) : Builder :=
  mk_Builder b.(me) l b.(tx) b.(st_rng) b.(avoid) b.(text_rng) b.(timing_rng).
Definition set_tx (b : Builder) (l : list Transmission) : Builder :=
  mk_Builder b.(me) b.(stations) l b.(st_rng) b.(avoid) b.(text_rng) b.(timing_rng).
Definition set_me (b : Builder) (p : Persona) : Builder :=
  mk_Builder p b.(stations) b.(tx) b.(st_rng) b.(avoid) b.(text_rng) b.(timing_rng).
Definition set_avoid (b : Builder) (a : option Z) : Builder :=
  mk_Builder b.(me) b.(stations) b.(tx) b.(st_rng) a b.(text_rng) b.(timing_rng).

(** A choice drawn from one of the builder's streams. *)
Definition on_st {A} (g : Gen A) : B A :=
  fun b => let# (a, r) := g b.(st_rng) in Done (a, set_st_rng b r).
Definition on_text {A} (g : Gen A) : B A :=
  fun b => let# (a, r) := g b.(text_rng) in Done (a, set_text_rng b r).
Definition on_timing {A} (g : Gen A) : B A :=
  fun b => let# (a, r) := g b.(timing_rng) in Done (a, set_timing_rng b r).
Definition gets {A} (f : Builder -> A) : B A := fun b => Done (f b, b).
Definition update (f : Builder -> Builder) : B () := fun b => Done ((), f b).
Definition from_result {A} (r : result A ScenarioError) : B A :=
  lift (match r with Ok a => Done a | Err e => Refused e end).

(** [self.stations[i]], and writing to its persona. *)
Definition station_at (i : nat) : B Station :=
  let! l := gets stations in lift (match l !! i with Some s => Done s | None => Panic end).
Definition set_persona (i : nat) (p : Persona) : B () :=
  let! s := station_at i in
  update (fun b => set_stations b (<[i := mk_Station p s.(signal)]> b.(stations))).
Definition persona_of (i : nat) : B Persona := let! s := station_at i in ret s.(persona).

Definition draw_signal : B SignalProfile :=
  let d := cfg.(difficulty) in
  let! wpm := on_st (range_u32 d.(d_wpm).1 d.(d_wpm).2) in
  let wpm := F64.of_Z wpm in
  let! speed := from_result (map_err from_timing
    (match d.(d_farnsworth_effective) with
     | Some e => if F64.ltb e wpm then farnsworth wpm e else speed_wpm wpm
     | None => speed_wpm wpm
     end)) in
  let! fist := on_st (pick d.(d_fists)) in
  let! pitch := on_st (range_f64 (F32.to_f64 d.(d_pitch_offset_hz).1) (F32.to_f64 d.(d_pitch_offset_hz).2)) in
  let! strength := on_st (range_f64 (F32.to_f64 d.(d_strength_db).1) (F32.to_f64 d.(d_strength_db).2)) in
  let! seed := on_st (fun r => Done (next_u64 r)) in
  ret (mk_SignalProfile (F32.of_f64 (f64_round pitch)) speed fist seed
         (F32.of_f64 (F64.div (f64_round (F64.mul strength (F64.of_Z 10))) (F64.of_Z 10)))).

Definition taken : B (list Callsign) := gets (fun b => map (fun s => s.(persona).(p_call)) b.(stations)).

(** The loop of [place] until some home has a call left: it ends by chance. *)
Fixpoint place_call (n : nat) (taken : list Callsign) (home : Home) (decorate : bool)
    : B (Callsign * Home) :=
  match n with
  | O => fun _ => Cut
  | S n =>
      let! c := on_st (fresh_call (if decorate then station_call home else call_from home)
                         cfg.(my_call) taken) in
      match c with
      | Some c => ret (c, home)
      | None =>
          let! mine := lift (home_of cfg.(my_call)) in
          let own := match mine with Some h => h.(h_entity).(e_dxcc) | None => USA end in
          let! avoided := gets avoid in
          let not := own :: (match avoided with Some a => [a] | None => [] end) in
          let! home := on_st (random_caller mine not cfg.(difficulty).(d_hf_band)) in
          place_call n taken home decorate
      end
  end.
Definition place (home : Home) (decorate : bool) : B nat :=
  let! t := taken in
  let! (call, home) := place_call fuel t home decorate in
  let! p := on_st (make_persona call (Some home) false) in
  let! s := draw_signal in
  let! _ := update (fun b => set_stations b (b.(stations) ++ [mk_Station p s])) in
  let! l := gets stations in
  ret (length l - 1)%nat.

Definition add_station (home : option Home) (dx_share : f64) : B nat :=
  match home with
  | Some h => place h false
  | None =>
      let! mine := lift (home_of cfg.(my_call)) in
      let! dx := on_st (chance dx_share) in
      let! h := on_st (if dx then random_dx mine cfg.(difficulty).(d_hf_band) else random_local mine) in
      place h true
  end.

Definition gap : B Start :=
  let! ms := on_timing (range_u32 300 1200) in ret (AfterPrevious (from_millis ms)).
Definition push (who : Party) (t : text) (s : Start) : B () :=
  update (fun b => set_tx b (b.(tx) ++ [mk_Transmission who (join_space (split_whitespace t)) s])).
Definition say (who : Party) (t : text) : B () := let! s := gap in push who t s.
Definition repeat : B bool := on_text (chance cfg.(difficulty).(d_repeat_requests)).
Definition call_of (i : nat) : B text := let! p := persona_of i in ret p.(p_call).(as_str).
Definition me_call : B text := gets (fun b => b.(me).(p_call).(as_str)).
Definition greeting : B text :=
  let! i := on_text (range_u32 0 4) in
  lift (match strs ["GM"; "GA"; "GE"; "HI"; "GD"]%string !! Z.to_nat i with Some g => Done g | None => Panic end).
Definition temp (p : Persona) : B text :=
  if str_len p.(p_region) =? 2 then let! n := on_text (range_u32 10 95) in ret (fmt "{}F" [show n])
  else let! n := on_text (range_u32 0 35) in ret (fmt "{}C" [show n]).

(** ** A conversation *)

(** The partner is at sea now and then. *)
Definition maritime (them : nat) : B () :=
  let! sea := on_st (chance P_MARITIME) in
  if sea then
    let! p := persona_of them in
    let! call := lift (match parse (base p.(p_call)) with
                       | Ok c => Done (with_suffix c (txt "MM"))
                       | Err _ => Panic
                       end) in
    set_persona them (mk_Persona call p.(p_name) (txt "AT SEA") (txt "MM") p.(p_zone) p.(p_rig)
                        p.(p_power_w) p.(p_antenna) p.(p_reference))
  else ret ().

Definition rag_chew : B () :=
  let! them := add_station None (F64.dec 3 1) in
  let! _ := maritime them in
  let t := Them them in
  let! c := call_of them in
  let! mc := me_call in
  let! which := on_text (range_u32 0 2) in
  let cq := if which =? 0 then fmt "CQ CQ CQ DE {} {} {} K" [c; c; c]
            else if which =? 1 then fmt "CQ CQ DE {} {} K" [c; c]
            else fmt "CQ CQ CQ DE {} {} <AR> K" [c; c] in
  let! _ := say t cq in
  let! again := repeat in
  let! _ := (if again then say t cq else ret ()) in
  let! short_answer := on_text (chance (F64.dec 5 1)) in
  let! _ := say You (if short_answer then fmt "{} DE {} {} K" [c; mc; mc]
                     else fmt "{} DE {} {} <AR>" [c; mc; mc]) in
  let! p := persona_of them in
  let! rst := on_text (pick RST) in
  let! g := greeting in
  let qth := fmt "{}, {}" [p.(p_qth); p.(p_region)] in
  let! _ := say t (fmt "{} DE {} {} TNX FER CALL <BT> UR RST {} {} <BT> NAME {} {} <BT> QTH {} {} <BT> HW CPY? <AR> {} DE {} <KN>"
                     [mc; c; g; rst; rst; p.(p_name); p.(p_name); qth; qth; mc; c]) in
  let! again := repeat in
  let! _ := (if again then
    let! _ := say You (fmt "{} DE {} PSE RPT NAME ES QTH <KN>" [c; mc]) in
    say t (fmt "{} DE {} NAME {} {} {} <BT> QTH {} {} <KN>"
             [mc; c; p.(p_name); p.(p_name); p.(p_name); p.(p_qth); p.(p_qth)])
    else ret ()) in
  let! my := gets me in
  let! my_rst := on_text (pick RST) in
  let! _ := say You (fmt "{} DE {} R TNX {} <BT> UR RST {} {} <BT> NAME {} {} <BT> QTH {} {} <BT> HW? <AR> {} DE {} <KN>"
                       [c; mc; p.(p_name); my_rst; my_rst; my.(p_name); my.(p_name); my.(p_qth); my.(p_qth); c; mc]) in
  let! wx := on_text (pick WX) in
  let! tmp := temp p in
  let! _ := say t (fmt "{} DE {} R FB {} <BT> RIG {} PWR {}W ANT {} <BT> WX {} {} <BT> <AR> {} DE {} <KN>"
                     [mc; c; my.(p_name); p.(p_rig); show p.(p_power_w); p.(p_antenna); wx; tmp; mc; c]) in
  let! again := repeat in
  let! _ := (if again then
    let! _ := say You (fmt "{} DE {} PSE RPT RIG? <KN>" [c; mc]) in
    say t (fmt "{} DE {} RIG {} {} <KN>" [mc; c; p.(p_rig); p.(p_rig)])
    else ret ()) in
  let! my_wx := on_text (pick WX) in
  let! my_temp := temp my in
  let! _ := say You (fmt "{} DE {} R <BT> RIG {} PWR {}W ANT {} <BT> WX {} {} <BT> TNX FER QSO {} 73 <AR> {} DE {} <KN>"
                       [c; mc; my.(p_rig); show my.(p_power_w); my.(p_antenna); my_wx; my_temp; p.(p_name); c; mc]) in
  let! close := on_text (pick (strs ["73 ES GUD DX"; "73 ES CUL"; "73 GL"]%string)) in
  let! _ := say t (fmt "{} DE {} TNX FER FB QSO {} <BT> {} <SK> {} DE {} TU E E" [mc; c; my.(p_name); close; mc; c]) in
  say You (fmt "{} DE {} TU 73 <SK> E E" [c; mc]).

(** ** A contest *)

Definition their_exchange (exchange : ContestExchange) (them : nat) : B text :=
  match exchange with
  | CqZone => let! p := persona_of them in ret (show p.(p_zone))
  | Serial =>
      let! s := on_text (range_u32 1 1500) in
      let! padded := (if s <? 100 then on_text (chance (F64.dec 5 1)) else ret false) in
      ret (if padded then show_pad 3 s else show s)
  end.

Definition contest_contact (exchange : ContestExchange) (cut_numbers : bool) (mc : text) (my_serial : Z) : B Z :=
  let! them := add_station None (F64.dec 4 1) in
  let t := Them them in
  let! c := call_of them in
  let! which := on_text (range_u32 0 2) in
  let! _ := say t (if which =? 0 then fmt "CQ TEST {} {}" [c; c]
                   else if which =? 1 then fmt "TEST {}" [c] else fmt "CQ {} TEST" [c]) in
  let! _ := say You mc in
  let! again := repeat in
  let! _ := (if again then
    let! _ := say t (fmt "{}?" [take 2 mc]) in say You (fmt "{} {}" [mc; mc])
    else ret ()) in
  let! their_x := their_exchange exchange them in
  let! my := gets me in
  let my_serial := match exchange with CqZone => my_serial | Serial => my_serial + 1 end in
  let my_x := match exchange with CqZone => show my.(p_zone) | Serial => show my_serial end in
  let '(their_x, my_x) := if cut_numbers then (cut their_x, cut my_x) else (their_x, my_x) in
  let! _ := say t (fmt "{} 5NN {}" [mc; their_x]) in
  let! again := repeat in
  let! _ := (if again then
    let! _ := say You (txt "AGN?") in say t (fmt "5NN {} {}" [their_x; their_x])
    else ret ()) in
  let! _ := say You (fmt "TU 5NN {}" [my_x]) in
  let! again := repeat in
  let! _ := (if again then
    let! _ := say t (match exchange with Serial => txt "NR?" | CqZone => txt "ZONE?" end) in
    say You (fmt "{} {}" [my_x; my_x])
    else ret ()) in
  let! which := on_text (range_u32 0 2) in
  let! _ := say t (if which =? 0 then fmt "TU {}" [c]
                   else if which =? 1 then txt "TU" else txt "TU TEST") in
  ret my_serial.
Fixpoint contest_loop (n : nat) (exchange : ContestExchange) (cut_numbers : bool) (mc : text) (my_serial : Z) : B () :=
  match n with
  | O => ret ()
  | S n =>
      let! my_serial := contest_contact exchange cut_numbers mc my_serial in
      contest_loop n exchange cut_numbers mc my_serial
  end.
Definition contest (exchange : ContestExchange) (cut_numbers : bool) : B () :=
  let! n := on_text (range_u32 3 5) in
  let! mc := me_call in
  let! my_serial := on_text (range_u32 1 300) in
  contest_loop (Z.to_nat n) exchange cut_numbers mc my_serial.

(** ** Parks and summits *)

(** The activator's reference, power and antenna. *)
Definition activate (them : nat) (reference : text) : B () :=
  let! p := persona_of them in
  let! w := on_st (pick QRP_POWERS) in
  let! a := on_st (pick PORTABLE_ANTENNAS) in
  set_persona them (mk_Persona p.(p_call) p.(p_name) p.(p_qth) p.(p_region) p.(p_zone) p.(p_rig) w a (Some reference)).
Definition set_my_reference (r : text) : B () :=
  update (fun b => let p := b.(me) in
    set_me b (mk_Persona p.(p_call) p.(p_name) p.(p_qth) p.(p_region) p.(p_zone) p.(p_rig) p.(p_power_w)
                p.(p_antenna) (Some r))).

(** Who activates a park, and its country code. *)
Definition park_home : B (Home * text) :=
  let! us := on_st (chance (F64.dec 75 2)) in
  if us then let! h := on_st random_us in ret (h, txt "US")
  else
    let! e := on_st (pick (List.filter (fun e => (match e.(e_iso) with Some _ => true | None => false end)
                                                 && negb (e.(e_dxcc) =? USA)) WORLD)) in
    let! h := on_st (random_in e) in
    lift (match e.(e_iso) with Some iso => Done (h, iso) | None => Panic end).

Definition pota (p2p : bool) (me_rng : Rng) : B () :=
  let! (home, iso) := park_home in
  let! them := add_station (Some home) (F64.of_Z 0) in
  let! park := on_st (pota_ref iso) in
  let! _ := activate them park in
  let! _ := (if p2p then
    let! b := gets me in
    let! mine := lift (home_of b.(p_call)) in
    let my_iso := match mine with Some h => default (txt "US") h.(h_entity).(e_iso) | None => txt "US" end in
    let! (r, _) := lift (pota_ref my_iso me_rng) in set_my_reference r
    else ret ()) in
  let t := Them them in
  let! c := call_of them in
  let! mc := me_call in
  let! long := on_text (chance (F64.dec 5 1)) in
  let! _ := say t (if long then fmt "CQ POTA CQ POTA DE {} {} K" [c; c] else fmt "CQ POTA DE {} {} {} K" [c; c; park]) in
  let! _ := say You (if p2p then fmt "P2P {}" [mc] else mc) in
  let! again := repeat in
  let! _ := (if again then let! _ := say t (txt "QRZ?") in say You (fmt "{} {}" [mc; mc]) else ret ()) in
  let! p := persona_of them in
  let st := exchange_region p in
  let! g := greeting in
  let! _ := say t (fmt "{} {} UR 5NN 5NN {} {} BK" [mc; g; st; st]) in
  let! my := gets me in
  let mst := exchange_region my in
  let! _ := say You (fmt "BK TU UR 5NN 5NN {} {}" [mst; mst]
                     ++ (match my.(p_reference) with Some r => fmt " P2P {} {}" [r; r] | None => [] end)
                     ++ txt " 72 BK") in
  let! again := repeat in
  let! _ := (if again then let! _ := say t (txt "STATE?") in say You (fmt "{} {}" [mst; mst]) else ret ()) in
  let! ask := on_text (chance (F64.dec 4 1)) in
  let! _ := (if ask then let! _ := say You (txt "PARK?") in say t (fmt "{} {}" [park; park]) else ret ()) in
  let! close := on_text (pick (strs ["TU 72 EE"; "R TU 72 GL EE"; "TU EE"]%string)) in
  say t close.

(** An activator in the association's own state. *)
Definition in_state (them : nat) (home : Home) (assoc : text) : B () :=
  match home.(h_region), sota_state assoc with
  | Some area, Some state =>
      match List.find (fun s => text_eqb s.1 state) area.(r_subdivisions) with
      | Some (_, towns) =>
          let! town := on_st (pick towns) in
          let! p := persona_of them in
          set_persona them (mk_Persona p.(p_call) p.(p_name) town state p.(p_zone) p.(p_rig) p.(p_power_w)
                              p.(p_antenna) p.(p_reference))
      | None => ret ()
      end
  | _, _ => ret ()
  end.
Definition maybe_portable (them : nat) : B () :=
  let! portable := on_st (chance (F64.dec 5 1)) in
  if portable then
    let! p := persona_of them in
    set_persona them (mk_Persona (with_suffix p.(p_call) (txt "P")) p.(p_name) p.(p_qth) p.(p_region) p.(p_zone)
                        p.(p_rig) p.(p_power_w) p.(p_antenna) p.(p_reference))
  else ret ().

Definition sota (s2s : bool) (me_rng : Rng) : B () :=
  let! (summit, assoc) := on_st sota_ref in
  let! home := on_st (sota_home assoc) in
  let! them := add_station (Some home) (F64.of_Z 0) in
  let! _ := in_state them home assoc in
  let! _ := maybe_portable them in
  let! _ := activate them summit in
  let! _ := (if s2s then let! (r, _) := lift (sota_ref me_rng) in set_my_reference r.1 else ret ()) in
  let t := Them them in
  let! c := call_of them in
  let! mc := me_call in
  let! _ := say t (fmt "CQ SOTA CQ SOTA DE {} {} K" [c; c]) in
  let! _ := say You (if s2s then fmt "S2S {}" [mc] else mc) in
  let! again := repeat in
  let! _ := (if again then let! _ := say t (txt "QRZ?") in say You (fmt "{} {}" [mc; mc]) else ret ()) in
  let! p := persona_of them in
  let st := exchange_region p in
  let! g := greeting in
  let! with_ref := on_text (chance (F64.dec 5 1)) in
  let ref_part := if with_ref then fmt "<BT> REF {} {}" [summit; summit] else [] in
  let! _ := say t (fmt "{} {} UR 5NN 5NN {} {} {} BK" [mc; g; st; st; ref_part]) in
  let! my := gets me in
  let mst := exchange_region my in
  let! _ := say You (fmt "BK R TU UR 5NN {} {}" [mst; mst]
                     ++ (match my.(p_reference) with Some r => fmt " S2S {} {}" [r; r] | None => [] end)
                     ++ txt " 73 BK") in
  let! again := (match ref_part with [] => ret true | _ => repeat end) in
  let! _ := (if again then let! _ := say You (txt "REF?") in say t (fmt "{} {}" [summit; summit]) else ret ()) in
  let! close := on_text (pick (strs ["TU 73 EE"; "R TU 73 EE"; "TU SOTA EE"]%string)) in
  say t close.

(** ** Pileups *)

(** The part of a call that came through; [find] by position in an ASCII
    string, and the slice panics when it ends before. *)
Fixpoint digit_position (i : nat) (t : text) : option nat :=
  match t with
  | [] => None
  | c :: t => if is_ascii_digit c then Some i else digit_position (S i) t
  end.
Definition partial (b : text) : B text :=
  let! head := on_text (chance (F64.dec 5 1)) in
  if head then
    let d := default 1%nat (digit_position 0 b) in
    if (d <? length b)%nat then ret (fmt "{}?" [take (S d) b]) else (fun _ => Panic)
  else ret (fmt "?{}" [drop (length b - 3) b]).

Fixpoint all_call_loop (first : bool) (waiting : list nat) : B () :=
  match waiting with
  | [] => ret ()
  | i :: waiting =>
      let! c := call_of i in
      let! twice := on_text (chance (F64.dec 4 1)) in
      let! s := (if first then gap
                 else let! ms := on_timing (range_u32 0 700) in ret (WithPrevious (from_millis ms))) in
      let! _ := push (Them i) (if twice then fmt "{} {}" [c; c] else c) s in
      all_call_loop false waiting
  end.
Definition all_call (waiting : list nat) (you : option text) : B () :=
  let! _ := all_call_loop true waiting in
  match you with Some mc => say You mc | None => ret () end.

Fixpoint place_callers (n : nat) (mine : option Home) (not : list Z) : B (list nat) :=
  match n with
  | O => ret []
  | S n =>
      let! h := on_st (random_caller mine not cfg.(difficulty).(d_hf_band)) in
      let! i := place h true in
      let! rest := place_callers n mine not in
      ret (i :: rest)
  end.

(** [waiting.remove(range_u32(0, len - 1))]. *)
Definition take_one (waiting : list nat) : B (nat * list nat) :=
  let! k := on_text (range_u32 0 (Z.of_nat (length waiting) - 1)) in
  lift (match waiting !! Z.to_nat k with
        | Some them => Done (them, delete (Z.to_nat k) waiting)
        | None => Panic
        end).

Definition pileup_round (mc my_zone : text) (waiting : list nat) : B (list nat) :=
  let! _ := all_call waiting None in
  let! (them, waiting) := take_one waiting in
  let t := Them them in
  let! c := call_of them in
  let! part := (let! again := repeat in ret (again || (4 <=? length waiting)%nat)) in
  let! _ := (if part then
    let! p := persona_of them in
    let! part := partial (base p.(p_call)) in
    let! _ := say You part in say t (fmt "{} {}" [c; c])
    else ret ()) in
  let! _ := say You (fmt "{} 5NN {}" [c; my_zone]) in
  let! p := persona_of them in
  let zone := show p.(p_zone) in
  let! tu_first := on_text (chance (F64.dec 5 1)) in
  let! _ := say t (if tu_first then fmt "TU 5NN {}" [zone] else fmt "R 5NN {} TU" [zone]) in
  let! again := repeat in
  let! _ := (if again then let! _ := say You (txt "AGN?") in say t (fmt "5NN {} {}" [zone; zone]) else ret ()) in
  let! _ := say You (match waiting with [] => fmt "TU {} QRT" [mc] | _ => fmt "TU {} QRZ?" [mc] end) in
  ret waiting.
(** The [while] loop: a round takes one station off the list, so as many rounds
    as there are stations end it; more would be a panic here. *)
Fixpoint pileup_loop (n : nat) (mc my_zone : text) (waiting : list nat) : B () :=
  match waiting, n with
  | [], _ => ret ()
  | _, O => fun _ => Panic
  | _, S n => let! waiting := pileup_round mc my_zone waiting in pileup_loop n mc my_zone waiting
  end.
Definition pileup (callers : Z) : B () :=
  let! mc := me_call in
  let! my := gets me in
  let my_zone := show my.(p_zone) in
  let! my_home := lift (home_of cfg.(my_call)) in
  let not := [match my_home with Some h => h.(h_entity).(e_dxcc) | None => 0 end] in
  let! waiting := place_callers (Z.to_nat callers) my_home not in
  let! _ := say You (fmt "CQ CQ DE {} {} K" [mc; mc]) in
  pileup_loop (length waiting) mc my_zone waiting.

(** The DX comes back to the operator. *)
Definition worked_at_last (d : Party) (dc mc : text) : B () :=
  let! again := repeat in
  let! _ := (if again then
    let! part := partial (base cfg.(my_call)) in
    let! _ := say d part in say You (fmt "{} {}" [mc; mc])
    else ret ()) in
  let! _ := say d (fmt "{} 5NN" [mc]) in
  let! tu := on_text (pick (strs ["TU 5NN"; "5NN TU"; "R 5NN TU"]%string)) in
  let! _ := say You tu in
  say d (fmt "TU {} UP" [dc]).
Definition work_another (d : Party) (waiting : list nat) : B (list nat) :=
  let! (them, waiting) := take_one waiting in
  let! c := call_of them in
  let! _ := say d (fmt "{} 5NN" [c]) in
  let! tu := on_text (pick (strs ["TU 5NN"; "5NN TU"; "R 5NN"]%string)) in
  let! _ := say (Them them) tu in
  let! next := on_text (pick (strs ["TU UP"; "TU"; "UP"]%string)) in
  let! _ := say d next in
  ret waiting.
(** The [loop]: it ends when nobody waits at the latest. *)
Fixpoint chase_loop (n : nat) (d : Party) (dc mc : text) (before worked : Z) (waiting : list nat) : B () :=
  let! _ := all_call waiting (Some mc) in
  if (worked =? before) || (match waiting with [] => true | _ => false end) then worked_at_last d dc mc
  else match n with
       | O => fun _ => Panic
       | S n =>
           let! waiting := work_another d waiting in
           chase_loop n d dc mc before (worked + 1) waiting
       end.
Definition chase (callers : Z) : B () :=
  let! mc := me_call in
  let! my_home := lift (home_of cfg.(my_call)) in
  let! dx_home := on_st (random_rare my_home) in
  let! dx := place dx_home false in
  let! _ := update (fun b => set_avoid b (Some dx_home.(h_entity).(e_dxcc))) in
  let! waiting := place_callers (Z.to_nat callers) my_home [dx_home.(h_entity).(e_dxcc)] in
  let d := Them dx in
  let! dc := call_of dx in
  let! up := on_text (range_u32 1 5) in
  let! which := on_text (range_u32 0 2) in
  let! _ := say d (if which =? 0 then fmt "CQ {} UP {}" [dc; show up]
                   else if which =? 1 then fmt "CQ DE {} {} UP" [dc; dc] else fmt "{} UP {}" [dc; show up]) in
  let! before := on_text (range_u32 1 (Z.min callers 3)) in
  chase_loop (length waiting) d dc mc before 0 waiting.

(** ** A script *)

Definition build_kind (me_rng : Rng) : B () :=
  match cfg.(kind) with
  | RagChew => rag_chew
  | Contest exchange cut_numbers => contest exchange cut_numbers
  | Pota park_to_park => pota park_to_park me_rng
  | Sota summit_to_summit => sota summit_to_summit me_rng
  | DxPileup callers => pileup callers
  | DxChase callers => chase callers
  end.
Definition build (rng : Rng) : outcome Script :=
  let# (p, me_rng) := my_persona cfg.(my_call) (fork rng STREAM_ME) in
  let b := mk_Builder p [] [] (fork rng STREAM_STATIONS) None (fork rng STREAM_TEXT) (fork rng STREAM_TIMING) in
  let# (_, b) := build_kind me_rng b in
  Done (mk_Script cfg.(kind) b.(me) b.(stations) b.(tx)).

Fixpoint check_encodes (l : list Transmission) : result () ScenarioError :=
  match l with
  | [] => Ok ()
  | t :: l =>
      let? _ := map_err (Unencodable t.(tx_text)) (tokenize t.(tx_text)) in check_encodes l
  end.
(** [generate]. *)
Definition generate : outcome Script :=
  match validate cfg.(difficulty) with
  | Err e => Refused e
  | Ok _ =>
      if (match cfg.(kind) with
          | DxPileup callers | DxChase callers => negb ((1 <=? callers) && (callers <=? 12))
          | _ => false
          end)
      then Refused (InvalidSetting "a pileup needs 1 to 12 callers")
      else
        let# script := build (rng_new cfg.(seed)) in
        match check_encodes script.(s_transmissions) with
        | Ok _ => Done script
        | Err e => Refused e
        end
  end.
End Personas.
