(* ===== verification/Encodes.v ===== *)
(** * Encodes: text that is sure to be sendable

    Text put together from characters of the Morse table, spaces and bracketed
    prosigns: it stays so when it is concatenated, formatted and split into
    words, and the tokenizer accepts it. *)

From S2P Require Import Prelude Text Morse Timing Floats Tables World Draws Callsign WorldFacts Scenario Qso.

Inductive encodes : text -> Prop :=
| enc_nil : encodes []
| enc_char c t : plain_char c = true -> encodes t -> encodes (c :: t)
| enc_prosign p t : encodes t -> encodes (prosign_display p ++ t).

Lemma encodes_app a b : encodes a -> encodes b -> encodes (a ++ b).
Proof.
  intros Ha Hb. induction Ha as [|c t Hc Ht IH|p t Ht IH]; [done|by constructor|].
  rewrite <- app_assoc. by constructor.
Qed.
Lemma encodes_plain t : plain_text t = true -> encodes t.
Proof.
  induction t as [|c t IH]; [constructor|]. cbn. intros [Hc Ht]%andb_true_iff. constructor; auto.
Qed.

(** ** The tokenizer accepts it *)

Lemma prosign_display_ok p :
  exists n, prosign_display p = ch "<" :: n ++ [ch ">"]
    /\ Forall (fun c => is_whitespace c = false /\ c <> ch ">") n /\ from_name n = Some p.
Proof.
  exists (prosign_name p). split; [done|]. split; [|by destruct p].
  apply Forall_forall. intros c Hc. destruct p; cbn in Hc;
    repeat (apply elem_of_cons in Hc as [->|Hc]; [split; [reflexivity|done]|]); by apply elem_of_nil in Hc.
Qed.

Lemma read_name_prosign n : forall acc t off,
  Forall (fun c => is_whitespace c = false /\ c <> ch ">") n ->
  exists off', read_name acc (n ++ ch ">" :: t) off = Some (acc ++ n, t, off').
Proof.
  induction n as [|c n IH]; intros acc t off Hn; cbn [read_name app].
  - rewrite Z.eqb_refl. rewrite app_nil_r. by eexists.
  - apply Forall_cons in Hn as [[_ Hc] Hn]. destruct (c =? ch ">") eqn:E; [by apply Z.eqb_eq in E|].
    destruct (IH (acc ++ [c]) t (off + len_utf8 c) Hn) as [off' ->]. rewrite <- app_assoc. by eexists.
Qed.

Lemma tokenize_loop_encodes fuel : forall t, encodes t -> (length t <= fuel)%nat -> forall out ps off,
  exists ts, tokenize_loop fuel out ps off t = Some (Ok ts).
Proof.
  induction fuel as [|fuel IH]; intros t Ht Hlen out ps off.
  - destruct t; [by eexists|cbn in Hlen; lia].
  - destruct Ht as [|c t Hc Ht|p t Ht]; [by eexists| |].
    + cbn [tokenize_loop length] in *. unfold plain_char in Hc.
      destruct (is_whitespace c); [apply IH; [done|lia]|]. cbn [orb] in Hc.
      apply andb_true_iff in Hc as [Hlt%negb_true_iff Hp]. rewrite Hlt.
      destruct (pattern (TChar (to_ascii_uppercase c))); [|done]. apply IH; [done|lia].
    + destruct (prosign_display_ok p) as (n & Hd & Hn & Hname). rewrite Hd in *.
      cbn [app tokenize_loop length] in *. change (is_whitespace (ch "<")) with false. cbv iota.
      rewrite Z.eqb_refl. rewrite <- app_assoc. cbn [app].
      destruct (read_name_prosign n [] t (off + len_utf8 (ch "<")) Hn) as [off' ->]. cbn [app].
      rewrite Hname. apply IH; [done|]. rewrite !length_app in Hlen. cbn [length] in Hlen. lia.
Qed.
Lemma encodes_tokenizes t : encodes t -> exists ts, tokenize t = Ok ts.
Proof.
  intros Ht. destruct (tokenize_loop_encodes (length t) t Ht ltac:(lia) [] false 0) as [ts Hts].
  exists ts. unfold tokenize, tokenize_fuel. by rewrite Hts.
Qed.

(** ** Words *)

Lemma split_encodes t : encodes t -> forall cur, encodes cur ->
  Forall encodes (split_whitespace_from cur t).
Proof.
  induction 1 as [|c t Hc Ht IH|p t Ht IH]; intros cur Hcur.
  - cbn. destruct cur; [by apply Forall_nil|by apply Forall_singleton].
  - cbn [split_whitespace_from]. destruct (is_whitespace c) eqn:E.
    + destruct cur; [apply IH; constructor|]. constructor; [done|]. apply IH. constructor.
    + apply IH. apply encodes_app; [done|]. constructor; [done|constructor].
  - destruct (prosign_display_ok p) as (n & Hd & Hn & _). rewrite split_whitespace_from_app.
    + apply IH. rewrite <- (app_nil_r (prosign_display p)). by apply encodes_app; [|apply enc_prosign; constructor].
    + rewrite Hd. constructor; [done|]. apply Forall_app. split; [|by repeat constructor].
      eapply Forall_impl; [exact Hn|]. by intros c [? _].
Qed.
Lemma join_encodes ws : Forall encodes ws -> encodes (join_space ws).
Proof.
  induction 1 as [|w ws Hw Hws IH]; [constructor|].
  destruct ws as [|w' ws]; [done|]. change (encodes (w ++ space :: join_space (w' :: ws))).
  apply encodes_app; [done|]. by constructor.
Qed.
Lemma words_encode t : encodes t -> encodes (join_space (split_whitespace t)).
Proof. intros Ht. apply join_encodes, split_encodes; [done|constructor]. Qed.

(** ** Formatting *)

(** The literal parts of a template: [name] is the prosign being read. *)
Fixpoint template_ok (name : option text) (template : list (option char)) : bool :=
  match template, name with
  | [], None => true
  | [], Some _ => false
  | None :: rest, None => template_ok None rest
  | None :: _, Some _ => false
  | Some c :: rest, None =>
      if c =? ch "<" then template_ok (Some []) rest else plain_char c && template_ok None rest
  | Some c :: rest, Some n =>
      if c =? ch ">" then existsb (fun p => bool_decide (prosign_name p = n)) ALL && template_ok None rest
      else template_ok (Some (n ++ [c])) rest
  end.
Definition open_name (name : option text) : text := match name with Some n => ch "<" :: n | None => [] end.

Lemma encodes_fill template : forall args name,
  template_ok name template = true -> Forall encodes args -> encodes (open_name name ++ fill template args).
Proof.
  induction template as [|[c|] rest IH]; intros args name Hok Hargs; cbn [template_ok fill] in *.
  - destruct name; [done|constructor].
  - destruct name as [n|]; cbn [open_name].
    + destruct (c =? ch ">") eqn:E.
      * apply Z.eqb_eq in E. rewrite E. apply andb_true_iff in Hok as [Hp Hok].
        apply existsb_exists in Hp as (p & _ & <-%bool_decide_eq_true).
        replace ((ch "<" :: prosign_name p) ++ ch ">" :: fill rest args) with (prosign_display p ++ fill rest args)
          by (unfold prosign_display; cbn [app]; by rewrite <- !app_assoc).
        apply enc_prosign. by apply (IH args None).
      * replace ((ch "<" :: n) ++ c :: fill rest args)
          with (open_name (Some (n ++ [c])) ++ fill rest args)
          by (cbn [open_name app]; by rewrite <- !app_assoc).
        by apply IH.
    + cbn [app]. destruct (c =? ch "<") eqn:E.
      * apply Z.eqb_eq in E. rewrite E. by apply (IH args (Some [])).
      * apply andb_true_iff in Hok as [Hc Hok]. constructor; [done|]. by apply (IH args None).
  - destruct name; [done|]. cbn [open_name app]. destruct args as [|x args]; [by apply (IH [] None)|].
    apply Forall_cons in Hargs as [Hx Hargs]. apply encodes_app; [done|]. by apply (IH args None).
Qed.
(** A sendable template with sendable arguments is sendable. *)
Lemma encodes_fmt s args : template_ok None (holes s) = true -> Forall encodes args -> encodes (fmt s args).
Proof. intros Hs Hargs. exact (encodes_fill (holes s) args None Hs Hargs). Qed.
Lemma encodes_txt s : plain_text (txt s) = true -> encodes (txt s).
Proof. apply encodes_plain. Qed.
