(* ===== verification/QsoFacts.v ===== *)
(** * QsoFacts: what is proved of the scripts

    An invariant of the builder, kept by everything it does: every station has
    a call of its own and sendable particulars, every transmission is sendable
    and from a station there is.  The builders never panic, whatever is drawn,
    and [generate] refuses nothing that its checks let through. *)

From Stdlib Require Import Floats.SpecFloat Numbers.DecimalString.
From S2P Require Import Prelude Text Morse Timing Floats Tables World Draws Callsign WorldFacts CallsignFacts.
From S2P Require Import Scenario Qso Encodes.

(** ** Sendable particulars *)

Lemma range_elem lo hi c : lo <= c <= hi -> c ∈ map (fun k => lo + Z.of_nat k) (seq 0 (Z.to_nat (hi - lo + 1))).
Proof.
  intros Hc. apply list_elem_of_fmap. exists (Z.to_nat (c - lo)). split; [lia|]. apply elem_of_seq. lia.
Qed.
Lemma check_range lo hi (f : Z -> bool) c :
  forallb f (map (fun k => lo + Z.of_nat k) (seq 0 (Z.to_nat (hi - lo + 1)))) = true -> lo <= c <= hi -> f c = true.
Proof. intros Hf Hc. exact (forallb_elem f _ _ Hf (range_elem lo hi c Hc)). Qed.

Lemma call_char_plain c : call_char c = true -> plain_char c = true.
Proof.
  intros [H|H]%call_char_range;
    [apply (check_range 47 57)|apply (check_range 65 90)]; try done; by vm_compute.
Qed.
Lemma encodes_call t : Forall (fun c => call_char c = true) t -> encodes t.
Proof. induction 1 as [|c t Hc Ht IH]; constructor; [by apply call_char_plain|done]. Qed.

Lemma show_digits z : Forall (fun c => is_ascii_digit c = true) (show z).
Proof.
  unfold show. generalize (N.to_uint (Z.to_N z)) as d.
  assert (H : forall d, Forall (fun c => is_ascii_digit c = true) (txt (NilEmpty.string_of_uint d))).
  { induction d; cbn [NilEmpty.string_of_uint]; [constructor|..]; (constructor; [reflexivity|exact IHd]). }
  exact H.
Qed.
Lemma digit_call_char c : is_ascii_digit c = true -> call_char c = true.
Proof. unfold call_char. intros ->. by rewrite orb_true_r. Qed.
Lemma digits_call t : Forall (fun c => is_ascii_digit c = true) t -> Forall (fun c => call_char c = true) t.
Proof. intros H. eapply Forall_impl; [exact H|]. cbn beta. apply digit_call_char. Qed.
Lemma show_encodes z : encodes (show z).
Proof. apply encodes_call, digits_call, show_digits. Qed.
Lemma show_pad_digits w z : Forall (fun c => is_ascii_digit c = true) (show_pad w z).
Proof.
  unfold show_pad. apply Forall_app_2; [|apply show_digits].
  apply Forall_forall. intros c Hc%elem_of_replicate_inv. by subst c.
Qed.
Lemma show_pad_encodes w z : encodes (show_pad w z).
Proof. apply encodes_call, digits_call, show_pad_digits. Qed.
Lemma cut_encodes t : Forall (fun c => is_ascii_digit c = true) t -> encodes (cut t).
Proof.
  induction 1 as [|c t Hc Ht IH]; [constructor|]. cbn [cut map]. constructor; [|done].
  destruct (c =? 48); [reflexivity|]. destruct (c =? 57); [reflexivity|].
  by apply call_char_plain, digit_call_char.
Qed.

Create HintDb enc discriminated.
#[export] Hint Resolve show_encodes show_pad_encodes enc_nil : enc.
#[export] Hint Resolve Forall_nil_2 Forall_cons_2 : enc.
(** A literal, or a template with arguments known to be sendable. *)
Ltac enc :=
  lazymatch goal with
  | |- encodes (fmt _ _) => apply encodes_fmt; [vm_compute; reflexivity|repeat (apply Forall_cons_2; [enc|]); apply Forall_nil_2]
  | |- encodes (txt _) => apply encodes_plain; vm_compute; reflexivity
  | |- encodes (if ?b then _ else _) => destruct b; enc
  | |- encodes (_ ++ _) => apply encodes_app; enc
  | |- _ => first [assumption | solve [eauto with enc]]
  end.

(** ** Speeds *)

(** A speed in the range the settings allow is one that can be keyed. *)
Lemma speed_wpm_ok k : 5 <= k <= 60 -> check_wpm (F64.of_Z k) = Ok (F64.of_Z k).
Proof.
  intros Hk. pose proof (check_range 5 60 (fun k => is_ok (check_wpm (F64.of_Z k))) k ltac:(vm_compute; reflexivity) Hk) as H.
  cbn beta in H. unfold check_wpm in *. by destruct (_ && _).
Qed.
Lemma farnsworth_ok k e : 5 <= k <= 60 -> F64.is_finite e = true -> F64.leb (F64.of_Z 3) e = true ->
  F64.ltb e (F64.of_Z k) = true -> exists s, farnsworth (F64.of_Z k) e = Ok s.
Proof.
  intros Hk Hf H3 Hlt. unfold farnsworth. rewrite (speed_wpm_ok k Hk). cbn [result_bind].
  assert (H100 : F64.ltb (F64.of_Z k) MAX_WPM = true).
  { apply (check_range 5 60 (fun k => F64.ltb (F64.of_Z k) MAX_WPM) k); [vm_compute; reflexivity|done]. }
  unfold check_wpm at 1. rewrite Hf. unfold MIN_WPM. rewrite H3, (ltb_leb e MAX_WPM) by by eapply ltb_trans.
  cbn [andb result_bind]. rewrite (ltb_asym e) by done. by eexists.
Qed.

(** ** Personas *)

Definition call_text (t : text) : Prop := Forall (fun c => call_char c = true) t.
Definition persona_ok (p : Persona) : Prop :=
  call_text p.(p_call).(as_str) /\ encodes p.(p_name) /\ encodes p.(p_qth) /\ encodes p.(p_region)
  /\ encodes p.(p_rig) /\ encodes p.(p_antenna) /\ (forall r, p.(p_reference) = Some r -> encodes r).

Section Fields.
Context (p : Persona) (Hp : persona_ok p).
Lemma persona_name : encodes p.(p_name).
Proof using Hp. by destruct Hp as (_ & ? & _). Qed.
Lemma persona_qth : encodes p.(p_qth).
Proof using Hp. by destruct Hp as (_ & _ & ? & _). Qed.
Lemma persona_region : encodes p.(p_region).
Proof using Hp. by destruct Hp as (_ & _ & _ & ? & _). Qed.
Lemma persona_rig : encodes p.(p_rig).
Proof using Hp. by destruct Hp as (_ & _ & _ & _ & ? & _). Qed.
Lemma persona_antenna : encodes p.(p_antenna).
Proof using Hp. by destruct Hp as (_ & _ & _ & _ & _ & ? & _). Qed.
Lemma exchange_region_encodes : encodes (exchange_region p).
Proof using Hp. unfold exchange_region. destruct (_ =? 2); [apply persona_region|enc]. Qed.
End Fields.
#[export] Hint Resolve persona_name persona_qth persona_region persona_rig persona_antenna
  exchange_region_encodes : enc.

Lemma plain_encodes_elem l t : Forall (fun t => plain_text t = true) l -> t ∈ l -> encodes t.
Proof. intros Hl Ht. apply encodes_plain. exact (proj1 (Forall_forall _ _) Hl t Ht). Qed.

Section Scripts.
Context {F : Fuel}.

(** A pick from a table that is written out. *)
Lemma pick_table {A} (l : list A) (Q : A -> Prop) :
  match l with [] => false | _ => Z.of_nat (length l) <=? u32_max end = true ->
  (forall x, x ∈ l -> Q x) -> gives (pick l) Q.
Proof.
  intros Hl HQ. eapply gives_mono; [apply pick_gives|exact HQ]; destruct l; try done. by apply Z.leb_le.
Qed.

(** A word of a table is sendable. *)
Lemma pick_words l : short l && forallb plain_text l = true -> gives (pick l) encodes.
Proof.
  intros [[Hne Hlen]%short_spec Hp]%andb_true_iff. eapply gives_mono; [by apply pick_gives|].
  intros t Ht. apply encodes_plain. by eapply forallb_elem.
Qed.

Definition speaks (home : option Home) : Prop :=
  forall h, home = Some h -> h.(h_region) = None -> h.(h_entity).(e_towns) <> [].

Lemma make_persona_gives call home portable :
  call_text call.(as_str) -> homes_ok home -> speaks home ->
  gives (make_persona call home portable) (fun p => persona_ok p /\ p.(p_call) = call).
Proof.
  intros Hcall Hhome Hsay. unfold make_persona.
  apply gives_bind with (P := fun '(name, qth, region, _) => encodes name /\ encodes qth /\ encodes region).
  - destruct home as [h|].
    + destruct (Hhome h eq_refl) as [He Hr]. specialize (Hsay h eq_refl).
      destruct (row_texts _ He) as (Hname & Htowns & _ & Hpool & Hpn & Hpl & _ & Htl & _ & _).
      apply gives_bind with (P := fun '(qth, region) => encodes qth /\ encodes region).
      * destruct (h_region h) as [r|].
        -- pose proof (row_region _ He r (Hr r eq_refl)) as Hok. unfold region_ok in Hok. split_andb.
           destruct (short_spec (r_subdivisions r)) as [? ?]; [done|].
           eapply gives_bind; [by apply pick_gives|]. intros [code towns] Hc.
           eapply (forallb_elem (fun s => _ && _)) in Hc; [|eassumption]. cbn [fst snd] in Hc. split_andb.
           destruct (short_spec towns) as [? ?]; [done|].
           eapply gives_bind; [by apply pick_gives|]. intros qth Hq. apply gives_ret.
           split; [apply encodes_plain; by eapply forallb_elem|].
           destruct (_ =? 2); by apply encodes_plain.
        -- eapply gives_bind; [apply pick_gives; [by apply Hsay|done]|]. intros qth Hq. apply gives_ret.
           split; [exact (plain_encodes_elem _ _ Htowns Hq)|by apply encodes_plain].
      * intros [qth region] [Hq Hg]. eapply gives_bind; [by apply pick_gives|]. intros name Hn.
        apply gives_ret. split; [exact (plain_encodes_elem _ _ Hpool Hn)|done].
    + eapply gives_bind.
      { apply pick_words. vm_compute. reflexivity. }
      intros name Hn. eapply gives_bind; [apply range_u32_gives; unfold u32_max; lia|]. intros z _.
      apply gives_ret. split; [done|]. split; enc.
  - intros [[[name qth] region] zone] (Hn & Hq & Hg).
    apply gives_bind with (P := fun '(_, antenna) => encodes antenna).
    + destruct portable;
        (eapply gives_bind; [apply (pick_table _ (fun _ => True)); done|]; intros w _;
         eapply gives_bind; [apply pick_words; vm_compute; reflexivity|]; intros a Ha; by apply gives_ret).
    + intros [w a] Ha. eapply gives_bind.
      { apply pick_words. vm_compute. reflexivity. }
      intros rig Hrig. apply gives_ret. by repeat split.
Qed.

(** ** The builder's invariant *)

Context (cfg : ScenarioConfig).
Context (Hvalid : validate cfg.(difficulty) = Ok ()).
(** The operator's call is one that was parsed. *)
Context (Hmy : exists s, parse s = Ok cfg.(my_call)).

Definition station_good (s : Station) : Prop :=
  persona_ok s.(persona) /\ station_ok s.(persona).(p_call).(as_str)
  /\ base s.(persona).(p_call) <> base cfg.(my_call).
Definition stations_good (l : list Station) : Prop :=
  Forall station_good l /\ NoDup (map (fun s => base s.(persona).(p_call)) l).
Definition party_ok (l : list Station) (who : Party) : Prop :=
  match who with Them i => (i < length l)%nat | You => True end.
Definition start_ok (s : Start) : Prop :=
  match s with
  | AfterPrevious g => from_millis 300 <= g <= from_millis 1200
  | WithPrevious d => 0 <= d <= from_millis 700
  end.
Definition tx_ok (l : list Station) (t : Transmission) : Prop :=
  encodes t.(tx_text) /\ party_ok l t.(from) /\ start_ok t.(start).
Definition me_ok (m : Persona) : Prop := persona_ok m /\ m.(p_call) = cfg.(my_call).

(** The builder has the stations [l] and the operator [m]. *)
Definition St (l : list Station) (m : Persona) (b : Builder) : Prop :=
  b.(stations) = l /\ b.(me) = m /\ stations_good l /\ me_ok m /\ Forall (tx_ok l) b.(tx).

Lemma my_call_text : call_text cfg.(my_call).(as_str).
Proof. destruct Hmy as [s Hs]. by apply parse_inv in Hs as [? _]. Qed.

Lemma triple_step {A C} l m l' m' (c : M Builder A) (Q : A -> Prop) (k : A -> M Builder C) R :
  triple (St l m) c (fun a b => Q a /\ St l' m' b) ->
  (forall a, Q a -> triple (St l' m') (k a) R) -> triple (St l m) (bind c k) R.
Proof.
  intros Hc Hk. eapply triple_bind; [exact Hc|]. intros a. cbn beta. apply triple_pure. apply Hk.
Qed.
Lemma triple_unit {C} l m l' m' (c : M Builder ()) (k : () -> M Builder C) R :
  triple (St l m) c (fun _ => St l' m') ->
  triple (St l' m') (k ()) R -> triple (St l m) (bind c k) R.
Proof. intros Hc Hk. eapply triple_bind; [exact Hc|]. by intros []. Qed.

Lemma on_st_triple {A} l m (g : M Rng A) Q :
  gives g Q -> triple (St l m) (on_st g) (fun a b => Q a /\ St l m b).
Proof.
  intros Hg b Hb. unfold on_st. eapply okay_bind; [apply Hg|]. intros [a r] Ha. by split.
Qed.
Lemma on_text_triple {A} l m (g : M Rng A) Q :
  gives g Q -> triple (St l m) (on_text g) (fun a b => Q a /\ St l m b).
Proof.
  intros Hg b Hb. unfold on_text. eapply okay_bind; [apply Hg|]. intros [a r] Ha. by split.
Qed.
Lemma on_timing_triple {A} l m (g : M Rng A) Q :
  gives g Q -> triple (St l m) (on_timing g) (fun a b => Q a /\ St l m b).
Proof.
  intros Hg b Hb. unfold on_timing. eapply okay_bind; [apply Hg|]. intros [a r] Ha. by split.
Qed.
Lemma lift_triple {A} l m (o : outcome A) Q :
  okay o Q -> triple (St l m) (lift o) (fun a b => Q a /\ St l m b).
Proof. intros Ho b Hb. unfold lift. eapply okay_bind; [apply Ho|]. intros a Ha. by split. Qed.
Lemma gets_triple {A} l m (f : Builder -> A) (Q : A -> Prop) :
  (forall b, St l m b -> Q (f b)) -> triple (St l m) (gets f) (fun a b => Q a /\ St l m b).
Proof. intros Hf b Hb. split; [by apply Hf|done]. Qed.
Lemma ret_triple {A} l m (a : A) (Q : A -> Prop) :
  Q a -> triple (St l m) (ret a) (fun a b => Q a /\ St l m b).
Proof. intros Ha b Hb. by split. Qed.

Lemma chance_text l m p : triple (St l m) (on_text (chance p)) (fun _ b => True /\ St l m b).
Proof. apply on_text_triple, chance_gives. Qed.
Lemma chance_st l m p : triple (St l m) (on_st (chance p)) (fun _ b => True /\ St l m b).
Proof. apply on_st_triple, chance_gives. Qed.
Lemma repeat_triple l m : triple (St l m) (repeat cfg) (fun _ b => True /\ St l m b).
Proof. apply on_text_triple, chance_gives. Qed.
Lemma range_text l m lo hi : 0 <= lo <= hi -> hi <= u32_max ->
  triple (St l m) (on_text (range_u32 lo hi)) (fun x b => lo <= x <= hi /\ St l m b).
Proof. intros ? ?. apply on_text_triple. by apply range_u32_gives. Qed.

Lemma station_at_triple l m i s : l !! i = Some s ->
  triple (St l m) (station_at i) (fun x b => x = s /\ St l m b).
Proof.
  intros Hi. eapply triple_step; [apply (gets_triple l m _ (eq l)); by intros b [<- _]|].
  intros ? <-. rewrite Hi. by apply lift_triple.
Qed.
Lemma persona_of_triple l m i s : l !! i = Some s ->
  triple (St l m) (persona_of i) (fun x b => x = s.(persona) /\ St l m b).
Proof.
  intros Hi. eapply triple_step; [by apply station_at_triple|]. intros ? ->. by apply ret_triple.
Qed.
Lemma call_of_triple l m i s : l !! i = Some s ->
  triple (St l m) (call_of i) (fun x b => x = s.(persona).(p_call).(as_str) /\ St l m b).
Proof.
  intros Hi. eapply triple_step; [by apply persona_of_triple|]. intros ? ->. by apply ret_triple.
Qed.
Lemma me_call_triple l m : triple (St l m) me_call (fun x b => x = cfg.(my_call).(as_str) /\ St l m b).
Proof. apply gets_triple. intros b (_ & -> & _ & [_ ->] & _). done. Qed.
Lemma gets_me_triple l m : triple (St l m) (gets me) (fun x b => (x = m /\ me_ok m) /\ St l m b).
Proof. apply gets_triple. intros b (_ & -> & _ & ? & _). done. Qed.

Lemma gap_triple l m : triple (St l m) gap (fun s b => start_ok s /\ St l m b).
Proof.
  eapply triple_step; [apply on_timing_triple, range_u32_gives; unfold u32_max; lia|]. intros ms Hms.
  cbn beta in Hms. apply ret_triple. unfold start_ok, from_millis. lia.
Qed.
Lemma push_triple l m who t s : party_ok l who -> encodes t -> start_ok s ->
  triple (St l m) (push who t s) (fun _ => St l m).
Proof.
  intros Hw Ht Hs b (Hl & Hm & Hg & Hme & Htx). split; [done|]. split; [done|]. split; [done|]. split; [done|].
  cbn. apply Forall_app_2; [done|]. repeat constructor; [by apply words_encode|done|done].
Qed.
Lemma say_triple l m who t : party_ok l who -> encodes t ->
  triple (St l m) (say who t) (fun _ => St l m).
Proof.
  intros Hw Ht. eapply triple_step; [apply gap_triple|]. intros s Hs. by apply push_triple.
Qed.
Lemma when_triple l m (b : bool) (c : M Builder ()) :
  triple (St l m) c (fun _ => St l m) -> triple (St l m) (if b then c else ret ()) (fun _ => St l m).
Proof. intros Hc. destruct b; [done|]. by intros s Hs. Qed.

(** ** Stations *)

Lemma taken_triple l m :
  triple (St l m) taken (fun t b => t = map (fun s => s.(persona).(p_call)) l /\ St l m b).
Proof. apply gets_triple. by intros b [-> _]. Qed.

Lemma wpm_range : 5 <= cfg.(difficulty).(d_wpm).1 <= cfg.(difficulty).(d_wpm).2
  /\ cfg.(difficulty).(d_wpm).2 <= 60.
Proof using Hvalid.
  pose proof Hvalid as H. unfold validate in H. destruct (d_wpm (difficulty cfg)) as [lo hi].
  cbn [fst snd]. destruct ((lo <? 5) || (60 <? hi) || (hi <? lo)) eqn:E; [done|].
  apply orb_false_iff in E as [[? ?]%orb_false_iff ?]. lia.
Qed.
Lemma farnsworth_setting e : cfg.(difficulty).(d_farnsworth_effective) = Some e ->
  F64.is_finite e = true /\ F64.leb (F64.of_Z 3) e = true.
Proof using Hvalid.
  pose proof Hvalid as H. unfold validate in H. destruct (d_wpm (difficulty cfg)) as [lo hi].
  destruct (_ || _ || _) in H; [done|]. cbn [refuse_if result_bind] in H.
  intros E. rewrite E in H. cbn [refuse_some] in H.
  destruct (F64.is_finite e && F64.leb (F64.of_Z 3) e) eqn:E2; [by apply andb_true_iff in E2|done].
Qed.
Lemma fists_setting : cfg.(difficulty).(d_fists) <> [].
Proof using Hvalid.
  pose proof Hvalid as H. unfold validate in H. destruct (d_wpm (difficulty cfg)) as [lo hi].
  destruct (_ || _ || _) in H; [done|]. cbn [refuse_if result_bind] in H.
  destruct (refuse_some _ _) in H; [|done]. cbn [result_bind] in H. by destruct (d_fists _).
Qed.

Context (Hfists : Z.of_nat (length cfg.(difficulty).(d_fists)) <= u32_max).

Lemma draw_signal_triple l m : triple (St l m) (draw_signal cfg) (fun _ b => True /\ St l m b).
Proof using Hvalid Hfists.
  unfold draw_signal. cbv zeta. destruct wpm_range as [Hlo Hhi].
  eapply triple_step; [apply on_st_triple, range_u32_gives; unfold u32_max; lia|]. intros k Hk. cbn beta in Hk.
  eapply triple_step with (Q := fun _ => True).
  { apply lift_triple. destruct (d_farnsworth_effective (difficulty cfg)) as [e|] eqn:Ee.
    - destruct (farnsworth_setting e Ee) as [Hf H3]. destruct (F64.ltb e (F64.of_Z k)) eqn:Elt.
      + destruct (farnsworth_ok k e) as [s ->]; [lia|done|done|done|]. done.
      + unfold speed_wpm. rewrite speed_wpm_ok by lia. done.
    - unfold speed_wpm. rewrite speed_wpm_ok by lia. done. }
  intros speed _. eapply triple_step; [apply on_st_triple, pick_gives; [apply fists_setting|done]|]. intros fist _.
  eapply triple_step; [apply on_st_triple, range_f64_gives|]. intros pitch _.
  eapply triple_step; [apply on_st_triple, range_f64_gives|]. intros strength _.
  eapply triple_step with (Q := fun _ => True); [apply on_st_triple; intros r; by destruct (next_u64 r)|]. intros seed _.
  by apply ret_triple.
Qed.

(** What [place] is asked for: a decorated call, or one straight from a row. *)
Definition made (decorate : bool) (c : Callsign) : Prop :=
  if decorate then station_ok c.(as_str) else exists e, e ∈ WORLD /\ call_of_entity e c.(as_str).

Lemma made_station d c : made d c -> station_ok c.(as_str).
Proof. destruct d; [done|]. intros (e & He & Hc). by eapply call_of_entity_station. Qed.

Lemma fresh_made_gives home (decorate : bool) l : home_ok home ->
  gives (fresh_call (if decorate then station_call home else call_from home) cfg.(my_call) l)
    (fun o => forall c, o = Some c -> made decorate c /\ fresh cfg.(my_call) l c).
Proof.
  intros Hh. set (make := (if decorate then station_call home else call_from home)).
  assert (Hmake : gives make (fun s => made decorate (mk_Callsign s))).
  { destruct decorate; [by apply station_call_gives|]. eapply gives_mono; [by apply call_from_gives|].
    intros s Hs. exists (h_entity home). by destruct Hh. }
  by apply fresh_call_gives; [|intros s; apply made_station].
Qed.

Lemma place_call_triple l m n decorate : forall home, home_good home ->
  triple (St l m) (place_call cfg n (map (fun s => s.(persona).(p_call)) l) home decorate)
    (fun '(c, h) b => (home_good h /\ made decorate c
       /\ fresh cfg.(my_call) (map (fun s => s.(persona).(p_call)) l) c) /\ St l m b).
Proof.
  induction n as [|n IH]; intros home Hh; cbn [place_call]; [by intros b Hb|].
  eapply triple_step; [apply on_st_triple, fresh_made_gives, Hh|]. intros [c|] Hc.
  { intros b Hb. destruct (Hc c eq_refl). split; [by split|exact Hb]. }
  destruct (home_of_ok (my_call cfg)) as (mine & Emine & Hmine).
  eapply triple_step; [apply (lift_triple _ _ _ (eq mine)); by rewrite Emine|]. intros ? <-. cbv zeta.
  eapply triple_step; [by apply (gets_triple _ _ _ (fun _ => True))|]. intros avoided _.
  eapply triple_step; [apply on_st_triple, random_caller_gives; [done|by destruct avoided; cbn; lia]|].
  intros h [Hg _]. by apply IH.
Qed.

Lemma fresh_station l c : stations_good l ->
  fresh cfg.(my_call) (map (fun s => s.(persona).(p_call)) l) c -> forall s,
  s.(persona).(p_call) = c -> persona_ok s.(persona) ->
  station_good s /\ stations_good (l ++ [s]).
Proof.
  intros [Hl Hnd] (Hok & Hmine & Htaken & _) s Hs Hp.
  assert (Hg : station_good s) by (split; [done|]; by rewrite Hs).
  split; [done|]. split; [apply Forall_app_2; [done|by apply Forall_singleton]|].
  rewrite map_app. apply NoDup_app. split; [done|]. split; [|apply NoDup_singleton].
  intros x Hx Hin. cbn in Hin. apply list_elem_of_singleton in Hin as ->. rewrite Hs in Hx.
  apply list_elem_of_fmap in Hx as (t & Ht & Hin).
  apply (proj1 (Forall_forall _ _) Htaken (p_call (persona t))); [|done].
  apply list_elem_of_fmap. eauto.
Qed.

Lemma tx_ok_more l s t : tx_ok l t -> tx_ok (l ++ [s]) t.
Proof.
  intros (? & Hp & ?). split; [done|]. split; [|done]. destruct (from t); [|done].
  cbn in *. rewrite length_app. lia.
Qed.

(** A station placed is the last of the list, good, and made as asked. *)
Lemma place_triple l m home decorate : home_good home ->
  triple (St l m) (place cfg home decorate)
    (fun i b => exists s, i = length l /\ station_good s /\ made decorate s.(persona).(p_call)
                          /\ St (l ++ [s]) m b).
Proof using Hvalid Hfists.
  intros Hh. unfold place. eapply triple_step; [apply taken_triple|]. intros ? ->.
  eapply triple_bind; [by apply place_call_triple|]. intros [c h]. cbn beta.
  apply triple_pure. intros (Hg & Hmade & Hfresh).
  eapply triple_step.
  { apply on_st_triple, make_persona_gives.
    - apply made_station in Hmade as [Hp _]. apply parse_inv in Hp as [Hp _]. exact Hp.
    - intros h' [= <-]. apply Hg.
    - intros h' [= <-]. apply Hg. }
  intros p [Hp Hcall]. eapply triple_step; [apply draw_signal_triple|]. intros sig _.
  set (s := mk_Station p sig).
  apply triple_bind with (R := fun _ b => station_good s /\ St (l ++ [s]) m b).
  { intros b (Hl & Hm & Hgood & Hme & Htx).
    destruct (fresh_station l c Hgood Hfresh s Hcall Hp) as [Hs Hgood']. unfold update. cbn [okay].
    split; [done|]. split; [cbn; by rewrite Hl|]. split; [done|]. split; [done|]. split; [done|].
    eapply Forall_impl; [exact Htx|]. intros t. apply tx_ok_more. }
  intros []. apply triple_pure. intros Hs.
  apply triple_bind with (R := fun x b => x = l ++ [s] /\ St (l ++ [s]) m b).
  { intros b Hb. split; [apply Hb|done]. }
  intros x. apply triple_pure. intros ->. intros b Hb. exists s.
  split; [rewrite length_app; cbn; lia|]. split; [done|]. split; [|done]. cbn. by rewrite Hcall.
Qed.

Lemma place_step {C} l m home decorate (k : nat -> M Builder C) R : home_good home ->
  (forall s, station_good s -> made decorate s.(persona).(p_call) ->
     triple (St (l ++ [s]) m) (k (length l)) R) ->
  triple (St l m) (bind (place cfg home decorate) k) R.
Proof using Hvalid Hfists.
  intros Hh Hk. eapply triple_bind; [by apply place_triple|]. intros i b (s & -> & Hs & Hm & Hb).
  by apply (Hk s).
Qed.

(** The same for [add_station]. *)
Lemma add_station_step {C} l m home share (k : nat -> M Builder C) R :
  (forall h, home = Some h -> home_good h) ->
  (forall s, station_good s -> made (match home with None => true | Some _ => false end) s.(persona).(p_call) ->
     triple (St (l ++ [s]) m) (k (length l)) R) ->
  triple (St l m) (bind (add_station cfg home share) k) R.
Proof using Hvalid Hfists.
  intros Hh Hk. destruct home as [h|]; cbn [add_station]; [by apply place_step; [apply Hh|]|].
  destruct (home_of_ok (my_call cfg)) as (mine & Emine & Hmine).
  assert (Hbody : triple (St l m) (add_station cfg None share)
            (fun i b => exists s, i = length l /\ station_good s /\ made true s.(persona).(p_call)
                                  /\ St (l ++ [s]) m b)).
  { cbn [add_station]. eapply triple_step; [apply (lift_triple _ _ _ (eq mine)); by rewrite Emine|]. intros ? <-.
    eapply triple_step; [apply chance_st|]. intros dx _.
    eapply triple_step; [apply (on_st_triple _ _ _ home_good); destruct dx; [by apply random_dx_gives|by apply random_local_gives]|].
    intros h Hg. by apply place_triple. }
  eapply triple_bind; [exact Hbody|]. intros i b (s & -> & Hs & Hm & Hb). by apply (Hk s).
Qed.

(** Rewriting a station's particulars keeps it good if its base is kept. *)
Lemma set_persona_triple l m i s p : l !! i = Some s ->
  persona_ok p -> station_ok p.(p_call).(as_str) -> base p.(p_call) = base s.(persona).(p_call) ->
  triple (St l m) (set_persona i p) (fun _ => St (<[i := mk_Station p s.(signal)]> l) m).
Proof.
  intros Hi Hp Hok Hb. eapply triple_step; [by apply station_at_triple|]. intros ? -> b (Hl & Hm & Hgood & Hme & Htx).
  unfold update. cbn [okay]. destruct Hgood as [Hg Hnd].
  assert (Hs : station_good s) by by eapply Forall_lookup_1.
  split; [cbn; by rewrite Hl|]. split; [done|]. split; [|split; [done|]].
  - split.
    + apply Forall_insert; [done|]. split; [done|]. split; [done|]. cbn. rewrite Hb. apply Hs.
    + change (NoDup ((fun s => base s.(persona).(p_call)) <$> <[i := mk_Station p s.(signal)]> l)).
      rewrite list_fmap_insert. cbn [persona]. rewrite Hb, list_insert_id; [done|]. by rewrite list_lookup_fmap, Hi.
  - eapply Forall_impl; [exact Htx|]. intros t (? & Ht & ?). split; [done|]. split; [|done].
    destruct (from t); [|done]. cbn in *. by rewrite length_insert.
Qed.

(** ** Rules of the form the builders have *)

Lemma triple_good {A} l m (c : M Builder A) R :
  (stations_good l -> me_ok m -> triple (St l m) c R) -> triple (St l m) c R.
Proof. intros H b Hb. pose proof Hb as (_ & _ & ? & ? & _). by apply H. Qed.

Lemma good_lookup l i s : stations_good l -> l !! i = Some s -> station_good s.
Proof. intros [Hl _] Hi. by eapply Forall_lookup_1. Qed.

Lemma persona_step {C} l m i s (k : Persona -> M Builder C) R : l !! i = Some s ->
  (persona_ok s.(persona) -> triple (St l m) (k s.(persona)) R) ->
  triple (St l m) (bind (persona_of i) k) R.
Proof.
  intros Hi Hk. apply triple_good. intros Hg _. eapply triple_step; [by apply persona_of_triple|].
  intros ? ->. apply Hk. by apply (good_lookup l i s).
Qed.
Lemma call_step {C} l m i s (k : text -> M Builder C) R : l !! i = Some s ->
  (forall c, encodes c -> triple (St l m) (k c) R) -> triple (St l m) (bind (call_of i) k) R.
Proof.
  intros Hi Hk. apply triple_good. intros Hg _. eapply triple_step; [by apply call_of_triple|].
  intros ? ->. apply Hk. destruct (good_lookup l i s Hg Hi) as [[Hc _] _]. by apply encodes_call.
Qed.
Lemma me_call_step {C} l m (k : text -> M Builder C) R :
  (forall c, call_text c -> encodes c -> triple (St l m) (k c) R) -> triple (St l m) (bind me_call k) R.
Proof using Hmy.
  intros Hk. eapply triple_step; [apply me_call_triple|]. intros ? ->.
  apply Hk; [apply my_call_text|apply encodes_call, my_call_text].
Qed.
Lemma me_step {C} l m (k : Persona -> M Builder C) R :
  (persona_ok m -> triple (St l m) (k m) R) -> triple (St l m) (bind (gets me) k) R.
Proof. intros Hk. eapply triple_step; [apply gets_me_triple|]. intros ? [-> [Hm _]]. by apply Hk. Qed.

Lemma greeting_triple l m : triple (St l m) greeting (fun g b => encodes g /\ St l m b).
Proof.
  unfold greeting. eapply triple_step; [apply range_text; unfold u32_max; lia|]. intros i Hi. cbn beta in Hi.
  apply lift_triple. set (ws := strs _).
  assert (Hl : length ws = 5%nat) by reflexivity.
  destruct (ws !! Z.to_nat i) as [g|] eqn:E; [|apply lookup_ge_None_1 in E; lia].
  cbn [okay]. apply encodes_plain. eapply (forallb_elem plain_text ws); [vm_compute; reflexivity|].
  by eapply list_elem_of_lookup_2.
Qed.
Lemma temp_triple l m p : triple (St l m) (temp p) (fun t b => encodes t /\ St l m b).
Proof.
  unfold temp. destruct (_ =? 2);
    (eapply triple_step; [apply range_text; unfold u32_max; lia|]; intros n _; apply ret_triple; enc).
Qed.

(** The script is built: some stations, their number as said. *)
Definition built (Q : nat -> Prop) (_ : ()) (b : Builder) : Prop :=
  exists l m, St l m b /\ Q (length l).
Lemma built_now l m (c : M Builder ()) (Q : nat -> Prop) :
  triple (St l m) c (fun _ => St l m) -> Q (length l) -> triple (St l m) c (built Q).
Proof. intros Hc HQ. eapply triple_conseq; [exact Hc|done|]. intros [] b Hb. by exists l, m. Qed.
End Scripts.

Ltac party := solve [done | cbn; rewrite ?length_app; cbn; lia].
Ltac step :=
  lazymatch goal with
  | |- triple _ (bind (say _ _) _) _ => eapply triple_unit; [apply say_triple; [party|enc]|]
  | |- triple _ (bind (if _ then _ else ret ()) _) _ => eapply triple_unit; [apply when_triple; repeat step|]
  | |- triple _ (bind (repeat _) _) _ => eapply triple_step; [apply repeat_triple|]; intros ? _
  | |- triple _ (bind (on_text (chance _)) _) _ => eapply triple_step; [apply chance_text|]; intros ? _
  | |- triple _ (bind (on_text (pick _)) _) _ =>
      eapply triple_step; [apply on_text_triple, pick_words; vm_compute; reflexivity|]; intros ? ?
  | |- triple _ (bind (on_text (range_u32 _ _)) _) _ =>
      eapply triple_step; [apply range_text; unfold u32_max; lia|]; intros ? ?
  | |- triple _ (bind greeting _) _ => eapply triple_step; [apply greeting_triple|]; intros ? ?
  | |- triple _ (bind (temp _) _) _ => eapply triple_step; [apply temp_triple|]; intros ? ?
  | |- triple _ (bind me_call _) _ => apply me_call_step; [assumption|]; intros ? ? ?
  | |- triple _ (bind (gets me) _) _ => apply me_step; intros ?
  | |- triple _ (bind (call_of _) _) _ => eapply call_step; [eassumption|]; intros ? ?
  | |- triple _ (bind (persona_of _) _) _ => eapply persona_step; [eassumption|]; intros ?
  | |- triple (St _ ?l ?m) (say _ _) (fun _ => St _ ?l ?m) => apply say_triple; [party|enc]
  | |- triple _ (say _ _) (built _ _) => apply built_now; [apply say_triple; [party|enc]|]
  end.
