(* ===== verification/QsoTheorems.v ===== *)
(** * QsoTheorems: the promises of the practice scripts

    Every builder keeps the invariant of [QsoFacts], so that whatever is drawn
    [generate] neither panics nor refuses settings it has checked, and what it
    returns can be keyed. *)

From Stdlib Require Import Floats.SpecFloat.
From S2P Require Import Prelude Text Morse Timing Floats Tables World Draws Callsign WorldFacts CallsignFacts.
From S2P Require Import Scenario Qso Encodes QsoFacts.

Section Builders.
Context {F : Fuel} (cfg : ScenarioConfig).
Context (Hvalid : validate cfg.(difficulty) = Ok ()).
Context (Hmy : exists s, parse s = Ok cfg.(my_call)).
Context (Hfists : Z.of_nat (length cfg.(difficulty).(d_fists)) <= u32_max).

Lemma maritime_triple l m i s : l !! i = Some s ->
  triple (St cfg l m) (maritime i) (fun _ b => exists s', St cfg (<[i := s']> l) m b).
Proof.
  intros Hi. unfold maritime. eapply triple_step; [apply chance_st|]. intros [] _.
  2:{ intros b Hb. exists s. by rewrite list_insert_id. }
  apply triple_good. intros Hg _. destruct (good_lookup cfg l i s Hg Hi) as (_ & [_ Hb] & _).
  eapply persona_step; [done|]. intros (Hc & Hn & Hq & Hr & Hrig & Ha & Href).
  destruct (suffixed_station (base_part (as_str (p_call (persona s)))) (txt "MM")) as [Hbase Hok];
    [done|by apply forallb_Forall|done|by vm_compute|by left|].
  eapply triple_step.
  { apply (lift_triple _ _ _ _ (eq (with_suffix (mk_Callsign (base_part (as_str (p_call (persona s))))) (txt "MM")))).
    unfold base. by rewrite parse_plain. }
  intros ? <-. eapply triple_conseq; [eapply set_persona_triple; [done| | |]|done|].
  - pose proof (proj1 (parse_inv _ _ (proj1 Hok))) as Hct.
    unfold persona_ok. cbn. repeat split; try assumption; enc.
  - exact Hok.
  - unfold base at 1. cbn. exact Hbase.
  - intros [] b Hst. by eexists.
Qed.

(** A step after which the stations are only known to exist. *)
Lemma some_step {C} l m (c : M Builder ()) (P : list Station -> Prop) (k : () -> M Builder C) R :
  triple (St cfg l m) c (fun _ b => exists l', P l' /\ St cfg l' m b) ->
  (forall l', P l' -> triple (St cfg l' m) (k ()) R) -> triple (St cfg l m) (bind c k) R.
Proof. intros Hc Hk. eapply triple_bind; [exact Hc|]. intros [] b (l' & HP & Hb). by apply (Hk l'). Qed.

Lemma maritime_step {C} s m (k : () -> M Builder C) R :
  (forall s', triple (St cfg [s'] m) (k ()) R) -> triple (St cfg [s] m) (bind (maritime 0) k) R.
Proof.
  intros Hk. eapply triple_bind; [by apply (maritime_triple [s] m 0 s)|].
  intros [] b [s' Hb]. by apply (Hk s').
Qed.

Lemma rag_chew_triple m : triple (St cfg [] m) (rag_chew cfg) (built cfg (eq 1%nat)).
Proof using Hvalid Hmy Hfists.
  unfold rag_chew. apply add_station_step; [done|done|done|]. intros s0 _ _. cbn [app length].
  apply maritime_step. intros s. set (l := [s]). assert (Hs : l !! 0%nat = Some s) by done.
  cbv zeta. repeat step. done.
Qed.

(** ** Contests *)

Lemma add_lookup l (s : Station) : (l ++ [s]) !! length l = Some s.
Proof. by apply list_lookup_middle. Qed.

Definition digits_text (t : text) : Prop := Forall (fun c => is_ascii_digit c = true) t.

Lemma their_exchange_triple l m x i s : l !! i = Some s ->
  triple (St cfg l m) (their_exchange x i) (fun t b => digits_text t /\ St cfg l m b).
Proof.
  intros Hi. destruct x; cbn [their_exchange].
  - eapply persona_step; [done|]. intros _. apply ret_triple, show_digits.
  - step. eapply triple_step with (Q := fun _ => True).
    { destruct (_ <? 100); [apply chance_text|by apply ret_triple]. }
    intros pad _. apply ret_triple. destruct pad; [apply show_pad_digits|apply show_digits].
Qed.

Lemma contest_contact_triple l m x cutn mc serial : call_text mc ->
  triple (St cfg l m) (contest_contact cfg x cutn mc serial)
    (fun _ b => exists s, St cfg (l ++ [s]) m b).
Proof using Hvalid Hmy Hfists.
  intros Hmc. assert (Hmce : encodes mc) by by apply encodes_call.
  assert (Hpart : encodes (take 2 mc)) by by apply encodes_call, Forall_take.
  unfold contest_contact. apply add_station_step; [done|done|done|]. intros s _ _.
  pose proof (add_lookup l s) as Hs. cbv zeta.
  do 6 step. eapply triple_step; [by eapply their_exchange_triple|]. intros tx Htx. step.
  set (my_x := match x with CqZone => _ | Serial => _ end).
  assert (Hmx : digits_text my_x) by (destruct x; apply show_digits).
  assert (Hboth : encodes tx /\ encodes my_x /\ encodes (cut tx) /\ encodes (cut my_x)).
  { split_and!; [by apply encodes_call, digits_call|by apply encodes_call, digits_call|by apply cut_encodes|by apply cut_encodes]. }
  destruct Hboth as (? & ? & ? & ?). clearbody my_x.
  assert (Hpair : exists tx' my', (if cutn then (cut tx, cut my_x) else (tx, my_x)) = (tx', my') /\ encodes tx' /\ encodes my')
    by (destruct cutn; eauto).
  destruct Hpair as (tx' & my' & -> & ? & ?). destruct x.
  all: repeat step; intros b Hb; by exists s.
Qed.

Lemma contest_loop_triple n x cutn mc : call_text mc -> forall l m serial,
  triple (St cfg l m) (contest_loop cfg n x cutn mc serial) (built cfg (eq (n + length l)%nat)).
Proof using Hvalid Hmy Hfists.
  intros Hmc. induction n as [|n IH]; intros l m serial; cbn [contest_loop].
  - intros b Hb. by exists l, m.
  - eapply triple_bind; [by apply contest_contact_triple|]. intros serial' b [s Hb].
    eapply okay_mono; [by apply (IH (l ++ [s]) m serial')|]. intros [[] b'] (l' & m' & Hst & Hlen).
    exists l', m'. split; [done|]. rewrite length_app in Hlen. cbn in Hlen. lia.
Qed.
Lemma contest_triple m x cutn :
  triple (St cfg [] m) (contest cfg x cutn) (built cfg (fun n => 3 <= n <= 5)%nat).
Proof using Hvalid Hmy Hfists.
  unfold contest. repeat step. cbn beta in *.
  eapply triple_conseq; [by apply contest_loop_triple|done|]. intros [] b (l & m' & Hb & Hlen).
  exists l, m'. split; [done|]. cbn in Hlen. lia.
Qed.

(** ** Parks and summits *)

Lemma pota_ref_gives iso : encodes iso -> gives (pota_ref iso) encodes.
Proof.
  intros Hiso. unfold pota_ref. apply gives_bind with (P := fun _ => True).
  { destruct (text_eqb _ _); [apply chance_gives|by apply gives_ret]. }
  intros big _. apply gives_bind with (P := fun _ => True).
  { destruct big; (eapply gives_mono; [apply range_u32_gives; unfold u32_max; lia|done]). }
  intros n _. apply gives_ret. enc.
Qed.

Lemma sota_ref_gives : gives sota_ref (fun '(r, _) => encodes r).
Proof.
  unfold sota_ref.
  apply gives_bind with (P := fun '(assoc, regions) => plain_text assoc && short regions && forallb plain_text regions = true).
  { eapply pick_table; [reflexivity|]. intros [a rs] Hin.
    eapply (forallb_elem (fun '(a, rs) => plain_text a && short rs && forallb plain_text rs)) in Hin; [exact Hin|].
    vm_compute. reflexivity. }
  intros [a rs] Hok. split_andb. eapply gives_bind; [apply pick_words; by apply andb_true_iff|]. intros r Hr.
  eapply gives_bind; [apply range_u32_gives; unfold u32_max; lia|]. intros n _. apply gives_ret.
  assert (encodes a) by by apply encodes_plain. enc.
Qed.

Lemma us_area_good d : 0 <= d <= 9 -> exists h, us_area d = Done h /\ home_good h.
Proof.
  intros Hd.
  pose proof (check_range 0 9 (fun d => match us_area d with
    | Done h => match h.(h_region) with Some _ => true | None => false end | _ => false end) d
    ltac:(vm_compute; reflexivity) Hd) as H. cbn beta in H.
  destruct (us_area d) as [h| | |] eqn:E; try done. exists h. split; [done|].
  unfold us_area in E. destruct by_dxcc_usa as (e & He & Hin & _). rewrite He in E. cbn [outcome_bind] in E.
  destruct (entity_region_ok e (txt "W") d Hin) as (o & Ho & Hr). rewrite Ho in E. cbn [outcome_bind] in E.
  injection E as <-. split; [by split|]. cbn in *. by destruct o.
Qed.
Lemma whole_good n :
  match whole n with Done h => negb (match h.(h_entity).(e_towns) with [] => true | _ => false end) | _ => false end = true ->
  exists h, whole n = Done h /\ home_good h.
Proof.
  unfold whole. destruct (by_dxcc n) as [e| | |] eqn:E; try done. cbn [outcome_bind]. intros Ht.
  apply by_dxcc_spec in E as [He _]. eexists. split; [done|]. split; [by split|]. cbn in *.
  intros _ Hn. by rewrite Hn in Ht.
Qed.
Lemma sota_home_gives assoc : gives (sota_home assoc) home_good.
Proof.
  assert (Hu : forall d, 0 <= d <= 9 -> gives (S:=Rng) (lift (us_area d)) home_good).
  { intros d (h & E & Hh)%us_area_good. by eapply gives_lift_done. }
  assert (Hw : forall n, match whole n with
      | Done h => negb (match h.(h_entity).(e_towns) with [] => true | _ => false end) | _ => false end = true ->
      gives (S:=Rng) (lift (whole n)) home_good).
  { intros n (h & E & Hh)%whole_good. by eapply gives_lift_done. }
  unfold sota_home. cbv zeta.
  repeat (match goal with |- gives (if ?b then _ else _) _ => destruct b end;
          [first [apply Hu; lia | apply Hw; vm_compute; reflexivity]|]).
  eapply gives_bind; [apply range_u32_gives; unfold u32_max; lia|]. intros d Hd. by apply Hu.
Qed.

(** Rewriting the only station without touching its call. *)
Lemma set_only s m p : persona_ok p -> p.(p_call) = s.(persona).(p_call) ->
  triple (St cfg [s] m) (set_persona 0 p)
    (fun _ b => exists s', s'.(persona).(p_call) = s.(persona).(p_call) /\ St cfg [s'] m b).
Proof.
  intros Hp Hc. apply triple_good. intros Hg _.
  destruct (good_lookup cfg [s] 0 s Hg eq_refl) as (_ & Hok & _).
  eapply triple_conseq; [apply (set_persona_triple cfg [s] m 0 s p)|done|]; [done|done|by rewrite Hc|by rewrite Hc|].
  intros [] b Hb. by exists (mk_Station p s.(signal)).
Qed.

Lemma only_step {C} s m (c : M Builder ()) (k : () -> M Builder C) R :
  triple (St cfg [s] m) c (fun _ b => exists s', s'.(persona).(p_call) = s.(persona).(p_call) /\ St cfg [s'] m b) ->
  (forall s', s'.(persona).(p_call) = s.(persona).(p_call) -> triple (St cfg [s'] m) (k ()) R) ->
  triple (St cfg [s] m) (bind c k) R.
Proof. intros Hc Hk. eapply triple_bind; [exact Hc|]. intros [] b (s' & Hs & Hb). by apply (Hk s'). Qed.

Lemma activate_triple s m r : encodes r ->
  triple (St cfg [s] m) (activate 0 r)
    (fun _ b => exists s', s'.(persona).(p_call) = s.(persona).(p_call) /\ St cfg [s'] m b).
Proof.
  intros Hr. unfold activate. eapply (persona_step cfg [s] m 0 s); [done|]. intros Hp.
  eapply triple_step with (Q := fun _ : Z => True).
  { apply on_st_triple. by apply pick_table. }
  intros w _. eapply triple_step; [apply on_st_triple, pick_words; vm_compute; reflexivity|]. intros a Ha.
  apply set_only; [|done]. destruct Hp as (? & ? & ? & ? & ? & ? & _). unfold persona_ok. cbn.
  repeat split; try assumption. by intros x [= <-].
Qed.

Lemma set_my_reference_triple l m r : encodes r ->
  triple (St cfg l m) (set_my_reference r) (fun _ b => exists m', St cfg l m' b).
Proof.
  intros Hr b (Hl & Hm & Hg & [Hp Hc] & Htx). unfold set_my_reference, update. cbn [okay].
  eexists. split; [done|]. split; [reflexivity|]. split; [done|]. split; [|done].
  rewrite Hm. split; [|done]. destruct Hp as (? & ? & ? & ? & ? & ? & _). unfold persona_ok. cbn.
  repeat split; try assumption. by intros x [= <-].
Qed.
Lemma my_step {C} l m (c : M Builder ()) (k : () -> M Builder C) R :
  triple (St cfg l m) c (fun _ b => exists m', St cfg l m' b) ->
  (forall m', triple (St cfg l m') (k ()) R) -> triple (St cfg l m) (bind c k) R.
Proof. intros Hc Hk. eapply triple_bind; [exact Hc|]. intros [] b [m' Hb]. by apply (Hk m'). Qed.

Lemma my_reference_encodes m : persona_ok m -> forall f, (forall r, encodes r -> encodes (f r)) ->
  encodes (match m.(p_reference) with Some r => f r | None => [] end).
Proof.
  intros (_ & _ & _ & _ & _ & _ & Hr) f Hf. destruct (p_reference m); [by apply Hf, Hr|constructor].
Qed.

Lemma park_home_triple l m :
  triple (St cfg l m) park_home (fun a b => (home_good a.1 /\ encodes a.2) /\ St cfg l m b).
Proof.
  unfold park_home. eapply triple_step; [apply chance_st|]. intros [] _.
  - eapply triple_step; [apply on_st_triple, random_us_gives|]. intros h [Hh _].
    apply (ret_triple cfg l m (h, txt "US") (fun a => home_good a.1 /\ encodes a.2)). split; [done|cbn [snd]; enc].
  - set (parks := List.filter _ WORLD).
    assert (Hp : short parks = true) by (vm_compute; reflexivity). apply short_spec in Hp as [Hne Hlen].
    eapply triple_step; [apply on_st_triple; by apply pick_gives|]. intros e He.
    apply list_elem_of_In, filter_In in He as [He Hf]. apply list_elem_of_In in He.
    eapply triple_step; [by apply on_st_triple, random_in_gives|]. intros h [Hh _].
    apply (lift_triple cfg l m _ (fun a => home_good a.1 /\ encodes a.2)).
    destruct (row_texts e He) as (_ & _ & Hiso & _). destruct (e_iso e) as [iso|]; [|done].
    cbn [okay]. split; [done|by apply encodes_plain].
Qed.

Lemma home_of_iso c : exists mine, home_of c = Done mine
  /\ encodes (match mine with Some h => default (txt "US") h.(h_entity).(e_iso) | None => txt "US" end).
Proof.
  destruct (home_of_ok c) as (mine & E & Hm). exists mine. split; [done|]. destruct mine as [h|]; [|enc].
  destruct (Hm h eq_refl) as [He _]. destruct (row_texts _ He) as (_ & _ & Hiso & _).
  destruct (e_iso (h_entity h)); [by apply encodes_plain|cbn; enc].
Qed.

Lemma pota_triple m p2p me_rng : triple (St cfg [] m) (pota cfg p2p me_rng) (built cfg (eq 1%nat)).
Proof using Hvalid Hmy Hfists.
  unfold pota. eapply triple_step; [apply park_home_triple|]. intros [home iso] [Hh Hiso].
  apply add_station_step; [done|done|by intros h [= <-]|]. intros s0 _ _. cbn [app length].
  eapply triple_step; [by apply on_st_triple, pota_ref_gives|]. intros park Hpark.
  apply (only_step s0); [by apply activate_triple|]. intros s _.
  apply my_step.
  { destruct p2p; [|intros b Hb; by exists m]. apply me_step. intros _.
    destruct (home_of_iso (p_call m)) as (mine & E & Henc).
    eapply triple_step; [apply (lift_triple _ _ _ _ (eq mine)); by rewrite E|]. intros ? <-. cbv zeta.
    eapply triple_step with (Q := fun a => encodes a.1).
    { apply lift_triple. eapply okay_mono; [apply pota_ref_gives, Henc|]. by intros [r ?]. }
    intros [r ?] Hr. by apply set_my_reference_triple. }
  intros m'. assert (Hs : [s] !! 0%nat = Some s) by done. cbv zeta.
  do 11 step.
  pose proof (my_reference_encodes m' ltac:(assumption) (fun r => fmt " P2P {} {}" [r; r]) ltac:(intros; cbn beta; enc)) as Href.
  repeat step. done.
Qed.

Lemma triple_ex {S A X} (P : X -> S -> Prop) (c : M S A) R :
  (forall x, triple (P x) c R) -> triple (fun s => exists x, P x s) c R.
Proof. intros Hc s [x Hx]. by apply (Hc x). Qed.

Lemma maybe_portable_triple s m : made false s.(persona).(p_call) ->
  triple (St cfg [s] m) (maybe_portable 0) (fun _ b => exists s', St cfg [s'] m b).
Proof.
  intros (e & He & Hc). unfold maybe_portable. eapply triple_step; [apply chance_st|]. intros [] _.
  2:{ intros b Hb. by exists s. }
  eapply (persona_step cfg [s] m 0 s); [done|]. intros (_ & Hrest).
  destruct (portable_station e _ He Hc) as [Hbase Hok].
  eapply triple_conseq; [apply (set_persona_triple cfg [s] m 0 s)|done|]; [done| |exact Hok|exact Hbase|].
  - split; [|exact Hrest]. exact (proj1 (parse_inv _ _ (proj1 Hok))).
  - intros [] b Hb. by eexists.
Qed.

Lemma in_state_triple s m home assoc : home_ok home ->
  triple (St cfg [s] m) (in_state 0 home assoc)
    (fun _ b => exists s', s'.(persona).(p_call) = s.(persona).(p_call) /\ St cfg [s'] m b).
Proof.
  intros [He Hr]. assert (Hno : triple (St cfg [s] m) (ret ())
    (fun _ b => exists s', s'.(persona).(p_call) = s.(persona).(p_call) /\ St cfg [s'] m b)).
  { intros b Hb. by exists s. }
  unfold in_state. destruct (h_region home) as [area|]; [|done].
  destruct (sota_state assoc) as [state|] eqn:Es; [|done].
  destruct (List.find _ _) as [[code towns]|] eqn:Ef; [|done].
  apply List.find_some in Ef as [Hin Heq%text_eqb_eq]. cbn in Heq. subst code.
  pose proof (row_region _ He area (Hr area eq_refl)) as Hok. unfold region_ok in Hok. split_andb.
  apply list_elem_of_In in Hin. eapply (forallb_elem (fun s => _ && _)) in Hin; [|eassumption].
  cbn [fst snd] in Hin. split_andb.
  eapply triple_step; [apply on_st_triple, pick_words; by apply andb_true_iff|]. intros town Ht.
  eapply (persona_step cfg [s] m 0 s); [done|]. intros Hp. apply set_only; [|done].
  destruct Hp as (? & ? & _ & _ & ? & ? & ?). unfold persona_ok. cbn.
  repeat split; try assumption. by apply encodes_plain.
Qed.

Lemma sota_triple m s2s me_rng : triple (St cfg [] m) (sota cfg s2s me_rng) (built cfg (eq 1%nat)).
Proof using Hvalid Hmy Hfists.
  unfold sota. eapply triple_step; [apply on_st_triple, sota_ref_gives|]. intros [summit assoc] Hsum.
  eapply triple_step; [apply on_st_triple, sota_home_gives|]. intros home Hh.
  apply add_station_step; [done|done|by intros h [= <-]|]. intros s0 _ Hmade. cbn [app length].
  apply (only_step s0); [apply in_state_triple, Hh|]. intros s1 Hs1.
  eapply triple_bind; [apply maybe_portable_triple; by rewrite Hs1|].
  intros []. cbn beta. apply triple_ex. intros s2.
  apply (only_step s2); [by apply activate_triple|]. intros s _.
  apply my_step.
  { destruct s2s; [|intros b Hb; by exists m].
    eapply triple_step with (Q := fun a => encodes a.1.1).
    { apply lift_triple. eapply okay_mono; [apply sota_ref_gives|]. by intros [[r ?] ?]. }
    intros [[r ?] ?] Hr. by apply set_my_reference_triple. }
  intros m'. assert (Hs : [s] !! 0%nat = Some s) by done. cbv zeta.
  do 11 step.
  pose proof (my_reference_encodes m' ltac:(assumption) (fun r => fmt " S2S {} {}" [r; r]) ltac:(intros; cbn beta; enc)) as Href.
  step. eapply triple_step with (Q := fun _ => True).
  { match goal with |- triple _ (match ?x with [] => _ | _ => _ end) _ => destruct x end;
      [by apply ret_triple|apply repeat_triple]. }
  intros again _. repeat step. done.
Qed.

(** ** Pileups *)

Lemma digit_position_spec t : forall i,
  existsb is_ascii_digit t = true -> exists d, digit_position i t = Some (i + d)%nat /\ (d < length t)%nat.
Proof.
  induction t as [|c t IH]; intros i Ht; [done|]. cbn [digit_position]. destruct (is_ascii_digit c) eqn:E.
  - exists 0%nat. rewrite Nat.add_0_r. split; [done|cbn; lia].
  - cbn in Ht. rewrite E in Ht. destruct (IH (S i) Ht) as (d & -> & Hd). exists (S d). split; [f_equal; lia|cbn; lia].
Qed.
Lemma partial_triple l m t : call_text t -> existsb is_ascii_digit t = true ->
  triple (St cfg l m) (partial t) (fun p b => encodes p /\ St cfg l m b).
Proof.
  intros Ht Hd. unfold partial. step. destruct a.
  - destruct (digit_position_spec t 0 Hd) as (d & -> & Hlt).
    change (default 1%nat (Some (0 + d)%nat)) with d. cbv zeta.
    replace (d <? length t)%nat with true by (symmetry; by apply Nat.ltb_lt).
    apply ret_triple. assert (encodes (take (S d) t)) by by apply encodes_call, Forall_take. enc.
  - apply ret_triple. assert (encodes (drop (length t - 3) t)) by by apply encodes_call, Forall_drop. enc.
Qed.

Definition waiting_ok (l : list Station) (w : list nat) : Prop := Forall (fun i => i < length l)%nat w.

Lemma waiting_lookup l w i : waiting_ok l w -> i ∈ w -> exists s, l !! i = Some s.
Proof.
  intros Hw Hi. apply (proj1 (Forall_forall _ _) Hw) in Hi. apply lookup_lt_is_Some_2 in Hi as [s Hs]. eauto.
Qed.

Lemma all_call_loop_triple l m w : waiting_ok l w -> forall first,
  triple (St cfg l m) (all_call_loop first w) (fun _ => St cfg l m).
Proof.
  induction 1 as [|i w Hi Hw IH]; intros first; cbn [all_call_loop]; [by intros b Hb|].
  destruct (lookup_lt_is_Some_2 l i Hi) as [s Hs].
  step. step. eapply triple_step with (Q := start_ok).
  { destruct first; [apply gap_triple|].
    eapply triple_step; [apply on_timing_triple, range_u32_gives; unfold u32_max; lia|]. intros ms Hms.
    cbn beta in Hms. apply ret_triple. unfold start_ok, from_millis. lia. }
  intros st Hst. eapply triple_unit; [apply push_triple; [exact Hi|enc|done]|]. apply IH.
Qed.
Lemma all_call_triple l m w you : waiting_ok l w -> (forall t, you = Some t -> encodes t) ->
  triple (St cfg l m) (all_call w you) (fun _ => St cfg l m).
Proof.
  intros Hw Hy. eapply triple_unit; [by apply all_call_loop_triple|].
  destruct you as [t|]; [|by intros b Hb]. specialize (Hy t eq_refl). step.
Qed.

Lemma take_one_triple l m w : waiting_ok l w -> w <> [] -> Z.of_nat (length w) <= u32_max ->
  triple (St cfg l m) (take_one w)
    (fun a b => ((exists s, l !! a.1 = Some s) /\ waiting_ok l a.2 /\ (length w = S (length a.2))%nat) /\ St cfg l m b).
Proof.
  intros Hw Hne Hlen. assert (0 < Z.of_nat (length w)) by (destruct w; [done|cbn; lia]). unfold take_one.
  eapply triple_step; [apply range_text; lia|]. intros k Hk. cbn beta in Hk.
  destruct (lookup_lt_is_Some_2 w (Z.to_nat k)) as [i Hi]; [lia|]. rewrite Hi.
  apply (lift_triple cfg l m _ (fun a => (exists s, l !! a.1 = Some s) /\ waiting_ok l a.2 /\ (length w = S (length a.2))%nat)).
  cbn [okay fst snd]. split; [by eapply waiting_lookup; [|eapply list_elem_of_lookup_2]|].
  split; [by apply Forall_delete|]. rewrite length_delete by done. lia.
Qed.

Lemma waiting_more l l' w : waiting_ok l w -> (length l <= length l')%nat -> waiting_ok l' w.
Proof. intros Hw Hl. eapply Forall_impl; [exact Hw|]. cbn. lia. Qed.

Lemma place_callers_triple n mine not : homes_ok mine -> (length not < 340)%nat -> forall l m,
  triple (St cfg l m) (place_callers cfg n mine not)
    (fun w b => exists l', (waiting_ok (l ++ l') w /\ length w = n /\ length l' = n) /\ St cfg (l ++ l') m b).
Proof using Hvalid Hmy Hfists.
  intros Hm Hn. induction n as [|n IH]; intros l m; cbn [place_callers].
  - intros b Hb. exists []. rewrite app_nil_r. split; [|done]. split_and!; [by apply Forall_nil|done|done].
  - eapply triple_step; [by apply on_st_triple, random_caller_gives|]. intros h [Hh _].
    apply place_step; [done|done|done|]. intros s _ _.
    eapply triple_bind; [apply IH|]. intros w b (l' & (Hw & Hlw & Hll) & Hb). exists (s :: l').
    rewrite <- app_assoc in Hb, Hw. split; [|done]. cbn [length]. split_and!; [|lia|lia].
    constructor; [rewrite length_app; cbn; lia|done].
Qed.

Lemma base_text c : station_ok c.(as_str) -> call_text (base c) /\ existsb is_ascii_digit (base c) = true.
Proof. intros [_ (Ha & Hd & _)%plain_call_spec]. split; [by apply alnum_call|done]. Qed.
Lemma my_base_text : call_text (base cfg.(my_call)) /\ existsb is_ascii_digit (base cfg.(my_call)) = true.
Proof using Hmy.
  destruct Hmy as [s Hs]. apply parse_inv in Hs as (Ha & _ & _ & _ & _ & Hd & _). split; [|done].
  by apply base_part_chars.
Qed.

Lemma pileup_round_triple l m mc zone w : encodes mc -> encodes zone ->
  waiting_ok l w -> w <> [] -> Z.of_nat (length w) <= u32_max ->
  triple (St cfg l m) (pileup_round cfg mc zone w)
    (fun w' b => (waiting_ok l w' /\ length w = S (length w')) /\ St cfg l m b).
Proof.
  intros Hmc Hzone Hw Hne Hlen. unfold pileup_round.
  eapply triple_unit; [by apply all_call_triple|].
  eapply triple_step; [by apply take_one_triple|]. intros [i w'] ([s Hs] & Hw' & Hl). cbn [fst snd] in *.
  assert (Hi : (i < length l)%nat) by by eapply lookup_lt_Some.
  apply triple_good. intros Hg _. destruct (good_lookup cfg l i s Hg Hs) as (_ & Hok & _).
  destruct (base_text _ Hok) as [Hbt Hbd]. cbv zeta. step.
  eapply triple_step with (Q := fun _ : bool => True); [step; by apply ret_triple|]. intros part _.
  eapply triple_unit.
  { apply when_triple. step. eapply triple_step; [by apply partial_triple|]. intros pt Hpt. repeat step. }
  do 6 step.
  eapply triple_unit; [apply say_triple; [done|destruct w'; enc]|]. by apply ret_triple.
Qed.
Lemma pileup_loop_triple l mc zone : encodes mc -> encodes zone -> forall n m w,
  waiting_ok l w -> length w = n -> Z.of_nat n <= u32_max ->
  triple (St cfg l m) (pileup_loop cfg n mc zone w) (fun _ => St cfg l m).
Proof.
  intros Hmc Hz n. induction n as [|n IH]; intros m [|i w] Hw Hl Hn; try done; cbn [pileup_loop];
    try by intros b Hb.
  eapply triple_step; [apply pileup_round_triple; [done|done|done|done|by rewrite Hl]|]. intros w' [Hw' Hlen].
  apply IH; [done|lia|lia].
Qed.
Lemma pileup_triple m callers : 1 <= callers <= 12 ->
  triple (St cfg [] m) (pileup cfg callers) (built cfg (eq (Z.to_nat callers))).
Proof using Hvalid Hmy Hfists.
  intros Hc. unfold pileup. do 2 step. cbv zeta.
  destruct (home_of_ok (my_call cfg)) as (mine & E & Hm).
  eapply triple_step; [apply (lift_triple _ _ _ _ (eq mine)); by rewrite E|]. intros ? <-.
  eapply triple_bind; [apply place_callers_triple; [done|cbn; lia]|]. intros w. cbn beta.
  apply triple_ex. intros l. cbn [app]. apply triple_pure. intros (Hw & Hlw & Hll). step.
  apply built_now; [|done]. apply pileup_loop_triple; [done|apply show_encodes|done|done|unfold u32_max; lia].
Qed.

Lemma worked_at_last_triple l m i dc mc : (i < length l)%nat -> encodes dc -> encodes mc ->
  triple (St cfg l m) (worked_at_last cfg (Them i) dc mc) (fun _ => St cfg l m).
Proof using Hmy.
  intros Hi Hdc Hmc. destruct my_base_text as [Hbt Hbd]. unfold worked_at_last. step.
  eapply triple_unit.
  { apply when_triple. eapply triple_step; [by apply partial_triple|]. intros pt Hpt. repeat step. }
  repeat step.
Qed.
Lemma work_another_triple l m i w : (i < length l)%nat ->
  waiting_ok l w -> w <> [] -> Z.of_nat (length w) <= u32_max ->
  triple (St cfg l m) (work_another (Them i) w)
    (fun w' b => (waiting_ok l w' /\ length w = S (length w')) /\ St cfg l m b).
Proof.
  intros Hi Hw Hne Hlen. unfold work_another.
  eapply triple_step; [by apply take_one_triple|]. intros [j w'] ([s Hs] & Hw' & Hl). cbn [fst snd] in *.
  assert (Hj : (j < length l)%nat) by by eapply lookup_lt_Some.
  do 6 step. by apply ret_triple.
Qed.
Lemma chase_loop_triple l i dc mc : (i < length l)%nat -> encodes dc -> encodes mc ->
  forall n m before worked w, waiting_ok l w -> length w = n -> Z.of_nat n <= u32_max ->
  triple (St cfg l m) (chase_loop cfg n (Them i) dc mc before worked w) (fun _ => St cfg l m).
Proof using Hmy.
  intros Hi Hdc Hmc n. induction n as [|n IH]; intros m before worked w Hw Hl Hn; cbn [chase_loop];
    (eapply triple_unit; [apply all_call_triple; [done|by intros t [= <-]]|]).
  - destruct w; [|done]. rewrite orb_true_r. by apply worked_at_last_triple.
  - destruct (_ || _); [by apply worked_at_last_triple|].
    eapply triple_step; [apply work_another_triple; [done|done|by destruct w|by rewrite Hl]|]. intros w' [Hw' Hlen].
    apply IH; [done|lia|lia].
Qed.
Lemma set_avoid_triple l m a : triple (St cfg l m) (update (fun b => set_avoid b a)) (fun _ => St cfg l m).
Proof. by intros b Hb. Qed.
Lemma chase_triple m callers : 1 <= callers <= 12 ->
  triple (St cfg [] m) (chase cfg callers) (built cfg (eq (S (Z.to_nat callers)))).
Proof using Hvalid Hmy Hfists.
  intros Hc. unfold chase. step. destruct (home_of_ok (my_call cfg)) as (mine & E & Hm).
  eapply triple_step; [apply (lift_triple _ _ _ _ (eq mine)); by rewrite E|]. intros ? <-.
  eapply triple_step; [apply on_st_triple, random_rare_gives|]. intros dx [Hdx _].
  apply place_step; [done|done|done|]. intros s _ _. cbn [app length].
  eapply triple_unit; [apply set_avoid_triple|].
  eapply triple_bind; [apply place_callers_triple; [done|cbn; lia]|]. intros w. cbn beta.
  apply triple_ex. intros l. cbn [app]. apply triple_pure. intros (Hw & Hlw & Hll). cbv zeta.
  assert (Hs : (s :: l) !! 0%nat = Some s) by done.
  do 4 step. eapply triple_step; [apply range_text; unfold u32_max; lia|]. intros before _.
  apply built_now; [|cbn; by rewrite Hll].
  apply chase_loop_triple; [cbn; lia|done|done|done|done|unfold u32_max; lia].
Qed.

(** ** Scripts *)

(** How many stations a kind of script has. *)
Definition stations_expected (k : ScenarioKind) (n : nat) : Prop :=
  match k with
  | RagChew | Pota _ | Sota _ => n = 1%nat
  | Contest _ _ => (3 <= n <= 5)%nat
  | DxPileup callers => n = Z.to_nat callers
  | DxChase callers => n = S (Z.to_nat callers)
  end.
Definition callers_ok (k : ScenarioKind) : Prop :=
  match k with DxPileup callers | DxChase callers => 1 <= callers <= 12 | _ => True end.

Lemma build_kind_triple me_rng m : callers_ok cfg.(kind) ->
  triple (St cfg [] m) (build_kind cfg me_rng) (built cfg (stations_expected cfg.(kind))).
Proof using Hvalid Hmy Hfists.
  intros Hc. unfold build_kind.
  assert (Hone : forall c n, triple (St cfg [] m) c (built cfg (eq n)) ->
            triple (St cfg [] m) c (built cfg (fun x => x = n))).
  { intros c n Ht. eapply triple_conseq; [exact Ht|done|]. intros [] b (l & m' & Hb & Hn). by exists l, m'. }
  destruct (kind cfg); cbn [stations_expected callers_ok] in *.
  - apply Hone, rag_chew_triple.
  - apply contest_triple.
  - apply Hone, pota_triple.
  - apply Hone, sota_triple.
  - by apply Hone, pileup_triple.
  - by apply Hone, chase_triple.
Qed.

(** A script that can be keyed: every transmission is sendable, starts in time
    and, if a station sends it, has that station's signal; the stations have
    calls that read back, with bases of their own. *)
Definition keyable (script : Script) : Prop :=
  Forall (fun t => (exists ts, tokenize t.(tx_text) = Ok ts) /\ start_ok t.(start)
                   /\ (t.(from) <> You -> is_Some (signal_for script t))) script.(s_transmissions)
  /\ Forall (fun s => parse s.(persona).(p_call).(as_str) = Ok s.(persona).(p_call)) script.(s_stations)
  /\ NoDup (base cfg.(my_call) :: map (fun s => base s.(persona).(p_call)) script.(s_stations))
  /\ script.(s_me).(p_call) = cfg.(my_call)
  /\ stations_expected cfg.(kind) (length script.(s_stations)).

Lemma check_encodes_ok l : Forall (fun t => encodes t.(tx_text)) l -> check_encodes l = Ok ().
Proof.
  induction 1 as [|t l Ht Hl IH]; [done|]. cbn [check_encodes].
  destruct (encodes_tokenizes _ Ht) as [ts ->]. exact IH.
Qed.

Lemma built_keyable b k : (exists l m, St cfg l m b /\ stations_expected cfg.(kind) (length l)) ->
  k = cfg.(kind) -> keyable (mk_Script k b.(me) b.(stations) b.(tx)) /\ check_encodes b.(tx) = Ok ().
Proof.
  intros (l & m & (Hl & Hm & [Hg Hnd] & [_ Hcall] & Htx) & Hn) ->. split.
  - unfold keyable. cbn [s_transmissions s_stations s_me]. rewrite Hl, Hm. split_and!.
    + eapply Forall_impl; [exact Htx|]. intros t (He & Hp & Hs). split; [by apply encodes_tokenizes|].
      split; [done|]. unfold signal_for. cbn [s_stations]. intros Hf.
      destruct (from t) as [i|]; [|done]. cbn in Hp. apply lookup_lt_is_Some_2 in Hp as [s ->]. by eexists.
    + eapply Forall_impl; [exact Hg|]. intros s (_ & [Hp _] & _). rewrite Hp. by destruct (p_call (persona s)).
    + constructor; [|done]. intros Hin. apply list_elem_of_fmap in Hin as (s & Hb & Hs).
      apply (proj1 (Forall_forall _ _) Hg) in Hs as (_ & _ & Hne). congruence.
    + done.
    + done.
  - apply check_encodes_ok. eapply Forall_impl; [exact Htx|]. by intros t [? _].
Qed.

Lemma build_okay rng mine : callers_ok cfg.(kind) ->
  home_of cfg.(my_call) = Done mine -> speaks mine ->
  okay (build cfg rng) (fun s => keyable s /\ check_encodes s.(s_transmissions) = Ok ()).
Proof using Hvalid Hmy Hfists.
  intros Hc Hmine Hsp. unfold build. eapply okay_bind.
  { unfold my_persona. rewrite Hmine.
    apply (gives_bind (lift (Done mine)) _ (eq mine) (fun p => persona_ok p /\ p.(p_call) = cfg.(my_call)));
      [by apply gives_lift|]. intros ? <-.
    apply make_persona_gives; [by apply my_call_text| |done].
    destruct (home_of_ok (my_call cfg)) as (o & Ho & Hok). rewrite Hmine in Ho. injection Ho as <-. done. }
  intros [p me_rng] [Hp Hcall]. eapply okay_bind.
  { apply (build_kind_triple me_rng p Hc). split; [done|]. split; [done|]. split; [|split; [done|by apply Forall_nil]].
    split; [by apply Forall_nil|apply NoDup_nil_2]. }
  intros [[] b] Hb. by apply built_keyable.
Qed.

Lemma generate_okay mine : callers_ok cfg.(kind) ->
  home_of cfg.(my_call) = Done mine -> speaks mine -> okay (generate cfg) keyable.
Proof using Hvalid Hmy Hfists.
  intros Hc Hmine Hsp. unfold generate. rewrite Hvalid.
  replace (match kind cfg with
           | DxPileup callers | DxChase callers => negb ((1 <=? callers) && (callers <=? 12))
           | _ => false end) with false by (destruct (kind cfg); cbn in Hc; try done; lia).
  eapply okay_bind; [by eapply build_okay|]. intros script [Hk He]. by rewrite He.
Qed.
End Builders.

(** Whatever is drawn, settings that pass their checks, with a call that has a
    town to say, are neither refused nor do they make the builder panic, and a
    script that comes of them can be keyed.  That one comes is a matter of
    chance, of the draws that are thrown away: nothing is said of a bound that
    cuts them off. *)
Theorem generate_keyable {F : Fuel} cfg s0 mine :
  validate cfg.(difficulty) = Ok () -> callers_ok cfg.(kind) ->
  Z.of_nat (length cfg.(difficulty).(d_fists)) <= u32_max ->
  parse s0 = Ok cfg.(my_call) -> home_of cfg.(my_call) = Done mine -> speaks mine ->
  okay (generate cfg) (keyable cfg).
Proof. intros Hv Hc Hf Hp Hm Hs. eapply generate_okay; eauto. Qed.

(** The operator's call names an entity, no call area of it, and the entity has
    no town: [generate] panics, whatever the other settings. *)
Theorem generate_panics_without_town {F : Fuel} cfg h :
  validate cfg.(difficulty) = Ok () -> callers_ok cfg.(kind) ->
  home_of cfg.(my_call) = Done (Some h) -> h.(h_region) = None -> h.(h_entity).(e_towns) = [] ->
  generate cfg = Panic.
Proof.
  intros Hv Hc Hh Hr Ht. unfold generate. rewrite Hv.
  replace (match kind cfg with
           | DxPileup callers | DxChase callers => negb ((1 <=? callers) && (callers <=? 12))
           | _ => false end) with false by (destruct (kind cfg); cbn in Hc; try done; lia).
  unfold build, my_persona. rewrite Hh.
  assert (Hm : forall r, make_persona (my_call cfg) (Some h) false r = Panic)
    by (intros r; unfold make_persona; by rewrite Hr, Ht).
  unfold bind at 1, lift at 1. cbn [outcome_bind]. by rewrite Hm.
Qed.

(** ** Runs *)

Definition call (s : string) : Callsign := mk_Callsign (txt s).
Definition example_config (k : ScenarioKind) (c : string) : ScenarioConfig :=
  mk_ScenarioConfig k (call c) intermediate 1.
#[local] Instance example_fuel : Fuel := 64%nat.

Lemma generate_keyable_witness :
  exists script, generate (F := example_fuel) (example_config (DxChase 3) "KF0UWV") = Done script
    /\ keyable (example_config (DxChase 3) "KF0UWV") script.
Proof.
  pose (cfg := example_config (DxChase 3) "KF0UWV").
  assert (H : okay (generate (F := example_fuel) cfg) (keyable cfg)).
  { eapply (generate_keyable (F := example_fuel) cfg (txt "KF0UWV")).
    - vm_compute. reflexivity.
    - cbn. lia.
    - by vm_compute.
    - vm_compute. reflexivity.
    - vm_compute. reflexivity.
    - intros h [= <-]. done. }
  assert (Hd : exists script, generate (F := example_fuel) cfg = Done script)
    by (eexists; vm_compute; reflexivity).
  destruct Hd as [script Hs]. exists script. rewrite Hs in H. exact (conj Hs H).
Defined.

Lemma generate_panics_without_town_witness :
  parse (txt "w/dl1abc") = Ok (call "W/DL1ABC")
  /\ generate (F := example_fuel) (example_config RagChew "W/DL1ABC") = Panic.
Proof.
  split; [vm_compute; reflexivity|].
  pose (h := match home_of (call "W/DL1ABC") with Done (Some h) => h | _ => mk_Home (ent 0 "" Continent.An 0 0 [] [] [] None None Activity.Rare Names.Us []) None end).
  apply (generate_panics_without_town (F := example_fuel) (example_config RagChew "W/DL1ABC") h);
    vm_compute; reflexivity.
Defined.

(** A summit of British Columbia is activated from anywhere in Canada: the home
    drawn for [VE7] has no call area, so that no Canadian call resolves to it,
    a [VE7] call no more than one from Labrador, and any of them is sent. *)
Example ve7_activator_has_no_area :
  exists h, (forall r, sota_home (txt "VE7") r = Done (h, r)) /\ h.(h_region) = None
    /\ resolves_to (txt "VE7ABC") h = Done false /\ resolves_to (txt "VO2BZP") h = Done false.
Proof.
  pose (h := match whole 1 with Done h => h | _ => mk_Home (ent 0 "" Continent.An 0 0 [] [] [] None None Activity.Rare Names.Us []) None end).
  assert (Hw : whole 1 = Done h) by (vm_compute; reflexivity).
  exists h. split_and!; [|vm_compute; reflexivity|vm_compute; reflexivity|vm_compute; reflexivity].
  intros r. change (sota_home (txt "VE7")) with (lift (S := Rng) (whole 1)). unfold lift. by rewrite Hw.
Qed.

(** The calls of a pileup come from none of the entities left out, whatever is
    drawn; a station's call parses back to itself, and its base is a call. *)
Theorem callers_left_out {F : Fuel} me not band r h r' :
  homes_ok me -> (length not < 340)%nat -> random_caller me not band r = Done (h, r') ->
  home_good h /\ ~ h.(h_entity).(e_dxcc) ∈ not.
Proof.
  intros Hm Hn E. pose proof (random_caller_gives me not band Hm Hn r) as H. rewrite E in H. exact H.
Qed.
Lemma callers_left_out_witness :
  exists h r', random_caller (F := example_fuel) None [USA; 1] (Some M20) (rng_new 7) = Done (h, r')
    /\ home_good h /\ ~ h.(h_entity).(e_dxcc) ∈ [USA; 1].
Proof.
  destruct (random_caller (F := example_fuel) None [USA; 1] (Some M20) (rng_new 7)) as [[h r']|e| |] eqn:E;
    [|vm_compute in E; discriminate E..].
  exists h, r'. split; [reflexivity|].
  apply (callers_left_out (F := example_fuel) None [USA; 1] (Some M20) (rng_new 7) h r'); [by intros ? ?|cbn; lia|exact E].
Defined.

Theorem station_call_reads_back {F : Fuel} h r s r' :
  home_ok h -> station_call h r = Done (s, r') ->
  parse s = Ok (mk_Callsign s) /\ parse (base_part s) = Ok (mk_Callsign (base_part s)).
Proof.
  intros Hh E. pose proof (station_call_gives h Hh r) as H. rewrite E in H. destruct H as [Hp Hb].
  split; [done|by apply parse_plain].
Qed.
