(* ===== verification/Synth.v ===== *)
(** * Synth: keying to samples (cat-morse/src/synth.rs, the filter of dsp.rs)

    Signals, channels and the streaming renderer, sample by sample.  The
    functions of the platform's maths library are the class [Maths]; what is
    proved holds for any. *)

From Stdlib Require Import Floats.SpecFloat Sorting.Sorted.
From S2P Require Import Prelude Text Morse Timing Floats Tables World Draws Callsign Scenario.

(** ** What is rendered *)

Definition REFERENCE_AMPLITUDE : f32 := F32.dec 25 2.

Inductive SynthError : Type :=
| ZeroSampleRate
| FrequencyOutOfRange (hz nyquist : f32)
| InvalidParameter (what : string).

Record ToneShape : Type := mk_ToneShape { rise : Z }.
Definition default_shape : ToneShape := mk_ToneShape 5000000.
Record Qsb : Type := mk_Qsb { q_depth_db : f32; q_period : Z }.
Record Signal : Type := mk_Signal {
  g_keying : Keying; g_start : Z; g_pitch_hz : f32; g_level_db : f32; g_qsb : option Qsb;
  g_shape : ToneShape }.

Definition signal_new (keying : Keying) (pitch_hz : f32) : Signal :=
  mk_Signal keying 0 pitch_hz (F32.of_Z 0) None default_shape.
Definition starting_at (s : Signal) (start : Z) : Signal :=
  mk_Signal s.(g_keying) start s.(g_pitch_hz) s.(g_level_db) s.(g_qsb) s.(g_shape).
Definition at_level (s : Signal) (level_db : f32) : Signal :=
  mk_Signal s.(g_keying) s.(g_start) s.(g_pitch_hz) level_db s.(g_qsb) s.(g_shape).
Definition with_qsb (s : Signal) (qsb : Qsb) : Signal :=
  mk_Signal s.(g_keying) s.(g_start) s.(g_pitch_hz) s.(g_level_db) (Some qsb) s.(g_shape).
(** [Duration / 2] rounds down. *)
Definition effective_start (s : Signal) : Z := Z.max s.(g_start) (s.(g_shape).(rise) / 2).
Definition signal_end (s : Signal) : Z := effective_start s + total s.(g_keying) + s.(g_shape).(rise) / 2.

Record Awgn : Type := mk_Awgn { a_snr_db : f32; a_ref_bandwidth_hz : f32 }.
Definition awgn_snr (snr_db : f32) : Awgn := mk_Awgn snr_db (F32.of_Z 500).
Record Qrn : Type := mk_Qrn { n_crashes_per_sec : f32; n_level_db : f32; n_decay : Z }.
Record RxFilter : Type := mk_RxFilter { f_center_hz : f32; f_bandwidth_hz : f32 }.
Record Channel : Type := mk_Channel {
  sample_rate : Z; signals : list Signal; noise : option Awgn; qrn : option Qrn;
  filter_ : option RxFilter; gain : f32; padding : Z; ch_seed : Z }.

Definition channel_new (sample_rate seed : Z) : Channel :=
  mk_Channel sample_rate [] None None None (F32.of_Z 1) 0 seed.
(** The latest end, zero for none. *)
Definition latest_end (l : list Signal) : Z := foldl Z.max 0 (map signal_end l).
Definition channel_duration (c : Channel) : Z := latest_end c.(signals) + c.(padding).
Definition len_samples (c : Channel) : Z :=
  round_usize (F64.mul (as_secs_f64 (channel_duration c)) (F64.of_Z c.(sample_rate))).

(** ** One signal's state *)

Record MarkWin : Type := mk_MarkWin { w_a : f64; w_b : f64; w_c : f64; w_d : f64; w_r : f64 }.
Record SignalState : Type := mk_SignalState {
  marks : list MarkWin; cursor : nat; omega : f64; phase : f64; amp : f64;
  qsb : option (f64 * f64 * f64) }.

(** The windows of the marks, with the segment before the one looked at. *)
Fixpoint mark_windows (rise_s : f64) (prev : option Segment) (t : f64) (segs : list Segment) : list MarkWin :=
  match segs with
  | [] => []
  | s :: rest =>
      let len := as_secs_f64 s.(duration) in
      let next := F64.add t len in
      if s.(key_down) then
        let r := f64_min rise_s len in
        let r := match prev with
                 | Some p => if p.(key_down) then r else f64_min r (as_secs_f64 p.(duration))
                 | None => r
                 end in
        let r := match rest with
                 | n :: _ => if n.(key_down) then r else f64_min r (as_secs_f64 n.(duration))
                 | [] => r
                 end in
        let half := F64.div r (F64.of_Z 2) in
        mk_MarkWin (F64.sub t half) (F64.add t half) (F64.sub (F64.add t len) half)
          (F64.add (F64.add t len) half) r :: mark_windows rise_s (Some s) next rest
      else mark_windows rise_s (Some s) next rest
  end.
Definition signal_state (sig : Signal) (amp phase qsb_phase : f64) : SignalState :=
  mk_SignalState
    (mark_windows (as_secs_f64 sig.(g_shape).(rise)) None (as_secs_f64 (effective_start sig)) sig.(g_keying))
    0 (F64.mul (F64.mul (F64.of_Z 2) PI) (F32.to_f64 sig.(g_pitch_hz))) phase amp
    ((fun q => (F32.to_f64 q.(q_depth_db), as_secs_f64 q.(q_period), qsb_phase)) <$> sig.(g_qsb)).

(** The [while let] of [envelope]: past the windows that are over. *)
Fixpoint advance (t : f64) (rest : list MarkWin) (cursor : nat) : nat :=
  match rest with
  | m :: rest => if F64.leb m.(w_d) t then advance t rest (S cursor) else cursor
  | [] => cursor
  end.
Definition set_cursor (s : SignalState) (c : nat) : SignalState :=
  mk_SignalState s.(marks) c s.(omega) s.(phase) s.(amp) s.(qsb).

Section Rendering.
Context {X : Maths}.

(** [0.5 - 0.5 * cos(PI * x / r)]. *)
Definition ramp (x r : f64) : f64 :=
  F64.sub f_half (F64.mul f_half (m_cos (F64.div (F64.mul PI x) r))).
Definition envelope (s : SignalState) (t : f64) : f64 * SignalState :=
  let c := advance t (drop s.(cursor) s.(marks)) s.(cursor) in
  let s := set_cursor s c in
  (match s.(marks) !! c with
   | None => f_zero
   | Some m =>
       if F64.ltb t m.(w_a) then f_zero
       else if F64.leb m.(w_r) f_zero then F64.of_Z 1
       else if F64.ltb t m.(w_b) then ramp (F64.sub t m.(w_a)) m.(w_r)
       else if F64.ltb t m.(w_c) then F64.of_Z 1
       else ramp (F64.sub m.(w_d) t) m.(w_r)
   end, s).
Definition signal_sample (s : SignalState) (t : f64) : f64 * SignalState :=
  let '(env, s) := envelope s t in
  if f64_eqb env f_zero then (f_zero, s)
  else
    let g := F64.mul s.(amp) env in
    let g := match s.(qsb) with
             | Some (depth, period, ph) =>
                 let fade_db := F64.mul (f64_neg depth)
                   (F64.sub f_half (F64.mul f_half (m_cos (F64.add (F64.div (F64.mul (F64.mul (F64.of_Z 2) PI) t) period) ph)))) in
                 F64.mul g (m_powf (F64.of_Z 10) (F64.div fade_db (F64.of_Z 20)))
             | None => g
             end in
    (F64.mul g (m_sin (F64.add (F64.mul s.(omega) t) s.(phase))), s).

(** ** The receiver's filter (dsp.rs) *)

Record Biquad : Type := mk_Biquad {
  b0 : f64; b2 : f64; a1 : f64; a2 : f64; x1 : f64; x2 : f64; y1 : f64; y2 : f64 }.
Definition bandpass (sample_rate : Z) (center_hz bandwidth_hz : f32) : Biquad :=
  let w0 := F64.div (F64.mul (F64.mul (F64.of_Z 2) PI) (F32.to_f64 center_hz)) (F64.of_Z sample_rate) in
  let q := F64.div (F32.to_f64 center_hz) (F32.to_f64 bandwidth_hz) in
  let alpha := F64.div (m_sin w0) (F64.mul (F64.of_Z 2) q) in
  let a0 := F64.add (F64.of_Z 1) alpha in
  mk_Biquad (F64.div alpha a0) (F64.div (f64_neg alpha) a0)
    (F64.div (F64.mul (F64.of_Z (-2)) (m_cos w0)) a0) (F64.div (F64.sub (F64.of_Z 1) alpha) a0)
    f_zero f_zero f_zero f_zero.
Definition process (f : Biquad) (x : f64) : f64 * Biquad :=
  let y := F64.sub (F64.sub (F64.add (F64.mul f.(b0) x) (F64.mul f.(b2) f.(x2))) (F64.mul f.(a1) f.(y1)))
             (F64.mul f.(a2) f.(y2)) in
  (y, mk_Biquad f.(b0) f.(b2) f.(a1) f.(a2) x f.(x1) y f.(y1)).

(** ** The renderer *)

Record ChannelRenderer : Type := mk_ChannelRenderer {
  r_sample_rate : f64; r_n : Z; r_total : Z; r_signals : list SignalState; r_noise_sigma : f64;
  r_noise_rng : Rng; r_qrn : option (f64 * f64 * f64); r_qrn_rng : Rng; r_qrn_env : f64;
  r_filter : option Biquad; r_gain : f64; r_clipped : Z }.

Definition STREAM_NOISE : Z := 1.
Definition STREAM_QRN : Z := 2.
Definition STREAM_SIGNALS : Z := 3.

Definition check_freq (hz : f32) (sr : Z) : result () SynthError :=
  let nyquist := F32.div (F32.of_Z sr) (F32.of_Z 2) in
  if F64.is_finite hz && F64.ltb (F32.of_Z 0) hz && F64.ltb hz nyquist then Ok ()
  else Err (FrequencyOutOfRange hz nyquist).

(** [10f64.powf(db / 20)]. *)
Definition db_ratio (db : f32) : f64 := m_powf (F64.of_Z 10) (F64.div (F32.to_f64 db) (F64.of_Z 20)).

(** The loop over the signals in [ChannelRenderer::new]. *)
Fixpoint new_signals (sr : Z) (rng : Rng) (l : list Signal) : result (list SignalState) SynthError :=
  match l with
  | [] => Ok []
  | s :: l =>
      let? _ := check_freq s.(g_pitch_hz) sr in
      let? _ := refuse_if (negb (F64.is_finite s.(g_level_db))) (InvalidParameter "signal level must be finite") in
      let? _ := refuse_if (match s.(g_qsb) with
                           | Some q => negb (F64.is_finite q.(q_depth_db) && F64.leb (F32.of_Z 0) q.(q_depth_db))
                                       || (q.(q_period) =? 0)
                           | None => false
                           end)
                  (InvalidParameter "QSB needs depth ≥ 0 dB and a non-zero period") in
      let amp := F64.mul (F32.to_f64 REFERENCE_AMPLITUDE) (db_ratio s.(g_level_db)) in
      let '(u, rng) := unit_f64 rng in
      let '(v, rng) := unit_f64 rng in
      let two_pi := F64.mul (F64.of_Z 2) PI in
      let? rest := new_signals sr rng l in
      Ok (signal_state s amp (F64.mul two_pi u) (F64.mul two_pi v) :: rest)
  end.
Definition noise_sigma (sr : Z) (noise : option Awgn) : result f64 SynthError :=
  match noise with
  | None => Ok f_zero
  | Some a =>
      let? _ := refuse_if (negb (F64.is_finite a.(a_snr_db))) (InvalidParameter "SNR must be finite") in
      let? _ := map_err (fun _ => InvalidParameter "reference bandwidth must be in (0, Nyquist)")
                  (check_freq a.(a_ref_bandwidth_hz) sr) in
      let p_ref := F64.div (m_powi (F32.to_f64 REFERENCE_AMPLITUDE) 2) (F64.of_Z 2) in
      let p_in_band := F64.div p_ref (m_powf (F64.of_Z 10) (F64.div (F32.to_f64 a.(a_snr_db)) (F64.of_Z 10))) in
      let nyquist := F64.div (F64.of_Z sr) (F64.of_Z 2) in
      Ok (f64_sqrt (F64.div (F64.mul p_in_band nyquist) (F32.to_f64 a.(a_ref_bandwidth_hz))))
  end.
Definition new_qrn (sr : Z) (qrn : option Qrn) : result (option (f64 * f64 * f64)) SynthError :=
  match qrn with
  | None => Ok None
  | Some q =>
      let? _ := refuse_if (negb (F64.is_finite q.(n_crashes_per_sec) && F64.leb (F32.of_Z 0) q.(n_crashes_per_sec))
                           || (q.(n_decay) =? 0) || negb (F64.is_finite q.(n_level_db)))
                  (InvalidParameter "QRN needs a rate ≥ 0, a finite level and a non-zero decay") in
      let p := F64.div (F32.to_f64 q.(n_crashes_per_sec)) (F64.of_Z sr) in
      let peak := F64.mul (F32.to_f64 REFERENCE_AMPLITUDE) (db_ratio q.(n_level_db)) in
      let k := m_exp (F64.div (F64.of_Z (-1)) (F64.mul (as_secs_f64 q.(n_decay)) (F64.of_Z sr))) in
      Ok (Some (p, peak, k))
  end.
Definition new_filter (sr : Z) (f : option RxFilter) : result (option Biquad) SynthError :=
  match f with
  | None => Ok None
  | Some f =>
      let? _ := check_freq f.(f_center_hz) sr in
      let? _ := refuse_if (negb (F64.is_finite f.(f_bandwidth_hz) && F64.ltb (F32.of_Z 0) f.(f_bandwidth_hz)))
                  (InvalidParameter "filter bandwidth must be > 0") in
      Ok (Some (bandpass sr f.(f_center_hz) f.(f_bandwidth_hz)))
  end.
(** [ChannelRenderer::new]. *)
Definition renderer (ch : Channel) : result ChannelRenderer SynthError :=
  let sr := ch.(sample_rate) in
  let? _ := refuse_if (sr =? 0) ZeroSampleRate in
  let? _ := refuse_if (negb (F64.is_finite ch.(gain))) (InvalidParameter "gain must be finite") in
  let root := rng_new ch.(ch_seed) in
  let? sigs := new_signals sr (fork root STREAM_SIGNALS) ch.(signals) in
  let? sigma := noise_sigma sr ch.(noise) in
  let? q := new_qrn sr ch.(qrn) in
  let? f := new_filter sr ch.(filter_) in
  Ok (mk_ChannelRenderer (F64.of_Z sr) 0 (len_samples ch) sigs sigma (fork root STREAM_NOISE) q
        (fork root STREAM_QRN) f_zero f (F32.to_f64 ch.(gain)) 0).

Definition remaining (r : ChannelRenderer) : Z := r.(r_total) - r.(r_n).

(** The sum of the signals at [t]. *)
Fixpoint mix (t x : f64) (l : list SignalState) : f64 * list SignalState :=
  match l with
  | [] => (x, [])
  | s :: l =>
      let '(v, s) := signal_sample s t in
      let '(x, l) := mix t (F64.add x v) l in
      (x, s :: l)
  end.
(** The static at one sample: the envelope may be struck, then decays. *)
Definition static (q : option (f64 * f64 * f64)) (x env : f64) (rng : Rng) : f64 * f64 * Rng :=
  match q with
  | None => (x, env, rng)
  | Some (p, peak, k) =>
      let '(u, rng) := unit_f64 rng in
      let '(env, rng) :=
        if F64.ltb u p then
          let '(v, rng) := unit_f64 rng in
          let a := F64.mul peak (F64.add f_half (F64.mul (F64.sub (F64.dec 15 1) f_half) v)) in
          (if F64.ltb env a then a else env, rng)
        else (env, rng) in
      if F64.ltb (F64.dec 1 9) env then
        let '(g, rng) := gauss rng in (F64.add x (F64.mul env g), F64.mul env k, rng)
      else (x, env, rng)
  end.
(** One round of [fill]. *)
Definition render_one (r : ChannelRenderer) : f32 * ChannelRenderer :=
  let t := F64.div (F64.of_Z r.(r_n)) r.(r_sample_rate) in
  let '(x, sigs) := mix t f_zero r.(r_signals) in
  let '(x, noise_rng) :=
    if F64.ltb f_zero r.(r_noise_sigma) then
      let '(g, rng) := gauss r.(r_noise_rng) in (F64.add x (F64.mul r.(r_noise_sigma) g), rng)
    else (x, r.(r_noise_rng)) in
  let '(x, env, qrn_rng) := static r.(r_qrn) x r.(r_qrn_env) r.(r_qrn_rng) in
  let '(x, f) := match r.(r_filter) with
                 | Some f => let '(y, f) := process f x in (y, Some f)
                 | None => (x, None)
                 end in
  let y := F64.mul x r.(r_gain) in
  let c := F64.clamp y (F64.of_Z (-1)) (F64.of_Z 1) in
  let clipped := if f64_eqb c y then r.(r_clipped) else r.(r_clipped) + 1 in
  (F32.of_f64 c,
   mk_ChannelRenderer r.(r_sample_rate) (r.(r_n) + 1) r.(r_total) sigs r.(r_noise_sigma) noise_rng r.(r_qrn)
     qrn_rng env f r.(r_gain) clipped).
Fixpoint render_n (n : nat) (r : ChannelRenderer) : list f32 * ChannelRenderer :=
  match n with
  | O => ([], r)
  | S n => let '(y, r) := render_one r in let '(ys, r) := render_n n r in (y :: ys, r)
  end.
(** [fill] into a slice of [len] samples: those written. *)
Definition fill_block (len : Z) (r : ChannelRenderer) : list f32 * ChannelRenderer :=
  render_n (Z.to_nat (Z.min len (remaining r))) r.
Definition render (ch : Channel) : result (list f32) SynthError :=
  let? r := renderer ch in Ok (fst (fill_block (len_samples ch) r)).

(** [render_tone]: one signal alone. *)
Fixpoint tone_samples (n : nat) (i : Z) (sr : f64) (s : SignalState) : list f32 :=
  match n with
  | O => []
  | S n => let '(y, s) := signal_sample s (F64.div (F64.of_Z i) sr) in F32.of_f64 y :: tone_samples n (i + 1) sr s
  end.
Definition render_tone (keying : Keying) (sr : Z) (pitch_hz amplitude : f32) (shape : ToneShape)
    : result (list f32) SynthError :=
  let? _ := refuse_if (sr =? 0) ZeroSampleRate in
  let? _ := check_freq pitch_hz sr in
  let? _ := refuse_if (negb (F64.is_finite amplitude)) (InvalidParameter "amplitude must be finite") in
  let sig := mk_Signal keying (shape.(rise) / 2) pitch_hz (F32.of_Z 0) None shape in
  let n := round_usize (F64.mul (as_secs_f64 (total keying + shape.(rise))) (F64.of_Z sr)) in
  Ok (tone_samples (Z.to_nat n) 0 (F64.of_Z sr) (signal_state sig (F32.to_f64 amplitude) f_zero f_zero)).
End Rendering.

(** ** Streaming *)

Section Streaming.
Context {X : Maths}.

(** [fill] called with slices of these lengths, one after the other. *)
Fixpoint stream (lens : list Z) (r : ChannelRenderer) : list (list f32) * ChannelRenderer :=
  match lens with
  | [] => ([], r)
  | n :: lens =>
      let '(block, r) := fill_block n r in
      let '(blocks, r) := stream lens r in (block :: blocks, r)
  end.

Definition asked (lens : list Z) : Z := fold_right Z.add 0 lens.

Lemma asked_nonneg lens : Forall (Z.le 0) lens -> 0 <= asked lens.
Proof. induction 1 as [|n lens Hn Hl IH]; [done|]. unfold asked in *. cbn [fold_right]. lia. Qed.

Lemma render_n_app n m r :
  render_n (n + m) r =
    (fst (render_n n r) ++ fst (render_n m (snd (render_n n r))), snd (render_n m (snd (render_n n r)))).
Proof.
  revert r; induction n as [|n IH]; intros r; cbn; [by destruct (render_n m r)|].
  destruct (render_one r) as [y r']. rewrite IH. by destruct (render_n n r').
Qed.
Lemma render_n_length n r : length (fst (render_n n r)) = n.
Proof.
  revert r; induction n as [|n IH]; intros r; cbn; [done|].
  destruct (render_one r) as [y r']. specialize (IH r'). destruct (render_n n r'); cbn in *; lia.
Qed.
Lemma render_one_counts r : r_n (snd (render_one r)) = r_n r + 1 /\ r_total (snd (render_one r)) = r_total r.
Proof.
  unfold render_one. cbv zeta.
  repeat match goal with |- context [let '(_, _) := ?e in _] => destruct e end; cbn [r_n r_total snd]; done.
Qed.
Lemma render_n_counts n r :
  r_n (snd (render_n n r)) = r_n r + Z.of_nat n /\ r_total (snd (render_n n r)) = r_total r.
Proof.
  revert r; induction n as [|n IH]; intros r; [cbn; lia|]. cbn [render_n].
  pose proof (render_one_counts r) as [Hn Ht]. destruct (render_one r) as [y r'].
  specialize (IH r') as [Hn' Ht']. destruct (render_n n r'); cbn [snd] in *. lia.
Qed.
Lemma remaining_after n r : remaining (snd (render_n n r)) = remaining r - Z.of_nat n.
Proof. unfold remaining. pose proof (render_n_counts n r). lia. Qed.

(** The blocks are one run, stopped at the end of the channel. *)
Lemma stream_run lens r :
  Forall (Z.le 0) lens -> 0 <= remaining r ->
  concat (fst (stream lens r)) = fst (render_n (Z.to_nat (Z.min (asked lens) (remaining r))) r) /\
  remaining (snd (stream lens r)) = Z.max 0 (remaining r - asked lens).
Proof.
  intros Hl; revert r; induction Hl as [|n lens Hn Hl IH]; intros r Hr; cbn [stream].
  { change (asked []) with 0. replace (Z.to_nat (Z.min 0 (remaining r))) with 0%nat by lia. split; [done|cbn [snd]; lia]. }
  assert (0 <= asked lens) as Hs by by apply asked_nonneg.
  change (asked (n :: lens)) with (n + asked lens).
  unfold fill_block. set (k := Z.to_nat (Z.min n (remaining r))).
  pose proof (remaining_after k r) as Ha. destruct (render_n k r) as [block r'] eqn:E. cbn [snd] in Ha.
  destruct (IH r') as [Hc Hm]; [lia|]. destruct (stream lens r') as [blocks r'']. cbn [fst snd concat] in *.
  split; [|lia]. rewrite Hc.
  replace (Z.to_nat (Z.min (n + asked lens) (remaining r)))
    with (k + Z.to_nat (Z.min (asked lens) (remaining r')))%nat by lia.
  by rewrite render_n_app, E.
Qed.

Lemma renderer_start ch r : renderer ch = Ok r -> r.(r_n) = 0 /\ r.(r_total) = len_samples ch.
Proof.
  unfold renderer. intros H. repeat (apply result_bind_ok in H as (? & _ & H)). injection H as <-. done.
Qed.
Lemma len_samples_nonneg ch : 0 <= len_samples ch.
Proof. apply round_max0_u64_range. Qed.

(** What a sample was before the cast: in the range, or not a number, which the
    clamp leaves as it is. *)
Definition in_range_or_nan (y : f32) : Prop :=
  exists c, y = F32.of_f64 c /\
    (F64.is_nan c = true \/ F64.leb (F64.of_Z (-1)) c = true /\ F64.leb c (F64.of_Z 1) = true).
Lemma render_one_bounded r : in_range_or_nan (fst (render_one r)).
Proof.
  unfold render_one. cbv zeta.
  repeat match goal with |- context [let '(_, _) := ?e in _] => destruct e end; cbn [fst].
  eexists. split; [done|]. apply clamp_range; vm_compute; reflexivity.
Qed.
Lemma render_n_bounded n r : Forall in_range_or_nan (fst (render_n n r)).
Proof.
  revert r; induction n as [|n IH]; intros r; cbn [render_n]; [constructor|].
  pose proof (render_one_bounded r). destruct (render_one r) as [y r']. specialize (IH r').
  destruct (render_n n r'). by constructor.
Qed.

(** C37. Whatever the block sizes, the streamed blocks are the whole rendering cut
    up: joined they are its first samples, the renderer has left what was not
    asked for, and every sample is between -1 and 1 or not a number. *)
Theorem stream_is_render ch r lens :
  renderer ch = Ok r -> Forall (Z.le 0) lens ->
  exists out, render ch = Ok out /\ length out = Z.to_nat (len_samples ch) /\ Forall in_range_or_nan out /\
    concat (fst (stream lens r)) = take (Z.to_nat (asked lens)) out /\
    remaining (snd (stream lens r)) = Z.max 0 (len_samples ch - asked lens).
Proof.
  intros Hr Hl. destruct (renderer_start ch r Hr) as [Hn Ht]. pose proof (len_samples_nonneg ch) as Hlen.
  assert (Hrem : remaining r = len_samples ch) by (unfold remaining; lia).
  exists (fst (render_n (Z.to_nat (len_samples ch)) r)). unfold render. rewrite Hr. cbn [result_bind].
  unfold fill_block. rewrite Hrem, Z.min_id. split; [done|]. rewrite render_n_length.
  split; [done|]. split; [apply render_n_bounded|].
  destruct (stream_run lens r Hl) as [Hc Hm]; [lia|]. rewrite Hrem in Hc, Hm. split; [|done]. rewrite Hc.
  assert (0 <= asked lens) by by apply asked_nonneg.
  symmetry. destruct (Z.le_ge_cases (asked lens) (len_samples ch)).
  - rewrite Z.min_l by done.
    replace (Z.to_nat (len_samples ch)) with (Z.to_nat (asked lens) + Z.to_nat (len_samples ch - asked lens))%nat by lia.
    rewrite render_n_app. cbn [fst]. by rewrite take_app_length' by (symmetry; apply render_n_length).
  - rewrite Z.min_r by done. apply take_ge. rewrite render_n_length. lia.
Qed.
End Streaming.

(** ** The cursor *)

Section Cursor.
Context {X : Maths}.

(** [envelope] asked at these times, one after the other. *)
Fixpoint envelopes (s : SignalState) (ts : list f64) : list f64 :=
  match ts with
  | [] => []
  | t :: ts => let '(e, s) := envelope s t in e :: envelopes s ts
  end.

Definition over (t : f64) (m : MarkWin) : Prop := F64.leb m.(w_d) t = true.
Lemma advance_past t past rest c :
  Forall (over t) past -> advance t (past ++ rest) c = advance t rest (c + length past).
Proof.
  intros Hp; revert c; induction Hp as [|m past Hm Hp IH]; intros c; cbn; [f_equal; lia|].
  rewrite Hm, IH. f_equal. lia.
Qed.
Lemma advance_over t l c :
  exists k, advance t l c = (c + k)%nat /\ (k <= length l)%nat /\ Forall (over t) (take k l).
Proof.
  revert c; induction l as [|m l IH]; intros c; cbn; [exists 0%nat; split; [lia|done]|].
  destruct (F64.leb _ _) eqn:E; [|exists 0%nat; split; [lia|split; [lia|done]]].
  destruct (IH (S c)) as (k & -> & Hk & Hf). exists (S k). split; [lia|]. split; [lia|]. by constructor.
Qed.
(** The cursor has left only windows that are over by [t]. *)
Definition behind (t : f64) (s : SignalState) : Prop :=
  (s.(cursor) <= length s.(marks))%nat /\ Forall (over t) (take s.(cursor) s.(marks)).
Lemma behind_later t t' s : F64.leb t t' = true -> behind t s -> behind t' s.
Proof. intros Ht [Hc Hf]. split; [done|]. eapply Forall_impl; [done|]. intros m Hm. unfold over in *. by eapply leb_trans. Qed.
Lemma envelope_cursor s t :
  behind t s -> envelope s t = envelope (set_cursor s 0) t /\ behind t (snd (envelope s t)) /\
    set_cursor (snd (envelope s t)) 0 = set_cursor s 0.
Proof.
  intros [Hc Hf].
  assert (Ha : advance t (drop s.(cursor) s.(marks)) s.(cursor) = advance t s.(marks) 0).
  { rewrite <- (take_drop s.(cursor) s.(marks)) at 2. rewrite advance_past by done.
    by rewrite length_take, Nat.min_l. }
  unfold envelope. cbn [set_cursor marks cursor snd]. rewrite drop_0, <- Ha. split; [done|]. split; [|done].
  rewrite Ha. destruct (advance_over t s.(marks) 0) as (k & -> & Hk & Hok). by split.
Qed.

(** The cursor is only a shortcut: asked at times that never go back, the
    envelope is the one a search from the first mark finds. *)
Theorem cursor_is_search s ts :
  s.(cursor) = 0%nat -> StronglySorted (fun t t' => F64.leb t t' = true) ts ->
  envelopes s ts = map (fun t => fst (envelope s t)) ts.
Proof.
  intros Hs Hts.
  assert (H : forall s', set_cursor s' 0 = s -> Forall (fun t => behind t s') ts ->
            envelopes s' ts = map (fun t => fst (envelope s t)) ts).
  { induction Hts as [|t ts Hts IH Hle]; intros s' He Hb; cbn [envelopes map]; [done|].
    apply Forall_cons in Hb as [Hb _]. destruct (envelope_cursor s' t Hb) as (Hq & Hb' & Hk).
    rewrite <- He, <- Hq. destruct (envelope s' t) as [e s'']. cbn [fst snd] in *. f_equal. rewrite He.
    apply IH; [congruence|]. eapply Forall_impl; [exact Hle|]. intros t' Ht'. exact (behind_later t t' s'' Ht' Hb'). }
  assert (He : set_cursor s 0 = s) by (by destruct s; cbn in *; subst).
  apply H; [done|]. apply Forall_forall. intros t _. split; [lia|]. rewrite Hs. apply Forall_nil_2.
Qed.
End Cursor.

(** A mark in noise and static through a filter, in blocks of three. *)
Definition static_channel : Channel :=
  mk_Channel 8000 [signal_new [mk_Segment true 400000] (F32.of_Z 700)] (Some (awgn_snr (F32.of_Z 3)))
    (Some (mk_Qrn (F32.of_Z 4000) (F32.of_Z 6) 1000000)) (Some (mk_RxFilter (F32.of_Z 700) (F32.of_Z 500)))
    (F32.of_Z 1) 0 42.
Lemma stream_is_render_witness :
  exists r out, @renderer Approx.maths static_channel = Ok r /\ @render Approx.maths static_channel = Ok out /\
    concat (fst (@stream Approx.maths [3; 0; 3] r)) = take 6 out.
Proof.
  destruct (@renderer Approx.maths static_channel) as [r|e] eqn:E; [|vm_compute in E; discriminate].
  destruct (@stream_is_render Approx.maths static_channel r [3; 0; 3] E) as (out & Ho & _ & _ & Hc & _).
  { repeat constructor; lia. }
  exists r, out. split; [reflexivity|]. split; [exact Ho|exact Hc].
Defined.

(** A level the renderer accepts, and samples that are not numbers: the amplitude
    overflows to infinity, and the filter subtracts one infinity from another. *)
Definition loud_channel : Channel :=
  mk_Channel 8000 [at_level (signal_new [mk_Segment true 400000] (F32.of_Z 700)) (F32.of_Z 20000)] None None
    (Some (mk_RxFilter (F32.of_Z 700) (F32.of_Z 500))) (F32.of_Z 1) 0 42.
Theorem huge_level_renders_nan :
  match @render Approx.maths loud_channel with Ok out => existsb F64.is_nan out | Err _ => false end = true.
Proof. vm_compute. reflexivity. Qed.

(** Two marks 40 ms apart, asked about every 10 ms. *)
Lemma cursor_is_search_witness :
  let s := signal_state (signal_new [mk_Segment true 20000000; mk_Segment false 20000000; mk_Segment true 20000000] (F32.of_Z 700))
             (F64.of_Z 1) (F64.of_Z 0) (F64.of_Z 0) in
  let ts := map (fun k => F64.dec k 2) [0; 1; 2; 3; 4; 5; 6; 7] in
  length s.(marks) = 2%nat /\ @envelopes Approx.maths s ts = map (fun t => fst (@envelope Approx.maths s t)) ts.
Proof.
  intros s ts. split; [vm_compute; reflexivity|].
  apply (@cursor_is_search Approx.maths s ts); [vm_compute; reflexivity|].
  repeat (apply SSorted_cons); try apply SSorted_nil;
    repeat (apply Forall_cons_2; [vm_compute; reflexivity|]); apply Forall_nil_2.
Defined.
