(* ===== verification/Decoder.v ===== *)
(** * Decoder: tones back to text (cat-morse/src/decoder.rs, the bins of dsp.rs)

    The streaming decoder: the Goertzel bins, the envelope detector with its
    ring, the timing classifier, the pitch search, and [feed]/[flush].  What
    is emitted is the writer part of a small monad [D]; a panic of the code is
    one of the [Crash]es.  Sorting leaves the place of a NaN open in the code;
    here it is an insertion sort.  The [u64] sample counters do not wrap (that
    takes 2^64 samples). *)

From Stdlib Require Import Floats.SpecFloat.
From S2P Require Import Prelude Text Morse Timing Floats.

(** ** Settings *)

Inductive DecoderError : Type :=
| ZeroSampleRate
| PitchOutOfRange (hz : f32)
| InvalidConfig (what : string).
Inductive PitchMode : Type := Fixed (hz : f32) | Auto (min_hz max_hz : f32).
Record DecoderConfig : Type := mk_DecoderConfig {
  sample_rate : Z; pitch : PitchMode; hop : Z; window : option Z; on_threshold : f32; off_threshold : f32;
  initial_wpm : f64; squelch_db : f32; min_level_dbfs : f32; style : DecodeStyle }.
(** [DecoderConfig::new]. *)
Definition config (sample_rate : Z) (pitch : PitchMode) : DecoderConfig :=
  mk_DecoderConfig sample_rate pitch 4000000 None (F32.dec 55 2) (F32.dec 40 2) (F64.of_Z 20) (F32.of_Z 10)
    (F32.of_Z (-70)) Prosigns.

Definition PITCH_MARGIN_HZ : f32 := F32.of_Z 100.
Definition pitch_ok (nyquist f : f32) : bool :=
  F64.is_finite f && F64.leb PITCH_MARGIN_HZ f && F64.leb f (F32.sub nyquist PITCH_MARGIN_HZ).
Definition validate_pitch (nyquist : f32) (p : PitchMode) : result () DecoderError :=
  match p with
  | Fixed f => refuse_if (negb (pitch_ok nyquist f)) (PitchOutOfRange f)
  | Auto min_hz max_hz =>
      let? _ := refuse_if (negb (pitch_ok nyquist min_hz)) (PitchOutOfRange min_hz) in
      let? _ := refuse_if (negb (pitch_ok nyquist max_hz)) (PitchOutOfRange max_hz) in
      refuse_if (F64.ltb max_hz (F32.add min_hz (F32.of_Z 20)))
        (InvalidConfig "auto pitch range must span at least 20 Hz")
  end.
Definition threshold_ok (x : f32) : bool :=
  F64.is_finite x && F64.ltb (F32.of_Z 0) x && F64.ltb x (F32.of_Z 1).
Definition validate (c : DecoderConfig) : result () DecoderError :=
  let? _ := refuse_if (c.(sample_rate) =? 0) ZeroSampleRate in
  let? _ := validate_pitch (F32.div (F32.of_Z c.(sample_rate)) (F32.of_Z 2)) c.(pitch) in
  let hop_samples := F64.mul (as_secs_f64 c.(hop)) (F64.of_Z c.(sample_rate)) in
  let? _ := refuse_if (F64.ltb hop_samples (F64.of_Z 1) || (20000000 <? c.(hop)))
              (InvalidConfig "hop must be at least one sample and at most 20 ms") in
  let? _ := refuse_if (match c.(window) with Some w => (w <? c.(hop)) || (200000000 <? w) | None => false end)
              (InvalidConfig "window must be in [hop, 200 ms]") in
  let? _ := refuse_if (negb (threshold_ok c.(on_threshold)) || negb (threshold_ok c.(off_threshold))
                       || F64.ltb c.(on_threshold) c.(off_threshold))
              (InvalidConfig "thresholds must satisfy 0 < off ≤ on < 1") in
  let? _ := refuse_if (negb (F64.is_finite c.(initial_wpm) && F64.leb (F64.of_Z 3) c.(initial_wpm)
                             && F64.leb c.(initial_wpm) (F64.of_Z 80)))
              (InvalidConfig "initial_wpm must be in [3, 80]") in
  let? _ := refuse_if (negb (F64.is_finite c.(min_level_dbfs) && F64.leb c.(min_level_dbfs) (F32.of_Z 0)))
              (InvalidConfig "min_level_dbfs must be ≤ 0") in
  refuse_if (negb (F64.is_finite c.(squelch_db) && F64.leb (F32.of_Z 0) c.(squelch_db)))
    (InvalidConfig "squelch_db must be ≥ 0").

Inductive Decoded : Type := DToken (t : Token) | Unknown (group : list Element) | DWordSpace.
Definition decoded_display (d : Decoded) : text :=
  match d with DToken t => token_display t | Unknown _ => [ch "*"] | DWordSpace => [ch " "] end.
Definition decoded_to_text (items : list Decoded) : text := concat (map decoded_display items).

Definition MIN_WINDOW_S : f64 := F64.dec 8 3.
Definition MAX_WINDOW_S : f64 := F64.dec 40 3.
Definition HISTORY : nat := 24.
Definition HIST_HOPS : nat := 512.
Definition DIT_RANGE : f64 * f64 :=
  (F64.div (F64.dec 12 1) (F64.of_Z 60), F64.div (F64.dec 12 1) (F64.of_Z 5)).
Definition AUTO_BLOCK_S : f64 := F64.dec 1 1.
Definition AUTO_STEP_HZ : f32 := F32.of_Z 10.
Definition AUTO_LOCK_DB : f64 := F64.of_Z 15.
Definition AUTO_BUFFER_S : f64 := F64.of_Z 2.

(** ** Panics, and what is emitted *)

(** [expect("detector")], an index out of range, and [clamp] with its bounds
    the wrong way round (or not numbers).  [Unfinished] is the model's own: the
    fuel of the loop over the bank's frequencies. *)
Inductive Crash : Type := NoDetector | OutOfRange | BadClamp | Unfinished.

Definition D (S A : Type) : Type := S -> result (A * S * list Decoded) Crash.
Definition ret {S A} (a : A) : D S A := fun s => Ok (a, s, []).
Definition bind {S A B} (m : D S A) (k : A -> D S B) : D S B := fun s =>
  let? (a, s, o) := m s in
  let? (b, s, o') := k a s in
  Ok (b, s, o ++ o').
Definition emit {S} (d : Decoded) : D S () := fun s => Ok (tt, s, [d]).
Definition gets {S A} (f : S -> A) : D S A := fun s => Ok (f s, s, []).
Definition update {S} (f : S -> S) : D S () := fun s => Ok (tt, f s, []).
Definition lift {S A} (r : result A Crash) : D S A := fun s => let? a := r in Ok (a, s, []).
Declare Scope decoder_scope.
Delimit Scope decoder_scope with decoder.
Notation "'let!' x ':=' c 'in' k" := (bind c (fun x => k))
  (at level 10, x pattern, c at level 100, k at level 200) : decoder_scope.
Notation "'do!' c 'in' k" := (bind c (fun _ => k))
  (at level 10, c at level 100, k at level 200) : decoder_scope.
Open Scope decoder_scope.
(** A [for] loop. *)
Fixpoint each {S A} (f : A -> D S ()) (l : list A) : D S () :=
  match l with [] => ret tt | x :: l => do! f x in each f l end.
Definition when {S} (b : bool) (m : D S ()) : D S () := if b then m else ret tt.

Definition at_index {A} (l : list A) (i : nat) : result A Crash := ok_or (l !! i) OutOfRange.
(** [f64::clamp] asserts its bounds. *)
Definition clamp_checked (x lo hi : f64) : result f64 Crash :=
  if F64.leb lo hi then Ok (F64.clamp x lo hi) else Err BadClamp.
Definition of_nat (n : nat) : f64 := F64.of_Z (Z.of_nat n).
(** [1e-30]. *)
Definition TINY : f64 := S754_finite false 5708990770823840 (-152).
Definition f64_gt (x y : f64) : bool := F64.ltb y x.
Definition f64_sum (l : list f64) : f64 := foldl F64.add f_zero l.

(** [partial_cmp(..).unwrap_or(Equal)]; a stable sort by it. *)
Definition less (x y : f64) : bool := F64.ltb x y.
Fixpoint insert_sorted (x : f64) (l : list f64) : list f64 :=
  match l with
  | [] => [x]
  | y :: l' => if less y x then y :: insert_sorted x l' else x :: l
  end.
Definition sort (l : list f64) : list f64 := foldr insert_sorted [] l.
(** [Vec::remove(0)]/[pop_front] when full, then push. *)
Definition push_bounded {A} (cap : nat) (l : list A) (x : A) : list A :=
  (if (length l =? cap)%nat then drop 1 l else l) ++ [x].
Definition push_history (h : list f64) (x : f64) : list f64 := push_bounded HISTORY h x.
Definition median (v : list f64) : result f64 Crash := at_index (sort v) (length v / 2).
Fixpoint position {A} (f : A -> bool) (l : list A) : option nat :=
  match l with [] => None | x :: l => if f x then Some O else S <$> position f l end.
Fixpoint rposition {A} (f : A -> bool) (l : list A) : option nat :=
  match l with
  | [] => None
  | x :: l => match rposition f l with Some i => Some (S i) | None => if f x then Some O else None end
  end.

Section Decoding.
Context {X : Maths}.

(** ** Bins (dsp.rs) *)

(** One round of the recurrence: [s0 = x + coeff * s1 - s2]. *)
Definition goertzel_step (coeff : f64) (s : f64 * f64) (x : f64) : f64 * f64 :=
  (F64.sub (F64.add x (F64.mul coeff s.1)) s.2, s.1).
Definition goertzel_mag2 (coeff : f64) (s : f64 * f64) : f64 :=
  F64.sub (F64.add (F64.mul s.1 s.1) (F64.mul s.2 s.2)) (F64.mul (F64.mul coeff s.1) s.2).
Definition bin_omega (sample_rate : Z) (freq_hz : f32) : f64 :=
  F64.div (F64.mul (F64.mul (F64.of_Z 2) PI) (F32.to_f64 freq_hz)) (F64.of_Z sample_rate).
Definition goertzel_power (samples : list f32) (sample_rate : Z) (freq_hz : f32) : f32 :=
  let n := length samples in
  if (n =? 0)%nat || (sample_rate =? 0) then F32.of_Z 0
  else
    let coeff := F64.mul (F64.of_Z 2) (m_cos (bin_omega sample_rate freq_hz)) in
    let s := foldl (fun s x => goertzel_step coeff s (F32.to_f64 x)) (f_zero, f_zero) samples in
    F32.of_f64 (F64.div (F64.mul (F64.of_Z 2) (goertzel_mag2 coeff s)) (F64.mul (of_nat n) (of_nat n))).

Record GoertzelBin : Type := mk_GoertzelBin { coeff : f64; scale : f64; weights : list f64 }.
Definition bin_new (sample_rate : Z) (freq_hz : f32) (len : nat) : GoertzelBin :=
  let weights := map (fun i =>
      F64.sub f_half (F64.mul f_half (m_cos (F64.div (F64.mul (F64.mul (F64.of_Z 2) PI) (F64.add (of_nat i) f_half)) (of_nat len)))))
    (seq 0 len) in
  let sum := f64_sum weights in
  mk_GoertzelBin (F64.mul (F64.of_Z 2) (m_cos (bin_omega sample_rate freq_hz)))
    (F64.div (F64.of_Z 2) (F64.max (F64.mul sum sum) TINY)) weights.
(** [power] over a window read in two pieces. *)
Definition power (b : GoertzelBin) (p q : list f32) : f64 :=
  let s := foldl (fun s xw => goertzel_step b.(coeff) s (F64.mul (F32.to_f64 xw.1) xw.2)) (f_zero, f_zero)
             (zip (p ++ q) b.(weights)) in
  F64.mul (goertzel_mag2 b.(coeff) s) b.(scale).

(** ** The classifier *)

(** One round of [two_means]: the means below and above the middle. *)
Definition split_means (logs : list f64) (lo hi : f64) : option (f64 * f64) :=
  let mid := F64.div (F64.add lo hi) (F64.of_Z 2) in
  let '(sl, nl, sh, nh) :=
    foldl (fun '(sl, nl, sh, nh) x =>
        if F64.ltb x mid then (F64.add sl x, S nl, sh, nh) else (sl, nl, F64.add sh x, S nh))
      (f_zero, O, f_zero, O) logs in
  if (nl =? 0)%nat || (nh =? 0)%nat then None
  else Some (F64.div sl (of_nat nl), F64.div sh (of_nat nh)).
Fixpoint means_loop (n : nat) (logs : list f64) (lo hi : f64) : option (f64 * f64) :=
  match n with
  | O => Some (lo, hi)
  | S n => '(lo, hi) ← split_means logs lo hi; means_loop n logs lo hi
  end.
Definition two_means (xs : list f64) (sep : f64) : option (f64 * f64) :=
  if (length xs <? 2)%nat then None
  else
    let logs := map m_ln xs in
    let lo := foldl f64_min (S754_infinity false) logs in
    let hi := foldl F64.max (S754_infinity true) logs in
    if F64.ltb (F64.sub hi lo) (m_ln sep) then None
    else
      '(lo, hi) ← means_loop 10 logs lo hi;
      if F64.ltb (F64.sub hi lo) (m_ln sep) then None else Some (m_exp lo, m_exp hi).

Record Classifier : Type := mk_Classifier {
  c_style : DecodeStyle; dit : f64; dah : f64; marks : list f64; gaps : list f64; group : list Element;
  emitted_any : bool; last_was_space : bool; long_rejects : Z; skip_gap_history : bool }.
Definition classifier_new (initial_wpm : f64) (style : DecodeStyle) : Classifier :=
  let dit := F64.div (F64.dec 12 1) initial_wpm in
  mk_Classifier style dit (F64.mul (F64.of_Z 3) dit) [] [] [] false false 0 false.
(** Speed and spacing set; the text's state kept. *)
Definition set_timing (dit dah : f64) (marks gaps : list f64) (rejects : Z) (skip : bool) (c : Classifier) : Classifier :=
  mk_Classifier c.(c_style) dit dah marks gaps c.(group) c.(emitted_any) c.(last_was_space) rejects skip.
Definition set_group (g : list Element) (c : Classifier) : Classifier :=
  mk_Classifier c.(c_style) c.(dit) c.(dah) c.(marks) c.(gaps) g c.(emitted_any) c.(last_was_space)
    c.(long_rejects) c.(skip_gap_history).
Definition set_emitted (any space : bool) (c : Classifier) : Classifier :=
  mk_Classifier c.(c_style) c.(dit) c.(dah) c.(marks) c.(gaps) c.(group) any space c.(long_rejects) c.(skip_gap_history).
Definition forget_timing (initial_wpm : f64) (c : Classifier) : Classifier :=
  let dit := F64.div (F64.dec 12 1) initial_wpm in
  set_timing dit (F64.mul (F64.of_Z 3) dit) [] [] 0 false c.

Definition flush_char : D Classifier () :=
  let! c := gets id in
  if bool_decide (c.(group) = []) then ret tt
  else
    let d := match decode_group_with c.(group) c.(c_style) with
             | Some t => DToken t
             | None => Unknown c.(group)
             end in
    do! update (set_group []) in
    do! emit d in
    update (set_emitted true false).
Definition word_space : D Classifier () :=
  let! c := gets id in
  when (c.(emitted_any) && negb c.(last_was_space))
    (do! emit DWordSpace in update (set_emitted c.(emitted_any) true)).

(** Setters of the two counters. *)
Definition set_rejects (n : Z) (skip : bool) (c : Classifier) : Classifier :=
  set_timing c.(dit) c.(dah) c.(marks) c.(gaps) n skip c.
Definition set_histories (marks gaps : list f64) (c : Classifier) : Classifier :=
  set_timing c.(dit) c.(dah) marks gaps c.(long_rejects) c.(skip_gap_history) c.
Definition set_speed (dit dah : f64) (c : Classifier) : Classifier :=
  set_timing dit dah c.(marks) c.(gaps) c.(long_rejects) c.(skip_gap_history) c.

Definition times (k : Z) (x : f64) : f64 := F64.mul (F64.of_Z k) x.
Definition log_mean (l : list f64) : f64 := m_exp (F64.div (f64_sum (map m_ln l)) (of_nat (length l))).

(** The element, and the speed learned from it ([mark], after the rejects). *)
Definition classify (len : f64) (c : Classifier) : result (Element * Classifier) Crash :=
  let c := set_histories (push_history c.(marks) len) c.(gaps) c in
  let c := match two_means c.(marks) (F64.dec 18 1) with Some (d, a) => set_speed d a c | None => c end in
  let threshold := f64_sqrt (F64.mul c.(dit) c.(dah)) in
  let el := if F64.ltb len threshold then Dit else Dah in
  let c :=
    if (2 <=? length c.(marks))%nat && is_none (two_means c.(marks) (F64.dec 18 1)) then
      let center := log_mean c.(marks) in
      match el with
      | Dit => set_speed center (times 3 center) c
      | Dah => set_speed (F64.div center (F64.of_Z 3)) center c
      end
    else c in
  let d := F64.clamp c.(dit) DIT_RANGE.1 DIT_RANGE.2 in
  let? a := clamp_checked c.(dah) (times 2 d) (times 5 d) in
  Ok (el, set_group (c.(group) ++ [el]) (set_speed d a c)).
Definition mark (len : f64) : D Classifier bool :=
  let! c := gets id in
  if f64_gt len (times 3 (F64.max c.(dah) (times 3 c.(dit)))) && (c.(long_rejects) <? 2) then
    do! update (set_rejects (c.(long_rejects) + 1) c.(skip_gap_history)) in
    do! flush_char in
    do! word_space in
    do! update (fun c => set_rejects c.(long_rejects) true c) in
    ret false
  else
    do! when ((2 <=? c.(long_rejects)) && f64_gt len (times 3 c.(dah))) (update (set_histories [] [])) in
    do! update (fun c => set_rejects 0 c.(skip_gap_history) c) in
    let! c := gets id in
    let! (_, c) := lift (classify len c) in
    do! update (fun _ => c) in
    ret true.

Definition intra_threshold (c : Classifier) : f64 := times 2 c.(dit).
Definition word_threshold (c : Classifier) (extra : option f64) : f64 :=
  let gaps := c.(gaps) ++ option_list extra in
  match two_means gaps (F64.dec 16 1) with
  | Some (l, w) => f64_sqrt (F64.mul l w)
  | None =>
      let base := F64.mul (F64.dec 45 1) c.(dit) in
      if bool_decide (gaps = []) then base else F64.max base (F64.mul (F64.dec 16 1) (log_mean gaps))
  end.
Definition gap_running (elapsed : f64) : D Classifier () :=
  let! c := gets id in
  when (f64_gt elapsed (intra_threshold c))
    (do! flush_char in
     let! c := gets id in
     when (f64_gt elapsed (word_threshold c (Some elapsed))) word_space).
Definition gap_ended (len : f64) : D Classifier () :=
  let! c := gets id in
  if F64.leb len (intra_threshold c) then ret tt
  else
    do! flush_char in
    let! c := gets id in
    do! when (f64_gt len (word_threshold c (Some len))) word_space in
    let! c := gets id in
    if c.(skip_gap_history) then update (set_rejects c.(long_rejects) false)
    else
      let keep := match two_means c.(gaps) (F64.dec 16 1) with
                  | Some (l, w) => F64.ltb len (times 3 (f64_sqrt (F64.mul l w)))
                  | None => F64.ltb len (times 60 c.(dit))
                  end in
      when keep (update (set_histories c.(marks) (push_history c.(gaps) len))).

(** ** The detector *)

Record Detector : Type := mk_Detector {
  d_sample_rate : f64; d_pitch : f32; fixed_window : option nat; d_len : nat; bin : GoertzelBin;
  ring : list f32; pos : nat; filled : nat; d_hop : nat; since_hop : nat; samples : Z;
  amps : list f64; floor_tick : Z; floor : f64; peak : f64; peak_decay : f64;
  warmup : option (list (f64 * f64)); warmup_hops : nat; mark_peaks : list f64; last_mark_peak : f64;
  on : bool; pending : nat; pending_t : f64; mark_start_raw : f64; last_end : option f64;
  hist : list (f64 * f64) }.
Definition P10_TO_MEAN : f64 := F64.dec 366 3.
Definition FLOOR_HOPS : nat := 500.
Definition WARMUP_S : f64 := F64.dec 3 1.
Definition MARK_PEAKS : nat := 5.

Definition set_window (len : nat) (b : GoertzelBin) (d : Detector) : Detector :=
  mk_Detector d.(d_sample_rate) d.(d_pitch) d.(fixed_window) len b d.(ring) d.(pos) d.(filled) d.(d_hop)
    d.(since_hop) d.(samples) d.(amps) d.(floor_tick) d.(floor) d.(peak) d.(peak_decay) d.(warmup) d.(warmup_hops)
    d.(mark_peaks) d.(last_mark_peak) d.(on) d.(pending) d.(pending_t) d.(mark_start_raw) d.(last_end) d.(hist).
Definition set_input (ring : list f32) (pos filled since : nat) (samples : Z) (d : Detector) : Detector :=
  mk_Detector d.(d_sample_rate) d.(d_pitch) d.(fixed_window) d.(d_len) d.(bin) ring pos filled d.(d_hop)
    since samples d.(amps) d.(floor_tick) d.(floor) d.(peak) d.(peak_decay) d.(warmup) d.(warmup_hops)
    d.(mark_peaks) d.(last_mark_peak) d.(on) d.(pending) d.(pending_t) d.(mark_start_raw) d.(last_end) d.(hist).
Definition set_floor (amps : list f64) (tick : Z) (floor : f64) (d : Detector) : Detector :=
  mk_Detector d.(d_sample_rate) d.(d_pitch) d.(fixed_window) d.(d_len) d.(bin) d.(ring) d.(pos) d.(filled) d.(d_hop)
    d.(since_hop) d.(samples) amps tick floor d.(peak) d.(peak_decay) d.(warmup) d.(warmup_hops)
    d.(mark_peaks) d.(last_mark_peak) d.(on) d.(pending) d.(pending_t) d.(mark_start_raw) d.(last_end) d.(hist).
Definition set_peak (peak : f64) (d : Detector) : Detector :=
  mk_Detector d.(d_sample_rate) d.(d_pitch) d.(fixed_window) d.(d_len) d.(bin) d.(ring) d.(pos) d.(filled) d.(d_hop)
    d.(since_hop) d.(samples) d.(amps) d.(floor_tick) d.(floor) peak d.(peak_decay) d.(warmup) d.(warmup_hops)
    d.(mark_peaks) d.(last_mark_peak) d.(on) d.(pending) d.(pending_t) d.(mark_start_raw) d.(last_end) d.(hist).
Definition set_warmup (w : option (list (f64 * f64))) (d : Detector) : Detector :=
  mk_Detector d.(d_sample_rate) d.(d_pitch) d.(fixed_window) d.(d_len) d.(bin) d.(ring) d.(pos) d.(filled) d.(d_hop)
    d.(since_hop) d.(samples) d.(amps) d.(floor_tick) d.(floor) d.(peak) d.(peak_decay) w d.(warmup_hops)
    d.(mark_peaks) d.(last_mark_peak) d.(on) d.(pending) d.(pending_t) d.(mark_start_raw) d.(last_end) d.(hist).
(** The marks' peaks, and the end of the last mark. *)
Definition set_marks (peaks : list f64) (last : f64) (last_end : option f64) (d : Detector) : Detector :=
  mk_Detector d.(d_sample_rate) d.(d_pitch) d.(fixed_window) d.(d_len) d.(bin) d.(ring) d.(pos) d.(filled) d.(d_hop)
    d.(since_hop) d.(samples) d.(amps) d.(floor_tick) d.(floor) d.(peak) d.(peak_decay) d.(warmup) d.(warmup_hops)
    peaks last d.(on) d.(pending) d.(pending_t) d.(mark_start_raw) last_end d.(hist).
Definition set_key (on : bool) (pending : nat) (pending_t start : f64) (d : Detector) : Detector :=
  mk_Detector d.(d_sample_rate) d.(d_pitch) d.(fixed_window) d.(d_len) d.(bin) d.(ring) d.(pos) d.(filled) d.(d_hop)
    d.(since_hop) d.(samples) d.(amps) d.(floor_tick) d.(floor) d.(peak) d.(peak_decay) d.(warmup) d.(warmup_hops)
    d.(mark_peaks) d.(last_mark_peak) on pending pending_t start d.(last_end) d.(hist).
Definition set_hist (h : list (f64 * f64)) (d : Detector) : Detector :=
  mk_Detector d.(d_sample_rate) d.(d_pitch) d.(fixed_window) d.(d_len) d.(bin) d.(ring) d.(pos) d.(filled) d.(d_hop)
    d.(since_hop) d.(samples) d.(amps) d.(floor_tick) d.(floor) d.(peak) d.(peak_decay) d.(warmup) d.(warmup_hops)
    d.(mark_peaks) d.(last_mark_peak) d.(on) d.(pending) d.(pending_t) d.(mark_start_raw) d.(last_end) h.

Definition f64_abs (x : f64) : f64 := SFabs x.
(** [(x * rate).round().max(1.0) as usize]. *)
Definition samples_of (secs rate : f64) : nat := Z.to_nat (Z.max 1 (round_usize (F64.mul secs rate))).
Definition set_window_for (dit : f64) (sample_rate : Z) (d : Detector) : result Detector Crash :=
  let len := match d.(fixed_window) with
             | Some n => n
             | None => Z.to_nat (round_usize
                 (F64.mul (F64.clamp (F64.mul f_half dit) MIN_WINDOW_S MAX_WINDOW_S) d.(d_sample_rate)))
             end in
  if (length d.(ring) <? 1)%nat then Err OutOfRange
  else
    let len := Nat.min (Nat.max len 1) (length d.(ring)) in
    if (d.(d_len) =? 0)%nat
       || f64_gt (f64_abs (F64.sub (of_nat len) (of_nat d.(d_len)))) (F64.mul (F64.dec 15 2) (of_nat d.(d_len)))
    then Ok (set_window len (bin_new sample_rate d.(d_pitch) len) d)
    else Ok d.
Definition detector_new (cfg : DecoderConfig) (pitch : f32) (dit : f64) : result Detector Crash :=
  let sr := F64.of_Z cfg.(sample_rate) in
  let hop := samples_of (as_secs_f64 cfg.(hop)) sr in
  let window_s := match cfg.(window) with Some w => as_secs_f64 w | None => f_zero end in
  let max_len := (Z.to_nat (ceil_usize (F64.mul (F64.max MAX_WINDOW_S window_s) sr)) + 1)%nat in
  let hop_s := F64.div (of_nat hop) sr in
  let peak_decay := m_powf (F64.of_Z 10) (F64.div (F64.mul (F64.of_Z (-6)) hop_s) (F64.of_Z 20)) in
  set_window_for dit cfg.(sample_rate)
    (mk_Detector sr pitch ((fun w => samples_of (as_secs_f64 w) sr) <$> cfg.(window)) 0
       (bin_new cfg.(sample_rate) pitch 1) (replicate max_len (F32.of_Z 0)) 0 0 hop 0 0
       [] 0 f_zero f_zero peak_decay (Some []) (Nat.max (Z.to_nat (ceil_usize (F64.div WARMUP_S hop_s))) 1)
       [] f_zero false 0 f_zero f_zero None []).

(** The last [len] samples, from a ring in one or two pieces. *)
Definition amplitude (d : Detector) : result f64 Crash :=
  let n := d.(d_len) in
  let cap := length d.(ring) in
  if (d.(pos) + cap <? n)%nat || (cap =? 0)%nat then Err OutOfRange
  else
    let start := ((d.(pos) + cap - n) mod cap)%nat in
    let p := if (start + n <=? cap)%nat then power d.(bin) (take n (drop start d.(ring))) []
             else power d.(bin) (drop start d.(ring)) (take ((start + n) mod cap) d.(ring)) in
    Ok (f64_sqrt (F64.mul (F64.of_Z 2) p)).
(** One sample; the time and amplitude at each hop once a window is full. *)
Definition push (x : f32) (d : Detector) : result (option (f64 * f64) * Detector) Crash :=
  let cap := length d.(ring) in
  if (cap <=? d.(pos))%nat then Err OutOfRange
  else
    let since := S d.(since_hop) in
    let due := (d.(d_hop) <=? since)%nat in
    let d := set_input (<[d.(pos) := x]> d.(ring)) (S d.(pos) mod cap) (Nat.min (S d.(filled)) cap)
               (if due then 0%nat else since) (d.(samples) + 1) d in
    if negb due || (d.(filled) <? d.(d_len))%nat then Ok (None, d)
    else
      let t := F64.div (F64.sub (F64.of_Z d.(samples)) (F64.div (of_nat d.(d_len)) (F64.of_Z 2))) d.(d_sample_rate) in
      let? a := amplitude d in
      Ok (Some (t, a), d).
Definition learn_floor (amp : f64) (d : Detector) : result Detector Crash :=
  let amps := push_bounded FLOOR_HOPS d.(amps) amp in
  let tick := wrapping_add_u32 d.(floor_tick) 1 in
  if (64 <? length amps)%nat && negb (tick mod 4 =? 0) then Ok (set_floor amps tick d.(floor) d)
  else
    let? p10 := at_index (sort amps) (length amps / 10) in
    Ok (set_floor amps tick (F64.div p10 P10_TO_MEAN) d).
Definition ref_peak (d : Detector) : result f64 Crash :=
  if (3 <=? length d.(mark_peaks))%nat then
    let? m := median d.(mark_peaks) in Ok (f64_min d.(peak) m)
  else Ok d.(peak).
Definition remember (t amp : f64) (d : Detector) : Detector := set_hist (push_bounded HIST_HOPS d.(hist) (t, amp)) d.

Definition lerp (level : f64) (p q : f64 * f64) : f64 :=
  if F64.ltb (f64_abs (F64.sub q.2 p.2)) TINY then q.1
  else F64.add p.1 (F64.mul (F64.div (F64.sub level p.2) (F64.sub q.2 p.2)) (F64.sub q.1 p.1)).
(** Where the envelope first reaches [level]. *)
Definition retime_start (level start_raw : f64) (pts : list (f64 * f64)) : result f64 Crash :=
  match position (fun p => F64.leb level p.2) pts with
  | None => Ok start_raw
  | Some O => let? p := at_index pts 0 in Ok p.1
  | Some (S i) => let? p := at_index pts i in let? q := at_index pts (S i) in Ok (lerp level p q)
  end.
(** Where it last leaves it before [end_raw]. *)
Definition retime_end (level end_raw : f64) (pts : list (f64 * f64)) : result f64 Crash :=
  match rposition (fun p => F64.leb level p.2 && F64.ltb p.1 end_raw) pts with
  | None => Ok end_raw
  | Some i =>
      if (i + 1 <? length pts)%nat then
        let? p := at_index pts i in let? q := at_index pts (i + 1) in Ok (lerp level p q)
      else Ok end_raw
  end.
Definition close_mark (end_raw : f64) (d : Detector) : result (f64 * f64 * Detector) Crash :=
  let hop := F64.div (of_nat d.(d_hop)) d.(d_sample_rate) in
  let window := F64.div (of_nat d.(d_len)) d.(d_sample_rate) in
  let start_raw := d.(mark_start_raw) in
  let peak := foldl F64.max f_zero
    (map snd (List.filter (fun p => F64.leb start_raw p.1 && F64.leb p.1 end_raw) d.(hist))) in
  let d := set_marks d.(mark_peaks) peak d.(last_end) d in
  let floor := F64.max d.(floor) (F64.mul peak (F64.dec 1 2)) in
  let level := F64.add floor (F64.mul f_half (F64.sub peak floor)) in
  let pts := List.filter (fun p => F64.leb (F64.sub (F64.sub start_raw window) (times 2 hop)) p.1
                                   && F64.leb p.1 (F64.add end_raw hop)) d.(hist) in
  let? start := retime_start level start_raw pts in
  let? end_ := retime_end level end_raw pts in
  Ok (if F64.leb end_ start then (start_raw, end_raw, d) else (start, end_, d)).

(** ** The pitch search *)

Definition AUTO_SKIRT_BINS : nat := 3.
Definition AUTO_MARGIN_HZ : f32 := F32.of_Z 100.
Definition REACQUIRE_S : f64 := F64.of_Z 2.
Definition REACQUIRE_HZ : f32 := F32.of_Z 30.
Definition INPUT_CLAMP : f32 := F32.of_Z 4.

Record AutoPitch : Type := mk_AutoPitch {
  freqs : list f32; candidates : nat * nat; block : list f32; block_len : nat; smoothed : list f64;
  buffer : list f32; buffer_cap : nat }.

(** The [loop] of [AutoPitch::new]: the bank's frequencies, and the first and
    the last of them inside the range. *)
Fixpoint bank_loop (fuel : nat) (lo hi min_hz max_hz : f32) (i : Z) (freqs : list f32) (first : option nat) (last : nat)
    : result (list f32 * option nat * nat) Crash :=
  match fuel with
  | O => Err Unfinished
  | S fuel =>
      let f := F32.add lo (F32.mul AUTO_STEP_HZ (F32.of_Z i)) in
      if F64.ltb hi f then Ok (freqs, first, last)
      else
        let n := length freqs in
        let inside := F64.leb (F32.sub min_hz (F32.dec 1 2)) f && F64.leb f (F32.add max_hz (F32.dec 1 2)) in
        let first := if inside then Some (default n first) else first in
        bank_loop fuel lo hi min_hz max_hz (i + 1) (freqs ++ [f]) first (if inside then n else last)
  end.
Definition auto_new (fuel : nat) (sample_rate : Z) (min_hz max_hz : f32) : result AutoPitch Crash :=
  let nyquist := F32.div (F32.of_Z sample_rate) (F32.of_Z 2) in
  let half_margin := F32.div PITCH_MARGIN_HZ (F32.of_Z 2) in
  let lo := F64.max (F32.sub min_hz AUTO_MARGIN_HZ) half_margin in
  let hi := f64_min (F32.add max_hz AUTO_MARGIN_HZ) (F32.sub nyquist half_margin) in
  let? (freqs, first, last) := bank_loop fuel lo hi min_hz max_hz 0 [] None 0 in
  let sr := F64.of_Z sample_rate in
  Ok (mk_AutoPitch freqs (default 0%nat first, S last) [] (Z.to_nat (round_usize (F64.mul AUTO_BLOCK_S sr)))
        (replicate (length freqs) f_zero) [] (Z.to_nat (as_u64 (F64.mul AUTO_BUFFER_S sr)))).

(** [max_by] over the candidates: the last of the greatest. *)
Fixpoint best_of (smoothed : list f64) (best : nat) (b : f64) (rest : list nat) : result nat Crash :=
  match rest with
  | [] => Ok best
  | i :: rest =>
      let? x := at_index smoothed i in
      if less x b then best_of smoothed best b rest else best_of smoothed i x rest
  end.
Definition best_candidate (smoothed : list f64) (range : nat * nat) : result (option nat) Crash :=
  match seq range.1 (range.2 - range.1) with
  | [] => Ok None
  | [i] => Ok (Some i)
  | i :: rest => let? x := at_index smoothed i in let? b := best_of smoothed i x rest in Ok (Some b)
  end.
Definition abs_diff (a b : nat) : nat := (a - b) + (b - a).
(** Between the bins, by a parabola through the log powers. *)
Definition interpolate (f : f32) (pl bp pr : f64) : f32 :=
  let l := m_ln (F64.max pl TINY) in
  let c := m_ln (F64.max bp TINY) in
  let r := m_ln (F64.max pr TINY) in
  let denom := F64.add (F64.sub l (times 2 c)) r in
  let delta := if f64_gt (f64_abs denom) (F64.dec 1 12)
               then F64.clamp (F64.div (F64.mul f_half (F64.sub l r)) denom) (F64.dec (-5) 1) f_half
               else f_zero in
  F32.add f (F32.mul (F32.of_f64 delta) AUTO_STEP_HZ).
(** The lock, if one bin stands out from the band. *)
Definition lock (freqs : list f32) (candidates : nat * nat) (smoothed : list f64) : result (option f32) Crash :=
  let? best := best_candidate smoothed candidates in
  match best with
  | None => Ok None
  | Some best =>
      let? bp := at_index smoothed best in
      let band := map snd (List.filter (fun ip => (AUTO_SKIRT_BINS <? abs_diff ip.1 best)%nat)
                             (zip (seq 0 (length smoothed)) smoothed)) in
      if bool_decide (band = []) then Ok None
      else
        let? mid := at_index (sort band) (length band / 2) in
        let reference := F64.max mid TINY in
        if F64.ltb (times 10 (m_log10 (F64.div bp reference))) AUTO_LOCK_DB then Ok None
        else
          let? f := at_index freqs best in
          match best with
          | O => Ok (Some f)
          | S prev =>
              if (best + 1 =? length freqs)%nat then Ok (Some f)
              else
                let? pl := at_index smoothed prev in
                let? pr := at_index smoothed (best + 1) in
                Ok (Some (interpolate f pl bp pr))
          end
  end.
Definition auto_feed (sample_rate : Z) (x : f32) (a : AutoPitch) : result (option f32 * AutoPitch) Crash :=
  let buffer := push_bounded a.(buffer_cap) a.(buffer) x in
  let block := a.(block) ++ [x] in
  if (length block <? a.(block_len))%nat then
    Ok (None, mk_AutoPitch a.(freqs) a.(candidates) block a.(block_len) a.(smoothed) buffer a.(buffer_cap))
  else
    let smoothed := zip_with (fun s f =>
        F64.max (F32.to_f64 (goertzel_power block sample_rate f)) (F64.mul (F64.dec 7 1) s)) a.(smoothed) a.(freqs) in
    let? p := lock a.(freqs) a.(candidates) smoothed in
    Ok (p, mk_AutoPitch a.(freqs) a.(candidates) [] a.(block_len) smoothed buffer a.(buffer_cap)).

(** ** The decoder *)

Record Decoder : Type := mk_Decoder {
  cfg : DecoderConfig; det : option Detector; cls : Classifier; squelch : f64; min_level : f64;
  auto : option AutoPitch; total : Z; last_activity : Z }.
Definition set_det (d : option Detector) (s : Decoder) : Decoder :=
  mk_Decoder s.(cfg) d s.(cls) s.(squelch) s.(min_level) s.(auto) s.(total) s.(last_activity).
Definition set_cls (c : Classifier) (s : Decoder) : Decoder :=
  mk_Decoder s.(cfg) s.(det) c s.(squelch) s.(min_level) s.(auto) s.(total) s.(last_activity).
Definition set_auto (a : option AutoPitch) (s : Decoder) : Decoder :=
  mk_Decoder s.(cfg) s.(det) s.(cls) s.(squelch) s.(min_level) a s.(total) s.(last_activity).
Definition set_times (total last : Z) (s : Decoder) : Decoder :=
  mk_Decoder s.(cfg) s.(det) s.(cls) s.(squelch) s.(min_level) s.(auto) total last.

(** The classifier's part of the decoder, and the detector's. *)
Definition on_cls {A} (m : D Classifier A) : D Decoder A := fun s =>
  let? (a, c, o) := m s.(cls) in Ok (a, set_cls c s, o).
Definition on_det {A} (f : Detector -> result (A * Detector) Crash) : D Decoder A := fun s =>
  match s.(det) with
  | None => Err NoDetector
  | Some d => let? (a, d) := f d in Ok (a, set_det (Some d) s, [])
  end.
Definition update_det (f : Detector -> result Detector Crash) : D Decoder () :=
  on_det (fun d => let? d := f d in Ok (tt, d)).
Definition the_det : D Decoder Detector := on_det (fun d => Ok (d, d)).

Definition db_level (db : f32) : f64 := m_powf (F64.of_Z 10) (F64.div (F32.to_f64 db) (F64.of_Z 20)).
(** [Decoder::new]: refused, or (in the model alone) out of fuel. *)
Definition decoder_new (fuel : nat) (cfg : DecoderConfig) : result (result Decoder Crash) DecoderError :=
  let? _ := validate cfg in
  let c := classifier_new cfg.(initial_wpm) cfg.(style) in
  Ok (let? (det, auto) :=
        match cfg.(pitch) with
        | Fixed p => let? d := detector_new cfg p c.(dit) in Ok (Some d, None)
        | Auto min_hz max_hz => let? a := auto_new fuel cfg.(sample_rate) min_hz max_hz in Ok (None, Some a)
        end in
      Ok (mk_Decoder cfg det c (db_level cfg.(squelch_db)) (db_level cfg.(min_level_dbfs)) auto 0 0)).
Definition pitch_hz (s : Decoder) : option f32 := d_pitch <$> s.(det).
Definition wpm_estimate (s : Decoder) : option f64 :=
  if bool_decide (s.(cls).(marks) = []) then None else Some (F64.div (F64.dec 12 1) s.(cls).(dit)).
Definition reset (fuel : nat) (s : Decoder) : result (result Decoder Crash) DecoderError := decoder_new fuel s.(cfg).

(** A mark has ended: [gap_ended] for the gap before it, then [mark]. *)
Definition mark_heard (edges : f64 * f64) : D Decoder () :=
  let '(start, end_) := edges in
  let len := F64.sub end_ start in
  let! d := gets det in
  match d with
  | None => ret tt
  | Some d =>
      let! c := gets cls in
      if F64.ltb len (F64.mul (F64.dec 3 1) c.(dit)) then ret tt
      else
        let! m := lift (if (3 <=? length d.(mark_peaks))%nat && F64.ltb len c.(dit)
                        then let? m := median d.(mark_peaks) in Ok (f64_gt d.(last_mark_peak) (times 3 m))
                        else Ok false) in
        if (m : bool) then ret tt
        else
          let gap := (fun e => F64.max (F64.sub start e) f_zero) <$> d.(last_end) in
          do! update (set_det (Some (set_marks (push_bounded MARK_PEAKS d.(mark_peaks) d.(last_mark_peak))
                                       d.(last_mark_peak) (Some end_) d))) in
          do! match gap with Some g => on_cls (gap_ended g) | None => ret tt end in
          let! taken := on_cls (mark len) in
          if (taken : bool) then
            let! s := gets id in
            update_det (set_window_for s.(cls).(dit) s.(cfg).(sample_rate))
          else ret tt
  end.

(** The levels of one hop: whether the key is down as it looks now. *)
Definition raw_on (s : Decoder) (d : Detector) (amp peak : f64) : bool :=
  let floor := F64.max (F64.max d.(floor) (F64.mul peak (F64.dec 1 2))) (F64.div s.(min_level) s.(squelch)) in
  let span := F64.max (F64.sub peak floor) f_zero in
  let open := f64_gt peak (F64.mul floor s.(squelch)) in
  let on_level := F64.max (F64.add floor (F64.mul (F32.to_f64 s.(cfg).(on_threshold)) span)) (F64.mul floor s.(squelch)) in
  let off_level := F64.max (F64.add floor (F64.mul (F32.to_f64 s.(cfg).(off_threshold)) span))
                     (F64.mul (F64.mul floor s.(squelch)) (F64.dec 7 1)) in
  open && (if d.(on) then f64_gt amp off_level else f64_gt amp on_level).
(** The debounce: a change of key must hold for [need] hops.  The re-timed
    edges of a mark that has ended. *)
Definition debounce (t : f64) (raw : bool) (need : nat) (d : Detector)
    : result (option (f64 * f64) * Detector) Crash :=
  if Bool.eqb raw d.(on) then Ok (None, set_key d.(on) 0 d.(pending_t) d.(mark_start_raw) d)
  else
    let at_ := if (d.(pending) =? 0)%nat then t else d.(pending_t) in
    let pending := S d.(pending) in
    if (need <=? pending)%nat then
      if raw then Ok (None, set_key raw 0 at_ at_ d)
      else let? (s, e, d) := close_mark at_ (set_key raw 0 at_ d.(mark_start_raw) d) in Ok (Some (s, e), d)
    else Ok (None, set_key d.(on) pending at_ d.(mark_start_raw) d).
Definition track_peak (amp : f64) (d : Detector) : Detector :=
  set_peak (if f64_gt amp d.(peak) then amp else F64.max (F64.mul d.(peak) d.(peak_decay)) d.(floor)) d.
Definition on_hop (t amp : f64) : D Decoder () :=
  do! update_det (fun d => Ok (track_peak amp d)) in
  let! d := the_det in
  let! peak := lift (ref_peak d) in
  let! s := gets id in
  let raw := raw_on s d amp peak in
  do! update_det (fun d => Ok (remember t amp d)) in
  let hop_s := F64.div (of_nat d.(d_hop)) d.(d_sample_rate) in
  let need := Nat.max (Z.to_nat (round_usize (F64.div (F64.mul (F64.dec 2 1) s.(cls).(dit)) hop_s))) 1 in
  let! ended := on_det (debounce t raw need) in
  let! d := the_det in
  do! when d.(on) (update (fun s => set_times s.(total) s.(total) s)) in
  do! match ended with Some edges => mark_heard edges | None => ret tt end in
  let! d' := gets det in
  match d.(on), (d' ≫= last_end) with
  | false, Some e => on_cls (gap_running (F64.sub t e))
  | _, _ => ret tt
  end.
Definition finish_warmup : D Decoder () :=
  let! d := gets det in
  match d with
  | None => ret tt
  | Some d =>
      match d.(warmup) with
      | None => ret tt
      | Some buffered =>
          do! update (set_det (Some (set_warmup None d))) in
          each (fun p => on_hop p.1 p.2) buffered
      end
  end.
Definition step (x : f32) : D Decoder () :=
  let! r := on_det (push x) in
  match r with
  | None => ret tt
  | Some (t, amp) =>
      let! d := the_det in
      match d.(warmup) with
      | Some buf =>
          let buf := buf ++ [(t, amp)] in
          do! update_det (fun d => learn_floor amp (set_peak (F64.max d.(peak) amp) (set_warmup (Some buf) d))) in
          when (d.(warmup_hops) <=? length buf)%nat finish_warmup
      | None =>
          do! when (negb d.(on)) (update_det (learn_floor amp)) in
          on_hop t amp
      end
  end.
Definition lock_on (pitch : f32) : D Decoder () :=
  let! s := gets id in
  do! match s.(det) with
      | Some _ =>
          do! on_cls flush_char in
          do! on_cls word_space in
          on_cls (update (forget_timing s.(cfg).(initial_wpm)))
      | None => ret tt
      end in
  let! s := gets id in
  let! d := lift (detector_new s.(cfg) pitch s.(cls).(dit)) in
  do! update (set_det (Some d)) in
  do! each step (match s.(auto) with Some a => a.(buffer) | None => [] end) in
  update (fun s => set_times s.(total) s.(total) s).

(** One round of [feed]'s loop. *)
Definition clean (x : f32) : f32 :=
  if F64.is_finite x then F64.clamp x (f64_neg INPUT_CLAMP) INPUT_CLAMP else F32.of_Z 0.
Definition f32_abs (x : f32) : f32 := SFabs x.
Definition relocks (s : Decoder) (p : f32) (d : Detector) : bool :=
  F64.leb REACQUIRE_HZ (f32_abs (F32.sub p d.(d_pitch))) && negb d.(on)
  && (as_u64 (F64.mul REACQUIRE_S (F64.of_Z s.(cfg).(sample_rate))) <? s.(total) - s.(last_activity)).
Definition feed_one (x : f32) : D Decoder () :=
  let x := clean x in
  do! update (fun s => set_times (s.(total) + 1) s.(last_activity) s) in
  let! s := gets id in
  match s.(auto) with
  | None => step x
  | Some a =>
      let! (p, a) := lift (auto_feed s.(cfg).(sample_rate) x a) in
      do! update (set_auto (Some a)) in
      match s.(det), p with
      | None, Some p => lock_on p
      | None, None => ret tt
      | Some d, Some p => if relocks s p d then lock_on p else step x
      | Some _, None => step x
      end
  end.
Definition feed (samples : list f32) : D Decoder () := each feed_one samples.
Definition flush : D Decoder () :=
  do! finish_warmup in
  let! d := gets det in
  do! match d with
      | Some d =>
          if d.(on) then
            let t := F64.div (F64.of_Z d.(samples)) d.(d_sample_rate) in
            let! (s, e, d) := lift (close_mark t (set_key false d.(pending) d.(pending_t) d.(mark_start_raw) d)) in
            do! update (set_det (Some d)) in
            mark_heard (s, e)
          else ret tt
      | None => ret tt
      end in
  on_cls flush_char.
Definition decode_all (fuel : nat) (cfg : DecoderConfig) (samples : list f32)
    : result (result text Crash) DecoderError :=
  let? d := decoder_new fuel cfg in
  Ok (let? d := d in
      let? (_, _, items) := (do! feed samples in flush) d in
      Ok (trim (decoded_to_text items))).
End Decoding.
