(* ===== verification/DecoderFacts.v ===== *)
(** * DecoderFacts: what is proved of the decoder

    An invariant of the decoder over all it has been fed and all it has
    emitted, kept by every operation: the text is properly spaced, the ring
    holds the last samples, the histories are bounded, and the only panic left
    is the speed clamp's own.  Then the replay after a lock: an automatic
    decoder that locks while all it heard is still buffered has missed
    nothing. *)

From Stdlib Require Import Floats.SpecFloat.
From S2P Require Import Prelude Text Morse Timing Floats Decoder.

(** ** Triples *)

Section Triples.
Context {S : Type}.
Implicit Types (P : S -> list Decoded -> Prop).

(** From a state and an output so far in [P], [m] ends in [Q] with what it
    emitted added, or crashes in the speed clamp. *)
Definition holds {A} P (m : D S A) (Q : A -> S -> list Decoded -> Prop) : Prop :=
  forall s o, P s o ->
    match m s with Ok (a, s', o') => Q a s' (o ++ o') | Err e => e = BadClamp end.

Lemma holds_ret {A} P (a : A) (Q : A -> S -> list Decoded -> Prop) :
  (forall s o, P s o -> Q a s o) -> holds P (ret a) Q.
Proof. intros H s o Hs. cbn. rewrite app_nil_r. auto. Qed.
Lemma holds_bind {A B} P (m : D S A) R (k : A -> D S B) Q :
  holds P m R -> (forall a, holds (R a) (k a) Q) -> holds P (bind m k) Q.
Proof.
  intros Hm Hk s o Hs. unfold bind. specialize (Hm s o Hs). destruct (m s) as [[[a s'] o']|e]; [|exact Hm].
  cbn [result_bind]. specialize (Hk a s' _ Hm). destruct (k a s') as [[[b s''] o'']|e]; cbn [result_bind]; [|exact Hk].
  by rewrite (assoc_L (++)).
Qed.
Lemma holds_update P f (Q : () -> S -> list Decoded -> Prop) :
  (forall s o, P s o -> Q tt (f s) o) -> holds P (update f) Q.
Proof. intros H s o Hs. cbn. rewrite app_nil_r. auto. Qed.
Lemma holds_emit P d (Q : () -> S -> list Decoded -> Prop) :
  (forall s o, P s o -> Q tt s (o ++ [d])) -> holds P (emit d) Q.
Proof. intros H s o Hs. cbn. auto. Qed.
(** [gets id] names the state. *)
Lemma holds_gets {A B} P (f : S -> A) (k : A -> D S B) Q :
  (forall s, holds (fun s' o => s' = s /\ P s' o) (k (f s)) Q) -> holds P (bind (gets f) k) Q.
Proof.
  intros H s o Hs. specialize (H s s o (conj eq_refl Hs)). unfold bind, gets. cbn [result_bind].
  destruct (k (f s) s) as [[[b s'] o']|e]; done.
Qed.
Lemma holds_lift {A B} P (r : result A Crash) (k : A -> D S B) Q :
  match r with Ok a => holds P (k a) Q | Err e => e = BadClamp end -> holds P (bind (lift r) k) Q.
Proof.
  intros H s o Hs. unfold bind, lift. destruct r as [a|e]; cbn [result_bind]; [|exact H].
  specialize (H s o Hs). destruct (k a s) as [[[b s'] o']|e]; done.
Qed.
Lemma holds_when P b m (Q : () -> S -> list Decoded -> Prop) :
  (b = true -> holds P m Q) -> (b = false -> forall s o, P s o -> Q tt s o) -> holds P (when b m) Q.
Proof. destruct b; cbn; intros H1 H2; [auto|]. by apply holds_ret, H2. Qed.
Lemma holds_weaken {A} P P' (m : D S A) Q :
  holds P m Q -> (forall s o, P' s o -> P s o) -> holds P' m Q.
Proof. intros H HP s o Hs. apply H, HP, Hs. Qed.
Lemma holds_strengthen {A} P (m : D S A) (Q Q' : A -> S -> list Decoded -> Prop) :
  holds P m Q -> (forall a s o, Q a s o -> Q' a s o) -> holds P m Q'.
Proof. intros H HQ s o Hs. specialize (H s o Hs). destruct (m s) as [[[a s'] o']|e]; auto. Qed.
(** A loop whose invariant counts what is done. *)
Lemma holds_each {A} (I : list A -> S -> list Decoded -> Prop) (f : A -> D S ()) l :
  (forall done x, holds (I done) (f x) (fun _ => I (done ++ [x]))) ->
  forall done, holds (I done) (each f l) (fun _ => I (done ++ l)).
Proof.
  intros H. induction l as [|x l IH]; intros done; cbn [each].
  - apply holds_ret. intros s o. by rewrite app_nil_r.
  - eapply holds_bind; [apply H|]. intros []. eapply holds_strengthen; [apply IH|].
    intros [] s o. by rewrite <- (assoc_L (++)).
Qed.
End Triples.

(** ** The text *)

(** What the decoder may write: the reading of a group of elements. *)
Definition glyph (st : DecodeStyle) (d : Decoded) : Prop :=
  exists g, g <> [] /\ d = match decode_group_with g st with Some t => DToken t | None => Unknown g end.
(** Output with its spaces single and none first, and the classifier's two
    flags of it. *)
Inductive wrote (st : DecodeStyle) : list Decoded -> bool -> bool -> Prop :=
| wrote_nil : wrote st [] false false
| wrote_glyph o any sp d : wrote st o any sp -> glyph st d -> wrote st (o ++ [d]) true false
| wrote_space o : wrote st o true false -> wrote st (o ++ [DWordSpace]) true true.

Definition Written (c : Classifier) (o : list Decoded) : Prop :=
  wrote c.(c_style) o c.(emitted_any) c.(last_was_space).

#[local] Arguments decode_group_with : simpl never.

Section Facts.
Context {X : Maths}.
Implicit Types (c : Classifier) (o : list Decoded) (d : Detector).

Lemma flush_char_holds : holds Written flush_char (fun _ => Written).
Proof.
  unfold flush_char. apply holds_gets. intros c. cbn [id]. case_bool_decide as Hg.
  { apply holds_ret. intros s o [_ H]. exact H. }
  intros s o (-> & Hw). cbn. unfold Written in *. cbn. eapply wrote_glyph; [exact Hw|]. by eexists.
Qed.
Lemma word_space_holds : holds Written word_space (fun _ => Written).
Proof.
  unfold word_space. apply holds_gets. intros c. cbn [id]. apply holds_when.
  - intros Hb. apply andb_true_iff in Hb as [Ha Hs%negb_true_iff].
    intros s o (-> & Hw). cbn. unfold Written in *. cbn. rewrite Ha, Hs in *. by apply wrote_space.
  - intros _ s o [_ H]. exact H.
Qed.

(** ** The classifier *)

Lemma push_bounded_length {A} cap (l : list A) x :
  (1 <= cap)%nat -> (length l <= cap)%nat -> (length (push_bounded cap l x) <= cap)%nat.
Proof.
  intros Hc Hl. unfold push_bounded. rewrite length_app. cbn [length].
  destruct (Nat.eqb_spec (length l) cap); [rewrite length_drop|]; lia.
Qed.
Lemma push_bounded_nonempty {A} cap (l : list A) x : push_bounded cap l x <> [].
Proof. unfold push_bounded. by destruct (if (length l =? cap)%nat then drop 1 l else l). Qed.

(** A learned dot is a plausible one; in particular it is a number. *)
Definition dot_ok (x : f64) : Prop := F64.leb DIT_RANGE.1 x = true /\ F64.leb x DIT_RANGE.2 = true.
Record CI (c : Classifier) (o : list Decoded) : Prop := mk_CI {
  ci_written : Written c o;
  ci_marks : (length c.(marks) <= HISTORY)%nat;
  ci_gaps : (length c.(gaps) <= HISTORY)%nat;
  ci_rejects : 0 <= c.(long_rejects) <= 2;
  ci_dot : c.(marks) = [] \/ dot_ok c.(dit) }.

(** The text's two operations leave the timing alone. *)
Definition same_timing (c c' : Classifier) : Prop :=
  c'.(dit) = c.(dit) /\ c'.(dah) = c.(dah) /\ c'.(marks) = c.(marks) /\ c'.(gaps) = c.(gaps)
  /\ c'.(long_rejects) = c.(long_rejects) /\ c'.(skip_gap_history) = c.(skip_gap_history).
Lemma flush_char_timing c : exists o c', flush_char c = Ok (tt, c', o) /\ same_timing c c'.
Proof.
  unfold flush_char, bind, gets, update, emit, ret, id. cbn [result_bind].
  destruct (bool_decide _); cbn; by repeat eexists.
Qed.
Lemma word_space_timing c : exists o c', word_space c = Ok (tt, c', o) /\ same_timing c c'.
Proof.
  unfold word_space, when, bind, gets, update, emit, ret, id. cbn [result_bind].
  destruct (_ && _); cbn; by repeat eexists.
Qed.
Lemma CI_text c c' o o' : CI c o -> same_timing c c' -> Written c' o' -> CI c' o'.
Proof.
  intros [Hw Hm Hg Hr Hd] (E1 & E2 & E3 & E4 & E5 & E6) Hw'. split; [exact Hw'|..]; rewrite ?E1, ?E3, ?E4, ?E5; assumption.
Qed.
Lemma flush_char_CI : holds CI flush_char (fun _ => CI).
Proof.
  intros c o Hc. pose proof (flush_char_holds c o (ci_written _ _ Hc)) as Hw.
  destruct (flush_char_timing c) as (o' & c' & E & Ht). rewrite E in *. exact (CI_text _ _ _ _ Hc Ht Hw).
Qed.
Lemma word_space_CI : holds CI word_space (fun _ => CI).
Proof.
  intros c o Hc. pose proof (word_space_holds c o (ci_written _ _ Hc)) as Hw.
  destruct (word_space_timing c) as (o' & c' & E & Ht). rewrite E in *. exact (CI_text _ _ _ _ Hc Ht Hw).
Qed.

(** Setting the timing keeps the text. *)
Lemma CI_timing c o x a ms gs r k :
  CI c o -> (length ms <= HISTORY)%nat -> (length gs <= HISTORY)%nat -> 0 <= r <= 2 -> ms = [] \/ dot_ok x ->
  CI (set_timing x a ms gs r k c) o.
Proof. intros [Hw Hm Hg Hr Hd] ????. by split. Qed.
Lemma CI_group c o g : CI c o -> CI (set_group g c) o.
Proof. intros [Hw Hm Hg Hr Hd]. by split. Qed.
Lemma CI_rejects c o r k : CI c o -> 0 <= r <= 2 -> CI (set_rejects r k c) o.
Proof. intros H ?. pose proof H as [Hw Hm Hg Hr Hd]. by apply CI_timing. Qed.
Lemma CI_forget c o w : CI c o -> CI (forget_timing w c) o.
Proof. intros H. apply CI_timing; [done|cbn; unfold HISTORY; lia..|lia|by left]. Qed.

(** A dot that is not a number does not get past the clamp on the dash. *)
Lemma dit_range_dot x :
  let d := F64.clamp x DIT_RANGE.1 DIT_RANGE.2 in F64.leb (times 2 d) (times 5 d) = true -> dot_ok d.
Proof.
  intros d Hd. destruct (clamp_range x DIT_RANGE.1 DIT_RANGE.2) as [Hn|H]; [vm_compute; reflexivity..| |exact H].
  fold d in Hn. revert Hd. generalize dependent d. intros d Hn Hd. by destruct d.
Qed.
Lemma classify_CI len c o :
  CI c o -> match classify len c with Ok (_, c') => CI c' o | Err e => e = BadClamp end.
Proof.
  intros [Hw Hm Hg Hr Hd]. unfold classify, clamp_checked. cbv zeta.
  match goal with |- context [F64.leb ?x ?y] => destruct (F64.leb x y) eqn:Hle end; cbn [result_bind]; [|done]. apply CI_group.
  assert (Hms : (length (push_history c.(marks) len) <= HISTORY)%nat)
    by (apply push_bounded_length; [unfold HISTORY; lia|done]).
  unfold set_speed, set_histories. split.
  - clear Hle. unfold Written in *. repeat case_match; exact Hw.
  - clear Hle. repeat case_match; exact Hms.
  - clear Hle. repeat case_match; exact Hg.
  - clear Hle. repeat case_match; exact Hr.
  - right. exact (dit_range_dot _ Hle).
Qed.

Lemma ret_CI {A} (a : A) : holds CI (ret a) (fun _ => CI).
Proof. by apply holds_ret. Qed.
Lemma drop_state {S A} (P : S -> list Decoded -> Prop) s0 (m : D S A) Q :
  holds P m Q -> holds (fun s o => s = s0 /\ P s o) m Q.
Proof. intros H. eapply holds_weaken; [exact H|]. by intros s o []. Qed.
Lemma when_CI b m : holds CI m (fun _ => CI) -> holds CI (when b m) (fun _ => CI).
Proof. intros H. by apply holds_when. Qed.

Lemma mark_CI len : holds CI (mark len) (fun _ => CI).
Proof.
  unfold mark. apply holds_gets. intros c. cbn [id]. destruct (_ && _) eqn:Hb.
  - apply andb_true_iff in Hb as [_ Hr%Z.ltb_lt].
    eapply holds_bind; [apply holds_update with (Q := fun _ => CI)|intros []].
    { intros s o [-> H]. pose proof (ci_rejects _ _ H). apply CI_rejects; [done|lia]. }
    eapply holds_bind; [apply flush_char_CI|intros []]. eapply holds_bind; [apply word_space_CI|intros []].
    eapply holds_bind; [apply holds_update with (Q := fun _ => CI)|intros []; apply ret_CI].
    intros s o H. apply CI_rejects; [done|apply (ci_rejects _ _ H)].
  - apply drop_state. eapply holds_bind; [apply when_CI, holds_update|intros []].
    { intros s o H. pose proof H as [Hw Hm Hg Hr Hd]. apply CI_timing; [done|cbn; unfold HISTORY; lia..|done|by left]. }
    eapply holds_bind; [apply holds_update with (Q := fun _ => CI)|intros []].
    { intros s o H. apply CI_rejects; [done|lia]. }
    apply holds_gets. intros c'. cbn [id].
    intros s o [-> H]. pose proof (classify_CI len c' o H) as Hk. unfold bind, lift.
    destruct (classify len c') as [[el c'']|e]; [|exact Hk]. cbn. by rewrite app_nil_r.
Qed.
Lemma gap_running_CI t : holds CI (gap_running t) (fun _ => CI).
Proof.
  unfold gap_running. apply holds_gets. intros c. cbn [id]. apply drop_state, when_CI.
  eapply holds_bind; [apply flush_char_CI|intros []]. apply holds_gets. intros c'. cbn [id].
  apply drop_state, when_CI, word_space_CI.
Qed.
Lemma gap_ended_CI t : holds CI (gap_ended t) (fun _ => CI).
Proof.
  unfold gap_ended. apply holds_gets. intros c. cbn [id]. apply drop_state.
  destruct (F64.leb _ _); [apply ret_CI|].
  eapply holds_bind; [apply flush_char_CI|intros []]. apply holds_gets. intros c'. cbn [id]. apply drop_state.
  eapply holds_bind; [apply when_CI, word_space_CI|intros []]. apply holds_gets. intros c''. cbn [id].
  destruct (skip_gap_history c''); [|apply holds_when; [intros _|by intros _ s o []]].
  - apply holds_update. intros s o [-> H]. apply CI_rejects; [done|apply (ci_rejects _ _ H)].
  - apply holds_update. intros s o [-> H]. pose proof H as [Hw Hm Hg Hr Hd]. apply CI_timing; [done|done| |done|done].
    apply push_bounded_length; [unfold HISTORY; lia|done].
Qed.

(** ** The ring *)

Definition last_n {A} (n : nat) (l : list A) : list A := drop (length l - n) l.
Lemma last_n_app {A} n (l k : list A) : (n <= length k)%nat -> last_n n (l ++ k) = last_n n k.
Proof.
  intros H. unfold last_n. rewrite length_app, drop_app_ge by lia. f_equal. lia.
Qed.
Lemma last_n_all {A} n (l : list A) : (length l <= n)%nat -> last_n n l = l.
Proof. intros H. unfold last_n. by replace (length l - n)%nat with 0%nat by lia. Qed.
Lemma last_n_length {A} n (l : list A) : (n <= length l)%nat -> length (last_n n l) = n.
Proof. intros H. unfold last_n. rewrite length_drop. lia. Qed.
Lemma last_n_last_n {A} n m (l : list A) : (n <= m)%nat -> last_n n (last_n m l) = last_n n l.
Proof. intros H. unfold last_n. rewrite length_drop, drop_drop. f_equal. lia. Qed.
Lemma last_n_snoc {A} n (l : list A) x :
  (1 <= n)%nat -> (n <= length l)%nat -> last_n n (l ++ [x]) = drop 1 (last_n n l) ++ [x].
Proof.
  intros H1 H2. unfold last_n. rewrite length_app, drop_drop. cbn [length].
  rewrite drop_app_le by lia. do 2 f_equal. lia.
Qed.

(** The ring read from its oldest sample. *)
Definition reading {A} (pos : nat) (ring : list A) : list A := drop pos ring ++ take pos ring.
Lemma reading_push {A} pos (ring : list A) x : (pos < length ring)%nat ->
  reading (S pos mod length ring) (<[pos := x]> ring) = drop 1 (reading pos ring) ++ [x].
Proof.
  intros Hp. destruct (lookup_lt_is_Some_2 ring pos Hp) as [y Hy].
  apply list_elem_of_split_length in Hy as (a & b & -> & ->).
  rewrite insert_app_r_alt, Nat.sub_diag by lia. cbn [list_insert]. change (<[0%nat:=x]> (y :: b)) with (x :: b).
  unfold reading. rewrite drop_app_length, take_app_length. cbn [drop app]. rewrite ?drop_0.
  rewrite length_app. cbn [length]. destruct b as [|z b].
  - cbn [length app]. replace (length a + 1)%nat with (S (length a)) by lia. rewrite Nat.Div0.mod_same. by rewrite app_nil_r.
  - rewrite Nat.mod_small by (cbn [length]; lia).
    replace (S (length a)) with (length (a ++ [x])) by (rewrite length_app; cbn; lia).
    replace (a ++ x :: z :: b) with ((a ++ [x]) ++ z :: b) by (by rewrite <- (assoc_L (++))).
    rewrite drop_app_length, take_app_length. by rewrite !(assoc_L (++)).
Qed.
(** The window [amplitude] reads, in its one or two pieces. *)
Lemma reading_window {A} pos (ring : list A) n :
  (pos < length ring)%nat -> (1 <= n <= length ring)%nat ->
  let start := ((pos + length ring - n) mod length ring)%nat in
  last_n n (reading pos ring) =
    if (start + n <=? length ring)%nat then take n (drop start ring)
    else drop start ring ++ take ((start + n) mod length ring) ring.
Proof.
  intros Hp Hn start. unfold last_n, reading. rewrite length_app, length_drop, length_take_le by lia.
  replace (length ring - pos + pos - n)%nat with (length ring - n)%nat by lia.
  destruct (decide (n <= pos)%nat) as [H|H].
  - assert (start = pos - n)%nat as ->.
    { unfold start. replace (pos + length ring - n)%nat with (pos - n + 1 * length ring)%nat by lia.
      rewrite Nat.Div0.mod_add. apply Nat.mod_small. lia. }
    replace (pos - n + n <=? length ring)%nat with true by (symmetry; apply Nat.leb_le; lia).
    rewrite drop_app_ge by (rewrite length_drop; lia). rewrite length_drop, skipn_firstn_comm. f_equal; [lia|]. f_equal. lia.
  - assert (start = pos + length ring - n)%nat as -> by (apply Nat.mod_small; lia).
    rewrite drop_app_le by (rewrite length_drop; lia). rewrite drop_drop.
    replace (pos + (length ring - n))%nat with (pos + length ring - n)%nat by lia.
    destruct (Nat.leb_spec (pos + length ring - n + n) (length ring)) as [H'|H'].
    + assert (pos = 0)%nat as -> by lia. cbn [take]. rewrite app_nil_r. rewrite take_ge; [done|]. rewrite length_drop. lia.
    + do 2 f_equal. replace (pos + length ring - n + n)%nat with (pos + 1 * length ring)%nat by lia.
      rewrite Nat.Div0.mod_add. symmetry. apply Nat.mod_small. lia.
Qed.

(** ** The detector *)

(** A detector that has been given [xs]. *)
Record Det (xs : list f32) (d : Detector) : Prop := mk_Det {
  det_pos : (d.(pos) < length d.(ring))%nat;
  det_len : (1 <= d.(d_len) <= length d.(ring))%nat;
  det_ring : reading d.(pos) d.(ring) =
    last_n (length d.(ring)) (replicate (length d.(ring)) (F32.of_Z 0) ++ xs);
  det_filled : d.(filled) = Nat.min (length xs) (length d.(ring));
  det_samples : d.(samples) = Z.of_nat (length xs);
  det_amps : (length d.(amps) <= FLOOR_HOPS)%nat;
  det_peaks : (length d.(mark_peaks) <= MARK_PEAKS)%nat;
  det_hist : (length d.(hist) <= HIST_HOPS)%nat }.

(** Setting what the invariant does not speak of. *)
Lemma Det_key xs d b n t s : Det xs d -> Det xs (set_key b n t s d).
Proof. intros []. by split. Qed.
Lemma Det_peak xs d p : Det xs d -> Det xs (set_peak p d).
Proof. intros []. by split. Qed.
Lemma Det_warmup xs d w : Det xs d -> Det xs (set_warmup w d).
Proof. intros []. by split. Qed.
Lemma Det_marks xs d ps l e : (length ps <= MARK_PEAKS)%nat -> Det xs d -> Det xs (set_marks ps l e d).
Proof. intros ? []. by split. Qed.
Lemma Det_remember xs d t a : Det xs d -> Det xs (remember t a d).
Proof. intros []. split; try done. apply push_bounded_length; [unfold HIST_HOPS; lia|done]. Qed.
Lemma Det_window xs d n b : (1 <= n <= length d.(ring))%nat -> Det xs d -> Det xs (set_window n b d).
Proof. intros ? []. by split. Qed.

Lemma insert_sorted_length x l : length (insert_sorted x l) = S (length l).
Proof. induction l as [|y l IH]; cbn; [done|]. destruct (less y x); cbn; congruence. Qed.
Lemma sort_length l : length (sort l) = length l.
Proof. unfold sort. induction l as [|x l IH]; cbn [foldr length]; [done|]. by rewrite insert_sorted_length, IH. Qed.
Lemma at_index_ok {A} (l : list A) i : (i < length l)%nat -> exists x, at_index l i = Ok x.
Proof. intros H. unfold at_index. destruct (lookup_lt_is_Some_2 l i H) as [x ->]. by exists x. Qed.
Lemma median_ok l : l <> [] -> exists x, median l = Ok x.
Proof.
  intros H. unfold median. apply at_index_ok. rewrite sort_length. destruct l; [done|]. apply Nat.div_lt; cbn [length]; lia.
Qed.
Lemma ref_peak_ok d : exists x, ref_peak d = Ok x.
Proof.
  unfold ref_peak. destruct (Nat.leb_spec 3 (length (mark_peaks d))); [|by eexists].
  destruct (median_ok (mark_peaks d)) as [m ->]; [by destruct (mark_peaks d); cbn in *; [lia|]|]. by eexists.
Qed.
Lemma learn_floor_ok xs d a : Det xs d -> exists d', learn_floor a d = Ok d' /\ Det xs d'.
Proof.
  intros Hd. pose proof Hd as []. unfold learn_floor. cbv zeta.
  assert (Hl : (length (push_bounded FLOOR_HOPS (amps d) a) <= FLOOR_HOPS)%nat)
    by (apply push_bounded_length; [unfold FLOOR_HOPS; lia|done]).
  destruct (_ && _); [eexists; split; [done|by split]|].
  destruct (at_index_ok (sort (push_bounded FLOOR_HOPS (amps d) a)) (length (push_bounded FLOOR_HOPS (amps d) a) / 10))
    as [p ->]; [|eexists; split; [done|by split]].
  rewrite sort_length. pose proof (push_bounded_nonempty FLOOR_HOPS (amps d) a) as Hne.
  destruct (push_bounded _ _ _); [done|]. apply Nat.div_lt; cbn [length]; lia.
Qed.

Lemma position_lt {A} (f : A -> bool) l i : position f l = Some i -> (i < length l)%nat.
Proof.
  revert i; induction l as [|x l IH]; intros i; cbn; [done|]. destruct (f x); [intros [= <-]; lia|].
  destruct (position f l); cbn; [|done]. intros [= <-]. specialize (IH _ eq_refl). lia.
Qed.
Lemma retime_start_ok level s pts : exists x, retime_start level s pts = Ok x.
Proof.
  unfold retime_start. destruct (position _ pts) as [[|i]|] eqn:E; [..|by eexists]; apply position_lt in E.
  - destruct (at_index_ok pts 0 E) as [p ->]. by eexists.
  - destruct (at_index_ok pts i) as [p ->]; [lia|]. destruct (at_index_ok pts (S i) E) as [q ->]. by eexists.
Qed.
Lemma retime_end_ok level e pts : exists x, retime_end level e pts = Ok x.
Proof.
  unfold retime_end. destruct (rposition _ pts) as [i|]; [|by eexists].
  destruct (Nat.ltb_spec (i + 1) (length pts)); [|by eexists].
  destruct (at_index_ok pts i) as [p ->]; [lia|]. destruct (at_index_ok pts (i + 1)) as [q ->]; [lia|]. by eexists.
Qed.
Lemma close_mark_ok xs d t : Det xs d -> exists s e d', close_mark t d = Ok (s, e, d') /\ Det xs d'.
Proof.
  intros Hd. unfold close_mark. cbv zeta.
  match goal with |- context [retime_start ?l ?s ?p] => destruct (retime_start_ok l s p) as [s' ->] end.
  match goal with |- context [retime_end ?l ?s ?p] => destruct (retime_end_ok l s p) as [e' ->] end.
  cbn [result_bind].
  assert (H : forall l, Det xs (set_marks (mark_peaks d) l (last_end d) d)) by (intros; apply Det_marks; [apply Hd|done]).
  destruct (F64.leb e' s'); (eexists _, _, _; split; [done|apply H]).
Qed.
Lemma set_window_for_ok xs d x sr : Det xs d -> exists d', set_window_for x sr d = Ok d' /\ Det xs d'.
Proof.
  intros Hd. pose proof (det_len _ _ Hd). unfold set_window_for. cbv zeta.
  destruct (Nat.ltb_spec (length (ring d)) 1); [lia|].
  destruct (_ || _); eexists; (split; [done|]); [apply Det_window; [lia|]|]; done.
Qed.
Lemma debounce_ok xs d t raw need : Det xs d -> exists e d', debounce t raw need d = Ok (e, d') /\ Det xs d'.
Proof.
  intros Hd. unfold debounce. cbv zeta. destruct (Bool.eqb _ _); [eexists _, _; split; [done|by apply Det_key]|].
  destruct (_ <=? _)%nat; [|eexists _, _; split; [done|by apply Det_key]].
  destruct raw; [eexists _, _; split; [done|by apply Det_key]|].
  match goal with |- context [close_mark ?t ?d] => destruct (close_mark_ok xs d t) as (s & e & d' & -> & Hd') end;
    [by apply Det_key|]. by eexists _, _.
Qed.

(** Filling in: what a push does to what the detector has been given. *)
Lemma push_ok xs x d : Det xs d -> exists r d', push x d = Ok (r, d') /\ Det (xs ++ [x]) d' /\
  forall t a, r = Some (t, a) ->
    (d'.(d_len) <= length (xs ++ [x]))%nat /\
    t = F64.div (F64.sub (F64.of_Z (Z.of_nat (length (xs ++ [x])))) (F64.div (of_nat d'.(d_len)) (F64.of_Z 2))) d'.(d_sample_rate) /\
    a = f64_sqrt (F64.mul (F64.of_Z 2) (power d'.(bin) (last_n d'.(d_len) (xs ++ [x])) [])).
Proof.
  intros [Hp Hl Hr Hf Hs Ha Hm Hh]. unfold push. cbv zeta. destruct (Nat.leb_spec (length (ring d)) (pos d)); [lia|].
  set (d' := set_input _ _ _ _ _ d). set (cap := length (ring d)) in *.
  assert (Hcap : length (ring d') = cap) by apply length_insert.
  assert (Hxs : length (xs ++ [x]) = S (length xs)) by (rewrite length_app; cbn; lia).
  assert (Hd' : Det (xs ++ [x]) d').
  { split; cbn [d' set_input pos ring filled samples d_len amps mark_peaks hist]; rewrite ?length_insert; fold cap; try done.
    - apply Nat.mod_upper_bound. lia.
    - rewrite (assoc_L (++)), last_n_snoc by (rewrite ?length_app, ?length_replicate; lia). rewrite <- Hr. by apply reading_push.
    - rewrite Hf, Hxs. lia.
    - rewrite Hs, Hxs. lia. }
  destruct (negb _ || _) eqn:Hb; [exists None, d'; by split|].
  apply orb_false_iff in Hb as [_ Hb%Nat.ltb_ge].
  unfold amplitude. rewrite Hcap. pose proof Hd' as [Hp' Hl' Hr' Hf' Hs' _ _ _]. rewrite Hcap in Hp', Hl', Hr', Hf'.
  replace ((pos d' + cap <? d_len d')%nat || (cap =? 0)%nat) with false by (symmetry; apply orb_false_iff; split; [apply Nat.ltb_ge|apply Nat.eqb_neq]; lia).
  cbn [result_bind]. eexists _, d'. split; [done|]. split; [done|]. intros t a Hta.
  apply (inj Some), pair_equal_spec in Hta as [<- <-]. split; [lia|]. rewrite <- Hs'. split; [reflexivity|]. do 2 f_equal.
  pose proof (reading_window (pos d') (ring d') (d_len d') ltac:(lia) ltac:(lia)) as Hw. cbv zeta in Hw. rewrite Hcap, Hr' in Hw.
  rewrite last_n_last_n, last_n_app in Hw by lia. rewrite Hw.
  match goal with |- (if ?b then _ else _) = _ => destruct b end; [reflexivity|]. unfold power. by rewrite app_nil_r.
Qed.

(** ** The search *)

(** The candidates are bins of the bank. *)
Record AutoOk (a : AutoPitch) : Prop := mk_AutoOk {
  auto_smoothed : length a.(smoothed) = length a.(freqs);
  auto_candidates : (a.(candidates).1 < a.(candidates).2 <= length a.(freqs))%nat }.

Lemma best_of_ok l rest : Forall (fun i => i < length l)%nat rest -> forall best b,
  (best < length l)%nat -> exists k, best_of l best b rest = Ok k /\ (k < length l)%nat.
Proof.
  induction 1 as [|i rest Hi _ IH]; intros best b Hb; cbn; [by exists best|].
  destruct (at_index_ok l i Hi) as [x ->]. cbn [result_bind]. destruct (less x b); auto.
Qed.
Lemma best_candidate_ok l (r : nat * nat) : (r.1 < r.2 <= length l)%nat ->
  exists k, best_candidate l r = Ok (Some k) /\ (k < length l)%nat.
Proof.
  intros H. unfold best_candidate.
  assert (Hs : Forall (fun i => i < length l)%nat (seq r.1 (r.2 - r.1))).
  { apply Forall_forall. intros i Hi%elem_of_seq. lia. }
  destruct (seq r.1 (r.2 - r.1)) as [|i rest] eqn:E.
  { apply (f_equal length) in E. rewrite length_seq in E. cbn in E. lia. }
  apply Forall_cons in Hs as [Hi Hr]. destruct rest as [|j rest]; [by exists i|].
  destruct (at_index_ok l i Hi) as [x ->]. cbn [result_bind].
  destruct (best_of_ok l (j :: rest) Hr i x Hi) as (k & -> & Hk). by exists k.
Qed.
Lemma lock_ok fs r l :
  length l = length fs -> (r.1 < r.2 <= length fs)%nat -> exists p, lock fs r l = Ok p.
Proof.
  intros Hl Hr. unfold lock. rewrite <- Hl in Hr. destruct (best_candidate_ok l r Hr) as (k & -> & Hk). cbn [result_bind].
  destruct (at_index_ok l k Hk) as [bp ->]. cbn [result_bind]. case_bool_decide as Hb; [by eexists|].
  match goal with |- context [at_index (sort ?b) (length ?b / 2)] => destruct (at_index_ok (sort b) (length b / 2)) as [m ->] end.
  { rewrite sort_length. destruct (map snd _); [done|]. apply Nat.div_lt; cbn [length]; lia. }
  cbn [result_bind]. destruct (F64.ltb _ _); [by eexists|].
  destruct (at_index_ok fs k) as [f ->]; [lia|]. cbn [result_bind]. destruct k as [|k]; [by eexists|].
  destruct (Nat.eqb_spec (S k + 1) (length fs)); [by eexists|].
  destruct (at_index_ok l k) as [x ->]; [lia|]. destruct (at_index_ok l (S k + 1)) as [y ->]; [lia|]. by eexists.
Qed.
Lemma auto_feed_ok sr x a : AutoOk a ->
  exists p a', auto_feed sr x a = Ok (p, a') /\ AutoOk a' /\
    a'.(buffer) = push_bounded a.(buffer_cap) a.(buffer) x /\ a'.(buffer_cap) = a.(buffer_cap).
Proof.
  intros [Hs Hc]. unfold auto_feed. cbv zeta. destruct (_ <? _)%nat; [eexists _, _; split; [done|split; [by split|done]]|].
  match goal with |- context [lock ?f ?r ?l] => destruct (lock_ok f r l) as [p ->]; [rewrite length_zip_with; lia|done|] end.
  cbn [result_bind]. eexists _, _. split; [done|]. split; [|done]. split; cbn; [rewrite length_zip_with; lia|done].
Qed.

(** The first bin inside the range is not after the last one. *)
Definition bank_ok (fs : list f32) (first : option nat) (last : nat) : Prop :=
  (last < length fs \/ fs = [] /\ last = 0)%nat /\ (forall k, first = Some k -> k <= last /\ k < length fs)%nat.
Lemma bank_loop_ok fuel lo hi mn mx i fs first last fs' first' last' :
  bank_ok fs first last -> bank_loop fuel lo hi mn mx i fs first last = Ok (fs', first', last') ->
  bank_ok fs' first' last'.
Proof.
  revert i fs first last; induction fuel as [|fuel IH]; intros i fs first last [Hl Hf]; cbn [bank_loop]; [done|].
  destruct (F64.ltb hi _); [intros [= <- <- <-]; by split|].
  apply IH. split; rewrite length_app; cbn [length]; destruct (_ && _); [lia|lia|..]; intros k.
  - destruct first as [f|]; cbn; intros [= <-]; [|lia]. specialize (Hf f eq_refl). lia.
  - intros Hk. specialize (Hf k Hk). lia.
Qed.
Lemma auto_new_ok fuel sr mn mx a : auto_new fuel sr mn mx = Ok a -> a.(freqs) <> [] -> AutoOk a.
Proof.
  unfold auto_new. cbv zeta. intros H Hne. apply result_bind_ok in H as ([[fs first] last] & Hb & H).
  injection H as <-. cbn [freqs] in Hne. apply bank_loop_ok in Hb as [Hl Hf]; [|split; [by right|done]].
  assert (last < length fs)%nat by (destruct Hl as [|[-> _]]; done).
  split; cbn; [apply length_replicate|]. destruct first as [k|]; cbn; [specialize (Hf k eq_refl)|]; lia.
Qed.

(** ** The decoder *)

Section Running.
(** What is known of the pitch search, which a running detector leaves alone. *)
Context (search : option AutoPitch -> Prop).

Definition Rest (s : Decoder) (o : list Decoded) : Prop :=
  CI s.(cls) o /\ search s.(auto) /\ s.(last_activity) <= s.(total).
(** A decoder with a detector that has been given [xs]. *)
Definition Run (xs : list f32) (s : Decoder) (o : list Decoded) : Prop :=
  (exists d, s.(det) = Some d /\ Det xs d) /\ Rest s o.

Lemma on_cls_rest {A} (P : option Detector -> Prop) (m : D Classifier A) :
  holds CI m (fun _ => CI) ->
  holds (fun s o => P s.(det) /\ Rest s o) (on_cls m) (fun _ s o => P s.(det) /\ Rest s o).
Proof.
  intros Hm s o (Hp & Hc & Hr). unfold on_cls. specialize (Hm _ _ Hc). destruct (m (cls s)) as [[[a c] o']|e]; [|exact Hm].
  split; [exact Hp|]. split; [exact Hm|exact Hr].
Qed.
Lemma on_cls_run {A} xs (m : D Classifier A) : holds CI m (fun _ => CI) -> holds (Run xs) (on_cls m) (fun _ => Run xs).
Proof. apply (on_cls_rest (fun x => exists d, x = Some d /\ Det xs d)). Qed.
Lemma on_det_run {A} xs xs' (f : Detector -> result (A * Detector) Crash) :
  (forall d, Det xs d -> exists a d', f d = Ok (a, d') /\ Det xs' d') ->
  holds (Run xs) (on_det f) (fun _ => Run xs').
Proof.
  intros Hf s o [(d & Ed & Hd) Hr]. unfold on_det. rewrite Ed. destruct (Hf d Hd) as (a & d' & -> & Hd').
  cbn [result_bind]. rewrite app_nil_r. split; [by exists d'|exact Hr].
Qed.
Lemma update_det_run xs f :
  (forall d, Det xs d -> exists d', f d = Ok d' /\ Det xs d') -> holds (Run xs) (update_det f) (fun _ => Run xs).
Proof. intros Hf. apply on_det_run. intros d Hd. destruct (Hf d Hd) as (d' & -> & Hd'). by exists tt, d'. Qed.
Lemma update_run xs (f : Decoder -> Decoder) :
  (forall s o, Run xs s o -> Run xs (f s) o) -> holds (Run xs) (update f) (fun _ => Run xs).
Proof. intros H. by apply holds_update. Qed.
Lemma ret_run {A} xs (a : A) : holds (Run xs) (ret a) (fun _ => Run xs).
Proof. by apply holds_ret. Qed.
Lemma when_run xs b m : holds (Run xs) m (fun _ => Run xs) -> holds (Run xs) (when b m) (fun _ => Run xs).
Proof. intros H. by apply holds_when. Qed.
(** Naming the detector. *)
Lemma the_det_run {B} xs (k : Detector -> D Decoder B) Q :
  (forall d, Det xs d -> holds (Run xs) (k d) Q) -> holds (Run xs) (bind the_det k) Q.
Proof.
  intros Hk s o Hs. pose proof Hs as [(d & Ed & Hd) Hr]. specialize (Hk d Hd s o Hs).
  unfold bind, the_det, on_det. rewrite Ed. cbn [result_bind].
  replace (set_det (Some d) s) with s by (destruct s; cbn in *; by subst).
  destruct (k d s) as [[[b s'] o']|e]; done.
Qed.
Lemma gets_det_run {B} xs (k : option Detector -> D Decoder B) Q :
  (forall d, Det xs d -> holds (Run xs) (k (Some d)) Q) -> holds (Run xs) (bind (gets det) k) Q.
Proof.
  intros Hk. apply holds_gets. intros s s' o [-> Hs]. pose proof Hs as [(d & Ed & Hd) _]. rewrite Ed. by apply Hk.
Qed.
Lemma gets_run {A B} xs (f : Decoder -> A) (k : A -> D Decoder B) Q :
  (forall a, holds (Run xs) (k a) Q) -> holds (Run xs) (bind (gets f) k) Q.
Proof. intros Hk. apply holds_gets. intros s. apply drop_state, Hk. Qed.
Lemma run_bind {A B} xs (m : D Decoder A) (k : A -> D Decoder B) Q :
  holds (Run xs) m (fun _ => Run xs) -> (forall a, holds (Run xs) (k a) Q) -> holds (Run xs) (bind m k) Q.
Proof. intros Hm Hk. by eapply holds_bind; [exact Hm|]. Qed.

(** Putting back a detector that was read and changed. *)
Lemma put_det_run xs d : Det xs d -> holds (Run xs) (update (set_det (Some d))) (fun _ => Run xs).
Proof. intros Hd. apply update_run. intros s o [_ Hr]. split; [by exists d|exact Hr]. Qed.
Lemma mark_heard_run xs edges : holds (Run xs) (mark_heard edges) (fun _ => Run xs).
Proof.
  unfold mark_heard. destruct edges as [start end_]. cbv zeta. apply gets_det_run. intros d Hd.
  apply gets_run. intros c. destruct (F64.ltb _ _); [apply ret_run|]. apply holds_lift.
  match goal with |- match ?r with _ => _ end => assert (Hr : exists b : bool, r = Ok b) end.
  { destruct (_ && _) eqn:Hb; [|by eexists]. apply andb_true_iff in Hb as [Hb%Nat.leb_le _].
    destruct (median_ok (mark_peaks d)) as [m ->]; [by destruct (mark_peaks d); cbn in Hb; [lia|]|]. by eexists. }
  destruct Hr as [b ->]. destruct b; [apply ret_run|]. apply run_bind; [|intros []].
  { apply put_det_run, Det_marks; [|done]. apply push_bounded_length; [unfold MARK_PEAKS; lia|apply Hd]. }
  apply run_bind; [|intros []].
  { destruct (_ <$> _); [apply on_cls_run, gap_ended_CI|apply ret_run]. }
  apply run_bind; [apply on_cls_run, mark_CI|intros taken]. destruct taken; [|apply ret_run].
  apply gets_run. intros s. apply update_det_run. intros d' Hd'. by apply set_window_for_ok.
Qed.
Lemma on_hop_run xs t a : holds (Run xs) (on_hop t a) (fun _ => Run xs).
Proof.
  unfold on_hop. apply run_bind; [|intros []].
  { apply update_det_run. intros d Hd. eexists. split; [done|by apply Det_peak]. }
  apply the_det_run. intros d Hd. apply holds_lift. destruct (ref_peak_ok d) as [peak ->].
  apply gets_run. intros s. cbv zeta. apply run_bind; [|intros []].
  { apply update_det_run. intros d' Hd'. eexists. split; [done|by apply Det_remember]. }
  apply run_bind; [apply on_det_run; intros d' Hd'; by apply debounce_ok|intros ended].
  apply the_det_run. intros d' Hd'. apply run_bind; [|intros []].
  { apply when_run, update_run. intros s' o (Hx & Hc & Ha & Hl). split; [exact Hx|]. split; [exact Hc|]. split; [exact Ha|cbn; lia]. }
  apply run_bind; [|intros []].
  { destruct ended as [edges|]; [apply mark_heard_run|apply ret_run]. }
  apply gets_run. intros d''. destruct (on d'); [apply ret_run|].
  destruct (_ ≫= _) as [e|]; [apply on_cls_run, gap_running_CI|apply ret_run].
Qed.
Lemma finish_warmup_run xs : holds (Run xs) finish_warmup (fun _ => Run xs).
Proof.
  unfold finish_warmup. apply gets_det_run. intros d Hd. destruct (warmup d) as [buffered|]; [|apply ret_run].
  apply run_bind; [by apply put_det_run, Det_warmup|intros []].
  apply (holds_each (fun _ => Run xs) _ _ (fun _ p => on_hop_run xs p.1 p.2) []).
Qed.
Lemma step_run xs x : holds (Run xs) (step x) (fun _ => Run (xs ++ [x])).
Proof.
  unfold step. eapply holds_bind; [apply on_det_run|intros r].
  { intros d Hd. destruct (push_ok xs x d Hd) as (r & d' & E & Hd' & _). by exists r, d'. }
  destruct r as [[t a]|]; [|apply ret_run]. apply the_det_run. intros d Hd. destruct (warmup d) as [buf|].
  - apply run_bind; [|intros []; apply when_run, finish_warmup_run].
    apply update_det_run. intros d' Hd'. by apply learn_floor_ok, Det_peak, Det_warmup.
  - apply run_bind; [|intros []; apply on_hop_run]. apply when_run, update_det_run. intros d' Hd'. by apply learn_floor_ok.
Qed.

Lemma detector_new_ok cf p x : exists d, detector_new cf p x = Ok d /\ Det [] d.
Proof.
  unfold detector_new, set_window_for. cbv zeta. cbn [ring fixed_window d_len d_sample_rate d_pitch].
  rewrite length_replicate. set (n := Z.to_nat _). replace (n + 1 <? 1)%nat with false by (symmetry; apply Nat.ltb_ge; lia).
  rewrite orb_true_l. eexists. split; [done|].
  split; cbn [set_window pos ring d_len filled samples amps mark_peaks hist]; rewrite ?length_replicate;
    try (cbn [length]; lia).
  unfold reading. cbn [drop take]. rewrite !app_nil_r, last_n_all by (rewrite length_replicate; lia). done.
Qed.
(** After a lock the detector has been given what was buffered. *)
Lemma lock_on_run p (buf : list f32) :
  (forall x, search x -> buffer <$> x = Some buf) -> holds Rest (lock_on p) (fun _ => Run buf).
Proof.
  intros Hbuf. unfold lock_on. apply holds_gets. intros s0. cbn [id].
  assert (Hcls : forall m : D Classifier (), holds CI m (fun _ => CI) -> holds Rest (on_cls m) (fun _ => Rest)).
  { intros m Hm. apply (on_cls_rest (fun _ => True)) in Hm.
    eapply holds_weaken; [eapply holds_strengthen; [exact Hm|]|]; cbv beta; tauto. }
  eapply (holds_bind _ _ (fun _ => Rest)); [apply drop_state|intros []].
  { destruct (det s0); [|by apply holds_ret]. eapply holds_bind; [apply Hcls, flush_char_CI|intros []].
    eapply holds_bind; [apply Hcls, word_space_CI|intros []]. apply Hcls, holds_update. intros c o Hc. by apply CI_forget. }
  apply holds_gets. intros s. cbn [id]. apply holds_lift.
  destruct (detector_new_ok (cfg s) p (dit (cls s))) as (d & -> & Hd).
  eapply (holds_bind _ _ (fun _ s' o => Run [] s' o /\ (buffer <$> auto s) = Some buf)); [apply holds_update|intros []].
  { intros s' o (-> & Hr). split; [split; [by exists d|exact Hr]|]. apply Hbuf, Hr. }
  assert (Hs : holds (Run []) (do! each step buf in update (fun s => set_times s.(total) s.(total) s)) (fun _ => Run buf)).
  { eapply holds_bind; [apply (holds_each Run _ _ step_run [])|intros []].
    apply update_run. intros s' o (Hx & Hc & Ha & Hl). split; [exact Hx|]. split; [exact Hc|]. split; [exact Ha|cbn; lia]. }
  intros s' o [Hrun Hb]. destruct (auto s) as [a|]; [|done]. injection Hb as <-. by apply Hs.
Qed.
Lemma flush_run xs : holds (Run xs) flush (fun _ => Run xs).
Proof.
  unfold flush. apply run_bind; [apply finish_warmup_run|intros []]. apply gets_det_run. intros d Hd.
  apply run_bind; [|intros []; apply on_cls_run, flush_char_CI]. destruct (on d); [|apply ret_run]. cbv zeta.
  apply holds_lift. match goal with |- context [close_mark ?t ?d] => destruct (close_mark_ok xs d t) as (s & e & d' & -> & Hd') end.
  { by apply Det_key. }
  apply run_bind; [by apply put_det_run|intros []; apply mark_heard_run].
Qed.
End Running.

(** A fixed decoder's detector has been given all that was fed. *)
Lemma feed_fixed xs ys :
  holds (Run (fun x => x = None) xs) (feed ys) (fun _ => Run (fun x => x = None) (xs ++ map clean ys)).
Proof.
  assert (H : holds (Run (fun x => x = None) (xs ++ map clean [])) (feed ys)
            (fun _ => Run (fun x => x = None) (xs ++ map clean ([] ++ ys)))).
  { apply (holds_each (fun done => Run (fun x => x = None) (xs ++ map clean done))). intros done x.
    unfold feed_one. cbv zeta. rewrite map_app, (assoc_L (++)). cbn [map].
    eapply holds_bind; [apply update_run|intros []].
    { intros s o (Hx & Hc & Ha & Hl). split; [exact Hx|]. split; [exact Hc|]. split; [exact Ha|cbn; lia]. }
    apply holds_gets. intros s s' o [-> Hs]. cbn [id]. pose proof Hs as (_ & _ & Ha & _). rewrite Ha. by apply step_run. }
  by rewrite app_nil_r in H.
Qed.

Definition in_bank (x : option AutoPitch) : Prop := forall a, x = Some a -> AutoOk a.
Definition Sound (s : Decoder) (o : list Decoded) : Prop :=
  Rest in_bank s o /\ match s.(det) with Some d => exists xs, Det xs d | None => is_Some s.(auto) end.
(** The same, and locked on to a pitch when [l] says so. *)
Definition Locked (l : bool) (s : Decoder) (o : list Decoded) : Prop := Sound s o /\ (l = true -> is_Some s.(det)).
Lemma run_locked P xs s o l : (forall x, P x -> in_bank x) -> Run P xs s o -> Locked l s o.
Proof.
  intros HP [(d & Ed & Hd) (Hc & Ha & Hl)]. split; [|by rewrite Ed].
  split; [split; [done|split; [auto|done]]|]. rewrite Ed. by exists xs.
Qed.
(** The three ways a round of [feed] goes on, from the state it is in then. *)
Lemma step_locked x d s o l : s.(det) = Some d -> (exists xs, Det xs d) -> Rest in_bank s o ->
  match step x s with Ok (_, s', o') => Locked l s' (o ++ o') | Err e => e = BadClamp end.
Proof.
  intros Ed [xs Hx] Hr. pose proof (step_run in_bank xs x s o) as H.
  specialize (H ltac:(split; [by exists d|exact Hr])). destruct (step x s) as [[[[] s'] o']|e]; [|exact H].
  by eapply run_locked.
Qed.
Lemma lock_on_locked p a s o l : s.(auto) = Some a -> Rest in_bank s o ->
  match lock_on p s with Ok (_, s', o') => Locked l s' (o ++ o') | Err e => e = BadClamp end.
Proof.
  intros Ea (Hc & Ha & Hl).
  pose proof (lock_on_run (eq (Some a)) p (buffer a) ltac:(by intros ? <-) s o (conj Hc (conj (eq_sym Ea) Hl))) as H.
  destruct (lock_on p s) as [[[[] s'] o']|e]; [|exact H]. eapply run_locked; [|exact H].
  intros ? <- ? [= <-]. by apply Ha.
Qed.
Lemma feed_one_locked l x : holds (Locked l) (feed_one x) (fun _ => Locked l).
Proof.
  unfold feed_one. cbv zeta. eapply (holds_bind _ _ (fun _ => Locked l)); [apply holds_update|intros []].
  { intros s o (((Hc & Ha & Hl) & Hd) & Hk). split; [|exact Hk]. split; [|exact Hd]. split; [exact Hc|]. split; [exact Ha|cbn; lia]. }
  apply holds_gets. intros s. cbn [id]. intros s' o [-> [[Hr Hd] Hk]]. destruct (auto s) as [a|] eqn:Ea.
  2: { destruct (det s) as [d|] eqn:Ed; [by eapply step_locked|]. destruct Hd; congruence. }
  pose proof Hr as (Hc & Ha & Hl). destruct (auto_feed_ok (sample_rate (cfg s)) (clean x) a (Ha a Ea)) as (p & a' & E & Ha' & Hb & _).
  unfold bind at 1, lift. rewrite E. cbn [result_bind]. unfold bind at 1, update. cbn [result_bind].
  assert (Hr' : Rest in_bank (set_auto (Some a') s) o).
  { split; [exact Hc|]. split; [|exact Hl]. intros a0 Ea0. cbn in Ea0. injection Ea0 as <-. exact Ha'. }
  destruct (det s) as [d|] eqn:Ed, p as [p|].
  - pose proof (lock_on_locked p a' (set_auto (Some a') s) o l eq_refl Hr') as H1.
    pose proof (step_locked (clean x) d (set_auto (Some a') s) o l Ed Hd Hr') as H2.
    destruct (relocks s p d); [destruct (lock_on _ _) as [[[[] s''] o'']|e]|destruct (step _ _) as [[[[] s''] o'']|e]]; done.
  - pose proof (step_locked (clean x) d (set_auto (Some a') s) o l Ed Hd Hr') as H2.
    destruct (step _ _) as [[[[] s''] o'']|e]; done.
  - pose proof (lock_on_locked p a' (set_auto (Some a') s) o l eq_refl Hr') as H1.
    destruct (lock_on _ _) as [[[[] s''] o'']|e]; done.
  - cbn. rewrite app_nil_r. split; [split; [exact Hr'|cbn; by rewrite Ed]|]. cbn. rewrite Ed. exact Hk.
Qed.
Lemma feed_locked l ys : holds (Locked l) (feed ys) (fun _ => Locked l).
Proof. apply (holds_each (fun _ => Locked l) _ _ (fun _ => feed_one_locked l) []). Qed.
Lemma feed_sound ys : holds Sound (feed ys) (fun _ => Sound).
Proof.
  eapply holds_weaken; [eapply holds_strengthen; [apply (feed_locked false ys)|]|]; [by intros [] s o []|by split].
Qed.
Lemma run_sound P xs s o : (forall x, P x -> in_bank x) -> Run P xs s o -> Sound s o.
Proof. intros HP H. by destruct (run_locked P xs s o false HP H). Qed.
Lemma flush_sound : holds Sound flush (fun _ => Sound).
Proof.
  intros s o [Hr Hd]. destruct (det s) as [d|] eqn:Ed.
  - destruct Hd as [xs Hd]. pose proof (flush_run in_bank xs s o) as H.
    specialize (H ltac:(split; [by exists d|done])). destruct (flush s) as [[[[] s'] o']|e]; [|exact H]. by eapply run_sound.
  - pose proof (on_cls_rest (eq (auto s)) (fun x => x = None) flush_char flush_char_CI s o) as H.
    destruct Hr as (Hc & Ha & Hl). specialize (H ltac:(done)).
    unfold flush, finish_warmup, bind, gets. cbn [result_bind]. rewrite Ed. cbn [ret result_bind]. rewrite Ed. cbn [ret result_bind].
    destruct (on_cls flush_char s) as [[[[] s'] o']|e]; [|exact H]. destruct H as (Ed' & Hc' & Ha' & Hl').
    cbn [result_bind app]. split; [split; [done|split; [by rewrite <- Ha'|done]]|]. by rewrite Ed', <- Ha'.
Qed.

Lemma Ok_inj {A E} (x y : A) : @Ok A E x = Ok y -> x = y.
Proof. by intros [=]. Qed.
Lemma decoder_new_sound fuel cf s : decoder_new fuel cf = Ok (Ok s) ->
  (forall a, s.(auto) = Some a -> a.(freqs) <> []) -> Sound s [].
Proof.
  unfold decoder_new. intros H Hb. apply result_bind_ok in H as (_ & _ & H). apply Ok_inj in H.
  apply result_bind_ok in H as ([dt au] & Hp & H). apply Ok_inj in H as <-. cbn [auto] in Hb.
  split; [split; [split; [apply wrote_nil|cbn; unfold HISTORY; lia..|cbn; lia|by left]|split; [|cbn; lia]]|]; cbn [auto det] in *; destruct (pitch cf).
  - apply result_bind_ok in Hp as (d & _ & [= <- <-]). by intros ?.
  - apply result_bind_ok in Hp as (a & Ha & [= <- <-]). intros a' [= <-]. eapply auto_new_ok; [exact Ha|by apply Hb].
  - apply result_bind_ok in Hp as (d & Hd & [= <- <-]).
    destruct (detector_new_ok cf hz (dit (classifier_new (initial_wpm cf) (style cf)))) as (d' & E & Hd').
    rewrite E in Hd. injection Hd as <-. by eexists.
  - apply result_bind_ok in Hp as (a & Ha & [= <- <-]). by eexists.
Qed.
End Facts.
