(* ===== verification/DecoderLock.v ===== *)
(** * DecoderLock: finding the pitch costs nothing

    Two decoders that differ only in how they know their pitch run alike
    through [step]; an automatic decoder's lock replays what it buffered, so
    it then stands where one set to that pitch from the start does. *)

From Stdlib Require Import Floats.SpecFloat.
From S2P Require Import Prelude Text Morse Timing Floats Decoder DecoderFacts.

Definition at_pitch (p : f32) (c : DecoderConfig) : DecoderConfig :=
  mk_DecoderConfig c.(sample_rate) (Fixed p) c.(hop) c.(window) c.(on_threshold) c.(off_threshold) c.(initial_wpm)
    c.(squelch_db) c.(min_level_dbfs) c.(style).

Section Alike.
Context {X : Maths} (p : f32).

(** The same but for the search, the clock and the pitch setting. *)
Record twin (s f : Decoder) : Prop := mk_twin {
  twin_cfg : f.(cfg) = at_pitch p s.(cfg); twin_det : f.(det) = s.(det); twin_cls : f.(cls) = s.(cls);
  twin_squelch : f.(squelch) = s.(squelch); twin_min : f.(min_level) = s.(min_level); twin_auto : f.(auto) = None }.

Definition same_outcome {A} (r r' : result (A * Decoder * list Decoded) Crash) : Prop :=
  match r, r' with
  | Ok (a, s, o), Ok (a', f, o') => a = a' /\ o = o' /\ twin s f
  | Err e, Err e' => e = e'
  | _, _ => False
  end.
Definition alike {A} (m m' : D Decoder A) : Prop := forall s f, twin s f -> same_outcome (m s) (m' f).

Lemma alike_ret {A} (a : A) : alike (ret a) (ret a).
Proof. by intros s f H. Qed.
Lemma alike_bind {A B} (m m' : D Decoder A) (k k' : A -> D Decoder B) :
  alike m m' -> (forall a, alike (k a) (k' a)) -> alike (bind m k) (bind m' k').
Proof.
  intros Hm Hk s f H. specialize (Hm s f H). unfold bind.
  destruct (m s) as [[[a s'] o]|e], (m' f) as [[[a' f'] o']|e']; try done. destruct Hm as (<- & <- & H').
  specialize (Hk a s' f' H'). cbn [result_bind].
  destruct (k a s') as [[[b s''] o'']|e], (k' a f') as [[[b' f''] o''']|e']; try done. by destruct Hk as (<- & <- & H'').
Qed.
Lemma alike_gets {A B} (g : Decoder -> A) (k k' : A -> D Decoder B) :
  (forall s f, twin s f -> alike (k (g s)) (k' (g f))) -> alike (bind (gets g) k) (bind (gets g) k').
Proof.
  intros Hk s f H. specialize (Hk s f H s f H). unfold bind, gets. cbn [result_bind].
  destruct (k (g s) s) as [[[b s'] o]|e], (k' (g f) f) as [[[b' f'] o']|e']; done.
Qed.
Lemma alike_update (g g' : Decoder -> Decoder) : (forall s f, twin s f -> twin (g s) (g' f)) -> alike (update g) (update g').
Proof. intros Hg s f H. split; [done|]. split; [done|by apply Hg]. Qed.
Lemma alike_lift {A B} (r : result A Crash) (k k' : A -> D Decoder B) :
  (forall a, alike (k a) (k' a)) -> alike (bind (lift r) k) (bind (lift r) k').
Proof.
  intros Hk. apply alike_bind; [|done]. intros s f H. unfold lift. by destruct r.
Qed.
Lemma alike_on_cls {A} (m : D Classifier A) : alike (on_cls m) (on_cls m).
Proof.
  intros s f [Hc Hd Hl Hs Hm Ha]. unfold on_cls. rewrite Hl. destruct (m (cls s)) as [[[a c] o]|e]; cbn; [|done].
  by repeat split.
Qed.
Lemma alike_on_det {A} (g : Detector -> result (A * Detector) Crash) : alike (on_det g) (on_det g).
Proof.
  intros s f [Hc Hd Hl Hs Hm Ha]. unfold on_det. rewrite Hd. destruct (det s) as [d|]; [|done].
  destruct (g d) as [[a d']|e]; cbn; [|done]. by repeat split.
Qed.
Lemma alike_set_det d : alike (update (set_det d)) (update (set_det d)).
Proof. apply alike_update. intros s f []. by split. Qed.
Lemma alike_when b m m' : alike m m' -> alike (when b m) (when b m').
Proof. intros H. destruct b; [exact H|apply alike_ret]. Qed.
Lemma alike_gets_det {B} (k : option Detector -> D Decoder B) : (forall d, alike (k d) (k d)) -> alike (bind (gets det) k) (bind (gets det) k).
Proof. intros Hk. apply alike_gets. intros s f H. rewrite (twin_det s f H). apply Hk. Qed.

Create HintDb alike discriminated.
Hint Resolve alike_ret alike_on_cls alike_on_det alike_set_det : alike.

Lemma alike_mark_heard edges : alike (mark_heard edges) (mark_heard edges).
Proof.
  unfold mark_heard. destruct edges as [start end_]. cbv zeta. apply alike_gets_det. intros [d|]; [|apply alike_ret].
  apply alike_gets. intros s f H. rewrite (twin_cls s f H). destruct (F64.ltb _ _); [apply alike_ret|].
  apply alike_lift. intros []; [apply alike_ret|]. apply alike_bind; [apply alike_set_det|intros []].
  apply alike_bind; [destruct (_ <$> _); auto with alike|intros []].
  apply alike_bind; [apply alike_on_cls|intros []; [|apply alike_ret]].
  apply alike_gets. intros s' f' H'. cbn [id]. rewrite (twin_cls s' f' H'), (twin_cfg s' f' H'). apply alike_on_det.
Qed.
Lemma alike_on_hop t a : alike (on_hop t a) (on_hop t a).
Proof.
  unfold on_hop. apply alike_bind; [apply alike_on_det|intros []]. apply alike_bind; [apply alike_on_det|intros d].
  apply alike_lift. intros peak. apply alike_gets. intros s f H. cbn [id]. cbv zeta.
  assert (raw_on f d a peak = raw_on s d a peak) as ->.
  { unfold raw_on. by rewrite (twin_cfg s f H), (twin_squelch s f H), (twin_min s f H). }
  rewrite (twin_cls s f H). apply alike_bind; [apply alike_on_det|intros []].
  apply alike_bind; [apply alike_on_det|intros ended]. apply alike_bind; [apply alike_on_det|intros d'].
  apply alike_bind; [apply alike_when, alike_update; intros s' f' []; by split|intros []].
  apply alike_bind; [destruct ended; [apply alike_mark_heard|apply alike_ret]|intros []].
  apply alike_gets_det. intros d''. destruct (on d'); [apply alike_ret|]. destruct (_ ≫= _); auto with alike.
Qed.
Lemma alike_each {A} (g : A -> D Decoder ()) l : (forall x, alike (g x) (g x)) -> alike (each g l) (each g l).
Proof. intros Hg. induction l as [|x l IH]; cbn [each]; [apply alike_ret|]. by apply alike_bind. Qed.
Lemma alike_finish_warmup : alike finish_warmup finish_warmup.
Proof.
  unfold finish_warmup. apply alike_gets_det. intros [d|]; [|apply alike_ret]. destruct (warmup d); [|apply alike_ret].
  apply alike_bind; [apply alike_set_det|intros []]. apply alike_each. intros x. apply alike_on_hop.
Qed.
Lemma alike_step x : alike (step x) (step x).
Proof.
  unfold step. apply alike_bind; [apply alike_on_det|intros [[t a]|]; [|apply alike_ret]].
  apply alike_bind; [apply alike_on_det|intros d]. destruct (warmup d).
  - apply alike_bind; [apply alike_on_det|intros []]. apply alike_when, alike_finish_warmup.
  - apply alike_bind; [apply alike_when, alike_on_det|intros []]. apply alike_on_hop.
Qed.
(** Steps on one side, [feed] to a fixed decoder on the other. *)
Lemma alike_feed ys : alike (each step (map clean ys)) (feed ys).
Proof.
  unfold feed. induction ys as [|y ys IH]; cbn [each map]; [apply alike_ret|]. apply alike_bind; [|intros []; exact IH].
  intros s f H. unfold feed_one, bind at 1, update. cbn [result_bind].
  assert (H' : twin s (set_times (total f + 1) (last_activity f) f)) by (destruct H; by split).
  pose proof (alike_step (clean y) s _ H') as Hs. unfold bind, gets, id. cbn [result_bind]. rewrite (twin_auto _ _ H').
  destruct (step (clean y) s) as [[[[] s'] o]|e], (step (clean y) _) as [[[[] f'] o']|e']; done.
Qed.
End Alike.

Section Lock.
Context {X : Maths}.

(** One round before the lock. *)
Lemma feed_one_unlocked x s a q a' :
  s.(det) = None -> s.(auto) = Some a -> auto_feed s.(cfg).(sample_rate) (clean x) a = Ok (q, a') ->
  let s' := set_auto (Some a') (set_times (s.(total) + 1) s.(last_activity) s) in
  feed_one x s = match q with None => Ok (tt, s', []) | Some p => lock_on p s' end.
Proof.
  intros Hd Ha Hf s'. unfold feed_one, bind at 1, update at 1. cbn [result_bind]. unfold bind at 1, gets, id. cbn [result_bind].
  cbn [set_times auto det cfg]. rewrite Ha. unfold bind at 1, lift. rewrite Hf. cbn [result_bind]. unfold bind at 1, update. cbn [result_bind].
  fold s'. rewrite Hd. destruct q as [p|]; [|done]. by destruct (lock_on p s') as [[[[] s''] o]|e].
Qed.
Lemma each_cons {S A} (f : A -> D S ()) x l s : each f (x :: l) s =
  match f x s with
  | Ok (_, s', o) => match each f l s' with Ok (_, s'', o') => Ok (tt, s'', o ++ o') | Err e => Err e end
  | Err e => Err e
  end.
Proof. cbn [each]. unfold bind. destruct (f x s) as [[[[] s'] o]|e]; [|done]. cbn. by destruct (each f l s') as [[[[] s''] o']|e]. Qed.
Lemma each_app {S A} (f : A -> D S ()) l k s : each f (l ++ k) s =
  match each f l s with
  | Ok (_, s', o) => match each f k s' with Ok (_, s'', o') => Ok (tt, s'', o ++ o') | Err e => Err e end
  | Err e => Err e
  end.
Proof.
  revert s; induction l as [|x l IH]; intros s; cbn [app]; [change (each f [] s) with (@Ok (() * S * list Decoded) Crash (tt, s, [])); cbn match; by destruct (each f k s) as [[[[] s'] o]|e]|].
  rewrite !each_cons. destruct (f x s) as [[[[] s'] o]|e]; [|done]. rewrite IH. destruct (each f l s') as [[[[] s''] o']|e]; [|done].
  destruct (each f k s'') as [[[[] s'''] o'']|e]; [|done]. by rewrite (assoc_L (++)).
Qed.
Lemma push_bounded_room {A} cap (l : list A) x : (length l < cap)%nat -> push_bounded cap l x = l ++ [x].
Proof. intros H. unfold push_bounded. by destruct (Nat.eqb_spec (length l) cap); [lia|]. Qed.

(** While it has not locked, an automatic decoder only fills its buffer. *)
Lemma unlocked_feed xs s a o0 s' o :
  Sound s o0 -> s.(det) = None -> s.(auto) = Some a -> (length a.(buffer) + length xs <= a.(buffer_cap))%nat ->
  feed xs s = Ok (tt, s', o) -> s'.(det) = None ->
  o = [] /\ exists a' t, s' = set_auto (Some a') (set_times t s.(last_activity) s) /\
    a'.(buffer) = a.(buffer) ++ map clean xs /\ a'.(buffer_cap) = a.(buffer_cap) /\ AutoOk a' /\ s.(last_activity) <= t.
Proof.
  revert s a o0 o; induction xs as [|x xs IH]; intros s a o0 o Hs Hd Ha Hcap Hf Hd'.
  { injection Hf as <- <-. split; [done|]. destruct Hs as [(_ & Hb & Hl) _]. exists a, (total s).
    rewrite app_nil_r. split; [destruct s; cbn in *; by subst|]. auto. }
  pose proof Hs as [(Hc & Hb & Hl) _].
  destruct (auto_feed_ok (sample_rate (cfg s)) (clean x) a (Hb a Ha)) as (q & a1 & E & Ha1 & Hbuf & Hcap1).
  unfold feed in Hf. rewrite each_cons, (feed_one_unlocked x s a q a1 Hd Ha E) in Hf. fold (@feed X xs) in Hf.
  set (s1 := set_auto (Some a1) _) in Hf.
  assert (Hs1 : Rest in_bank s1 o0).
  { split; [exact Hc|]. split; [|cbn; lia]. intros ? [= <-]. exact Ha1. }
  destruct q as [p|].
  - exfalso. pose proof (lock_on_locked p a1 s1 o0 true eq_refl Hs1) as Hlk.
    destruct (lock_on p s1) as [[[[] s2] o2]|e]; [|done]. pose proof (feed_locked true xs s2 _ Hlk) as Hk.
    destruct (feed xs s2) as [[[[] s3] o3]|e]; [|done]. injection Hf as <- <-. destruct Hk as [_ Hk].
    destruct (Hk eq_refl). congruence.
  - destruct (feed xs s1) as [[[[] s3] o3]|e] eqn:E1; [|done]. injection Hf as <- <-.
    rewrite push_bounded_room in Hbuf by (cbn [length] in Hcap; lia).
    destruct (IH s1 a1 o0 o3) as (-> & a' & t & -> & Hb' & Hc' & Ha' & Hl'); try done.
    { split; [exact Hs1|]. cbn. rewrite Hd. by eexists. }
    { rewrite Hbuf, Hcap1, length_app. cbn [length] in *. lia. }
    split; [done|]. exists a', t. split; [done|]. rewrite Hb', Hbuf, Hc', Hcap1, <- (assoc_L (++)). cbn [map app].
    split; [done|]. split; [done|]. split; [done|]. cbn in Hl'. lia.
Qed.

Lemma auto_new_buffer fuel sr mn mx a : auto_new fuel sr mn mx = Ok a -> a.(buffer) = [].
Proof. unfold auto_new. cbv zeta. intros H. apply result_bind_ok in H as ([[fs fi] la] & _ & H). by apply Ok_inj in H as <-. Qed.
(** A new automatic decoder, and one set to a pitch. *)
Lemma new_auto fuel cf s a : decoder_new fuel cf = Ok (Ok s) -> s.(auto) = Some a ->
  let c := classifier_new cf.(initial_wpm) cf.(style) in
  s = mk_Decoder cf None c (db_level cf.(squelch_db)) (db_level cf.(min_level_dbfs)) (Some a) 0 0 /\ a.(buffer) = [].
Proof.
  intros H Ha c. unfold decoder_new in H. apply result_bind_ok in H as (_ & _ & H). apply Ok_inj in H.
  apply result_bind_ok in H as ([dt au] & H & Es). apply Ok_inj in Es. subst s. cbn [auto] in Ha. subst au.
  destruct (pitch cf); apply result_bind_ok in H as (y & Hy & H); apply Ok_inj in H; [done|].
  apply pair_equal_spec in H as [<- Hya]. apply (inj Some) in Hya as ->. split; [done|]. by eapply auto_new_buffer.
Qed.
Lemma new_fixed fuel cf p s : decoder_new fuel (at_pitch p cf) = Ok (Ok s) ->
  let c := classifier_new cf.(initial_wpm) cf.(style) in
  exists d, detector_new cf p c.(dit) = Ok d /\
    s = mk_Decoder (at_pitch p cf) (Some d) c (db_level cf.(squelch_db)) (db_level cf.(min_level_dbfs)) None 0 0.
Proof.
  intros H c. unfold decoder_new in H. apply result_bind_ok in H as (_ & _ & H). apply Ok_inj in H.
  apply result_bind_ok in H as ([dt au] & H & Es). apply Ok_inj in Es. subst s. cbn [pitch at_pitch] in H.
  apply result_bind_ok in H as (d & Hd & H). apply Ok_inj, pair_equal_spec in H as [<- <-]. exists d. by split.
Qed.
(** The lock itself, when there was no pitch: a new detector, and the buffer. *)
Lemma lock_on_first p s a : s.(det) = None -> s.(auto) = Some a -> lock_on p s =
  match detector_new s.(cfg) p s.(cls).(dit) with
  | Err e => Err e
  | Ok d =>
      match each step a.(buffer) (set_det (Some d) s) with
      | Ok (_, s', o) => Ok (tt, set_times s'.(total) s'.(total) s', o)
      | Err e => Err e
      end
  end.
Proof.
  intros Hd Ha. unfold lock_on, bind at 1, gets, id. cbn [result_bind]. rewrite Hd. unfold bind at 1, ret. cbn [result_bind].
  unfold bind at 1. cbn [result_bind]. rewrite Ha. unfold bind at 1, lift.
  destruct (detector_new _ _ _) as [d|e]; cbn [result_bind]; [|done]. unfold bind, update. cbn [result_bind].
  destruct (each step (buffer a) _) as [[[[] s'] o]|e]; cbn [result_bind]; [|done]. by rewrite app_nil_r.
Qed.

(** C30. An automatic decoder that locks on to a pitch while all it has heard is
    still in its buffer has missed nothing: its detector and classifier stand
    where those of a decoder set to that pitch stand after the same samples,
    and the same text has been emitted. *)
Theorem auto_lock_misses_nothing fuel cf s0 f0 a0 xs x s o a p a' :
  decoder_new fuel cf = Ok (Ok s0) -> s0.(auto) = Some a0 -> a0.(freqs) <> [] ->
  decoder_new fuel (at_pitch p cf) = Ok (Ok f0) ->
  (length (xs ++ [x]) <= a0.(buffer_cap))%nat ->
  feed xs s0 = Ok (tt, s, o) -> s.(det) = None ->
  s.(auto) = Some a -> auto_feed cf.(sample_rate) (clean x) a = Ok (Some p, a') ->
  match feed (xs ++ [x]) s0, feed (xs ++ [x]) f0 with
  | Ok (_, s', o'), Ok (_, f', o'') => o' = o'' /\ s'.(det) = f'.(det) /\ s'.(cls) = f'.(cls)
  | Err e, Err e' => e = e'
  | _, _ => False
  end.
Proof.
  intros Hn Ha0 Hne Hfix Hcap Hf Hd Ha Hlock.
  assert (Hs0 : Sound s0 []) by (eapply decoder_new_sound; [exact Hn|congruence]).
  destruct (new_auto _ _ _ _ Hn Ha0) as [Es0 Hb0]. destruct (new_fixed _ _ _ _ Hfix) as (d & Hdet & Ef0).
  assert (Hd0 : det s0 = None) by by rewrite Es0. rewrite length_app in Hcap. cbn [length] in Hcap.
  destruct (unlocked_feed xs s0 a0 [] s o Hs0 Hd0 Ha0) as (-> & a1 & t & Es & Hbuf & Hcap1 & Hok & Hl); try done.
  { rewrite Hb0. cbn. lia. }
  assert (Ea : a1 = a) by (rewrite Es in Ha; cbn in Ha; congruence). subst a1.
  assert (Hsr : sample_rate (cfg s) = sample_rate cf) by by rewrite Es, Es0.
  destruct (auto_feed_ok (sample_rate cf) (clean x) a Hok) as (q & a2 & E & _ & Hbuf2 & _). rewrite Hlock in E.
  apply Ok_inj, pair_equal_spec in E as [_ <-].
  rewrite Hb0 in Hbuf. rewrite push_bounded_room in Hbuf2 by (rewrite Hbuf, length_app, length_map, Hcap1; cbn; lia).
  unfold feed at 1. rewrite each_app. fold (@feed X xs). rewrite Hf. rewrite each_cons.
  rewrite <- Hsr in Hlock. rewrite (feed_one_unlocked x s a (Some p) a' Hd Ha Hlock).
  set (s1 := set_auto (Some a') _). rewrite (lock_on_first p s1 a') by done.
  replace (detector_new (cfg s1) p (dit (cls s1))) with (@Ok Detector Crash d) by (by unfold s1; rewrite Es, Es0).
  assert (Htwin : twin p (set_det (Some d) s1) f0) by (unfold s1; rewrite Es, Es0, Ef0; by split).
  pose proof (alike_feed p (xs ++ [x]) _ _ Htwin) as H. rewrite map_app in H. cbn [map] in H.
  rewrite Hbuf2, Hbuf. cbn [app]. destruct (each step _ _) as [[[[] s'] o']|e], (feed (xs ++ [x]) f0) as [[[[] f'] o'']|e']; try done.
  cbn [each ret]. destruct H as (_ & <- & []). cbn. rewrite app_nil_r. auto.
Qed.
End Lock.
