(* ===== verification/DecoderTheorems.v ===== *)
(** * DecoderTheorems: the decoder's properties

    Safety over any input, the text that can be sent again, the window behind
    each hop, and an automatic decoder's lock; with a tone rendered and
    decoded in full as their witness. *)

From Stdlib Require Import Floats.SpecFloat.
From S2P Require Import Prelude Text Morse Timing Floats Decoder DecoderFacts DecoderLock.
From S2P Require Synth.

#[local] Arguments decode_group_with : simpl never.

(** ** The text, sent again *)

Lemma decode_loop_in g st found tbl t :
  decode_group_loop g st found tbl = Some t -> found = Some t \/ exists e, (t, e) ∈ tbl.
Proof.
  revert found; induction tbl as [|[u e] tbl IH]; intros found; cbn; [auto|].
  case_bool_decide; [destruct (wanted st u)|].
  - intros [= <-]. right. exists e. left.
  - intros [H1|[e' H1]]%IH; [|right; exists e'; by right].
    destruct found as [t'|]; [by left|]. injection H1 as ->. right. exists e. left.
  - intros [H1|[e' H1]]%IH; [by left|right; exists e'; by right].
Qed.
Definition sendableb (t : Token) : bool :=
  match t with
  | TChar c => negb (is_none (pattern t)) && (to_ascii_uppercase c =? c)
  | TProsign _ => true
  | WordSpace => false
  end.
Lemma decode_sendable g st t : decode_group_with g st = Some t -> sendable t.
Proof.
  unfold decode_group_with. intros H. destruct (decode_loop_in _ _ _ _ _ H) as [|[e He]]; [done|]. clear H.
  pose proof (table_forall (fun x => sendableb x.1) t e ltac:(vm_compute; reflexivity) He) as Hs. clear He. cbn [fst] in Hs.
  destruct t as [c|p|]; [|done..]. apply andb_true_iff in Hs as [Hp%negb_true_iff Hu%Z.eqb_eq].
  by split; [apply is_none_false|].
Qed.

Lemma spaced_snoc ts t : spaced ts -> sendable t -> spaced (ts ++ [t]).
Proof. induction 1; intros Ht; cbn; eauto 6 using spaced. Qed.
Lemma spaced_snoc_gap ts t : spaced ts -> sendable t -> spaced (ts ++ [WordSpace; t]).
Proof. induction 1; intros Ht; cbn; eauto 6 using spaced. Qed.
Lemma well_spaced_snoc ts t : well_spaced ts -> sendable t -> well_spaced (ts ++ [t]).
Proof. intros [|u us Hu Hus] Ht; cbn; constructor; [done|constructor|done|by apply spaced_snoc]. Qed.
Lemma well_spaced_snoc_gap ts t : well_spaced ts -> ts <> [] -> sendable t -> well_spaced (ts ++ [WordSpace; t]).
Proof. intros [|u us Hu Hus] Hne Ht; [done|]. cbn. constructor; [done|by apply spaced_snoc_gap]. Qed.

(** The tokens of an output all of whose groups were recognised. *)
Definition recognised (d : Decoded) : Prop := match d with Unknown _ => False | _ => True end.
Definition shown (d : Decoded) : list Token :=
  match d with DToken t => [t] | DWordSpace => [WordSpace] | Unknown _ => [] end.
Definition tokens_of (o : list Decoded) : list Token := concat (map shown o).
Lemma tokens_of_app a b : tokens_of (a ++ b) = tokens_of a ++ tokens_of b.
Proof. unfold tokens_of. by rewrite map_app, concat_app. Qed.
Lemma decoded_tokens o : Forall recognised o -> decoded_to_text o = tokens_to_text (tokens_of o).
Proof.
  induction 1 as [|d o Hd Ho IH]; [done|].
  change (decoded_display d ++ decoded_to_text o = tokens_to_text (shown d ++ tokens_of o)).
  unfold tokens_to_text. rewrite map_app, concat_app, IH. f_equal. destruct d; [|done|done]. cbn. by rewrite app_nil_r.
Qed.
Lemma glyph_token st d : glyph st d -> recognised d -> exists t, d = DToken t /\ sendable t.
Proof.
  intros (g & _ & ->) Hr. destruct (decode_group_with g st) as [t|] eqn:E; [|done].
  exists t. split; [done|]. by eapply decode_sendable.
Qed.
(** Written output is well spaced, but for a space still at its end. *)
Lemma wrote_spaced st o any sp : wrote st o any sp -> Forall recognised o ->
  exists ts, well_spaced ts /\ (any = true -> ts <> []) /\ tokens_of o = ts ++ (if sp then [WordSpace] else []).
Proof.
  induction 1 as [|o any sp d Hw IH Hg|o Hw IH]; intros Hr.
  - exists []. by repeat split; try constructor.
  - apply Forall_app in Hr as [Hr Hd]. apply Forall_cons in Hd as [Hd _].
    destruct (IH Hr) as (ts & Hts & Hne & E). destruct (glyph_token _ _ Hg Hd) as (t & -> & Ht).
    rewrite tokens_of_app, E. destruct sp.
    + exists (ts ++ [WordSpace; t]). rewrite app_nil_r, <- (assoc_L (++)). split; [|split; [by destruct ts|done]].
      apply well_spaced_snoc_gap; [done| |done]. apply Hne. by inversion Hw; destruct o.
    + exists (ts ++ [t]). rewrite !app_nil_r. split; [by apply well_spaced_snoc|split; [by destruct ts|done]].
  - apply Forall_app in Hr as [Hr _]. destruct (IH Hr) as (ts & Hts & Hne & E). exists ts.
    split; [done|]. split; [by intros _; apply Hne|]. by rewrite tokens_of_app, E, app_nil_r.
Qed.

(** Text whose ends are not white space, which [trim] keeps. *)
Definition ends_solid (t : text) : Prop :=
  (exists c u, t = c :: u /\ is_whitespace c = false) /\ (exists c u, t = u ++ [c] /\ is_whitespace c = false).
Lemma trim_solid t : ends_solid t -> trim t = t.
Proof.
  intros [(c & u & -> & Hc) (c' & u' & E & Hc')]. unfold trim, trim_end. cbn [trim_start]. rewrite Hc.
  rewrite E, rev_app_distr. cbn [rev app trim_start]. rewrite Hc'. cbn [rev]. by rewrite rev_involutive.
Qed.
Lemma trim_solid_space t : ends_solid t -> trim (t ++ [space]) = t.
Proof.
  intros [(c & u & -> & Hc) (c' & u' & E & Hc')]. unfold trim, trim_end. cbn [app trim_start]. rewrite Hc.
  change (c :: u ++ [space]) with ((c :: u) ++ [space]). rewrite E, rev_app_distr. cbn [rev app trim_start].
  change (is_whitespace space) with true. cbn match. rewrite rev_app_distr. cbn [rev app trim_start].
  rewrite Hc'. cbn [rev]. by rewrite rev_involutive.
Qed.
Lemma token_solid t : sendable t -> ends_solid (token_display t).
Proof.
  destruct t as [c|p|]; [| |done]; cbn [sendable token_display].
  - intros [[e He] Hu]. destruct (pattern_char_ok _ _ He Hu) as [Hw _]. split; [by exists c, []|by exists c, []].
  - intros _. split; [by exists (ch "<"), (prosign_name p ++ [ch ">"])|].
    exists (ch ">"), (ch "<" :: prosign_name p). by split.
Qed.
Lemma solid_app a b : ends_solid a -> ends_solid b -> forall m, ends_solid (a ++ m ++ b).
Proof.
  intros [(c & u & -> & Hc) _] [_ (c' & u' & -> & Hc')] m. split.
  - by exists c, (u ++ m ++ u' ++ [c']).
  - exists c', ((c :: u) ++ m ++ u'). by rewrite !(assoc_L (++)).
Qed.
Lemma spaced_solid ts : spaced ts -> forall a, ends_solid a -> ends_solid (a ++ tokens_to_text ts).
Proof.
  induction 1 as [|t ts Ht _ IH|t ts Ht _ IH]; intros a Ha.
  - by rewrite app_nil_r.
  - change (tokens_to_text (t :: ts)) with (token_display t ++ tokens_to_text ts). rewrite (assoc_L (++)).
    apply IH. apply (solid_app a _ Ha (token_solid t Ht) []).
  - change (tokens_to_text (WordSpace :: t :: ts)) with ([space] ++ token_display t ++ tokens_to_text ts).
    rewrite !(assoc_L (++)). apply IH. rewrite <- (assoc_L (++)). apply (solid_app a _ Ha (token_solid t Ht)).
Qed.
Lemma well_spaced_trim ts : well_spaced ts ->
  trim (tokens_to_text ts) = tokens_to_text ts /\ (ts <> [] -> trim (tokens_to_text ts ++ [space]) = tokens_to_text ts).
Proof.
  intros [|t us Ht Hus]; [done|].
  assert (ends_solid (tokens_to_text (t :: us))) by (apply (spaced_solid _ Hus), token_solid, Ht).
  split; [by apply trim_solid|intros _; by apply trim_solid_space].
Qed.

(** Trimming keeps what is not white space. *)
Lemma trim_start_in c t : is_whitespace c = false -> c ∈ t -> c ∈ trim_start t.
Proof.
  intros Hc. induction t as [|x t IH]; cbn; [done|]. destruct (is_whitespace x) eqn:E; [|done].
  intros [->|Hin]%elem_of_cons; [congruence|auto].
Qed.
Lemma trim_in c t : is_whitespace c = false -> c ∈ t -> c ∈ trim t.
Proof.
  intros Hc Hin. unfold trim, trim_end. rewrite list_elem_of_In, <- in_rev, <- list_elem_of_In. apply trim_start_in; [done|].
  rewrite list_elem_of_In, <- in_rev, <- list_elem_of_In. by apply trim_start_in.
Qed.
Lemma unstarred o : ch "*" ∉ decoded_to_text o -> Forall recognised o.
Proof.
  induction o as [|d o IH]; [by constructor|].
  change (decoded_to_text (d :: o)) with (decoded_display d ++ decoded_to_text o). intros Hn.
  apply not_elem_of_app in Hn as [Hd Ho]. constructor; [|auto]. destruct d; [done| |done]. destruct Hd. left.
Qed.

Section Theorems.
Context {X : Maths}.

(** What [decode_all] writes, when it recognised every group, is a text that
    can be sent: it tokenizes, and its tokens print as that very text. *)
Theorem decoded_text_sends fuel cf samples t :
  decode_all fuel cf samples = Ok (Ok t) ->
  (forall s a, decoder_new fuel cf = Ok (Ok s) -> s.(auto) = Some a -> a.(freqs) <> []) ->
  ch "*" ∉ t ->
  exists ts, tokenize t = Ok ts /\ tokens_to_text ts = t /\ well_spaced ts.
Proof.
  unfold decode_all. intros H Hb Hs. apply result_bind_ok in H as (r & Hn & H). apply Ok_inj in H.
  apply result_bind_ok in H as (s & -> & H). apply result_bind_ok in H as ([[u s'] o] & Hf & H). apply Ok_inj in H as <-.
  pose proof (holds_bind Sound (feed samples) (fun _ => Sound) (fun _ => flush) (fun _ => Sound)
    (feed_sound samples) (fun _ => flush_sound) s [] (decoder_new_sound _ _ _ Hn (fun a => Hb s a Hn))) as Hsound.
  rewrite Hf in Hsound. cbn [app] in Hsound. destruct Hsound as [[Hc _] _].
  assert (Hr : Forall recognised o).
  { apply unstarred. intros Hin. apply Hs. by apply trim_in. }
  destruct (wrote_spaced _ _ _ _ (ci_written _ _ Hc) Hr) as (ts & Hts & Hne & E). rewrite (decoded_tokens o Hr), E.
  destruct (well_spaced_trim ts Hts) as [Ht1 Ht2]. exists ts.
  assert (Ht : trim (tokens_to_text (ts ++ (if last_was_space (cls s') then [WordSpace] else []))) = tokens_to_text ts).
  { destruct (last_was_space (cls s')) eqn:El; [|by rewrite app_nil_r].
    unfold tokens_to_text at 1. rewrite map_app, concat_app. cbn [map concat token_display app]. apply Ht2, Hne.
    pose proof (ci_written _ _ Hc) as Hw. unfold Written in Hw. rewrite El in Hw. by inversion Hw. }
  rewrite Ht. split; [by apply tokenize_well_spaced|done].
Qed.

(** C29. Whatever is fed, in blocks of any size, and flushed: a decoder with a set
    pitch, or with a search bank of at least one bin, ends with its text properly
    spaced (none first, no two together, every other item the reading of a group
    of elements), its histories bounded and the dot behind its speed estimate a
    number in the decoder's range, or in the one panic left, the clamp on a speed
    that is not a number; no detector is missing and no index out of range. *)
Theorem decoder_safe fuel cf s0 blocks :
  decoder_new fuel cf = Ok (Ok s0) -> (forall a, s0.(auto) = Some a -> a.(freqs) <> []) ->
  match (do! each feed blocks in flush) s0 with
  | Ok (_, s, o) =>
      wrote s.(cls).(c_style) o s.(cls).(emitted_any) s.(cls).(last_was_space) /\
      (length s.(cls).(marks) <= HISTORY /\ length s.(cls).(gaps) <= HISTORY)%nat /\
      (forall d, s.(det) = Some d ->
         length d.(amps) <= FLOOR_HOPS /\ length d.(hist) <= HIST_HOPS /\ length d.(mark_peaks) <= MARK_PEAKS)%nat /\
      (forall w, wpm_estimate s = Some w -> exists x, w = F64.div (F64.dec 12 1) x /\ dot_ok x)
  | Err e => e = BadClamp
  end.
Proof.
  intros Hn Hb.
  assert (H : holds Sound (do! each feed blocks in flush) (fun _ => Sound)).
  { refine (holds_bind _ _ (fun _ => Sound) _ _ _ (fun _ => flush_sound)).
    exact (holds_each (fun _ => Sound) _ _ (fun _ => feed_sound) []). }
  specialize (H s0 [] (decoder_new_sound _ _ _ Hn Hb)). destruct ((do! each feed blocks in flush) s0) as [[[[] s] o]|e]; [|exact H].
  destruct H as [([Hw Hm Hg Hr Hd] & _ & _) Hdet]. split; [exact Hw|]. split; [done|]. split.
  - intros d Ed. rewrite Ed in Hdet. by destruct Hdet as [xs []].
  - intros w. unfold wpm_estimate. case_bool_decide as Hm0; [done|]. intros Hw'. apply (inj Some) in Hw' as <-.
    exists (dit (cls s)). split; [reflexivity|]. destruct Hd as [Hd|Hd]; [contradiction|exact Hd].
Qed.

(** Blocks of any size: fed one after the other they leave the decoder, its
    output and its panics as the samples fed at once do. *)
Theorem feed_blocks blocks s : each feed blocks s = feed (concat blocks) s.
Proof.
  revert s; induction blocks as [|b blocks IH]; intros s; [done|]. cbn [concat]. rewrite each_cons.
  change (feed (b ++ concat blocks) s) with (each feed_one (b ++ concat blocks) s). rewrite each_app.
  change (each feed_one b s) with (feed b s). destruct (feed b s) as [[[[] s'] o]|e]; [|reflexivity].
  rewrite IH. reflexivity.
Qed.

(** Each hop of a decoder set to a pitch hears the last window: the amplitude
    is the bin's power over the last [d_len] samples fed (made finite and
    clamped), wherever they lie in the ring, at the window's middle. *)
Theorem hop_hears_last_window fuel cf p s0 xs s o d x t a d' :
  decoder_new fuel (at_pitch p cf) = Ok (Ok s0) -> feed xs s0 = Ok (tt, s, o) ->
  s.(det) = Some d -> push (clean x) d = Ok (Some (t, a), d') ->
  let heard := map clean (xs ++ [x]) in
  (d'.(d_len) <= length heard)%nat /\
  t = F64.div (F64.sub (F64.of_Z (Z.of_nat (length heard))) (F64.div (of_nat d'.(d_len)) (F64.of_Z 2))) d'.(d_sample_rate) /\
  a = f64_sqrt (F64.mul (F64.of_Z 2) (power d'.(bin) (last_n d'.(d_len) heard) [])).
Proof.
  intros Hn Hf Ed Hp heard. destruct (new_fixed _ _ _ _ Hn) as (d0 & Hd0 & Es0).
  assert (Hrun : Run (fun x => x = None) [] s0 []).
  { rewrite Es0. destruct (detector_new_ok cf p (dit (classifier_new (initial_wpm cf) (style cf)))) as (d1 & E & Hd1).
    rewrite E in Hd0. apply Ok_inj in Hd0 as <-. split; [by exists d1|].
    split; [split; [apply wrote_nil|cbn; unfold HISTORY; lia..|cbn; lia|by left]|]. by split. }
  pose proof (feed_fixed [] xs s0 [] Hrun) as H. rewrite Hf in H. destruct H as [(d1 & E1 & Hd1) _].
  rewrite Ed in E1. injection E1 as <-. destruct (push_ok _ (clean x) d Hd1) as (r & d2 & E2 & _ & Hr).
  rewrite Hp in E2. apply Ok_inj, pair_equal_spec in E2 as [<- <-]. specialize (Hr t a eq_refl). cbn [app] in Hr.
  unfold heard. by rewrite map_app.
Qed.
End Theorems.

(** ** Examples: a tone rendered and decoded *)

Section Examples.
#[local] Existing Instance Approx.maths.

(** [t] at 30 words a minute, rendered at 125 Hz with a little silence around. *)
Definition keyed_tone (t : string) : list f32 :=
  match (let? sp := speed_wpm (F64.of_Z 30) in key_text (txt t) sp perfect 0) with
  | Ok k =>
      match Synth.render_tone k 500 (F32.of_Z 125) (F32.dec 5 1) Synth.default_shape with
      | Ok s => replicate 20 (F32.of_Z 0) ++ s ++ replicate 20 (F32.of_Z 0)
      | Err _ => []
      end
  | Err _ => []
  end.
Definition at_125 : DecoderConfig := config 500 (Fixed (F32.of_Z 125)).

(** Text to tokens, to keying, to samples, and back. *)
Example k_heard : decode_all 0 at_125 (keyed_tone "K") = Ok (Ok (txt "K")).
Proof. vm_compute. reflexivity. Qed.

Lemma at_125_no_search s a : decoder_new 0 at_125 = Ok (Ok s) -> s.(auto) = Some a -> a.(freqs) <> [].
Proof. intros H Ha. destruct (new_fixed 0 at_125 (F32.of_Z 125) s H) as (d & _ & ->). cbn [auto] in Ha. discriminate Ha. Qed.
Lemma decoded_text_sends_witness :
  exists ts, tokenize (txt "K") = Ok ts /\ tokens_to_text ts = txt "K".
Proof.
  destruct (decoded_text_sends 0 at_125 (keyed_tone "K") (txt "K") k_heard at_125_no_search) as (ts & H1 & H2 & _).
  { apply (bool_decide_eq_true (ch "*" ∉ txt "K")). vm_compute. reflexivity. }
  by exists ts.
Defined.
Definition built (r : result (result Decoder Crash) DecoderError) : bool :=
  match r with Ok (Ok _) => true | _ => false end.
Lemma at_125_built : built (decoder_new 0 at_125) = true.
Proof. vm_compute. reflexivity. Qed.
(** Decoded in two blocks. *)
Lemma decoder_safe_witness :
  exists s0, decoder_new 0 at_125 = Ok (Ok s0) /\
    match (do! each feed [take 30 (keyed_tone "E"); drop 30 (keyed_tone "E")] in flush) s0 with
    | Ok (_, s, o) => wrote s.(cls).(c_style) o s.(cls).(emitted_any) s.(cls).(last_was_space)
    | Err e => e = BadClamp
    end.
Proof.
  pose proof at_125_built as Hok. destruct (decoder_new 0 at_125) as [[s0|e]|e] eqn:E; [|discriminate Hok..].
  exists s0. split; [reflexivity|]. set (bs := [take 30 (keyed_tone "E"); drop 30 (keyed_tone "E")]).
  pose proof (decoder_safe 0 at_125 s0 bs E (fun a => at_125_no_search s0 a E)) as H.
  destruct ((do! each feed bs in flush) s0) as [[[u s] o]|e]; [exact (proj1 H)|exact H].
Defined.

(** The sample after the first 31 completes a hop. *)
Lemma hop_case :
  match decoder_new 0 at_125 with
  | Ok (Ok s0) =>
      match feed (take 31 (keyed_tone "E")) s0 with
      | Ok (_, s, o) =>
          match s.(det) with
          | Some d => match push (clean (F32.of_Z 0)) d with Ok (Some _, _) => true | _ => false end
          | None => false
          end
      | Err _ => false
      end
  | _ => false
  end = true.
Proof. vm_compute. reflexivity. Qed.
Lemma hop_case_length : length (take 31 (keyed_tone "E") ++ [F32.of_Z 0]) = 32%nat.
Proof. vm_compute. reflexivity. Qed.
Lemma hop_hears_last_window_witness :
  exists d' a, (d'.(d_len) <= 32)%nat /\
    a = f64_sqrt (F64.mul (F64.of_Z 2)
          (power d'.(bin) (last_n d'.(d_len) (map clean (take 31 (keyed_tone "E") ++ [F32.of_Z 0]))) [])).
Proof.
  pose proof hop_case as Hc. destruct (decoder_new 0 at_125) as [[s0|e]|e] eqn:E; [|discriminate Hc..].
  destruct (feed _ s0) as [[[[] s] o]|e] eqn:Ef; [|discriminate Hc]. destruct (det s) as [d|] eqn:Ed; [|discriminate Hc].
  destruct (push _ d) as [[[[t a]|] d']|e] eqn:Ep; [|discriminate Hc..].
  destruct (hop_hears_last_window 0 at_125 (F32.of_Z 125) s0 _ s o d (F32.of_Z 0) t a d' E Ef Ed Ep) as (H1 & _ & H3).
  exists d', a. split; [|exact H3]. rewrite length_map, hop_case_length in H1. exact H1.
Defined.

(** A tenth of a second at 130 Hz, on which the search locks with its last
    sample. *)
Definition steady : list f32 :=
  match Synth.render_tone [mk_Segment true 90000000] 500 (F32.of_Z 130) (F32.dec 5 1) (Synth.mk_ToneShape 10000000) with
  | Ok l => l
  | Err _ => []
  end.
Definition search_130 : DecoderConfig := config 500 (Auto (F32.of_Z 120) (F32.of_Z 145)).
(** What the search locks on to. *)
Definition locked_pitch : f32 := S754_finite false 8519778 (-16).
Definition last_steady : f32 := default (F32.of_Z 0) (steady !! 49%nat).
Lemma search_case :
  match decoder_new 20 search_130, decoder_new 20 (at_pitch locked_pitch search_130) with
  | Ok (Ok s0), Ok (Ok f0) =>
      match s0.(auto) with
      | Some a0 =>
          negb (bool_decide (a0.(freqs) = [])) && (50 <=? a0.(buffer_cap))%nat &&
          match feed (take 49 steady) s0 with
          | Ok (_, s, o) =>
              is_none s.(det) &&
              match s.(auto) with
              | Some a =>
                  match auto_feed search_130.(sample_rate) (clean last_steady) a with
                  | Ok (Some p, _) => bool_decide (p = locked_pitch)
                  | _ => false
                  end
              | None => false
              end
          | Err _ => false
          end
      | None => false
      end
  | _, _ => false
  end = true.
Proof. vm_compute. reflexivity. Qed.
Lemma steady_length : length (take 49 steady ++ [last_steady]) = 50%nat.
Proof. vm_compute. reflexivity. Qed.
Lemma auto_lock_misses_nothing_witness :
  exists s0 f0, decoder_new 20 search_130 = Ok (Ok s0) /\ decoder_new 20 (at_pitch locked_pitch search_130) = Ok (Ok f0) /\
    match feed (take 49 steady ++ [last_steady]) s0, feed (take 49 steady ++ [last_steady]) f0 with
    | Ok (_, s', o'), Ok (_, f', o'') => o' = o'' /\ s'.(det) = f'.(det) /\ s'.(cls) = f'.(cls)
    | Err e, Err e' => e = e'
    | _, _ => False
    end.
Proof.
  pose proof search_case as Hc.
  destruct (decoder_new 20 search_130) as [[s0|e]|e] eqn:E0; [|discriminate Hc..].
  destruct (decoder_new 20 (at_pitch locked_pitch search_130)) as [[f0|e]|e] eqn:E1; [|discriminate Hc..].
  destruct (auto s0) as [a0|] eqn:Ea0; [|discriminate Hc]. apply andb_true_iff in Hc as [Hc1 Hc].
  apply andb_true_iff in Hc1 as [Hne%negb_true_iff%bool_decide_eq_false Hcap%Nat.leb_le].
  destruct (feed (take 49 steady) s0) as [[[[] s] o]|e] eqn:Ef; [|discriminate Hc].
  apply andb_true_iff in Hc as [Hd Hc]. destruct (det s) eqn:Ed; [discriminate Hd|].
  destruct (auto s) as [a|] eqn:Ea; [|discriminate Hc].
  destruct (auto_feed _ _ a) as [[[p|] a']|e] eqn:El; [|discriminate Hc..]. apply bool_decide_eq_true in Hc. subst p.
  exists s0, f0. split; [reflexivity|]. split; [reflexivity|].
  refine (auto_lock_misses_nothing 20 search_130 s0 f0 a0 (take 49 steady) last_steady s o a locked_pitch a'
    E0 Ea0 Hne E1 _ Ef Ed Ea El).
  rewrite steady_length. exact Hcap.
Defined.
End Examples.
