(* ===== verification/Band.v ===== *)
(** * Band: conditions drawn for an over (cat-morse/src/scenario/band.rs)

    [band_channel_for] wraps an over's signals in noise, fading, static, an
    interfering station and a filter, each drawn from a stream of its own.
    Valid settings are never refused and nothing panics; the over's signals
    are kept, in order, with at most fading added; the interference ends with
    the over but for its last edge. *)

From Stdlib Require Import Floats.SpecFloat.
From S2P Require Import Prelude Text Morse Timing Floats Tables World Draws Callsign WorldFacts CallsignFacts.
From S2P Require Import Scenario Qso Encodes QsoFacts Synth.
From S2P Require Decoder.

Record QrmReport : Type := mk_QrmReport {
  qr_call : Callsign; qr_text : text; qr_offset_hz : f32; qr_level_db : f32 }.
Record BandReport : Type := mk_BandReport {
  br_snr_db : option f32; br_qsb : list (option Qsb); br_qrn : option Qrn; br_qrm : option QrmReport }.

Definition STREAM_BAND : Z := 0x42414E44.

Section Drawing.
Context {F : Fuel}.

(** [draw]: one decimal. *)
Definition draw (r : f32 * f32) : Gen f32 :=
  let! x := range_f64 (F32.to_f64 r.1) (F32.to_f64 r.2) in
  ret (F32.of_f64 (F64.div (f64_round (F64.mul x (F64.of_Z 10))) (F64.of_Z 10))).

(** The loop over the signals: the fade drawn for each, used or not. *)
Definition draw_fade (odds : option QsbOdds) : Gen (option (bool * f32 * f32)) :=
  match odds with
  | None => ret None
  | Some q =>
      let! hit := chance q.(qsb_chance) in
      let! depth := draw q.(qsb_depth_db) in
      let! period := draw q.(qsb_period_s) in
      ret (Some (hit, depth, period))
  end.
Definition add_fade (s : Signal) (fade : option (bool * f32 * f32)) : Signal * option Qsb :=
  match s.(g_qsb), fade with
  | None, Some (true, depth, period) =>
      let q := mk_Qsb depth (from_millis (F64.round_max0_u64 (F64.mul (F32.to_f64 period) (F64.of_Z 1000)))) in
      (with_qsb s q, Some q)
  | _, _ => (s, None)
  end.
Fixpoint fade_all (odds : option QsbOdds) (l : list Signal) : Gen (list (Signal * option Qsb)) :=
  match l with
  | [] => ret []
  | s :: l =>
      let! fade := draw_fade odds in
      let! rest := fade_all odds l in
      ret (add_fade s fade :: rest)
  end.
Definition draw_qrn (odds : option QrnOdds) : Gen (option Qrn) :=
  match odds with
  | None => ret None
  | Some q =>
      let! hit := chance q.(qrn_chance) in
      if (hit : bool) then
        let! rate := draw q.(qrn_crashes_per_sec) in
        let! level := draw q.(qrn_level_db) in
        let! ms := range_u32 q.(qrn_decay_ms).1 q.(qrn_decay_ms).2 in
        ret (Some (mk_Qrn rate level (from_millis ms)))
      else ret None
  end.

(** Either side of the pitch, as long as it stays inside the passband. *)
Definition fits_band (margin top f : f32) : bool := F64.leb margin f && F64.leb f top.
Definition qrm_offset (margin top pitch_hz magnitude : f32) (want_below : bool) : f32 :=
  let lo := fits_band margin top (F32.sub pitch_hz magnitude) in
  let hi := fits_band margin top (F32.add pitch_hz magnitude) in
  match want_below, lo, hi with
  | true, true, _ | false, true, false => f64_neg magnitude
  | _, _, true => magnitude
  | _, _, _ => F32.of_Z 0
  end.
Definition qrm_text (k : Z) (call : text) : text :=
  if k =? 0 then fmt "CQ CQ DE {} {} K" [call; call]
  else if k =? 1 then fmt "TEST {} {} TEST" [call; call]
  else fmt "CQ TEST {} {}" [call; call].
Definition next : Gen Z := fun r => Done (next_u64 r).
Definition draw_qrm (hf_band : option HfBand) (my_call : option Callsign) (over_end : Z) (margin top pitch_hz : f32)
    (odds : option QrmOdds) : Gen (option (Signal * QrmReport)) :=
  match odds with
  | None => ret None
  | Some q =>
      let! hit := chance q.(qrm_chance) in
      if negb (hit && (1000000000 <=? over_end)) then ret None
      else
        let! me := lift (match my_call with Some c => home_of c | None => Done None end) in
        let! local := chance (F64.dec 7 1) in
        let! home := (if (local : bool) then random_local me else random_dx me hf_band) in
        let! call_text := call_from home in
        let! call := lift (match parse call_text with Ok c => Done c | Err _ => Panic end) in
        let! k := range_u32 0 2 in
        let txt := qrm_text k call.(as_str) in
        let! magnitude := draw q.(qrm_offset_hz) in
        let! want_below := chance (F64.dec 5 1) in
        let offset := qrm_offset margin top pitch_hz magnitude want_below in
        let! level := draw q.(qrm_level_db) in
        let! wpm := range_u32 18 30 in
        let! fist_seed := next in
        let max_ms := (over_end / 1000000 / 2) mod 2 ^ 32 in
        let! ms := range_u32 0 max_ms in
        let start := from_millis ms in
        let! keying := lift (match (let? sp := speed_wpm (F64.of_Z wpm) in key_text txt sp typical fist_seed) with
                             | Ok k => Done k
                             | Err e => Refused (from_timing e)
                             end) in
        (* [Duration - Duration] panics below zero *)
        let! keying := lift (if over_end <? start then Panic else Done (truncated keying (over_end - start))) in
        if negb (bool_decide (keying = [])) && negb (f64_eqb offset (F32.of_Z 0)) then
          ret (Some (at_level (starting_at (signal_new keying (F32.add pitch_hz offset)) start) level,
                     mk_QrmReport call txt offset level))
        else ret None
  end.

Definition run {A} (m : Gen A) (r : Rng) : outcome A := let# (a, _) := m r in Done a.
Definition band_channel_for (difficulty : Difficulty) (my_call : option Callsign) (signals : list Signal)
    (sample_rate : Z) (pitch_hz : f32) (seed : Z) : outcome (Channel * BandReport) :=
  let band := difficulty.(d_band) in
  let# _ := match band_validate band with Ok _ => Done () | Err e => Refused e end in
  let margin := Decoder.PITCH_MARGIN_HZ in
  let top := F32.sub (F32.div (F32.of_Z sample_rate) (F32.of_Z 2)) margin in
  if negb (F64.is_finite pitch_hz && F64.leb margin pitch_hz && F64.leb pitch_hz top) then
    Refused (InvalidSetting "pitch must be at least 100 Hz from 0 Hz and from Nyquist")
  else
    let root := fork (rng_new seed) STREAM_BAND in
    let# snr := run (match band.(bc_snr_db) with Some r => let! x := draw r in ret (Some x) | None => ret None end)
                  (fork root 1) in
    let over_end := latest_end signals in
    let# faded := run (fade_all band.(bc_qsb) signals) (fork root 2) in
    let# qrn := run (draw_qrn band.(bc_qrn)) (fork root 3) in
    let# qrm := run (draw_qrm difficulty.(d_hf_band) my_call over_end margin top pitch_hz band.(bc_qrm)) (fork root 4) in
    let ch := mk_Channel sample_rate (map fst faded ++ option_list (fst <$> qrm)) (awgn_snr <$> snr) qrn
                (mk_RxFilter pitch_hz <$> band.(bc_rx_bandwidth_hz)) (F32.of_Z 1) 0 seed in
    Done (ch, mk_BandReport snr (map snd faded) qrn (snd <$> qrm)).
Definition band_channel (difficulty : Difficulty) (signals : list Signal) (sample_rate : Z) (pitch_hz : f32) (seed : Z)
    : outcome (Channel * BandReport) :=
  band_channel_for difficulty None signals sample_rate pitch_hz seed.
End Drawing.

(** ** What the draws give *)

Lemma sub_add_neg x y : F32.sub x y = F32.add x (f64_neg y).
Proof.
  destruct x as [[]|[]| |[] mx ex], y as [[]|[]| |[] my ey]; try reflexivity;
    unfold F32.sub, F32.add, f64_neg; cbn [SFopp SFsub SFadd negb]; f_equal; cbn [SpecFloat.cond_Zopp]; lia.
Qed.

Section Facts.
Context {F : Fuel}.

Lemma range_u32_any lo hi : gives (range_u32 lo hi) (fun _ => True).
Proof.
  intros r. unfold range_u32. destruct (hi <? lo);
    (destruct (u32_max <? _); [by destruct (next_u64 r)|];
     generalize fuel as n; intros n; revert r; induction n as [|n IH]; intros r; cbn [range_u32_loop]; [exact I|];
     destruct (next_u64 r) as [y r']; destruct (_ <=? _); [exact I|apply IH]).
Qed.
Lemma draw_gives r : gives (draw r) (fun _ => True).
Proof. eapply gives_bind; [apply range_f64_gives|]. intros x _. by apply gives_ret. Qed.
Lemma next_gives : gives next (fun _ => True).
Proof. intros r. unfold next. by destruct (next_u64 r). Qed.
Hint Resolve draw_gives next_gives range_u32_any : draws.

Lemma run_okay {A} (m : Gen A) r (Q : A -> Prop) : gives m Q -> okay (run m r) Q.
Proof. intros H. unfold run. specialize (H r). destruct (m r) as [[a r']|e| |]; [exact H|done|done|exact I]. Qed.

(** A signal kept, with fading added if it had none. *)
Definition kept (s s' : Signal) (q : option Qsb) : Prop :=
  (q = None /\ s' = s) \/ (exists f, q = Some f /\ s.(g_qsb) = None /\ s' = with_qsb s f).
Lemma add_fade_kept s fade : kept s (add_fade s fade).1 (add_fade s fade).2.
Proof.
  unfold add_fade. destruct (g_qsb s) eqn:E; [by left|]. destruct fade as [[[[] depth] period]|]; [|by left..].
  right. by eexists.
Qed.
Lemma fade_all_gives odds l : gives (fade_all odds l) (fun r => Forall3 kept l (map fst r) (map snd r)).
Proof.
  induction l as [|s l IH]; cbn [fade_all]; [apply gives_ret; constructor|].
  eapply gives_bind with (P := fun _ => True).
  { destruct odds; [|by apply gives_ret]. cbn. eapply gives_bind; [apply chance_gives|intros ? _].
    eapply gives_bind; [apply draw_gives|intros ? _]. eapply gives_bind; [apply draw_gives|intros ? _]. by apply gives_ret. }
  intros fade _. eapply gives_bind; [exact IH|]. intros r Hr. apply gives_ret. cbn. constructor; [apply add_fade_kept|done].
Qed.
Lemma draw_qrn_gives odds : gives (draw_qrn odds) (fun _ => True).
Proof.
  destruct odds; [|by apply gives_ret]. cbn. eapply gives_bind; [apply chance_gives|intros [] _]; [|by apply gives_ret].
  eapply gives_bind; [apply draw_gives|intros ? _]. eapply gives_bind; [apply draw_gives|intros ? _].
  eapply gives_bind; [apply range_u32_any|intros ? _]. by apply gives_ret.
Qed.

(** The interfering station: in the passband, over with the over. *)
Definition qrm_ok (over_end : Z) (margin top pitch_hz : f32) (x : Signal * QrmReport) : Prop :=
  let '(g, r) := x in
  parse r.(qr_call).(as_str) = Ok r.(qr_call) /\ encodes r.(qr_text) /\
  0 <= g.(g_start) /\ 0 <= total g.(g_keying) /\ g.(g_start) + total g.(g_keying) <= over_end /\
  g.(g_pitch_hz) = F32.add pitch_hz r.(qr_offset_hz) /\ fits_band margin top g.(g_pitch_hz) = true /\
  g.(g_level_db) = r.(qr_level_db) /\ g.(g_shape) = default_shape.
Lemma qrm_offset_fits margin top p m below :
  f64_eqb (qrm_offset margin top p m below) (F32.of_Z 0) = false ->
  fits_band margin top (F32.add p (qrm_offset margin top p m below)) = true.
Proof.
  unfold qrm_offset. cbv zeta. rewrite sub_add_neg.
  destruct (fits_band margin top (F32.add p (f64_neg m))) eqn:E1, (fits_band margin top (F32.add p m)) eqn:E2, below;
    cbn; auto; intros H; vm_compute in H; discriminate.
Qed.
Lemma qrm_text_encodes k call : encodes call -> encodes (qrm_text k call).
Proof. intros H. unfold qrm_text. destruct (k =? 0); [enc|]. destruct (k =? 1); enc. Qed.
Lemma key_typical_ok t wpm seed : encodes t -> 18 <= wpm <= 30 ->
  exists k, (let? sp := speed_wpm (F64.of_Z wpm) in key_text t sp typical seed) = Ok k /\ alternating k.
Proof.
  intros Ht Hw. unfold speed_wpm. rewrite speed_wpm_ok by lia. cbn [result_bind].
  destruct (encodes_tokenizes t Ht) as [ts Hts]. unfold key_text. rewrite Hts. cbn [map_err result_bind].
  set (sp := mk_Speed _ _). destruct (key ts sp typical seed) as [k|e] eqn:E.
  - exists k. split; [done|]. by eapply key_out_alternating.
  - exfalso. unfold key in E. replace (fist_validate typical) with (@Ok () TimingError ()) in E by (vm_compute; reflexivity).
    discriminate E.
Qed.
Lemma draw_qrm_gives hf c over_end margin top p odds : 0 <= over_end ->
  gives (draw_qrm hf c over_end margin top p odds) (fun o => forall x, o = Some x -> qrm_ok over_end margin top p x).
Proof.
  intros Hover. destruct odds as [q|]; [|by apply gives_ret]. cbn [draw_qrm].
  eapply gives_bind; [apply chance_gives|intros hit _]. destruct (negb _); [by apply gives_ret|].
  eapply gives_bind with (P := homes_ok).
  { apply gives_lift. destruct c as [c|]; [|by intros ? [=]]. by destruct (home_of_ok c) as (o & -> & Ho). }
  intros me Hme. eapply gives_bind; [apply chance_gives|intros local _].
  eapply gives_bind with (P := home_good); [destruct local; [by apply random_local_gives|by apply random_dx_gives]|].
  intros h [Hh _]. eapply gives_bind; [by apply call_from_gives|]. intros ct Hct.
  assert (Hst : station_ok ct) by (eapply call_of_entity_station; [apply Hh|exact Hct]).
  destruct Hst as [Hp Hplain]. rewrite Hp.
  eapply gives_bind with (P := eq (mk_Callsign ct)); [by apply gives_lift|]. intros ? <-.
  eapply gives_bind; [apply range_u32_any|intros k _]. cbv zeta. cbn [as_str].
  eapply gives_bind; [apply draw_gives|intros m _]. eapply gives_bind; [apply chance_gives|intros below _].
  eapply gives_bind; [apply draw_gives|intros level _].
  eapply gives_bind; [apply (range_u32_gives 18 30); [lia|vm_compute; discriminate]|]. intros wpm Hw. cbn beta in Hw.
  eapply gives_bind; [apply next_gives|intros seed _].
  eapply gives_bind; [apply range_u32_gives|].
  { pose proof (Z.mod_pos_bound (over_end / 1000000 / 2) (2 ^ 32)). lia. }
  { pose proof (Z.mod_pos_bound (over_end / 1000000 / 2) (2 ^ 32)). unfold u32_max. lia. }
  intros ms Hms. cbn beta in Hms.
  assert (Hstart : 0 <= from_millis ms <= over_end).
  { unfold from_millis. assert (H1 : 0 <= over_end / 1000000) by (apply Z.div_pos; lia).
    assert (H2 : 0 <= over_end / 1000000 / 2 <= over_end / 1000000) by (split; [apply Z.div_pos|apply Z.div_le_upper_bound]; lia).
    pose proof (Z.mod_le (over_end / 1000000 / 2) (2 ^ 32) ltac:(lia) ltac:(lia)).
    pose proof (Z.mul_div_le over_end 1000000 ltac:(lia)). lia. }
  destruct (parse_inv _ _ Hp) as [Hchars _]. cbn [as_str] in Hchars.
  assert (Henc : encodes (qrm_text k ct)) by by apply qrm_text_encodes, encodes_call.
  destruct (key_typical_ok (qrm_text k ct) wpm seed Henc) as (ky & -> & Hky); [lia|].
  eapply gives_bind with (P := eq ky); [by apply gives_lift|]. intros ? <-.
  replace (over_end <? from_millis ms) with false by lia.
  eapply gives_bind with (P := eq (truncated ky (over_end - from_millis ms))); [by apply gives_lift|]. intros ? <-.
  pose proof (truncated_total ky (over_end - from_millis ms) Hky ltac:(lia)) as Htot.
  destruct (negb _ && _) eqn:Hb; [|by apply gives_ret]. apply andb_true_iff in Hb as [_ Hoff%negb_true_iff].
  apply gives_ret. intros x Hx. apply (inj Some) in Hx as <-.
  split; [done|]. split; [done|]. cbn [g_start g_keying g_pitch_hz g_level_db g_shape at_level starting_at signal_new qr_offset_hz qr_level_db].
  split; [lia|]. split; [lia|]. split; [lia|]. split; [done|]. split; [by apply qrm_offset_fits|done].
Qed.

(** ** The channel *)

Lemma foldl_max l : forall a, a <= foldl Z.max a l /\ (forall x, x ∈ l -> x <= foldl Z.max a l) /\
  forall b, a <= b -> (forall x, x ∈ l -> x <= b) -> foldl Z.max a l <= b.
Proof.
  induction l as [|y l IH]; intros a; cbn [foldl].
  - split; [lia|]. split; [by intros x ?%not_elem_of_nil|lia].
  - destruct (IH (Z.max a y)) as (H1 & H2 & H3). split; [lia|]. split.
    + intros x [->|Hx]%elem_of_cons; [lia|auto].
    + intros b Ha Hb. apply H3; [pose proof (Hb y ltac:(left)); lia|]. intros x Hx. apply Hb. by right.
Qed.
Lemma latest_end_nonneg l : 0 <= latest_end l.
Proof. exact (proj1 (foldl_max (map signal_end l) 0)). Qed.
(** What is kept ends when it did. *)
Lemma kept_end s s' q : kept s s' q -> signal_end s' = signal_end s.
Proof. by intros [[_ ->]|(f & _ & _ & ->)]. Qed.
Lemma kept_ends l l' qs : Forall3 kept l l' qs -> map signal_end l' = map signal_end l.
Proof. induction 1 as [|s s' q l l' qs Hk _ IH]; cbn; [done|]. by rewrite IH, (kept_end _ _ _ Hk). Qed.
Lemma with_qrm_end l l' qs g : Forall3 kept l l' qs ->
  0 <= g.(g_start) -> 0 <= total g.(g_keying) -> g.(g_start) + total g.(g_keying) <= latest_end l -> g.(g_shape) = default_shape ->
  latest_end (l' ++ [g]) <= latest_end l + 5000000.
Proof.
  intros Hk H0 Ht He Hs. pose proof (latest_end_nonneg l). unfold latest_end at 1.
  apply (proj2 (proj2 (foldl_max _ 0))); [lia|]. intros x. rewrite map_app, (kept_ends _ _ _ Hk). intros [Hx|Hx]%elem_of_app.
  - destruct (foldl_max (map signal_end l) 0) as (_ & H2 & _). specialize (H2 x Hx). unfold latest_end. lia.
  - apply list_elem_of_singleton in Hx as ->. unfold signal_end, effective_start. rewrite Hs. cbn [rise default_shape].
    change (5000000 / 2) with 2500000. lia.
Qed.

(** Settings that can be used. *)
Definition usable (d : Difficulty) (sr : Z) (p : f32) : bool :=
  is_ok (band_validate d.(d_band)) &&
  (F64.is_finite p && F64.leb Decoder.PITCH_MARGIN_HZ p &&
   F64.leb p (F32.sub (F32.div (F32.of_Z sr) (F32.of_Z 2)) Decoder.PITCH_MARGIN_HZ)).

(** Any band with usable settings is made, whatever is drawn: nothing panics
    and nothing is refused.  The over's signals are all in the channel, in
    order and as they were but for fading added where there was none, as
    reported; the report names the noise, the static and the interfering
    station of the channel; that station sends a text that can be keyed, inside
    the passband, and ends with the over, so that the channel is at most its
    last edge (5 ms) longer. *)
Theorem band_channel_made d c l sr p seed : usable d sr p = true ->
  okay (band_channel_for d c l sr p seed) (fun '(ch, rep) =>
    ch.(Synth.sample_rate) = sr /\ ch.(ch_seed) = seed /\
    ch.(noise) = (awgn_snr <$> rep.(br_snr_db)) /\ ch.(qrn) = rep.(br_qrn) /\
    (exists l', Forall3 kept l l' rep.(br_qsb) /\
       match rep.(br_qrm) with
       | None => ch.(signals) = l'
       | Some r => exists g, ch.(signals) = l' ++ [g] /\
           qrm_ok (latest_end l) Decoder.PITCH_MARGIN_HZ
             (F32.sub (F32.div (F32.of_Z sr) (F32.of_Z 2)) Decoder.PITCH_MARGIN_HZ) p (g, r)
       end) /\
    latest_end l <= channel_duration ch <= latest_end l + 5000000).
Proof.
  intros Hu. apply andb_true_iff in Hu as [Hv Hp]. unfold band_channel_for. cbv zeta.
  destruct (band_validate (d_band d)) as [u|e]; [|done]. cbn [outcome_bind]. rewrite Hp. cbn [negb].
  eapply okay_bind; [apply (run_okay _ _ (fun _ => True))|intros snr _].
  { destruct (bc_snr_db _); [|by apply gives_ret]. eapply gives_bind; [apply draw_gives|intros x _]. by apply gives_ret. }
  eapply okay_bind; [apply run_okay, fade_all_gives|]. intros faded Hf. cbn beta in Hf.
  eapply okay_bind; [apply run_okay, draw_qrn_gives|intros q _].
  eapply okay_bind; [apply run_okay, draw_qrm_gives, latest_end_nonneg|]. intros m Hm. cbn beta in Hm. cbn [okay].
  cbn [Synth.sample_rate ch_seed noise qrn signals br_snr_db br_qrn br_qsb br_qrm]. do 4 (split; [done|]).
  assert (Hge : forall k, latest_end l <= latest_end (map fst faded ++ k)).
  { intros k. unfold latest_end. rewrite map_app, (kept_ends _ _ _ Hf), foldl_app. exact (proj1 (foldl_max _ _)). }
  unfold channel_duration. cbn [signals padding]. destruct m as [[g r]|]; cbn [fmap option_fmap option_map option_list fst snd].
  - specialize (Hm _ eq_refl). split; [exists (map fst faded); split; [done|by exists g]|].
    pose proof Hm as (_ & _ & H1 & H2 & H3 & _ & _ & _ & H4). pose proof (with_qrm_end _ _ _ g Hf H1 H2 H3 H4).
    specialize (Hge [g]). change (option_list (Some g)) with [g]. lia.
  - split; [exists (map fst faded); split; [done|by rewrite app_nil_r]|].
    rewrite app_nil_r. unfold latest_end. rewrite (kept_ends _ _ _ Hf). lia.
Qed.
End Facts.

(** ** An over with interference *)

(** A second and a half of key-down. *)
Definition one_over : list Signal := [starting_at (signal_new [mk_Segment true 1500000000] (F32.of_Z 700)) 300000000].

Section Over.
#[local] Instance hundred : Fuel := 100%nat.

(** The advanced preset with seed 1: the interference runs on past the over,
    by half an edge, and the audio is that much longer than without it. *)
Lemma interference_outlasts_over :
  match band_channel_for advanced None one_over 8000 (F32.of_Z 700) 1 with
  | Done (ch, rep) => negb (is_none rep.(br_qrm)) && (channel_duration ch =? latest_end one_over + 2500000)
  | _ => false
  end = true.
Proof. vm_compute. reflexivity. Qed.
Lemma band_channel_made_witness :
  match band_channel_for advanced None one_over 8000 (F32.of_Z 700) 1 with
  | Done (ch, rep) => ch.(qrn) = rep.(br_qrn) /\ latest_end one_over <= channel_duration ch <= latest_end one_over + 5000000
  | _ => False
  end.
Proof.
  pose proof interference_outlasts_over as Hd.
  pose proof (band_channel_made advanced None one_over 8000 (F32.of_Z 700) 1 ltac:(vm_compute; reflexivity)) as H.
  destruct (band_channel_for _ _ _ _ _ _) as [[ch rep]|e| |]; [|discriminate Hd..].
  destruct H as (_ & _ & _ & H1 & _ & H2). split; assumption.
Defined.
End Over.
