(* ===== verification/Capabilities.v ===== *)
(** * Capabilities: what a radio model can do (cat-framework/src/capabilities.rs)

    The capability tree as plain data, and the few functions on it: range
    membership, the S-meter scale, the CW charset check, and
    [CwCapability::validate], which decides whether a server may act on a CW
    description.  [RawRange::fraction], an [f32] for a display bar, is
    [Readouts.range_fraction]. *)

From S2P Require Import Prelude Text.

Inductive SignalSupport : Type :=
| SignalNone
| NativeScope (max_span_hz bins : Z)
| IfTapPoint (if_center_hz : Z) (inverted : bool).

Definition is_possible (s : SignalSupport) : bool :=
  match s with SignalNone => false | _ => true end.

Record RawRange : Type := mk_RawRange { raw_min : Z; raw_max : Z }.

Record FrequencyRange : Type := mk_FrequencyRange { min_hz : Z; max_hz : Z }.
Definition freq_contains (r : FrequencyRange) (hz : Z) : bool :=
  (r.(min_hz) <=? hz) && (hz <=? r.(max_hz)).

(** ** Endpoints *)

Inductive EndpointRole : Type := Cat | KeyingRole | Audio.
#[export] Instance EndpointRole_eq_dec : EqDecision EndpointRole.
Proof. solve_decision. Defined.

Record EndpointDescriptor : Type := mk_EndpointDescriptor {
  role : EndpointRole;
  required : bool;
  shareable_with : list EndpointRole }.
Record EndpointSet : Type := mk_EndpointSet { endpoints : list EndpointDescriptor }.

Definition endpoint_find (s : EndpointSet) (r : EndpointRole) : option EndpointDescriptor :=
  List.find (fun e => bool_decide (e.(role) = r)) s.(endpoints).
Definition endpoint_serves (s : EndpointSet) (r : EndpointRole) : bool :=
  existsb (fun e => bool_decide (e.(role) = r) || bool_decide (r ∈ e.(shareable_with)))
    s.(endpoints).
Definition handle_count (s : EndpointSet) : nat := length s.(endpoints).

(** ** VFOs, modes, filters *)

Record VfoCapability : Type := mk_VfoCapability {
  vfo_count : Z; vfo_split : bool; rit_hz : option Z; xit_hz : option Z }.

Inductive ModeKind : Type := KSsb | KCw | KAm | KFm | KData | KDigitalVoice.
Inductive Sideband : Type := Lower | Upper.
Inductive ModeId : Type :=
| Lsb | Usb | CwUpper | CwLower | Am | AmNarrow | Fm | FmNarrow
| RttyLsb | RttyUsb | DataLsb | DataUsb | DataFm | C4fm.
#[export] Instance ModeKind_eq_dec : EqDecision ModeKind.
Proof. solve_decision. Defined.
#[export] Instance ModeId_eq_dec : EqDecision ModeId.
Proof. solve_decision. Defined.

Record ModeDescriptor : Type := mk_ModeDescriptor {
  mode_id : ModeId;
  mode_label : string;
  mode_kind : ModeKind;
  mode_sideband : option Sideband;
  default_bandwidth_hz : Z }.

Record FilterCapability : Type := mk_FilterCapability {
  if_shift_hz : option Z; widths_hz : option (list Z); notch : bool }.

(** ** Meters *)

Inductive MeterKind : Type := MS | MPo | MSwr | MAlc | MId | MVdd | MComp.
#[export] Instance MeterKind_eq_dec : EqDecision MeterKind.
Proof. solve_decision. Defined.

Definition S_UNIT_LABELS : list string :=
  ["S0"; "S1"; "S2"; "S3"; "S4"; "S5"; "S6"; "S7"; "S8"; "S9"; "S9+10"; "S9+20";
   "S9+30"; "S9+40"; "S9+50"; "S9+60"]%string.

(** [SUnitScale]: the inclusive upper bound of each label. *)
Record SUnitScale : Type := mk_SUnitScale { thresholds : list Z }.

Definition TS570D : SUnitScale :=
  mk_SUnitScale [0; 1; 2; 3; 4; 5; 6; 7; 8; 9; 10; 11; 12; 13; 14; 65535].

(** The index [label] returns the label of, then the label itself. *)
Fixpoint label_from (i : nat) (bounds : list Z) (raw : Z) : option nat :=
  match bounds with
  | [] => None
  | bound :: bounds => if raw <=? bound then Some i else label_from (S i) bounds raw
  end.
Definition label_index (s : SUnitScale) (raw : Z) : nat :=
  match label_from 0 s.(thresholds) raw with
  | Some i => i
  | None => length S_UNIT_LABELS - 1
  end.
Definition label (s : SUnitScale) (raw : Z) : option string :=
  S_UNIT_LABELS !! label_index s raw.

Record MeterDescriptor : Type := mk_MeterDescriptor {
  meter_kind : MeterKind;
  raw_range : RawRange;
  active_on_transmit : bool;
  s_units : option SUnitScale }.
Record MeterSet : Type := mk_MeterSet { meters : list MeterDescriptor }.

Definition meter_find (s : MeterSet) (k : MeterKind) : option MeterDescriptor :=
  List.find (fun m => bool_decide (m.(meter_kind) = k)) s.(meters).
Definition meter_has (s : MeterSet) (k : MeterKind) : bool :=
  match meter_find s k with Some _ => true | None => false end.

(** ** Memory and menu *)

Record MemoryCapability : Type := mk_MemoryCapability {
  channels : RawRange; named : bool; stores_mode : bool; scan : bool }.
Record MenuCapability : Type := mk_MenuCapability { item_count : Z; menu_writable : bool }.

(** ** CW *)

Record HzRange : Type := mk_HzRange { hz_min : Z; hz_max : Z; step_hz : option Z }.
Definition hz_contains (r : HzRange) (hz : Z) : bool :=
  if (hz <? r.(hz_min)) || (r.(hz_max) <? hz) then false
  else match r.(step_hz) with
       | Some step => if 0 <? step then (hz - r.(hz_min)) mod step =? 0 else true
       | None => true
       end.

Record WpmRange : Type := mk_WpmRange { wpm_min : Z; wpm_max : Z }.
Definition wpm_contains (r : WpmRange) (wpm : Z) : bool :=
  (r.(wpm_min) <=? wpm) && (wpm <=? r.(wpm_max)).

Inductive BreakInKind : Type := BreakOff | Semi | Full.
Inductive CwPacing : Type := BufferFlag | Estimated.
Inductive CwAbort : Type := RadioStop | DrainOnly.
#[export] Instance BreakInKind_eq_dec : EqDecision BreakInKind.
Proof. solve_decision. Defined.
#[export] Instance CwPacing_eq_dec : EqDecision CwPacing.
Proof. solve_decision. Defined.
#[export] Instance CwAbort_eq_dec : EqDecision CwAbort.
Proof. solve_decision. Defined.

Record CwSendText : Type := mk_CwSendText {
  max_chunk_chars : Z;
  charset : text;
  pacing : CwPacing;
  abort_kind : CwAbort;
  requires_break_in : option BreakInKind }.

Definition rejected_char (s : CwSendText) (t : text) : option char :=
  List.find (fun c => negb (c =? space)
                      && negb (bool_decide (to_ascii_uppercase c ∈ s.(charset)))) t.
Definition accepts (s : CwSendText) (t : text) : bool :=
  match rejected_char s t with None => true | Some _ => false end.

Record TxGateCapability : Type := mk_TxGateCapability {
  low_power_raw : Z; low_power_label : string; power_raw_range : RawRange }.

Record CwCapability : Type := mk_CwCapability {
  pitch : option HzRange;
  pitch_writable : bool;
  keyer_wpm : option WpmRange;
  keyer_wpm_writable : bool;
  break_in_kinds : list BreakInKind;
  cap_send_text : option CwSendText;
  tx_gate : option TxGateCapability }.

Inductive CwCapabilityError : Type :=
| EmptyPitchRange | EmptyWpmRange | WritableWithoutRange | ZeroChunk | EmptyCharset
| CharsetNotUppercase | RequiredBreakInNotSelectable | SendWithoutTxGate | LowPowerOutOfRange.

(** [CwCapability::validate]; [is_lowercase] is [char::is_lowercase], a Unicode
    table of the standard library. *)
Definition validate (is_lowercase : char -> bool) (c : CwCapability)
  : result () CwCapabilityError :=
  let? _ := refuse_if (match c.(pitch) with
                       | Some p => p.(hz_max) <? p.(hz_min) | None => false end) EmptyPitchRange in
  let? _ := refuse_if (match c.(keyer_wpm) with
                       | Some w => w.(wpm_max) <? w.(wpm_min) | None => false end) EmptyWpmRange in
  let? _ := refuse_if ((c.(pitch_writable) && is_none c.(pitch))
                       || (c.(keyer_wpm_writable) && is_none c.(keyer_wpm)))
              WritableWithoutRange in
  let? _ := match c.(cap_send_text) with
            | Some send =>
                let? _ := refuse_if (send.(max_chunk_chars) =? 0) ZeroChunk in
                let? _ := refuse_if (bool_decide (send.(charset) = [])) EmptyCharset in
                let? _ := refuse_if (existsb is_lowercase send.(charset)) CharsetNotUppercase in
                let? _ := match send.(requires_break_in) with
                          | Some kind => refuse_if (negb (bool_decide (kind ∈ c.(break_in_kinds))))
                                           RequiredBreakInNotSelectable
                          | None => Ok tt
                          end in
                refuse_if (is_none c.(tx_gate)) SendWithoutTxGate
            | None => Ok tt
            end in
  match c.(tx_gate) with
  | Some gate =>
      let r := gate.(power_raw_range) in
      refuse_if ((gate.(low_power_raw) <? r.(raw_min)) || (r.(raw_max) <? gate.(low_power_raw)))
        LowPowerOutOfRange
  | None => Ok tt
  end.

Record RadioCapabilities : Type := mk_RadioCapabilities {
  model : string;
  cap_endpoints : EndpointSet;
  vfos : VfoCapability;
  modes : list ModeDescriptor;
  tuning_steps_hz : list Z;
  rx_range : FrequencyRange;
  filters : FilterCapability;
  cap_meters : MeterSet;
  memory : option MemoryCapability;
  menu : option MenuCapability;
  signal : SignalSupport;
  cw : option CwCapability }.

Definition supports_mode (c : RadioCapabilities) (id : ModeId) : bool :=
  existsb (fun m => bool_decide (m.(mode_id) = id)) c.(modes).
Definition mode (c : RadioCapabilities) (id : ModeId) : option ModeDescriptor :=
  List.find (fun m => bool_decide (m.(mode_id) = id)) c.(modes).

(** ** Facts *)

(** What a coherent CW description is. *)
Record cw_coherent (is_lowercase : char -> bool) (c : CwCapability) : Prop := mk_cw_coherent {
  coh_pitch : forall p, c.(pitch) = Some p -> p.(hz_min) <= p.(hz_max);
  coh_wpm : forall w, c.(keyer_wpm) = Some w -> w.(wpm_min) <= w.(wpm_max);
  coh_pitch_writable : c.(pitch_writable) = true -> is_Some c.(pitch);
  coh_wpm_writable : c.(keyer_wpm_writable) = true -> is_Some c.(keyer_wpm);
  coh_chunk : forall s, c.(cap_send_text) = Some s -> s.(max_chunk_chars) <> 0;
  coh_charset : forall s, c.(cap_send_text) = Some s ->
    s.(charset) <> [] /\ Forall (fun ch => is_lowercase ch = false) s.(charset);
  coh_break_in : forall s k, c.(cap_send_text) = Some s -> s.(requires_break_in) = Some k ->
    k ∈ c.(break_in_kinds);
  coh_gate : is_Some c.(cap_send_text) -> is_Some c.(tx_gate);
  coh_low_power : forall g, c.(tx_gate) = Some g ->
    g.(power_raw_range).(raw_min) <= g.(low_power_raw) <= g.(power_raw_range).(raw_max) }.

(** A description is accepted exactly when it is coherent: in particular a
    radio that can send text says how its power is clamped, and the clamp lies
    inside the radio's own range. *)
Theorem validate_ok_iff lc c : validate lc c = Ok tt <-> cw_coherent lc c.
Proof.
  unfold validate. rewrite !bind_unit_ok, !refuse_if_ok, orb_false_iff, !andb_false_iff, !is_none_false.
  split.
  - intros (Hp & Hw & [Hpw Hww] & Hs & Hg). split.
    + intros p E. rewrite E in Hp. lia.
    + intros w E. rewrite E in Hw. lia.
    + intros E. destruct Hpw; congruence.
    + intros E. destruct Hww; congruence.
    + intros s E. rewrite E, !bind_unit_ok, !refuse_if_ok in Hs. lia.
    + intros s E. rewrite E, !bind_unit_ok, !refuse_if_ok, existsb_false_Forall in Hs.
      destruct Hs as (_ & Hne & Hlc & _). split; [by case_bool_decide|done].
    + intros s k E Ek. rewrite E, !bind_unit_ok, !refuse_if_ok, Ek in Hs.
      destruct Hs as (_ & _ & _ & Hk & _). rewrite refuse_if_ok, negb_false_iff in Hk.
      by apply bool_decide_eq_true in Hk.
    + intros [s E]. rewrite E, !bind_unit_ok, !refuse_if_ok, is_none_false in Hs. tauto.
    + intros g E. rewrite E, refuse_if_ok in Hg. lia.
  - intros H. destruct H as [H1 H2 H3 H4 H5 H6 H7 H8 H9]. repeat split.
    + destruct (pitch c); [specialize (H1 _ eq_refl); lia|done].
    + destruct (keyer_wpm c); [specialize (H2 _ eq_refl); lia|done].
    + destruct (pitch_writable c); [right|left]; auto.
    + destruct (keyer_wpm_writable c); [right|left]; auto.
    + destruct (cap_send_text c) as [s|]; [|done].
      destruct (H6 _ eq_refl) as [Hne Hlc].
      rewrite !bind_unit_ok, !refuse_if_ok, existsb_false_Forall, is_none_false.
      split; [specialize (H5 _ eq_refl); lia|]. split; [by case_bool_decide|]. split; [done|].
      split; [|auto]. destruct (requires_break_in s) as [k|] eqn:Ek; [|done].
      rewrite refuse_if_ok, negb_false_iff. apply bool_decide_eq_true. eauto.
    + destruct (tx_gate c) as [g|]; [|done]. rewrite refuse_if_ok. specialize (H9 _ eq_refl). lia.
Qed.

Lemma rejected_char_none s t :
  rejected_char s t = None <->
  Forall (fun c => c = space \/ to_ascii_uppercase c ∈ s.(charset)) t.
Proof.
  unfold rejected_char. induction t as [|c t IH]; cbn; [by split|].
  rewrite Forall_cons. destruct (Z.eqb_spec c space); cbn.
  - rewrite IH. tauto.
  - case_bool_decide; cbn; [rewrite IH; tauto|]. split; [done|]. tauto.
Qed.

Lemma label_from_some i bounds raw k :
  label_from i bounds raw = Some k ->
  (i <= k)%nat /\ (exists b, bounds !! (k - i)%nat = Some b /\ raw <= b)
  /\ (forall j b, (j < k - i)%nat -> bounds !! j = Some b -> b < raw).
Proof.
  revert i. induction bounds as [|b bounds IH]; intros i; cbn; [done|].
  destruct (Z.leb_spec raw b) as [Hle|Hlt].
  - intros [= <-]. rewrite Nat.sub_diag. split; [lia|]. split; [by eexists|]. intros; lia.
  - intros (Hi & (b' & Hb & Hle) & Hmin)%IH. split; [lia|].
    replace (k - i)%nat with (S (k - S i)) by lia. cbn. split; [by eexists|].
    intros [|j] b'' Hj; cbn; [by intros [= <-]|]. intros. eapply Hmin; [|done]. lia.
Qed.

Lemma label_from_none i bounds raw :
  label_from i bounds raw = None -> Forall (fun b => b < raw) bounds.
Proof.
  revert i. induction bounds as [|b bounds IH]; intros i; cbn; [constructor|].
  destruct (Z.leb_spec raw b); [done|]. constructor; [done|]. by eapply IH.
Qed.

Lemma label_from_mono i bounds r1 r2 k1 k2 :
  r1 <= r2 -> label_from i bounds r1 = Some k1 -> label_from i bounds r2 = Some k2 -> (k1 <= k2)%nat.
Proof.
  revert i. induction bounds as [|b bounds IH]; intros i Hr; cbn; [done|].
  destruct (Z.leb_spec r1 b), (Z.leb_spec r2 b); try lia.
  - intros [= <-] [= <-]. lia.
  - intros [= <-] (? & _)%label_from_some. lia.
  - intros. eapply IH; eauto.
Qed.

(** A stronger reading never takes a weaker label, whatever the thresholds of
    the sixteen-entry scale are; and the label always exists. *)
Theorem label_monotone s r1 r2 :
  length s.(thresholds) = length S_UNIT_LABELS -> r1 <= r2 ->
  (label_index s r1 <= label_index s r2)%nat /\ is_Some (label s r1).
Proof.
  intros Hlen Hr.
  assert (Hlt : forall r, (label_index s r < length S_UNIT_LABELS)%nat).
  { intros r. unfold label_index. destruct (label_from _ _ r) as [k|] eqn:E; [|cbn; lia].
    apply label_from_some in E as (_ & (b & Hb & _) & _).
    rewrite Nat.sub_0_r in Hb. apply lookup_lt_Some in Hb. lia. }
  split; [|apply lookup_lt_is_Some_2, Hlt].
  unfold label_index. destruct (label_from 0 _ r1) as [k1|] eqn:E1, (label_from 0 _ r2) as [k2|] eqn:E2.
  - eapply label_from_mono; eauto.
  - apply label_from_some in E1 as (_ & (b & Hb & _) & _).
    rewrite Nat.sub_0_r in Hb. apply lookup_lt_Some in Hb. cbn in *. lia.
  - exfalso. apply label_from_none in E1. apply label_from_some in E2 as (_ & (b & Hb & Hle) & _).
    rewrite Nat.sub_0_r in Hb. eapply Forall_lookup_1 in E1; [|exact Hb]. cbn in E1. lia.
  - done.
Qed.

Lemma label_monotone_witness : (label_index TS570D 3 <= label_index TS570D 9)%nat /\ is_Some (label TS570D 3).
Proof. apply (label_monotone TS570D 3 9); [reflexivity|lia]. Defined.
