(* ===== verification/NativeTypes.v ===== *)
(** * NativeTypes: the native protocol's vocabulary shared by its session, its
    host and the CW supervisor (cat-native/src/lib.rs, cat-native/src/server.rs) *)

From S2P Require Import Prelude Text.

Inductive ErrorCode : Type :=
| NotReady | VersionMismatch | Unsupported | OutOfRange | Malformed | Forbidden.
#[export] Instance ErrorCode_eq_dec : EqDecision ErrorCode.
Proof. solve_decision. Defined.

(** [ConsoleId(u64)]: opaque, compared only. *)
Record ConsoleId : Type := from_raw { console_get : Z }.
#[export] Instance ConsoleId_eq_dec : EqDecision ConsoleId.
Proof. solve_decision. Defined.

Record HostRefusal : Type := mk_HostRefusal { code : ErrorCode; refusal_message : message }.
#[export] Instance HostRefusal_eq_dec : EqDecision HostRefusal.
Proof. solve_decision. Defined.

Definition host_refusal_from (m : message) : HostRefusal := mk_HostRefusal OutOfRange m.

Inductive StopReason : Type := Completed | Aborted | StopKeyDownCap | StopDisconnected | StopError.
#[export] Instance StopReason_eq_dec : EqDecision StopReason.
Proof. solve_decision. Defined.

Record RestoreStatus : Type := mk_RestoreStatus { rs_attempts : Z; rs_last_error : message }.

Record ArmedState : Type := mk_ArmedState {
  armed_callsign : text; armed_power_raw : Z; armed_mine : bool }.

Inductive SenderState : Type :=
| SenderIdle
| SenderSending (job sent_chars total_chars : Z)
| SenderDraining (job : Z)
| SenderStopped (job : Z) (reason : StopReason) (m : option message).
