(* ===== verification/Layout.v ===== *)
(** * Layout: how a console is arranged (cat-layout/src/lib.rs, theme.rs)

    A tree of splits with panels at its leaves, published by a server and
    solved by a console.  A layout arrives over the network, so the solver's
    arithmetic is kept at its width: 16 bits for sizes and positions, 32 for
    weights. *)

From S2P Require Import Prelude Text.

(** ** Data *)

Inductive PanelKind : Type :=
| Readout | MeterRail | BandBar | ModeBar | QuickBar | LevelsRail | Workspace | SpectrumPanel
| AfScope | AfFft | Status | CommandLine | Blank | Custom (name : text).
#[export] Instance PanelKind_eq_dec : EqDecision PanelKind.
Proof. solve_decision. Defined.

Definition METER_RAIL_ROWS : Z := 12.
Definition CW_PANEL : text := txt "cat.cw".

Definition is_furniture (k : PanelKind) : bool :=
  match k with Status | CommandLine => true | _ => false end.
Definition custom_name (k : PanelKind) : option text := match k with Custom n => Some n | _ => None end.
Definition cw_panel : PanelKind := Custom CW_PANEL.
Definition is_cw (k : PanelKind) : bool := bool_decide (custom_name k = Some CW_PANEL).

Inductive Direction : Type := Rows | Columns.
Inductive Size : Type := Fixed (n : Z) | Min (n : Z) | Fill (w : Z) | Natural.

Inductive Node : Type :=
| Panel (k : PanelKind)
| Split (d : Direction) (children : list Child)
with Child : Type := mk_Child (s : Size) (n : Node).
Definition child_size (c : Child) : Size := let 'mk_Child s _ := c in s.
Definition child_node (c : Child) : Node := let 'mk_Child _ n := c in n.

Fixpoint panels (n : Node) : list PanelKind :=
  match n with
  | Panel k => [k]
  | Split _ cs => concat (map (fun '(mk_Child _ n) => panels n) cs)
  end.
Definition places (n : Node) (k : PanelKind) : bool := bool_decide (k ∈ panels n).

Record Area : Type := mk_Area { ax : Z; ay : Z; width : Z; height : Z }.
Definition is_empty (a : Area) : bool := (a.(width) =? 0) || (a.(height) =? 0).
Record Placement : Type := mk_Placement { kind : PanelKind; area : Area }.
Record LayoutSpec : Type := mk_LayoutSpec { root : Node }.

Record Rgb : Type := mk_Rgb { red : Z; green : Z; blue : Z }.
Definition hex (v : Z) : Rgb :=
  mk_Rgb (Z.land (Z.shiftr v 16) 255) (Z.land (Z.shiftr v 8) 255) (Z.land v 255).
Record Theme : Type := mk_Theme {
  background : Rgb; panel_color : Rgb; ink : Rgb; accent : Rgb; signal_color : Rgb; warning : Rgb }.
Definition console_default : Theme :=
  mk_Theme (hex 395275) (hex 856341) (hex 13030364) (hex 15117124) (hex 5163390) (hex 14832700).

(** ** The solver *)

Definition u16 (z : Z) : Z := z mod 2 ^ 16.
Definition u32 (z : Z) : Z := z mod 2 ^ 32.

Definition want (s : Size) : Z := match s with Fixed n | Min n => n | Fill _ | Natural => 0 end.
Definition weight_of (s : Size) : Z := match s with Fill w => w | Natural => 1 | Min _ => 1 | Fixed _ => 0 end.

(** The first pass, all or nothing: what each is given, what is left. *)
Fixpoint first_pass (sizes : list Size) (remaining : Z) : list Z * Z :=
  match sizes with
  | [] => ([], remaining)
  | s :: sizes =>
      let got := if want s <=? remaining then want s else 0 in
      let '(given, remaining) := first_pass sizes (remaining - got) in (got :: given, remaining)
  end.

Definition total_weight (sizes : list Size) : Z := fold_left (fun a s => u32 (a + weight_of s)) sizes 0.

(** The second pass, from index [i]. *)
Fixpoint hand_out (sizes : list Size) (i : nat) (remainder weight : Z) (given : list Z) (handed : Z)
    (last_flexible : option nat) : list Z * Z * option nat :=
  match sizes with
  | [] => (given, handed, last_flexible)
  | s :: sizes =>
      let w := weight_of s in
      if w =? 0 then hand_out sizes (S i) remainder weight given handed last_flexible
      else
        let share := u32 (remainder * w) / weight in
        hand_out sizes (S i) remainder weight (alter (fun g => u16 (g + u16 share)) i given)
          (u32 (handed + share)) (Some i)
  end.

Definition solve (sizes : list Size) (total : Z) : list Z :=
  let '(given, remaining) := first_pass sizes total in
  let weight := total_weight sizes in
  if (0 <? weight) && (0 <? remaining) then
    let '(given, handed, last_flexible) := hand_out sizes 0 remaining weight given 0 None in
    match last_flexible with
    | Some i => alter (fun g => u16 (g + u16 (remaining - handed))) i given
    | None => given
    end
  else given.

(** [NaturalFn]: how much room a renderer needs for a panel. *)
Definition NaturalFn : Type := PanelKind -> Direction -> Z.
Definition default_natural : NaturalFn := fun k d =>
  match k, d with MeterRail, Rows => METER_RAIL_ROWS | _, _ => 1 end.

Definition concrete (c : Child) (d : Direction) (natural : NaturalFn) : Size :=
  match child_size c, child_node c with
  | Natural, Panel k => Fixed (natural k d)
  | Natural, Split _ _ => Fill 1
  | other, _ => other
  end.

Definition child_area (d : Direction) (a : Area) (offset span : Z) : Area :=
  match d with
  | Rows => mk_Area a.(ax) (u16 (a.(ay) + offset)) a.(width) span
  | Columns => mk_Area (u16 (a.(ax) + offset)) a.(ay) span a.(height)
  end.

(** The children of a split, one after another from [offset]. *)
Definition place_children (place : Node -> Area -> list Placement) (d : Direction) (a : Area)
  : list Child -> list Z -> Z -> list Placement :=
  fix go cs spans offset :=
    match cs, spans with
    | mk_Child _ n :: cs, span :: spans =>
        place n (child_area d a offset span) ++ go cs spans (u16 (offset + span))
    | _, _ => []
    end.
Definition extent (d : Direction) (a : Area) : Z := match d with Rows => a.(height) | Columns => a.(width) end.
Fixpoint place (natural : NaturalFn) (n : Node) (a : Area) : list Placement :=
  if is_empty a then []
  else
    match n with
    | Panel k => [mk_Placement k a]
    | Split d cs =>
        let spans := solve (map (fun c => concrete c d natural) cs) (extent d a) in
        place_children (place natural) d a cs spans 0
    end.

Definition resolve_with (l : LayoutSpec) (a : Area) (natural : NaturalFn) : list Placement := place natural l.(root) a.
Definition resolve (l : LayoutSpec) (a : Area) : list Placement := resolve_with l a default_natural.
Definition find_with (l : LayoutSpec) (a : Area) (k : PanelKind) (natural : NaturalFn) : option Area :=
  '(_, p) ← list_find (fun p => p.(kind) = k) (resolve_with l a natural); Some p.(area).
Definition find_panel (l : LayoutSpec) (a : Area) (k : PanelKind) : option Area := find_with l a k default_natural.

(** ** The spans *)

Fixpoint sum (l : list Z) : Z := match l with [] => 0 | x :: l => x + sum l end.
Definition wf_size (s : Size) : Prop := 0 <= want s < 2 ^ 16 /\ 0 <= weight_of s < 2 ^ 16.
Definition weights (sizes : list Size) : Z := sum (map weight_of sizes).

Lemma sum_app l1 l2 : sum (l1 ++ l2) = sum l1 + sum l2.
Proof. induction l1; cbn in *; lia. Qed.

Lemma u16_small z : 0 <= z < 2 ^ 16 -> u16 z = z.
Proof. intros. by apply Z.mod_small. Qed.
Lemma u32_small z : 0 <= z < 2 ^ 32 -> u32 z = z.
Proof. intros. by apply Z.mod_small. Qed.

Lemma first_pass_spec sizes : forall remaining, Forall wf_size sizes -> 0 <= remaining ->
  let '(given, rest) := first_pass sizes remaining in
  length given = length sizes /\ sum given + rest = remaining /\ 0 <= rest /\ Forall (fun g => 0 <= g) given
  /\ Forall2 (fun s g => g = want s \/ g = 0) sizes given.
Proof.
  induction sizes as [|s sizes IH]; intros remaining Hwf Hr; cbn; [split_and!; auto; lia|].
  apply Forall_cons_1 in Hwf as [[Hw _] Hwf].
  set (got := if want s <=? remaining then want s else 0).
  assert (Hg : 0 <= got <= remaining /\ (got = want s \/ got = 0))
    by (unfold got; destruct (Z.leb_spec (want s) remaining); lia).
  specialize (IH (remaining - got) Hwf ltac:(lia)). destruct (first_pass sizes _) as [given rest].
  destruct IH as (Hl & Hs & Hp & Hf & H2). split_and!; cbn; [lia|lia|lia| |]; constructor; auto; lia.
Qed.

Lemma weights_bound sizes : Forall wf_size sizes -> 0 <= weights sizes <= Z.of_nat (length sizes) * (2 ^ 16 - 1).
Proof. induction 1 as [|s l [_ Hw] _ IH]; unfold weights in *; cbn in *; lia. Qed.

Lemma total_weight_spec sizes :
  Forall wf_size sizes -> Z.of_nat (length sizes) <= 65536 -> total_weight sizes = weights sizes.
Proof.
  intros Hwf Hl. unfold total_weight.
  enough (H : forall a, 0 <= a -> a + weights sizes < 2 ^ 32 ->
    fold_left (fun a s => u32 (a + weight_of s)) sizes a = a + weights sizes).
  { rewrite H; [lia|lia|]. pose proof (weights_bound sizes Hwf). lia. }
  clear Hl. induction Hwf as [|s l [_ Hw] Hwf IH]; intros a Ha Hb; unfold weights in *; cbn in *; [lia|].
  pose proof (weights_bound l Hwf) as H. unfold weights in H. rewrite u32_small by lia. rewrite IH; lia.
Qed.

(** A flexible child's share of the remainder. *)
Definition share (r w : Z) (s : Size) : Z := r * weight_of s / w.

Lemma share_bounds r w s : 0 <= r -> 0 < w -> wf_size s -> 0 <= share r w s /\ share r w s * w <= r * weight_of s.
Proof.
  intros Hr Hw [_ Hs]. unfold share. split; [apply Z.div_pos; nia|].
  rewrite Z.mul_comm. apply Z.mul_div_le. lia.
Qed.

Lemma shares_le r w sizes : 0 <= r -> 0 < w -> Forall wf_size sizes ->
  0 <= sum (map (share r w) sizes) /\ sum (map (share r w) sizes) * w <= r * weights sizes.
Proof.
  intros Hr Hw. induction 1 as [|s l Hs _ IH]; unfold weights in *; cbn; [lia|].
  pose proof (share_bounds r w s Hr Hw Hs). nia.
Qed.
Lemma shares_bound r sizes : 0 <= r -> 0 < weights sizes -> Forall wf_size sizes ->
  0 <= sum (map (share r (weights sizes)) sizes) <= r.
Proof. intros Hr Hw Hwf. pose proof (shares_le r _ sizes Hr Hw Hwf). nia. Qed.

(** The loop adds to each flexible child its share and remembers the last. *)
Lemma hand_out_spec r w sizes : forall pre tail handed last,
  0 <= r < 2 ^ 16 -> 0 < w -> Forall wf_size sizes ->
  Forall2 (fun s g => 0 <= g /\ g + share r w s < 2 ^ 16) sizes tail ->
  0 <= handed -> handed + sum (map (share r w) sizes) < 2 ^ 32 ->
  exists last', hand_out sizes (length pre) r w (pre ++ tail) handed last
    = (pre ++ zip_with (fun s g => g + share r w s) sizes tail, handed + sum (map (share r w) sizes), last')
    /\ (weights sizes = 0 -> last' = last)
    /\ (0 < weights sizes -> exists i, last' = Some (length pre + i)%nat /\ exists s, sizes !! i = Some s /\ weight_of s <> 0).
Proof.
  induction sizes as [|s sizes IH]; intros pre tail handed last Hr Hw Hwf H2 Hh Hb.
  { apply Forall2_nil_inv_l in H2 as ->. exists last. cbn. split_and!; [by rewrite Z.add_0_r|done|lia]. }
  apply Forall2_cons_inv_l in H2 as (g & tail' & [Hg Hg2] & H2 & ->).
  apply Forall_cons_1 in Hwf as [Hs Hwf]. pose proof (weights_bound sizes Hwf) as Hwb.
  pose proof (share_bounds r w s ltac:(lia) Hw Hs) as [Hs0 Hs1]. pose proof Hs as [_ Hsw].
  pose proof (shares_le r w sizes ltac:(lia) Hw Hwf) as [Hss _]. cbn [map sum] in Hb.
  cbn [hand_out map sum zip_with]. unfold weights in *. cbn [map sum].
  assert (Happ : forall x, pre ++ x :: tail' = (pre ++ [x]) ++ tail') by (intros; by rewrite <- app_assoc).
  assert (Hlen : forall x : Z, S (length pre) = length (pre ++ [x])) by (intros; rewrite length_app; cbn; lia).
  destruct (Z.eqb_spec (weight_of s) 0) as [E0|E0].
  - assert (share r w s = 0) as Esh by (unfold share; rewrite E0, Z.mul_0_r; apply Z.div_0_l; lia).
    rewrite (Hlen g), Happ. destruct (IH (pre ++ [g]) tail' handed last) as (l' & -> & H0 & H1); try done; [lia|].
    unfold weights in H0, H1.
    exists l'. rewrite Esh, Z.add_0_r, <- app_assoc. split_and!; [by repeat f_equal; lia|intros; apply H0; lia|].
    intros Hpos. destruct H1 as (i & -> & Hi); [lia|]. exists (S i). rewrite length_app. cbn. split; [f_equal; lia|done].
  - assert (Hmul : 0 <= r * weight_of s < 2 ^ 32) by nia.
    rewrite (u32_small (r * weight_of s)) by done. change (r * weight_of s / w) with (share r w s).
    rewrite (u32_small (handed + share r w s)) by lia. rewrite (u16_small (share r w s)) by lia.
    rewrite alter_app_r_alt by lia. rewrite Nat.sub_diag. cbn [alter list_alter].
    rewrite (u16_small (g + share r w s)) by lia.
    rewrite (Hlen (g + share r w s)), Happ.
    destruct (IH (pre ++ [g + share r w s]) tail' (handed + share r w s) (Some (length pre))) as (l' & -> & H0 & H1);
      try done; [lia|lia|].
    unfold weights in H0, H1.
    exists l'. rewrite <- app_assoc. split_and!; [by rewrite Z.add_assoc|lia|]. intros _.
    destruct (Z.eq_dec (sum (map weight_of sizes)) 0) as [Ez|Ez].
    + exists O. rewrite (H0 Ez). cbn. split; [f_equal; lia|eauto].
    + destruct H1 as (i & -> & Hi); [lia|]. exists (S i). rewrite length_app. cbn. split; [f_equal; lia|done].
Qed.

Lemma sum_alter f i l g : l !! i = Some g -> sum (alter f i l) = sum l - g + f g.
Proof.
  revert i. induction l as [|x l IH]; intros [|i] E; cbn in *; simplify_eq; [lia|]. rewrite (IH _ E). lia.
Qed.
Lemma sum_ge l i g : Forall (fun x => 0 <= x) l -> l !! i = Some g -> 0 <= g <= sum l.
Proof.
  intros Hl. revert i. induction Hl as [|x l Hx Hl IH]; intros [|i] E; cbn in *; simplify_eq.
  - enough (0 <= sum l) by lia. clear -Hl. induction Hl; cbn; lia.
  - specialize (IH _ E). lia.
Qed.
Lemma sum_nonneg l : Forall (fun x => 0 <= x) l -> 0 <= sum l.
Proof. induction 1; cbn; lia. Qed.
Lemma sum_zip_with (f : Size -> Z) sizes given : length given = length sizes ->
  sum (zip_with (fun s g => g + f s) sizes given) = sum given + sum (map f sizes).
Proof.
  revert given. induction sizes as [|s sizes IH]; intros [|g given] E; try done. cbn. injection E as E.
  rewrite (IH given E). lia.
Qed.

(** What a child may be given: a fixed one its size or nothing. *)
Definition fixed_or_nothing (s : Size) (g : Z) : Prop := forall n, s = Fixed n -> g = n \/ g = 0.

Record good_spans (sizes : list Size) (total : Z) (spans : list Z) : Prop := {
  gs_length : length spans = length sizes;
  gs_nonneg : Forall (fun g => 0 <= g) spans;
  gs_le : sum spans <= total;
  gs_fill : 0 < weights sizes -> sum spans = total;
  gs_fixed : Forall2 fixed_or_nothing sizes spans }.

Lemma fixed_zip_with r w sizes given :
  Forall2 fixed_or_nothing sizes given ->
  Forall2 fixed_or_nothing sizes (zip_with (fun s g => g + share r w s) sizes given).
Proof.
  induction 1 as [|s g sizes given H _ IH]; cbn; constructor; [|done].
  intros n ->. unfold share. cbn. rewrite Z.mul_0_r, Zdiv_0_l, Z.add_0_r. by apply H.
Qed.
Lemma fixed_alter f sizes given i s :
  sizes !! i = Some s -> weight_of s <> 0 ->
  Forall2 fixed_or_nothing sizes given -> Forall2 fixed_or_nothing sizes (alter f i given).
Proof.
  intros Ei Hw H. revert i Ei. induction H as [|s' g sizes given Hh Ht IH]; intros [|i] Ei; cbn in *; simplify_eq.
  - constructor; [|done]. intros n ->. by destruct Hw.
  - constructor; [done|]. by apply IH.
Qed.

Lemma solve_good sizes total :
  Forall wf_size sizes -> Z.of_nat (length sizes) <= 65536 -> 0 <= total < 2 ^ 16 ->
  good_spans sizes total (solve sizes total).
Proof.
  intros Hwf Hn Ht. unfold solve. pose proof (first_pass_spec sizes total Hwf ltac:(lia)) as H1.
  destruct (first_pass sizes total) as [given r]. destruct H1 as (Hlen & Hsum & Hr & Hpos & Hwant).
  assert (Hfix : Forall2 fixed_or_nothing sizes given).
  { eapply Forall2_impl; [exact Hwant|]. intros s g H n ->. cbn in H. tauto. }
  rewrite (total_weight_spec sizes Hwf Hn). pose proof (sum_nonneg given Hpos).
  destruct (Z.ltb_spec 0 (weights sizes)) as [Hw|Hw]; cbn [andb]; [|split; try done; lia].
  destruct (Z.ltb_spec 0 r) as [Hr0|Hr0]; [|split; try done; lia].
  pose proof (shares_bound r sizes Hr Hw Hwf) as Hsh.
  destruct (hand_out_spec r (weights sizes) sizes [] given 0 None) as (l' & E & _ & Hl'); try done; try lia.
  { apply Forall2_same_length_lookup. split; [done|]. intros i s g Es Eg.
    pose proof (sum_ge _ _ _ Hpos Eg). assert (wf_size s) by (eapply Forall_lookup_1; eauto).
    assert (Hi : map (share r (weights sizes)) sizes !! i = Some (share r (weights sizes) s))
      by (rewrite list_lookup_fmap, Es; done).
    eapply sum_ge in Hi; [lia|]. apply Forall_fmap, (Forall_impl _ _ _ Hwf). intros s0 Hs0.
    by apply share_bounds. }
  cbn [length app] in E. rewrite Z.add_0_l in E. rewrite E. destruct (Hl' Hw) as (i & -> & s & Ei & Hs). cbn [length Nat.add].
  set (given2 := zip_with _ sizes given).
  assert (Hl2 : length given2 = length sizes) by (unfold given2; rewrite length_zip_with; lia).
  assert (Hs2 : sum given2 = sum given + sum (map (share r (weights sizes)) sizes)) by by apply sum_zip_with.
  assert (Hp2 : Forall (fun g => 0 <= g) given2).
  { apply Forall_zip_with_snd with (P := fun g => 0 <= g); [|done]. apply (Forall_impl _ _ _ Hwf). intros s0 H0 g Hg.
    pose proof (share_bounds r (weights sizes) s0 Hr Hw H0). lia. }
  destruct (lookup_lt_is_Some_2 given2 i) as [g Eg]; [rewrite Hl2; by eapply lookup_lt_Some|].
  pose proof (sum_ge _ _ _ Hp2 Eg).
  assert (Hf : u16 (g + u16 (r - sum (map (share r (weights sizes)) sizes)))
    = g + (r - sum (map (share r (weights sizes)) sizes))) by (rewrite (u16_small (r - _)), u16_small; lia).
  split; [by rewrite length_alter| | | |].
  - apply Forall_alter; [done|]. intros x Hx Hx0. rewrite Eg in Hx. injection Hx as <-. cbn beta. rewrite Hf. lia.
  - rewrite (sum_alter _ _ _ g Eg), Hf. lia.
  - intros _. rewrite (sum_alter _ _ _ g Eg), Hf. lia.
  - eapply fixed_alter; [exact Ei|done|]. by apply fixed_zip_with.
Qed.

(** ** The tiling *)

Definition contains (a : Area) (x y : Z) : bool :=
  (a.(ax) <=? x) && (x <? a.(ax) + a.(width)) && (a.(ay) <=? y) && (y <? a.(ay) + a.(height)).
(** How many placements a point is in. *)
Definition hits (ps : list Placement) (x y : Z) : Z := sum (map (fun p => Z.b2z (contains p.(area) x y)) ps).

Lemma hits_app p q x y : hits (p ++ q) x y = hits p x y + hits q x y.
Proof. unfold hits. by rewrite map_app, sum_app. Qed.

Definition fits (a : Area) : Prop :=
  0 <= a.(ax) /\ 0 <= a.(ay) /\ 0 <= a.(width) /\ 0 <= a.(height)
  /\ a.(ax) + a.(width) < 2 ^ 16 /\ a.(ay) + a.(height) < 2 ^ 16.

Section NodeInd.
  Context (P : Node -> Prop) (HP : forall k, P (Panel k))
    (HS : forall d cs, Forall (fun c => P (child_node c)) cs -> P (Split d cs)).
Fixpoint node_ind (n : Node) : P n :=
  match n with
  | Panel k => HP k
  | Split d cs =>
      HS d cs ((fix go cs : Forall (fun c => P (child_node c)) cs :=
        match cs with [] => Forall_nil_2 _ | mk_Child s n :: cs => Forall_cons_2 _ (mk_Child s n) cs (node_ind n) (go cs) end) cs)
  end.
End NodeInd.

(** Sizes as they travel, 16 bits, and no more children than weights can be
    added up for. *)
Fixpoint wf_node (n : Node) : Prop :=
  match n with
  | Panel _ => True
  | Split _ cs => Z.of_nat (length cs) <= 65536
                  /\ foldr (fun '(mk_Child s n) rest => wf_size s /\ wf_node n /\ rest) True cs
  end.
Lemma wf_split d cs : wf_node (Split d cs) ->
  Z.of_nat (length cs) <= 65536 /\ Forall (fun c => wf_size (child_size c) /\ wf_node (child_node c)) cs.
Proof. intros [Hl H]. split; [done|]. clear Hl. induction cs as [|[s n] cs IH]; [constructor|]. cbn in H. constructor; tauto. Qed.

Section Tiling.
  Context (natural : NaturalFn) (Hnat : forall k d, 0 <= natural k d < 2 ^ 16).

(** Every split has a child that takes up the slack. *)
Fixpoint elastic (n : Node) : Prop :=
  match n with
  | Panel _ => True
  | Split d cs => 0 < weights (map (fun c => concrete c d natural) cs)
                  /\ foldr (fun '(mk_Child _ n) rest => elastic n /\ rest) True cs
  end.
Lemma elastic_split d cs : elastic (Split d cs) ->
  0 < weights (map (fun c => concrete c d natural) cs) /\ Forall (fun c => elastic (child_node c)) cs.
Proof. intros [Hl H]. split; [done|]. clear Hl. induction cs as [|[s n] cs IH]; [constructor|]. cbn in H. constructor; tauto. Qed.

Lemma wf_concrete d c : wf_size (child_size c) -> wf_size (concrete c d natural).
Proof. destruct c as [[] []]; cbn; try done. intros _. split; cbn; [apply Hnat|lia]. Qed.

Lemma contains_empty a x y : is_empty a = true -> contains a x y = false.
Proof. unfold is_empty, contains. lia. Qed.

(** The strip of [a] from [offset] on, [span] wide. *)
Definition strip (d : Direction) (a : Area) (offset span : Z) : Area :=
  match d with
  | Rows => mk_Area a.(ax) (a.(ay) + offset) a.(width) span
  | Columns => mk_Area (a.(ax) + offset) a.(ay) span a.(height)
  end.
Lemma strip_split d a offset s1 s2 x y : 0 <= s1 -> 0 <= s2 ->
  Z.b2z (contains (strip d a offset (s1 + s2)) x y)
  = Z.b2z (contains (strip d a offset s1) x y) + Z.b2z (contains (strip d a (offset + s1) s2) x y).
Proof.
  intros. destruct d; unfold contains, strip; cbn;
    repeat match goal with
    | |- context [?u <=? ?v] => destruct (Z.leb_spec u v); try lia
    | |- context [?u <? ?v] => destruct (Z.ltb_spec u v); try lia
    end; cbn; lia.
Qed.
Lemma strip_all d a : strip d a 0 (extent d a) = a.
Proof. destruct a, d; unfold strip; cbn; f_equal; lia. Qed.
Lemma child_area_strip d a offset span : fits a -> 0 <= offset -> 0 <= span -> offset + span <= extent d a ->
  child_area d a offset span = strip d a offset span /\ fits (strip d a offset span).
Proof. intros (?&?&?&?&?&?) ???. destruct d; cbn in *; rewrite u16_small by lia; unfold fits; cbn; split; auto; lia. Qed.

(** A node that covers its area: every point of it at most once, no point
    outside, and if it is elastic every point exactly once. *)
Definition covers (n : Node) : Prop := forall a x y, fits a ->
  0 <= hits (place natural n a) x y <= Z.b2z (contains a x y)
  /\ (elastic n -> hits (place natural n a) x y = Z.b2z (contains a x y)).

Lemma children_cover d a x y cs : forall spans offset,
  Forall (fun c => covers (child_node c)) cs -> fits a -> 0 <= offset -> length spans = length cs ->
  Forall (fun g => 0 <= g) spans -> offset + sum spans <= extent d a ->
  0 <= hits (place_children (place natural) d a cs spans offset) x y <= Z.b2z (contains (strip d a offset (sum spans)) x y)
  /\ (Forall (fun c => elastic (child_node c)) cs ->
      hits (place_children (place natural) d a cs spans offset) x y = Z.b2z (contains (strip d a offset (sum spans)) x y)).
Proof.
  induction cs as [|[s n] cs IH]; intros [|g spans] offset Hc Ha Ho Hl Hp Hs; try done.
  { cbn. rewrite contains_empty by (destruct d; unfold is_empty; cbn; rewrite ?orb_true_r; done). done. }
  apply Forall_cons_1 in Hc as [Hn Hc]. apply Forall_cons_1 in Hp as [Hg Hp]. cbn [sum] in *.
  pose proof (sum_nonneg spans Hp). injection Hl as Hl.
  assert (Hx : extent d a < 2 ^ 16) by (destruct Ha as (?&?&?&?&?&?), d; cbn; lia).
  destruct (child_area_strip d a offset g) as [E Hfit]; [done|lia|lia|lia|].
  cbn [place_children]. rewrite hits_app, E, u16_small, strip_split by lia.
  destruct (Hn (strip d a offset g) x y Hfit) as [H1 H2].
  destruct (IH spans (offset + g) Hc Ha ltac:(lia) Hl Hp ltac:(lia)) as [H3 H4].
  cbn [child_node] in H1, H2. split; [lia|]. intros He. apply Forall_cons_1 in He as [He1 He2]. rewrite (H2 He1), (H4 He2). done.
Qed.

Lemma node_covers n : wf_node n -> covers n.
Proof.
  induction n as [k|d cs IH] using node_ind; intros Hwf a x y Ha; cbn [place].
  - destruct (is_empty a) eqn:E; [rewrite contains_empty by done; done|].
    unfold hits. cbn. destruct (contains a x y); cbn; lia.
  - destruct (is_empty a) eqn:E; [rewrite contains_empty by done; done|].
    apply wf_split in Hwf as [Hlen Hwf].
    assert (Hgood : good_spans (map (fun c => concrete c d natural) cs) (extent d a)
      (solve (map (fun c => concrete c d natural) cs) (extent d a))).
    { apply solve_good; [|by rewrite length_map|destruct Ha as (?&?&?&?&?&?), d; cbn; lia].
      apply Forall_fmap, (Forall_impl _ _ _ Hwf). intros c [Hc _]. by apply wf_concrete. }
    destruct Hgood as [Hl Hp Hle Hfill _]. rewrite length_map in Hl.
    assert (Hcs : Forall (fun c => covers (child_node c)) cs).
    { apply Forall_forall. intros c Hin. rewrite Forall_forall in IH, Hwf. apply IH; [done|]. by apply Hwf. }
    destruct (children_cover d a x y cs _ 0 Hcs Ha ltac:(lia) Hl Hp ltac:(lia)) as [H1 H2].
    pose proof (sum_nonneg _ Hp) as Hs0. set (spans := solve _ _) in *.
    pose proof (strip_split d a 0 (sum spans) (extent d a - sum spans) x y Hs0 ltac:(lia)) as Hsp.
    rewrite Zplus_minus, strip_all in Hsp.
    split; [destruct (contains (strip d a (0 + sum spans) _) x y); cbn in Hsp; lia|].
    intros He. apply elastic_split in He as [Hw He]. rewrite (H2 He), (Hfill Hw). by rewrite strip_all.
Qed.
End Tiling.

(** C14. A layout tiles its window: whatever tree a server publishes and however
    much room a renderer asks for, no panel lies outside the window and no two
    overlap, and when every split has a child that takes up the slack the
    panels cover the window exactly.  The positions are those of the 16-bit
    arithmetic of the solver, so none of it wraps. *)
Theorem layout_tiles l a natural x y :
  wf_node l.(root) -> fits a -> (forall k d, 0 <= natural k d < 2 ^ 16) ->
  hits (resolve_with l a natural) x y <= Z.b2z (contains a x y)
  /\ (elastic natural l.(root) -> hits (resolve_with l a natural) x y = Z.b2z (contains a x y)).
Proof. intros Hwf Ha Hn. unfold resolve_with. destruct (node_covers natural Hn l.(root) Hwf a x y Ha). split; [lia|done]. Qed.

(** A fixed panel is given its size or nothing, the rest is shared out
    completely: the solver's guarantees on one split. *)
Theorem solve_fills sizes total :
  Forall wf_size sizes -> Z.of_nat (length sizes) <= 65536 -> 0 <= total < 2 ^ 16 ->
  let spans := solve sizes total in
  length spans = length sizes /\ sum spans <= total /\ (0 < weights sizes -> sum spans = total)
  /\ Forall2 fixed_or_nothing sizes spans.
Proof. intros H1 H2 H3. by destruct (solve_good sizes total H1 H2 H3). Qed.

(** A child that cannot have its minimum is given part of it all the same: it
    loses the first pass and takes a share in the second. *)
Example short_min_gets_a_part : solve [Fixed 20; Min 40] 50 = [20; 30].
Proof. reflexivity. Qed.

(** The default answer for the meter rail is the roomier console's. *)
Example default_rail_is_roomy : default_natural MeterRail Rows = METER_RAIL_ROWS.
Proof. reflexivity. Qed.

(** A console: a rail beside a panorama, a status line below. *)
Definition example_layout : LayoutSpec :=
  mk_LayoutSpec (Split Rows
    [mk_Child (Min 1) (Split Columns [mk_Child (Fixed 22) (Panel MeterRail); mk_Child (Fill 3) (Panel SpectrumPanel)]);
     mk_Child (Fixed 1) (Panel Status)]).
Example example_layout_resolved :
  resolve example_layout (mk_Area 0 0 80 24)
  = [mk_Placement MeterRail (mk_Area 0 0 22 23); mk_Placement SpectrumPanel (mk_Area 22 0 58 23);
     mk_Placement Status (mk_Area 0 23 80 1)].
Proof. vm_compute. reflexivity. Qed.

Lemma example_layout_wf : wf_node example_layout.(root).
Proof. cbn. unfold wf_size. cbn. lia. Qed.

Lemma layout_tiles_witness : hits (resolve example_layout (mk_Area 0 0 80 24)) 79 23 = 1.
Proof.
  destruct (layout_tiles example_layout (mk_Area 0 0 80 24) default_natural 79 23 example_layout_wf) as [_ H].
  - unfold fits. cbn. lia.
  - intros [] []; vm_compute; split; congruence.
  - apply H. cbn. unfold weights. cbn. lia.
Defined.
Lemma solve_fills_witness : sum (solve [Fixed 22; Fill 3; Fill 1; Min 5] 80) = 80.
Proof.
  destruct (solve_fills [Fixed 22; Fill 3; Fill 1; Min 5] 80) as (_ & _ & H & _).
  - repeat constructor; cbn; lia.
  - cbn. lia.
  - lia.
  - apply H. unfold weights. cbn. lia.
Defined.
