(* ===== verification/Installation.v ===== *)
(** * Installation: what is wired to a radio on one bench
    (cat-framework/src/installation.rs), with the signal and device vocabulary
    it is written in (cat-signal/src/lib.rs, device.rs, audio.rs) *)

From S2P Require Import Prelude Text Capabilities.

(** ** Signal sources *)

Record IfTapConfig : Type := mk_IfTapConfig { if_center_hz : Z; if_inverted : bool; trim_hz : Z }.
Inductive SignalCapability : Type :=
| CapNone
| CapNativeScope (max_span_hz bins : Z)
| CapIfTap (c : IfTapConfig)
| CapDirectSdr (lo_hz hi_hz : Z)
| CapAudioDerived (max_bandwidth_hz : Z).
Definition cap_is_band_panorama (c : SignalCapability) : bool :=
  match c with CapNativeScope _ _ | CapIfTap _ | CapDirectSdr _ _ => true | _ => false end.
Definition is_present (c : SignalCapability) : bool := match c with CapNone => false | _ => true end.

(** A frame's samples are [f32]s, kept as their 32 bits: the protocol only
    carries them. *)
Definition f32_bits : Type := Z.
Record SpectrumFrame : Type := mk_SpectrumFrame {
  center_hz : Z; sf_span_hz : Z; ref_level_dbm : f32_bits; sf_bins : list f32_bits; sf_sequence : Z }.
Record AudioScopeFrame : Type := mk_AudioScopeFrame {
  sample_rate_hz : Z; samples : list f32_bits; scope_sequence : Z }.
Record AudioSpectrumFrame : Type := mk_AudioSpectrumFrame {
  start_hz : Z; as_span_hz : Z; as_bins : list f32_bits; as_sequence : Z }.
Record AudioFrame : Type := mk_AudioFrame { scope : AudioScopeFrame; spectrum : AudioSpectrumFrame }.
Definition audio_sequence (f : AudioFrame) : Z := f.(scope).(scope_sequence).

(** ** Devices *)

Inductive DeviceKind : Type := AudioInput | Sdr | AudioOutput.
#[export] Instance DeviceKind_eq_dec : EqDecision DeviceKind.
Proof. solve_decision. Defined.
Definition device_heading (k : DeviceKind) : string :=
  match k with AudioInput => "AUDIO INPUT" | Sdr => "SDR" | AudioOutput => "AUDIO OUTPUT" end%string.
Definition device_flag (k : DeviceKind) : string :=
  match k with AudioInput => "--acc2-audio" | Sdr => "--if-out" | AudioOutput => "--audio-out" end%string.
Record DeviceInfo : Type := mk_DeviceInfo {
  dev_kind : DeviceKind; dev_spec : text; dev_label : text; dev_detail : option text; is_default : bool }.
Record DeviceList : Type := mk_DeviceList { list_kind : DeviceKind; devices : list DeviceInfo; list_error : option text }.
Definition device_found (k : DeviceKind) (ds : list DeviceInfo) : DeviceList := mk_DeviceList k ds None.
Definition device_unavailable (k : DeviceKind) (why : text) : DeviceList := mk_DeviceList k [] (Some why).
Definition is_available (l : DeviceList) : bool := match l.(list_error) with None => true | Some _ => false end.
Definition default_device (l : DeviceList) : option DeviceInfo := List.find is_default l.(devices).

(** ** The installation *)

Inductive SourceState : Type := Configured | Streaming.
Inductive AudioOrigin : Type := RadioOutput | TapDemodulated.
#[export] Instance SourceState_eq_dec : EqDecision SourceState.
Proof. solve_decision. Defined.
#[export] Instance AudioOrigin_eq_dec : EqDecision AudioOrigin.
Proof. solve_decision. Defined.

Record InstalledSource : Type := mk_InstalledSource {
  capability : SignalCapability; source_state : SourceState; source_label : text; audio_origin : option AudioOrigin }.
Definition source_new (c : SignalCapability) (s : SourceState) (label : text) : InstalledSource :=
  mk_InstalledSource c s label None.
Definition from_origin (s : InstalledSource) (o : AudioOrigin) : InstalledSource :=
  mk_InstalledSource s.(capability) s.(source_state) s.(source_label) (Some o).
Definition reflects_radio_dsp (s : InstalledSource) : bool := bool_decide (s.(audio_origin) = Some RadioOutput).
Definition is_band_panorama (s : InstalledSource) : bool := cap_is_band_panorama s.(capability).
Definition is_streaming (s : InstalledSource) : bool := bool_decide (s.(source_state) = Streaming).

Record Installation : Type := mk_Installation { connected : list EndpointRole; sources : list InstalledSource }.
Definition installation_default : Installation := mk_Installation [] [].
Definition bare (connected : list EndpointRole) : Installation := mk_Installation connected [].
Definition with_source (i : Installation) (s : InstalledSource) : Installation :=
  mk_Installation i.(connected) (i.(sources) ++ [s]).
Definition is_connected (i : Installation) (r : EndpointRole) : bool := bool_decide (r ∈ i.(connected)).
Definition band_panorama (i : Installation) : option InstalledSource := List.find is_band_panorama i.(sources).
Definition audio_sources (i : Installation) : list InstalledSource :=
  List.filter (fun s => match s.(capability) with CapAudioDerived _ => true | _ => false end) i.(sources).
Definition radio_audio (i : Installation) : option InstalledSource := List.find reflects_radio_dsp (audio_sources i).
Definition has_multiple_audio_sources (i : Installation) : bool := (1 <? length (audio_sources i))%nat.
Definition if_tap_from (r : RadioCapabilities) (trim : Z) (s : SourceState) (label : text) : option InstalledSource :=
  match r.(signal) with
  | IfTapPoint center inverted => Some (source_new (CapIfTap (mk_IfTapConfig center inverted trim)) s label)
  | _ => None
  end.

Record InstallationSession : Type := mk_InstallationSession { radio : RadioCapabilities; session_installation : Installation }.
Definition has_panorama (s : InstallationSession) : bool :=
  match band_panorama s.(session_installation) with Some _ => true | None => false end.
Definition panorama_possible_but_absent (s : InstallationSession) : bool :=
  is_possible s.(radio).(signal) && negb (has_panorama s).

(** ** Facts *)

(** The first panorama stays the panorama: adding a source never replaces one,
    and adds one only if it is one. *)
Theorem with_source_panorama i s :
  band_panorama (with_source i s)
  = match band_panorama i with
    | Some p => Some p
    | None => if is_band_panorama s then Some s else None
    end.
Proof.
  unfold band_panorama, with_source. cbn [sources]. induction (sources i) as [|x l IH]; cbn; [done|].
  by destruct (is_band_panorama x).
Qed.

(** A radio with an IF tap and an SDR on it has a panorama; an audio source
    never makes one. *)
Theorem if_tap_makes_panorama r trim st label s i :
  if_tap_from r trim st label = Some s -> has_panorama (mk_InstallationSession r (with_source i s)) = true.
Proof.
  intros H. unfold has_panorama. cbn [session_installation]. rewrite with_source_panorama.
  unfold if_tap_from in H. destruct (signal r); simplify_eq. by destruct (band_panorama i).
Qed.
