(* ===== verification/Panorama.v ===== *)
(** * Panorama: spectrum frames to columns (cat-ui/src/spectrum.rs, spectrum_map.rs, spectrum_trace.rs)

    The waterfall's bounded history, the projection of a frame's bins on to a
    display's columns, and the trace with its peak hold.  A frame's levels are
    the bits it carries ([Installation.SpectrumFrame]), read as [f32] here. *)

From Stdlib Require Import Floats.SpecFloat.
From S2P Require Import Prelude Text Morse Timing Floats Capabilities Layout Installation.

(** ** [f32] bits *)

(** [f32::from_bits]. *)
Definition from_bits (z : Z) : f32 :=
  let s := Z.testbit z 31 in
  let e := Z.land (Z.shiftr z 23) 255 in
  let m := Z.land z 0x7FFFFF in
  if e =? 255 then if m =? 0 then S754_infinity s else S754_nan
  else if e =? 0 then match m with Zpos p => S754_finite s p (-149) | _ => S754_zero s end
  else match m + 0x800000 with Zpos p => S754_finite s p (e - 150) | _ => S754_nan end.

(** ** The history (spectrum.rs) *)

Record SpectrumHistory : Type := mk_SpectrumHistory { frames : list SpectrumFrame; capacity : nat; dropped : Z }.
Definition history_new (capacity : nat) : SpectrumHistory := mk_SpectrumHistory [] (Nat.max capacity 1) 0.
(** Newest first: [pop_back] when full, then [push_front]. *)
Definition push (f : SpectrumFrame) (h : SpectrumHistory) : SpectrumHistory :=
  if (length h.(frames) =? h.(capacity))%nat
  then mk_SpectrumHistory (f :: removelast h.(frames)) h.(capacity) (h.(dropped) + 1)
  else mk_SpectrumHistory (f :: h.(frames)) h.(capacity) h.(dropped).
Definition latest (h : SpectrumHistory) : option SpectrumFrame := head h.(frames).
Definition saturating_sub (a b : Z) : Z := Z.max 0 (a - b).
Definition gap_before_latest (h : SpectrumHistory) : Z :=
  match h.(frames) with
  | newest :: previous :: _ =>
      saturating_sub (saturating_sub newest.(sf_sequence) previous.(sf_sequence)) 1
  | _ => 0
  end.
Definition clear (h : SpectrumHistory) : SpectrumHistory := mk_SpectrumHistory [] h.(capacity) h.(dropped).

(** ** The projection (spectrum_map.rs) *)

(** [x.round() as i32]. *)
Definition round_i32 (x : f64) : Z :=
  match x with
  | S754_finite s m e =>
      let r := if 0 <=? e then Z.pos m * 2 ^ e else (2 * Z.pos m + 2 ^ (- e)) / 2 ^ (1 - e) in
      Z.max (- 2 ^ 31) (Z.min (if s then - r else r) (2 ^ 31 - 1))
  | S754_infinity s => if s then - 2 ^ 31 else 2 ^ 31 - 1
  | _ => 0
  end.
(** [u64 as i64]. *)
Definition as_i64 (z : Z) : Z := if z <? 2 ^ 63 then z else z - 2 ^ 64.
(** [i64 - i64], as the release build wraps it. *)
Definition wrapping_sub_i64 (a b : Z) : Z := (a - b + 2 ^ 63) mod 2 ^ 64 - 2 ^ 63.
Definition projection_offset (frame reference : SpectrumFrame) (width : Z) : Z :=
  if (reference.(sf_span_hz) =? 0) || (width =? 0) then 0
  else
    let delta := wrapping_sub_i64 (as_i64 frame.(center_hz)) (as_i64 reference.(center_hz)) in
    round_i32 (F64.mul (F64.div (F64.of_Z delta) (F64.of_Z reference.(sf_span_hz))) (F64.of_Z width)).

Definition F32_EPSILON : f32 := S754_finite false 8388608 (-46).
Definition intensity (dbm floor_dbm ref_dbm : f32) : f32 :=
  if F64.ltb (SFabs (F32.sub ref_dbm floor_dbm)) F32_EPSILON then F32.of_Z 0
  else F64.clamp (F32.div (F32.sub dbm floor_dbm) (F32.sub ref_dbm floor_dbm)) (F32.of_Z 0) (F32.of_Z 1).

(** The half-open range of bins a column covers. *)
Definition column_bins (bins column width : Z) : Z * Z :=
  if (bins =? 0) || (width =? 0) then (0, 0)
  else
    let lo := column * bins / width in
    let hi := (column + 1) * bins / width in
    let lo := Z.min lo (bins - 1) in
    (lo, Z.min (Z.max hi (lo + 1)) bins).
(** [max_by] over bins given by number, the last of the greatest. *)
Fixpoint strongest (best : Z * f32) (rest : list (Z * f32)) : Z * f32 :=
  match rest with
  | [] => best
  | x :: rest => strongest (if F64.ltb x.2 best.2 then best else x) rest
  end.
(** The bins from [lo] up to [hi], with their numbers. *)
Definition bins_between (bins : list f32) (lo hi : Z) : list (Z * f32) :=
  take (Z.to_nat (hi - lo)) (drop (Z.to_nat lo) (imap (fun i x => (Z.of_nat i, x)) bins)).
Definition bin_for_column (bins : list f32) (column width : Z) : option (Z * f32) :=
  let '(lo, hi) := column_bins (Z.of_nat (length bins)) column width in
  match bins_between bins lo hi with
  | [] => None
  | x :: rest => Some (strongest x rest)
  end.

Inductive Sample : Type := Signal (x : f32) | NoData.
Definition sample_column (frame reference : SpectrumFrame) (column width : Z) (floor_dbm : f32) : Sample :=
  if bool_decide (frame.(sf_bins) = []) then NoData
  else
    let src := column - projection_offset frame reference width in
    if (src <? 0) || (width <=? src) then NoData
    else
      match bin_for_column (map from_bits frame.(sf_bins)) src width with
      | None => NoData
      | Some (_, x) => Signal (intensity x floor_dbm (from_bits frame.(ref_level_dbm)))
      end.

(** ** The trace (spectrum_trace.rs) *)

Definition PEAK_FALL : Z := 2000000000.
Definition as_secs_f32 (ns : Z) : f32 :=
  F32.add (F32.of_Z (ns / 1000000000)) (F32.div (F32.of_Z (ns mod 1000000000)) (F32.of_Z 1000000000)).
(** [updated] is an instant in nanoseconds. *)
Record Trace : Type := mk_Trace { live : list (option f32); peak : list (option f32); updated : option Z }.
Definition trace_new : Trace := mk_Trace [] [] None.
Definition hold (fall : f32) (held value : option f32) : option f32 :=
  match held, value with
  | Some h, Some v => if F64.leb h v then Some v else Some (F64.max (F32.sub h fall) v)
  | Some h, None => let faded := F32.sub h fall in if F64.ltb (F32.of_Z 0) faded then Some faded else None
  | None, v => v
  end.
Definition push_at (frame : SpectrumFrame) (width : Z) (floor_dbm : f32) (now : Z) (t : Trace) : Trace :=
  let width := Z.max width 1 in
  let n := Z.to_nat width in
  let t := if (length t.(live) =? n)%nat then t else mk_Trace (replicate n None) (replicate n None) None in
  let fall := match t.(updated) with
              | Some then_ => F32.div (as_secs_f32 (saturating_sub now then_)) (F64.max (as_secs_f32 PEAK_FALL) F32_EPSILON)
              | None => F32.of_Z 1
              end in
  let values := map (fun c => match sample_column frame frame (Z.of_nat c) width floor_dbm with
                              | Signal v => Some v
                              | NoData => None
                              end) (seq 0 n) in
  mk_Trace values (zip_with (hold fall) t.(peak) values) (Some now).
Definition trace_clear (t : Trace) : Trace :=
  mk_Trace (map (fun _ => None) t.(live)) (map (fun _ => None) t.(peak)) None.
Definition dbm_at (value floor_dbm ref_level_dbm : f32) : f32 :=
  F32.add floor_dbm (F32.mul value (F32.sub ref_level_dbm floor_dbm)).

(** ** What is proved *)

Lemma removelast_take {A} (l : list A) : removelast l = take (length l - 1) l.
Proof.
  induction l as [|x [|y l] IH]; [done|done|]. cbn [removelast length] in *. rewrite IH.
  replace (S (S (length l)) - 1)%nat with (S (S (length l) - 1)) by lia. done.
Qed.

(** The waterfall's history is the last frames given to it, newest first, and
    it knows how many it let go. *)
Theorem history_is_recent cap fs :
  let h := foldl (fun h f => push f h) (history_new cap) fs in
  h.(frames) = take (Nat.max cap 1) (rev fs) /\ h.(capacity) = Nat.max cap 1 /\
  h.(dropped) = Z.max 0 (Z.of_nat (length fs) - Z.of_nat (Nat.max cap 1)).
Proof.
  cbv zeta. induction fs as [|f fs IH] using rev_ind.
  { cbn [foldl rev history_new frames capacity dropped length]. rewrite take_nil. split; [done|split; [done|lia]]. }
  rewrite foldl_app, rev_app_distr. cbn [foldl rev app]. destruct IH as (Hf & Hc & Hd).
  set (h := foldl _ _ fs) in *. assert (Hk : (1 <= Nat.max cap 1)%nat) by lia. revert Hf Hc Hd Hk.
  generalize (Nat.max cap 1). intros k Hf Hc Hd Hk. unfold push. rewrite Hf, Hc, length_take, length_rev, length_app. cbn [length].
  destruct (Nat.eqb_spec (Nat.min k (length fs)) k) as [E|E]; cbn [frames capacity dropped].
  - split; [|split; [done|rewrite Hd; lia]]. rewrite removelast_take, take_take, length_take, length_rev.
    destruct k as [|k]; [lia|]. cbn [take]. f_equal. f_equal. lia.
  - split; [|split; [done|rewrite Hd; lia]]. destruct k as [|k]; [lia|]. cbn [take]. f_equal.
    rewrite !take_ge by (rewrite length_rev; lia). done.
Qed.

(** *** Columns *)

Definition numbers (l : list f32) : Prop := Forall (fun x => F64.is_nan x = false) l.
Lemma leb_refl x : F64.is_nan x = false -> F64.leb x x = true.
Proof. intros Hx. apply nltb_leb; [done..|]. destruct (F64.ltb x x) eqn:E; [|done]. by rewrite (ltb_asym x x E) in E. Qed.
Lemma strongest_spec rest : forall best,
  Forall (fun x => F64.is_nan x.2 = false) (best :: rest) ->
  strongest best rest ∈ best :: rest /\ Forall (fun x => F64.leb x.2 (strongest best rest).2 = true) (best :: rest).
Proof.
  induction rest as [|y rest IH]; intros best Hn; cbn [strongest].
  - apply Forall_cons in Hn as [Hb _]. split; [left|]. constructor; [by apply leb_refl|constructor].
  - apply Forall_cons in Hn as [Hb Hn]. pose proof Hn as [Hy Hr]%Forall_cons.
    set (z := if F64.ltb y.2 best.2 then best else y).
    assert (Hz : F64.is_nan z.2 = false) by (unfold z; by destruct (F64.ltb _ _)).
    destruct (IH z) as [Hin Hall]; [by constructor|]. apply Forall_cons in Hall as [Hzs Hall].
    split; [|constructor; [|constructor; [|done]]].
    + apply elem_of_cons in Hin as [->|Hin]; [|by right; right]. unfold z. destruct (F64.ltb _ _); [left|right; left].
    + unfold z in Hzs. destruct (F64.ltb y.2 best.2) eqn:E; [done|]. eapply leb_trans; [by apply nltb_leb|done].
    + unfold z in Hzs. destruct (F64.ltb y.2 best.2) eqn:E; [|done]. eapply leb_trans; [by apply ltb_leb|done].
Qed.
Lemma bins_between_lookup l lo hi k : 0 <= lo ->
  bins_between l lo hi !! k =
    if (k <? Z.to_nat (hi - lo))%nat then (fun x => (lo + Z.of_nat k, x)) <$> l !! (Z.to_nat lo + k)%nat else None.
Proof.
  intros Hlo. unfold bins_between. destruct (Nat.ltb_spec k (Z.to_nat (hi - lo))); [|by rewrite lookup_take_ge].
  rewrite lookup_take_lt, lookup_drop, list_lookup_imap by done. destruct (l !! _); [|done]. cbn. do 2 f_equal. lia.
Qed.
Lemma column_bins_range n c w : 0 < n -> 0 < w -> 0 <= c < w ->
  let '(lo, hi) := column_bins n c w in 0 <= lo < hi /\ hi <= n.
Proof.
  intros Hn Hw Hc. unfold column_bins. replace ((n =? 0) || (w =? 0)) with false by lia. cbv zeta.
  assert (0 <= c * n / w) by (apply Z.div_pos; nia). lia.
Qed.
(** Of [n] bins drawn on [w] columns, bin [b] takes the stretch from [b / n] to
    [(b + 1) / n] of the display and column [c] that from [c / w] to
    [(c + 1) / w].  The two overlap: *)
Definition touches (n w c b : Z) : Prop := c * n < (b + 1) * w /\ b * w < (c + 1) * n.
(** The upper edge of the bin is in the column. *)
Definition ends_in (n w c b : Z) : Prop := c * n < (b + 1) * w <= (c + 1) * n.
(** Every bin ends in one column, which it touches. *)
Lemma ends_in_one n w b : 0 < n -> 0 < w -> 0 <= b < n ->
  exists c, 0 <= c < w /\ ends_in n w c b /\ touches n w c b /\ forall c', ends_in n w c' b -> c' = c.
Proof.
  intros Hn Hw Hb. unfold ends_in, touches. exists (((b + 1) * w - 1) / n).
  set (c := ((b + 1) * w - 1) / n).
  assert (Hc1 : n * c <= (b + 1) * w - 1) by (apply Z.mul_div_le; lia).
  assert (Hc2 : (b + 1) * w - 1 < n * Z.succ c) by (apply Z.mul_succ_div_gt; lia).
  assert (Hc0 : 0 <= c) by (apply Z.div_pos; nia).
  split; [nia|]. split; [nia|]. split; [nia|]. intros c' Hc'. nia.
Qed.
(** The range of a column holds only bins it touches, and all that end in it. *)
Lemma column_bins_span n c w : 0 < n -> 0 < w -> 0 <= c < w ->
  let '(lo, hi) := column_bins n c w in
  (forall b, lo <= b < hi -> touches n w c b) /\ (forall b, 0 <= b < n -> ends_in n w c b -> lo <= b < hi).
Proof.
  intros Hn Hw Hc. unfold column_bins, touches, ends_in. replace ((n =? 0) || (w =? 0)) with false by lia. cbv zeta.
  set (q := c * n / w). set (r := (c + 1) * n / w).
  assert (Hq1 : w * q <= c * n) by (apply Z.mul_div_le; lia).
  assert (Hq2 : c * n < w * Z.succ q) by (apply Z.mul_succ_div_gt; lia).
  assert (Hr1 : w * r <= (c + 1) * n) by (apply Z.mul_div_le; lia).
  assert (Hr2 : (c + 1) * n < w * Z.succ r) by (apply Z.mul_succ_div_gt; lia).
  assert (Hqn : q <= n - 1) by (apply Z.lt_succ_r; nia). rewrite (Z.min_l q (n - 1)) by done.
  split; intros b Hb.
  - split; [nia|]. destruct (Z.max_spec r (q + 1)) as [[? Em]|[? Em]]; rewrite Em in Hb; nia.
  - intros He. assert (q <= b) by (apply Z.lt_succ_r; nia). assert (b < r) by (apply Z.succ_lt_mono, Z.lt_succ_r; nia). lia.
Qed.
(** What a column shows: the strongest bin of its range. *)
Lemma bin_for_column_spec l c w : numbers l -> 0 < w -> 0 <= c < w -> l <> [] ->
  let '(lo, hi) := column_bins (Z.of_nat (length l)) c w in
  exists k y, bin_for_column l c w = Some (Z.of_nat k, y) /\ l !! k = Some y /\ lo <= Z.of_nat k < hi /\
    forall b x, l !! b = Some x -> lo <= Z.of_nat b < hi -> F64.leb x y = true.
Proof.
  intros Hn Hw Hc Hl. assert (0 < Z.of_nat (length l)) by (destruct l; [done|cbn [length]; lia]).
  pose proof (column_bins_range (Z.of_nat (length l)) c w) as Hr. unfold bin_for_column.
  destruct (column_bins _ c w) as [lo hi]. destruct Hr as [Hlo Hhi]; [lia..|].
  assert (Hin : forall b x, l !! b = Some x -> lo <= Z.of_nat b < hi -> bins_between l lo hi !! (b - Z.to_nat lo)%nat = Some (Z.of_nat b, x)).
  { intros b x Hx Hb. rewrite bins_between_lookup by lia.
    replace ((b - Z.to_nat lo <? Z.to_nat (hi - lo))%nat) with true by (symmetry; apply Nat.ltb_lt; lia).
    replace (Z.to_nat lo + (b - Z.to_nat lo))%nat with b by lia. rewrite Hx. cbn. do 2 f_equal. lia. }
  assert (Hof : forall p, p ∈ bins_between l lo hi -> exists k, p.1 = Z.of_nat k /\ l !! k = Some p.2 /\ lo <= Z.of_nat k < hi).
  { intros p [i Hi]%list_elem_of_lookup. rewrite bins_between_lookup in Hi by lia.
    destruct (Nat.ltb_spec i (Z.to_nat (hi - lo))); [|done].
    apply fmap_Some in Hi as (v & Hv & ->). exists (Z.to_nat lo + i)%nat. cbn. split; [lia|]. split; [done|lia]. }
  destruct (bins_between l lo hi) as [|p rest] eqn:Ep.
  { destruct (lookup_lt_is_Some_2 l (Z.to_nat lo)) as [x Hx]; [lia|]. specialize (Hin _ _ Hx ltac:(lia)). done. }
  destruct (strongest_spec rest p) as [Hs Hall].
  { apply Forall_forall. intros q Hq. destruct (Hof q Hq) as (k & _ & Hk & _). by eapply Forall_lookup_1 in Hk; [|exact Hn]. }
  destruct (Hof _ Hs) as (k & Ek & Hk & Hr). exists k, (strongest p rest).2.
  split; [by rewrite <- Ek; destruct (strongest p rest)|]. split; [done|]. split; [done|].
  intros b x Hx Hb. exact (Forall_lookup_1 _ _ _ _ Hall (Hin b x Hx Hb)).
Qed.

(** C39. Nothing is hidden or shown out of place.  Of a frame whose levels are
    numbers, on any number of columns: every column shows a bin of the frame
    that lies, in part at least, under that column, at a level no weaker than
    any bin whose upper edge falls in it; and every bin's upper edge falls in
    exactly one column of the display, one that the bin lies under. *)
Theorem no_carrier_hidden l w :
  numbers l -> 0 < w -> l <> [] ->
  let n := Z.of_nat (length l) in
  (forall c, 0 <= c < w -> exists k y,
     bin_for_column l c w = Some (Z.of_nat k, y) /\ l !! k = Some y /\ touches n w c (Z.of_nat k) /\
     forall b x, l !! b = Some x -> ends_in n w c (Z.of_nat b) -> F64.leb x y = true) /\
  forall b x, l !! b = Some x ->
    exists c, 0 <= c < w /\ ends_in n w c (Z.of_nat b) /\ touches n w c (Z.of_nat b) /\
      forall c', ends_in n w c' (Z.of_nat b) -> c' = c.
Proof.
  intros Hn Hw Hl n. assert (0 < n) by (unfold n; destruct l; [done|cbn [length]; lia]). split.
  - intros c Hc. pose proof (bin_for_column_spec l c w Hn Hw Hc Hl) as Hs.
    pose proof (column_bins_span n c w) as Hp. fold n in Hs. destruct (column_bins n c w) as [lo hi].
    destruct Hp as [Ht He]; [done..|]. destruct Hs as (k & y & E & Hk & Hr & Hall).
    exists k, y. split; [done|]. split; [done|]. split; [by apply Ht|].
    intros b x Hx Hb. apply (Hall b x Hx), He; [|done]. apply lookup_lt_Some in Hx. lia.
  - intros b x Hx%lookup_lt_Some. apply ends_in_one; lia.
Qed.
(** Five bins on two columns: the middle one, the strongest, ends in the right
    column and is shown there; the left one shows the strongest of its own. *)
Lemma no_carrier_hidden_witness :
  let l := map F32.of_Z [-110; -100; -40; -105; -90] in
  bin_for_column l 0 2 = Some (1, F32.of_Z (-100)) /\ bin_for_column l 1 2 = Some (2, F32.of_Z (-40)) /\
  exists c, 0 <= c < 2 /\ ends_in 5 2 c 2 /\ touches 5 2 c 2 /\ forall c', ends_in 5 2 c' 2 -> c' = c.
Proof.
  intros l. split; [vm_compute; reflexivity|]. split; [vm_compute; reflexivity|].
  refine (proj2 (no_carrier_hidden l 2 _ ltac:(lia) ltac:(discriminate)) 2%nat (F32.of_Z (-40)) eq_refl).
  repeat (apply Forall_cons_2; [vm_compute; reflexivity|]). apply Forall_nil_2.
Defined.

(** *** The trace *)

Lemma intensity_range dbm fl rf :
  F64.is_nan (intensity dbm fl rf) = true \/
  F64.leb (F32.of_Z 0) (intensity dbm fl rf) = true /\ F64.leb (intensity dbm fl rf) (F32.of_Z 1) = true.
Proof.
  unfold intensity. destruct (F64.ltb _ _); [right; split; vm_compute; reflexivity|]. apply clamp_range; vm_compute; reflexivity.
Qed.
Lemma hold_above fall h v w : hold fall h (Some v) = Some w -> F64.is_nan v = false -> F64.leb v w = true.
Proof.
  intros H Hv. destruct h as [h|]; cbn in H; [|injection H as <-; by apply leb_refl].
  destruct (F64.leb h v) eqn:E; injection H as <-; [by apply leb_refl|]. unfold F64.max.
  destruct (F64.is_nan (F32.sub h fall)) eqn:En; [by apply leb_refl|]. rewrite Hv.
  destruct (F64.ltb (F32.sub h fall) v) eqn:El; [by apply leb_refl|]. by apply nltb_leb.
Qed.

(** Whatever frame comes, at whatever instant and width, the trace has a value
    per column in the display's range, and its peak hold stands there at or
    above it. *)
Theorem peak_holds frame width fl now t :
  length t.(peak) = length t.(live) ->
  let t' := push_at frame width fl now t in
  length t'.(live) = Z.to_nat (Z.max width 1) /\ length t'.(peak) = length t'.(live) /\
  forall i v, t'.(live) !! i = Some (Some v) ->
    F64.is_nan v = true \/
    (F64.leb (F32.of_Z 0) v = true /\ F64.leb v (F32.of_Z 1) = true /\
     exists w, t'.(peak) !! i = Some (Some w) /\ F64.leb v w = true).
Proof.
  intros Hlen. unfold push_at. cbv zeta. set (n := Z.to_nat (Z.max width 1)).
  set (t0 := if (_ =? _)%nat then t else _).
  assert (Hp : length t0.(peak) = n).
  { unfold t0. destruct (Nat.eqb_spec (length (live t)) n); cbn [peak]; [congruence|apply length_replicate]. }
  set (fall := match updated t0 with Some _ => _ | None => _ end). set (vs := map _ (seq 0 n)).
  assert (Hv : length vs = n) by (unfold vs; by rewrite length_map, length_seq). cbn [live peak].
  split; [done|]. split; [rewrite length_zip_with; lia|]. intros i v Hi.
  assert (Hs : exists x, v = intensity x fl (from_bits (ref_level_dbm frame))).
  { unfold vs in Hi. rewrite list_lookup_fmap in Hi. apply fmap_Some in Hi as (c & _ & Hc). revert Hc.
    unfold sample_column. repeat case_match; try discriminate. all: intros [= ->]; simplify_eq; by eexists. }
  destruct Hs as [x Hx]. pose proof (intensity_range x fl (from_bits (ref_level_dbm frame))) as Hr. rewrite <- Hx in Hr.
  destruct (F64.is_nan v) eqn:Hn; [by left|]. right. destruct Hr as [Hr|[H0 H1]]; [done|]. split; [done|]. split; [done|].
  destruct (lookup_lt_is_Some_2 t0.(peak) i) as [h Hh]; [apply lookup_lt_Some in Hi; lia|].
  assert (Hz : zip_with (hold fall) (peak t0) vs !! i = Some (hold fall h (Some v))) by (by rewrite lookup_zip_with, Hh, Hi).
  destruct (hold fall h (Some v)) as [w|] eqn:Ew.
  - exists w. split; [done|]. by eapply hold_above.
  - destruct h as [h|]; cbn in Ew; [by destruct (F64.leb h v)|done].
Qed.
Lemma peak_holds_witness :
  let frame := mk_SpectrumFrame 14074000 48000 0xC1A00000 [0xC2DC0000; 0xC2200000] 1 in
  let t' := push_at frame 2 (F32.of_Z (-120)) 0 trace_new in
  length t'.(live) = 2%nat /\ length t'.(peak) = length t'.(live).
Proof.
  intros frame t'. destruct (peak_holds frame 2 (F32.of_Z (-120)) 0 trace_new eq_refl) as (H1 & H2 & _). by split.
Defined.
