(* ===== verification/Lanes.v ===== *)
(** * Lanes: what a console holds (cat-ui/src/lanes.rs)

    The slow lane with its commands in flight and its meters, the panorama's
    lane, the audio lane with its selector, and the state a console starts
    with.  A list of pairs the source searches and updates in place is
    [get]/[put] below. *)

From stdpp Require Import gmap.
From S2P Require Import Prelude Text Capabilities Layout Installation.
From S2P Require Panorama.

(** ** Pairs searched from the front *)

Section Pairs.
Context {K V : Type} `{EqDecision K}.
Definition get (k : K) (l : list (K * V)) : option V := snd <$> List.find (fun p => bool_decide (p.1 = k)) l.
Fixpoint put (k : K) (v : V) (l : list (K * V)) : list (K * V) :=
  match l with
  | [] => [(k, v)]
  | p :: l => if bool_decide (p.1 = k) then (p.1, v) :: l else p :: put k v l
  end.
End Pairs.

(** ** The slow lane *)

Inductive Control : Type :=
| VfoFrequency (vfo : Z) | Mode | Split | FilterWidth | IfShift | Notch | MemoryChannel | Meter (kind : MeterKind).
#[export] Instance Control_eq_dec : EqDecision Control.
Proof. solve_decision. Defined.
Inductive Outcome : Type := Confirmed | Rejected | Clamped.
Record Pending : Type := mk_Pending { token : Z; control : Control }.

Record CatLane : Type := mk_CatLane {
  lane_vfo_a_hz : option Z; lane_vfo_b_hz : option Z; lane_mode : option ModeId; lane_split : option bool;
  lane_transmitting : option bool; lane_filter_width_hz : option Z; lane_if_shift_hz : option Z;
  lane_notch : option bool; lane_memory_channel : option Z;
  lane_meters : list (MeterKind * Z); lane_meter_history : list (MeterKind * list Z); history_len : nat;
  in_flight : list Pending; next_token : Z; last_outcome : list (Control * Outcome) }.
Definition with_history (n : nat) : CatLane :=
  mk_CatLane None None None None None None None None None [] [] n [] 0 [].
Definition set_commands (f : list Pending) (t : Z) (o : list (Control * Outcome)) (l : CatLane) : CatLane :=
  mk_CatLane l.(lane_vfo_a_hz) l.(lane_vfo_b_hz) l.(lane_mode) l.(lane_split) l.(lane_transmitting)
    l.(lane_filter_width_hz) l.(lane_if_shift_hz) l.(lane_notch) l.(lane_memory_channel)
    l.(lane_meters) l.(lane_meter_history) l.(history_len) f t o.
Definition set_readings (m : list (MeterKind * Z)) (h : list (MeterKind * list Z)) (l : CatLane) : CatLane :=
  mk_CatLane l.(lane_vfo_a_hz) l.(lane_vfo_b_hz) l.(lane_mode) l.(lane_split) l.(lane_transmitting)
    l.(lane_filter_width_hz) l.(lane_if_shift_hz) l.(lane_notch) l.(lane_memory_channel)
    m h l.(history_len) l.(in_flight) l.(next_token) l.(last_outcome).

(** The token is a [u64]. *)
Definition begin (c : Control) (l : CatLane) : Z * CatLane :=
  let t := (l.(next_token) + 1) mod 2 ^ 64 in
  (t, set_commands (l.(in_flight) ++ [mk_Pending t c]) t l.(last_outcome) l).
(** [position] and [remove]: the first command with the token, and the rest. *)
Fixpoint take_token (t : Z) (l : list Pending) : option (Pending * list Pending) :=
  match l with
  | [] => None
  | p :: l => if p.(token) =? t then Some (p, l) else prod_map id (cons p) <$> take_token t l
  end.
Definition resolve (t : Z) (o : Outcome) (l : CatLane) : option Control * CatLane :=
  match take_token t l.(in_flight) with
  | None => (None, l)
  | Some (p, rest) => (Some p.(control), set_commands rest l.(next_token) (put p.(control) o l.(last_outcome)) l)
  end.
Definition is_pending (l : CatLane) (c : Control) : bool :=
  existsb (fun p => bool_decide (p.(control) = c)) l.(in_flight).
Definition outcome (l : CatLane) (c : Control) : option Outcome := get c l.(last_outcome).
Definition pending_count (l : CatLane) : nat := length l.(in_flight).
Definition is_busy (l : CatLane) : bool := negb (match l.(in_flight) with [] => true | _ => false end).

Definition meter (l : CatLane) (k : MeterKind) : option Z := get k (rev l.(lane_meters)).
Definition bounded (n : nat) (l : list Z) : list Z := if (n <? length l)%nat then tail l else l.
Definition set_meter (k : MeterKind) (raw : Z) (l : CatLane) : CatLane :=
  let m := put k raw l.(lane_meters) in
  if (l.(history_len) =? 0)%nat then set_readings m l.(lane_meter_history) l
  else
    let kept := default [] (get k l.(lane_meter_history)) in
    set_readings m (put k (bounded l.(history_len) (kept ++ [raw])) l.(lane_meter_history)) l.
Definition meter_history (l : CatLane) (k : MeterKind) : list Z := default [] (get k l.(lane_meter_history)).
Definition is_cold (l : CatLane) : bool :=
  is_none l.(lane_vfo_a_hz) && is_none l.(lane_mode) && match l.(lane_meters) with [] => true | _ => false end.

(** ** The other lanes *)

Inductive LaneState : Type := LaneAbsent | LaneConfigured | LaneStreaming.
#[export] Instance LaneState_eq_dec : EqDecision LaneState.
Proof. solve_decision. Defined.
Definition lane_state (s : option SourceState) : LaneState :=
  match s with None => LaneAbsent | Some Configured => LaneConfigured | Some Streaming => LaneStreaming end.
Definition has_data (s : LaneState) : bool := bool_decide (s = LaneStreaming).
Definition lane_is_present (s : LaneState) : bool := negb (bool_decide (s = LaneAbsent)).

Record SpectrumLane : Type := mk_SpectrumLane { history : Panorama.SpectrumHistory; spectrum_state : LaneState }.
Definition spectrum_lane (capacity : nat) (s : LaneState) : SpectrumLane :=
  mk_SpectrumLane (Panorama.history_new capacity) s.
Definition lane_push (f : SpectrumFrame) (l : SpectrumLane) : SpectrumLane :=
  mk_SpectrumLane (Panorama.push f l.(history)) l.(spectrum_state).

Record AudioChoice : Type := mk_AudioChoice {
  choice_label : text; origin : option AudioOrigin; choice_state : LaneState; max_bandwidth_hz : Z }.
Definition choice_shows_radio_dsp (c : AudioChoice) : bool := bool_decide (c.(origin) = Some RadioOutput).

Record AudioLane : Type := mk_AudioLane { choices : list AudioChoice; selected_index : nat }.
Fixpoint position {A} (f : A -> bool) (l : list A) : option nat :=
  match l with [] => None | x :: l => if f x then Some 0%nat else S <$> position f l end.
Definition audio_lane (cs : list AudioChoice) : AudioLane :=
  mk_AudioLane cs (default 0%nat (position choice_shows_radio_dsp cs)).
Definition selected (l : AudioLane) : option AudioChoice := l.(choices) !! l.(selected_index).
Definition select (i : nat) (l : AudioLane) : bool * AudioLane :=
  if (length l.(choices) <=? i)%nat then (false, l) else (true, mk_AudioLane l.(choices) i).
Definition cycle (l : AudioLane) : AudioLane :=
  match l.(choices) with
  | [] => l
  | cs => mk_AudioLane cs ((l.(selected_index) + 1) mod length cs)
  end.
Definition audio_state (l : AudioLane) : LaneState := default LaneAbsent (choice_state <$> selected l).
Definition has_choice (l : AudioLane) : bool := (1 <? length l.(choices))%nat.
Definition shows_radio_dsp (l : AudioLane) : bool :=
  match selected l with Some c => choice_shows_radio_dsp c | None => false end.

Record ConsoleState : Type := mk_ConsoleState { cat : CatLane; console_spectrum : SpectrumLane; audio : AudioLane }.
Definition audio_choice (s : InstalledSource) : AudioChoice :=
  mk_AudioChoice s.(source_label) s.(audio_origin) (lane_state (Some s.(source_state)))
    (match s.(capability) with CapAudioDerived w => w | _ => 0 end).
Definition for_installation (i : Installation) (capacity : nat) : ConsoleState :=
  mk_ConsoleState (with_history 0)
    (spectrum_lane capacity (lane_state (source_state <$> band_panorama i)))
    (audio_lane (map audio_choice (audio_sources i))).
Definition for_session (s : InstallationSession) (capacity : nat) : ConsoleState :=
  for_installation s.(session_installation) capacity.

(** ** Facts about pairs *)

Section PairFacts.
Context {K V : Type} `{EqDecision K}.
Implicit Types (k : K) (l : list (K * V)).

Lemma get_cons k p l : get k (p :: l) = if bool_decide (p.1 = k) then Some p.2 else get k l.
Proof. unfold get. cbn. by case_bool_decide. Qed.
Lemma get_put k v l k' : get k' (put k v l) = if bool_decide (k = k') then Some v else get k' l.
Proof.
  induction l as [|[q w] l IH]; cbn [put]; [by rewrite get_cons|].
  cbn [fst snd]. destruct (decide (q = k)) as [->|E].
  - rewrite bool_decide_true by done. rewrite !get_cons. cbn [fst snd]. by case_bool_decide.
  - rewrite (bool_decide_false (q = k)) by done. rewrite !get_cons. cbn [fst snd]. rewrite IH.
    repeat case_bool_decide; naive_solver.
Qed.
Lemma put_keys k v l : (put k v l).*1 = l.*1 \/ ((k ∉ l.*1) /\ (put k v l).*1 = l.*1 ++ [k]).
Proof.
  induction l as [|[q w] l IH]; cbn; [right; split; [apply not_elem_of_nil|done]|].
  case_bool_decide as E; cbn; [by left|]. destruct IH as [IH|[Hk IH]]; rewrite IH; [by left|right].
  split; [|done]. rewrite elem_of_cons. naive_solver.
Qed.
Lemma put_NoDup k v l : NoDup l.*1 -> NoDup (put k v l).*1.
Proof.
  intros Hl. destruct (put_keys k v l) as [->|[Hk ->]]; [done|]. apply NoDup_app. repeat split; [done| |apply NoDup_singleton].
  intros x Hx [->|Hn]%elem_of_cons; [done|by apply not_elem_of_nil in Hn].
Qed.
Lemma get_Some_elem k v l : NoDup l.*1 -> get k l = Some v <-> (k, v) ∈ l.
Proof.
  induction l as [|[q w] l IH]; intros Hl; [split; [done|by intros ?%not_elem_of_nil]|].
  cbn in Hl. apply NoDup_cons in Hl as [Hq Hl]. rewrite get_cons, elem_of_cons. cbn [fst snd].
  assert (Hin : (k, v) ∈ l -> k ∈ l.*1) by (intros ?; by apply (list_elem_of_fmap_2 fst l (k, v))).
  case_bool_decide; subst; naive_solver.
Qed.
Lemma get_rev k l : NoDup l.*1 -> get k (rev l) = get k l.
Proof.
  intros Hl. apply option_eq. intros v.
  rewrite !get_Some_elem; [by rewrite !list_elem_of_In, <- in_rev|done|].
  change (rev l).*1 with (map fst (rev l)). rewrite map_rev. by apply NoDup_ListNoDup, NoDup_rev, NoDup_ListNoDup.
Qed.
End PairFacts.

(** ** Commands in flight *)

(** What the lane promises: a token per command, the commands not yet
    settled by token, and how each control's last one ended. *)
Record Ledger : Type := mk_Ledger { issued : Z; open : gmap Z Control; ended : Control -> option Outcome }.
Definition ledger_new : Ledger := mk_Ledger 0 ∅ (fun _ => None).
Inductive Event : Type := Begin (c : Control) | Resolve (t : Z) (o : Outcome).
Inductive Answer : Type := Token (t : Z) | Settled (c : option Control).
Definition lane_step (e : Event) (l : CatLane) : Answer * CatLane :=
  match e with
  | Begin c => prod_map Token id (begin c l)
  | Resolve t o => prod_map Settled id (resolve t o l)
  end.
Definition ledger_step (e : Event) (s : Ledger) : Answer * Ledger :=
  match e with
  | Begin c => (Token (s.(issued) + 1), mk_Ledger (s.(issued) + 1) (<[s.(issued) + 1 := c]> s.(open)) s.(ended))
  | Resolve t o =>
      match s.(open) !! t with
      | None => (Settled None, s)
      | Some c => (Settled (Some c), mk_Ledger s.(issued) (delete t s.(open)) (fun d => if bool_decide (c = d) then Some o else s.(ended) d))
      end
  end.
Fixpoint run {S} (step : Event -> S -> Answer * S) (es : list Event) (s : S) : list Answer * S :=
  match es with
  | [] => ([], s)
  | e :: es => let '(a, s) := step e s in let '(r, s) := run step es s in (a :: r, s)
  end.

Definition entries (l : list Pending) : list (Z * Control) := map (fun p => (p.(token), p.(control))) l.
Record tracks (l : CatLane) (s : Ledger) : Prop := {
  tr_next : l.(next_token) = s.(issued);
  tr_pos : 0 <= s.(issued);
  tr_fresh : Forall (fun p => 0 < p.(token) <= s.(issued)) l.(in_flight);
  tr_nodup : NoDup (entries l.(in_flight)).*1;
  tr_open : s.(open) = list_to_map (entries l.(in_flight));
  tr_ended : forall c, outcome l c = s.(ended) c }.

Lemma take_token_spec t l :
  match take_token t l with
  | None => t ∉ (entries l).*1
  | Some (p, rest) => p.(token) = t /\ exists l1 l2, l = l1 ++ p :: l2 /\ rest = l1 ++ l2
  end.
Proof.
  induction l as [|q l IH]; cbn [take_token]; [apply not_elem_of_nil|].
  destruct (Z.eqb_spec (token q) t) as [E|E].
  - split; [done|]. by exists [], l.
  - destruct (take_token t l) as [[p rest]|]; cbn [fmap option_fmap option_map prod_map id fst snd].
    + destruct IH as (Hp & l1 & l2 & -> & ->). split; [done|]. by exists (q :: l1), l2.
    + cbn. rewrite elem_of_cons. naive_solver.
Qed.

Lemma tracks_step e l s :
  tracks l s -> s.(issued) + 1 < 2 ^ 64 ->
  (lane_step e l).1 = (ledger_step e s).1 /\ tracks (lane_step e l).2 (ledger_step e s).2.
Proof.
  intros [Hn Hp Hf Hd Ho He] Hb. destruct e as [c|t o]; cbn [lane_step ledger_step].
  - unfold begin. rewrite Hn, Z.mod_small by lia. cbn. split; [done|].
    assert (Hnew : issued s + 1 ∉ (entries (in_flight l)).*1).
    { unfold entries. rewrite list_elem_of_fmap. intros ([t d] & Et & Hin). cbn in Et. subst t.
      apply list_elem_of_In, in_map_iff in Hin as (p & [= Hpt _] & Hin). apply list_elem_of_In in Hin.
      pose proof (proj1 (Forall_forall _ _) Hf p Hin) as Hle. cbn beta in Hle. lia. }
    split; cbn; try done; [lia| | |].
    + apply Forall_app. split; [eapply Forall_impl; [exact Hf|cbn; lia]|]. repeat constructor; cbn; lia.
    + unfold entries in *. rewrite map_app, fmap_app. apply NoDup_app. repeat split; [done| |apply NoDup_singleton].
      intros x Hx [->|Hx']%elem_of_cons; [done|by apply not_elem_of_nil in Hx'].
    + unfold entries in *. rewrite map_app. cbn [map token control]. rewrite list_to_map_snoc by done. by rewrite Ho.
  - unfold resolve. pose proof (take_token_spec t (in_flight l)) as Ht. rewrite Ho.
    destruct (take_token t (in_flight l)) as [[p rest]|].
    + destruct Ht as (<- & l1 & l2 & El & ->). rewrite El in *.
      assert (Hg : (list_to_map (entries (l1 ++ p :: l2)) : gmap Z Control) !! token p = Some (control p)).
      { apply elem_of_list_to_map_1; [done|]. unfold entries. apply list_elem_of_In, in_map_iff. exists p. split; [done|].
        apply in_or_app. right. by left. }
      rewrite Hg. cbn [fst snd prod_map id]. split; [done|].
      apply Forall_app in Hf as [Hf1 Hf2]. apply Forall_cons in Hf2 as [_ Hf2].
      assert (Hperm : Permutation (entries (l1 ++ p :: l2)) ((token p, control p) :: entries (l1 ++ l2))).
      { unfold entries. rewrite !map_app. cbn. symmetry. apply Permutation_middle. }
      pose proof Hd as Hd'. rewrite Hperm in Hd'. cbn in Hd'. apply NoDup_cons in Hd' as [Hnew Hd'].
      split; cbn [next_token issued in_flight open set_commands ended id snd prod_map]; try done.
      * by apply Forall_app.
      * rewrite (list_to_map_proper _ _ Hd Hperm). cbn. rewrite delete_insert_id; [done|].
        by apply not_elem_of_list_to_map_1.
      * intros d. unfold outcome. cbn [last_outcome set_commands]. rewrite get_put. case_bool_decide; [done|apply He].
    + rewrite not_elem_of_list_to_map_1 by done. cbn. by split.
Qed.
Lemma tracks_run es : forall l s,
  tracks l s -> s.(issued) + Z.of_nat (length es) < 2 ^ 64 ->
  (run lane_step es l).1 = (run ledger_step es s).1 /\ tracks (run lane_step es l).2 (run ledger_step es s).2.
Proof.
  induction es as [|e es IH]; intros l s H Hb; [done|]. cbn [run length] in *.
  assert (Hi : issued (ledger_step e s).2 <= issued s + 1).
  { destruct e; cbn; [lia|]. destruct (open s !! t); cbn; lia. }
  destruct (tracks_step e l s H ltac:(lia)) as [Ea Ht].
  destruct (lane_step e l) as [a l'], (ledger_step e s) as [a' s']. cbn in Ea, Ht, Hi. subst a'.
  destruct (IH l' s' Ht ltac:(lia)) as [Er Hr].
  destruct (run lane_step es l'), (run ledger_step es s'). cbn in *. by subst.
Qed.

(** C38. Through any sequence of commands begun and answers resolved, fewer than
    2^64, the lane is its ledger: every command has a token of its own, an
    answer settles the one command its token names and gives its control, an
    answer that names none changes nothing, a control is pending exactly while
    a command of its own is unsettled, and its outcome is the last settled
    one's. *)
Theorem lane_is_ledger n es :
  Z.of_nat (length es) < 2 ^ 64 ->
  let '(answers, l) := run lane_step es (with_history n) in
  let '(expected, s) := run ledger_step es ledger_new in
  answers = expected
  /\ (forall c, is_pending l c = true <-> exists t, s.(open) !! t = Some c)
  /\ (forall c, outcome l c = s.(ended) c)
  /\ pending_count l = size s.(open).
Proof.
  intros Hb. destruct (tracks_run es (with_history n) ledger_new) as [Ea [Hn Hp Hf Hd Ho He]].
  { by split; cbn; try constructor. }
  { exact Hb. }
  destruct (run lane_step es (with_history n)) as [as1 l], (run ledger_step es ledger_new) as [as2 s]. cbn in *.
  repeat split; try done.
  - intros Hc. unfold is_pending in Hc. apply existsb_exists in Hc as (p & Hin & Hc). apply bool_decide_eq_true in Hc.
    exists (token p). rewrite Ho. apply elem_of_list_to_map_1; [done|]. unfold entries.
    apply list_elem_of_In, in_map_iff. exists p. by rewrite Hc.
  - intros [t Ht]. rewrite Ho in Ht. apply elem_of_list_to_map_2, list_elem_of_In, in_map_iff in Ht as (p & [= _ Hc] & Hin).
    unfold is_pending. apply existsb_exists. exists p. split; [done|]. by apply bool_decide_eq_true.
  - unfold pending_count. rewrite Ho, <- length_map_to_list, map_to_list_to_map by done. unfold entries. by rewrite length_map.
Qed.
Definition two_tunings : list Event :=
  [Begin (VfoFrequency 0); Begin Mode; Begin (VfoFrequency 0); Resolve 2 Rejected; Resolve 1 Clamped; Resolve 2 Confirmed].
Lemma two_tunings_ledger :
  let '(expected, s) := run ledger_step two_tunings ledger_new in
  expected = [Token 1; Token 2; Token 3; Settled (Some Mode); Settled (Some (VfoFrequency 0)); Settled None]
  /\ s.(ended) Mode = Some Rejected /\ size s.(open) = 1%nat.
Proof. vm_compute. repeat split. Qed.
Lemma lane_is_ledger_witness :
  let '(answers, l) := run lane_step two_tunings (with_history 0) in
  answers = [Token 1; Token 2; Token 3; Settled (Some Mode); Settled (Some (VfoFrequency 0)); Settled None]
  /\ outcome l Mode = Some Rejected /\ pending_count l = 1%nat.
Proof.
  pose proof (lane_is_ledger 0 two_tunings ltac:(vm_compute; reflexivity)) as H. pose proof two_tunings_ledger as Hs.
  destruct (run lane_step two_tunings (with_history 0)) as [answers l].
  destruct (run ledger_step two_tunings ledger_new) as [expected s]. destruct H as (-> & _ & Ho & ->), Hs as (-> & He & Hz).
  rewrite Ho. split; [reflexivity|]. split; [exact He|exact Hz].
Defined.

(** ** Meters *)

Definition readings (k : MeterKind) (rs : list (MeterKind * Z)) : list Z := (List.filter (fun r => bool_decide (r.1 = k)) rs).*2.
Definition record_all (l : CatLane) (rs : list (MeterKind * Z)) : CatLane :=
  foldl (fun l r => set_meter r.1 r.2 l) l rs.
Definition recent (n : nat) (l : list Z) : list Z := drop (length l - n) l.

Lemma record_all_snoc l rs r : record_all l (rs ++ [r]) = set_meter r.1 r.2 (record_all l rs).
Proof. unfold record_all. by rewrite foldl_app. Qed.
Lemma readings_snoc k rs r : readings k (rs ++ [r]) = if bool_decide (r.1 = k) then readings k rs ++ [r.2] else readings k rs.
Proof.
  unfold readings. rewrite List.filter_app. cbn [List.filter]. case_bool_decide; [by rewrite fmap_app|by rewrite app_nil_r].
Qed.
Lemma tail_drop {A} n (l : list A) : tail (drop n l) = drop (S n) l.
Proof. revert l. induction n as [|n IH]; intros [|x l]; try done. apply IH. Qed.
Lemma recent_snoc n l x : (0 < n)%nat -> bounded n (recent n l ++ [x]) = recent n (l ++ [x]).
Proof.
  intros Hn. unfold bounded, recent. rewrite !length_app, length_drop. cbn [length].
  destruct (Nat.ltb_spec n (length l - (length l - n) + 1)).
  - rewrite (drop_app_le l [x]) by lia. replace (length l + 1 - n)%nat with (S (length l - n)) by lia.
    rewrite <- tail_drop.
    destruct (drop (length l - n) l) eqn:E; [|done].
    apply (f_equal length) in E. rewrite length_drop in E. cbn in E. lia.
  - replace (length l - n)%nat with 0%nat by lia. replace (length l + 1 - n)%nat with 0%nat by lia. by rewrite !drop_0.
Qed.

(** Whatever readings arrive, a meter shows the last of its kind, and its
    trend is the last [n] of them in the order they came. *)
Theorem meters_recorded n rs k :
  let l := record_all (with_history n) rs in
  meter l k = last (readings k rs) /\ meter_history l k = recent n (readings k rs).
Proof.
  enough (H : let l := record_all (with_history n) rs in
    history_len l = n /\ NoDup (lane_meters l).*1 /\ (forall k, get k (lane_meters l) = last (readings k rs))
    /\ (forall k, meter_history l k = recent n (readings k rs))).
  { destruct H as (_ & Hd & Hm & Hh). split; [|apply Hh]. unfold meter. rewrite get_rev by done. apply Hm. }
  clear k. induction rs as [|[k raw] rs IH] using rev_ind.
  { cbn. repeat split; try done. constructor. }
  rewrite record_all_snoc. destruct IH as (Hn & Hd & Hm & Hh). cbn zeta. cbn [fst snd].
  set (l := record_all (with_history n) rs) in *. unfold set_meter. rewrite Hn.
  assert (Hlast : forall k', get k' (put k raw (lane_meters l)) = last (readings k' (rs ++ [(k, raw)]))).
  { intros k'. rewrite get_put, readings_snoc, Hm. cbn [fst snd]. case_bool_decide; [|done]. by rewrite last_snoc. }
  destruct (Nat.eqb_spec n 0) as [->|Hpos].
  - repeat split; [done|by apply put_NoDup|exact Hlast|]. intros k'. etrans; [exact (Hh k')|].
    unfold recent. rewrite !Nat.sub_0_r, !drop_all. done.
  - repeat split; [done|by apply put_NoDup|exact Hlast|]. intros k'. unfold meter_history.
    cbn [lane_meter_history set_readings]. rewrite get_put, readings_snoc. cbn [fst snd].
    case_bool_decide as E; [|apply Hh]. subst k'. cbn [default from_option].
    change (default [] (get k (lane_meter_history l))) with (meter_history l k). rewrite Hh.
    apply recent_snoc. lia.
Qed.

(** ** Choosing the audio *)

Definition choice_wf (l : AudioLane) : Prop := l.(choices) = [] \/ (l.(selected_index) < length l.(choices))%nat.
Lemma position_Some {A} (f : A -> bool) l i : position f l = Some i -> exists x, l !! i = Some x /\ f x = true.
Proof.
  revert i. induction l as [|y l IH]; intros i; [done|]. cbn [position]. destruct (f y) eqn:E; [intros [= <-]; eauto|].
  destruct (position f l) as [j|]; [|done]. cbn. intros [= <-]. apply (IH j eq_refl).
Qed.
Lemma position_None {A} (f : A -> bool) l : position f l = None -> forall x, x ∈ l -> f x = false.
Proof.
  induction l as [|y l IH]; intros H x Hx; [by apply not_elem_of_nil in Hx|]. cbn [position] in H.
  destruct (f y) eqn:E; [done|]. destruct (position f l); [done|]. apply elem_of_cons in Hx as [->|Hx]; [done|by apply IH].
Qed.

Inductive Gesture : Type := Select (i : nat) | Cycle.
Definition gesture (g : Gesture) (l : AudioLane) : AudioLane :=
  match g with Select i => (select i l).2 | Cycle => cycle l end.
Lemma gesture_wf g l : choice_wf l -> choice_wf (gesture g l) /\ choices (gesture g l) = choices l.
Proof.
  intros H. destruct g as [i|]; cbn [gesture].
  - unfold select. destruct (Nat.leb_spec (length (choices l)) i); cbn; [done|]. split; [by right|done].
  - unfold cycle. destruct (choices l) as [|c cs] eqn:E; [by rewrite E|]. split; [|done]. right. cbn [selected_index choices].
    apply Nat.mod_upper_bound. done.
Qed.

Lemma gestures_wf gs : forall l, choice_wf l ->
  choice_wf (foldl (fun l g => gesture g l) l gs) /\ choices (foldl (fun l g => gesture g l) l gs) = choices l.
Proof.
  induction gs as [|g gs IH]; intros l H; [done|]. cbn [foldl]. destruct (gesture_wf g l H) as [Hg E].
  destruct (IH _ Hg) as [Hw E']. split; [done|]. by rewrite E'.
Qed.
Lemma audio_lane_wf cs : choice_wf (audio_lane cs).
Proof.
  unfold audio_lane, choice_wf. cbn. destruct cs as [|c cs]; [by left|right].
  destruct (position choice_shows_radio_dsp (c :: cs)) as [i|] eqn:E; cbn [default from_option]; [|cbn; lia].
  apply position_Some in E as (x & Hx & _). by apply lookup_lt_Some in Hx.
Qed.
Lemma selected_source i l x :
  choices l = map audio_choice (audio_sources i) -> selected l = Some x ->
  exists s, s ∈ audio_sources i /\ x = audio_choice s.
Proof.
  intros E Hx. unfold selected in Hx. rewrite E in Hx. apply list_elem_of_lookup_2, list_elem_of_In, in_map_iff in Hx.
  destruct Hx as (s & <- & Hs). exists s. by rewrite list_elem_of_In.
Qed.
Lemma audio_source_no_panorama i s : s ∈ audio_sources i -> is_band_panorama s = false.
Proof.
  unfold audio_sources. rewrite list_elem_of_In, List.filter_In. unfold is_band_panorama.
  destruct (capability s); naive_solver.
Qed.
Lemma default_is_radio_audio i :
  shows_radio_dsp (audio_lane (map audio_choice (audio_sources i))) = true <-> is_Some (radio_audio i).
Proof.
  unfold radio_audio, shows_radio_dsp, selected, audio_lane. cbn [choices selected_index].
  assert (Hf : forall x, In x (map audio_choice (audio_sources i)) -> exists s, s ∈ audio_sources i /\ choice_shows_radio_dsp x = reflects_radio_dsp s).
  { intros x (s & <- & Hs)%in_map_iff. exists s. by rewrite list_elem_of_In. }
  destruct (position choice_shows_radio_dsp _) as [j|] eqn:Ep; cbn [default from_option id].
  - apply position_Some in Ep as (x & Hx & Hd). rewrite Hx, Hd. split; [intros _|done].
    destruct (Hf x) as (s & Hs & E); [by apply list_elem_of_In; eapply list_elem_of_lookup_2|]. rewrite Hd in E.
    destruct (List.find reflects_radio_dsp (audio_sources i)) eqn:En; [by eexists|].
    apply List.find_none with (x := s) in En; [congruence|by apply list_elem_of_In].
  - split.
    + destruct (map audio_choice (audio_sources i) !! 0%nat) as [c|] eqn:E0; [|done].
      apply list_elem_of_lookup_2 in E0. by rewrite (position_None _ _ Ep c E0).
    + intros [s (Hs & Hr)%List.find_some]. apply (in_map audio_choice), list_elem_of_In in Hs.
      pose proof (position_None _ _ Ep _ Hs) as Hn. unfold choice_shows_radio_dsp in Hn. unfold reflects_radio_dsp in Hr. cbn in Hn. congruence.
Qed.

(** A console shows its bench: the waterfall is there exactly when a source
    can feed one; the audio choices are the bench's audio sources, never a
    panorama, and one of them is selected, whatever the operator does, as long
    as there is one; the radio's own audio is selected at the start when the
    bench has it; and the filter overlay is drawn only over audio that came
    through the radio's filter. *)
Theorem console_shows_installation i n gs :
  let c := for_installation i n in
  let a := foldl (fun l g => gesture g l) (audio c) gs in
  (lane_is_present (spectrum_state (console_spectrum c)) = true <-> is_Some (band_panorama i))
  /\ (selected a = None <-> audio_sources i = [])
  /\ (forall x, selected a = Some x -> exists s, s ∈ audio_sources i /\ is_band_panorama s = false /\ x = audio_choice s)
  /\ (shows_radio_dsp (audio c) = true <-> is_Some (radio_audio i))
  /\ (shows_radio_dsp a = true -> exists s, s ∈ audio_sources i /\ reflects_radio_dsp s = true /\ selected a = Some (audio_choice s)).
Proof.
  cbn zeta. set (a := foldl _ _ gs).
  destruct (gestures_wf gs (audio (for_installation i n)) (audio_lane_wf _)) as [Hw Hc]. fold a in Hw, Hc.
  change (choices (audio (for_installation i n))) with (map audio_choice (audio_sources i)) in Hc.
  assert (Hs : forall x, selected a = Some x -> exists s, s ∈ audio_sources i /\ is_band_panorama s = false /\ x = audio_choice s).
  { intros x Hx. destruct (selected_source i a x Hc Hx) as (s & Hin & ->). eauto using audio_source_no_panorama. }
  split; [|split; [|split; [exact Hs|split; [apply default_is_radio_audio|]]]].
  - cbn. destruct (band_panorama i) as [s|]; cbn; [destruct (source_state s); cbn; split; eauto|split; [done|by intros [? ?]]].
  - unfold selected. destruct Hw as [Hw|Hw].
    + rewrite Hw in *. symmetry in Hc. apply map_eq_nil in Hc. split; [done|]. intros _. by rewrite lookup_nil.
    + split; intros H.
      * apply lookup_ge_None in H. lia.
      * rewrite Hc, H in Hw. cbn in Hw. lia.
  - unfold shows_radio_dsp. destruct (selected a) as [x|] eqn:E; [|done]. intros Hx.
    destruct (Hs x eq_refl) as (s & Hin & _ & ->). eauto.
Qed.
