(* ===== verification/Fixtures.v ===== *)
(** * Fixtures: the two radios the capability model is tried on
    (cat-framework/src/capabilities_fixtures.rs)

    The descriptions the crate's own tests are run against, and the two benches
    of one of them.  The theorems below are what those tests are there for:
    the descriptions are coherent, and what a console makes of them. *)

From S2P Require Import Prelude Text Capabilities Layout Installation.

Definition TS570D_ENDPOINTS : list EndpointDescriptor := [mk_EndpointDescriptor Cat true [KeyingRole]].
Definition TS570D_MODES : list ModeDescriptor :=
  [mk_ModeDescriptor Lsb "LSB" KSsb (Some Lower) 2400;
   mk_ModeDescriptor Usb "USB" KSsb (Some Upper) 2400;
   mk_ModeDescriptor CwUpper "CW" KCw (Some Upper) 500;
   mk_ModeDescriptor Fm "FM" KFm None 12000;
   mk_ModeDescriptor Am "AM" KAm None 6000;
   mk_ModeDescriptor RttyLsb "FSK" KData (Some Lower) 500;
   mk_ModeDescriptor CwLower "CW-R" KCw (Some Lower) 500;
   mk_ModeDescriptor RttyUsb "FSK-R" KData (Some Upper) 500]%string.
Definition TS570D_METERS : list MeterDescriptor :=
  [mk_MeterDescriptor MS (mk_RawRange 0 30) false (Some Capabilities.TS570D);
   mk_MeterDescriptor MPo (mk_RawRange 0 30) true None;
   mk_MeterDescriptor MSwr (mk_RawRange 0 30) true None;
   mk_MeterDescriptor MAlc (mk_RawRange 0 30) true None].
Definition TS570D : RadioCapabilities := {|
  model := "Kenwood TS-570D"%string;
  cap_endpoints := mk_EndpointSet TS570D_ENDPOINTS;
  vfos := mk_VfoCapability 2 true (Some 9999) (Some 9999);
  modes := TS570D_MODES;
  tuning_steps_hz := [10; 100; 1000; 5000; 9000; 10000];
  rx_range := mk_FrequencyRange 500000 60000000;
  filters := mk_FilterCapability (Some 1000) None false;
  cap_meters := mk_MeterSet TS570D_METERS;
  memory := Some (mk_MemoryCapability (mk_RawRange 0 99) false true true);
  menu := Some (mk_MenuCapability 52 true);
  signal := IfTapPoint 73050000 true;
  cw := Some {|
    pitch := Some (mk_HzRange 400 1000 (Some 50)); pitch_writable := true;
    keyer_wpm := Some (mk_WpmRange 10 60); keyer_wpm_writable := true;
    break_in_kinds := [BreakOff; Semi];
    cap_send_text := Some {|
      max_chunk_chars := 24;
      charset := txt "ABCDEFGHIJKLMNOPQRSTUVWXYZ0123456789" ++ [34] ++ txt "'()+,-./:=?";
      pacing := BufferFlag; abort_kind := DrainOnly; requires_break_in := None |};
    tx_gate := Some (mk_TxGateCapability 5 "5 W" (mk_RawRange 5 100)) |} |}.

Definition FT991A_ENDPOINTS : list EndpointDescriptor :=
  [mk_EndpointDescriptor Cat true []; mk_EndpointDescriptor KeyingRole false []; mk_EndpointDescriptor Audio false []].
Definition FT991A_MODES : list ModeDescriptor :=
  [mk_ModeDescriptor Lsb "LSB" KSsb (Some Lower) 2400;
   mk_ModeDescriptor Usb "USB" KSsb (Some Upper) 2400;
   mk_ModeDescriptor CwUpper "CW-U" KCw (Some Upper) 500;
   mk_ModeDescriptor Fm "FM" KFm None 16000;
   mk_ModeDescriptor Am "AM" KAm None 6000;
   mk_ModeDescriptor RttyLsb "RTTY-L" KData (Some Lower) 500;
   mk_ModeDescriptor CwLower "CW-L" KCw (Some Lower) 500;
   mk_ModeDescriptor DataLsb "DATA-L" KData (Some Lower) 3000;
   mk_ModeDescriptor RttyUsb "RTTY-U" KData (Some Upper) 500;
   mk_ModeDescriptor DataFm "DATA-FM" KData None 16000;
   mk_ModeDescriptor FmNarrow "FM-N" KFm None 9000;
   mk_ModeDescriptor DataUsb "DATA-U" KData (Some Upper) 3000;
   mk_ModeDescriptor AmNarrow "AM-N" KAm None 3000;
   mk_ModeDescriptor C4fm "C4FM" KDigitalVoice None 12500]%string.
Definition FT991A_METERS : list MeterDescriptor :=
  [mk_MeterDescriptor MS (mk_RawRange 0 255) false None;
   mk_MeterDescriptor MPo (mk_RawRange 0 255) true None;
   mk_MeterDescriptor MSwr (mk_RawRange 0 255) true None;
   mk_MeterDescriptor MAlc (mk_RawRange 0 255) true None;
   mk_MeterDescriptor MId (mk_RawRange 0 255) true None;
   mk_MeterDescriptor MVdd (mk_RawRange 0 255) true None;
   mk_MeterDescriptor MComp (mk_RawRange 0 255) true None].
Definition FT991A : RadioCapabilities := {|
  model := "Yaesu FT-991A"%string;
  cap_endpoints := mk_EndpointSet FT991A_ENDPOINTS;
  vfos := mk_VfoCapability 2 true (Some 9999) (Some 9999);
  modes := FT991A_MODES;
  tuning_steps_hz := [10; 100; 1000; 5000; 6250; 10000; 12500; 25000];
  rx_range := mk_FrequencyRange 30000 470000000;
  filters := mk_FilterCapability (Some 1000)
    (Some [50; 100; 150; 200; 250; 300; 350; 400; 450; 500; 600; 800; 850; 1100; 1200; 1350; 1400; 1500; 1650; 1700; 1800; 1950; 2000; 2100; 2200; 2300; 2400; 2500; 2600; 2700; 2800; 2900; 3000; 3200])
    true;
  cap_meters := mk_MeterSet FT991A_METERS;
  memory := Some (mk_MemoryCapability (mk_RawRange 1 117) true true true);
  menu := Some (mk_MenuCapability 151 true);
  signal := SignalNone;
  cw := Some {|
    pitch := Some (mk_HzRange 300 1050 (Some 10)); pitch_writable := true;
    keyer_wpm := Some (mk_WpmRange 4 60); keyer_wpm_writable := true;
    break_in_kinds := [BreakOff; Semi]; cap_send_text := None; tx_gate := None |} |}.

(** ** Two benches *)

Definition ts570d_bare : Installation := bare [Cat; KeyingRole].
Definition ts570d_with_box (trim_hz : Z) : Installation :=
  let install := bare [Cat; KeyingRole; Audio] in
  let install := match if_tap_from TS570D trim_hz Streaming (txt "RTL-SDR #0 on CN4") with
                 | Some tap => with_source install tap
                 | None => install
                 end in
  let install := with_source install
    (from_origin (source_new (CapAudioDerived 3000) Configured (txt "Box USB Audio from ACC2")) RadioOutput) in
  with_source install
    (from_origin (source_new (CapAudioDerived 12000) Configured (txt "RTL-SDR demodulated from CN4")) TapDemodulated).

(** ** Facts *)

(** [char::is_lowercase] on ASCII. *)
Definition ascii_lowercase (c : char) : bool := (97 <=? c) && (c <=? 122).

(** Both radios say a coherent thing about CW, and neither names a mode twice. *)
Theorem fixtures_coherent r :
  r = TS570D \/ r = FT991A ->
  (forall c, r.(cw) = Some c -> Capabilities.validate ascii_lowercase c = Ok tt) /\ NoDup (map mode_id r.(modes)).
Proof.
  intros [-> | ->]; (split; [intros c [= <-]; reflexivity|]); apply (bool_decide_unpack _); reflexivity.
Qed.
Lemma fixtures_coherent_witness : NoDup (map mode_id TS570D.(modes)).
Proof. apply (fixtures_coherent TS570D). by left. Defined.

(** One radio on two benches: only the fitted one has a panorama, and its
    audio choices are the radio's own and the demodulated tap. *)
Theorem one_radio_two_benches trim :
  has_panorama (mk_InstallationSession TS570D ts570d_bare) = false
  /\ panorama_possible_but_absent (mk_InstallationSession TS570D ts570d_bare) = true
  /\ has_panorama (mk_InstallationSession TS570D (ts570d_with_box trim)) = true
  /\ map audio_origin (audio_sources (ts570d_with_box trim)) = [Some RadioOutput; Some TapDemodulated].
Proof. repeat split. Qed.
