(* ===== verification/NativeMessages.v ===== *)
(** * NativeMessages: what the native protocol carries (cat-native/src/lib.rs)

    Commands, the radio's state, the capability document as a client receives
    it, and the messages of both sides. *)

From S2P Require Import Prelude Text Capabilities NativeTypes Layout Installation.

(** ** State and commands *)

Record MeterSample : Type := mk_MeterSample { ms_kind : MeterKind; ms_raw : Z }.
Record RadioLevels : Type := mk_RadioLevels {
  af_gain : Z; rf_gain : Z; squelch : Z; mic_gain : Z; power_pct : Z; agc : Z; noise_reduction : Z; antenna : Z;
  noise_blanker : bool; preamp : bool; attenuator : bool; speech_processor : bool; vox : bool; freq_lock : bool }.
Record CwState : Type := mk_CwState {
  cw_pitch_hz : option Z; cw_keyer_wpm : option Z; cw_break_in : option BreakInKind;
  cw_armed : option ArmedState; cw_sender : SenderState; cw_restore : option RestoreStatus; cw_id_owed : option text }.
Record RadioState : Type := mk_RadioState {
  vfo_a_hz : Z; vfo_b_hz : Z; st_mode : ModeId; st_split : bool; transmitting : bool;
  memory_channel : option Z; st_if_shift_hz : option Z; filter_width_hz : option Z;
  meters_read : list MeterSample; levels : option RadioLevels; st_cw : option CwState }.
Definition state_meter (s : RadioState) (k : MeterKind) : option Z :=
  ms_raw <$> List.find (fun m => bool_decide (m.(ms_kind) = k)) s.(meters_read).

Inductive Command : Type :=
| SetFrequency (vfo hz : Z) | SetMode (m : ModeId) | SetSplit (enabled : bool) | SetMemoryChannel (channel : Z)
| SetFilterWidth (hz : Z) | SetIfShift (hz : Z) | ReadMeter (kind : MeterKind) | Retune (hz : Z)
| ReadDevices | AttachDevice (kind : DeviceKind) (spec : text) | ReadState | SetKeyerSpeed (wpm : Z)
| ArmCwTransmit (callsign : text) (dummy_load_acknowledged : bool) (key_down_cap_s : option Z)
| SendCwText (t : text) | AbortCw | DisarmCw.

#[export] Instance Command_eq_dec : EqDecision Command.
Proof. solve_decision. Defined.

(** ** The capability document *)

Record CwSendTextWire : Type := mk_CwSendTextWire {
  wire_max_chunk_chars : Z; wire_charset : text; wire_pacing : CwPacing; wire_abort : CwAbort;
  wire_requires_break_in : option BreakInKind }.
Record TxGateWire : Type := mk_TxGateWire {
  wire_low_power_raw : Z; wire_low_power_label : string; wire_power_raw : RawRange }.
Record CwCapabilityWire : Type := mk_CwCapabilityWire {
  wire_pitch : option HzRange; wire_pitch_writable : bool; wire_keyer_wpm : option WpmRange;
  wire_keyer_wpm_writable : bool; wire_break_in : list BreakInKind; wire_send_text : option CwSendTextWire;
  wire_tx_gate : option TxGateWire }.
Definition cw_wire_from (c : CwCapability) : CwCapabilityWire :=
  mk_CwCapabilityWire c.(pitch) c.(pitch_writable) c.(keyer_wpm) c.(keyer_wpm_writable) c.(break_in_kinds)
    ((fun t => mk_CwSendTextWire t.(max_chunk_chars) t.(charset) t.(pacing) t.(abort_kind) t.(requires_break_in))
       <$> c.(cap_send_text))
    ((fun g => mk_TxGateWire g.(low_power_raw) g.(low_power_label) g.(power_raw_range)) <$> c.(tx_gate)).

Record EndpointWire : Type := mk_EndpointWire {
  wire_role : EndpointRole; wire_required : bool; wire_shareable_with : list EndpointRole }.
Record ModeWire : Type := mk_ModeWire {
  wire_mode_id : ModeId; wire_mode_label : string; wire_mode_kind : ModeKind; wire_sideband : option Sideband;
  wire_default_bandwidth_hz : Z }.
Record FilterWire : Type := mk_FilterWire {
  wire_if_shift_hz : option Z; wire_widths_hz : option (list Z); wire_notch : bool }.
Record MeterDescriptorWire : Type := mk_MeterDescriptorWire {
  wire_meter_kind : MeterKind; wire_raw_range : RawRange; wire_active_on_transmit : bool; wire_s_units : option SUnitScale }.
Record CapabilitiesWire : Type := mk_CapabilitiesWire {
  wire_model : string; wire_endpoints : list EndpointWire; wire_vfos : VfoCapability; wire_modes : list ModeWire;
  wire_tuning_steps_hz : list Z; wire_rx_range : FrequencyRange; wire_filters : FilterWire;
  wire_meters : list MeterDescriptorWire; wire_memory : option MemoryCapability; wire_menu : option MenuCapability;
  wire_signal : SignalSupport; wire_layout : option LayoutSpec; wire_theme : option Theme;
  wire_installation : Installation; wire_cw : option CwCapabilityWire }.

(** The document with its per-server parts filled in; [From] leaves them out. *)
Definition capabilities_wire (c : RadioCapabilities) (layout : option LayoutSpec) (theme : option Theme)
    (i : Installation) (cw : option CwCapabilityWire) : CapabilitiesWire :=
  mk_CapabilitiesWire c.(model)
    (map (fun e => mk_EndpointWire e.(role) e.(required) e.(shareable_with)) c.(cap_endpoints).(endpoints))
    c.(vfos)
    (map (fun m => mk_ModeWire m.(mode_id) m.(mode_label) m.(mode_kind) m.(mode_sideband) m.(default_bandwidth_hz)) c.(modes))
    c.(tuning_steps_hz) c.(rx_range)
    (mk_FilterWire c.(filters).(if_shift_hz) c.(filters).(widths_hz) c.(filters).(notch))
    (map (fun m => mk_MeterDescriptorWire m.(meter_kind) m.(raw_range) m.(active_on_transmit) m.(s_units)) c.(cap_meters).(meters))
    c.(memory) c.(menu) c.(signal) layout theme i cw.
Definition capabilities_from (c : RadioCapabilities) : CapabilitiesWire :=
  capabilities_wire c None None installation_default (cw_wire_from <$> c.(Capabilities.cw)).
Definition from_session (s : InstallationSession) : CapabilitiesWire :=
  capabilities_wire s.(radio) None None s.(session_installation) (cw_wire_from <$> s.(radio).(Capabilities.cw)).

(** ** Messages *)

Definition PROTOCOL_VERSION : Z := 2.
Definition MAX_CW_TEXT_CHARS : Z := 256.
Definition MAX_KEY_DOWN_CAP_S : Z := 60.

Inductive ClientMessage : Type :=
| Hello (version : Z) (spectrum audio : bool) (max_fps : option Z)
| CCommand (c : Command)
| Ping.
Inductive ServerMessage : Type :=
| Welcome (version : Z) (capabilities : CapabilitiesWire)
| Ack | Pong
| SState (s : RadioState)
| SMeter (m : MeterSample)
| SDevices (lists : list DeviceList)
| SError (code : ErrorCode) (m : message).

(** [{:?}] of a mode and of a meter. *)
Definition debug_mode (m : ModeId) : string :=
  match m with
  | Lsb => "Lsb" | Usb => "Usb" | CwUpper => "CwUpper" | CwLower => "CwLower" | Am => "Am" | AmNarrow => "AmNarrow"
  | Fm => "Fm" | FmNarrow => "FmNarrow" | RttyLsb => "RttyLsb" | RttyUsb => "RttyUsb" | DataLsb => "DataLsb"
  | DataUsb => "DataUsb" | DataFm => "DataFm" | C4fm => "C4fm"
  end%string.
Definition debug_meter (k : MeterKind) : string :=
  match k with
  | MS => "S" | MPo => "Po" | MSwr => "Swr" | MAlc => "Alc" | MId => "Id" | MVdd => "Vdd" | MComp => "Comp"
  end%string.
