(* ===== verification/NativeFrames.v ===== *)
(** * NativeFrames: framing and the binary payloads of the native protocol
    (cat-native/src/lib.rs)

    A frame is a kind byte, a 32-bit length and a payload.  Control frames
    carry JSON, which is a library's; spectrum and audio frames carry the
    layouts below. *)

From S2P Require Import Prelude Text Capabilities NativeTypes Layout Installation NativeMessages.

(** ** Frames *)

Definition MAX_CONTROL_BYTES : Z := 1048576.

Inductive FrameKind : Type := FControl | FSpectrum | FAudio.
#[export] Instance FrameKind_eq_dec : EqDecision FrameKind.
Proof. solve_decision. Defined.
Definition kind_byte (k : FrameKind) : byte := u8 match k with FControl => 1 | FSpectrum => 2 | FAudio => 3 end.
Definition kind_from_u8 (b : byte) : option FrameKind :=
  match unsigned b with 1 => Some FControl | 2 => Some FSpectrum | 3 => Some FAudio | _ => None end.

Inductive FrameError : Type := Incomplete | UnknownKind (b : byte) | TooLarge (len : Z).
#[export] Instance FrameError_eq_dec : EqDecision FrameError.
Proof. solve_decision. Defined.

Definition encode_frame (k : FrameKind) (payload : bytes) : bytes :=
  kind_byte k :: to_be_bytes 4 (Z.of_nat (length payload) mod 2 ^ 32) ++ payload.

Definition decode_frame (buf : bytes) : result (FrameKind * bytes * nat) FrameError :=
  match buf with
  | k :: b1 :: b2 :: b3 :: b4 :: rest =>
      match kind_from_u8 k with
      | None => Err (UnknownKind k)
      | Some kind =>
          let len := from_be_bytes [b1; b2; b3; b4] in
          if bool_decide (kind = FControl) && (MAX_CONTROL_BYTES <? len) then Err (TooLarge len)
          else if Z.of_nat (length rest) <? len then Err Incomplete
          else Ok (kind, take (Z.to_nat len) rest, (5 + Z.to_nat len)%nat)
      end
  | _ => Err Incomplete
  end.

(** A payload that a frame of this kind can carry. *)
Definition carries (k : FrameKind) (payload : bytes) : Prop :=
  Z.of_nat (length payload) < 2 ^ 32 /\ (k = FControl -> Z.of_nat (length payload) <= MAX_CONTROL_BYTES).

Lemma kind_from_kind_byte k : kind_from_u8 (kind_byte k) = Some k.
Proof. by destruct k. Qed.

Lemma length_encode_frame k payload : length (encode_frame k payload) = (5 + length payload)%nat.
Proof. unfold encode_frame. cbn [length]. rewrite length_app, length_to_be_bytes. lia. Qed.

Lemma to_be_bytes_4 z : exists b1 b2 b3 b4, to_be_bytes 4 z = [b1; b2; b3; b4].
Proof. pose proof (length_to_be_bytes 4 z) as H. destruct (to_be_bytes 4 z) as [|? [|? [|? [|? []]]]]; try done. eauto. Qed.

Lemma decode_encode k payload rest : carries k payload ->
  decode_frame (encode_frame k payload ++ rest) = Ok (k, payload, length (encode_frame k payload)).
Proof.
  intros [Hl Hc]. rewrite length_encode_frame. unfold encode_frame. rewrite Z.mod_small by lia.
  assert (E : from_be_bytes (to_be_bytes 4 (Z.of_nat (length payload))) = Z.of_nat (length payload))
    by (apply from_to_be_bytes_small; change (256 ^ Z.of_nat 4) with (2 ^ 32); lia).
  destruct (to_be_bytes_4 (Z.of_nat (length payload))) as (b1 & b2 & b3 & b4 & Eb). rewrite Eb in *.
  cbn [app decode_frame]. rewrite kind_from_kind_byte, E. cbv zeta.
  rewrite (proj2 (andb_false_iff _ _)); [|case_bool_decide; [right; apply Z.ltb_ge; auto|by left]].
  rewrite length_app. destruct (Z.ltb_spec (Z.of_nat (length payload + length rest)) (Z.of_nat (length payload))); [lia|].
  rewrite Nat2Z.id, take_app_length. done.
Qed.

(** A proper beginning of a frame is not one yet. *)
Lemma decode_partial k payload pre rest : carries k payload ->
  pre ++ rest = encode_frame k payload -> rest <> [] -> decode_frame pre = Err Incomplete.
Proof.
  intros [Hl Hc] E Hr. unfold encode_frame in E. rewrite Z.mod_small in E by lia.
  assert (El : from_be_bytes (to_be_bytes 4 (Z.of_nat (length payload))) = Z.of_nat (length payload))
    by (apply from_to_be_bytes_small; change (256 ^ Z.of_nat 4) with (2 ^ 32); lia).
  destruct (to_be_bytes_4 (Z.of_nat (length payload))) as (b1 & b2 & b3 & b4 & Eb). rewrite Eb in *.
  destruct pre as [|k0 [|c1 [|c2 [|c3 [|c4 pre]]]]]; try done. cbn in E. simplify_eq. cbn [decode_frame].
  rewrite kind_from_kind_byte, El. cbv zeta.
  rewrite (proj2 (andb_false_iff _ _)); [|case_bool_decide; [right; apply Z.ltb_ge; auto|by left]].
  rewrite length_app. destruct rest; [done|]. cbn [length].
  destruct (Z.ltb_spec (Z.of_nat (length pre)) (Z.of_nat (length pre + S (length rest)))); [done|lia].
Qed.

(** Decoding never reads past the buffer and always makes progress. *)
Lemma decode_used buf k payload used : decode_frame buf = Ok (k, payload, used) ->
  (5 <= used <= length buf)%nat /\ (length payload + 5 = used)%nat.
Proof.
  destruct buf as [|k0 [|b1 [|b2 [|b3 [|b4 rest]]]]]; try done. cbn [decode_frame].
  destruct (kind_from_u8 k0); [|done]. cbv zeta. pose proof (from_be_bytes_range [b1; b2; b3; b4]) as Hr.
  set (len := from_be_bytes _) in *. destruct (bool_decide _ && _); [done|].
  destruct (Z.ltb_spec (Z.of_nat (length rest)) len); [done|]. intros [= <- <- <-]. cbn [length].
  rewrite length_take. lia.
Qed.

(** ** Binary payloads *)

(** [payload[off..off + n]], read as a big-endian integer. *)
Definition field (payload : bytes) (off n : nat) : Z := from_be_bytes (take n (drop off payload)).
(** [chunks_exact(4)], each an [f32]. *)
Fixpoint floats (count : nat) (l : bytes) : list f32_bits :=
  match count with O => [] | S n => from_be_bytes (take 4 l) :: floats n (drop 4 l) end.
Definition put_floats (l : list f32_bits) : bytes := concat (map (to_be_bytes 4) l).
Definition len_u32 {A} (l : list A) : Z := Z.of_nat (length l) mod 2 ^ 32.

Definition encode_spectrum_payload (f : SpectrumFrame) : bytes :=
  to_be_bytes 8 f.(center_hz) ++ to_be_bytes 4 f.(sf_span_hz) ++ to_be_bytes 4 f.(ref_level_dbm)
  ++ to_be_bytes 8 f.(sf_sequence) ++ to_be_bytes 4 (len_u32 f.(sf_bins)) ++ put_floats f.(sf_bins).
Definition decode_spectrum_payload (p : bytes) : option SpectrumFrame :=
  if (length p <? 28)%nat then None
  else
    let count := Z.to_nat (field p 24 4) in
    if (length p <? 28 + count * 4)%nat then None
    else Some (mk_SpectrumFrame (field p 0 8) (field p 8 4) (field p 12 4) (floats count (drop 28 p)) (field p 16 8)).

Definition encode_audio_payload (f : AudioFrame) : bytes :=
  to_be_bytes 8 f.(scope).(scope_sequence) ++ to_be_bytes 4 f.(scope).(sample_rate_hz)
  ++ to_be_bytes 4 f.(spectrum).(start_hz) ++ to_be_bytes 4 f.(spectrum).(as_span_hz)
  ++ to_be_bytes 4 (len_u32 f.(scope).(samples)) ++ to_be_bytes 4 (len_u32 f.(spectrum).(as_bins))
  ++ put_floats f.(scope).(samples) ++ put_floats f.(spectrum).(as_bins).
Definition decode_audio_payload (p : bytes) : option AudioFrame :=
  if (length p <? 28)%nat then None
  else
    let sequence := field p 0 8 in
    let n := Z.to_nat (field p 20 4) in
    let bins := Z.to_nat (field p 24 4) in
    if (length p <? 28 + n * 4 + bins * 4)%nat then None
    else Some (mk_AudioFrame (mk_AudioScopeFrame (field p 8 4) (floats n (drop 28 p)) sequence)
                 (mk_AudioSpectrumFrame (field p 12 4) (field p 16 4) (floats bins (drop (28 + n * 4) p)) sequence)).

(** Values that fit their fields. *)
Definition fits_bits (n : nat) (z : Z) : Prop := 0 <= z < 256 ^ Z.of_nat n.
Definition fits_floats (l : list f32_bits) : Prop := Z.of_nat (length l) < 2 ^ 32 /\ Forall (fits_bits 4) l.

(** A payload as a sequence of fields, each a width and a value. *)
Fixpoint put_fields (fs : list (nat * Z)) (rest : bytes) : bytes :=
  match fs with [] => rest | (n, z) :: fs => to_be_bytes n z ++ put_fields fs rest end.
Fixpoint offset (i : nat) (fs : list (nat * Z)) : nat :=
  match i, fs with S i, (n, _) :: fs => n + offset i fs | _, _ => 0 end.

Lemma field_put fs rest i n z : fs !! i = Some (n, z) -> fits_bits n z -> field (put_fields fs rest) (offset i fs) n = z.
Proof.
  intros E Hz. revert i E. unfold field. induction fs as [|[m y] fs IH]; intros [|i] E; cbn in *; simplify_eq.
  - rewrite drop_0, take_app_le, take_ge by (rewrite ?length_to_be_bytes; lia). by apply from_to_be_bytes_small.
  - rewrite drop_app_ge by (rewrite length_to_be_bytes; lia). rewrite length_to_be_bytes.
    replace (m + offset i fs - m)%nat with (offset i fs) by lia. by apply IH.
Qed.
Lemma drop_put fs rest : drop (offset (length fs) fs) (put_fields fs rest) = rest.
Proof.
  induction fs as [|[n z] fs IH]; cbn; [apply drop_0|].
  rewrite drop_app_ge by (rewrite length_to_be_bytes; lia). rewrite length_to_be_bytes.
  by replace (n + offset (length fs) fs - n)%nat with (offset (length fs) fs) by lia.
Qed.
Lemma length_put fs rest : length (put_fields fs rest) = (offset (length fs) fs + length rest)%nat.
Proof. induction fs as [|[n z] fs IH]; cbn; [done|]. rewrite length_app, length_to_be_bytes, IH. lia. Qed.

Lemma length_put_floats l : length (put_floats l) = (length l * 4)%nat.
Proof.
  unfold put_floats. induction l as [|x l IH]; [done|]. cbn [map concat length].
  rewrite length_app, length_to_be_bytes, IH. lia.
Qed.
Lemma floats_put l rest : Forall (fits_bits 4) l -> floats (length l) (put_floats l ++ rest) = l.
Proof.
  unfold put_floats. induction 1 as [|x l Hx _ IH]; [done|]. cbn [map concat length floats]. rewrite <- app_assoc.
  rewrite take_app_le, take_ge, from_to_be_bytes_small by (rewrite ?length_to_be_bytes; done || lia).
  rewrite drop_app_ge by (rewrite length_to_be_bytes; lia). rewrite length_to_be_bytes, Nat.sub_diag, drop_0. by rewrite IH.
Qed.
Lemma len_u32_small {A} (l : list A) : Z.of_nat (length l) < 2 ^ 32 -> fits_bits 4 (len_u32 l) /\ Z.to_nat (len_u32 l) = length l.
Proof. intros. unfold len_u32, fits_bits. change (256 ^ Z.of_nat 4) with (2 ^ 32). rewrite Z.mod_small by lia. lia. Qed.


Record wf_spectrum (f : SpectrumFrame) : Prop := {
  wfs_center : fits_bits 8 f.(center_hz);
  wfs_span : fits_bits 4 f.(sf_span_hz);
  wfs_ref : fits_bits 4 f.(ref_level_dbm);
  wfs_sequence : fits_bits 8 f.(sf_sequence);
  wfs_bins : fits_floats f.(sf_bins) }.
Record wf_audio (f : AudioFrame) : Prop := {
  wfa_sequence : fits_bits 8 f.(scope).(scope_sequence);
  wfa_rate : fits_bits 4 f.(scope).(sample_rate_hz);
  wfa_start : fits_bits 4 f.(spectrum).(start_hz);
  wfa_span : fits_bits 4 f.(spectrum).(as_span_hz);
  wfa_samples : fits_floats f.(scope).(samples);
  wfa_bins : fits_floats f.(spectrum).(as_bins);
  wfa_same : f.(spectrum).(as_sequence) = f.(scope).(scope_sequence) }.

(** The [i]th field of [put_fields fs rest], at its offset. *)
Ltac put_field fs rest i off n H :=
  rewrite (field_put fs rest i n _ eq_refl H : field (put_fields fs rest) off n = _).

Lemma spectrum_payload_roundtrip f : wf_spectrum f -> decode_spectrum_payload (encode_spectrum_payload f) = Some f.
Proof.
  intros [Hc Hs Hr Hq [Hn Hb]]. destruct (len_u32_small f.(sf_bins) Hn) as [Hl El].
  set (fs := [(8, f.(center_hz)); (4, f.(sf_span_hz)); (4, f.(ref_level_dbm)); (8, f.(sf_sequence)); (4, len_u32 f.(sf_bins))]%nat).
  change (encode_spectrum_payload f) with (put_fields fs (put_floats f.(sf_bins))).
  unfold decode_spectrum_payload. rewrite length_put. change (offset (length fs) fs) with 28%nat.
  destruct (Nat.ltb_spec (28 + length (put_floats f.(sf_bins))) 28); [lia|].
  put_field fs (put_floats f.(sf_bins)) 4%nat 24%nat 4%nat Hl. rewrite El, length_put_floats.
  destruct (Nat.ltb_spec (28 + length f.(sf_bins) * 4) (28 + length f.(sf_bins) * 4)); [lia|].
  put_field fs (put_floats f.(sf_bins)) O O 8%nat Hc. put_field fs (put_floats f.(sf_bins)) 1%nat 8%nat 4%nat Hs.
  put_field fs (put_floats f.(sf_bins)) 2%nat 12%nat 4%nat Hr. put_field fs (put_floats f.(sf_bins)) 3%nat 16%nat 8%nat Hq.
  change 28%nat with (offset (length fs) fs) at 1. rewrite drop_put.
  rewrite <- (app_nil_r (put_floats f.(sf_bins))), floats_put by done. by destruct f.
Qed.

Lemma audio_payload_roundtrip f : wf_audio f -> decode_audio_payload (encode_audio_payload f) = Some f.
Proof.
  intros [Hq Hr Hs Hp [Hn Hsa] [Hm Hb] Hsame].
  destruct (len_u32_small f.(scope).(samples) Hn) as [Hl El].
  destruct (len_u32_small f.(spectrum).(as_bins) Hm) as [Hl2 El2].
  set (fs := [(8, f.(scope).(scope_sequence)); (4, f.(scope).(sample_rate_hz)); (4, f.(spectrum).(start_hz));
    (4, f.(spectrum).(as_span_hz)); (4, len_u32 f.(scope).(samples)); (4, len_u32 f.(spectrum).(as_bins))]%nat).
  set (tail := put_floats f.(scope).(samples) ++ put_floats f.(spectrum).(as_bins)).
  change (encode_audio_payload f) with (put_fields fs tail).
  unfold decode_audio_payload. rewrite length_put. change (offset (length fs) fs) with 28%nat.
  destruct (Nat.ltb_spec (28 + length tail) 28); [lia|].
  put_field fs tail 4%nat 20%nat 4%nat Hl. put_field fs tail 5%nat 24%nat 4%nat Hl2. rewrite El, El2.
  unfold tail at 1. rewrite length_app, !length_put_floats, Nat.add_assoc.
  destruct (Nat.ltb_spec (28 + length (samples (scope f)) * 4 + length (as_bins (spectrum f)) * 4)
    (28 + length (samples (scope f)) * 4 + length (as_bins (spectrum f)) * 4)); [lia|].
  put_field fs tail O O 8%nat Hq. put_field fs tail 1%nat 8%nat 4%nat Hr.
  put_field fs tail 2%nat 12%nat 4%nat Hs. put_field fs tail 3%nat 16%nat 4%nat Hp.
  change 28%nat with (offset (length fs) fs). rewrite <- drop_drop, drop_put. unfold tail.
  rewrite floats_put by done. rewrite drop_app_ge by (rewrite length_put_floats; lia).
  rewrite length_put_floats, Nat.sub_diag, drop_0.
  rewrite <- (app_nil_r (put_floats (as_bins (spectrum f)))), floats_put by done.
  destruct f as [[] []]. cbn in *. by subst.
Qed.
