(* ===== verification/NativeSession.v ===== *)
(** * NativeSession: one console's protocol state (cat-native/src/lib.rs)

    The handshake, the answers to reads, and the check of every command
    against what the radio can do before it reaches the radio. *)

From S2P Require Import Prelude Text Capabilities NativeTypes Layout Installation NativeMessages NativeFrames.

(** ** The session *)

Record NativeSession : Type := mk_NativeSession {
  ns_capabilities : RadioCapabilities;
  ns_installation : Installation;
  handshaken : bool;
  ns_spectrum : bool;
  ns_audio : bool;
  ns_max_fps : option Z;
  ns_state : option RadioState;
  ns_layout : option LayoutSpec;
  ns_theme : option Theme;
  ns_devices : option (list DeviceList);
  ns_serves_cw : bool }.

Definition with_installation (c : RadioCapabilities) (i : Installation) : NativeSession :=
  mk_NativeSession c i false false false None None None None None false.
Definition session_new (c : RadioCapabilities) : NativeSession := with_installation c installation_default.

Definition set_serves_cw (s : NativeSession) (b : bool) : NativeSession :=
  mk_NativeSession s.(ns_capabilities) s.(ns_installation) s.(handshaken) s.(ns_spectrum) s.(ns_audio) s.(ns_max_fps)
    s.(ns_state) s.(ns_layout) s.(ns_theme) s.(ns_devices) b.
Definition set_layout (s : NativeSession) (l : option LayoutSpec) : NativeSession :=
  mk_NativeSession s.(ns_capabilities) s.(ns_installation) s.(handshaken) s.(ns_spectrum) s.(ns_audio) s.(ns_max_fps)
    s.(ns_state) l s.(ns_theme) s.(ns_devices) s.(ns_serves_cw).
Definition set_theme (s : NativeSession) (t : option Theme) : NativeSession :=
  mk_NativeSession s.(ns_capabilities) s.(ns_installation) s.(handshaken) s.(ns_spectrum) s.(ns_audio) s.(ns_max_fps)
    s.(ns_state) s.(ns_layout) t s.(ns_devices) s.(ns_serves_cw).
Definition session_publish_state (s : NativeSession) (st : RadioState) : NativeSession :=
  mk_NativeSession s.(ns_capabilities) s.(ns_installation) s.(handshaken) s.(ns_spectrum) s.(ns_audio) s.(ns_max_fps)
    (Some st) s.(ns_layout) s.(ns_theme) s.(ns_devices) s.(ns_serves_cw).
Definition publish_devices (s : NativeSession) (ds : list DeviceList) : NativeSession :=
  mk_NativeSession s.(ns_capabilities) s.(ns_installation) s.(handshaken) s.(ns_spectrum) s.(ns_audio) s.(ns_max_fps)
    s.(ns_state) s.(ns_layout) s.(ns_theme) (Some ds) s.(ns_serves_cw).

Definition reaches_host (s : NativeSession) (c : Command) : bool :=
  match c with
  | AbortCw => s.(ns_serves_cw) && negb (is_none s.(ns_capabilities).(Capabilities.cw))
  | _ => true
  end.

(** Intervals in nanoseconds, as everywhere. *)
Definition MIN_FPS : Z := 1.
Definition MAX_FPS : Z := 60.
Definition from_micros (n : Z) : Z := n * 1000.
Definition MAX_FPS_INTERVAL : Z := from_micros (1000000 / MAX_FPS).
Definition DEFAULT_FRAME_INTERVAL : Z := 100000000.
Definition frame_interval (s : NativeSession) : Z :=
  match s.(ns_max_fps) with
  | Some fps => from_micros (1000000 / Z.min (Z.max fps MIN_FPS) MAX_FPS)
  | None => DEFAULT_FRAME_INTERVAL
  end.
Definition wants_spectrum (s : NativeSession) : bool := s.(handshaken) && s.(ns_spectrum).
Definition wants_audio (s : NativeSession) : bool := s.(ns_audio).
Definition encode_spectrum (s : NativeSession) (f : SpectrumFrame) : option bytes :=
  if negb (wants_spectrum s) then None else Some (encode_frame FSpectrum (encode_spectrum_payload f)).

(** ** Validation *)

Definition out_of_range (m : message) : ServerMessage := SError OutOfRange m.
Definition not_supported (m : message) : ServerMessage := SError Unsupported m.
Definition forbidden (m : message) : ServerMessage := SError Forbidden m.

Definition is_ascii_digit (c : char) : bool := (48 <=? c) && (c <=? 57).
Definition is_ascii_alphabetic (c : char) : bool := ((65 <=? c) && (c <=? 90)) || ((97 <=? c) && (c <=? 122)).
(** [str::len]: bytes. *)
Definition byte_len (t : text) : Z := foldr (fun c n => len_utf8 c + n) 0 t.
Definition is_callsign (call : text) : bool :=
  (3 <=? byte_len call) && (byte_len call <=? 10)
  && forallb (fun c => is_ascii_alphabetic c || is_ascii_digit c || (c =? 47)) call
  && existsb is_ascii_alphabetic call && existsb is_ascii_digit call.

(** [i32::abs] without overflow checks: the least value has no opposite. *)
Definition i32_min : Z := - 2 ^ 31.
Definition abs_i32 (z : Z) : Z := if z =? i32_min then i32_min else Z.abs z.

Definition validate_cw (s : NativeSession) (c : Command) : result () ServerMessage :=
  match s.(ns_capabilities).(Capabilities.cw), s.(ns_serves_cw) with
  | Some cw, true =>
      match c with
      | SetKeyerSpeed wpm =>
          match cw.(keyer_wpm), cw.(keyer_wpm_writable) with
          | Some range, true =>
              if negb (wpm_contains range wpm)
              then Err (out_of_range [PInt wpm; PStr " wpm is outside "; PInt range.(wpm_min); PStr "-"; PInt range.(wpm_max); PStr " wpm"])
              else Ok tt
          | _, _ => Err (not_supported [PStr "this radio's keyer speed cannot be set over CAT"])
          end
      | _ =>
          match cw.(cap_send_text) with
          | None => Err (not_supported [PStr "this radio cannot send CW text over CAT"])
          | Some send =>
              match c with
              | ArmCwTransmit callsign ack cap_s =>
                  if negb ack then Err (forbidden [PStr "arming needs the operator's dummy-load acknowledgement"])
                  else if negb (is_callsign callsign) then
                    Err (forbidden [PDebugStr callsign; PStr " is not a callsign: 3-10 of A-Z 0-9 /, with at least one letter and one digit"])
                  else match rejected_char send callsign with
                       | Some ch => Err (forbidden [PStr "this keyer cannot send "; PDebugChar ch; PStr ", so "; PText callsign; PStr " could not be identified"])
                       | None => if bool_decide (cap_s = Some 0)
                                 then Err (out_of_range [PStr "a key-down cap of 0 s would refuse every send"])
                                 else Ok tt
                       end
              | SendCwText t =>
                  if bool_decide (trim t = []) then Err (out_of_range [PStr "nothing to send"])
                  else
                    let len := Z.of_nat (length t) in
                    if MAX_CW_TEXT_CHARS <? len
                    then Err (out_of_range [PInt len; PStr " characters; one send is at most "; PInt MAX_CW_TEXT_CHARS])
                    else match rejected_char send t with
                         | Some ch => Err (out_of_range [PStr "this keyer cannot send "; PDebugChar ch])
                         | None => Ok tt
                         end
              | _ => Ok tt
              end
          end
      end
  | _, _ => Err (not_supported [PStr "this server does not offer CW control"])
  end.

Definition session_validate (s : NativeSession) (c : Command) : result () ServerMessage :=
  let caps := s.(ns_capabilities) in
  match c with
  | SetFrequency vfo hz =>
      if caps.(vfos).(vfo_count) <=? vfo
      then Err (not_supported [PStr "radio has "; PInt caps.(vfos).(vfo_count); PStr " VFOs; asked for index "; PInt vfo])
      else if negb (freq_contains caps.(rx_range) hz)
      then Err (out_of_range [PInt hz; PStr " Hz is outside "; PInt caps.(rx_range).(min_hz); PStr "-"; PInt caps.(rx_range).(max_hz); PStr " Hz"])
      else Ok tt
  | Retune hz =>
      if negb (freq_contains caps.(rx_range) hz)
      then Err (out_of_range [PInt hz; PStr " Hz is outside this radio's range"]) else Ok tt
  | SetMode m =>
      if negb (supports_mode caps m) then Err (not_supported [PStr (debug_mode m); PStr " is not a mode this radio has"]) else Ok tt
  | SetSplit _ => if negb caps.(vfos).(vfo_split) then Err (not_supported [PStr "this radio has no split"]) else Ok tt
  | SetMemoryChannel ch =>
      match caps.(memory) with
      | None => Err (not_supported [PStr "this radio has no memory channels"])
      | Some m =>
          if (ch <? m.(channels).(raw_min)) || (m.(channels).(raw_max) <? ch)
          then Err (out_of_range [PStr "channel "; PInt ch; PStr " is outside "; PInt m.(channels).(raw_min); PStr "-"; PInt m.(channels).(raw_max)])
          else Ok tt
      end
  | SetFilterWidth hz =>
      match caps.(filters).(widths_hz) with
      | None => Err (not_supported [PStr "this radio exposes no selectable filter widths"])
      | Some ws => if negb (bool_decide (hz ∈ ws)) then Err (out_of_range [PInt hz; PStr " Hz is not one of this radio's widths"]) else Ok tt
      end
  | SetIfShift hz =>
      match caps.(filters).(if_shift_hz) with
      | None => Err (not_supported [PStr "this radio has no IF shift"])
      | Some limit => if limit <? abs_i32 hz then Err (out_of_range [PStr "IF shift limit is +/-"; PInt limit; PStr " Hz"]) else Ok tt
      end
  | ReadMeter k => if negb (meter_has caps.(cap_meters) k) then Err (not_supported [PStr "this radio has no "; PStr (debug_meter k); PStr " meter"]) else Ok tt
  | ReadState => Ok tt
  | ReadDevices | AttachDevice _ _ => Ok tt
  | AbortCw => Ok tt
  | SetKeyerSpeed _ | ArmCwTransmit _ _ _ | SendCwText _ | DisarmCw => validate_cw s c
  end.

(** ** Messages *)

Definition handle_command (s : NativeSession) (c : Command) : ServerMessage :=
  match session_validate s c with
  | Err e => e
  | Ok _ =>
      match c with
      | ReadState => match s.(ns_state) with
                     | Some st => SState st
                     | None => SError NotReady [PStr "the server has not heard from the radio yet"]
                     end
      | ReadMeter k => match s.(ns_state) ≫= (fun st => state_meter st k) with
                       | Some raw => SMeter (mk_MeterSample k raw)
                       | None => SError NotReady [PStr "no current reading for the "; PStr (debug_meter k); PStr " meter"]
                       end
      | ReadDevices => match s.(ns_devices) with
                       | Some ds => SDevices ds
                       | None => SError Unsupported [PStr "this server does not offer device selection"]
                       end
      | _ => Ack
      end
  end.

Definition not_ready : ServerMessage := SError NotReady [PStr "send hello first"].
Definition handle (s : NativeSession) (m : ClientMessage) : NativeSession * ServerMessage :=
  match m with
  | Hello version spectrum audio max_fps =>
      if negb (version =? PROTOCOL_VERSION)
      then (s, SError VersionMismatch [PStr "server speaks version "; PInt PROTOCOL_VERSION; PStr ", client offered "; PInt version])
      else
        (mk_NativeSession s.(ns_capabilities) s.(ns_installation) true spectrum audio max_fps s.(ns_state) s.(ns_layout)
           s.(ns_theme) s.(ns_devices) s.(ns_serves_cw),
         Welcome PROTOCOL_VERSION
           (capabilities_wire s.(ns_capabilities) s.(ns_layout) s.(ns_theme) s.(ns_installation)
              (if s.(ns_serves_cw) then cw_wire_from <$> s.(ns_capabilities).(Capabilities.cw) else None)))
  | Ping => (s, if negb s.(handshaken) then not_ready else Pong)
  | CCommand c => (s, if negb s.(handshaken) then not_ready else handle_command s c)
  end.

(** ** What a radio can do *)

(** The text of a CW command is one the keyer can send. *)
Definition sendable (cw : CwCapability) (t : text) : Prop :=
  exists send, cw.(cap_send_text) = Some send /\ rejected_char send t = None.

(** The radio has CW, behind a host that serves it, and [P] holds of it. *)
Definition served_cw (caps : RadioCapabilities) (serves_cw : bool) (P : CwCapability -> Prop) : Prop :=
  match caps.(Capabilities.cw), serves_cw with Some cw, true => P cw | _, _ => False end.

(** A command the radio, behind a host that serves CW or not, can carry out. *)
Definition possible (caps : RadioCapabilities) (serves_cw : bool) (c : Command) : Prop :=
  match c with
  | SetFrequency vfo hz => vfo < caps.(vfos).(vfo_count) /\ caps.(rx_range).(min_hz) <= hz <= caps.(rx_range).(max_hz)
  | Retune hz => caps.(rx_range).(min_hz) <= hz <= caps.(rx_range).(max_hz)
  | SetMode m => exists d, d ∈ caps.(modes) /\ d.(mode_id) = m
  | SetSplit _ => caps.(vfos).(vfo_split) = true
  | SetMemoryChannel ch => exists m, caps.(memory) = Some m /\ m.(channels).(raw_min) <= ch <= m.(channels).(raw_max)
  | SetFilterWidth hz => exists ws, caps.(filters).(widths_hz) = Some ws /\ hz ∈ ws
  | SetIfShift hz => exists limit, caps.(filters).(if_shift_hz) = Some limit /\ - limit <= hz <= limit
  | ReadMeter k => exists d, d ∈ caps.(cap_meters).(meters) /\ d.(meter_kind) = k
  | ReadState | ReadDevices | AttachDevice _ _ | AbortCw => True
  | SetKeyerSpeed wpm => served_cw caps serves_cw (fun cw => cw.(keyer_wpm_writable) = true /\
      exists r, cw.(keyer_wpm) = Some r /\ r.(wpm_min) <= wpm <= r.(wpm_max))
  | ArmCwTransmit call ack cap_s =>
      served_cw caps serves_cw (fun cw => sendable cw call /\ ack = true /\ is_callsign call = true /\ cap_s <> Some 0)
  | SendCwText t => served_cw caps serves_cw (fun cw => sendable cw t /\ trim t <> [] /\ Z.of_nat (length t) <= MAX_CW_TEXT_CHARS)
  | DisarmCw => served_cw caps serves_cw (fun cw => is_Some cw.(cap_send_text))
  end.

Lemma find_exists {A} (f : A -> bool) l : (exists x, x ∈ l /\ f x = true) <-> is_Some (List.find f l).
Proof.
  induction l as [|y l IH]; cbn.
  - split; [intros (x & Hx & _); by apply not_elem_of_nil in Hx|by intros [? ?]].
  - destruct (f y) eqn:E; [split; [eauto|intros _; exists y; split; [left|done]]|]. rewrite <- IH. split.
    + intros (x & Hx & Hf). apply elem_of_cons in Hx as [->|Hx]; [congruence|eauto].
    + intros (x & Hx & Hf). exists x. split; [by right|done].
Qed.
Lemma existsb_exists_elem {A} (f : A -> bool) l : existsb f l = true <-> exists x, x ∈ l /\ f x = true.
Proof. rewrite List.existsb_exists. split; intros (x & Hx & Hf); exists x; split; try done; by apply list_elem_of_In. Qed.

Definition is_cw_command (c : Command) : bool :=
  match c with SetKeyerSpeed _ | ArmCwTransmit _ _ _ | SendCwText _ | DisarmCw => true | _ => false end.

Lemma if_ok_iff {T E} (b : bool) (x : T) (e : E) : (if b then Err e else Ok x) = Ok x <-> b = false.
Proof. by destruct b. Qed.

Lemma keyer_speed_exact cw wpm (e1 : WpmRange -> ServerMessage) (e2 : ServerMessage) :
  match cw.(keyer_wpm), cw.(keyer_wpm_writable) with
  | Some range, true => if negb (wpm_contains range wpm) then Err (e1 range) else Ok tt
  | _, _ => Err e2
  end = Ok tt
  <-> cw.(keyer_wpm_writable) = true /\ exists r, cw.(keyer_wpm) = Some r /\ r.(wpm_min) <= wpm <= r.(wpm_max).
Proof.
  destruct (keyer_wpm cw) as [r|]; [|split; [done|by intros (_ & ? & [=] & _)]].
  destruct (keyer_wpm_writable cw); [|split; [done|by intros [[=] _]]].
  rewrite if_ok_iff, negb_false_iff. unfold wpm_contains. rewrite andb_true_iff, !Z.leb_le.
  split; [eauto|]. by intros (_ & r' & [= <-] & H).
Qed.

Lemma validate_cw_exact s c : is_cw_command c = true ->
  validate_cw s c = Ok tt <-> possible s.(ns_capabilities) s.(ns_serves_cw) c.
Proof.
  intros Hc. unfold validate_cw.
  assert (Hsv : possible (ns_capabilities s) (ns_serves_cw s) c ->
    is_Some (Capabilities.cw (ns_capabilities s)) /\ ns_serves_cw s = true).
  { destruct c; try done; cbn; unfold served_cw; destruct (Capabilities.cw _), (ns_serves_cw s); eauto; done. }
  destruct (Capabilities.cw (ns_capabilities s)) as [cw|] eqn:Ecw; [|split; [done|]; intros H; by destruct (Hsv H) as [[? ?] _]].
  destruct (ns_serves_cw s); [|split; [done|]; intros H; by destruct (Hsv H)]. clear Hsv.
  destruct c; try done; unfold possible, served_cw, sendable; rewrite Ecw.
  - apply keyer_speed_exact.
  - destruct (cap_send_text cw) as [send|]; [|split; [done|by intros ((? & [=] & _) & _)]].
    destruct dummy_load_acknowledged; cbn [negb]; [|split; [done|by intros (_ & [=] & _)]].
    destruct (is_callsign callsign); cbn [negb]; [|split; [done|by intros (_ & _ & [=] & _)]].
    destruct (rejected_char send callsign) eqn:Er; [split; [done|intros ((? & [= <-] & ?) & _); congruence]|].
    rewrite if_ok_iff, bool_decide_eq_false. split; [eauto 10|by intros (_ & _ & _ & H)].
  - destruct (cap_send_text cw) as [send|]; [|split; [done|by intros ((? & [=] & _) & _)]].
    case_bool_decide; [split; [done|by intros (_ & ? & _)]|]. cbv zeta.
    destruct (Z.ltb_spec MAX_CW_TEXT_CHARS (Z.of_nat (length t))); [split; [done|intros (_ & _ & ?); lia]|].
    destruct (rejected_char send t) eqn:Er; [split; [done|intros ((? & [= <-] & ?) & _); congruence]|].
    split; [eauto 10|done].
  - destruct (cap_send_text cw); [split; eauto|split; [done|by intros [? ?]]].
Qed.

Lemma session_validate_exact s c :
  c <> SetIfShift i32_min ->
  session_validate s c = Ok tt <-> possible s.(ns_capabilities) s.(ns_serves_cw) c.
Proof.
  intros Hmin. destruct c; try (by apply validate_cw_exact); cbn [session_validate possible]; try done.
  - destruct (Z.leb_spec (vfo_count (vfos (ns_capabilities s))) vfo); [split; [done|lia]|].
    rewrite if_ok_iff, negb_false_iff. unfold freq_contains. lia.
  - rewrite if_ok_iff, negb_false_iff. unfold supports_mode. rewrite existsb_exists_elem.
    split; intros (d & Hd & H); exists d; split; try done; by apply bool_decide_eq_true in H || apply bool_decide_eq_true.
  - by rewrite if_ok_iff, negb_false_iff.
  - destruct (memory (ns_capabilities s)) as [m|]; [|split; [done|by intros (? & [=] & _)]].
    rewrite if_ok_iff, orb_false_iff, !Z.ltb_ge. split; [intros; exists m; split; [done|lia]|intros (? & [= <-] & ?); lia].
  - destruct (widths_hz _) as [ws|]; [|split; [done|by intros (? & [=] & _)]].
    rewrite if_ok_iff, negb_false_iff, bool_decide_eq_true. split; [eauto|by intros (? & [= <-] & ?)].
  - destruct (if_shift_hz _) as [limit|]; [|split; [done|by intros (? & [=] & _)]].
    rewrite if_ok_iff, Z.ltb_ge. unfold abs_i32. destruct (Z.eqb_spec hz i32_min); [congruence|].
    split; [intros; exists limit; split; [done|lia]|intros (? & [= <-] & ?); lia].
  - rewrite if_ok_iff, negb_false_iff. unfold meter_has.
    assert (H : (exists d, d ∈ meters (cap_meters (ns_capabilities s)) /\ meter_kind d = kind)
      <-> is_Some (meter_find (cap_meters (ns_capabilities s)) kind)).
    { unfold meter_find. rewrite <- find_exists.
      split; intros (d & Hd & H); exists d; split; try done; by apply bool_decide_eq_true in H || apply bool_decide_eq_true. }
    rewrite H. destruct (meter_find _ _); split; eauto; [done|by intros [? ?]].
  - rewrite if_ok_iff, negb_false_iff. unfold freq_contains. lia.
Qed.

(** C12. The session accepts exactly what the radio can do: a command passes the
    check if and only if the radio has the capability and the value lies inside
    it, and a CW command only behind a host that serves CW, with the dummy load
    attested, a callsign and a text its keyer can send. *)
Theorem validate_exact s c :
  c <> SetIfShift i32_min ->
  session_validate s c = Ok tt <-> possible s.(ns_capabilities) s.(ns_serves_cw) c.
Proof. apply session_validate_exact. Qed.

(** The least 32-bit IF shift, minus 2147483648 Hz, is accepted whatever the
    radio's limit: its absolute value wraps to itself. *)
Theorem least_if_shift_accepted s limit :
  s.(ns_capabilities).(filters).(if_shift_hz) = Some limit -> i32_min <= limit ->
  session_validate s (SetIfShift i32_min) = Ok tt.
Proof. intros E Hl. cbn [session_validate]. rewrite E. unfold abs_i32. rewrite Z.eqb_refl. by apply if_ok_iff, Z.ltb_ge. Qed.

(** ** The handshake *)

(** Frames go out only after a handshake, whatever was said before it. *)
Definition streams_after_hello (s : NativeSession) : Prop :=
  s.(handshaken) = false -> wants_spectrum s = false /\ wants_audio s = false.

Lemma handle_keeps s m :
  (handle s m).1.(ns_capabilities) = s.(ns_capabilities) /\ (handle s m).1.(ns_serves_cw) = s.(ns_serves_cw)
  /\ (s.(handshaken) = true -> (handle s m).1.(handshaken) = true)
  /\ (streams_after_hello s -> streams_after_hello (handle s m).1).
Proof. destruct m; cbn; try destruct (negb _); cbn; done. Qed.

(** The interval between frames is bounded whatever a client asks for. *)
Lemma frame_interval_bounded s : MAX_FPS_INTERVAL <= frame_interval s <= 1000000000.
Proof.
  unfold frame_interval, MAX_FPS_INTERVAL, from_micros, DEFAULT_FRAME_INTERVAL, MIN_FPS, MAX_FPS.
  destruct (ns_max_fps s) as [fps|]; [|by split].
  set (d := Z.min (Z.max fps 1) 60). assert (Hd : 1 <= d <= 60) by (unfold d; lia).
  assert (1000000 / 60 <= 1000000 / d <= 1000000 / 1) by (split; apply Z.div_le_compat_l; lia).
  replace (1000000 / 60) with 16666 in * by reflexivity. replace (1000000 / 1) with 1000000 in * by reflexivity. lia.
Qed.

Lemma validate_refuses s c e : session_validate s c = Err e -> exists code m, e = SError code m.
Proof.
  intros H. destruct c; cbn in H; unfold validate_cw in H; repeat case_match; simplify_eq;
    unfold out_of_range, not_supported, forbidden; eauto.
Qed.

(** Nothing before hello: a command is acknowledged only on a session that
    has shaken hands, and then it is one the radio can carry out. *)
Lemma acknowledged_is_possible s c :
  (handle s (CCommand c)).2 = Ack -> c <> SetIfShift i32_min ->
  s.(handshaken) = true /\ possible s.(ns_capabilities) s.(ns_serves_cw) c.
Proof.
  cbn. destruct (handshaken s); [|done]. cbn [negb]. unfold handle_command. intros H Hm. split; [done|].
  destruct (session_validate s c) as [[]|e] eqn:E; [by apply session_validate_exact in E|].
  destruct (validate_refuses _ _ _ E) as (? & ? & ->). done.
Qed.
