(* ===== verification/NativeServer.v ===== *)
(** * NativeServer: a console's connection (cat-native/src/server.rs)

    One thread per connection reads frames, answers each control frame from
    the session, hands accepted commands to the host, and sends pictures on
    their own clock.  The host is a class, [RadioHost]; JSON is a library's
    and an argument. *)

From S2P Require Import Prelude Text Framework Client Tcp Capabilities NativeTypes Layout Installation NativeMessages NativeFrames NativeSession.

(** [RadioHost]; [apply_as] returns the host as the command leaves it. *)
Class RadioHost (H : Type) : Type := {
  host_capabilities : H -> RadioCapabilities;
  host_installation : H -> Installation;
  host_layout : H -> option LayoutSpec;
  host_theme : H -> option Theme;
  host_state_as : H -> ConsoleId -> RadioState;
  host_devices : H -> option (list DeviceList);
  host_serves_cw : H -> bool;
  host_spectrum : H -> option SpectrumFrame;
  host_audio : H -> option AudioFrame;
  apply_as : H -> ConsoleId -> Command -> H * result () HostRefusal }.

(** [serde_json] at the two message types. *)
Record Json : Type := mk_Json {
  from_slice : bytes -> result ClientMessage message;
  to_vec : ServerMessage -> option bytes;
  client_to_vec : ClientMessage -> option bytes;
  client_from_slice : bytes -> result ServerMessage message }.
(** What is written can be read back. *)
Record JsonLaws (j : Json) : Prop := {
  json_client : forall m p, j.(client_to_vec) m = Some p -> j.(from_slice) p = Ok m;
  json_server : forall m p, j.(to_vec) m = Some p -> j.(client_from_slice) p = Ok m }.

(** What a read of the socket gives: bytes, nothing in time, the end, or an
    error. *)
Inductive Arrival : Type := Arrived (b : bytes) | Quiet | Hangup | Broken.

Definition PUMP_INTERVAL : Z := 30000000.
Definition wake_for (last_display interval now : Z) : Z :=
  let elapsed := Z.max 0 (now - last_display) in
  Z.min (Z.max (Z.max 0 (interval - elapsed)) 1000000) PUMP_INTERVAL.

Section Server.
  Context {T : Type} `{!TcpStream T} {H : Type} `{!RadioHost H} (json : Json) (id : ConsoleId).

Record Conn : Type := mk_Conn {
  stream : T; host : H; session : NativeSession; pending : bytes;
  last_display : Z; last_sequence : option Z; last_audio_sequence : option Z }.

Definition conn_new (s : T) (h : H) (now : Z) : Conn :=
  let sess := with_installation (host_capabilities h) (host_installation h) in
  mk_Conn s h (set_serves_cw (set_theme (set_layout sess (host_layout h)) (host_theme h)) (host_serves_cw h))
    [] now None None.

(** One decoded message: the host, the session and the reply. *)
Definition answer_message (h : H) (s : NativeSession) (m : ClientMessage) : H * NativeSession * ServerMessage :=
  let s := session_publish_state s (host_state_as h id) in
  let s := match host_devices h with Some ds => publish_devices s ds | None => s end in
  let s := set_serves_cw s (host_serves_cw h) in
  let '(s, reply) := handle s m in
  match m, reply with
  | CCommand c, Ack =>
      if reaches_host s c then
        let '(h, r) := apply_as h id c in
        (h, s, match r with Ok _ => reply | Err e => SError e.(code) e.(refusal_message) end)
      else (h, s, reply)
  | _, _ => (h, s, reply)
  end.
Definition answer_payload (h : H) (s : NativeSession) (payload : bytes) : H * NativeSession * ServerMessage :=
  match json.(from_slice) payload with
  | Ok m => answer_message h s m
  | Err e => (h, s, SError Malformed e)
  end.

Definition write_control (s : T) (m : ServerMessage) : T * result () IoError :=
  match json.(to_vec) m with
  | None => (s, Err (OtherIo 0))
  | Some payload => write_all s (encode_frame FControl payload)
  end.

(** The inner loop: frames off the front of what has arrived.  One unit of
    fuel per frame; a frame is five bytes or more. *)
Fixpoint frames_loop (fuel : nat) (s : T) (h : H) (sess : NativeSession) (pending : bytes)
  : T * H * NativeSession * bytes * result () IoError :=
  match fuel with
  | O => (s, h, sess, pending, Ok tt)
  | S fuel =>
      match decode_frame pending with
      | Err _ => (s, h, sess, pending, Ok tt)
      | Ok (k, payload, used) =>
          match k with
          | FControl =>
              let '(h, sess, reply) := answer_payload h sess payload in
              let '(s, w) := write_control s reply in
              match w with
              | Err e => (s, h, sess, pending, Err e)
              | Ok _ => frames_loop fuel s h sess (drop used pending)
              end
          | _ => frames_loop fuel s h sess (drop used pending)
          end
      end
  end.

(** The display: an audio and a spectrum frame if they are wanted and new. *)
Definition send_audio (s : T) (h : H) (sess : NativeSession) (last : option Z) : T * option Z * result () IoError :=
  match (if wants_audio sess then host_audio h else None) with
  | Some f =>
      if bool_decide (last = Some (audio_sequence f)) then (s, last, Ok tt)
      else let '(s, w) := write_all s (encode_frame FAudio (encode_audio_payload f)) in
           (s, Some (audio_sequence f), w)
  | None => (s, last, Ok tt)
  end.
Definition send_spectrum (s : T) (h : H) (sess : NativeSession) (last : option Z) : T * option Z * result () IoError :=
  match (if wants_spectrum sess then host_spectrum h else None) with
  | Some f =>
      if bool_decide (last = Some f.(sf_sequence)) then (s, last, Ok tt)
      else let '(s, w) := write_all s (encode_frame FSpectrum (encode_spectrum_payload f)) in
           (s, Some f.(sf_sequence), w)
  | None => (s, last, Ok tt)
  end.
Definition display (c : Conn) (now : Z) : Conn * result () IoError :=
  if now - c.(last_display) <? frame_interval c.(session) then (c, Ok tt)
  else
    let '(s, la, r) := send_audio c.(stream) c.(host) c.(session) c.(last_audio_sequence) in
    match r with
    | Err e => (mk_Conn s c.(host) c.(session) c.(pending) now c.(last_sequence) la, Err e)
    | Ok _ =>
        let '(s, ls, r) := send_spectrum s c.(host) c.(session) c.(last_sequence) in
        (mk_Conn s c.(host) c.(session) c.(pending) now ls la, r)
    end.

(** One pass of [serve_one]'s loop: the connection and whether it goes on. *)
Inductive Pass : Type := GoesOn | Closed | Failed (e : IoError).
Definition serve_pass (c : Conn) (a : Arrival) (now : Z) : Conn * Pass :=
  match a with
  | Hangup => (c, Closed)
  | Broken => (c, Failed (OtherIo 1))
  | _ =>
      let pend := c.(pending) ++ match a with Arrived b => b | _ => [] end in
      let '(s, h, sess, pend, r) := frames_loop (length pend) c.(stream) c.(host) c.(session) pend in
      let c := mk_Conn s h sess pend c.(last_display) c.(last_sequence) c.(last_audio_sequence) in
      match r with
      | Err e => (c, Failed e)
      | Ok _ => let '(c, r) := display c now in (c, match r with Ok _ => GoesOn | Err e => Failed e end)
      end
  end.

Fixpoint serve_one (c : Conn) (arrivals : list (Arrival * Z)) : Conn * Pass :=
  match arrivals with
  | [] => (c, GoesOn)
  | (a, now) :: arrivals =>
      let '(c, p) := serve_pass c a now in
      match p with GoesOn => serve_one c arrivals | _ => (c, p) end
  end.

(** ** What reaches the host *)

(** [P] is kept by every command a radio can carry out, and by the least IF
    shift, which passes the check by mistake. *)
Definition kept_by_possible (P : H -> Prop) : Prop := forall h c, P h ->
  possible (host_capabilities h) (host_serves_cw h) c \/ c = SetIfShift i32_min -> P (apply_as h id c).1.
(** The session speaks for the host's radio. *)
Definition speaks_for (h : H) (s : NativeSession) : Prop := s.(ns_capabilities) = host_capabilities h.

Hypothesis apply_keeps_radio : forall h c, host_capabilities (apply_as h id c).1 = host_capabilities h.

Lemma answer_payload_kept P h s payload :
  kept_by_possible P -> P h -> speaks_for h s ->
  let '(h', s', _) := answer_payload h s payload in P h' /\ speaks_for h' s'.
Proof.
  intros HP Hh Hs. unfold answer_payload. destruct (from_slice json payload) as [m|e]; [|done].
  unfold answer_message.
  set (s0 := set_serves_cw _ (host_serves_cw h)).
  assert (H0 : speaks_for h s0 /\ ns_serves_cw s0 = host_serves_cw h)
    by (unfold s0, speaks_for; split; [|done]; destruct (host_devices h); exact Hs).
  destruct H0 as [H0 Hcw]. pose proof (handle_keeps s0 m) as (Hk & _).
  pose proof (acknowledged_is_possible s0) as Hack.
  destruct (handle s0 m) as [s1 reply] eqn:Eh. cbn [fst] in Hk.
  assert (H1 : speaks_for h s1) by (unfold speaks_for in *; congruence).
  destruct m as [|c|]; [done| |done]. destruct reply; try done.
  destruct (reaches_host s1 c); [|done].
  assert (Hp : P (apply_as h id c).1).
  { apply HP; [done|]. destruct (decide (c = SetIfShift i32_min)); [by right|left].
    destruct (Hack c) as [_ Hp]; [by rewrite Eh|done|]. unfold speaks_for in H0. by rewrite H0, Hcw in Hp. }
  pose proof (apply_keeps_radio h c) as Hcap. destruct (apply_as h id c) as [h' r]. cbn in *.
  split; [done|]. unfold speaks_for in *. congruence.
Qed.

Lemma frames_loop_kept P fuel : forall s h sess pend,
  kept_by_possible P -> P h -> speaks_for h sess ->
  let '(_, h', sess', _, _) := frames_loop fuel s h sess pend in P h' /\ speaks_for h' sess'.
Proof.
  induction fuel as [|fuel IH]; intros s h sess pend HP Hh Hs; [done|]. cbn [frames_loop].
  destruct (decode_frame pend) as [[[k payload] used]|e]; [|done]. destruct k; try (by apply IH).
  pose proof (answer_payload_kept P h sess payload HP Hh Hs) as Ha.
  destruct (answer_payload h sess payload) as [[h1 s1] reply]. destruct Ha as [Hh1 Hs1].
  destruct (write_control s reply) as [t [[]|e]]; [by apply IH|done].
Qed.

Lemma display_kept c now : (display c now).1.(host) = c.(host) /\ (display c now).1.(session) = c.(session)
  /\ (display c now).1.(pending) = c.(pending).
Proof.
  unfold display. destruct (_ <? _); [done|]. destruct (send_audio _ _ _ _) as [[s la] [[]|e]]; [|done].
  by destruct (send_spectrum _ _ _ _) as [[? ?] ?].
Qed.

(** C11. Only possible commands reach the radio: whatever bytes a client sends,
    in whatever pieces, before or after a handshake, anything that holds of the
    host and survives every command its radio can carry out, and the least IF
    shift, which the check lets through by mistake, still holds. *)
Theorem only_possible_commands_applied P arrivals : forall c,
  kept_by_possible P -> P c.(host) -> speaks_for c.(host) c.(session) -> P (serve_one c arrivals).1.(host).
Proof.
  induction arrivals as [|[a now] arrivals IH]; intros c HP Hh Hs; [done|]. cbn [serve_one].
  enough (Hc : P (serve_pass c a now).1.(host) /\ speaks_for (serve_pass c a now).1.(host) (serve_pass c a now).1.(session)).
  { destruct (serve_pass c a now) as [c' p]. destruct Hc. destruct p; [by apply IH|done|done]. }
  destruct a; try done; cbn [serve_pass].
  all: match goal with |- context [frames_loop ?f ?x ?y ?z ?w] =>
         pose proof (frames_loop_kept P f x y z w HP Hh Hs) as Hf; destruct (frames_loop f x y z w) as [[[[s h] sess] pend] r] end.
  all: destruct r as [[]|e]; [|done].
  all: match goal with |- context [display ?x ?y] =>
         pose proof (display_kept x y) as (E1 & E2 & _); destruct (display x y) as [c' r'] end.
  all: cbn in *; rewrite E1, E2; exact Hf.
Qed.

(** ** A broken stream *)

Lemma broken_stays buf e b : decode_frame buf = Err e -> e <> Incomplete -> decode_frame (buf ++ b) = Err e.
Proof.
  intros He Hne. revert He. destruct buf as [|k [|b1 [|b2 [|b3 [|b4 rest]]]]]; cbn [app decode_frame]; try (by intros [= <-]).
  destruct (kind_from_u8 k); [|done]. cbv zeta. destruct (bool_decide _ && _); [done|]. destruct (_ <? _); [by intros [= <-]|done].
Qed.

Definition arrived (a : Arrival) : bytes := match a with Arrived b => b | _ => [] end.

(** A frame that cannot be decoded is never skipped. *)
Lemma broken_pass c e a now : decode_frame c.(pending) = Err e -> e <> Incomplete ->
  (serve_pass c a now).1.(host) = c.(host)
  /\ ((serve_pass c a now).2 = GoesOn -> (serve_pass c a now).1.(pending) = c.(pending) ++ arrived a).
Proof.
  intros He Hne.
  assert (Hl : forall fuel s h sess b, frames_loop fuel s h sess (c.(pending) ++ b) = (s, h, sess, c.(pending) ++ b, Ok tt)).
  { intros [|fuel] s h sess b; cbn [frames_loop]; [done|]. by rewrite (broken_stays _ e b). }
  destruct a; cbn [serve_pass arrived]; try done; rewrite Hl;
    match goal with |- context [display ?x ?y] =>
      pose proof (display_kept x y) as (E0 & _ & E); destruct (display x y) as [c' r'] end;
    cbn in *; by rewrite E0, E.
Qed.

(** C15. One bad byte ends the conversation without ending the connection: once
    a frame with an unknown kind or an oversized length is at the front of what
    has arrived, the loop never gets past it: no command of that client reaches
    the host any more, not even an abort, and every byte it sends is kept. *)
Theorem broken_frame_wedges e arrivals : forall c,
  decode_frame c.(pending) = Err e -> e <> Incomplete ->
  (serve_one c arrivals).1.(host) = c.(host)
  /\ ((serve_one c arrivals).2 = GoesOn ->
      (serve_one c arrivals).1.(pending) = c.(pending) ++ concat (map (fun x => arrived x.1) arrivals)).
Proof.
  induction arrivals as [|[a now] arrivals IH]; intros c He Hne; cbn [serve_one map concat]; [by rewrite app_nil_r|].
  destruct (broken_pass c e a now He Hne) as [Hh Hp]. destruct (serve_pass c a now) as [c' p]. cbn [fst snd] in *.
  destruct p; [|done|done]. specialize (Hp eq_refl). destruct (IH c') as [IH1 IH2]; [|done|].
  - rewrite Hp. by apply broken_stays.
  - split; [congruence|]. intros E. rewrite (IH2 E), Hp. by rewrite <- app_assoc.
Qed.

(** ** Every message is answered once, in order *)

(** The messages one after another, without a network. *)
Fixpoint converse (h : H) (sess : NativeSession) (payloads : list bytes) : H * NativeSession * list ServerMessage :=
  match payloads with
  | [] => (h, sess, [])
  | p :: payloads =>
      let '(h, sess, reply) := answer_payload h sess p in
      let '(h, sess, replies) := converse h sess payloads in (h, sess, reply :: replies)
  end.
Lemma converse_app h sess ps qs :
  converse h sess (ps ++ qs)
  = let '(h1, s1, rs1) := converse h sess ps in let '(h2, s2, rs2) := converse h1 s1 qs in (h2, s2, rs1 ++ rs2).
Proof.
  revert h sess. induction ps as [|p ps IH]; intros h sess; cbn [converse app].
  - by destruct (converse h sess qs) as [[? ?] ?].
  - destruct (answer_payload h sess p) as [[h1 s1] r]. rewrite IH. destruct (converse h1 s1 ps) as [[h2 s2] rs].
    by destruct (converse h2 s2 qs) as [[? ?] ?].
Qed.

Definition put_frame (f : FrameKind * bytes) : bytes := encode_frame f.1 f.2.
Definition put_frames (fs : list (FrameKind * bytes)) : bytes := concat (map put_frame fs).
Definition control_frames (ps : list bytes) : bytes := put_frames (map (pair FControl) ps).
Definition is_control (f : FrameKind * bytes) : bool := bool_decide (f.1 = FControl).

(** [out] is frames, the control ones among them the replies. *)
Definition replied (rs : list ServerMessage) (out : list (FrameKind * bytes)) : Prop :=
  Forall2 (fun r f => json.(to_vec) r = Some f.2) rs (List.filter is_control out)
  /\ Forall (fun f => carries f.1 f.2) out.

Lemma put_frames_app fs gs : put_frames (fs ++ gs) = put_frames fs ++ put_frames gs.
Proof. unfold put_frames. by rewrite map_app, concat_app. Qed.
Lemma replied_app rs1 rs2 o1 o2 : replied rs1 o1 -> replied rs2 o2 -> replied (rs1 ++ rs2) (o1 ++ o2).
Proof. intros [H1 H2] [H3 H4]. split; [rewrite List.filter_app; by apply Forall2_app|by apply Forall_app]. Qed.

(** A beginning of a stream of frames is whole frames and a partial one. *)
Lemma split_frames fs : forall pre post, Forall (fun f => carries f.1 f.2) fs -> pre ++ post = put_frames fs ->
  exists fs1 fs2 rest, fs = fs1 ++ fs2 /\ pre = put_frames fs1 ++ rest /\ rest ++ post = put_frames fs2
    /\ decode_frame rest = Err Incomplete.
Proof.
  induction fs as [|[k p] fs IH]; intros pre post Hp E.
  { apply app_nil in E as [-> ->]. exists [], [], []. done. }
  apply Forall_cons_1 in Hp as [Hp1 Hp]. unfold put_frames in E. cbn [map concat] in E.
  change (concat (map put_frame fs)) with (put_frames fs) in E.
  unfold put_frame in E at 1. cbn [fst snd] in *. set (f := encode_frame k p) in *.
  destruct (decide (length f <= length pre)%nat) as [Hl|Hl].
  - assert (Hpre : exists pre', pre = f ++ pre' /\ pre' ++ post = put_frames fs).
    { exists (drop (length f) pre). apply (f_equal (take (length f))) in E as Et.
      apply (f_equal (drop (length f))) in E as Ed.
      rewrite take_app_le, take_app_length in Et by lia. rewrite drop_app_le, drop_app_length in Ed by lia.
      split; [|done]. rewrite <- Et at 1. by rewrite take_drop. }
    destruct Hpre as (pre' & -> & E'). destruct (IH pre' post Hp E') as (fs1 & fs2 & rest & -> & -> & E2 & Hr).
    exists ((k, p) :: fs1), fs2, rest. split_and!; [done| |done|done].
    unfold put_frames. cbn [map concat]. by rewrite <- app_assoc.
  - exists [], ((k, p) :: fs), pre. split_and!; [done|done|exact E|].
    apply (decode_partial k p pre (take (length f - length pre) post)); [done| |].
    + apply (f_equal (take (length f))) in E. rewrite take_app_length, take_app_ge in E by lia. done.
    + intros Hn. apply (f_equal length) in E, Hn. rewrite !length_app in E. rewrite length_take in Hn.
      change (length []) with 0%nat in Hn. lia.
Qed.
Lemma split_control_frames ps pre post : Forall (carries FControl) ps -> pre ++ post = control_frames ps ->
  exists ps1 ps2 rest, ps = ps1 ++ ps2 /\ pre = control_frames ps1 ++ rest /\ rest ++ post = control_frames ps2
    /\ decode_frame rest = Err Incomplete.
Proof.
  intros Hp E. destruct (split_frames (map (pair FControl) ps) pre post) as (fs1 & fs2 & rest & Ef & -> & E2 & Hr);
    [by apply Forall_fmap|done|].
  apply map_eq_app in Ef as (ps1 & ps2 & -> & <- & <-). exists ps1, ps2, rest. done.
Qed.

Context `{!TcpStreamLaws T}.
(** The host's pictures fit a frame. *)
Hypothesis pictures_fit : forall h,
  (forall f, host_audio h = Some f -> carries FAudio (encode_audio_payload f))
  /\ (forall f, host_spectrum h = Some f -> carries FSpectrum (encode_spectrum_payload f)).

(** A reply that can be written, and that a control frame can carry. *)
Definition writable (r : ServerMessage) : Prop := exists p, json.(to_vec) r = Some p /\ carries FControl p.

Lemma write_control_sent s c r : delivers s c -> writable r ->
  exists s' p, write_control s r = (s', Ok tt) /\ delivers s' c
    /\ json.(to_vec) r = Some p /\ carries FControl p /\ sent s' = sent s ++ put_frame (FControl, p).
Proof.
  intros Hd (p & E & Hc). unfold write_control. rewrite E.
  destruct (write_all_law s c (encode_frame FControl p) Hd) as (s' & Ew & Hs & Hd' & _). exists s', p. done.
Qed.

(** The inner loop, on whole frames and the beginning of one. *)
Lemma frames_loop_answers payloads : forall fuel s c h sess rest,
  Forall (carries FControl) payloads -> decode_frame rest = Err Incomplete -> delivers s c ->
  (length payloads <= fuel)%nat ->
  let '(h', sess', rs) := converse h sess payloads in Forall writable rs ->
  exists s' out, frames_loop fuel s h sess (control_frames payloads ++ rest) = (s', h', sess', rest, Ok tt)
    /\ delivers s' c /\ sent s' = sent s ++ put_frames out /\ replied rs out.
Proof.
  induction payloads as [|p payloads IH]; intros fuel s c h sess rest Hp Hr Hd Hf.
  - cbn [converse control_frames map put_frames concat app]. intros _. exists s, [].
    replace (frames_loop fuel s h sess rest) with (s, h, sess, rest, @Ok () IoError tt)
      by (destruct fuel; cbn [frames_loop]; [done|by rewrite Hr]).
    split_and!; [done|done|by rewrite app_nil_r|by split; constructor].
  - destruct fuel as [|fuel]; [cbn in Hf; lia|]. apply Forall_cons_1 in Hp as [Hp1 Hp]. cbn [converse].
    unfold control_frames, put_frames. cbn [map concat frames_loop]. rewrite <- app_assoc.
    unfold put_frame at 1. cbn [fst snd]. rewrite (decode_encode FControl p _ Hp1), drop_app_length.
    change (concat (map put_frame (map (pair FControl) payloads))) with (control_frames payloads).
    destruct (answer_payload h sess p) as [[h1 s1] r].
    destruct (converse h1 s1 payloads) as [[h2 s2] rs] eqn:Ecv. intros Hwr. apply Forall_cons_1 in Hwr as [Hw1 Hwr].
    destruct (write_control_sent s c r Hd Hw1) as (t1 & q & E1 & Hd1 & Eq & Hq & Hs1). rewrite E1.
    specialize (IH fuel t1 c h1 s1 rest Hp Hr Hd1 ltac:(cbn in Hf; lia)). rewrite Ecv in IH. specialize (IH Hwr). destruct IH as (t2 & out & E2 & Hd2 & Hs2 & Hrep).
    exists t2, ((FControl, q) :: out). split_and!; [done|done|by rewrite Hs2, Hs1, <- app_assoc|].
    apply (replied_app [r] rs [(FControl, q)] out); [|done]. split; [by repeat constructor|by apply Forall_singleton].
Qed.

Lemma length_control_frames ps : (length ps <= length (control_frames ps))%nat.
Proof.
  induction ps as [|p ps IH]; [done|]. unfold control_frames, put_frames in *. cbn [map concat length]. rewrite length_app.
  unfold put_frame at 1. cbn [fst snd]. rewrite length_encode_frame. lia.
Qed.

Lemma picture_sent s c (k : FrameKind) payload : delivers s c -> k <> FControl -> carries k payload ->
  exists s', write_all s (encode_frame k payload) = (s', Ok tt) /\ delivers s' c
    /\ exists out, sent s' = sent s ++ put_frames out /\ replied [] out.
Proof.
  intros Hd Hk Hc. destruct (write_all_law s c (encode_frame k payload) Hd) as (s' & Ew & Hs & Hd' & _).
  exists s'. split_and!; [done|done|]. exists [(k, payload)]. split.
  - rewrite Hs. unfold put_frames. cbn. by rewrite app_nil_r.
  - split; [|by apply Forall_singleton]. cbn. unfold is_control. cbn. rewrite bool_decide_eq_false_2 by done. constructor.
Qed.
Lemma send_pictures s c h sess la ls : delivers s c ->
  (exists s' la' out, send_audio s h sess la = (s', la', Ok tt) /\ delivers s' c /\ sent s' = sent s ++ put_frames out /\ replied [] out)
  /\ (exists s' ls' out, send_spectrum s h sess ls = (s', ls', Ok tt) /\ delivers s' c /\ sent s' = sent s ++ put_frames out /\ replied [] out).
Proof.
  intros Hd. destruct (pictures_fit h) as [Hfa Hfs].
  assert (Hno : exists out, sent s = sent s ++ put_frames out /\ replied [] out)
    by (exists []; split; [by rewrite app_nil_r|by split; constructor]).
  destruct Hno as (o & Ho & Hr). unfold send_audio, send_spectrum. split; case_match; try (by eauto 10); case_bool_decide; try (by eauto 10).
  - destruct (wants_audio sess); [|done].
    destruct (picture_sent s c FAudio (encode_audio_payload a) Hd) as (s' & -> & ? & out & ? & ?);
      [done|exact (Hfa _ H0)|eauto 10].
  - destruct (wants_spectrum sess); [|done].
    destruct (picture_sent s c FSpectrum (encode_spectrum_payload s0) Hd) as (s' & -> & ? & out & ? & ?);
      [done|exact (Hfs _ H0)|eauto 10].
Qed.
Lemma display_sent (c : Conn) d now : delivers c.(stream) d ->
  exists s ld ls la out, display c now = (mk_Conn s c.(host) c.(session) c.(pending) ld ls la, Ok tt)
    /\ delivers s d /\ sent s = sent c.(stream) ++ put_frames out /\ replied [] out.
Proof.
  intros Hd. unfold display. destruct (_ <? _).
  { destruct c. exists stream0, last_display0, last_sequence0, last_audio_sequence0, []. cbn in *.
    split_and!; [done|done|by rewrite app_nil_r|by split; constructor]. }
  destruct (send_pictures c.(stream) d c.(host) c.(session) c.(last_audio_sequence) None Hd) as [(s1 & la & o1 & -> & Hd1 & Hs1 & Hr1) _].
  destruct (send_pictures s1 d c.(host) c.(session) None c.(last_sequence) Hd1) as [_ (s2 & ls & o2 & -> & Hd2 & Hs2 & Hr2)].
  exists s2, now, ls, la, (o1 ++ o2). split_and!; [done|done|by rewrite Hs2, Hs1, put_frames_app, <- app_assoc|].
  by apply (replied_app [] []).
Qed.

(** A connection while the client is there: bytes, and passes without any. *)
Definition listening (a : Arrival * Z) : Prop := match a.1 with Arrived _ | Quiet => True | _ => False end.
Definition all_arrived (arrivals : list (Arrival * Z)) : bytes := concat (map (fun x => arrived x.1) arrivals).

Lemma serve_pass_answers (c : Conn) d a now ps post :
  listening (a, now) -> Forall (carries FControl) ps -> delivers c.(stream) d ->
  c.(pending) ++ arrived a ++ post = control_frames ps ->
  exists ps1 ps2, ps = ps1 ++ ps2 /\
    let '(h, sess, rs) := converse c.(host) c.(session) ps1 in Forall writable rs ->
    exists c' out, serve_pass c a now = (c', GoesOn) /\ c'.(host) = h /\ c'.(session) = sess
      /\ delivers c'.(stream) d /\ c'.(pending) ++ post = control_frames ps2 /\ decode_frame c'.(pending) = Err Incomplete
      /\ sent c'.(stream) = sent c.(stream) ++ put_frames out /\ replied rs out.
Proof.
  intros Ha Hps Hd E. rewrite app_assoc in E.
  destruct (split_control_frames ps _ post Hps E) as (ps1 & ps2 & rest & -> & Epre & Epost & Hr).
  exists ps1, ps2. split; [done|]. apply Forall_app in Hps as [Hps1 _].
  pose proof (frames_loop_answers ps1 (length (c.(pending) ++ arrived a)) c.(stream) d c.(host) c.(session) rest Hps1 Hr Hd) as Hf.
  assert (Hlen : (length ps1 <= length (c.(pending) ++ arrived a))%nat).
  { rewrite Epre, length_app. pose proof (length_control_frames ps1). lia. }
  specialize (Hf Hlen). destruct (converse c.(host) c.(session) ps1) as [[h sess] rs]. intros Hwr.
  destruct (Hf Hwr) as (s' & o1 & Ef & Hd' & Hs' & Hr').
  assert (Epass : serve_pass c a now
    = let '(c, r) := display (mk_Conn s' h sess rest c.(last_display) c.(last_sequence) c.(last_audio_sequence)) now in
      (c, match r with Ok _ => GoesOn | Err e => Failed e end)).
  { rewrite <- Epre in Ef. destruct a; try done; cbn [serve_pass arrived] in *; by rewrite Ef. }
  rewrite Epass.
  destruct (display_sent (mk_Conn s' h sess rest c.(last_display) c.(last_sequence) c.(last_audio_sequence)) d now Hd')
    as (s2 & ld & ls & la & o2 & -> & Hd2 & Hs2 & Hr2).
  cbn in *. eexists _, (o1 ++ o2). split_and!; [done|done|done|done|done|done| |].
  - cbn. by rewrite Hs2, Hs', put_frames_app, <- app_assoc.
  - rewrite <- (app_nil_r rs). by apply replied_app.
Qed.

(** Control frames sent by a client, cut up anyhow and with pauses between the
    pieces: each is answered once, in order, as the session and the host
    answer; pictures may go out in between. *)
Lemma serve_one_answers d arrivals : forall (c : Conn) ps,
  Forall listening arrivals -> Forall (carries FControl) ps -> delivers c.(stream) d ->
  decode_frame c.(pending) = Err Incomplete -> c.(pending) ++ all_arrived arrivals = control_frames ps ->
  let '(h, sess, rs) := converse c.(host) c.(session) ps in Forall writable rs ->
  exists c' out, serve_one c arrivals = (c', GoesOn) /\ c'.(host) = h /\ c'.(session) = sess
    /\ sent c'.(stream) = sent c.(stream) ++ put_frames out /\ replied rs out.
Proof.
  induction arrivals as [|[a now] arrivals IH]; intros c ps Hl Hps Hd Hi E.
  - cbn [all_arrived map concat] in E. rewrite app_nil_r in E. destruct ps as [|p ps].
    + intros _. exists c, []. split_and!; [done|done|done|by rewrite app_nil_r|by split; constructor].
    + apply Forall_cons_1 in Hps as [Hp _]. rewrite E in Hi. unfold control_frames, put_frames in Hi. cbn [map concat] in Hi.
      unfold put_frame in Hi at 1. cbn [fst snd] in Hi. by rewrite decode_encode in Hi.
  - apply Forall_cons_1 in Hl as [Ha Hl]. unfold all_arrived in E. cbn [map concat fst] in E.
    destruct (serve_pass_answers c d a now ps _ Ha Hps Hd E) as (ps1 & ps2 & -> & Hpass). rewrite converse_app.
    destruct (converse c.(host) c.(session) ps1) as [[h1 s1] rs1].
    destruct (converse h1 s1 ps2) as [[h2 s2] rs2] eqn:Ecv. intros Hwr. apply Forall_app in Hwr as [Hwr1 Hwr2].
    destruct (Hpass Hwr1) as (c1 & o1 & E1 & Eh & Es & Hd1 & Epend & Hi1 & Hs1 & Hr1). cbn [serve_one]. rewrite E1.
    apply Forall_app in Hps as [_ Hps2]. specialize (IH c1 ps2 Hl Hps2 Hd1 Hi1 Epend). rewrite Eh, Es, Ecv in IH.
    destruct (IH Hwr2) as (c2 & o2 & E2 & Eh2 & Es2 & Hs2 & Hr2).
    exists c2, (o1 ++ o2). split_and!; [done|done|done|by rewrite Hs2, Hs1, put_frames_app, <- app_assoc|by apply replied_app].
Qed.
End Server.
Arguments Conn T H : clear implicits.

(** ** A bench *)

Definition bench_radio : RadioCapabilities :=
  mk_RadioCapabilities "bench"%string (mk_EndpointSet []) (mk_VfoCapability 2 true None None)
    [mk_ModeDescriptor Usb "USB"%string KSsb (Some Upper) 2400] [10] (mk_FrequencyRange 500000 60000000)
    (mk_FilterCapability (Some 1000) None false) (mk_MeterSet []) None None SignalNone None.
Definition bench_state : RadioState := mk_RadioState 7074000 7074000 Usb false false None None None [] None None.

(** A host that remembers what it was asked to do. *)
Record BenchHost : Type := mk_BenchHost { applied : list Command }.
#[export] Instance bench_host : RadioHost BenchHost := {|
  host_capabilities _ := bench_radio; host_installation _ := installation_default;
  host_layout _ := None; host_theme _ := None; host_state_as _ _ := bench_state; host_devices _ := None;
  host_serves_cw _ := false; host_spectrum _ := None; host_audio _ := None;
  apply_as h _ c := (mk_BenchHost (h.(applied) ++ [c]), Ok tt) |}.

(** JSON cut down to a few messages. *)
Definition bench_json : Json :=
  {| from_slice b := match map unsigned b with [1] => Ok Ping | [2] => Ok (CCommand (SetFrequency 0 1)) | _ => Err [] end;
     to_vec m := match m with Pong => Some [u8 11] | Ack => Some [u8 12] 
                 | SError NotReady e => if bool_decide (e = [PStr "send hello first"]) then Some [u8 13] else None
                 | _ => None end;
     client_to_vec m := match m with Ping => Some [u8 1] | _ => None end;
     client_from_slice b := match map unsigned b with [11] => Ok Pong | [12] => Ok Ack | [13] => Ok not_ready | _ => Err [] end |}.

Definition bench_conn (b : bytes) : Conn Segments BenchHost :=
  let c := conn_new (mk_Segments [] []) (mk_BenchHost []) 0 in
  mk_Conn c.(stream) c.(host) c.(session) b 0 None None.

Lemma only_possible_commands_applied_witness :
  SetFrequency 0 1 ∉ applied (serve_one bench_json (from_raw 1) (bench_conn []) [(Arrived (encode_frame FControl [u8 2]), 5)]).1.(host).
Proof.
  apply (only_possible_commands_applied bench_json (from_raw 1) ltac:(done) (fun h => SetFrequency 0 1 ∉ h.(applied))).
  - intros h c Hh Hp. cbn. rewrite not_elem_of_app. split; [done|]. intros E. apply list_elem_of_singleton in E as <-.
    destruct Hp as [[_ [Hp _]]|[=]]. cbn in Hp. lia.
  - cbn. apply not_elem_of_nil.
  - reflexivity.
Defined.

Lemma broken_frame_wedges_witness :
  (serve_one bench_json (from_raw 1) (bench_conn (map u8 [9; 0; 0; 0; 0])) [(Arrived (encode_frame FControl [u8 1]), 5)]).1.(host)
  = mk_BenchHost [].
Proof.
  destruct (broken_frame_wedges bench_json (from_raw 1) (UnknownKind (u8 9)) [(Arrived (encode_frame FControl [u8 1]), 5)]
    (bench_conn (map u8 [9; 0; 0; 0; 0]))) as [H _]; [reflexivity|discriminate|exact H].
Defined.

Lemma validate_exact_witness :
  session_validate (session_new bench_radio) (SetFrequency 1 14074000) = Ok tt
  /\ ~ possible bench_radio false (SetFrequency 2 14074000).
Proof.
  destruct (validate_exact (session_new bench_radio) (SetFrequency 1 14074000)) as [_ H1]; [discriminate|].
  split; [apply H1; cbn; lia|]. cbn. lia.
Defined.
Lemma least_if_shift_accepted_witness : session_validate (session_new bench_radio) (SetIfShift (- 2147483648)) = Ok tt.
Proof. apply (least_if_shift_accepted (session_new bench_radio) 1000); [reflexivity|vm_compute; discriminate]. Defined.
