(* ===== verification/NativeClient.v ===== *)
(** * NativeClient: the console's half of the protocol (cat-native/src/client.rs)

    [Connection] is blocking: it sends a message and reads frames until the
    reply, keeping only the newest picture of each kind on the way.  The
    threaded [Client] around it is channels and a thread and is left out. *)

From S2P Require Import Prelude Text Framework Client Tcp Capabilities NativeTypes Layout Installation NativeMessages NativeFrames NativeSession NativeServer.

Inductive ClientError : Type :=
| CIo (e : IoError) | CFrame (e : FrameError) | CDecode (m : message) | CUnexpected (m : ServerMessage)
| CVersionMismatch (ours theirs : Z) | CClosed | CRefused (c : ErrorCode) (m : message).

(** Kinds of I/O error the code tells apart. *)
Definition TimedOut : IoError := OtherIo 110.
Definition ConnectionReset : IoError := OtherIo 104.
Definition ConnectionAborted : IoError := OtherIo 103.
Definition BrokenPipe : IoError := OtherIo 32.
Definition closes (e : IoError) : bool :=
  bool_decide (e = ConnectionReset \/ e = ConnectionAborted \/ e = BrokenPipe \/ e = UnexpectedEof).

Record Streams : Type := mk_Streams { want_spectrum : bool; want_audio : bool; want_fps : option Z }.
Definition streams_none : Streams := mk_Streams false false None.
Definition streams_all : Streams := mk_Streams true true None.
Definition at_fps (s : Streams) (fps : Z) : Streams := mk_Streams s.(want_spectrum) s.(want_audio) (Some fps).

Definition placeholder_capabilities : CapabilitiesWire :=
  mk_CapabilitiesWire ""%string [] (mk_VfoCapability 0 false None None) [] [] (mk_FrequencyRange 0 0)
    (mk_FilterWire None None false) [] None None SignalNone None None installation_default None.

Definition cw_reply (m : ServerMessage) : result () ClientError :=
  match m with
  | Ack => Ok tt
  | SError Malformed _ => Err (CRefused Unsupported [PStr "this server predates CW control"])
  | SError c m => Err (CRefused c m)
  | other => Err (CUnexpected other)
  end.

Section Connection.
  Context {T : Type} `{!TcpStream T} (json : Json) (clock : T -> Z).

Record Connection : Type := mk_Connection {
  c_stream : T; c_capabilities : CapabilitiesWire; c_pending : bytes; inbox : list (result ServerMessage ClientError);
  latest_spectrum : option SpectrumFrame; latest_audio : option AudioFrame; streams : Streams; deadline : option Z }.
Definition on_stream (c : Connection) (s : T) : Connection :=
  mk_Connection s c.(c_capabilities) c.(c_pending) c.(inbox) c.(latest_spectrum) c.(latest_audio) c.(streams) c.(deadline).

(** One frame filed. *)
Definition file_frame (c : Connection) (k : FrameKind) (payload : bytes) : Connection :=
  match k with
  | FControl =>
      let m := match json.(client_from_slice) payload with Ok m => Ok m | Err e => Err (CDecode e) end in
      mk_Connection c.(c_stream) c.(c_capabilities) c.(c_pending) (c.(inbox) ++ [m]) c.(latest_spectrum) c.(latest_audio)
        c.(streams) c.(deadline)
  | FSpectrum =>
      match decode_spectrum_payload payload with
      | Some f => mk_Connection c.(c_stream) c.(c_capabilities) c.(c_pending) c.(inbox) (Some f) c.(latest_audio) c.(streams) c.(deadline)
      | None => c
      end
  | FAudio =>
      match decode_audio_payload payload with
      | Some f => mk_Connection c.(c_stream) c.(c_capabilities) c.(c_pending) c.(inbox) c.(latest_spectrum) (Some f) c.(streams) c.(deadline)
      | None => c
      end
  end.
Definition set_pending (c : Connection) (p : bytes) : Connection :=
  mk_Connection c.(c_stream) c.(c_capabilities) p c.(inbox) c.(latest_spectrum) c.(latest_audio) c.(streams) c.(deadline).
Definition push_inbox (c : Connection) (m : result ServerMessage ClientError) : Connection :=
  mk_Connection c.(c_stream) c.(c_capabilities) c.(c_pending) (c.(inbox) ++ [m]) c.(latest_spectrum) c.(latest_audio)
    c.(streams) c.(deadline).

(** [drain_frames], one unit of fuel per frame. *)
Fixpoint drain_loop (fuel : nat) (c : Connection) (buf : bytes) : Connection :=
  match fuel with
  | O => set_pending c buf
  | S fuel =>
      match decode_frame buf with
      | Err Incomplete => set_pending c buf
      | Err e => set_pending (push_inbox c (Err (CFrame e))) []
      | Ok (k, payload, used) => drain_loop fuel (file_frame c k payload) (drop used buf)
      end
  end.
Definition drain_frames (c : Connection) : Connection := drain_loop (S (length c.(c_pending))) c c.(c_pending).

Definition fill (c : Connection) : Connection * result () ClientError :=
  if match c.(deadline) with Some d => d <=? clock c.(c_stream) | None => false end then (c, Err (CIo TimedOut))
  else
    let '(s, r) := read c.(c_stream) (Z.to_nat 16384) in
    let c := on_stream c s in
    match r with
    | Ok [] => (c, Err CClosed)
    | Ok b => (set_pending c (c.(c_pending) ++ b), Ok tt)
    | Err e => (c, Err (if closes e then CClosed else CIo e))
    end.

Definition pending_control (c : Connection) : Connection * option (result ServerMessage ClientError) :=
  match c.(inbox) with
  | [] => (c, None)
  | m :: l => (mk_Connection c.(c_stream) c.(c_capabilities) c.(c_pending) l c.(latest_spectrum) c.(latest_audio) c.(streams) c.(deadline), Some m)
  end.

(** One unit of fuel per read. *)
Fixpoint read_control (fuel : nat) (c : Connection) : option (Connection * result ServerMessage ClientError) :=
  match pending_control c with
  | (c, Some m) => Some (c, m)
  | (c, None) =>
      match fuel with
      | O => None
      | S fuel =>
          let '(c, r) := fill c in
          match r with
          | Err e => Some (c, Err e)
          | Ok _ => read_control fuel (drain_frames c)
          end
      end
  end.

Definition client_send (c : Connection) (m : ClientMessage) : Connection * result () ClientError :=
  match json.(client_to_vec) m with
  | None => (c, Err (CDecode []))
  | Some p => let '(s, r) := write_all c.(c_stream) (encode_frame FControl p) in (on_stream c s, map_err CIo r)
  end.
Definition request (fuel : nat) (c : Connection) (m : ClientMessage) : option (Connection * result ServerMessage ClientError) :=
  let '(c, r) := client_send c m in
  match r with Err e => Some (c, Err e) | Ok _ => read_control fuel c end.
Definition client_command (fuel : nat) (c : Connection) (x : Command) := request fuel c (CCommand x).

(** A reply turned into a result. *)
Definition expecting {A} (x : option (Connection * result ServerMessage ClientError)) (f : ServerMessage -> result A ClientError)
  : option (Connection * result A ClientError) :=
  '(c, r) ← x; Some (c, match r with Ok m => f m | Err e => Err e end).

Definition read_state (fuel : nat) (c : Connection) : option (Connection * result RadioState ClientError) :=
  expecting (client_command fuel c ReadState) (fun m => match m with SState s => Ok s | other => Err (CUnexpected other) end).
Definition read_devices (fuel : nat) (c : Connection) : option (Connection * result (option (list DeviceList)) ClientError) :=
  expecting (client_command fuel c ReadDevices) (fun m => match m with
    | SDevices l => Ok (Some l)
    | SError Unsupported _ | SError Malformed _ => Ok None
    | other => Err (CUnexpected other) end).
Definition attach_device (fuel : nat) (c : Connection) (k : DeviceKind) (spec : text) : option (Connection * result () ClientError) :=
  expecting (client_command fuel c (AttachDevice k spec)) (fun m => match m with Ack => Ok tt | other => Err (CUnexpected other) end).
Definition ping (fuel : nat) (c : Connection) : option (Connection * result () ClientError) :=
  expecting (request fuel c Ping) (fun m => match m with Pong => Ok tt | other => Err (CUnexpected other) end).

Definition cw_capability (c : Connection) : option CwCapabilityWire := c.(c_capabilities).(wire_cw).
Definition cw_state (fuel : nat) (c : Connection) : option (Connection * result (option CwState) ClientError) :=
  match cw_capability c with
  | None => Some (c, Ok None)
  | Some _ => '(c, r) ← read_state fuel c; Some (c, match r with Ok s => Ok s.(st_cw) | Err e => Err e end)
  end.
Definition cw_command (fuel : nat) (c : Connection) (x : Command) : option (Connection * result () ClientError) :=
  match cw_capability c with
  | None => Some (c, Err (CRefused Unsupported [PStr "this server does not offer CW control"]))
  | Some _ => expecting (client_command fuel c x) cw_reply
  end.
Definition set_keyer_speed (fuel : nat) (c : Connection) (wpm : Z) := cw_command fuel c (SetKeyerSpeed wpm).
Definition arm_cw (fuel : nat) (c : Connection) (call : text) (ack : bool) (cap_s : option Z) :=
  cw_command fuel c (ArmCwTransmit call ack cap_s).
Definition send_cw (fuel : nat) (c : Connection) (t : text) := cw_command fuel c (SendCwText t).
Definition disarm_cw (fuel : nat) (c : Connection) := cw_command fuel c DisarmCw.
Definition abort_cw (fuel : nat) (c : Connection) : option (Connection * result () ClientError) :=
  match cw_capability c with
  | None => Some (c, Ok tt)
  | Some _ => expecting (client_command fuel c AbortCw) cw_reply
  end.

Definition take_spectrum (c : Connection) : Connection * option SpectrumFrame :=
  (mk_Connection c.(c_stream) c.(c_capabilities) c.(c_pending) c.(inbox) None c.(latest_audio) c.(streams) c.(deadline), c.(latest_spectrum)).
Definition take_audio (c : Connection) : Connection * option AudioFrame :=
  (mk_Connection c.(c_stream) c.(c_capabilities) c.(c_pending) c.(inbox) c.(latest_spectrum) None c.(streams) c.(deadline), c.(latest_audio)).

Definition handshake (fuel : nat) (s : T) (st : Streams) (dl : option Z) : option (result Connection ClientError) :=
  let c := mk_Connection s placeholder_capabilities [] [] None None st dl in
  let '(c, r) := client_send c (Hello PROTOCOL_VERSION st.(want_spectrum) st.(want_audio) st.(want_fps)) in
  match r with
  | Err e => Some (Err e)
  | Ok _ =>
      '(c, m) ← read_control fuel c;
      Some match m with
           | Err e => Err e
           | Ok (Welcome version caps) =>
               if negb (version =? PROTOCOL_VERSION) then Err (CVersionMismatch PROTOCOL_VERSION version)
               else Ok (mk_Connection c.(c_stream) caps c.(c_pending) c.(inbox) c.(latest_spectrum) c.(latest_audio) c.(streams) None)
           | Ok other => Err (CUnexpected other)
           end
  end.

(** ** Replies among pictures *)

(** Messages read one after another. *)
Fixpoint read_controls (k fuel : nat) (c : Connection) : option (list (result ServerMessage ClientError)) :=
  match k with
  | O => Some []
  | S k => '(c, m) ← read_control fuel c; l ← read_controls k fuel c; Some (m :: l)
  end.

Definition filed (f : FrameKind * bytes) : result ServerMessage ClientError :=
  match json.(client_from_slice) f.2 with Ok m => Ok m | Err e => Err (CDecode e) end.
Definition file_all (c : Connection) (fs : list (FrameKind * bytes)) : Connection :=
  fold_left (fun c f => file_frame c f.1 f.2) fs c.

Lemma drain_loop_frames fs : forall fuel c rest,
  Forall (fun f => carries f.1 f.2) fs -> decode_frame rest = Err Incomplete -> (length fs < fuel)%nat ->
  drain_loop fuel c (put_frames fs ++ rest) = set_pending (file_all c fs) rest.
Proof.
  induction fs as [|[k p] fs IH]; intros [|fuel] c rest Hc Hr Hf; try (cbn in Hf; lia); cbn [drain_loop].
  - cbn [put_frames map concat app]. by rewrite Hr.
  - apply Forall_cons_1 in Hc as [Hc1 Hc]. unfold put_frames. cbn [map concat]. rewrite <- app_assoc.
    unfold put_frame at 1. cbn [fst snd] in *. rewrite decode_encode, drop_app_length by done.
    apply (IH fuel (file_frame c k p) rest); [done|done|cbn in Hf; lia].
Qed.
Lemma file_all_keeps fs : forall c,
  (file_all c fs).(inbox) = c.(inbox) ++ map filed (List.filter is_control fs)
  /\ (file_all c fs).(c_stream) = c.(c_stream) /\ (file_all c fs).(deadline) = c.(deadline).
Proof.
  induction fs as [|[k p] fs IH]; intros c; [by rewrite app_nil_r|].
  change (file_all c ((k, p) :: fs)) with (file_all (file_frame c k p) fs).
  destruct (IH (file_frame c k p)) as (E1 & E2 & E3). rewrite E1, E2, E3.
  destruct k; cbn; unfold is_control; cbn; [by rewrite <- app_assoc| |];
    [destruct (decode_spectrum_payload p)|destruct (decode_audio_payload p)]; done.
Qed.
Lemma length_put_frames fs : (length fs <= length (put_frames fs))%nat.
Proof.
  induction fs as [|[k p] fs IH]; [done|]. unfold put_frames in *. cbn [map concat length]. rewrite length_app.
  unfold put_frame at 1. cbn [fst snd]. rewrite length_encode_frame. lia.
Qed.

Context `{!TcpStreamLaws T}.

(** The messages [ms] are still to come on this connection, [d] of their bytes
    unread. *)
Definition awaiting (c : Connection) (d : bytes) (ms : list (result ServerMessage ClientError)) : Prop :=
  delivers c.(c_stream) d /\ patience c.(c_stream) = 0%nat /\ c.(deadline) = None
  /\ decode_frame c.(c_pending) = Err Incomplete
  /\ exists fs, Forall (fun f => carries f.1 f.2) fs /\ c.(c_pending) ++ d = put_frames fs
       /\ c.(inbox) ++ map filed (List.filter is_control fs) = ms.

Lemma fill_and_drain c d ms : awaiting c d ms -> d <> [] ->
  exists c1 d1, fill c = (c1, Ok tt) /\ awaiting (drain_frames c1) d1 ms /\ (length d1 < length d)%nat.
Proof.
  intros (Hd & Hp & Hdl & Hi & fs & Hc & E & Em) Hne. unfold fill. rewrite Hdl.
  destruct (read_law c.(c_stream) d (Z.to_nat 16384) Hd ltac:(lia)) as (s' & _ & [(_ & _ & Hlt)|[(-> & _)|(b & d1 & -> & Hb & -> & Hd1 & Hp1)]]);
    [lia|done|].
  destruct b as [|b0 b]; [cbn in Hb; lia|]. set (ch := b0 :: b) in *. rewrite app_assoc in E.
  destruct (split_frames fs _ d1 Hc E) as (fs1 & fs2 & rest & -> & Epre & Epost & Hr).
  eexists _, d1. split; [done|]. split; [|rewrite length_app; lia].
  apply Forall_app in Hc as [Hc1 Hc2]. unfold drain_frames. cbn [c_pending set_pending on_stream].
  rewrite Epre. rewrite drain_loop_frames; [|done|done|rewrite length_app; pose proof (length_put_frames fs1); lia].
  match goal with |- context [file_all ?x fs1] => destruct (file_all_keeps fs1 x) as (E1 & E2 & E3) end.
  unfold awaiting. cbn [c_stream deadline c_pending inbox set_pending]. rewrite E1, E2, E3. cbn.
  split_and!; [done|lia|done|done|]. exists fs2. split_and!; [done|done|].
  rewrite <- app_assoc, <- map_app, <- List.filter_app. exact Em.
Qed.

Lemma awaiting_bytes c d m ms : awaiting c d (m :: ms) -> c.(inbox) = [] -> d <> [].
Proof.
  intros (_ & _ & _ & Hi & fs & Hc & E & Em) En ->. rewrite En in Em. rewrite app_nil_r in E.
  destruct fs as [|[k p] fs]; [done|]. apply Forall_cons_1 in Hc as [Hc _]. rewrite E in Hi.
  unfold put_frames in Hi. cbn [map concat] in Hi. unfold put_frame in Hi at 1. cbn [fst snd] in Hi, Hc.
  by rewrite decode_encode in Hi.
Qed.

Lemma read_control_next fuel : forall c d m ms, awaiting c d (m :: ms) -> (length d < fuel)%nat ->
  exists c' d', read_control fuel c = Some (c', m) /\ awaiting c' d' ms /\ (length d' <= length d)%nat.
Proof.
  induction fuel as [|fuel IH]; intros c d m ms Ha Hf; [lia|]. cbn [read_control]. unfold pending_control.
  destruct (inbox c) as [|m0 l] eqn:En.
  - pose proof (awaiting_bytes c d m ms Ha En) as Hne.
    destruct (fill_and_drain c d _ Ha Hne) as (c1 & d1 & -> & Ha1 & Hl).
    destruct (IH _ d1 m ms Ha1 ltac:(lia)) as (c' & d' & E & Ha' & Hl'). exists c', d'. split_and!; [done|done|lia].
  - destruct Ha as (Hd & Hp & Hdl & Hi & fs & Hc & E & Em). rewrite En in Em. cbn in Em. injection Em as -> Em.
    eexists _, d. split; [done|]. split; [|lia]. split_and!; try done. cbn. exists fs. done.
Qed.

Lemma read_controls_all fuel ms : forall c d, awaiting c d ms -> (length d < fuel)%nat ->
  read_controls (length ms) fuel c = Some ms.
Proof.
  induction ms as [|m ms IH]; intros c d Ha Hf; [done|]. cbn [length read_controls].
  destruct (read_control_next fuel c d m ms Ha Hf) as (c' & d' & -> & Ha' & Hl). cbn.
  rewrite (IH c' d' Ha' ltac:(lia)). done.
Qed.
End Connection.
Arguments Connection T : clear implicits.

(** ** A conversation *)

Section Conversation.
  Context {Ts : Type} `{!TcpStream Ts} `{!TcpStreamLaws Ts} {Tc : Type} `{!TcpStream Tc} `{!TcpStreamLaws Tc}
    {H : Type} `{!RadioHost H} (json : Json) (laws : JsonLaws json) (id : ConsoleId) (clock : Tc -> Z).

(** What the session and the host say to the messages, in order. *)
Fixpoint converse_messages (h : H) (sess : NativeSession) (ms : list ClientMessage) : H * NativeSession * list ServerMessage :=
  match ms with
  | [] => (h, sess, [])
  | m :: ms =>
      let '(h, sess, reply) := answer_message id h sess m in
      let '(h, sess, replies) := converse_messages h sess ms in (h, sess, reply :: replies)
  end.

(** A message as the client puts it on the wire. *)
Definition wired (m : ClientMessage) (p : bytes) : Prop := json.(client_to_vec) m = Some p /\ carries FControl p.

Lemma converse_wired ms ps : Forall2 wired ms ps -> forall h sess,
  converse json id h sess ps = converse_messages h sess ms /\ length (converse_messages h sess ms).2 = length ms.
Proof.
  induction 1 as [|m p ms ps [Hm _] _ IH]; intros h sess; [done|]. cbn [converse converse_messages].
  unfold answer_payload. rewrite (json_client _ laws _ _ Hm). destruct (answer_message id h sess m) as [[h1 s1] r].
  destruct (IH h1 s1) as [E El]. rewrite E. destruct (converse_messages h1 s1 ms) as [[h2 s2] rs]. cbn in *. by rewrite El.
Qed.

Lemma filed_replies rs out : replied json rs out -> map (filed json) (List.filter is_control out) = map Ok rs.
Proof.
  intros [H2 _]. induction H2 as [|r f rs fs Hr _ IH]; [done|]. cbn. rewrite IH.
  unfold filed. by rewrite (json_server _ laws _ _ Hr).
Qed.

(** A console listening to what a server sent. *)
Definition hears (c : Connection Tc) (b : bytes) : Prop :=
  delivers c.(c_stream) b /\ patience c.(c_stream) = 0%nat /\ c.(deadline) = None /\ c.(c_pending) = [] /\ c.(inbox) = [].

(** C10. A console's conversation survives the network and the pictures: of the
    messages a console sends, cut up anyhow and with pauses between the pieces,
    each is answered once and in order, as the session and the host answer it,
    and reading that many replies from what the server sent, in whatever pieces
    it arrives and whatever pictures lie between, gives exactly those answers. *)
Theorem console_conversation (s : Ts) d (h : H) now arrivals ms ps :
  (forall h, (forall f, host_audio h = Some f -> carries FAudio (encode_audio_payload f))
             /\ (forall f, host_spectrum h = Some f -> carries FSpectrum (encode_spectrum_payload f))) ->
  delivers s d -> sent s = [] -> Forall listening arrivals -> Forall2 wired ms ps ->
  all_arrived arrivals = control_frames ps ->
  let '(h', _, rs) := converse_messages h (conn_new s h now).(session) ms in Forall (writable json) rs ->
  exists c, serve_one json id (conn_new s h now) arrivals = (c, GoesOn) /\ c.(host) = h'
    /\ forall (console : Connection Tc) fuel, hears console (sent c.(stream)) -> (length (sent c.(stream)) < fuel)%nat ->
       read_controls json clock (length ms) fuel console = Some (map Ok rs).
Proof.
  intros Hfit Hd Hs Hl Hw Ea.
  assert (Hps : Forall (carries FControl) ps) by (clear -Hw; induction Hw as [|? ? ? ? [? ?] ? IH]; [apply Forall_nil_2|by apply Forall_cons_2]).
  pose proof (serve_one_answers json id Hfit d arrivals (conn_new s h now) ps Hl Hps Hd eq_refl Ea) as Hserve.
  destruct (converse_wired ms ps Hw h (conn_new s h now).(session)) as [E El]. change (host (conn_new s h now)) with h in Hserve. rewrite E in Hserve. clear E.
  destruct (converse_messages h (conn_new s h now).(session) ms) as [[h' sess'] rs]. cbn [snd] in El.
  intros Hwr. destruct (Hserve Hwr) as (c & out & E & Eh & _ & Hsent & Hrep). exists c. split_and!; [done|done|].
  intros console fuel (Hc1 & Hc2 & Hc3 & Hc4 & Hc5) Hf. rewrite <- El, <- (length_map (@Ok ServerMessage ClientError) rs).
  apply (read_controls_all json clock fuel _ console (sent c.(stream))); [|done].
  split_and!; [done|done|done|by rewrite Hc4|]. exists out. rewrite Hc4, Hc5. split_and!; [by destruct Hrep| |by apply filed_replies].
  cbn [app]. cbn in Hsent. by rewrite Hsent, Hs.
Qed.
End Conversation.

Lemma bench_json_laws : JsonLaws bench_json.
Proof.
  split.
  - intros [] p; cbn; try done. by intros [= <-].
  - intros [| | | | | |[] e] p; cbn; try done; try (by intros [= <-]).
    case_bool_decide as He; [intros [= <-]; by rewrite He|done].
Qed.

(** Two pings before a hello, in three pieces. *)
Lemma console_conversation_witness :
  exists c, serve_one bench_json (from_raw 1) (conn_new (mk_Segments [] []) (mk_BenchHost []) 0)
      [(Arrived (map u8 [1; 0; 0]), 5); (Quiet, 40); (Arrived (map u8 [0; 1; 1; 1; 0; 0; 0; 1; 1]), 50)] = (c, GoesOn)
    /\ read_controls bench_json (fun _ => 0) 2 50
         (mk_Connection (mk_Segments [Some c.(stream).(outbound)] []) placeholder_capabilities [] [] None None streams_none None)
       = Some [Ok not_ready; Ok not_ready].
Proof.
  destruct (console_conversation (Tc := Segments) bench_json bench_json_laws (from_raw 1) (fun _ => 0) (mk_Segments [] []) []
    (mk_BenchHost []) 0 [(Arrived (map u8 [1; 0; 0]), 5); (Quiet, 40); (Arrived (map u8 [0; 1; 1; 1; 0; 0; 0; 1; 1]), 50)]
    [Ping; Ping] [[u8 1]; [u8 1]]) as (c & E & _ & Hread).
  - intros hh. split; intros f E; discriminate E.
  - split; [constructor|reflexivity].
  - reflexivity.
  - repeat (apply Forall_cons_2; [exact I|]). apply Forall_nil_2.
  - assert (Hc : wired bench_json Ping [u8 1]) by (split; [reflexivity|split; [cbn; lia|intros _; cbn; unfold MAX_CONTROL_BYTES; lia]]).
    apply Forall2_cons_2; [exact Hc|]. apply Forall2_cons_2; [exact Hc|]. apply Forall2_nil_2.
  - reflexivity.
  - assert (Hw : writable bench_json not_ready)
      by (exists [u8 13]; split; [reflexivity|split; [cbn; lia|intros _; cbn; unfold MAX_CONTROL_BYTES; lia]]).
    apply Forall_cons_2; [exact Hw|]. apply Forall_cons_2; [exact Hw|]. apply Forall_nil_2.
  - exists c. split; [exact E|]. vm_compute in E. injection E as <-. apply Hread; [|vm_compute; lia].
    split_and!; try reflexivity. split; [repeat constructor; discriminate|vm_compute; reflexivity].
Defined.
