(* ===== verification/Register.v ===== *)
(** * Register: one radio setting under the snapshot / set / verify / restore discipline

    The CW supervisor treats the radio's power and its break-in setting alike:
    read it, write the clamp, read it back, and on the way out write the old
    value back and read that back.  This file states that discipline once, for
    a setting of any type, as a view of the supervisor's state and the
    transitions the supervisor's operations make on it, with the invariant
    every transition keeps.  Nothing is assumed of a write: answered or not, it
    may leave the setting at any value, so that only a read-back says where the
    setting is.  And somebody else may move the setting at any time.  [CwSafety]
    shows that each operation of the supervisor is one of these transitions on
    both of its settings. *)

From S2P Require Import Prelude.

Section Register.
  Context {V : Type} `{!EqDecision V}.

(** The steps that concern the setting. *)
Inductive regop : Type := RSnap | RSet (v : V) | RVerify (v : V).

(** Where the supervisor is: not armed, arming, armed, restoring (and whether
    it is waiting to retry a failed restore). *)
Inductive phase : Type := PIdle | PArming | PArmed | PRestoring (waiting : bool).

(** What the supervisor holds about the setting: the snapshot, whether a write
    was issued, the planned steps, and the step in flight. *)
Record view : Type := mk_view {
  v_phase : phase; v_snap : option V; v_changed : bool; v_ops : list regop; v_out : option regop }.

(** The plan of an arm that needs value [t]; a radio that needs none. *)
Definition arm_ops (tgt : option V) : list regop :=
  match tgt with Some t => [RSnap; RSet t; RVerify t] | None => [] end.
Definition restore_ops (snap : option V) (changed : bool) : list regop :=
  match snap with Some v => if changed then [RSet v; RVerify v] else [] | None => [] end.

(** Transitions. *)
Definition v_arm (tgt : option V) (w : view) : view :=
  mk_view PArming None false (arm_ops tgt) w.(v_out).
Definition v_restore (w : view) : view :=
  mk_view (PRestoring false) w.(v_snap) w.(v_changed) (restore_ops w.(v_snap) w.(v_changed)) w.(v_out).
Definition v_reset (w : view) : view := mk_view PIdle None false [] w.(v_out).
Definition v_fail_restore (w : view) : view :=
  mk_view (PRestoring true) w.(v_snap) w.(v_changed) [] w.(v_out).
Definition v_to_armed (w : view) : view :=
  mk_view PArmed w.(v_snap) w.(v_changed) w.(v_ops) w.(v_out).
Definition v_issue (op : regop) (rest : list regop) (w : view) : view :=
  mk_view w.(v_phase) w.(v_snap)
    (match op with RSet _ => true | _ => w.(v_changed) end) rest (Some op).
Definition v_answered (w : view) : view :=
  mk_view w.(v_phase) w.(v_snap) w.(v_changed) w.(v_ops) None.
Definition v_snapped (v : V) (w : view) : view :=
  mk_view w.(v_phase) (Some v) w.(v_changed) w.(v_ops) None.
(** A setting already as needed: its write and read-back are dropped. *)
Definition v_not_needed (w : view) : view :=
  mk_view w.(v_phase) w.(v_snap) w.(v_changed)
    (List.filter (fun op => match op with RSnap => true | _ => false end) w.(v_ops)) w.(v_out).

(** ** Whose value the setting has

    What it was when the arm was accepted, and the values somebody else, the
    operator at the front panel or another client, has turned it to since. *)
Record owned : Type := mk_owned { before : V; turned : list V }.
Definition owns (h : owned) (v : V) : Prop := v = h.(before) \/ v ∈ h.(turned).
Definition loose (h : owned) : Prop := h.(turned) <> [].
Definition turn (v : V) (h : owned) : owned := mk_owned h.(before) (v :: h.(turned)).
Definition untouched (v : V) : owned := mk_owned v [].

(** [p] was read of the setting, which is [cur] now: it still is, or somebody
    has turned it since. *)
Definition sees (h : owned) (cur p : V) : Prop := p = cur \/ cur ∈ h.(turned).

Lemma sees_owns h cur p : sees h cur p -> owns h p -> owns h cur.
Proof. intros [->|H] Hp; [done|by right]. Qed.
Lemma sees_loose h cur p : sees h cur p -> cur = p \/ loose h.
Proof. intros [->|H]; [by left|right]. unfold loose. by intros E; rewrite E in H; apply not_elem_of_nil in H. Qed.
Lemma owns_turn v h x : owns h x -> owns (turn v h) x.
Proof. intros [->|H]; [by left|right]. by right. Qed.
Lemma owns_turned v h : owns (turn v h) v.
Proof. right. by left. Qed.
Lemma turn_loose v h : loose (turn v h).
Proof. done. Qed.
Lemma owns_untouched h v : owns h v -> h.(turned) = [] -> v = h.(before).
Proof. intros [?|H] E; [done|]. rewrite E in H. by apply not_elem_of_nil in H. Qed.

(** ** The invariant, for a setting that is [home]'s and has the value [cur] *)

Definition is_set (o : option regop) : Prop := match o with Some (RSet _) => True | _ => False end.

Definition phase_inv (tgt : option V) (home : owned) (w : view) (cur : V) : Prop :=
  match w.(v_phase) with
  | PIdle => w.(v_changed) = false /\ w.(v_ops) = []
  | PArming =>
      match tgt with
      | None => w.(v_ops) = [] /\ w.(v_changed) = false
      | Some t =>
          (w.(v_ops) = [RSnap; RSet t; RVerify t] /\ w.(v_changed) = false)
          \/ (w.(v_ops) = [RSet t; RVerify t] /\ w.(v_changed) = false
              /\ (w.(v_out) = Some RSnap \/ exists h, w.(v_snap) = Some h /\ owns home h))
          \/ w.(v_ops) = [RVerify t]
          \/ (w.(v_ops) = [RSnap] /\ w.(v_changed) = false /\ (cur = t \/ loose home))
          \/ (w.(v_ops) = [] /\ ~ is_set w.(v_out)
              /\ (cur = t \/ loose home \/ w.(v_out) = Some (RVerify t)))
      end
  | PArmed => w.(v_ops) = [] /\ w.(v_out) = None
              /\ match tgt with Some t => cur = t \/ loose home | None => True end
  | PRestoring true => w.(v_ops) = [] /\ w.(v_out) = None
  | PRestoring false =>
      (exists h, w.(v_ops) = [RSet h; RVerify h] /\ owns home h /\ w.(v_changed) = true)
      \/ (exists h, w.(v_ops) = [RVerify h] /\ owns home h)
      \/ (w.(v_ops) = [] /\ ~ is_set w.(v_out)
          /\ (owns home cur \/ exists h, w.(v_out) = Some (RVerify h) /\ owns home h))
  end.

Record reg_inv (tgt : option V) (home : owned) (w : view) (cur : V) : Prop := mk_reg_inv {
  ri_home : w.(v_changed) = false -> owns home cur;
  ri_saved : w.(v_changed) = true -> exists h, w.(v_snap) = Some h /\ owns home h;
  ri_set : is_set w.(v_out) -> w.(v_changed) = true;
  ri_out_snap : w.(v_out) = Some RSnap -> w.(v_changed) = false;
  ri_phase : phase_inv tgt home w cur }.

Context {tgt : option V} {home : owned} {cur : V}.
Implicit Types w : view.

Ltac phase_cases :=
  repeat match goal with
    | H : _ \/ _ |- _ => destruct H
    | H : _ /\ _ |- _ => destruct H
    | H : exists _, _ |- _ => destruct H
    end; simplify_eq/=; subst; try done; eauto 9.

(** ** Transitions of the supervisor *)

Lemma reg_arm w :
  reg_inv tgt home w cur -> w.(v_phase) = PIdle -> reg_inv tgt home (v_arm tgt w) cur.
Proof.
  intros [Hho Hsv Hst Hos Hph] Hp. unfold phase_inv in Hph. rewrite Hp in Hph.
  destruct Hph as [Hc Ho]. split; cbn; try done; auto.
  - intros H. specialize (Hst H). congruence.
  - unfold phase_inv; cbn. destruct tgt; auto.
Qed.

Lemma reg_restore w : reg_inv tgt home w cur -> reg_inv tgt home (v_restore w) cur.
Proof.
  intros [Hho Hsv Hst Hos _]. split; cbn; auto. unfold phase_inv; cbn.
  destruct (v_changed w) eqn:Hc.
  - destruct (Hsv eq_refl) as (h & -> & Hh). cbn. eauto.
  - right; right. split; [by destruct (v_snap w)|]. split; [|auto].
    intros H. specialize (Hst H). congruence.
Qed.

Lemma reg_reset w :
  reg_inv tgt home w cur -> w.(v_changed) = false -> reg_inv tgt home (v_reset w) cur.
Proof.
  intros [Hho Hsv Hst Hos _] Hc. split; cbn; try done; auto.
  intros H. specialize (Hst H). congruence.
Qed.

(** The restore is over: the read-back has been seen, so the setting is home. *)
Lemma reg_restored w :
  reg_inv tgt home w cur -> w.(v_phase) = PRestoring false -> w.(v_ops) = [] -> w.(v_out) = None ->
  reg_inv tgt home (v_reset w) cur.
Proof.
  intros [Hho Hsv Hst Hos Hph] Hp Hops Hout. unfold phase_inv in Hph. rewrite Hp, Hops, Hout in Hph.
  destruct Hph as [(h & [=] & _)|[(h & [=] & _)|(_ & _ & [Hc|(h & [=] & _)])]].
  split; cbn; try done. by rewrite Hout.
Qed.

Lemma reg_armed w :
  reg_inv tgt home w cur -> w.(v_phase) = PArming -> w.(v_ops) = [] -> w.(v_out) = None ->
  reg_inv tgt home (v_to_armed w) cur.
Proof.
  intros [Hho Hsv Hst Hos Hph] Hp Hops Hout. split; cbn; auto.
  unfold phase_inv in Hph |- *. rewrite Hp, Hops, Hout in Hph. cbn. rewrite Hops, Hout.
  split_and!; [done..|]. destruct tgt; [|done].
  destruct Hph as [[[=] _]|[([=] & _)|[[=]|[([=] & _)|(_ & _ & [?|[?|[=]]])]]]]; auto.
Qed.

Lemma reg_issue op rest w :
  reg_inv tgt home w cur -> w.(v_ops) = op :: rest -> w.(v_out) = None ->
  reg_inv tgt home (v_issue op rest w) cur.
Proof.
  intros [Hho Hsv Hst Hos Hph] Hops Hout. unfold phase_inv in Hph. rewrite Hops, Hout in Hph.
  destruct (v_phase w) as [| | |[]] eqn:Hp.
  - by destruct Hph.
  - destruct tgt as [t|]; [|by destruct Hph].
    destruct Hph as [[[= -> ->] Hc]|[([= -> ->] & Hc & Hs)|[[= -> ->]|[([= -> ->] & Hc & Ht)|([=] & _)]]]].
    + split; cbn; auto; try done. unfold phase_inv; cbn. rewrite Hp. auto 10.
    + destruct Hs as [[=]|Hs]. split; cbn; auto; try done.
      unfold phase_inv; cbn. rewrite Hp. auto 10.
    + split; cbn; auto; try done. unfold phase_inv; cbn. rewrite Hp. auto 10.
    + split; cbn; auto; try done. unfold phase_inv; cbn. rewrite Hp.
      right; right; right; right. split_and!; [done|by intros []|]. tauto.
  - by destruct Hph.
  - by destruct Hph.
  - destruct Hph as [(h & [= -> ->] & Hh & Hc)|[(h & [= -> ->] & Hh)|([=] & _)]].
    + split; cbn; auto; try done. unfold phase_inv; cbn. rewrite Hp. eauto.
    + split; cbn; auto; try done. unfold phase_inv; cbn. rewrite Hp. right; right.
      split_and!; [done|by intros []|eauto].
Qed.

(** ** What happens at the radio *)

(** A write, answered or not, may leave the setting anywhere. *)
Lemma reg_written w cur' :
  reg_inv tgt home w cur -> is_set w.(v_out) -> reg_inv tgt home w cur'.
Proof.
  intros [Hho Hsv Hst Hos Hph] Hout. specialize (Hst Hout).
  split; try done; try congruence. unfold phase_inv in *.
  destruct (v_phase w) as [| | |[]]; [| destruct tgt | | |]; phase_cases; first [congruence | by rewrite H0 in Hout].
Qed.

(** Somebody turns the setting. *)
Lemma reg_turned w v : reg_inv tgt home w cur -> reg_inv tgt (turn v home) w v.
Proof.
  intros [Hho Hsv Hst Hos Hph]. split; try done.
  - intros _. apply owns_turned.
  - intros H. destruct (Hsv H) as (h & Hs & Hh). exists h. split; [done|by apply owns_turn].
  - assert (HT : forall x, owns home x -> owns (turn v home) x) by (intros; by apply owns_turn).
    pose proof (turn_loose v home) as HL. pose proof (owns_turned v home) as HO. clear Hho Hsv Hst Hos.
    unfold phase_inv in *. destruct (v_phase w) as [| | |[]]; [done| | |done|].
    + destruct tgt as [t|]; [|done].
      destruct Hph as [?|[(? & ? & [?|(h & ? & ?)])|[?|[(? & ? & _)|(? & ? & [?|[?|?]])]]]]; [tauto|tauto| |tauto..].
      right; left. split_and!; [done|done|]. right. eauto.
    + destruct Hph as (? & ? & _). split_and!; [done|done|]. by destruct tgt; [right|].
    + destruct Hph as [(h & ? & ? & ?)|[(h & ? & ?)|(? & ? & _)]]; [left; eauto|right; left; eauto|].
      right; right. split_and!; [done|done|by left].
Qed.

(** A new arm begins with nothing in flight: what the setting is then is what
    it is to be left as. *)
Lemma reg_begin w :
  reg_inv tgt home w cur -> w.(v_phase) = PIdle -> w.(v_out) = None -> reg_inv tgt (untouched cur) w cur.
Proof.
  intros [Hho Hsv Hst Hos Hph] Hp Hout. unfold phase_inv in Hph. rewrite Hp in Hph. destruct Hph as [Hc Ho].
  split; rewrite ?Hc, ?Hout; try done; [by left|]. unfold phase_inv. by rewrite Hp.
Qed.

(** ** Answers heard *)

Lemma reg_snapped w p :
  reg_inv tgt home w cur -> w.(v_out) = Some RSnap -> owns home p -> reg_inv tgt home (v_snapped p w) cur.
Proof.
  intros [Hho Hsv Hst Hos Hph] Hout Hp. specialize (Hos Hout). specialize (Hho Hos).
  split; cbn; try done; eauto. unfold phase_inv in *. rewrite Hout in Hph. cbn.
  destruct (v_phase w) as [| | |[]]; [| destruct tgt | | |]; phase_cases.
  all: try (right; right; right; right; split_and!; [done|by intros []|]; eauto; fail).
  all: right; right; split_and!; [done|by intros []|]; eauto.
Qed.

(** A write was answered. *)
Lemma reg_acked w : reg_inv tgt home w cur -> is_set w.(v_out) -> reg_inv tgt home (v_answered w) cur.
Proof.
  intros [Hho Hsv Hst Hos Hph] Hout. specialize (Hst Hout).
  split; cbn; try done; try congruence. unfold phase_inv in *. cbn.
  rewrite Hst in *. destruct (v_phase w) as [| | |[]]; [| destruct tgt | | |]; phase_cases.
Qed.

(** A read-back that agreed. *)
Lemma reg_verified w p :
  reg_inv tgt home w cur -> w.(v_out) = Some (RVerify p) -> sees home cur p ->
  reg_inv tgt home (v_answered w) cur.
Proof.
  intros [Hho Hsv Hst Hos Hph] Hout Hs. pose proof (sees_loose _ _ _ Hs) as HL.
  assert (HO : owns home p -> owns home cur) by (by apply sees_owns).
  split; cbn; try done. unfold phase_inv in *. rewrite Hout in Hph. cbn. clear Hs.
  destruct (v_phase w) as [| | |[]]; [done| |by destruct Hph as (_ & [=] & _)|by destruct Hph|].
  - destruct tgt as [t|]; [|done].
    destruct Hph as [?|[(? & ? & [[=]|?])|[?|[(? & ? & ?)|(? & _ & Hc)]]]]; [tauto|tauto|tauto|tauto|].
    right; right; right; right. split_and!; [done|by intros []|].
    destruct Hc as [?|[?|[= ->]]]; tauto.
  - destruct Hph as [?|[?|(? & _ & Hc)]]; [tauto|tauto|]. right; right. split_and!; [done|by intros []|]. left.
    destruct Hc as [?|(h & [= ->] & ?)]; auto.
Qed.

(** Another setting's step was answered: nothing here was in flight. *)
Lemma reg_other w :
  reg_inv tgt home w cur -> w.(v_out) = None -> reg_inv tgt home (v_answered w) cur.
Proof. intros Hi Hout. destruct w; cbn in *. by subst. Qed.

Lemma reg_not_needed t w :
  tgt = Some t -> cur = t \/ loose home -> reg_inv tgt home w cur -> w.(v_out) = None ->
  w.(v_changed) = false ->
  reg_inv tgt home (v_not_needed w) cur.
Proof.
  intros Ht Hcur [Hho Hsv Hst Hos Hph] Hout Hc. split; cbn; auto.
  unfold phase_inv in *. rewrite Hout in *. cbn. rewrite Hc in *. clear Hsv. rewrite Ht in *.
  destruct (v_phase w) as [| | |[]].
  - destruct Hph as [_ ->]. done.
  - destruct Hph as [[-> _]|[(-> & _)|[->|[(-> & _)|(-> & _)]]]]; cbn;
      first [ by (right; right; right; left)
            | right; right; right; right; rewrite Hout; split_and!; [done|by intros []|tauto] ].
  - destruct Hph as (-> & _ & ?). done.
  - by destruct Hph as (-> & _).
  - rewrite Hout. right; right. destruct Hph as [(? & _ & _ & ?)|[(? & -> & _)|(-> & _)]]; cbn; split_and!; auto; done.
Qed.

(** ** Failures

    What was in flight is forgotten by the transition that follows a failed
    exchange. *)

(** What is known of the setting once an exchange failed, whatever the phase
    was: enough to restore, to reset, or to wait for a retry. *)
Record reg_failed (home : owned) (w : view) (cur : V) : Prop := mk_reg_failed {
  rf_home : w.(v_changed) = false -> owns home cur;
  rf_saved : w.(v_changed) = true -> exists h, w.(v_snap) = Some h /\ owns home h;
  rf_out : w.(v_out) = None }.

Lemma reg_fail w : reg_inv tgt home w cur -> reg_failed home (v_answered w) cur.
Proof. intros [Hho Hsv Hst Hos Hph]. by split. Qed.

Lemma failed_restore w : reg_failed home w cur -> reg_inv tgt home (v_restore w) cur.
Proof.
  intros [Hho Hsv Hout]. split; cbn; auto; try (by rewrite Hout).
  unfold phase_inv; cbn. rewrite Hout. destruct (v_changed w) eqn:Hc.
  - destruct (Hsv eq_refl) as (h & -> & Hh). cbn. eauto.
  - right; right. split_and!; [by destruct (v_snap w)|by intros []|auto].
Qed.

Lemma failed_reset w : reg_failed home w cur -> w.(v_changed) = false -> reg_inv tgt home (v_reset w) cur.
Proof. intros [Hho Hsv Hout] Hc. split; cbn; try done; auto. by rewrite Hout. Qed.

Lemma failed_wait w : reg_failed home w cur -> reg_inv tgt home (v_fail_restore w) cur.
Proof. intros [Hho Hsv Hout]. split; cbn; auto; by rewrite Hout. Qed.

(** Outside arming and restoring nothing of the setting that matters is in
    flight. *)
Lemma failed_idle w :
  reg_inv tgt home w cur -> w.(v_phase) = PIdle -> reg_inv tgt home (v_answered w) cur.
Proof.
  intros [Hho Hsv Hst Hos Hph] Hp. unfold phase_inv in Hph. rewrite Hp in Hph.
  destruct Hph as [Hc Hops]. split; cbn; auto; try done. unfold phase_inv; cbn. by rewrite Hp.
Qed.

Lemma failed_armed w :
  reg_inv tgt home w cur -> w.(v_phase) = PArmed -> reg_inv tgt home (v_answered w) cur.
Proof.
  intros Hi Hp. pose proof (ri_phase _ _ _ _ Hi) as Hph. unfold phase_inv in Hph. rewrite Hp in Hph.
  destruct Hph as (_ & Hout & _). by apply reg_other.
Qed.

(** ** What the invariant gives *)

Lemma reg_armed_cur t w :
  reg_inv tgt home w cur -> w.(v_phase) = PArmed -> tgt = Some t -> cur = t \/ loose home.
Proof.
  intros Hi Hp ->. pose proof (ri_phase _ _ _ _ Hi) as Hph. unfold phase_inv in Hph. rewrite Hp in Hph.
  by destruct Hph as (_ & _ & ?).
Qed.

Lemma reg_idle_cur w : reg_inv tgt home w cur -> w.(v_phase) = PIdle -> owns home cur.
Proof.
  intros Hi Hp. pose proof (ri_phase _ _ _ _ Hi) as Hph. unfold phase_inv in Hph. rewrite Hp in Hph.
  destruct Hph as [Hc _]. by apply (ri_home _ _ _ _ Hi).
Qed.

Lemma reg_initial : reg_inv tgt (untouched cur) (mk_view PIdle None false [] None) cur.
Proof. split; try done. by left. Qed.
End Register.

Arguments regop : clear implicits.
Arguments view : clear implicits.
Arguments owned : clear implicits.
