(* ===== verification/CwSupervisor.v ===== *)
(** * CwSupervisor: the CW transmit supervisor (cat-rigctl/src/native_bridge/cw.rs)

    The state machine that arms, bounds, stops and reverses a CW
    transmission.  It performs no I/O: [next_action] says what to do to the
    radio and [complete] takes the answer.  Every method is a function on the
    state record; [Instant] and [Duration] are integers of nanoseconds. *)

From S2P Require Import Prelude Text Morse Timing Capabilities NativeTypes.

(** ** Time *)

Definition as_secs (d : Z) : Z := d / 1000000000.
Definition from_secs (s : Z) : Z := s * 1000000000.
Definition from_millis (s : Z) : Z := s * 1000000.
Definition saturating_duration_since (a b : Z) : Z := Z.max 0 (a - b).
Definition as_u32 (z : Z) : Z := z mod 2 ^ 32.

Record CwConfig : Type := mk_CwConfig {
  key_down_cap : Z; drain_bound : Z; idle_ttl : Z; id_interval : Z;
  tick : Z; pacing_margin : Z; watchdog_margin : Z; restore_retry : Z }.

Definition default_config : CwConfig :=
  mk_CwConfig (from_secs 60) (from_secs 3) (from_secs 600) (from_secs 600)
    (from_millis 50) (from_millis 250) (from_secs 3) (from_secs 5).

(** ** Estimates and chunks *)

Definition CONSERVATIVE_DASH_RATIO : f64 := F64.of_Z 4.

Definition heavy : Fist :=
  mk_Fist CONSERVATIVE_DASH_RATIO perfect.(weight) perfect.(element_jitter)
    perfect.(letter_gap_jitter) perfect.(word_gap_jitter) perfect.(speed_drift).

(** [estimate]; the [expect] on the clamped speed cannot fire
    ([estimate_speed_ok]). *)
Definition estimate (t : text) (wpm : Z) : Z :=
  let wpm := F64.of_Z (Z.max 3 (Z.min wpm 100)) in
  match speed_wpm wpm with
  | Ok speed =>
      match key_text (trim t) speed heavy 0 with
      | Ok keying => total keying
      | Err _ => dot speed * as_u32 (28 * as_u32 (Z.of_nat (length t)))
      end
  | Err _ => 0
  end.

Section Chunks.
  Variable fits : text -> bool.

(** One character of a word that does not fit whole. *)
Definition split_char (st : list text * text) (c : char) : list text * text :=
  let '(out, piece) := st in
  let longer := piece ++ [c] in
  if bool_decide (piece = []) || fits longer then (out, longer)
  else (out ++ [piece], [c]).

(** One word of the text: [out] and [current] before and after. *)
Definition chunk_word (st : list text * text) (word : text) : list text * text :=
  let '(out, current) := st in
  let place out :=
    if fits word then (out, word) else fold_left split_char word (out, []) in
  match current with
  | [] => place out
  | _ =>
      let joined := current ++ space :: word in
      if fits joined then (out, joined) else place (out ++ [current])
  end.

Definition chunks_with (t : text) : list text :=
  let '(out, current) := fold_left chunk_word (split_whitespace t) ([], []) in
  match current with [] => out | _ => out ++ [current] end.
End Chunks.

(** [chunks]'s [fits]. *)
Definition chunk_fits (max_chars : Z) (max_duration : option Z) (wpm : Z) (s : text) : bool :=
  (Z.of_nat (length s) <=? Z.max max_chars 1)
  && match max_duration with None => true | Some d => estimate s wpm <=? d end.
Definition chunks (t : text) (max_chars : Z) (max_duration : option Z) (wpm : Z) : list text :=
  chunks_with (chunk_fits max_chars max_duration wpm) t.

(** ** Data *)

Inductive CwAction : Type :=
| ReadStatus | ReadPower | ActSetPower (raw : Z) | ReadBreakIn | ActSetBreakIn (k : BreakInKind)
| ActReady | SendChunk (t : text) | ActStop.

Inductive CwOutcome : Type :=
| Done
| OutStatus (cw_mode transmitting : bool) (wpm : option Z)
| OutPower (p : Z)
| OutBreakIn (k : BreakInKind)
| OutReady (ready : bool)
| Failed (error : message).

Inductive DisarmReason : Type :=
| Requested | Disconnected | KeyDownCap | PowerAboveClamp | IdleTimeout | Shutdown | ArmFailed.

Inductive CwNotice : Type :=
| Reply (ticket : Z) (r : result () HostRefusal)
| Armed (owner : ConsoleId) (callsign : text) (power_raw : Z)
| JobEnded (job : Z) (reason : StopReason) (m : option message)
| RestoreFailed (attempts : Z) (error : message)
| Restored (reason : DisarmReason)
| IdOwed (callsign : text) (reason : DisarmReason).

Record Chunk : Type := mk_Chunk { chunk_text : text; chunk_last : bool; ends_id : bool }.

Inductive Step : Type :=
| Status | SnapPower | SnapBreakIn
| SetPower (raw : Z) | VerifyPower (want : Z)
| SetBreakIn (k : BreakInKind) | VerifyBreakIn (want : BreakInKind)
| PowerAtMost (max : Z)
| WaitReady | WaitKeyed (margin : Z) | CheckSpeed | Send (c : Chunk) | Stop.

Definition action (s : Step) : option CwAction :=
  match s with
  | Status | CheckSpeed => Some ReadStatus
  | SnapPower | VerifyPower _ | PowerAtMost _ => Some ReadPower
  | SnapBreakIn | VerifyBreakIn _ => Some ReadBreakIn
  | SetPower raw => Some (ActSetPower raw)
  | SetBreakIn kind => Some (ActSetBreakIn kind)
  | WaitReady => Some ActReady
  | Send chunk => Some (SendChunk chunk.(chunk_text))
  | Stop => Some ActStop
  | WaitKeyed _ => None
  end.

Record Snapshot : Type := mk_Snapshot {
  snap_power : option Z; snap_break_in : option BreakInKind;
  power_changed : bool; break_in_changed : bool }.
Definition no_snapshot : Snapshot := mk_Snapshot None None false false.

Record Arm : Type := mk_Arm {
  arm_owner : ConsoleId; arm_callsign : text; arm_cap : Z; arm_power_raw : Z; arm_wpm : Z;
  last_activity : Z; last_id : option Z; arm_id_first : bool }.

Record Job : Type := mk_Job {
  job_id : Z; job_text : text; operator : text; id_text : option text;
  job_total : Z; sent : Z; started : Z; deadline : Z; has_id : bool; job_id_first : bool;
  id_sent : bool; chunk_in_radio : bool }.

Inductive After : Type := StayArmed | Restore (reason : DisarmReason) (ticket : option Z).

Inductive Activity : Type :=
| Idle
| Arming (ticket : Z) (owner : ConsoleId) (callsign : text) (cap wpm : Z)
| Sending (job : Job)
| Stopping (job : Z) (reason : StopReason) (m : option message) (after : After)
| Restoring (reason : DisarmReason) (ticket : option Z) (attempts : Z)
    (last_error : option message) (retry_at : option Z).

Record CwSupervisor : Type := mk_CwSupervisor {
  send_text : option CwSendText;
  gate : option TxGateCapability;
  slowest_wpm : Z;
  config : CwConfig;
  arm_held : option Arm;
  activity : Activity;
  plan : list Step;
  outstanding : option Step;
  ready_retry_at : option Z;
  snap : Snapshot;
  keyed_until : option Z;
  notices : list CwNotice;
  next_ticket : Z;
  next_job : Z;
  last_sender : SenderState;
  shutting_down : bool;
  id_owed : option text }.

(** Field assignment. *)
Section Setters.
  Variable s : CwSupervisor.
Let mk := mk_CwSupervisor s.(send_text) s.(gate) s.(slowest_wpm) s.(config).
Definition set_arm a := mk a s.(activity) s.(plan) s.(outstanding) s.(ready_retry_at) s.(snap)
  s.(keyed_until) s.(notices) s.(next_ticket) s.(next_job) s.(last_sender) s.(shutting_down) s.(id_owed).
Definition set_activity a := mk s.(arm_held) a s.(plan) s.(outstanding) s.(ready_retry_at) s.(snap)
  s.(keyed_until) s.(notices) s.(next_ticket) s.(next_job) s.(last_sender) s.(shutting_down) s.(id_owed).
Definition set_plan p := mk s.(arm_held) s.(activity) p s.(outstanding) s.(ready_retry_at) s.(snap)
  s.(keyed_until) s.(notices) s.(next_ticket) s.(next_job) s.(last_sender) s.(shutting_down) s.(id_owed).
Definition set_outstanding o := mk s.(arm_held) s.(activity) s.(plan) o s.(ready_retry_at) s.(snap)
  s.(keyed_until) s.(notices) s.(next_ticket) s.(next_job) s.(last_sender) s.(shutting_down) s.(id_owed).
Definition set_ready_retry_at r := mk s.(arm_held) s.(activity) s.(plan) s.(outstanding) r s.(snap)
  s.(keyed_until) s.(notices) s.(next_ticket) s.(next_job) s.(last_sender) s.(shutting_down) s.(id_owed).
Definition set_snap x := mk s.(arm_held) s.(activity) s.(plan) s.(outstanding) s.(ready_retry_at) x
  s.(keyed_until) s.(notices) s.(next_ticket) s.(next_job) s.(last_sender) s.(shutting_down) s.(id_owed).
Definition set_keyed_until k := mk s.(arm_held) s.(activity) s.(plan) s.(outstanding) s.(ready_retry_at)
  s.(snap) k s.(notices) s.(next_ticket) s.(next_job) s.(last_sender) s.(shutting_down) s.(id_owed).
Definition set_notices n := mk s.(arm_held) s.(activity) s.(plan) s.(outstanding) s.(ready_retry_at)
  s.(snap) s.(keyed_until) n s.(next_ticket) s.(next_job) s.(last_sender) s.(shutting_down) s.(id_owed).
Definition set_next_ticket t := mk s.(arm_held) s.(activity) s.(plan) s.(outstanding) s.(ready_retry_at)
  s.(snap) s.(keyed_until) s.(notices) t s.(next_job) s.(last_sender) s.(shutting_down) s.(id_owed).
Definition set_next_job j := mk s.(arm_held) s.(activity) s.(plan) s.(outstanding) s.(ready_retry_at)
  s.(snap) s.(keyed_until) s.(notices) s.(next_ticket) j s.(last_sender) s.(shutting_down) s.(id_owed).
Definition set_last_sender l := mk s.(arm_held) s.(activity) s.(plan) s.(outstanding) s.(ready_retry_at)
  s.(snap) s.(keyed_until) s.(notices) s.(next_ticket) s.(next_job) l s.(shutting_down) s.(id_owed).
Definition set_shutting_down b := mk s.(arm_held) s.(activity) s.(plan) s.(outstanding) s.(ready_retry_at)
  s.(snap) s.(keyed_until) s.(notices) s.(next_ticket) s.(next_job) s.(last_sender) b s.(id_owed).
Definition set_id_owed i := mk s.(arm_held) s.(activity) s.(plan) s.(outstanding) s.(ready_retry_at)
  s.(snap) s.(keyed_until) s.(notices) s.(next_ticket) s.(next_job) s.(last_sender) s.(shutting_down) i.
End Setters.

Definition note (n : CwNotice) (s : CwSupervisor) : CwSupervisor := set_notices s (s.(notices) ++ [n]).
Definition push_back (st : Step) (s : CwSupervisor) : CwSupervisor := set_plan s (s.(plan) ++ [st]).

Definition cw_new (capability : CwCapability) (config : CwConfig) : CwSupervisor :=
  mk_CwSupervisor capability.(cap_send_text) capability.(tx_gate)
    (match capability.(keyer_wpm) with Some r => Z.max r.(wpm_min) 1 | None => 5 end)
    config None Idle [] None None no_snapshot None [] 1 1 SenderIdle false None.

(** ** Internals *)

Definition refusal (code : ErrorCode) (m : message) : HostRefusal := mk_HostRefusal code m.

Definition take_ticket (s : CwSupervisor) : Z * CwSupervisor :=
  (s.(next_ticket), set_next_ticket s (s.(next_ticket) + 1)).

Definition watchdog_for (s : CwSupervisor) (est : Z) : Z :=
  est + est / 5 + s.(config).(watchdog_margin).

Definition is_send (st : Step) : bool := match st with Send _ => true | _ => false end.

Definition send_pacing (s : CwSupervisor) : Z :=
  (s.(config).(tick) * 4 + s.(config).(pacing_margin))
  * as_u32 (Z.of_nat (length (List.filter is_send s.(plan)))).

Definition with_deadline (j : Job) (d : Z) : Job :=
  mk_Job j.(job_id) j.(job_text) j.(operator) j.(id_text) j.(job_total) j.(sent) j.(started) d
    j.(has_id) j.(job_id_first) j.(id_sent) j.(chunk_in_radio).

Definition set_watchdog (s : CwSupervisor) (est : Z) : CwSupervisor :=
  let pacing := send_pacing s in
  let budget := watchdog_for s est + pacing in
  match s.(activity) with
  | Sending job => set_activity s (Sending (with_deadline job (job.(started) + budget)))
  | _ => s
  end.

Definition reply (ticket : Z) (r : result () HostRefusal) (s : CwSupervisor) : CwSupervisor :=
  note (Reply ticket r) s.

Definition end_job (s : CwSupervisor) (job : Z) (reason : StopReason) (m : option message)
  : CwSupervisor :=
  set_last_sender (note (JobEnded job reason m) s) (SenderStopped job reason m).

Definition plan_restore (s : CwSupervisor) : CwSupervisor :=
  let s := set_plan s [] in
  let s := push_back (WaitKeyed s.(config).(pacing_margin)) s in
  let s := if s.(snap).(power_changed) then
             match s.(snap).(snap_power) with
             | Some p => push_back (VerifyPower p) (push_back (SetPower p) s)
             | None => s
             end
           else s in
  if s.(snap).(break_in_changed) then
    match s.(snap).(snap_break_in) with
    | Some k => push_back (VerifyBreakIn k) (push_back (SetBreakIn k) s)
    | None => s
    end
  else s.

Definition start_restore (s : CwSupervisor) (reason : DisarmReason) (ticket : option Z)
  : CwSupervisor :=
  let s := match s.(arm_held), s.(id_owed) with
           | Some _, Some callsign => note (IdOwed callsign reason) s
           | _, _ => s
           end in
  let s := set_arm s None in
  let s := set_ready_retry_at s None in
  let s := set_activity s (Restoring reason ticket 0 None None) in
  plan_restore s.

Definition with_id_first (a : Arm) (b : bool) : Arm :=
  mk_Arm a.(arm_owner) a.(arm_callsign) a.(arm_cap) a.(arm_power_raw) a.(arm_wpm)
    a.(last_activity) a.(last_id) b.
Definition with_last_activity (a : Arm) (t : Z) : Arm :=
  mk_Arm a.(arm_owner) a.(arm_callsign) a.(arm_cap) a.(arm_power_raw) a.(arm_wpm)
    t a.(last_id) a.(arm_id_first).
Definition with_wpm (a : Arm) (w : Z) : Arm :=
  mk_Arm a.(arm_owner) a.(arm_callsign) a.(arm_cap) a.(arm_power_raw) w
    a.(last_activity) a.(last_id) a.(arm_id_first).
Definition with_id_sent_at (a : Arm) (t : Z) : Arm :=
  mk_Arm a.(arm_owner) a.(arm_callsign) a.(arm_cap) a.(arm_power_raw) a.(arm_wpm)
    a.(last_activity) (Some t) false.
(** [if let Some(arm) = &mut self.arm { ... }] *)
Definition update_arm (f : Arm -> Arm) (s : CwSupervisor) : CwSupervisor :=
  set_arm s (f <$> s.(arm_held)).

(** The station ID a job cut short leaves owed. *)
Definition owe_id (s : CwSupervisor) (job : Job) : CwSupervisor :=
  if job.(has_id) && negb job.(id_sent) then
    let keyed := job.(chunk_in_radio)
                 || match s.(outstanding) with Some (Send _) => true | _ => false end in
    match s.(arm_held) with
    | Some arm =>
        let s := set_arm s (Some (with_id_first arm true)) in
        if keyed then set_id_owed s (Some arm.(arm_callsign)) else s
    | None => s
    end
  else s.

Definition begin_stop (s : CwSupervisor) (reason : StopReason) (m : option message) (after : After)
  : CwSupervisor :=
  match s.(activity) with
  | Sending job =>
      let s := owe_id s job in
      let s := set_plan s [] in
      let s := set_ready_retry_at s None in
      let s := push_back Stop s in
      let s := push_back (WaitKeyed s.(config).(pacing_margin)) s in
      set_activity s (Stopping job.(job_id) reason m after)
  | _ =>
      match after with
      | Restore r t => start_restore s r t
      | StayArmed => s
      end
  end.

Definition end_arm (s : CwSupervisor) (reason : DisarmReason) (stop : StopReason)
    (ticket : option Z) : CwSupervisor :=
  match s.(activity) with
  | Sending _ => begin_stop s stop None (Restore reason ticket)
  | Stopping job r m after =>
      let after := match after with
                   | StayArmed => Restore reason ticket
                   | Restore r' existing =>
                       Restore r' (match existing with None => ticket | Some _ => existing end)
                   end in
      set_activity s (Stopping job r m after)
  | Idle => start_restore s reason ticket
  | Arming _ _ _ _ _ | Restoring _ _ _ _ _ => s
  end.

Definition refuse_arm (s : CwSupervisor) (code : ErrorCode) (m : message) : CwSupervisor :=
  let s := match s.(activity) with
           | Arming ticket _ _ _ _ => reply ticket (Err (refusal code m)) s
           | _ => s
           end in
  let s := set_plan s [] in
  let s := set_activity s Idle in
  if s.(snap).(power_changed) || s.(snap).(break_in_changed)
  then start_restore s ArmFailed None
  else set_snap s no_snapshot.

Definition fail (s : CwSupervisor) (error : message) (now : Z) : CwSupervisor :=
  match s.(activity) with
  | Idle => s
  | Arming _ _ _ _ _ => refuse_arm s OutOfRange error
  | Sending _ => begin_stop s StopError (Some error) StayArmed
  | Stopping _ _ _ _ =>
      let s := set_plan s [] in
      let s := set_ready_retry_at s None in
      push_back (WaitKeyed s.(config).(pacing_margin)) s
  | Restoring reason ticket attempts _ _ =>
      let attempts := attempts + 1 in
      let s := set_activity s (Restoring reason None attempts (Some error)
                                 (Some (now + s.(config).(restore_retry)))) in
      let s := set_plan s [] in
      let s := note (RestoreFailed attempts error) s in
      match ticket with
      | Some t => reply t (Err (refusal OutOfRange
                     ([PStr "restore failed ("] ++ error
                        ++ [PStr "); the server keeps retrying"]))) s
      | None => s
      end
  end.

(** ** Planning a send *)

Definition drain_limit (s : CwSupervisor) (send : CwSendText) : option Z :=
  match send.(abort_kind) with DrainOnly => Some s.(config).(drain_bound) | RadioStop => None end.

(** [if let Some(last) = id.last_mut() { last.1 = true }] *)
Fixpoint mark_last (l : list (text * bool)) : list (text * bool) :=
  match l with
  | [] => []
  | [(t, _)] => [(t, true)]
  | x :: l => x :: mark_last l
  end.

(** The steps of one chunk, its pacing first. *)
Definition chunk_steps (send : CwSendText) (c : Chunk) : list Step :=
  [WaitKeyed 0]
  ++ (match send.(pacing) with BufferFlag => [WaitReady] | Estimated => [] end)
  ++ (match send.(abort_kind) with DrainOnly => [CheckSpeed] | RadioStop => [] end)
  ++ [Send c].

(** The loop over [ordered]: the last chunk is marked. *)
Fixpoint steps_of_chunks (send : CwSendText) (l : list (text * bool)) : list Step :=
  match l with
  | [] => []
  | (t, e) :: l => chunk_steps send (mk_Chunk t (bool_decide (l = [])) e) ++ steps_of_chunks send l
  end.

Definition ordered_chunks (op ids : list text) (id_first : bool) : list (text * bool) :=
  let operator := map (fun t => (t, false)) op in
  let id := mark_last (map (fun t => (t, false)) ids) in
  if id_first then id ++ operator else operator ++ id.

Definition plan_chunks (s : CwSupervisor) (operator : text) (id_text : option text)
    (id_first : bool) (wpm : Z) : CwSupervisor :=
  match s.(send_text) with
  | None => s
  | Some send =>
      let piece t := chunks t send.(max_chunk_chars) (drain_limit s send) wpm in
      let ordered := ordered_chunks (piece operator)
                       (match id_text with Some id => piece id | None => [] end) id_first in
      set_plan s (s.(plan) ++ steps_of_chunks send ordered ++ [WaitKeyed s.(config).(pacing_margin)])
  end.

(** [replan]'s re-chunking of one chunk that has not been sent. *)
Fixpoint repiece (c : Chunk) (parts : list text) : list Chunk :=
  match parts with
  | [] => []
  | t :: parts =>
      let tail := bool_decide (parts = []) in
      mk_Chunk t (c.(chunk_last) && tail) (c.(ends_id) && tail) :: repiece c parts
  end.

(** The plan for the pieces: the first goes at once, the rest are paced. *)
Definition replan_steps (send : CwSendText) (pieces : list Chunk) : list Step :=
  match pieces with
  | [] => []
  | c :: rest =>
      Send c ::
      concat (map (fun c =>
        [WaitKeyed 0]
        ++ (match send.(pacing) with BufferFlag => [WaitReady] | Estimated => [] end)
        ++ [CheckSpeed; Send c]) rest)
  end.

Definition pending_chunks (p : list Step) : list Chunk :=
  omap (fun st => match st with Send c => Some c | _ => None end) p.

Definition arm_cap_or_zero (s : CwSupervisor) : Z :=
  match s.(arm_held) with Some a => a.(arm_cap) | None => 0 end.

Definition replan (s : CwSupervisor) (wpm now : Z) : CwSupervisor :=
  match s.(send_text) with
  | None => s
  | Some send =>
      let remaining := pending_chunks s.(plan) in
      let pieces := concat (map (fun c =>
        repiece c (chunks c.(chunk_text) send.(max_chunk_chars) (drain_limit s send) wpm)) remaining) in
      let rest := foldr (fun c acc => estimate c.(chunk_text) wpm + acc) 0 pieces in
      let cap := arm_cap_or_zero s in
      let start := match s.(activity) with Sending job => job.(started) | _ => now end in
      let elapsed := saturating_duration_since now start in
      if cap <? elapsed + rest then
        begin_stop s StopError
          (Some [PStr "the keyer speed changed to "; PInt wpm; PStr " wpm; "; PSecs1 elapsed;
                 PStr " s sent and "; PSecs1 rest; PStr " s left is over the "; PInt (as_secs cap);
                 PStr " s key-down cap"])
          StayArmed
      else
        let s := set_plan s (replan_steps send pieces ++ [WaitKeyed s.(config).(pacing_margin)]) in
        let budget := watchdog_for s rest + send_pacing s in
        match s.(activity) with
        | Sending job => set_activity s (Sending (with_deadline job (now + budget)))
        | _ => s
        end
  end.

(** ** Answers *)

Definition wpm_or_slowest (s : CwSupervisor) (wpm : option Z) : Z :=
  Z.max (default s.(slowest_wpm) wpm) 1.

Definition on_status (s : CwSupervisor) (cw_mode transmitting : bool) (wpm : option Z)
  : CwSupervisor :=
  let wpm := wpm_or_slowest s wpm in
  match s.(activity) with
  | Arming t o c cap _ =>
      if negb cw_mode then
        refuse_arm s Forbidden
          [PStr "the radio is not in a CW mode; select CW on the radio first"]
      else if transmitting then refuse_arm s Forbidden [PStr "the radio is transmitting"]
      else set_activity s (Arming t o c cap wpm)
  | Sending job =>
      let est := estimate job.(job_text) wpm in
      let cap := arm_cap_or_zero s in
      let problem :=
        if negb cw_mode then Some [PStr "the radio left CW mode"]
        else if transmitting then Some [PStr "the radio is already transmitting"]
        else if cap <? est then
          Some [PStr "at the radio's "; PInt wpm; PStr " wpm this takes "; PSecs1 est;
                PStr " s, over the "; PInt (as_secs cap); PStr " s cap"]
        else None in
      match problem with
      | Some m => begin_stop s StopError (Some m) StayArmed
      | None =>
          let s := update_arm (fun a => with_wpm a wpm) s in
          let s := plan_chunks s job.(operator) job.(id_text) job.(job_id_first) wpm in
          set_watchdog s est
      end
  | _ => s
  end.

Definition on_speed (s : CwSupervisor) (cw_mode : bool) (wpm : option Z) (now : Z) : CwSupervisor :=
  match s.(activity) with
  | Sending _ =>
      if negb cw_mode then
        begin_stop s StopError (Some [PStr "the radio left CW mode"]) StayArmed
      else
        let wpm := wpm_or_slowest s wpm in
        if match s.(arm_held) with Some a => a.(arm_wpm) =? wpm | None => false end then s
        else replan (update_arm (fun a => with_wpm a wpm) s) wpm now
  | _ => s
  end.

Definition on_sent (s : CwSupervisor) (chunk : Chunk) (now : Z) : CwSupervisor :=
  let wpm := match s.(arm_held) with Some a => a.(arm_wpm) | None => s.(slowest_wpm) end in
  let start := match s.(keyed_until) with Some t => if now <? t then t else now | None => now end in
  let s := set_keyed_until s (Some (start + estimate chunk.(chunk_text) wpm)) in
  match s.(activity) with
  | Sending job =>
      let sent' := if chunk.(chunk_last) then job.(job_total)
                   else Z.min (job.(sent) + as_u32 (Z.of_nat (length chunk.(chunk_text))) + 1)
                          job.(job_total) in
      let job := mk_Job job.(job_id) job.(job_text) job.(operator) job.(id_text) job.(job_total)
                   sent' job.(started) job.(deadline) job.(has_id) job.(job_id_first)
                   (job.(id_sent) || chunk.(ends_id)) true in
      let s := set_activity s (Sending job) in
      if chunk.(ends_id) then
        update_arm (fun a => with_id_sent_at a now) (set_id_owed s None)
      else s
  | _ => s
  end.

Definition debug_break_in (k : BreakInKind) : string :=
  match k with BreakOff => "Off" | Semi => "Semi" | Full => "Full" end.
Definition debug_bool (b : bool) : string := if b then "true" else "false".

(** [{:?}] of an outcome and of a step ([complete] handles [Failed] before it
    formats an unexpected answer). *)
Definition debug_outcome (o : CwOutcome) : message :=
  match o with
  | Done => [PStr "Done"]
  | OutStatus m t w =>
      [PStr "Status { cw_mode: "; PStr (debug_bool m); PStr ", transmitting: "; PStr (debug_bool t);
       PStr ", wpm: "]
      ++ (match w with Some w => [PStr "Some("; PInt w; PStr ")"] | None => [PStr "None"] end)
      ++ [PStr " }"]
  | OutPower p => [PStr "Power("; PInt p; PStr ")"]
  | OutBreakIn k => [PStr "BreakIn("; PStr (debug_break_in k); PStr ")"]
  | OutReady b => [PStr "Ready("; PStr (debug_bool b); PStr ")"]
  | Failed e => [PStr "Failed("] ++ e ++ [PStr ")"]
  end.
Definition debug_step (st : Step) : message :=
  match st with
  | Status => [PStr "Status"]
  | SnapPower => [PStr "SnapPower"]
  | SnapBreakIn => [PStr "SnapBreakIn"]
  | SetPower p => [PStr "SetPower("; PInt p; PStr ")"]
  | VerifyPower p => [PStr "VerifyPower("; PInt p; PStr ")"]
  | SetBreakIn k => [PStr "SetBreakIn("; PStr (debug_break_in k); PStr ")"]
  | VerifyBreakIn k => [PStr "VerifyBreakIn("; PStr (debug_break_in k); PStr ")"]
  | PowerAtMost p => [PStr "PowerAtMost("; PInt p; PStr ")"]
  | WaitReady => [PStr "WaitReady"]
  | WaitKeyed m => [PStr "WaitKeyed("; PDebugDur m; PStr ")"]
  | CheckSpeed => [PStr "CheckSpeed"]
  | Send c => [PStr "Send(Chunk { text: "; PDebugStr c.(chunk_text); PStr ", last: ";
               PStr (debug_bool c.(chunk_last)); PStr ", ends_id: "; PStr (debug_bool c.(ends_id));
               PStr " })"]
  | Stop => [PStr "Stop"]
  end.

Definition with_snap_power (x : Snapshot) (p : Z) : Snapshot :=
  mk_Snapshot (Some p) x.(snap_break_in) x.(power_changed) x.(break_in_changed).
Definition with_snap_break_in (x : Snapshot) (k : BreakInKind) : Snapshot :=
  mk_Snapshot x.(snap_power) (Some k) x.(power_changed) x.(break_in_changed).

Definition is_break_in_write (st : Step) : bool :=
  match st with SetBreakIn _ | VerifyBreakIn _ => true | _ => false end.

(** [complete], once the outstanding step has been taken and the outcome is
    not [Failed]. *)
Definition complete_step (s : CwSupervisor) (step : Step) (outcome : CwOutcome) (now : Z)
  : CwSupervisor :=
  match step, outcome with
  | Status, OutStatus cw_mode transmitting wpm => on_status s cw_mode transmitting wpm
  | CheckSpeed, OutStatus cw_mode _ wpm => on_speed s cw_mode wpm now
  | SnapPower, OutPower p => set_snap s (with_snap_power s.(snap) p)
  | VerifyPower want, OutPower p =>
      if p =? want then s
      else fail s [PStr "power read back "; PInt p; PStr ", wanted "; PInt want] now
  | PowerAtMost max, OutPower p =>
      if max <? p then
        begin_stop s StopError
          (Some [PStr "power reads "; PInt p; PStr ", above the "; PInt max;
                 PStr " it was clamped to"])
          (Restore PowerAboveClamp None)
      else s
  | SnapBreakIn, OutBreakIn k =>
      let s := set_snap s (with_snap_break_in s.(snap) k) in
      let wanted := s.(send_text) ≫= requires_break_in in
      if bool_decide (wanted = Some k)
      then set_plan s (List.filter (fun st => negb (is_break_in_write st)) s.(plan))
      else s
  | VerifyBreakIn want, OutBreakIn k =>
      if bool_decide (k = want) then s
      else fail s [PStr "break-in read back "; PStr (debug_break_in k); PStr ", wanted ";
                   PStr (debug_break_in want)] now
  | Stop, Done =>
      if bool_decide (abort_kind <$> s.(send_text) = Some RadioStop)
      then set_keyed_until s None else s
  | SetPower _, Done | SetBreakIn _, Done => s
  | WaitReady, OutReady true => s
  | WaitReady, OutReady false =>
      set_ready_retry_at (set_plan s (WaitReady :: s.(plan))) (Some (now + s.(config).(tick)))
  | Send chunk, Done => on_sent s chunk now
  | step, other =>
      fail s ([PStr "unexpected answer "] ++ debug_outcome other ++ [PStr " to "]
                ++ debug_step step) now
  end.

Definition complete (s : CwSupervisor) (outcome : CwOutcome) (now : Z) : CwSupervisor :=
  match s.(outstanding) with
  | None => s
  | Some step =>
      let s := set_outstanding s None in
      match outcome with
      | Failed error => fail s error now
      | _ => complete_step s step outcome now
      end
  end.

(** ** Driving *)

Definition check_timers (s : CwSupervisor) (now : Z) : CwSupervisor :=
  match s.(activity) with
  | Sending job =>
      if job.(deadline) <=? now then
        begin_stop s StopKeyDownCap
          (Some [PStr "still keying "; PSecs1 (saturating_duration_since now job.(started));
                 PStr " s after it started; the watchdog stopped it"])
          (Restore KeyDownCap None)
      else s
  | Idle =>
      match s.(arm_held) with
      | Some arm =>
          if s.(config).(idle_ttl) <=? saturating_duration_since now arm.(last_activity)
          then start_restore s IdleTimeout None else s
      | None => s
      end
  | _ => s
  end.

(** [finish]: the plan has run out; whether there may be more to do. *)
Definition finish (s0 : CwSupervisor) (now : Z) : CwSupervisor * bool :=
  let s := set_activity s0 Idle in
  match s0.(activity) with
  | Idle => (s, false)
  | Arming ticket owner callsign cap wpm =>
      let power_raw := match s.(gate) with Some g => g.(low_power_raw) | None => 0 end in
      let s := note (Armed owner callsign power_raw) s in
      let s := set_arm s (Some (mk_Arm owner callsign cap power_raw wpm now None false)) in
      (reply ticket (Ok tt) s, false)
  | Sending job =>
      let s := end_job s job.(job_id) Completed None in
      (update_arm (fun a => with_last_activity a now) s, true)
  | Stopping job reason m after =>
      let s := end_job s job reason m in
      match after with
      | StayArmed => (update_arm (fun a => with_last_activity a now) s, true)
      | Restore reason ticket => (start_restore s reason ticket, true)
      end
  | Restoring reason ticket attempts last_error (Some at_) =>
      let due := at_ <=? now in
      let s := set_activity s (Restoring reason ticket attempts last_error
                                 (if due then None else Some at_)) in
      (if due then plan_restore s else s, due)
  | Restoring reason ticket attempts last_error None =>
      let s := set_snap s no_snapshot in
      let s := set_arm s None in
      let s := note (Restored reason) s in
      (match ticket with Some t => reply t (Ok tt) s | None => s end, false)
  end.

Definition waits (limit : option Z) (now margin : Z) : bool :=
  match limit with Some t => now <? t + margin | None => false end.

Definition mark_changed (st : Step) (x : Snapshot) : Snapshot :=
  match st with
  | SetPower _ => mk_Snapshot x.(snap_power) x.(snap_break_in) true x.(break_in_changed)
  | SetBreakIn _ => mk_Snapshot x.(snap_power) x.(snap_break_in) x.(power_changed) true
  | _ => x
  end.

(** The bounded [for] loop of [next_action]. *)
Fixpoint next_action_loop (n : nat) (s : CwSupervisor) (now : Z) : CwSupervisor * option CwAction :=
  match n with
  | O => (s, None)
  | S n =>
      match s.(plan) with
      | [] =>
          let '(s, more) := finish s now in
          if more : bool then next_action_loop n s now else (s, None)
      | WaitKeyed margin :: rest =>
          if waits s.(keyed_until) now margin then (s, None)
          else next_action_loop n (set_plan s rest) now
      | WaitReady :: rest =>
          if waits s.(ready_retry_at) now 0 then (s, None)
          else
            let s := set_ready_retry_at s None in
            let s := set_plan s rest in
            (set_outstanding s (Some WaitReady), Some ActReady)
      | step :: rest =>
          let s := set_plan s rest in
          let s := set_snap s (mark_changed step s.(snap)) in
          (set_outstanding s (Some step), action step)
      end
  end.

Definition next_action (s : CwSupervisor) (now : Z) : CwSupervisor * option CwAction :=
  match s.(outstanding) with
  | Some _ => (s, None)
  | None => next_action_loop 64 (check_timers s now) now
  end.

Definition take_notices (s : CwSupervisor) : list CwNotice * CwSupervisor :=
  (s.(notices), set_notices s []).

(** ** Requests *)

Definition arm_plan (send : CwSendText) (g : TxGateCapability) : list Step :=
  [Status; SnapPower]
  ++ (match send.(requires_break_in) with Some _ => [SnapBreakIn] | None => [] end)
  ++ [SetPower g.(low_power_raw); VerifyPower g.(low_power_raw)]
  ++ (match send.(requires_break_in) with
      | Some kind => [SetBreakIn kind; VerifyBreakIn kind] | None => [] end).

Definition held_by (s : CwSupervisor) : option ConsoleId :=
  match s.(arm_held), s.(activity) with
  | Some arm, _ => Some arm.(arm_owner)
  | None, Arming _ owner _ _ _ => Some owner
  | _, _ => None
  end.

Definition cannot_send : HostRefusal :=
  refusal Unsupported [PStr "this radio cannot send CW text over CAT"].
Definition another_console : HostRefusal :=
  refusal Forbidden [PStr "another console holds the CW transmit arm"].

Definition arm (s : CwSupervisor) (owner : ConsoleId) (callsign : text) (key_down_cap_s : option Z)
    (_now : Z) : result Z HostRefusal * CwSupervisor :=
  match s.(send_text), s.(gate) with
  | Some send, Some g =>
      if s.(shutting_down) then
        (Err (refusal Forbidden [PStr "the server is shutting down"]), s)
      else
        match s.(activity) with
        | Restoring _ _ _ last_error _ =>
            (Err (refusal Forbidden
               (match last_error with
                | Some e => [PStr "the last arm's restore has not been verified: "] ++ e
                | None => [PStr "the last arm is still being restored"]
                end)), s)
        | _ =>
            match held_by s with
            | Some holder =>
                (Err (if bool_decide (holder = owner)
                      then refusal Forbidden [PStr "this console is already armed"]
                      else another_console), s)
            | None =>
                let cap := Z.min (match key_down_cap_s with
                                  | Some k => from_secs k
                                  | None => s.(config).(key_down_cap) end)
                             s.(config).(key_down_cap) in
                let '(ticket, s) := take_ticket s in
                let s := set_snap s no_snapshot in
                let s := set_plan s (arm_plan send g) in
                (Ok ticket,
                 set_activity s (Arming ticket owner (to_ascii_uppercase_str callsign) cap
                                   s.(slowest_wpm)))
            end
        end
  | _, _ => (Err cannot_send, s)
  end.

Definition send (s : CwSupervisor) (owner : ConsoleId) (t : text) (now : Z)
  : result Z HostRefusal * CwSupervisor :=
  match s.(send_text) with
  | None => (Err cannot_send, s)
  | Some send =>
      match s.(arm_held) with
      | None => (Err (refusal Forbidden [PStr "not armed"]), s)
      | Some arm =>
          if negb (bool_decide (arm.(arm_owner) = owner)) then (Err another_console, s)
          else if match s.(activity) with Idle => false | _ => true end then
            (Err (refusal Forbidden [PStr "a send is already in progress"]), s)
          else
            let words := map to_ascii_uppercase_str (split_whitespace t) in
            if bool_decide (words = []) then
              (Err (refusal OutOfRange [PStr "nothing to send"]), s)
            else
              let operator := join_space words in
              match rejected_char send operator with
              | Some c => (Err (refusal OutOfRange [PStr "this keyer cannot send "; PDebugChar c]), s)
              | None =>
                  let id_due := match arm.(last_id) with
                                | None => true
                                | Some t => s.(config).(id_interval) <=? saturating_duration_since now t
                                end in
                  let id_text := if id_due then Some (txt "DE " ++ arm.(arm_callsign)) else None in
                  let id_first := id_due && arm.(arm_id_first) in
                  let full := match id_text with
                              | Some id => if id_first then id ++ space :: operator
                                           else operator ++ space :: id
                              | None => operator
                              end in
                  let est := estimate full arm.(arm_wpm) in
                  if arm.(arm_cap) <? est then
                    (Err (refusal OutOfRange
                       [PStr "about "; PSecs1 est; PStr " s at "; PInt arm.(arm_wpm); PStr " wpm";
                        PStr (if id_due then ", with the ID" else ""); PStr "; the key-down cap is ";
                        PInt (as_secs arm.(arm_cap)); PStr " s"]), s)
                  else
                    let id := s.(next_job) in
                    let s := set_next_job s (wrapping_add_u32 s.(next_job) 1) in
                    let job := mk_Job id full operator id_text (as_u32 (Z.of_nat (length full))) 0 now
                                 (now + watchdog_for s est) id_due id_first false false in
                    let s := set_plan s [Status; PowerAtMost (match s.(gate) with
                                                | Some g => g.(low_power_raw) | None => 0 end)] in
                    let s := set_activity s (Sending job) in
                    (Ok id, update_arm (fun a => with_last_activity a now) s)
              end
      end
  end.

Definition abort (s : CwSupervisor) (_now : Z) : CwSupervisor :=
  match s.(activity) with
  | Sending _ => begin_stop s Aborted None StayArmed
  | _ => s
  end.

Definition disarm (s : CwSupervisor) (owner : ConsoleId) (_now : Z)
  : result Z HostRefusal * CwSupervisor :=
  match s.(arm_held) with
  | None =>
      (Err (refusal Forbidden
         (match s.(activity) with
          | Arming _ _ _ _ _ => [PStr "arming is still in progress"]
          | _ => [PStr "not armed"] end)), s)
  | Some arm =>
      if negb (bool_decide (arm.(arm_owner) = owner)) then (Err another_console, s)
      else
        match s.(activity) with
        | Stopping _ _ _ (Restore _ (Some _)) =>
            (Err (refusal Forbidden [PStr "already disarming"]), s)
        | _ =>
            let '(ticket, s) := take_ticket s in
            (Ok ticket, end_arm s Requested Aborted (Some ticket))
        end
  end.

Definition detached (s : CwSupervisor) (id : ConsoleId) (_now : Z) : CwSupervisor :=
  match s.(activity) with
  | Arming _ owner _ _ _ =>
      if bool_decide (owner = id) then refuse_arm s Forbidden [PStr "the console hung up"] else s
  | _ =>
      match s.(arm_held) with
      | Some a => if bool_decide (a.(arm_owner) = id)
                  then end_arm s Disconnected StopDisconnected None else s
      | None => s
      end
  end.

Definition shutdown (s : CwSupervisor) (_now : Z) : CwSupervisor :=
  let s := set_shutting_down s true in
  match s.(activity) with
  | Arming _ _ _ _ _ => refuse_arm s Forbidden [PStr "the server is shutting down"]
  | _ => match s.(arm_held) with
         | Some _ => end_arm s Shutdown Aborted None
         | None => s
         end
  end.

(** ** Queries *)

Definition is_idle (a : Activity) : bool := match a with Idle => true | _ => false end.

Definition blocks_external_ptt (s : CwSupervisor) : bool :=
  negb (is_none s.(arm_held)) || negb (is_idle s.(activity)).
Definition is_live (s : CwSupervisor) : bool :=
  negb (is_idle s.(activity)) || negb (match s.(plan) with [] => true | _ => false end)
  || negb (is_none s.(outstanding)).
Definition is_settled (s : CwSupervisor) : bool := is_none s.(arm_held) && negb (is_live s).

Definition armed_state (s : CwSupervisor) (viewer : ConsoleId) : option ArmedState :=
  (fun a => mk_ArmedState a.(arm_callsign) a.(arm_power_raw)
              (bool_decide (a.(arm_owner) = viewer))) <$> s.(arm_held).

Definition sender (s : CwSupervisor) : SenderState :=
  match s.(activity) with
  | Sending job => SenderSending job.(job_id) job.(sent) job.(job_total)
  | Stopping job _ _ _ => SenderDraining job
  | _ => s.(last_sender)
  end.

Definition restore_status (s : CwSupervisor) : option RestoreStatus :=
  match s.(activity) with
  | Restoring _ _ attempts (Some e) _ =>
      if 0 <? attempts then Some (mk_RestoreStatus attempts e) else None
  | _ => None
  end.
