(* ===== verification/CwChunks.v ===== *)
(** * CwChunks: how a message is cut for the radio (cw.rs: [chunks], [plan_chunks])

    Every chunk the supervisor plans is short enough, keys within the drain
    bound unless it is a single character, and together they carry exactly the
    text; the station ID is cut on its own and its last chunk is marked. *)

From S2P Require Import Prelude Text Morse Timing Capabilities NativeTypes CwSupervisor.

Section Fits.
  Variable fits : text -> bool.

(** Not empty, and fitting unless it cannot be cut further. *)
Definition good_chunk (c : text) : Prop := c <> [] /\ (fits c = true \/ length c = 1%nat).
Definition good_current (c : text) : Prop := c = [] \/ good_chunk c.

(** The visible characters of a text. *)
Definition visible (t : text) : text := List.filter (fun c => negb (is_whitespace c)) t.

Lemma visible_app a b : visible (a ++ b) = visible a ++ visible b.
Proof. apply List.filter_app. Qed.

Lemma visible_word w : is_word w -> visible w = w.
Proof.
  intros [_ Hw]. induction Hw as [|c w Hc _ IH]; [done|]. cbn. rewrite Hc. cbn. by f_equal.
Qed.

Lemma visible_concat l : visible (concat l) = concat (map visible l).
Proof. induction l as [|x l IH]; [done|]. cbn. by rewrite visible_app, IH. Qed.

Lemma visible_split cur t :
  Forall (fun c => is_whitespace c = false) cur ->
  concat (split_whitespace_from cur t) = cur ++ visible t.
Proof.
  revert cur. induction t as [|c t IH]; intros cur Hcur; cbn.
  - rewrite app_nil_r. destruct cur; cbn; [done|]. by rewrite app_nil_r.
  - destruct (is_whitespace c) eqn:Hc; cbn.
    + destruct cur as [|x cur]; [by apply IH|]. cbn [concat]. by rewrite IH.
    + rewrite IH; [by rewrite <- app_assoc|]. apply Forall_app. by split; [|constructor].
Qed.

Lemma split_char_fold w : forall out piece,
  Forall good_chunk out -> good_current piece -> (w <> [] \/ piece <> []) ->
  let '(out', piece') := fold_left (split_char fits) w (out, piece) in
  Forall good_chunk out' /\ good_chunk piece'
  /\ concat out' ++ piece' = concat out ++ piece ++ w.
Proof.
  induction w as [|c w IH]; intros out piece Hout Hp Hne; cbn [fold_left].
  - rewrite app_nil_r. destruct Hp as [->|Hp]; [by destruct Hne|]. done.
  - cbn [split_char]. destruct (bool_decide (piece = []) || fits (piece ++ [c])) eqn:E.
    + specialize (IH out (piece ++ [c]) Hout). rewrite <- (app_assoc piece) in IH. apply IH.
      * right. split; [by destruct piece|]. apply orb_true_iff in E as [E|E]; [|by left].
        apply bool_decide_eq_true in E as ->. by right.
      * right. by destruct piece.
    + apply orb_false_iff in E as [Ene E]. apply bool_decide_eq_false in Ene.
      specialize (IH (out ++ [piece]) [c]). destruct (fold_left _ _ _) as [out' piece'].
      destruct IH as (H1 & H2 & H3).
      * apply Forall_app. split; [done|]. constructor; [|done]. by destruct Hp.
      * right. split; [done|by right].
      * by right.
      * split; [done|]. split; [done|]. rewrite H3, concat_app. cbn. by rewrite app_nil_r, <- !app_assoc.
Qed.

Lemma chunk_word_spec out cur w :
  is_word w -> Forall good_chunk out -> good_current cur ->
  let '(out', cur') := chunk_word fits (out, cur) w in
  Forall good_chunk out' /\ good_chunk cur'
  /\ visible (concat out' ++ cur') = visible (concat out ++ cur) ++ w.
Proof.
  intros Hw Hout Hcur.
  assert (Hplace : forall out, Forall good_chunk out ->
    let '(out', cur') := if fits w then (out, w) else fold_left (split_char fits) w (out, []) in
    Forall good_chunk out' /\ good_chunk cur'
    /\ visible (concat out' ++ cur') = visible (concat out) ++ w).
  { intros o Ho. destruct (fits w) eqn:Hf.
    - split; [done|]. split; [split; [apply Hw|by left]|]. by rewrite visible_app, (visible_word w).
    - pose proof (split_char_fold w o [] Ho (or_introl eq_refl)) as H.
      destruct (fold_left _ _ _) as [o' c']. destruct H as (H1 & H2 & H3); [left; apply Hw|].
      rewrite H3. split; [done|]. split; [done|]. cbn [app]. by rewrite visible_app, (visible_word w). }
  unfold chunk_word. destruct cur as [|c0 cur].
  - rewrite app_nil_r. by apply Hplace.
  - destruct (fits ((c0 :: cur) ++ space :: w)) eqn:Hf.
    + split; [done|]. split; [split; [done|by left]|].
      rewrite !visible_app. change (space :: w) with ([space] ++ w). rewrite visible_app.
      change (visible [space]) with (@nil Z). rewrite (visible_word w) by done. by rewrite app_assoc.
    + specialize (Hplace (out ++ [c0 :: cur])).
      destruct (if fits w then _ else _) as [o' c']. destruct Hplace as (H1 & H2 & H3).
      { apply Forall_app. split; [done|]. constructor; [|done]. by destruct Hcur. }
      split; [done|]. split; [done|]. rewrite H3, concat_app. cbn [concat]. by rewrite app_nil_r.
Qed.

Lemma chunks_fold ws : forall out cur,
  Forall is_word ws -> Forall good_chunk out -> good_current cur ->
  let '(out', cur') := fold_left (chunk_word fits) ws (out, cur) in
  Forall good_chunk out' /\ good_current cur'
  /\ visible (concat out' ++ cur') = visible (concat out ++ cur) ++ concat ws.
Proof.
  induction ws as [|w ws IH]; intros out cur Hws Hout Hcur; cbn [fold_left].
  - cbn. by rewrite app_nil_r.
  - apply Forall_cons in Hws as [Hw Hws].
    pose proof (chunk_word_spec out cur w Hw Hout Hcur) as Hstep.
    destruct (chunk_word fits (out, cur) w) as [o1 c1]. destruct Hstep as (H1 & H2 & H3).
    specialize (IH o1 c1 Hws H1 (or_intror H2)). destruct (fold_left _ ws _) as [o2 c2].
    destruct IH as (H4 & H5 & H6). split; [done|]. split; [done|].
    rewrite H6, H3. cbn [concat]. by rewrite <- app_assoc.
Qed.

Lemma chunks_with_spec t :
  Forall good_chunk (chunks_with fits t) /\ visible (concat (chunks_with fits t)) = visible t.
Proof.
  unfold chunks_with.
  pose proof (chunks_fold (split_whitespace t) [] [] (split_whitespace_words t)
    (List.Forall_nil _) (or_introl eq_refl)) as H.
  destruct (fold_left _ _ _) as [out cur]. destruct H as (H1 & H2 & H3). cbn in H3.
  unfold split_whitespace in H3. rewrite (visible_split [] t) in H3 by constructor. cbn in H3.
  destruct cur as [|c cur]; [by rewrite app_nil_r in H3|]. split.
  - apply Forall_app. split; [done|]. constructor; [|done]. by destruct H2.
  - rewrite concat_app. cbn [concat]. by rewrite app_nil_r.
Qed.
End Fits.

(** Every chunk is non-empty and within the radio's size; with a drain
    bound, its keying estimate is within the bound unless it is one character;
    and the chunks together are the text, less its whitespace. *)
Theorem chunks_bounded_and_complete t max_chars bound wpm :
  Forall (fun c => c <> [] /\ Z.of_nat (length c) <= Z.max max_chars 1
            /\ forall d, bound = Some d -> estimate c wpm <= d \/ length c = 1%nat)
    (chunks t max_chars bound wpm)
  /\ visible (concat (chunks t max_chars bound wpm)) = visible t.
Proof.
  unfold chunks. destruct (chunks_with_spec (chunk_fits max_chars bound wpm) t) as [Hg Hv].
  split; [|done]. eapply Forall_impl; [exact Hg|]. intros c [Hne Hf]. split; [done|].
  unfold chunk_fits in Hf. destruct Hf as [Hf|H1]; [|split; [lia|auto]].
  apply andb_true_iff in Hf as [Hlen%Z.leb_le Hest]. split; [done|].
  intros d ->. left. by apply Z.leb_le.
Qed.

(** ** The plan of a send *)

Lemma pending_app a b : pending_chunks (a ++ b) = pending_chunks a ++ pending_chunks b.
Proof. apply omap_app. Qed.

(** The chunks of [steps_of_chunks]: the texts in order, the last one marked. *)
Fixpoint marked_chunks (l : list (text * bool)) : list Chunk :=
  match l with
  | [] => []
  | (t, e) :: l => mk_Chunk t (bool_decide (l = [])) e :: marked_chunks l
  end.

Lemma pending_steps send l : pending_chunks (steps_of_chunks send l) = marked_chunks l.
Proof.
  induction l as [|[t e] l IH]; [done|]. cbn [steps_of_chunks marked_chunks].
  rewrite pending_app, IH. unfold chunk_steps.
  by destruct (pacing send), (abort_kind send).
Qed.

Lemma mark_last_texts l : map fst (mark_last l) = map fst l.
Proof. induction l as [|[t e] [|x l] IH]; [done..|]. cbn in *. by rewrite IH. Qed.

Lemma mark_last_app l t e : mark_last (l ++ [(t, e)]) = l ++ [(t, true)].
Proof.
  induction l as [|[t' e'] l IH]; [done|]. destruct l as [|x l]; [done|].
  change (mark_last (((t', e') :: x :: l) ++ [(t, e)])) with ((t', e') :: mark_last ((x :: l) ++ [(t, e)])).
  by rewrite IH.
Qed.

(** One flag among unset ones. *)
Lemma one_flag (a b : list (text * bool)) t i t' e :
  Forall (fun x => x.2 = false) a -> Forall (fun x => x.2 = false) b ->
  (a ++ (t, true) :: b) !! i = Some (t', e) -> e = true <-> i = length a.
Proof.
  intros Ha Hb Hi. apply lookup_app_Some in Hi as [Hi|[Hle Hi]].
  - pose proof (lookup_lt_Some _ _ _ Hi). pose proof (Forall_lookup_1 _ _ _ _ Ha Hi) as Hx. cbn in Hx.
    subst e. split; [done|lia].
  - destruct (i - length a)%nat as [|k] eqn:E; cbn in Hi.
    + simplify_eq. split; [lia|done].
    + pose proof (Forall_lookup_1 _ _ _ _ Hb Hi) as Hx. cbn in Hx. subst e. split; [done|lia].
Qed.

Lemma unflagged_map l : Forall (fun x : text * bool => x.2 = false) (map (fun t => (t, false)) l).
Proof. by apply Forall_map, Forall_true. Qed.

(** The plan of a send hands over the operator's chunks and the ID's
    chunks, never mixed in one chunk, in the order asked for, and only the last
    chunk of the ID says that the ID is done. *)
Theorem plan_chunks_content s send op id first wpm :
  s.(send_text) = Some send ->
  let piece t := chunks t send.(max_chunk_chars) (drain_limit s send) wpm in
  let ids := match id with Some t => piece t | None => [] end in
  let cs := pending_chunks (drop (length s.(plan)) (plan_chunks s op id first wpm).(plan)) in
  map chunk_text cs = (if first then ids ++ piece op else piece op ++ ids)
  /\ (forall i c, cs !! i = Some c ->
        ends_id c = true <-> ids <> [] /\ S i = (if first then length ids else length (piece op ++ ids))).
Proof.
  intros Hse piece ids cs.
  assert (Hcs : cs = marked_chunks (ordered_chunks (piece op) ids first)).
  { subst cs. unfold plan_chunks. rewrite Hse. cbn [plan set_plan]. rewrite drop_app_length.
    rewrite pending_app. cbn. rewrite pending_steps, app_nil_r. done. }
  rewrite Hcs. clear cs Hcs. unfold ordered_chunks.
  assert (Htxt : forall l, map chunk_text (marked_chunks l) = map fst l).
  { induction l as [|[t e] l IH]; [done|]. cbn. by rewrite IH. }
  assert (Hends : forall l i c, marked_chunks l !! i = Some c -> exists t, l !! i = Some (t, ends_id c)).
  { induction l as [|[t e] l IH]; [done|]. intros [|i] c; cbn; [intros [= <-]; eauto|apply IH]. }
  set (op' := map _ (piece op)). set (id' := mark_last _).
  assert (Hop : Forall (fun x => x.2 = false) op') by apply unflagged_map.
  assert (Hlop : length op' = length (piece op)) by apply length_map.
  assert (Hid : id' = [] /\ ids = [] \/ exists l t, ids = l ++ [t]
      /\ id' = map (fun x => (x, false)) l ++ [(t, true)]).
  { unfold id'. destruct ids as [|x l _] using rev_ind; [by left|]. right. exists l, x.
    split; [done|]. rewrite map_app. apply mark_last_app. }
  split.
  - rewrite Htxt. destruct first; rewrite map_app; unfold id'; rewrite mark_last_texts; unfold op';
      rewrite !map_map; by rewrite !map_id.
  - intros i c Hc. apply Hends in Hc as [t Hc]. destruct Hid as [[-> ->]|(l & t0 & Hids & Hid')].
    + assert (Hi : op' !! i = Some (t, ends_id c)) by (destruct first; [done|by rewrite app_nil_r in Hc]).
      pose proof (Forall_lookup_1 _ _ _ _ Hop Hi) as Hx. cbn in Hx. rewrite Hx. split; [done|]. by intros [[] _].
    + rewrite Hid' in Hc. rewrite Hids, !length_app. pose proof (unflagged_map l) as Hl.
      destruct first.
      * rewrite <- app_assoc in Hc. apply one_flag in Hc; [|done..]. rewrite Hc, length_map. cbn.
        split; [intros ->; split; [by destruct l|lia]|lia].
      * rewrite app_assoc in Hc. apply one_flag in Hc; [|by apply Forall_app|done].
        rewrite Hc, length_app, length_map, Hlop. cbn. split; [intros ->; split; [by destruct l|lia]|lia].
Qed.
