(* ===== verification/CwSafety.v ===== *)
(** * CwSafety: the supervisor in a closed loop with a radio

    The invariant of every reachable state of the supervisor (which steps may
    be planned or in flight in which activity), the radio's power and break-in
    under the discipline of [Register], and what the radio may do with an
    exchange.  A write, acknowledged or not, may leave its setting at any value;
    the front panel may be turned at any moment.  [CwTheorems] draws the
    consequences. *)

From S2P Require Import Prelude Text Morse Timing Capabilities NativeTypes CwSupervisor Register.

(** ** Structure *)

Definition arming_step (st : Step) : bool :=
  match st with
  | Status | SnapPower | SnapBreakIn | SetPower _ | VerifyPower _ | SetBreakIn _ | VerifyBreakIn _ => true
  | _ => false
  end.
Definition sending_step (st : Step) : bool :=
  match st with
  | Status | PowerAtMost _ | WaitKeyed _ | WaitReady | CheckSpeed | Send _ => true
  | _ => false
  end.
Definition stopping_step (st : Step) : bool :=
  match st with WaitReady | Stop | WaitKeyed _ => true | _ => false end.
Definition restoring_step (st : Step) : bool :=
  match st with
  | WaitKeyed _ | SetPower _ | VerifyPower _ | SetBreakIn _ | VerifyBreakIn _ => true
  | _ => false
  end.

(** The steps an activity plans. *)
Definition planned (a : Activity) (st : Step) : bool :=
  match a with
  | Idle => false
  | Arming _ _ _ _ _ => arming_step st
  | Sending _ => sending_step st
  | Stopping _ _ _ _ => stopping_step st
  | Restoring _ _ _ _ _ => restoring_step st
  end.

(** The steps that may be in flight: an exchange outlives the activity that
    asked for it when a request comes in between. *)
Definition in_flight (s : CwSupervisor) (st : Step) : bool :=
  match s.(activity) with
  | Idle => is_none s.(arm_held) && arming_step st
  | Arming _ _ _ _ _ => arming_step st
  | Sending _ => sending_step st
  | Stopping _ _ _ _ => sending_step st || stopping_step st
  | Restoring _ _ _ _ _ => arming_step st
  end.

(** The arm is held while sending and stopping, and not while arming or
    restoring. *)
Definition arm_ok (s : CwSupervisor) : bool :=
  match s.(activity) with
  | Idle => true
  | Arming _ _ _ _ _ | Restoring _ _ _ _ _ => is_none s.(arm_held)
  | Sending _ | Stopping _ _ _ _ => negb (is_none s.(arm_held))
  end.

Definition is_wait (st : Step) : bool := match st with WaitKeyed _ => true | _ => false end.
Fixpoint no_double_wait (p : list Step) : bool :=
  match p with
  | [] => true
  | st :: p => negb (is_wait st && match p with st' :: _ => is_wait st' | [] => false end)
               && no_double_wait p
  end.

(** Waiting steps never follow one another; a restore waits only first. *)
Definition waits_ok (a : Activity) (p : list Step) : bool :=
  match a with
  | Restoring _ _ _ _ _ => forallb (fun st => negb (is_wait st)) (tail p)
  | _ => no_double_wait p
  end.

(** A job's plan: status, then the power check, then chunks; none of the
    chunks is planned before the status is known, or sent before the power
    check was answered. *)
Definition chunk_step (st : Step) : bool :=
  match st with WaitKeyed _ | WaitReady | CheckSpeed | Send _ => true | _ => false end.
Definition clamp_of (s : CwSupervisor) : Z :=
  match s.(gate) with Some g => g.(low_power_raw) | None => 0 end.
Definition sending_shape (s : CwSupervisor) : Prop :=
  (s.(plan) = [Status; PowerAtMost (clamp_of s)] /\ s.(outstanding) = None)
  \/ (s.(plan) = [PowerAtMost (clamp_of s)] /\ s.(outstanding) = Some Status)
  \/ (exists rest, s.(plan) = PowerAtMost (clamp_of s) :: rest /\ s.(outstanding) = None
                   /\ forallb chunk_step rest = true)
  \/ (forallb chunk_step s.(plan) = true /\ s.(outstanding) <> Some Status
      /\ forall m, s.(outstanding) = Some (PowerAtMost m) -> m = clamp_of s).

Record sinv (s : CwSupervisor) : Prop := mk_sinv {
  si_plan : forallb (planned s.(activity)) s.(plan) = true;
  si_waits : waits_ok s.(activity) s.(plan) = true;
  si_out : forall st, s.(outstanding) = Some st -> in_flight s st = true /\ is_wait st = false;
  si_arm : arm_ok s = true;
  si_send : forall j, s.(activity) = Sending j -> sending_shape s }.

(** ** The two settings as registers *)

Definition phase_of (s : CwSupervisor) : phase :=
  match s.(activity) with
  | Arming _ _ _ _ _ => PArming
  | Restoring _ _ _ _ retry => PRestoring (negb (is_none retry))
  | _ => if is_none s.(arm_held) then PIdle else PArmed
  end.

Definition power_op (st : Step) : option (regop Z) :=
  match st with
  | SnapPower => Some RSnap | SetPower p => Some (RSet p) | VerifyPower p => Some (RVerify p)
  | _ => None
  end.
Definition break_op (st : Step) : option (regop BreakInKind) :=
  match st with
  | SnapBreakIn => Some RSnap | SetBreakIn k => Some (RSet k) | VerifyBreakIn k => Some (RVerify k)
  | _ => None
  end.

Definition power_view (s : CwSupervisor) : view Z :=
  mk_view (phase_of s) s.(snap).(snap_power) s.(snap).(power_changed)
    (omap power_op s.(plan)) (s.(outstanding) ≫= power_op).
Definition break_view (s : CwSupervisor) : view BreakInKind :=
  mk_view (phase_of s) s.(snap).(snap_break_in) s.(snap).(break_in_changed)
    (omap break_op s.(plan)) (s.(outstanding) ≫= break_op).

(** What an arm sets each to. *)
Definition power_tgt (s : CwSupervisor) : option Z := low_power_raw <$> s.(gate).
Definition break_tgt (s : CwSupervisor) : option BreakInKind := s.(send_text) ≫= requires_break_in.

(** The radio's registers. *)
Record Radio : Type := mk_Radio { r_power : Z; r_break_in : BreakInKind }.

(** Whose values they have: what they were when the arm was accepted, and what
    somebody else has turned them to since. *)
Record Home : Type := mk_Home { h_power : owned Z; h_break_in : owned BreakInKind }.
Definition home_of_radio (r : Radio) : Home := mk_Home (untouched r.(r_power)) (untouched r.(r_break_in)).
Definition radio_before (h : Home) : Radio := mk_Radio h.(h_power).(before) h.(h_break_in).(before).
Definition panel_untouched (h : Home) : Prop := h.(h_power).(turned) = [] /\ h.(h_break_in).(turned) = [].
(** Each setting has the value it had before the arm, or one somebody else gave
    it since. *)
Definition given_back (h : Home) (r : Radio) : Prop := owns h.(h_power) r.(r_power) /\ owns h.(h_break_in) r.(r_break_in).

Lemma given_back_untouched h r : given_back h r -> panel_untouched h -> r = radio_before h.
Proof.
  intros [Hp Hb] [Up Ub]. destruct r as [p k]. unfold radio_before. cbn in *.
  by rewrite (owns_untouched _ _ Hp Up), (owns_untouched _ _ Hb Ub).
Qed.

Record winv (home : Home) (s : CwSupervisor) (r : Radio) : Prop := mk_winv {
  wi_struct : sinv s;
  wi_power : reg_inv (power_tgt s) home.(h_power) (power_view s) r.(r_power);
  wi_break : reg_inv (break_tgt s) home.(h_break_in) (break_view s) r.(r_break_in) }.

(** ** Restoring *)

Definition restore_plan (s : CwSupervisor) : list Step :=
  WaitKeyed s.(config).(pacing_margin)
  :: (match s.(snap).(snap_power) with
      | Some p => if s.(snap).(power_changed) then [SetPower p; VerifyPower p] else []
      | None => [] end)
  ++ (match s.(snap).(snap_break_in) with
      | Some k => if s.(snap).(break_in_changed) then [SetBreakIn k; VerifyBreakIn k] else []
      | None => [] end).

Lemma plan_restore_eq s : plan_restore s = set_plan s (restore_plan s).
Proof.
  destruct s as [? ? ? ? ? ? ? ? ? [[?|] [?|] [] []]]; reflexivity.
Qed.

Lemma restore_plan_power s :
  omap power_op (restore_plan s) = restore_ops s.(snap).(snap_power) s.(snap).(power_changed).
Proof. unfold restore_plan. destruct (snap s) as [[?|] [?|] [] []]; reflexivity. Qed.
Lemma restore_plan_break s :
  omap break_op (restore_plan s) = restore_ops s.(snap).(snap_break_in) s.(snap).(break_in_changed).
Proof. unfold restore_plan. destruct (snap s) as [[?|] [?|] [] []]; reflexivity. Qed.
Lemma restore_plan_ok s r t a e x :
  forallb (planned (Restoring r t a e x)) (restore_plan s) = true
  /\ waits_ok (Restoring r t a e x) (restore_plan s) = true.
Proof. unfold restore_plan. destruct (snap s) as [[?|] [?|] [] []]; done. Qed.

Lemma start_restore_fields s r t :
  let s' := start_restore s r t in
  s'.(activity) = Restoring r t 0 None None /\ s'.(arm_held) = None
  /\ s'.(plan) = restore_plan s /\ s'.(outstanding) = s.(outstanding) /\ s'.(snap) = s.(snap)
  /\ s'.(gate) = s.(gate) /\ s'.(send_text) = s.(send_text) /\ s'.(config) = s.(config)
  /\ s'.(keyed_until) = s.(keyed_until).
Proof.
  unfold start_restore. rewrite plan_restore_eq.
  destruct (arm_held s), (id_owed s); cbn; repeat split; reflexivity.
Qed.

Lemma start_restore_views s r t :
  power_view (start_restore s r t) = v_restore (power_view s)
  /\ break_view (start_restore s r t) = v_restore (break_view s).
Proof.
  destruct (start_restore_fields s r t) as (Ha & _ & Hp & Ho & Hs & _).
  unfold power_view, break_view, phase_of. rewrite Ha, Hp, Ho, Hs.
  rewrite restore_plan_power, restore_plan_break. done.
Qed.

Lemma start_restore_tgts s r t :
  power_tgt (start_restore s r t) = power_tgt s /\ break_tgt (start_restore s r t) = break_tgt s.
Proof.
  destruct (start_restore_fields s r t) as (_ & _ & _ & _ & _ & Hg & Ht & _).
  unfold power_tgt, break_tgt. by rewrite Hg, Ht.
Qed.

Lemma start_restore_sinv s r t :
  (forall st, s.(outstanding) = Some st -> arming_step st = true) -> sinv (start_restore s r t).
Proof.
  intros Hout. destruct (start_restore_fields s r t) as (Ha & Har & Hp & Ho & _).
  destruct (restore_plan_ok s r t 0 None None) as [H1 H2].
  split; unfold arm_ok, in_flight; rewrite ?Ha, ?Har, ?Hp, ?Ho; try done.
  intros st Hst. specialize (Hout st Hst). split; [done|]. by destruct st.
Qed.

Lemma start_restore_winv home s rd r t :
  winv home s rd -> (forall st, s.(outstanding) = Some st -> arming_step st = true) ->
  winv home (start_restore s r t) rd.
Proof.
  intros [Hs Hp Hb] Hout. destruct (start_restore_views s r t) as [Hvp Hvb].
  destruct (start_restore_tgts s r t) as [Htp Htb].
  split; [by apply start_restore_sinv| |]; rewrite ?Hvp, ?Hvb, ?Htp, ?Htb; by apply reg_restore.
Qed.

(** ** While the arm is held *)

(** The supervisor holds an arm: idle, sending or stopping. *)
Definition holding (s : CwSupervisor) : bool :=
  negb (is_none s.(arm_held))
  && match s.(activity) with Idle | Sending _ | Stopping _ _ _ _ => true | _ => false end.

Lemma holding_phase s : holding s = true -> phase_of s = PArmed.
Proof. unfold holding, phase_of. by destruct (arm_held s), (activity s). Qed.

Lemma no_register_steps s p :
  holding s = true -> forallb (planned s.(activity)) p = true ->
  omap power_op p = [] /\ omap break_op p = [].
Proof.
  unfold holding. intros Hh. induction p as [|st p IH]; [done|]. cbn.
  intros [Hst Hp]%andb_true_iff. destruct (IH Hp) as [-> ->].
  destruct (activity s), st; try done; by rewrite andb_false_r in Hh.
Qed.

(** Nothing of either setting is planned or in flight while the arm is held:
    any change that keeps it held keeps the invariant. *)
Lemma winv_holding home s s' r :
  winv home s r -> holding s = true -> holding s' = true -> sinv s' ->
  (forall st, s'.(outstanding) = Some st -> power_op st = None /\ break_op st = None) ->
  s'.(snap) = s.(snap) -> s'.(gate) = s.(gate) -> s'.(send_text) = s.(send_text) ->
  winv home s' r.
Proof.
  intros [Hs Hp Hb] Hh Hh' Hs' Hout Hsnap Hg Ht.
  assert (Hreg : omap power_op s.(plan) = [] /\ omap break_op s.(plan) = [])
    by apply (no_register_steps s _ Hh), Hs.
  assert (Hreg' : omap power_op s'.(plan) = [] /\ omap break_op s'.(plan) = [])
    by apply (no_register_steps s' _ Hh'), Hs'.
  pose proof (ri_phase _ _ _ _ Hp) as Hpp. pose proof (ri_phase _ _ _ _ Hb) as Hpb.
  unfold phase_inv in Hpp, Hpb. cbn in Hpp, Hpb. rewrite (holding_phase _ Hh) in Hpp, Hpb.
  destruct Hpp as (_ & Hop & _), Hpb as (_ & Hob & _).
  assert (Hout' : s'.(outstanding) ≫= power_op = None /\ s'.(outstanding) ≫= break_op = None).
  { destruct (outstanding s') as [st|] eqn:E; [|done]. exact (Hout st eq_refl). }
  split; [done| |].
  - replace (power_view s') with (power_view s);
      [unfold power_tgt; rewrite Hg; exact Hp|].
    unfold power_view. rewrite Hsnap, (holding_phase _ Hh), (holding_phase _ Hh').
    destruct Hreg as [-> _], Hreg' as [-> _], Hout' as [-> _]. by rewrite Hop.
  - replace (break_view s') with (break_view s);
      [unfold break_tgt; rewrite Ht; exact Hb|].
    unfold break_view. rewrite Hsnap, (holding_phase _ Hh), (holding_phase _ Hh').
    destruct Hreg as [_ ->], Hreg' as [_ ->], Hout' as [_ ->]. by rewrite Hob.
Qed.

Lemma winv_holding_out home s r st :
  winv home s r -> holding s = true -> s.(outstanding) = Some st ->
  power_op st = None /\ break_op st = None.
Proof.
  intros [Hs Hp Hb] Hh Ho.
  pose proof (ri_phase _ _ _ _ Hp) as Hpp. pose proof (ri_phase _ _ _ _ Hb) as Hpb.
  unfold phase_inv in Hpp, Hpb. cbn in Hpp, Hpb. rewrite (holding_phase _ Hh), Ho in Hpp, Hpb.
  cbn in Hpp, Hpb. tauto.
Qed.

(** Every operation below leaves the capabilities, and most the snapshot and
    the exchange in flight, alone. *)
Record same_frame (s s' : CwSupervisor) : Prop := mk_same_frame {
  sf_out : s'.(outstanding) = s.(outstanding);
  sf_snap : s'.(snap) = s.(snap);
  sf_gate : s'.(gate) = s.(gate);
  sf_send : s'.(send_text) = s.(send_text);
  sf_config : s'.(config) = s.(config);
  sf_slowest : s'.(slowest_wpm) = s.(slowest_wpm) }.

#[export] Instance same_frame_refl : Reflexive same_frame.
Proof. by split. Qed.
#[export] Instance same_frame_trans : Transitive same_frame.
Proof. intros a b c [] []. split; congruence. Qed.

Lemma winv_held_frame home s s' r :
  winv home s r -> holding s = true -> holding s' = true -> sinv s' -> same_frame s s' ->
  winv home s' r.
Proof.
  intros Hw Hh Hh' Hs' [Ho Hsn Hg Ht _ _]. eapply winv_holding; eauto.
  intros st Hst. rewrite Ho in Hst. by eapply winv_holding_out.
Qed.

Lemma owe_id_frame s j :
  same_frame s (owe_id s j) /\ (owe_id s j).(activity) = s.(activity)
  /\ (owe_id s j).(plan) = s.(plan)
  /\ is_none (owe_id s j).(arm_held) = is_none s.(arm_held)
  /\ (owe_id s j).(keyed_until) = s.(keyed_until).
Proof.
  unfold owe_id. destruct (has_id j && negb (id_sent j)); [|by repeat split].
  destruct (arm_held s) as [a|] eqn:E; [|by rewrite E; repeat split].
  destruct (chunk_in_radio j || _); cbn; by repeat split.
Qed.

(** A send being stopped. *)
Lemma begin_stop_fields s reason m after j :
  s.(activity) = Sending j ->
  let s' := begin_stop s reason m after in
  same_frame s s' /\ s'.(activity) = Stopping j.(job_id) reason m after
  /\ s'.(plan) = [Stop; WaitKeyed s.(config).(pacing_margin)]
  /\ is_none s'.(arm_held) = is_none s.(arm_held) /\ s'.(keyed_until) = s.(keyed_until).
Proof.
  intros Ha. unfold begin_stop. rewrite Ha.
  destruct (owe_id_frame s j) as ([Ho Hsn Hg Ht Hc Hsl] & _ & _ & Harm & Hk).
  cbn. repeat split; cbn; try done. by rewrite Hc.
Qed.

Lemma sinv_held s : sinv s -> (exists j, s.(activity) = Sending j) -> holding s = true.
Proof.
  intros Hs [j Ha]. pose proof (si_arm _ Hs) as H. unfold arm_ok in H. rewrite Ha in H.
  unfold holding. by rewrite Ha, H.
Qed.

Lemma begin_stop_winv home s r reason m after j :
  winv home s r -> s.(activity) = Sending j -> winv home (begin_stop s reason m after) r.
Proof.
  intros Hw Ha. destruct (begin_stop_fields s reason m after j Ha) as (Hf & Ha' & Hp & Harm & _).
  pose proof (sinv_held s (wi_struct _ _ _ Hw) (ex_intro _ j Ha)) as Hh.
  assert (Hh' : holding (begin_stop s reason m after) = true).
  { unfold holding in *. rewrite Ha', Harm. by rewrite Ha in Hh. }
  eapply winv_held_frame; eauto. split; unfold arm_ok, in_flight; rewrite ?Ha', ?Hp, ?Harm; try done.
  - intros st Hst. rewrite (sf_out _ _ Hf) in Hst. destruct (si_out _ (wi_struct _ _ _ Hw) st Hst) as [Hin Hwt].
    unfold in_flight in Hin. rewrite Ha in Hin. by rewrite Hin.
  - unfold holding in Hh. rewrite Ha, andb_true_r in Hh. done.
Qed.

(** Requests and answers that end an arm. *)
Lemma end_arm_winv home s r reason stop t :
  winv home s r -> s.(arm_held) <> None -> winv home (end_arm s reason stop t) r.
Proof.
  intros Hw Harm. unfold end_arm. destruct (activity s) as [| |j|job rs m after|] eqn:Ha; try done.
  - apply start_restore_winv; [done|]. intros st Hst.
    destruct (si_out _ (wi_struct _ _ _ Hw) st Hst) as [Hin _].
    unfold in_flight in Hin. rewrite Ha in Hin. by apply andb_true_iff in Hin as [_ ?].
  - by eapply begin_stop_winv.
  - assert (Hh : holding s = true).
    { unfold holding. rewrite Ha. by destruct (arm_held s). }
    eapply winv_held_frame; [exact Hw|exact Hh|..].
    + unfold holding in *. cbn. by rewrite Ha in Hh.
    + destruct (wi_struct _ _ _ Hw) as [H1 H2 H3 H4 _]. unfold arm_ok, in_flight in *. rewrite Ha in *.
      by split.
    + by split.
Qed.

(** ** Refusing an arm *)

Definition any_changed (s : CwSupervisor) : bool :=
  s.(snap).(power_changed) || s.(snap).(break_in_changed).

Lemma v_restore_ext {V} (a b : view V) :
  v_snap a = v_snap b -> v_changed a = v_changed b -> v_out a = v_out b -> v_restore a = v_restore b.
Proof. intros H1 H2 H3. unfold v_restore. by rewrite H1, H2, H3. Qed.

Lemma refuse_arm_views s code m t o c cap w :
  s.(activity) = Arming t o c cap w -> s.(arm_held) = None ->
  let s' := refuse_arm s code m in
  power_tgt s' = power_tgt s /\ break_tgt s' = break_tgt s
  /\ if any_changed s
     then power_view s' = v_restore (power_view s) /\ break_view s' = v_restore (break_view s)
     else power_view s' = v_reset (power_view s) /\ break_view s' = v_reset (break_view s).
Proof.
  intros Ha Harm. unfold refuse_arm. rewrite Ha. cbn zeta.
  change (power_changed (snap (set_activity _ Idle))) with s.(snap).(power_changed).
  change (break_in_changed (snap (set_activity _ Idle))) with s.(snap).(break_in_changed).
  fold (any_changed s). destruct (any_changed s).
  - match goal with |- context [start_restore ?x _ _] => set (q := x) end.
    destruct (start_restore_views q ArmFailed None) as [-> ->].
    destruct (start_restore_tgts q ArmFailed None) as [-> ->].
    repeat split; by apply v_restore_ext.
  - repeat split; unfold power_view, break_view, phase_of; cbn; by rewrite Harm.
Qed.

Lemma refuse_arm_sinv s code m t o c cap w :
  sinv s -> s.(activity) = Arming t o c cap w -> sinv (refuse_arm s code m).
Proof.
  intros [Hp Hw Ho Har _] Ha. unfold arm_ok, in_flight in *. rewrite Ha in *. unfold refuse_arm. rewrite Ha. cbn zeta.
  case_match.
  - apply start_restore_sinv. intros st Hst. by apply (Ho st).
  - split; cbn; try done. intros st Hst. destruct (Ho st Hst) as [H1 H2].
    unfold in_flight; cbn. by rewrite Har, H1.
Qed.

Lemma sinv_arming_arm s t o c cap w :
  sinv s -> s.(activity) = Arming t o c cap w -> s.(arm_held) = None.
Proof.
  intros Hs Ha. pose proof (si_arm _ Hs) as H. unfold arm_ok in H. rewrite Ha in H. by destruct (arm_held s).
Qed.

Lemma refuse_arm_winv home s r code m t o c cap w :
  winv home s r -> s.(activity) = Arming t o c cap w -> winv home (refuse_arm s code m) r.
Proof.
  intros [Hs Hp Hb] Ha. pose proof (sinv_arming_arm _ _ _ _ _ _ Hs Ha) as Harm.
  destruct (refuse_arm_views s code m t o c cap w Ha Harm) as (Htp & Htb & Hv).
  split; [by eapply refuse_arm_sinv|rewrite Htp|rewrite Htb];
    destruct (any_changed s) eqn:Hc; destruct Hv as [Hvp Hvb]; rewrite ?Hvp, ?Hvb;
    try (by apply reg_restore);
    apply orb_false_iff in Hc as [? ?]; by apply reg_reset.
Qed.

(** ** Failures *)

Definition clear_out (s : CwSupervisor) : CwSupervisor := set_outstanding s None.

Lemma clear_out_sinv s : sinv s -> sinv (clear_out s).
Proof.
  intros [Hp Hw Ho Ha Hs]. split; try done. intros j Hj.
  destruct (Hs j Hj) as [[? _]|[[? _]|[(rest & ? & _ & ?)|(? & _ & _)]]].
  - by left.
  - right; right; left. by exists [].
  - right; right; left. by exists rest.
  - by right; right; right.
Qed.

Lemma clear_out_winv home s r :
  sinv s -> reg_inv (power_tgt s) home.(h_power) (v_answered (power_view s)) r.(r_power) ->
  reg_inv (break_tgt s) home.(h_break_in) (v_answered (break_view s)) r.(r_break_in) ->
  winv home (clear_out s) r.
Proof. intros Hs Hp Hb. split; [by apply clear_out_sinv|exact Hp|exact Hb]. Qed.

Lemma fail_restoring_views s e now reason t n err retry :
  s.(activity) = Restoring reason t n err retry ->
  let s' := fail s e now in
  power_tgt s' = power_tgt s /\ break_tgt s' = break_tgt s
  /\ power_view s' = v_fail_restore (power_view s)
  /\ break_view s' = v_fail_restore (break_view s)
  /\ (s.(arm_held) = None -> s.(outstanding) = None -> sinv s').
Proof.
  intros Ha. unfold fail. rewrite Ha. destruct t; cbn; (split_and!; [done..|]);
    intros Harm Hout; split; unfold arm_ok, in_flight; cbn; rewrite ?Harm; try done;
    rewrite Hout; done.
Qed.

Lemma fail_winv home s r e now : winv home s r -> winv home (fail (clear_out s) e now) r.
Proof.
  intros [Hs Hp Hb]. pose proof (clear_out_sinv s Hs) as Hs1.
  pose proof (reg_fail _ Hp) as Fp. pose proof (reg_fail _ Hb) as Fb.
  destruct (activity s) as [|t o c cap w|j|jb rs m after|reason t n err retry] eqn:Ha.
  - (* idle *)
    assert (Hfail : fail (clear_out s) e now = clear_out s) by (unfold fail; cbn; by rewrite Ha).
    rewrite Hfail. destruct (arm_held s) as [a|] eqn:Harm.
    + assert (Hph : phase_of s = PArmed) by (unfold phase_of; by rewrite Ha, Harm).
      apply clear_out_winv; [done| |]; eapply failed_armed; eauto.
    + assert (Hph : phase_of s = PIdle) by (unfold phase_of; by rewrite Ha, Harm).
      apply clear_out_winv; [done| |]; eapply failed_idle; eauto.
  - (* arming *)
    assert (Ha1 : activity (clear_out s) = Arming t o c cap w) by done.
    pose proof (sinv_arming_arm _ _ _ _ _ _ Hs Ha) as Harm.
    assert (Hfail : fail (clear_out s) e now = refuse_arm (clear_out s) OutOfRange e)
      by (unfold fail; by rewrite Ha1).
    rewrite Hfail.
    destruct (refuse_arm_views (clear_out s) OutOfRange e t o c cap w Ha1 Harm) as (Htp & Htb & Hv).
    split; [by eapply refuse_arm_sinv|rewrite Htp|rewrite Htb];
      destruct (any_changed (clear_out s)) eqn:Hc; destruct Hv as [Hvp Hvb]; rewrite ?Hvp, ?Hvb;
      try (by apply failed_restore);
      apply orb_false_iff in Hc as [? ?]; by apply failed_reset.
  - (* sending *)
    assert (Hfail : fail (clear_out s) e now = begin_stop (clear_out s) StopError (Some e) StayArmed)
      by (unfold fail; cbn; by rewrite Ha).
    rewrite Hfail. pose proof (sinv_held s Hs (ex_intro _ j Ha)) as Hh.
    eapply begin_stop_winv; [|exact Ha].
    apply clear_out_winv; [done| |]; eapply failed_armed; eauto; by apply holding_phase.
  - (* stopping *)
    assert (Hh : holding s = true).
    { pose proof (si_arm _ Hs) as H. unfold arm_ok in H. unfold holding. rewrite Ha in *. by rewrite H. }
    assert (Hw1 : winv home (clear_out s) r).
    { apply clear_out_winv; [done| |]; eapply failed_armed; eauto; by apply holding_phase. }
    unfold fail. cbn. rewrite Ha. cbn.
    eapply winv_held_frame; [exact Hw1|exact Hh|exact Hh| |by split].
    destruct Hs1 as [H1 H2 H3 H4 _]. unfold arm_ok, in_flight in *. cbn in *. rewrite Ha in *.
    split; unfold arm_ok, in_flight; cbn; rewrite ?Ha; done.
  - (* restoring *)
    destruct (fail_restoring_views (clear_out s) e now reason t n err retry Ha)
      as (Htp & Htb & Hvp & Hvb & Hsi).
    split; [apply Hsi; [|done]|rewrite Htp, Hvp; by apply failed_wait|rewrite Htb, Hvb; by apply failed_wait].
    pose proof (si_arm _ Hs) as H. unfold arm_ok in H. rewrite Ha in H. cbn. by destruct (arm_held s).
Qed.

(** ** Planning chunks *)

Lemma steps_of_chunks_shape send l m :
  forallb chunk_step (steps_of_chunks send l ++ [WaitKeyed m]) = true
  /\ no_double_wait (steps_of_chunks send l ++ [WaitKeyed m]) = true
  /\ forallb sending_step (steps_of_chunks send l ++ [WaitKeyed m]) = true.
Proof.
  induction l as [|[t e] l (IH1 & IH2 & IH3)]; [done|]. cbn [steps_of_chunks]. rewrite <- app_assoc.
  unfold chunk_steps. destruct (pacing send), (abort_kind send); cbn; rewrite ?IH1, ?IH2, ?IH3;
    split_and!; done.
Qed.

Lemma replan_steps_shape send l m :
  forallb chunk_step (replan_steps send l ++ [WaitKeyed m]) = true
  /\ no_double_wait (replan_steps send l ++ [WaitKeyed m]) = true
  /\ forallb sending_step (replan_steps send l ++ [WaitKeyed m]) = true.
Proof.
  destruct l as [|c l]; [done|]. cbn [replan_steps app forallb no_double_wait chunk_step sending_step].
  induction l as [|c' l (IH1 & IH2 & IH3)]; [done|]. cbn [map concat]. rewrite <- app_assoc.
  destruct (pacing send); cbn; rewrite ?IH1, ?IH2, ?IH3; done.
Qed.

(** A change of a running job's plan. *)
Lemma sending_update home s s' r j j' :
  winv home s r -> s.(activity) = Sending j -> s'.(activity) = Sending j' ->
  is_none s'.(arm_held) = is_none s.(arm_held) -> same_frame s s' ->
  forallb sending_step s'.(plan) = true -> no_double_wait s'.(plan) = true -> sending_shape s' ->
  winv home s' r.
Proof.
  intros Hw Ha Ha' Harm Hf Hp Hnw Hsh. pose proof (sinv_held s (wi_struct _ _ _ Hw) (ex_intro _ j Ha)) as Hh.
  eapply winv_held_frame; [exact Hw|exact Hh| | |done].
  - unfold holding in *. rewrite Ha in Hh. by rewrite Ha', Harm.
  - destruct (wi_struct _ _ _ Hw) as [_ _ H3 H4 _]. unfold arm_ok, in_flight in *. rewrite Ha in *.
    split; unfold arm_ok, in_flight; rewrite ?Ha', ?Harm, ?(sf_out _ _ Hf); done.
Qed.

Lemma set_watchdog_fields s e j :
  s.(activity) = Sending j ->
  exists j', (set_watchdog s e) = set_activity s (Sending j').
Proof. intros Ha. unfold set_watchdog. rewrite Ha. by eexists. Qed.

Lemma plan_chunks_fields s op id first w :
  exists l, plan_chunks s op id first w = set_plan s (s.(plan) ++ l)
            /\ (l = [] \/ forallb chunk_step l = true /\ no_double_wait l = true
                         /\ forallb sending_step l = true).
Proof.
  unfold plan_chunks. destruct (send_text s) as [send|].
  - eexists. split; [reflexivity|]. right. apply steps_of_chunks_shape.
  - exists []. split; [|by left]. rewrite app_nil_r. by destruct s.
Qed.

Lemma on_status_winv home s r cwm tx w :
  winv home s r -> s.(outstanding) = None ->
  (forall j, s.(activity) = Sending j -> s.(plan) = [PowerAtMost (clamp_of s)]) ->
  winv home (on_status s cwm tx w) r.
Proof.
  intros Hw Hout Hpl. unfold on_status. destruct (activity s) as [|t o c cap w0|j| |] eqn:Ha; try done.
  - destruct cwm; cbn [negb]; [|by eapply refuse_arm_winv]. destruct tx; [by eapply refuse_arm_winv|].
    destruct Hw as [[H1 H2 H3 H4 _] Hp Hb].
    unfold power_view, break_view, phase_of, arm_ok, in_flight in *. rewrite Ha in *.
    split; [split; unfold arm_ok, in_flight; cbn; done| exact Hp | exact Hb].
  - match goal with |- context [match ?p with Some m => _ | None => _ end] => destruct p end;
      [by eapply begin_stop_winv|].
    specialize (Hpl j eq_refl).
    set (s1 := update_arm _ s).
    destruct (plan_chunks_fields s1 (operator j) (id_text j) (job_id_first j) (wpm_or_slowest s w))
      as (l & Hl & Hsh).
    rewrite Hl. destruct (set_watchdog_fields (set_plan s1 (plan s1 ++ l))
      (estimate (job_text j) (wpm_or_slowest s w)) j Ha) as [j' ->].
    assert (Hps : plan s1 = [PowerAtMost (clamp_of s)]) by exact Hpl.
    eapply (sending_update home s _ r j j'); eauto; cbn; rewrite ?Hps, ?Hpl; cbn.
    + by destruct (arm_held s).
    + by split.
    + by destruct Hsh as [->|(_ & _ & ->)].
    + by destruct Hsh as [->|(_ & -> & _)].
    + right; right; left. exists l. cbn. rewrite ?Hps, ?Hpl. split_and!; [done|done|].
      by destruct Hsh as [->|(? & ? & ?)].
Qed.

Lemma replan_winv home s r w now j :
  winv home s r -> s.(outstanding) = None -> s.(activity) = Sending j -> winv home (replan s w now) r.
Proof.
  intros Hw Hout Ha. unfold replan. destruct (send_text s) as [send|] eqn:Hse; [|done].
  rewrite Ha. case_match; [by eapply begin_stop_winv|]. cbn. rewrite Ha.
  match goal with |- context [replan_steps _ ?l ++ _] =>
    destruct (replan_steps_shape send l s.(config).(pacing_margin)) as (H1 & H2 & H3) end.
  eapply (sending_update home s); eauto; cbn; try done.
  right; right; right. cbn. rewrite Hout. by split_and!.
Qed.

Lemma update_arm_winv home s r f :
  winv home s r -> winv home (update_arm f s) r.
Proof.
  intros [[H1 H2 H3 H4 H5] Hp Hb].
  assert (Hn : is_none (f <$> arm_held s) = is_none (arm_held s)) by (by destruct (arm_held s)).
  split; [|unfold power_view, phase_of in *; cbn; by rewrite Hn
          |unfold break_view, phase_of in *; cbn; by rewrite Hn].
  unfold arm_ok, in_flight, sending_shape in *.
  split; unfold arm_ok, in_flight, sending_shape; cbn; rewrite ?Hn; done.
Qed.

Lemma on_speed_winv home s r cwm w now :
  winv home s r -> s.(outstanding) = None -> winv home (on_speed s cwm w now) r.
Proof.
  intros Hw Hout. unfold on_speed. destruct (activity s) as [| |j| |] eqn:Ha; try done.
  destruct cwm; cbn [negb]; [|by eapply begin_stop_winv].
  destruct (match arm_held s with Some _ => _ | None => _ end); [done|].
  eapply replan_winv; [by apply update_arm_winv|done|done].
Qed.

(** A field the invariant does not mention. *)
Lemma keyed_until_winv home s r k : winv home s r -> winv home (set_keyed_until s k) r.
Proof. intros [[] Hp Hb]. by split; [split|..]. Qed.
Lemma notices_winv home s r k : winv home s r -> winv home (set_notices s k) r.
Proof. intros [[] Hp Hb]. by split; [split|..]. Qed.
Lemma ready_retry_winv home s r k : winv home s r -> winv home (set_ready_retry_at s k) r.
Proof. intros [[] Hp Hb]. by split; [split|..]. Qed.
Lemma last_sender_winv home s r k : winv home s r -> winv home (set_last_sender s k) r.
Proof. intros [[] Hp Hb]. by split; [split|..]. Qed.
Lemma id_owed_winv home s r k : winv home s r -> winv home (set_id_owed s k) r.
Proof. intros [[] Hp Hb]. by split; [split|..]. Qed.
Lemma shutting_down_winv home s r k : winv home s r -> winv home (set_shutting_down s k) r.
Proof. intros [[] Hp Hb]. by split; [split|..]. Qed.
Lemma next_ticket_winv home s r k : winv home s r -> winv home (set_next_ticket s k) r.
Proof. intros [[] Hp Hb]. by split; [split|..]. Qed.
Lemma next_job_winv home s r k : winv home s r -> winv home (set_next_job s k) r.
Proof. intros [[] Hp Hb]. by split; [split|..]. Qed.

Create HintDb cw discriminated.
#[export] Hint Resolve keyed_until_winv notices_winv ready_retry_winv last_sender_winv
  id_owed_winv shutting_down_winv next_ticket_winv next_job_winv update_arm_winv : cw.

(** Replacing the record of the running job. *)
Lemma set_job_winv home s r j j' :
  winv home s r -> s.(activity) = Sending j -> winv home (set_activity s (Sending j')) r.
Proof.
  intros Hw Ha. destruct (wi_struct _ _ _ Hw) as [H1 H2 _ _ H5]. rewrite Ha in H1, H2.
  eapply (sending_update home s); eauto; done.
Qed.

Lemma on_sent_winv home s r c now : winv home s r -> winv home (on_sent s c now) r.
Proof.
  intros Hw. unfold on_sent. cbn [activity set_keyed_until].
  destruct (activity s) as [| |j| |] eqn:Ha; auto with cw.
  destruct (ends_id c); [apply update_arm_winv, id_owed_winv|];
    (eapply set_job_winv; [auto with cw|exact Ha]).
Qed.

(** ** Answers *)

(** What the radio may do with an action: a write may leave its setting at any
    value, whether it is acknowledged or fails; a read reports the value there
    is, if it reports one; nothing else touches the two settings; anything may
    fail or answer out of turn. *)
Definition radio_answers (a : CwAction) (r : Radio) (o : CwOutcome) (r' : Radio) : Prop :=
  match a with
  | ActSetPower _ => r'.(r_break_in) = r.(r_break_in)
  | ActSetBreakIn _ => r'.(r_power) = r.(r_power)
  | ReadPower => r' = r /\ forall p, o = OutPower p -> p = r.(r_power)
  | ReadBreakIn => r' = r /\ forall k, o = OutBreakIn k -> k = r.(r_break_in)
  | _ => r' = r
  end.

(** What is known of an outcome by the time the supervisor hears it: a value
    that was read is still there, or somebody has turned the setting since; a
    value read for the snapshot was not the supervisor's own. *)
Definition heard_ok (home : Home) (r : Radio) (st : Step) (o : CwOutcome) : Prop :=
  match st, o with
  | SnapPower, OutPower p => owns home.(h_power) p
  | VerifyPower _, OutPower p => sees home.(h_power) r.(r_power) p
  | SnapBreakIn, OutBreakIn k => owns home.(h_break_in) k /\ sees home.(h_break_in) r.(r_break_in) k
  | VerifyBreakIn _, OutBreakIn k => sees home.(h_break_in) r.(r_break_in) k
  | _, _ => True
  end.

(** The exchange takes place: the radio does what it does. *)
Lemma executed_winv home s r st a o r' :
  winv home s r -> s.(outstanding) = Some st -> action st = Some a -> radio_answers a r o r' ->
  winv home s r' /\ heard_ok home r' st o.
Proof.
  intros [Hs Hp Hb] Hout Hact Hans.
  assert (Hovp : v_out (power_view s) = power_op st) by (cbn; by rewrite Hout).
  assert (Hovb : v_out (break_view s) = break_op st) by (cbn; by rewrite Hout).
  assert (Hread : r' = r -> heard_ok home r st o -> winv home s r' /\ heard_ok home r' st o).
  { intros ->. by split. }
  destruct st; try discriminate Hact; injection Hact as <-; cbn [radio_answers] in Hans;
    try (by apply Hread).
  - destruct Hans as [E H]. apply Hread; [done|]. cbn. destruct o; try done. rewrite (H p eq_refl).
    exact (ri_home _ _ _ _ Hp (ri_out_snap _ _ _ _ Hp Hovp)).
  - destruct Hans as [E H]. apply Hread; [done|]. cbn. destruct o; try done. rewrite (H k eq_refl).
    split; [exact (ri_home _ _ _ _ Hb (ri_out_snap _ _ _ _ Hb Hovb))|by left].
  - split; [|done]. split; [done| |by rewrite Hans]. eapply reg_written; [exact Hp|]. by rewrite Hovp.
  - destruct Hans as [E H]. apply Hread; [done|]. cbn. destruct o; try done. by left; apply H.
  - split; [|done]. split; [done|by rewrite Hans|]. eapply reg_written; [exact Hb|]. by rewrite Hovb.
  - destruct Hans as [E H]. apply Hread; [done|]. cbn. destruct o; try done. by left; apply H.
  - by apply Hread; [apply Hans|].
Qed.

Lemma clear_other home s r st :
  winv home s r -> s.(outstanding) = Some st -> power_op st = None -> break_op st = None ->
  winv home (clear_out s) r.
Proof.
  intros [Hs Hp Hb] Hout H1 H2. apply clear_out_winv; [done| |]; (apply reg_other; [done|]); cbn;
    by rewrite Hout.
Qed.

Lemma in_flight_sending s st :
  sinv s -> s.(outstanding) = Some st -> arming_step st = false ->
  (exists j, s.(activity) = Sending j) \/ (exists j rs m a, s.(activity) = Stopping j rs m a).
Proof.
  intros Hs Hout Hst. destruct (si_out _ Hs st Hout) as [Hin _]. unfold in_flight in Hin.
  destruct (activity s); eauto 10; rewrite Hst in Hin; try done. by rewrite andb_false_r in Hin.
Qed.

Lemma waits_ok_filter f a p :
  (forall j, a <> Sending j) -> (forall j rs m t, a <> Stopping j rs m t) ->
  (forall st, is_wait st = true -> f st = true) ->
  forallb (planned a) p = true -> waits_ok a p = true -> waits_ok a (List.filter f p) = true.
Proof.
  intros H1 H2 Hf. destruct a as [|t o c cap w|j|j rs m af|rs t n e x]; cbn.
  - by destruct p.
  - intros Hp _. assert (Hgen : forall q, forallb arming_step q = true -> no_double_wait q = true).
    { induction q as [|st q IH]; [done|]. cbn. intros [Hst Hq]%andb_true_iff. rewrite (IH Hq).
      by destruct st. }
    apply Hgen. clear -Hp. induction p as [|st p IH]; [done|]. cbn in *.
    apply andb_true_iff in Hp as [Hst Hp]. destruct (f st); cbn; auto. by rewrite Hst, IH.
  - by destruct (H1 j).
  - by destruct (H2 j rs m af).
  - intros _ Hw. assert (Hgen : forall q, forallb (fun st => negb (is_wait st)) q = true ->
      forallb (fun st => negb (is_wait st)) (List.filter f q) = true).
    { induction q as [|st q IH]; [done|]. cbn. intros [Hst Hq]%andb_true_iff.
      destruct (f st); cbn; rewrite ?Hst; auto. }
    destruct p as [|st p]; [done|]. cbn in *. destruct (f st); cbn; [by apply Hgen|].
    specialize (Hgen _ Hw). destruct (List.filter f p); [done|]. cbn in Hgen. by apply andb_true_iff in Hgen as [_ ?].
Qed.

Lemma filter_planned a f p : forallb (planned a) p = true -> forallb (planned a) (List.filter f p) = true.
Proof.
  induction p as [|st p IH]; [done|]. cbn. intros [Hst Hp]%andb_true_iff.
  destruct (f st); cbn; rewrite ?Hst; auto.
Qed.

Definition not_break_write (st : Step) : bool := negb (is_break_in_write st).

Lemma filter_ops p :
  omap power_op (List.filter not_break_write p) = omap power_op p
  /\ omap break_op (List.filter not_break_write p)
     = List.filter (fun op => match op with RSnap => true | _ => false end) (omap break_op p).
Proof.
  induction p as [|st p [IH1 IH2]]; [done|]. destruct st; cbn; rewrite ?IH1, ?IH2; done.
Qed.

(** The break-in was read: snapshot it, and drop its write if it is not needed. *)
Lemma snap_break_in_winv home s r k now :
  winv home s r -> s.(outstanding) = Some SnapBreakIn ->
  owns home.(h_break_in) k -> sees home.(h_break_in) r.(r_break_in) k ->
  winv home (complete_step (clear_out s) SnapBreakIn (OutBreakIn k) now) r.
Proof.
  intros [Hs Hp Hb] Hout Hown Hsee.
  assert (Hov : v_out (break_view s) = Some RSnap) by (cbn; by rewrite Hout).
  pose proof (reg_snapped _ _ Hb Hov Hown) as Hsn. pose proof (ri_out_snap _ _ _ _ Hb Hov) as Hch.
  assert (Hpo : reg_inv (power_tgt s) (h_power home) (v_answered (power_view s)) (r_power r)).
  { apply reg_other; [done|]. cbn. by rewrite Hout. }
  pose proof (clear_out_sinv s Hs) as Hs1. cbn [complete_step]. case_bool_decide as Hw.
  - assert (Hnn : reg_inv (break_tgt s) (h_break_in home)
      (v_not_needed (v_snapped k (break_view s))) (r_break_in r)).
    { eapply reg_not_needed; [exact Hw|by apply sees_loose|exact Hsn|done|exact Hch]. }
    destruct (filter_ops (plan s)) as [F1 F2].
    split.
    + destruct Hs1 as [H1 H2 H3 H4 H5].
      assert (Hns : (forall j, s.(activity) <> Sending j)
                    /\ (forall j rs m t, s.(activity) <> Stopping j rs m t)).
      { destruct (si_out _ Hs _ Hout) as [Hin _]. unfold in_flight in Hin.
        by destruct (activity s). }
      split; cbn; try done.
      * by apply filter_planned.
      * apply waits_ok_filter; try done; try apply Hns. by intros [].
      * intros j Hj. by destruct (proj1 Hns j).
    + unfold power_view. cbn. fold not_break_write. rewrite F1. exact Hpo.
    + unfold break_view. cbn. fold not_break_write. rewrite F2. exact Hnn.
  - split; [|exact Hpo|exact Hsn]. destruct Hs1 as [H1 H2 H3 H4 H5]. by split.
Qed.

(** A busy keyer is asked again: the wait goes back to the front. *)
Lemma wait_again_winv home s r t :
  winv home s r -> s.(outstanding) = Some WaitReady ->
  winv home (set_ready_retry_at (set_plan (clear_out s) (WaitReady :: s.(plan))) t) r.
Proof.
  intros Hw Hout. apply ready_retry_winv.
  pose proof (wi_struct _ _ _ Hw) as Hs. pose proof (clear_other _ _ _ _ Hw Hout eq_refl eq_refl) as Hc.
  assert (Hh : holding s = true).
  { pose proof (si_arm _ Hs) as Ha. unfold arm_ok, holding in *.
    destruct (in_flight_sending s _ Hs Hout eq_refl) as [[j Hj]|(j & rs & m & a & Hj)];
      rewrite Hj in *; by rewrite Ha. }
  eapply winv_held_frame; [exact Hc|exact Hh|exact Hh| |by split].
  destruct (clear_out_sinv s Hs) as [H1 H2 H3 H4 H5]. cbn in *.
  destruct (in_flight_sending s _ Hs Hout eq_refl) as [[j Hj]|(j & rs & m & a & Hj)];
    split; cbn; try done; rewrite ?Hj in *; try done.
  intros j' _. pose proof (si_send _ Hs j Hj) as Hsh. unfold sending_shape in *. cbn. rewrite Hout in Hsh.
  destruct Hsh as [[_ ?]|[[_ ?]|[(? & _ & ? & _)|(Hcs & _ & _)]]]; try done.
  right; right; right. by rewrite Hcs.
Qed.

Lemma complete_step_winv home s r st o now :
  winv home s r -> s.(outstanding) = Some st -> heard_ok home r st o ->
  winv home (complete_step (clear_out s) st o now) r.
Proof.
  intros Hw Hout Hh.
  assert (Hfail : forall e, winv home (fail (clear_out s) e now) r) by (intros; by apply fail_winv).
  assert (Hother : power_op st = None -> break_op st = None -> winv home (clear_out s) r).
  { intros H1 H2. by eapply clear_other. }
  assert (Hpo : break_op st = None ->
    reg_inv (break_tgt s) (h_break_in home) (v_answered (break_view s)) (r_break_in r)).
  { intros H. apply reg_other; [apply Hw|]. cbn. by rewrite Hout. }
  assert (Hbo : power_op st = None ->
    reg_inv (power_tgt s) (h_power home) (v_answered (power_view s)) (r_power r)).
  { intros H. apply reg_other; [apply Hw|]. cbn. by rewrite Hout. }
  pose proof (wi_struct _ _ _ Hw) as Hs.
  assert (Hovp : v_out (power_view s) = power_op st) by (cbn; by rewrite Hout).
  assert (Hovb : v_out (break_view s) = break_op st) by (cbn; by rewrite Hout).
  destruct st; cbn in Hovp, Hovb.
  - (* Status *) destruct o; try apply Hfail. apply on_status_winv; auto.
    intros j Hj. change (plan s = [PowerAtMost (clamp_of s)]).
    destruct (si_send _ Hs j Hj) as [[_ ?]|[[? _]|[(? & _ & ? & _)|(_ & ? & _)]]]; congruence.
  - (* SnapPower *) destruct o as [| |p| | |]; try apply Hfail. cbn [complete_step].
    destruct (clear_out_sinv s Hs) as [H1 H2 H3 H4 H5]. split; [by split| |exact (Hpo eq_refl)].
    exact (reg_snapped _ _ (wi_power _ _ _ Hw) Hovp Hh).
  - (* SnapBreakIn *) destruct o as [| | |k| |]; try apply Hfail. destruct Hh. by apply snap_break_in_winv.
  - (* SetPower *) destruct o; try apply Hfail. apply clear_out_winv; [done| |by apply Hpo].
    apply reg_acked; [apply Hw|]. cbn. by rewrite Hovp.
  - (* VerifyPower *) destruct o as [| |p| | |]; try apply Hfail. cbn [complete_step].
    destruct (Z.eqb_spec p want) as [->|_]; [|apply Hfail].
    apply clear_out_winv; [done| |by apply Hpo]. by eapply reg_verified; [apply Hw| |].
  - (* SetBreakIn *) destruct o; try apply Hfail. apply clear_out_winv; [done|by apply Hbo|].
    apply reg_acked; [apply Hw|]. cbn. by rewrite Hovb.
  - (* VerifyBreakIn *) destruct o as [| | |k| |]; try apply Hfail. cbn [complete_step].
    case_bool_decide as Hk; [subst want|apply Hfail].
    apply clear_out_winv; [done|by apply Hbo|]. by eapply reg_verified; [apply Hw| |].
  - (* PowerAtMost *) destruct o; try apply Hfail. cbn [complete_step].
    specialize (Hother eq_refl eq_refl). destruct (max <? p); [|done].
    destruct (activity s) as [| |j| |] eqn:Ha; try (by eapply begin_stop_winv);
      (unfold begin_stop; cbn [activity clear_out set_outstanding]; rewrite Ha;
       by apply start_restore_winv).
  - (* WaitReady *) destruct o as [| | | |[]|]; try apply Hfail;
      [exact (Hother eq_refl eq_refl)|exact (wait_again_winv home s r _ Hw Hout)].
  - (* WaitKeyed *) destruct o; apply Hfail.
  - (* CheckSpeed *) destruct o; try apply Hfail. apply on_speed_winv; auto.
  - (* Send *) destruct o; try apply Hfail. apply on_sent_winv; auto.
  - (* Stop *) destruct o; try apply Hfail. cbn [complete_step].
    specialize (Hother eq_refl eq_refl). case_bool_decide; auto with cw.
Qed.

(** The supervisor hears the outcome. *)
Theorem complete_winv home s r st o now :
  winv home s r -> s.(outstanding) = Some st -> heard_ok home r st o -> winv home (complete s o now) r.
Proof.
  intros Hw Hout Hh. unfold complete. rewrite Hout. fold (clear_out s).
  pose proof (complete_step_winv home s r st o now Hw Hout Hh) as Hc.
  destruct o; try exact Hc. by apply fail_winv.
Qed.

(** ** Driving *)

Lemma check_timers_winv home s r now :
  winv home s r -> s.(outstanding) = None -> winv home (check_timers s now) r.
Proof.
  intros Hw Hout. unfold check_timers. destruct (activity s) as [| |j| |] eqn:Ha; try done.
  - destruct (arm_held s); [|done]. case_match; [|done]. apply start_restore_winv; [done|]. by rewrite Hout.
  - case_match; [|done]. by eapply begin_stop_winv.
Qed.

Lemma check_timers_out s now : (check_timers s now).(outstanding) = s.(outstanding).
Proof.
  unfold check_timers. destruct (activity s) as [| |j| |] eqn:Ha; try done.
  - destruct (arm_held s); [|done]. case_match; [|done].
    by destruct (start_restore_fields s IdleTimeout None) as (_ & _ & _ & -> & _).
  - case_match; [|done].
    match goal with |- outstanding (begin_stop _ ?r ?m ?t) = _ =>
      destruct (begin_stop_fields s r m t j Ha) as ([-> _ _ _ _ _] & _) end. done.
Qed.

(** Ending a job with the arm still held. *)
Lemma end_job_idle_winv home s r job reason m now :
  winv home s r -> holding s = true -> s.(outstanding) = None -> s.(plan) = [] ->
  winv home (update_arm (fun a => with_last_activity a now)
               (end_job (set_activity s Idle) job reason m)) r.
Proof.
  intros Hw Hh Hout Hpl. apply update_arm_winv, last_sender_winv, notices_winv.
  eapply winv_held_frame; [exact Hw|exact Hh| | |by split].
  - unfold holding in *. cbn. by apply andb_true_iff in Hh as [-> _].
  - split; cbn; rewrite ?Hpl, ?Hout; done.
Qed.

Lemma held_of_stopping s j rs m t :
  sinv s -> s.(activity) = Stopping j rs m t -> holding s = true.
Proof.
  intros Hs Ha. pose proof (si_arm _ Hs) as H. unfold arm_ok in H. rewrite Ha in H.
  unfold holding. by rewrite Ha, H.
Qed.

(** The end of an arm's plan: both settings were read back as set. *)
Lemma finish_arming_winv home s r t o c cap w now :
  winv home s r -> s.(activity) = Arming t o c cap w -> s.(plan) = [] -> s.(outstanding) = None ->
  winv home (finish s now).1 r.
Proof.
  intros [Hs Hp Hb] Ha Hpl Hout. unfold finish. rewrite Ha. cbn [fst].
  split.
  - split; cbn; rewrite ?Hpl, ?Hout; done.
  - pose proof (reg_armed _ Hp) as H. cbn in H. unfold phase_of in H. rewrite Ha, Hpl, Hout in H.
    unfold power_view, v_to_armed, phase_of in *. cbn in *. rewrite Hpl, Hout in *. by apply H.
  - pose proof (reg_armed _ Hb) as H. cbn in H. unfold phase_of in H. rewrite Ha, Hpl, Hout in H.
    unfold break_view, v_to_armed, phase_of in *. cbn in *. rewrite Hpl, Hout in *. by apply H.
Qed.

(** The end of a restore's plan: both settings were read back as they were. *)
Lemma finish_restored_winv home s r rs t n e now :
  winv home s r -> s.(activity) = Restoring rs t n e None -> s.(plan) = [] -> s.(outstanding) = None ->
  winv home (finish s now).1 r.
Proof.
  intros [Hs Hp Hb] Ha Hpl Hout. unfold finish. rewrite Ha. cbn [fst].
  set (q := note (Restored rs) _).
  assert (Hq : winv home q r).
  { split.
    - split; cbn; rewrite ?Hpl, ?Hout; done.
    - pose proof (reg_restored _ Hp) as H. cbn in H. unfold phase_of in H. rewrite Ha, Hpl, Hout in H.
      unfold power_view, v_reset, phase_of in *. cbn in *. rewrite Hpl, Hout in *. by apply H.
    - pose proof (reg_restored _ Hb) as H. cbn in H. unfold phase_of in H. rewrite Ha, Hpl, Hout in H.
      unfold break_view, v_reset, phase_of in *. cbn in *. rewrite Hpl, Hout in *. by apply H. }
  destruct t; [|done]. by apply notices_winv.
Qed.

(** A failed restore that is due again, or still waiting. *)
Lemma finish_retry_winv home s r rs t n e at_ now :
  winv home s r -> s.(activity) = Restoring rs t n e (Some at_) -> s.(plan) = [] ->
  s.(outstanding) = None -> winv home (finish s now).1 r.
Proof.
  intros Hw Ha Hpl Hout. unfold finish. rewrite Ha. cbn [fst].
  destruct Hw as [Hs Hp Hb]. pose proof (si_arm _ Hs) as Harm. unfold arm_ok in Harm. rewrite Ha in Harm.
  destruct (at_ <=? now).
  - rewrite plan_restore_eq. pose proof (reg_restore _ Hp) as Hp'. pose proof (reg_restore _ Hb) as Hb'.
    split.
    + destruct (restore_plan_ok (set_activity (set_activity s Idle) (Restoring rs t n e None)) rs t n e None).
      split; cbn; rewrite ?Hout; done.
    + unfold power_view, v_restore in *. cbn [snap set_plan set_activity plan outstanding] in *.
      rewrite restore_plan_power. cbn in *. exact Hp'.
    + unfold break_view, v_restore in *. cbn [snap set_plan set_activity plan outstanding] in *.
      rewrite restore_plan_break. cbn in *. exact Hb'.
  - split.
    + split; cbn; rewrite ?Hpl, ?Hout; done.
    + unfold power_view, phase_of in *. cbn in *. rewrite Ha in Hp. exact Hp.
    + unfold break_view, phase_of in *. cbn in *. rewrite Ha in Hb. exact Hb.
Qed.

Lemma finish_winv home s r now :
  winv home s r -> s.(plan) = [] -> s.(outstanding) = None ->
  winv home (finish s now).1 r /\ (finish s now).1.(outstanding) = None.
Proof.
  intros Hw Hpl Hout. pose proof (wi_struct _ _ _ Hw) as Hs.
  destruct (activity s) as [|t o c cap w|j|j rs m after|rs t n e [at_|]] eqn:Ha.
  - unfold finish. rewrite Ha. cbn. split; [|done]. destruct Hw as [[H1 H2 H3 H4 H5] Hp Hb].
    unfold power_view, break_view, phase_of, arm_ok, in_flight in *. rewrite Ha in *.
    split; [split; unfold arm_ok, in_flight; cbn; done|exact Hp|exact Hb].
  - split; [by eapply finish_arming_winv|]. unfold finish. by rewrite Ha.
  - unfold finish. rewrite Ha. cbn [fst]. split; [|done].
    apply end_job_idle_winv; try done. eapply sinv_held; eauto.
  - pose proof (held_of_stopping _ _ _ _ _ Hs Ha) as Hh.
    pose proof (end_job_idle_winv home s r j rs m now Hw Hh Hout Hpl) as He.
    unfold finish. rewrite Ha. destruct after as [|rs' t']; cbn [fst]; [done|].
    split; [|by destruct (start_restore_fields (end_job (set_activity s Idle) j rs m) rs' t')
               as (_ & _ & _ & -> & _)].
    apply start_restore_winv; [|cbn; by rewrite Hout].
    apply last_sender_winv, notices_winv. eapply winv_held_frame; [exact Hw|exact Hh| | |by split].
    + unfold holding in *. cbn. by apply andb_true_iff in Hh as [-> _].
    + split; cbn; rewrite ?Hpl, ?Hout; done.
  - split; [by eapply finish_retry_winv|]. unfold finish. rewrite Ha. cbn.
    destruct (at_ <=? now); [rewrite plan_restore_eq|]; done.
  - split; [by eapply finish_restored_winv|]. unfold finish. rewrite Ha. cbn. by destruct t.
Qed.

(** Taking the next step off the plan and putting it in flight. *)
Definition issue (s : CwSupervisor) (st : Step) (rest : list Step) : CwSupervisor :=
  set_outstanding (set_snap (set_plan s rest) (mark_changed st s.(snap))) (Some st).

Lemma issue_sinv s st rest :
  sinv s -> s.(plan) = st :: rest -> s.(outstanding) = None -> is_wait st = false ->
  sinv (issue s st rest).
Proof.
  intros [H1 H2 H3 H4 H5] Hpl Hout Hnw. rewrite Hpl in H1, H2. cbn in H1, H2.
  apply andb_true_iff in H1 as [Hst Hrest]. split; cbn; try done.
  - unfold waits_ok in *. destruct (activity s); try (by apply andb_true_iff in H2 as [_ ?]).
    cbn in H2. destruct rest; [done|]. cbn in H2. by apply andb_true_iff in H2 as [_ ?].
  - intros st' [= <-]. split; [|done]. unfold in_flight. cbn.
    destruct (activity s); try done; cbn in Hst; [by rewrite Hst, orb_true_r|by destruct st].
  - intros j Hj. specialize (H5 j Hj). unfold sending_shape in *. cbn. rewrite Hpl, Hout in H5.
    destruct H5 as [[[= -> ->] _]|[[_ ?]|[(rest' & [= -> ->] & _ & Hc)|(Hc & _ & _)]]]; try done.
    + by right; left.
    + right; right; right. split_and!; [done|done|]. by intros m [= <-].
    + right; right; right. cbn in Hc. apply andb_true_iff in Hc as [Hc ?].
      split_and!; [done|by destruct st|]. by intros m [= ->].
Qed.

Lemma issue_winv home s r st rest :
  winv home s r -> s.(plan) = st :: rest -> s.(outstanding) = None -> is_wait st = false ->
  winv home (issue s st rest) r.
Proof.
  intros [Hs Hp Hb] Hpl Hout Hnw. split; [by apply issue_sinv| |].
  - destruct (power_op st) as [op|] eqn:Hop.
    + assert (E : power_view (issue s st rest) = v_issue op (omap power_op rest) (power_view s)).
      { unfold power_view, v_issue. cbn. rewrite Hop. destruct st; first [discriminate Hop | injection Hop as <-; reflexivity | reflexivity]. }
      rewrite E. apply reg_issue; [exact Hp| |]; cbn; rewrite ?Hpl, ?Hout; [|done].
      cbn. by rewrite Hop.
    + replace (power_view (issue s st rest)) with (power_view s); [exact Hp|].
      unfold power_view. cbn. rewrite Hpl, Hout. cbn. rewrite Hop. destruct st; first [discriminate Hop | injection Hop as <-; reflexivity | reflexivity].
  - destruct (break_op st) as [op|] eqn:Hop.
    + assert (E : break_view (issue s st rest) = v_issue op (omap break_op rest) (break_view s)).
      { unfold break_view, v_issue. cbn. rewrite Hop. destruct st; first [discriminate Hop | injection Hop as <-; reflexivity | reflexivity]. }
      rewrite E. apply reg_issue; [exact Hb| |]; cbn; rewrite ?Hpl, ?Hout; [|done].
      cbn. by rewrite Hop.
    + replace (break_view (issue s st rest)) with (break_view s); [exact Hb|].
      unfold break_view. cbn. rewrite Hpl, Hout. cbn. rewrite Hop. destruct st; first [discriminate Hop | injection Hop as <-; reflexivity | reflexivity].
Qed.

Lemma pop_wait_winv home s r m rest :
  winv home s r -> s.(plan) = WaitKeyed m :: rest -> winv home (set_plan s rest) r.
Proof.
  intros [[H1 H2 H3 H4 H5] Hp Hb] Hpl. rewrite Hpl in H1, H2. cbn in H1, H2.
  apply andb_true_iff in H1 as [Hst Hrest].
  unfold power_view, break_view in *. rewrite Hpl in Hp, Hb. cbn in Hp, Hb.
  split; [|exact Hp|exact Hb]. split; cbn; try done.
  - unfold waits_ok in *. destruct (activity s); try (by apply andb_true_iff in H2 as [_ ?]).
    cbn in H2. destruct rest; [done|]. cbn in H2. by apply andb_true_iff in H2 as [_ ?].
  - intros j Hj. specialize (H5 j Hj). unfold sending_shape in *. cbn. rewrite Hpl in H5.
    destruct H5 as [[[=] _]|[[[=] _]|[(rest' & [=] & _ & Hc)|(Hc & ? & ?)]]]; try done.
    by right; right; right.
Qed.

(** The loop either issues the step at the front of some plan it reached, or
    stops with nothing in flight. *)
Lemma next_action_loop_cases home r now n : forall s,
  winv home s r -> s.(outstanding) = None ->
  let '(s', a) := next_action_loop n s now in
  winv home s' r
  /\ match a with
     | None => s'.(outstanding) = None
     | Some a => exists s1 st rest, winv home s1 r /\ s1.(outstanding) = None
                   /\ s1.(plan) = st :: rest /\ action st = Some a
                   /\ (s' = issue s1 st rest \/ st = WaitReady)
                   /\ s'.(outstanding) = Some st
     end.
Proof.
  induction n as [|n IH]; intros s Hw Hout; cbn [next_action_loop]; [done|].
  destruct (plan s) as [|st rest] eqn:Hpl.
  - destruct (finish_winv home s r now Hw Hpl Hout) as [Hw' Ho']. destruct (finish s now) as [s' []]; [|done].
    by apply IH.
  - destruct (is_wait st) eqn:Hwt.
    + destruct st; try done. destruct (waits (keyed_until s) now margin); [done|].
      apply IH; [by eapply pop_wait_winv|done].
    + pose proof (issue_winv home s r st rest Hw Hpl Hout Hwt) as Hi.
      destruct st; try done;
        try (split; [exact Hi|]; eexists s, _, rest; split_and!; [done|done|exact Hpl|done|by left|done]).
      destruct (waits (ready_retry_at s) now 0); [done|]. split.
      * unfold issue in Hi. apply (ready_retry_winv _ _ _ None) in Hi.
        destruct s as [? ? ? ? ? ? ? ? ? [] ? ? ? ? ? ? ?]. exact Hi.
      * exists s, WaitReady, rest. split_and!; auto.
Qed.

Lemma next_action_winv home s r now :
  winv home s r -> winv home (next_action s now).1 r.
Proof.
  intros Hw. unfold next_action. destruct (outstanding s) eqn:Hout; [done|].
  pose proof (next_action_loop_cases home r now 64 (check_timers s now)) as H.
  destruct (next_action_loop _ _ _). apply H; [by apply check_timers_winv|by rewrite check_timers_out].
Qed.

(** ** Requests *)

Lemma arm_winv home s r owner call cap now :
  winv home s r -> winv home (arm s owner call cap now).2 r.
Proof.
  intros Hw. unfold arm. destruct (send_text s) as [send|] eqn:Hse; [|done].
  destruct (gate s) as [g|] eqn:Hg; [|done]. destruct (shutting_down s); [done|].
  destruct (held_by s) eqn:Hh; [by destruct (activity s)|].
  unfold held_by in Hh. destruct (arm_held s) eqn:Harm; [done|].
  destruct (activity s) as [|? ? ? ? ?|j|j rs m a|? ? ? ? ?] eqn:Ha; try done.
  2-3: pose proof (si_arm _ (wi_struct _ _ _ Hw)) as Hx; unfold arm_ok in Hx; by rewrite Ha, Harm in Hx.
  destruct Hw as [Hs Hp Hb].
  assert (Hph : phase_of s = PIdle) by (unfold phase_of; by rewrite Ha, Harm).
  cbn [snd take_ticket]. split.
  - destruct Hs as [H1 H2 H3 H4 _]. split; cbn; try done.
    + unfold arm_plan. by destruct (requires_break_in send).
    + unfold arm_plan. by destruct (requires_break_in send).
    + intros st Hst. destruct (H3 st Hst) as [Hin ?]. unfold in_flight in *. rewrite Ha in Hin. cbn.
      by apply andb_true_iff in Hin as [_ ?].
    + unfold arm_ok. cbn. by rewrite Harm.
  - pose proof (reg_arm _ Hp Hph) as H. unfold v_arm, power_view, power_tgt in *. cbn in *.
    rewrite Hg in *. cbn in *. unfold arm_plan. by destruct (requires_break_in send).
  - pose proof (reg_arm _ Hb Hph) as H. unfold v_arm, break_view, break_tgt in *. cbn in *.
    rewrite Hse in *. cbn in *. unfold arm_plan. by destruct (requires_break_in send).
Qed.

Lemma idle_armed_quiet s :
  sinv s -> s.(activity) = Idle -> s.(arm_held) <> None -> s.(outstanding) = None.
Proof.
  intros Hs Ha Harm. destruct (outstanding s) as [st|] eqn:Ho; [|done].
  destruct (si_out _ Hs st Ho) as [Hin _]. unfold in_flight in Hin. rewrite Ha in Hin.
  by destruct (arm_held s).
Qed.

(** A queued send: what [send] returns when it accepts. *)
Lemma send_accepted s owner t now id s' :
  send s owner t now = (Ok id, s') ->
  s.(activity) = Idle
  /\ exists a j, s.(arm_held) = Some a /\ a.(arm_owner) = owner
     /\ s'.(activity) = Sending j /\ j.(job_id) = id
     /\ s'.(plan) = [Status; PowerAtMost (clamp_of s)]
     /\ s'.(arm_held) = Some (with_last_activity a now)
     /\ same_frame s s'
     /\ estimate j.(job_text) a.(arm_wpm) <= a.(arm_cap).
Proof.
  unfold send. destruct (send_text s) as [snd|]; [|done].
  destruct (arm_held s) as [a|] eqn:Harm; [|done].
  case_bool_decide as Hown; cbn [negb]; [|done].
  destruct (activity s) eqn:Ha; try done. case_bool_decide; [done|].
  destruct (rejected_char _ _); [done|].
  match goal with |- context [estimate ?f ?w] => set (full := f); set (est := estimate full w) end.
  destruct (Z.ltb_spec (arm_cap a) est) as [|Hle]; [done|].
  intros [= <- <-]. split; [done|]. eexists a, _. cbn.
  split_and!; try reflexivity; try done; by rewrite Harm.
Qed.

Lemma send_refused s owner t now e s' : send s owner t now = (Err e, s') -> s' = s.
Proof.
  unfold send. destruct (send_text s); [|by intros [= _ <-]]. destruct (arm_held s); [|by intros [= _ <-]].
  case_bool_decide; cbn [negb]; [|by intros [= _ <-]].
  destruct (activity s); try (by intros [= _ <-]). case_bool_decide; [by intros [= _ <-]|].
  destruct (rejected_char _ _); [by intros [= _ <-]|]. case_match; [by intros [= _ <-]|done].
Qed.

Lemma send_winv home s r owner t now :
  winv home s r -> winv home (send s owner t now).2 r.
Proof.
  intros Hw. destruct (send s owner t now) as [[id|e] s'] eqn:E; cbn [snd];
    [|by apply send_refused in E as ->].
  apply send_accepted in E as (Ha & a & j & Harm & _ & Ha' & _ & Hpl & Harm' & Hf & _).
  pose proof (wi_struct _ _ _ Hw) as Hs.
  assert (Hout : outstanding s = None) by (apply idle_armed_quiet; congruence).
  assert (Hh : holding s = true) by (unfold holding; by rewrite Ha, Harm).
  eapply winv_held_frame; [exact Hw|exact Hh| | |exact Hf].
  - unfold holding. by rewrite Ha', Harm'.
  - split; unfold arm_ok, in_flight; rewrite ?Ha', ?Hpl, ?Harm', ?(sf_out _ _ Hf), ?Hout; try done.
    intros _ _. left. unfold clamp_of. rewrite Hpl, (sf_gate _ _ Hf), (sf_out _ _ Hf). done.
Qed.

Lemma abort_winv home s r now : winv home s r -> winv home (abort s now) r.
Proof. intros Hw. unfold abort. destruct (activity s) eqn:Ha; try done. by eapply begin_stop_winv. Qed.

Lemma disarm_winv home s r owner now : winv home s r -> winv home (disarm s owner now).2 r.
Proof.
  intros Hw. unfold disarm. destruct (arm_held s) as [a|] eqn:Harm; [|done].
  case_bool_decide; cbn [negb]; [|done].
  assert (He : forall t, winv home (end_arm (take_ticket s).2 Requested Aborted t) r).
  { intros t. apply end_arm_winv; [by apply next_ticket_winv|]. cbn. by rewrite Harm. }
  destruct (activity s) as [| | |? ? ? [|? []]|]; try apply He. done.
Qed.

Lemma detached_winv home s r id now : winv home s r -> winv home (detached s id now) r.
Proof.
  intros Hw. unfold detached.
  assert (He : winv home match arm_held s with
    | Some a => if bool_decide (a.(arm_owner) = id) then end_arm s Disconnected StopDisconnected None else s
    | None => s end r).
  { destruct (arm_held s) eqn:Harm; [|done]. case_bool_decide; [|done].
    apply end_arm_winv; [done|]. by rewrite Harm. }
  destruct (activity s) eqn:Ha; try exact He. case_bool_decide; [|done]. by eapply refuse_arm_winv.
Qed.

Lemma shutdown_winv home s r now : winv home s r -> winv home (shutdown s now) r.
Proof.
  intros Hw. unfold shutdown. apply (shutting_down_winv _ _ _ true) in Hw.
  set (q := set_shutting_down s true) in *.
  assert (He : winv home match arm_held q with
    | Some _ => end_arm q Shutdown Aborted None | None => q end r).
  { destruct (arm_held q) eqn:Harm; [|done]. apply end_arm_winv; [done|]. by rewrite Harm. }
  destruct (activity q) eqn:Ha; try exact He. by eapply refuse_arm_winv.
Qed.
