(* ===== verification/CwTheorems.v ===== *)
(** * CwTheorems: what the CW supervisor promises

    The supervisor and a radio as one transition system, the invariant of its
    reachable states, and the promises the module documentation of
    native_bridge/cw.rs makes. *)

From stdpp Require Import relations.
From S2P Require Import Prelude Text Morse Timing Capabilities NativeTypes CwSupervisor Register CwSafety.

(** ** The closed loop *)

Inductive Request : Type :=
| RqArm (owner : ConsoleId) (callsign : text) (cap : option Z)
| RqSend (owner : ConsoleId) (t : text)
| RqAbort
| RqDisarm (owner : ConsoleId)
| RqDetached (id : ConsoleId)
| RqShutdown
| RqTakeNotices.

Definition handle_request (s : CwSupervisor) (q : Request) (now : Z) : CwSupervisor :=
  match q with
  | RqArm o c cap => (arm s o c cap now).2
  | RqSend o t => (send s o t now).2
  | RqAbort => abort s now
  | RqDisarm o => (disarm s o now).2
  | RqDetached id => detached s id now
  | RqShutdown => shutdown s now
  | RqTakeNotices => (take_notices s).2
  end.

(** The supervisor; the radio's registers; whose values they have; the outcome
    of an exchange the radio has carried out and the supervisor has not heard of
    yet; and whether the power was turned since the last message was accepted. *)
Record World : Type := mk_World {
  w_sup : CwSupervisor; w_radio : Radio; w_home : Home; w_heard : option CwOutcome; w_since : bool }.

Definition is_ok {A E} (r : result A E) : bool := match r with Ok _ => true | Err _ => false end.
(** An arm accepted with nothing of an earlier one still in flight: from here
    on, what the radio is now is what it was before the arm. *)
Definition fresh_arm (s : CwSupervisor) (q : Request) (now : Z) : bool :=
  match q with RqArm o c cap => is_ok (arm s o c cap now).1 && is_none s.(outstanding) | _ => false end.
Definition accepts_send (s : CwSupervisor) (q : Request) (now : Z) : bool :=
  match q with RqSend o t => is_ok (send s o t now).1 | _ => false end.
Definition home_after (w : World) (q : Request) (now : Z) : Home :=
  if fresh_arm w.(w_sup) q now then home_of_radio w.(w_radio) else w.(w_home).
Definition since_after (w : World) (q : Request) (now : Z) : bool :=
  if accepts_send w.(w_sup) q now then false else w.(w_since).

Inductive wstep : World -> World -> Prop :=
| w_request w q now :
    wstep w (mk_World (handle_request w.(w_sup) q now) w.(w_radio) (home_after w q now) w.(w_heard)
               (since_after w q now))
| w_next w now :
    wstep w (mk_World (next_action w.(w_sup) now).1 w.(w_radio) w.(w_home) w.(w_heard) w.(w_since))
| w_execute w st a o r' :
    w.(w_sup).(outstanding) = Some st -> action st = Some a -> w.(w_heard) = None ->
    radio_answers a w.(w_radio) o r' ->
    wstep w (mk_World w.(w_sup) r' w.(w_home) (Some o) w.(w_since))
| w_hear w o now :
    w.(w_heard) = Some o ->
    wstep w (mk_World (complete w.(w_sup) o now) w.(w_radio) w.(w_home) None w.(w_since))
| w_turn_power w p :
    wstep w (mk_World w.(w_sup) (mk_Radio p w.(w_radio).(r_break_in))
               (mk_Home (turn p w.(w_home).(h_power)) w.(w_home).(h_break_in)) w.(w_heard) true)
| w_turn_break_in w k :
    wstep w (mk_World w.(w_sup) (mk_Radio w.(w_radio).(r_power) k)
               (mk_Home w.(w_home).(h_power) (turn k w.(w_home).(h_break_in))) w.(w_heard) w.(w_since)).

Definition initial (cap : CwCapability) (cfg : CwConfig) (r : Radio) : World :=
  mk_World (cw_new cap cfg) r (home_of_radio r) None false.
Definition reachable (cap : CwCapability) (cfg : CwConfig) (w : World) : Prop :=
  exists r, rtc wstep (initial cap cfg r) w.

(** ** The capabilities never change *)

Definition caps (s : CwSupervisor) : option CwSendText * option TxGateCapability * Z * CwConfig :=
  (s.(send_text), s.(gate), s.(slowest_wpm), s.(config)).

Ltac caps_solve := repeat case_match; simplify_eq; cbn; try reflexivity; try congruence; auto.

Lemma caps_plan_restore s : caps (plan_restore s) = caps s.
Proof. by rewrite plan_restore_eq. Qed.
Lemma caps_start_restore s r t : caps (start_restore s r t) = caps s.
Proof. unfold start_restore. rewrite caps_plan_restore. by destruct (arm_held s), (id_owed s). Qed.
Lemma caps_owe_id s j : caps (owe_id s j) = caps s.
Proof. unfold owe_id. caps_solve. Qed.
Lemma caps_begin_stop s r m t : caps (begin_stop s r m t) = caps s.
Proof.
  unfold begin_stop. destruct (activity s) as [| |j| |]; try (destruct t; [done|apply caps_start_restore]).
  rewrite <- (caps_owe_id s j). done.
Qed.
Lemma caps_end_arm s r x t : caps (end_arm s r x t) = caps s.
Proof. unfold end_arm. destruct (activity s); try done; [apply caps_start_restore|apply caps_begin_stop]. Qed.
Lemma caps_refuse_arm s c m : caps (refuse_arm s c m) = caps s.
Proof.
  unfold refuse_arm. destruct (activity s); cbn zeta; case_match;
    rewrite ?caps_start_restore; done.
Qed.
Lemma caps_fail s e now : caps (fail s e now) = caps s.
Proof.
  unfold fail. destruct (activity s); rewrite ?caps_refuse_arm, ?caps_begin_stop; try done.
  by destruct ticket.
Qed.
Lemma caps_plan_chunks s o i f w : caps (plan_chunks s o i f w) = caps s.
Proof. unfold plan_chunks. by destruct (send_text s). Qed.
Lemma caps_set_watchdog s e : caps (set_watchdog s e) = caps s.
Proof. unfold set_watchdog. by destruct (activity s). Qed.
Lemma caps_replan s w now : caps (replan s w now) = caps s.
Proof.
  unfold replan. destruct (send_text s); [|done]. case_match; [apply caps_begin_stop|]. cbn.
  by destruct (activity s).
Qed.
Create Rewrite HintDb caps.
#[export] Hint Rewrite caps_plan_restore caps_start_restore caps_owe_id caps_begin_stop caps_end_arm
  caps_refuse_arm caps_fail caps_plan_chunks caps_set_watchdog caps_replan : caps.

Lemma caps_on_status s a b w : caps (on_status s a b w) = caps s.
Proof.
  unfold on_status. destruct (activity s); try done.
  - destruct a, b; cbn; autorewrite with caps; done.
  - match goal with |- context [match ?p with Some m => _ | None => _ end] => destruct p end;
      autorewrite with caps; done.
Qed.
Lemma caps_on_speed s a w now : caps (on_speed s a w now) = caps s.
Proof.
  unfold on_speed. destruct (activity s); try done.
  destruct a; cbn; autorewrite with caps; [|done].
  destruct (match arm_held s with Some _ => _ | None => _ end); [done|]. by autorewrite with caps.
Qed.
Lemma caps_on_sent s c now : caps (on_sent s c now) = caps s.
Proof. unfold on_sent. cbn. destruct (activity s), (ends_id c); done. Qed.
#[export] Hint Rewrite caps_on_status caps_on_speed caps_on_sent : caps.

Lemma caps_complete s o now : caps (complete s o now) = caps s.
Proof.
  unfold complete. destruct (outstanding s) as [st|]; [|done].
  assert (Hs : caps (set_outstanding s None) = caps s) by done. revert Hs.
  generalize (set_outstanding s None). intros s1 Hs.
  destruct o as [| | | |[]|]; destruct st; cbn; repeat case_match; autorewrite with caps; done.
Qed.
Lemma caps_check_timers s now : caps (check_timers s now) = caps s.
Proof. unfold check_timers. repeat case_match; autorewrite with caps; done. Qed.
Lemma caps_finish s now : caps (finish s now).1 = caps s.
Proof. unfold finish. repeat case_match; cbn; autorewrite with caps; done. Qed.
Lemma caps_next_action_loop n now : forall s, caps (next_action_loop n s now).1 = caps s.
Proof.
  induction n as [|n IH]; intros s; [done|]. cbn [next_action_loop].
  destruct (plan s) as [|[] rest]; try done.
  - pose proof (caps_finish s now). destruct (finish s now) as [s' []]; [rewrite IH|]; done.
  - destruct (waits _ _ _); done.
  - destruct (waits _ _ _); [done|]. by rewrite IH.
Qed.
Lemma caps_next_action s now : caps (next_action s now).1 = caps s.
Proof.
  unfold next_action. destruct (outstanding s); [done|].
  by rewrite caps_next_action_loop, caps_check_timers.
Qed.

Lemma caps_handle_request s q now : caps (handle_request s q now) = caps s.
Proof.
  destruct q; cbn [handle_request].
  - unfold arm, take_ticket. repeat case_match; simplify_eq; done.
  - destruct (send s owner t now) as [[id|e] s'] eqn:E; cbn [snd].
    + apply send_accepted in E as (_ & a & j & _ & _ & _ & _ & _ & _ & [_ _ H1 H2 H3 H4] & _).
      unfold caps. congruence.
    + by apply send_refused in E as ->.
  - unfold abort. case_match; autorewrite with caps; done.
  - unfold disarm, take_ticket. repeat case_match; simplify_eq; cbn; autorewrite with caps; done.
  - unfold detached. repeat case_match; autorewrite with caps; done.
  - unfold shutdown. repeat case_match; autorewrite with caps; done.
  - done.
Qed.

(** Requests leave the exchange in flight alone. *)
Lemma start_restore_out s r t : (start_restore s r t).(outstanding) = s.(outstanding).
Proof. by destruct (start_restore_fields s r t) as (_ & _ & _ & H & _). Qed.
Lemma begin_stop_out s r m t : (begin_stop s r m t).(outstanding) = s.(outstanding).
Proof.
  unfold begin_stop. destruct (activity s) as [| |j| |] eqn:Ha; try (destruct t; [done|apply start_restore_out]).
  by destruct (owe_id_frame s j) as ([H _ _ _ _ _] & _).
Qed.
Lemma end_arm_out s r x t : (end_arm s r x t).(outstanding) = s.(outstanding).
Proof. unfold end_arm. destruct (activity s); rewrite ?start_restore_out, ?begin_stop_out; done. Qed.
Lemma refuse_arm_out s c m : (refuse_arm s c m).(outstanding) = s.(outstanding).
Proof. unfold refuse_arm. destruct (activity s); cbn zeta; case_match; rewrite ?start_restore_out; done. Qed.

Lemma handle_request_out s q now : (handle_request s q now).(outstanding) = s.(outstanding).
Proof.
  destruct q; cbn [handle_request].
  - unfold arm, take_ticket. repeat case_match; cbn; done.
  - destruct (send s owner t now) as [[id|e] s'] eqn:E; cbn [snd]; [|by rewrite (send_refused _ _ _ _ _ _ E)].
    apply send_accepted in E as (_ & a & j & _ & _ & _ & _ & _ & _ & [H _ _ _ _ _] & _). exact H.
  - unfold abort. destruct (activity s); rewrite ?begin_stop_out; done.
  - unfold disarm, take_ticket. repeat case_match; cbn [snd]; rewrite ?end_arm_out; done.
  - unfold detached. destruct (activity s); repeat case_match; rewrite ?refuse_arm_out, ?end_arm_out; done.
  - unfold shutdown. cbn [activity set_shutting_down]. destruct (activity s); repeat case_match;
      rewrite ?refuse_arm_out, ?end_arm_out; done.
  - done.
Qed.
Lemma finish_out s now : (finish s now).1.(outstanding) = s.(outstanding).
Proof.
  unfold finish. destruct (activity s) as [|t o c cap w|j|j rs m [|rs' t']|rs t n e [at_|]]; cbn; try done.
  - by rewrite start_restore_out.
  - destruct (at_ <=? now); [by rewrite plan_restore_eq|done].
  - by destruct t.
Qed.

(** ** The power check of a message *)

Definition is_check (st : Step) : bool := match st with PowerAtMost _ => true | _ => false end.
(** A message whose power check is behind it. *)
Definition power_checked (s : CwSupervisor) : bool :=
  match s.(activity) with
  | Sending _ => negb (existsb is_check s.(plan))
                 && negb (match s.(outstanding) with Some st => is_check st | None => false end)
  | _ => false
  end.

Lemma checked_sending s : power_checked s = true -> exists j, s.(activity) = Sending j.
Proof. unfold power_checked. destruct (activity s); try done. eauto. Qed.
Lemma not_sending_unchecked s : (forall j, s.(activity) <> Sending j) -> power_checked s = false.
Proof. unfold power_checked. destruct (activity s); try done. intros H. by destruct (H job). Qed.

Lemma start_restore_unchecked s r t : power_checked (start_restore s r t) = false.
Proof. unfold power_checked. by destruct (start_restore_fields s r t) as (-> & _). Qed.
Lemma begin_stop_unchecked s r m t : power_checked (begin_stop s r m t) = false.
Proof.
  unfold begin_stop. destruct (activity s) eqn:Ha; try done;
    (destruct t; [by unfold power_checked; rewrite Ha|apply start_restore_unchecked]).
Qed.
Lemma refuse_arm_unchecked s c m : power_checked (refuse_arm s c m) = false.
Proof. unfold refuse_arm. cbn zeta. case_match; [apply start_restore_unchecked|done]. Qed.
Lemma end_arm_unchecked s r x t : power_checked (end_arm s r x t) = false.
Proof.
  unfold end_arm. destruct (activity s) eqn:Ha;
    first [apply start_restore_unchecked | apply begin_stop_unchecked | by unfold power_checked; rewrite ?Ha].
Qed.
Lemma fail_unchecked s e now : power_checked (fail s e now) = false.
Proof.
  unfold fail. destruct (activity s) eqn:Ha; [| | | |by destruct ticket].
  - unfold power_checked. by rewrite Ha.
  - apply refuse_arm_unchecked.
  - apply begin_stop_unchecked.
  - unfold power_checked. cbn. by rewrite Ha.
Qed.
Create Rewrite HintDb unchecked.
#[export] Hint Rewrite start_restore_unchecked begin_stop_unchecked refuse_arm_unchecked end_arm_unchecked
  fail_unchecked : unchecked.

Lemma checked_request s q now : power_checked (handle_request s q now) = true -> power_checked s = true.
Proof.
  destruct q; cbn [handle_request].
  - unfold arm, take_ticket. repeat case_match; simplify_eq; done.
  - destruct (send s owner t now) as [[id|e] s'] eqn:E; cbn [snd]; [|by rewrite (send_refused _ _ _ _ _ _ E)].
    apply send_accepted in E as (_ & a & j & _ & _ & Ha & _ & Hpl & _). unfold power_checked. by rewrite Ha, Hpl.
  - unfold abort. destruct (activity s); try done. by rewrite begin_stop_unchecked.
  - unfold disarm, take_ticket. repeat case_match; simplify_eq; cbn [snd]; rewrite ?end_arm_unchecked; done.
  - unfold detached. destruct (activity s) eqn:Ha; repeat case_match; try done;
      autorewrite with unchecked; done.
  - unfold shutdown. cbn [activity set_shutting_down]. destruct (activity s) eqn:Ha; repeat case_match; try done;
      autorewrite with unchecked; done.
  - done.
Qed.

Lemma finish_unchecked s now : power_checked (finish s now).1 = false.
Proof.
  unfold finish. destruct (activity s) as [|t o c cap w|j|j rs m [|rs' t']|rs t n e [at_|]]; try done.
  - cbn. apply start_restore_unchecked.
  - cbn. destruct (at_ <=? now); [by rewrite plan_restore_eq|done].
  - cbn. by destruct t.
Qed.

Lemma checked_loop n now : forall s, s.(outstanding) = None ->
  power_checked (next_action_loop n s now).1 = true -> power_checked s = true.
Proof.
  assert (Hpop : forall s st rest, plan s = st :: rest -> outstanding s = None -> is_check st = false ->
    power_checked (set_plan s rest) = power_checked s).
  { intros s st rest Hpl Hout Hst. unfold power_checked. cbn. by rewrite Hpl, Hout; cbn; rewrite Hst. }
  assert (Hiss : forall s st rest, plan s = st :: rest -> outstanding s = None ->
    power_checked (issue s st rest) = power_checked s).
  { intros s st rest Hpl Hout. unfold power_checked. cbn. rewrite Hpl, Hout. cbn.
    destruct (activity s), (is_check st); cbn; rewrite ?andb_true_r, ?andb_false_r; done. }
  induction n as [|n IH]; intros s Hout; cbn [next_action_loop]; [done|].
  destruct (plan s) as [|st rest] eqn:Hpl.
  - pose proof (finish_unchecked s now) as Hf. pose proof (finish_out s now) as Ho.
    destruct (finish s now) as [s' []]; cbn [fst] in *; [|by rewrite Hf].
    intros H. apply IH in H; [congruence|]. congruence.
  - pose proof (Hiss s st rest Hpl Hout) as Hi.
    destruct st; try (intros H; rewrite <- Hi; exact H).
    + destruct (waits _ _ _); [done|]. cbn [fst]. unfold power_checked. cbn. rewrite Hpl, Hout. done.
    + destruct (waits _ _ _); [done|]. intros H. apply IH in H; [|done]. by rewrite <- (Hpop s _ rest Hpl Hout eq_refl).
Qed.

Lemma checked_next s now : power_checked (next_action s now).1 = true -> power_checked s = true.
Proof.
  unfold next_action. destruct (outstanding s) eqn:Hout; [done|]. intros H.
  apply checked_loop in H; [|by rewrite check_timers_out]. revert H. unfold check_timers.
  destruct (activity s) eqn:Ha; try done; repeat case_match; autorewrite with unchecked; done.
Qed.

(** An exchange in flight for a running message, other than its status and its
    power check, comes after the check. *)
Lemma in_flight_checked s st j :
  sinv s -> s.(activity) = Sending j -> s.(outstanding) = Some st -> st <> Status -> is_check st = false ->
  power_checked s = true.
Proof.
  intros Hs Ha Hout H1 H2. unfold power_checked. rewrite Ha, Hout, H2.
  destruct (si_send _ Hs j Ha) as [[_ ?]|[[_ ?]|[(? & _ & ? & _)|(Hc & _ & _)]]]; try congruence.
  rewrite andb_true_r. apply negb_true_iff. clear -Hc.
  induction (plan s) as [|x p IH]; [done|]. cbn in *. apply andb_true_iff in Hc as [Hx Hc].
  rewrite (IH Hc). by destruct x.
Qed.

Lemma on_status_unchecked s a b w :
  (forall j, s.(activity) = Sending j -> existsb is_check s.(plan) = true) ->
  power_checked (on_status s a b w) = false.
Proof.
  intros H. unfold on_status. destruct (activity s) eqn:Ha; try (unfold power_checked; by rewrite Ha).
  - destruct a, b; cbn [negb]; try apply refuse_arm_unchecked. done.
  - specialize (H job eq_refl).
    match goal with |- context [match ?p with Some m => _ | None => _ end] => destruct p end;
      [apply begin_stop_unchecked|].
    match goal with |- power_checked (set_watchdog (plan_chunks ?x ?o ?i ?f ?w) ?e) = false =>
      destruct (plan_chunks_fields x o i f w) as (l & -> & _);
      destruct (set_watchdog_fields (set_plan x (plan x ++ l)) e job Ha) as [j' ->] end.
    unfold power_checked. cbn. by rewrite existsb_app, H.
Qed.

Lemma on_speed_sending s a w now j : (on_speed s a w now).(activity) = Sending j -> exists j', s.(activity) = Sending j'.
Proof.
  unfold on_speed. destruct (activity s) eqn:Ha; try (by rewrite Ha). eauto.
Qed.

(** Hearing an answer brings a message past its check only if the answer is the
    power, and it is at most the clamp. *)
Lemma checked_complete s o now st :
  sinv s -> s.(outstanding) = Some st -> power_checked (complete s o now) = true ->
  power_checked s = true
  \/ exists m p, st = PowerAtMost m /\ o = OutPower p /\ p <= m /\ m = clamp_of s.
Proof.
  intros Hs Hout. unfold complete. rewrite Hout. fold (clear_out s).
  assert (Hsame : forall s', (forall j, s'.(activity) = Sending j -> exists j', s.(activity) = Sending j') ->
    st <> Status -> is_check st = false -> power_checked s' = true -> power_checked s = true).
  { intros s' Hs' H1 H2 Hc. apply checked_sending in Hc as [j Hj]. destruct (Hs' j Hj) as [j' Hj'].
    by apply (in_flight_checked s st j'). }
  destruct o as [|cwm tx wpm|p|k|ready|e]; [..|by rewrite fail_unchecked];
    destruct st; cbn [complete_step]; try (rewrite fail_unchecked; done);
    try (intros Hc; left; revert Hc; apply Hsame; [|done|done]; cbn; eauto; fail).
  - intros Hc; left; revert Hc; apply Hsame; [|done|done]. intros j. unfold on_sent.
    cbn [activity set_keyed_until clear_out set_outstanding]. destruct (activity s) eqn:Ha; cbn; rewrite ?Ha; eauto.
  - case_bool_decide; intros Hc; left; revert Hc; (apply Hsame; [|done|done]); cbn; eauto.
  - rewrite on_status_unchecked; [done|]. intros j Hj. cbn in Hj |- *.
    destruct (si_send _ Hs j Hj) as [[_ ?]|[[-> _]|[(? & _ & ? & _)|(_ & ? & _)]]]; try congruence. done.
  - intros Hc; left; revert Hc; apply Hsame; [|done|done]. intros j Hj. by apply on_speed_sending in Hj.
  - destruct (p =? want); [|by rewrite fail_unchecked]. intros Hc; left; revert Hc; apply Hsame; [|done|done]. cbn; eauto.
  - destruct (Z.ltb_spec max p); [by rewrite begin_stop_unchecked|]. intros Hc. right. exists max, p. split_and!; try done.
    apply checked_sending in Hc as [j Hj]. cbn in Hj.
    destruct (si_send _ Hs j Hj) as [[_ ?]|[[_ ?]|[(? & _ & ? & _)|(_ & _ & Hm)]]]; try congruence. by apply Hm.
  - case_bool_decide; intros Hc; left; revert Hc; (apply Hsame; [|done|done]); cbn; eauto.
  - case_bool_decide; [|by rewrite fail_unchecked]. intros Hc; left; revert Hc; apply Hsame; [|done|done]. cbn; eauto.
  - destruct ready; intros Hc; left; revert Hc; (apply Hsame; [|done|done]); cbn; eauto.
Qed.

(** ** The invariant *)

(** What is known of the answer to a message's power check. *)
Definition check_heard (since : bool) (r : Radio) (st : Step) (o : CwOutcome) : Prop :=
  match st, o with
  | PowerAtMost _, OutPower p => since = false -> p = r.(r_power)
  | _, _ => True
  end.

Record wworld (w : World) : Prop := mk_wworld {
  ww_inv : winv w.(w_home) w.(w_sup) w.(w_radio);
  ww_heard : forall o, w.(w_heard) = Some o ->
    exists st, w.(w_sup).(outstanding) = Some st /\ heard_ok w.(w_home) w.(w_radio) st o
               /\ check_heard w.(w_since) w.(w_radio) st o;
  ww_check : power_checked w.(w_sup) = true -> w.(w_since) = false ->
    w.(w_radio).(r_power) <= clamp_of w.(w_sup) }.

Lemma initial_winv cap cfg r : wworld (initial cap cfg r).
Proof. split; [|done|done]. split; [by split|apply reg_initial|apply reg_initial]. Qed.

Lemma settled_fields s :
  is_settled s = true ->
  s.(arm_held) = None /\ s.(activity) = Idle /\ s.(plan) = [] /\ s.(outstanding) = None.
Proof.
  unfold is_settled, is_live. destruct (arm_held s), (activity s), (plan s), (outstanding s); done.
Qed.

Lemma handle_request_winv home s r q now : winv home s r -> winv home (handle_request s q now) r.
Proof.
  intros Hw. destruct q; cbn [handle_request];
    [apply arm_winv|apply send_winv|apply abort_winv|apply disarm_winv|apply detached_winv
    |apply shutdown_winv|apply notices_winv]; done.
Qed.

Lemma clamp_caps s s' : caps s' = caps s -> clamp_of s' = clamp_of s.
Proof. unfold caps, clamp_of. intros [= _ -> _ _]. done. Qed.

(** An arm is accepted only by an idle supervisor. *)
Lemma arm_accepted_idle s o c cap now :
  sinv s -> is_ok (arm s o c cap now).1 = true -> phase_of s = PIdle.
Proof.
  intros Hs. unfold arm, held_by, phase_of. pose proof (si_arm _ Hs) as Ha. unfold arm_ok in Ha.
  destruct (send_text s), (gate s), (shutting_down s), (activity s), (arm_held s); done.
Qed.

Lemma begin_winv s r home :
  winv home s r -> phase_of s = PIdle -> s.(outstanding) = None -> winv (home_of_radio r) s r.
Proof.
  intros [Hs Hp Hb] Hph Hout. split; [done| |];
    (eapply reg_begin; [eassumption|exact Hph|cbn; by rewrite Hout]).
Qed.

(** A message is accepted only with nothing in flight. *)
Lemma accepts_send_quiet s q now : sinv s -> accepts_send s q now = true -> s.(outstanding) = None.
Proof.
  intros Hs. unfold accepts_send. destruct q; try done.
  destruct (send s owner t now) as [[id|e] s'] eqn:E; [|done]. intros _.
  apply send_accepted in E as (Ha & a & _ & Harm & _). apply idle_armed_quiet; congruence.
Qed.

Lemma request_wworld w q now : wworld w ->
  wworld (mk_World (handle_request w.(w_sup) q now) w.(w_radio) (home_after w q now) w.(w_heard) (since_after w q now)).
Proof.
  intros [Hw Hh Hc]. split; cbn [w_sup w_radio w_home w_heard w_since].
  - apply handle_request_winv. unfold home_after. destruct (fresh_arm _ _ _) eqn:Hf; [|done].
    unfold fresh_arm in Hf. destruct q; try done. apply andb_true_iff in Hf as [Ha Ho].
    eapply begin_winv; [exact Hw| |by destruct (outstanding _)]. by eapply arm_accepted_idle; [apply Hw|].
  - intros o Ho. destruct (Hh o Ho) as (st & Hst & H1 & H2). exists st. rewrite handle_request_out.
    split; [done|]. unfold home_after, since_after.
    destruct (accepts_send _ _ _) eqn:Es; [apply accepts_send_quiet in Es; [congruence|apply Hw]|].
    unfold fresh_arm. destruct q; try done. by rewrite Hst, andb_false_r.
  - intros Hk Hs. rewrite (clamp_caps _ _ (caps_handle_request _ q now)).
    unfold since_after, accepts_send in Hs. destruct q; try (apply Hc; [by apply checked_request in Hk|exact Hs]).
    cbn [handle_request] in Hk. destruct (send (w_sup w) owner t now) as [[id|e] s'] eqn:E; cbn in Hk, Hs.
    + exfalso. apply send_accepted in E as (_ & a & j & _ & _ & Ha & _ & Hpl & _).
      revert Hk. unfold power_checked. by rewrite Ha, Hpl.
    + apply Hc; [|done]. by rewrite (send_refused _ _ _ _ _ _ E) in Hk.
Qed.

(** A turn of a knob leaves what was read what it was. *)
Lemma heard_ok_turn_power home r st o p :
  heard_ok home r st o ->
  heard_ok (mk_Home (turn p home.(h_power)) home.(h_break_in)) (mk_Radio p r.(r_break_in)) st o.
Proof.
  destruct st, o; cbn; try done; [by apply owns_turn|]. intros _. right. by left.
Qed.
Lemma heard_ok_turn_break_in home r st o k :
  heard_ok home r st o ->
  heard_ok (mk_Home home.(h_power) (turn k home.(h_break_in))) (mk_Radio r.(r_power) k) st o.
Proof.
  destruct st, o; cbn; try done.
  - intros [H _]. split; [by apply owns_turn|]. right. by left.
  - intros _. right. by left.
Qed.

(** A write of the power is never in flight while a message is being sent. *)
Lemma executed_power s r st a o r' :
  sinv s -> s.(outstanding) = Some st -> action st = Some a -> radio_answers a r o r' ->
  power_checked s = true -> r'.(r_power) = r.(r_power).
Proof.
  intros Hs Ho Ha Hans Hk. apply checked_sending in Hk as [j Hj].
  destruct (si_out _ Hs st Ho) as [Hin _]. unfold in_flight in Hin. rewrite Hj in Hin.
  destruct st; try done; injection Ha as <-; cbn in Hans; try (by rewrite Hans); by destruct Hans as [-> _].
Qed.

Lemma wstep_winv w w' : wworld w -> wstep w w' -> wworld w'.
Proof.
  intros Hww Hstep. destruct Hstep as [w q now|w now|w st a o r' Hout Hact Hno Hans|w o now Hho|w p|w k];
    [by apply request_wworld|destruct Hww as [Hw Hh Hc]..].
  - split; cbn [w_sup w_radio w_home w_heard w_since].
    + by apply next_action_winv.
    + intros o Ho. destruct (Hh o Ho) as (st & Hst & H). exists st. unfold next_action. by rewrite Hst.
    + rewrite (clamp_caps _ _ (caps_next_action _ now)). intros Hk. apply Hc. by apply checked_next in Hk.
  - destruct (executed_winv _ _ _ _ _ _ _ Hw Hout Hact Hans) as [Hw' Hok].
    split; cbn [w_sup w_radio w_home w_heard w_since]; [done| |].
    + intros o' [= <-]. exists st. split_and!; [done|done|]. unfold check_heard.
      destruct st, o; try done. intros _. injection Hact as <-. destruct Hans as [-> H]. by apply H.
    + intros Hk Hs. rewrite (executed_power _ _ _ _ _ _ (wi_struct _ _ _ Hw) Hout Hact Hans Hk). by apply Hc.
  - destruct (Hh o Hho) as (st & Hst & Hok & Hck). split; cbn [w_sup w_radio w_home w_heard w_since].
    + by eapply complete_winv.
    + done.
    + rewrite (clamp_caps _ _ (caps_complete _ o now)). intros Hk Hs.
      destruct (checked_complete _ _ _ _ (wi_struct _ _ _ Hw) Hst Hk) as [?|(m & p & -> & -> & Hle & ->)]; [by apply Hc|].
      cbn in Hck. by rewrite <- (Hck Hs).
  - split; cbn [w_sup w_radio w_home w_heard w_since]; [|intros o Ho|done].
    + destruct Hw as [Hs Hp Hb]. split; [done| |exact Hb]. by eapply reg_turned.
    + destruct (Hh o Ho) as (st & Hst & Hok & _). exists st. split_and!; [done|by apply heard_ok_turn_power|].
      by destruct st, o.
  - split; cbn [w_sup w_radio w_home w_heard w_since]; [|intros o Ho|done].
    + destruct Hw as [Hs Hp Hb]. split; [done|exact Hp|]. by eapply reg_turned.
    + destruct (Hh o Ho) as (st & Hst & Hok & Hck). exists st. split_and!; [done|by apply heard_ok_turn_break_in|done].
Qed.

Lemma reachable_wworld cap cfg w : reachable cap cfg w -> wworld w.
Proof.
  intros [r Hr]. assert (Hi : wworld (initial cap cfg r)) by apply initial_winv.
  induction Hr as [w|w1 w2 w3 Hstep _ IH]; [done|]. apply IH. by eapply wstep_winv.
Qed.
Lemma reachable_winv cap cfg w : reachable cap cfg w -> winv w.(w_home) w.(w_sup) w.(w_radio).
Proof. intros H. by apply ww_inv, (reachable_wworld cap cfg). Qed.

Lemma reachable_caps cap cfg w : reachable cap cfg w -> caps w.(w_sup) = caps (cw_new cap cfg).
Proof.
  intros [r Hr]. apply rtc_ind_r with (P := fun w => caps (w_sup w) = caps (cw_new cap cfg)) in Hr; [done|done|].
  intros w1 w2 _ Hstep IH. destruct Hstep; cbn;
    rewrite ?caps_handle_request, ?caps_next_action, ?caps_complete; done.
Qed.

Lemma reachable_gate cap cfg w : reachable cap cfg w ->
  w.(w_sup).(gate) = cap.(tx_gate) /\ w.(w_sup).(send_text) = cap.(cap_send_text)
  /\ w.(w_sup).(config) = cfg.
Proof. intros Hr%reachable_caps. unfold caps in Hr. by simplify_eq/=. Qed.

(** ** What the radio is left as *)

Lemma idle_home home s r : winv home s r -> phase_of s = PIdle -> given_back home r.
Proof. intros [_ Hp Hb] Hph. split; [exact (reg_idle_cur _ Hp Hph)|exact (reg_idle_cur _ Hb Hph)]. Qed.

Lemma settled_home home s r : winv home s r -> is_settled s = true -> given_back home r.
Proof.
  intros Hw Hset. destruct (settled_fields _ Hset) as (Harm & Ha & _).
  apply (idle_home _ s); [done|]. unfold phase_of. by rewrite Ha, Harm.
Qed.

(** C1. Whenever the supervisor is settled (nothing armed, nothing in flight),
    the radio has been given back: its power and its break-in are each what they
    were when the arm was accepted or what somebody else, at the front panel or
    through another client, has turned them to since, and so exactly what they
    were if nobody touched them.  This holds whatever the radio does with a
    write, acknowledged or not, whichever exchanges fail, whatever is requested
    and turned meanwhile; reads are taken to report the value there is.  An arm
    accepted while an answer is still due to an earlier one counts from that
    earlier one. *)
Theorem settled_radio_restored cap cfg w :
  reachable cap cfg w -> is_settled w.(w_sup) = true ->
  given_back w.(w_home) w.(w_radio)
  /\ (panel_untouched w.(w_home) -> w.(w_radio) = radio_before w.(w_home)).
Proof.
  intros Hr Hset. pose proof (settled_home _ _ _ (reachable_winv _ _ _ Hr) Hset) as H.
  split; [done|by apply given_back_untouched].
Qed.

(** An external PTT is let through only to a radio that has been given back. *)
Lemma unblocked_home cap cfg w :
  reachable cap cfg w -> blocks_external_ptt w.(w_sup) = false -> given_back w.(w_home) w.(w_radio).
Proof.
  intros Hr Hbl. apply (idle_home _ w.(w_sup)); [by eapply reachable_winv|].
  unfold blocks_external_ptt in Hbl. unfold phase_of.
  by destruct (arm_held (w_sup w)), (activity (w_sup w)).
Qed.

(** C3. While the radio is altered, one of the two settings at a value that is
    neither what it was before the arm nor what somebody else turned it to since,
    an external PTT is refused; whatever the radio does with a write,
    acknowledged or not. *)
Theorem altered_radio_blocks_ptt cap cfg w :
  reachable cap cfg w -> ~ given_back w.(w_home) w.(w_radio) -> blocks_external_ptt w.(w_sup) = true.
Proof.
  intros Hr Hne. destruct (blocks_external_ptt (w_sup w)) eqn:Hbl; [done|].
  by destruct Hne; eapply unblocked_home.
Qed.

(** What [next_action] does, from a state with the invariant. *)
Lemma next_action_cases home s r now s' a :
  winv home s r -> next_action s now = (s', Some a) ->
  exists s1 st rest, winv home s1 r /\ s1.(plan) = st :: rest /\ action st = Some a
    /\ s'.(outstanding) = Some st /\ (caps s1 = caps s \/ st = WaitReady).
Proof.
  intros Hw Hna. pose proof (caps_next_action s now) as Hcaps. rewrite Hna in Hcaps. revert Hna.
  unfold next_action. destruct (outstanding s) eqn:Hout; [done|].
  intros Hn. assert (Hn' := next_action_loop_cases home r now 64 (check_timers s now)).
  rewrite Hn in Hn'. destruct Hn' as (_ & s1 & st & rest & Hw1 & Ho1 & Hpl & Hact & Hi & Ho');
    [by apply check_timers_winv|by rewrite check_timers_out|].
  exists s1, st, rest. split_and!; try done. destruct Hi as [->|]; auto.
Qed.

Lemma send_planned_holding s c rest :
  sinv s -> s.(plan) = Send c :: rest -> phase_of s = PArmed.
Proof.
  intros Hs Hpl. pose proof (si_plan _ Hs) as Hp. rewrite Hpl in Hp. cbn in Hp.
  apply andb_true_iff in Hp as [Hp _]. destruct (activity s) as [| |j| |] eqn:Ha; try done.
  apply holding_phase, sinv_held; eauto.
Qed.

Lemma send_planned_checked s c rest :
  sinv s -> s.(outstanding) = None -> s.(plan) = Send c :: rest -> power_checked s = true.
Proof.
  intros Hs Hout Hpl. pose proof (si_plan _ Hs) as Hp. rewrite Hpl in Hp. cbn in Hp.
  apply andb_true_iff in Hp as [Hp _]. destruct (activity s) as [| |j| |] eqn:Ha; try done.
  destruct (si_send _ Hs j Ha) as [[? _]|[[? _]|[(? & ? & _)|(Hc & _ & _)]]]; try congruence.
  unfold power_checked. rewrite Ha, Hout, andb_true_r. apply negb_true_iff. clear -Hc.
  induction (plan s) as [|x p IH]; [done|]. cbn in *. apply andb_true_iff in Hc as [Hx Hc].
  rewrite (IH Hc). by destruct x.
Qed.

(** Where the radio is when text goes out: unless the power was turned since the
    arm it is the clamp; unless it was turned since the message was accepted it
    is at most the clamp; unless the break-in was turned since the arm it is the
    one the radio needs. *)
Definition at_clamp (cap : CwCapability) (home : Home) (since : bool) (r : Radio) : Prop :=
  forall g snd, cap.(tx_gate) = Some g -> cap.(cap_send_text) = Some snd ->
  (home.(h_power).(turned) = [] -> r.(r_power) = g.(low_power_raw))
  /\ (since = false -> r.(r_power) <= g.(low_power_raw))
  /\ (forall k, snd.(requires_break_in) = Some k -> home.(h_break_in).(turned) = [] -> r.(r_break_in) = k).

Lemma loose_or_not {V} (h : owned V) (P : Prop) : P \/ loose h -> h.(turned) = [] -> P.
Proof. intros [?|H] E; [done|by destruct H]. Qed.

Lemma keyed_at_clamp cap cfg w now s' t :
  reachable cap cfg w -> next_action w.(w_sup) now = (s', Some (SendChunk t)) ->
  at_clamp cap w.(w_home) w.(w_since) w.(w_radio).
Proof.
  intros Hr Hna g send Hg Hse. destruct (reachable_gate _ _ _ Hr) as (HG & HS & _).
  pose proof (reachable_wworld _ _ _ Hr) as [Hw _ Hck].
  assert (Hchk : power_checked w.(w_sup) = true).
  { unfold next_action in Hna. destruct (outstanding (w_sup w)) eqn:Hout; [done|].
    pose proof (next_action_loop_cases (w_home w) (w_radio w) now 64 (check_timers (w_sup w) now)) as H.
    rewrite Hna in H. destruct H as (_ & s1 & st & rest & Hw1 & Ho1 & Hpl & Hact & Hi & Ho');
      [by apply check_timers_winv|by rewrite check_timers_out|].
    destruct st; try discriminate Hact. destruct Hi as [->|?]; [|done].
    apply (checked_next _ now). unfold next_action. rewrite Hout, Hna. cbn [fst].
    pose proof (send_planned_checked _ _ _ (wi_struct _ _ _ Hw1) Ho1 Hpl) as Hk.
    unfold power_checked in *. cbn. rewrite Hpl, Ho1 in Hk. cbn in Hk. exact Hk. }
  destruct (next_action_cases _ _ _ _ _ _ Hw Hna) as (s1 & st & rest & Hw1 & Hpl & Hact & _ & Hc).
  destruct st; try discriminate Hact. destruct Hc as [Hc|?]; [|done].
  unfold caps in Hc. injection Hc as Hs1 Hg1 _ _. rewrite HG in Hg1. rewrite HS in Hs1.
  pose proof (send_planned_holding _ _ _ (wi_struct _ _ _ Hw1) Hpl) as Hph.
  split_and!.
  - apply loose_or_not. eapply reg_armed_cur; [exact (wi_power _ _ _ Hw1)|exact Hph|]. unfold power_tgt. by rewrite Hg1, Hg.
  - intros Hs. specialize (Hck Hchk Hs). unfold clamp_of in Hck. by rewrite HG, Hg in Hck.
  - intros k Hk. apply loose_or_not. eapply reg_armed_cur; [exact (wi_break _ _ _ Hw1)|exact Hph|].
    unfold break_tgt. rewrite Hs1, Hse. exact Hk.
Qed.

(** C2. Text is handed to the radio only at the clamp: its power then is the one
    the capability names if nobody else turned it since the arm was accepted,
    and at most that if nobody turned it since this message was accepted; its
    break-in is the one it needs if nobody else turned it since the arm.  Knobs
    may be turned and writes ignored at any time, and reads are taken to report
    the value there is. *)
Theorem keyed_only_at_clamp cap cfg w now s' t :
  reachable cap cfg w -> next_action w.(w_sup) now = (s', Some (SendChunk t)) ->
  at_clamp cap w.(w_home) w.(w_since) w.(w_radio).
Proof. apply keyed_at_clamp. Qed.

(** ** The loop bound of [next_action] *)

Lemma waits_ok_no_double a p : waits_ok a p = true -> no_double_wait p = true.
Proof.
  destruct a; try done. cbn. destruct p as [|st p]; [done|]. cbn [tail].
  assert (Hgen : forall q, forallb (fun st => negb (is_wait st)) q = true ->
    no_double_wait q = true /\ match q with st' :: _ => is_wait st' = false | [] => True end).
  { induction q as [|x q IH]; [done|]. cbn. intros [Hx Hq]%andb_true_iff.
    destruct (IH Hq) as [-> _]. apply negb_true_iff in Hx. by rewrite Hx. }
  intros H. destruct (Hgen p H) as [Hn Hh]. cbn. rewrite Hn, andb_true_r.
  destruct p; [by rewrite andb_false_r|]. by rewrite Hh, andb_false_r.
Qed.

Definition starts_waiting (p : list Step) : nat :=
  match p with st :: _ => if is_wait st then 1 else 0 | [] => 0 end.

(** How many rounds the loop can need. *)
Definition rounds (s : CwSupervisor) : nat :=
  (match s.(activity) with
   | Idle | Arming _ _ _ _ _ => 1
   | Sending _ => 2
   | Stopping _ _ _ _ => 3
   | Restoring _ _ _ _ (Some _) => 3
   | Restoring _ _ _ _ None => 1
   end + starts_waiting s.(plan))%nat.

Lemma rounds_finish s now s' :
  s.(plan) = [] -> finish s now = (s', true) ->
  (rounds s' < rounds s)%nat /\ no_double_wait s'.(plan) = true.
Proof.
  intros Hpl. unfold finish, rounds.
  destruct (activity s) as [|t o c cap w|j|j rs m [|rs' t']|rs t n e [at_|]] eqn:Ha; intros E; simplify_eq.
  - cbn. rewrite Hpl. cbn. split; [lia|done].
  - cbn. rewrite Hpl. cbn. split; [lia|done].
  - set (q := end_job _ _ _ _). destruct (start_restore_fields q rs' t') as (-> & _ & -> & _).
    destruct (restore_plan_ok q rs' t' 0 None None) as [_ Hw%waits_ok_no_double].
    split; [cbn; lia|done].
  - destruct (at_ <=? now) eqn:Hd; [|done]. rewrite plan_restore_eq. set (q := set_activity _ _).
    destruct (restore_plan_ok q rs t n e None) as [_ Hw%waits_ok_no_double].
    cbn [activity plan set_plan]. split; [cbn; lia|done].
Qed.

Lemma next_action_loop_stable now n : forall s,
  (rounds s <= n)%nat -> no_double_wait s.(plan) = true ->
  next_action_loop (S n) s now = next_action_loop n s now.
Proof.
  induction n as [|n IH]; intros s Hr Hnd.
  { exfalso. unfold rounds in Hr. destruct (activity s) as [| | | |? ? ? ? []]; lia. }
  cbn [next_action_loop]. destruct (plan s) as [|st rest] eqn:Hpl.
  - destruct (finish s now) as [s' []] eqn:Hf; [|done].
    destruct (rounds_finish s now s' Hpl Hf). rewrite <- IH by (done || lia). done.
  - destruct st; try done. destruct (waits _ _ _); [done|].
    rewrite <- IH; [done| |].
    + unfold rounds in *. cbn. rewrite Hpl in Hr. cbn in Hr, Hnd.
      destruct rest as [|st' rest]; cbn in *; [lia|]. destruct (is_wait st'); [done|].
      lia.
    + cbn in Hnd |- *. by apply andb_true_iff in Hnd as [_ ?].
Qed.

(** C23. The 64 rounds [next_action] allows itself are never used up: any
    larger bound gives the same answer, so it never returns [None] for lack of
    rounds. *)
Theorem next_action_never_cut cap cfg w now extra :
  reachable cap cfg w -> w.(w_sup).(outstanding) = None ->
  next_action w.(w_sup) now
  = next_action_loop (64 + extra) (check_timers w.(w_sup) now) now.
Proof.
  intros Hr Hout. unfold next_action. rewrite Hout.
  set (s := check_timers (w_sup w) now).
  assert (Hs : sinv s).
  { eapply wi_struct, check_timers_winv; [apply (reachable_winv _ _ _ Hr)|done]. }
  pose proof (waits_ok_no_double _ _ (si_waits _ Hs)) as Hnd.
  assert (Hrd : (rounds s <= 64)%nat).
  { unfold rounds. destruct (activity s) as [| | | |? ? ? ? []], (plan s) as [|st p]; cbn;
      try destruct (is_wait st); lia. }
  revert Hrd. generalize 64%nat. intros N Hrd.
  induction extra as [|k IH]; [by rewrite Nat.add_0_r|].
  rewrite Nat.add_succ_r, (next_action_loop_stable now (N + k) s); [exact IH|lia|exact Hnd].
Qed.

(** A step that is not a wait goes out at once. *)
Lemma next_action_loop_issue n s now st rest :
  s.(plan) = st :: rest -> is_wait st = false -> st <> WaitReady ->
  next_action_loop (S n) s now = (issue s st rest, action st).
Proof. intros Hpl Hw Hr. cbn [next_action_loop]. rewrite Hpl. by destruct st. Qed.

Lemma next_action_loop_finish n s now s' more :
  s.(plan) = [] -> finish s now = (s', more) ->
  next_action_loop (S n) s now = if more then next_action_loop n s' now else (s', None).
Proof. intros Hpl Hf. cbn [next_action_loop]. by rewrite Hpl, Hf. Qed.

Lemma next_action_loop_wait n s now m rest :
  s.(plan) = WaitKeyed m :: rest -> waits s.(keyed_until) now m = false ->
  next_action_loop (S n) s now = next_action_loop n (set_plan s rest) now.
Proof. intros Hpl Hw. cbn [next_action_loop]. by rewrite Hpl, Hw. Qed.

(** ** Abort *)

Lemma stopping_stop_next s j rs m t now :
  s.(activity) = Stopping j rs m t -> s.(outstanding) = None ->
  (exists rest, s.(plan) = Stop :: rest) -> (next_action s now).2 = Some ActStop.
Proof.
  intros Ha Hout [rest Hpl]. unfold next_action. rewrite Hout. unfold check_timers. rewrite Ha.
  by rewrite (next_action_loop_issue 63 s now Stop rest Hpl).
Qed.

(** The answers after which an aborted send's exchange is simply over: right
    shape, the keyer not busy, the power not above the clamp. *)
Definition plain_answer (st : Step) (o : CwOutcome) : bool :=
  match st, o with
  | Status, OutStatus _ _ _ | CheckSpeed, OutStatus _ _ _ => true
  | PowerAtMost max, OutPower p => p <=? max
  | WaitReady, OutReady b => b
  | Send _, Done => true
  | _, _ => false
  end.

(** C4. After an abort the stop is the very next thing on the wire: at once if
    no exchange is in flight, and otherwise right after its answer, provided
    that is of the right kind, reports neither a busy keyer nor a power above
    the clamp, and is not a failure.  After a failure the stop may be lost and
    after a busy keyer delayed ([CwExamples.aborted_chunk_failure_loses_stop],
    [CwExamples.aborted_busy_keyer_delays_stop]). *)
Theorem abort_stop_is_next cap cfg w j t1 t2 t3 :
  reachable cap cfg w -> w.(w_sup).(activity) = Sending j ->
  match w.(w_sup).(outstanding) with
  | None => (next_action (abort w.(w_sup) t1) t3).2 = Some ActStop
  | Some st => forall o, plain_answer st o = true ->
      (next_action (complete (abort w.(w_sup) t1) o t2) t3).2 = Some ActStop
  end.
Proof.
  intros Hr Ha. set (s := w_sup w) in *.
  assert (Hab : abort s t1 = begin_stop s Aborted None StayArmed) by (unfold abort; by rewrite Ha).
  destruct (begin_stop_fields s Aborted None StayArmed j Ha) as ([Hout Hsn Hg Ht Hcf Hsl] & Ha' & Hpl & _).
  rewrite Hab. set (q := begin_stop s Aborted None StayArmed) in *. clearbody q.
  destruct (outstanding s) as [st|] eqn:Ho.
  - intros o Hok. unfold complete. rewrite Hout. fold (clear_out q).
    destruct st, o; try discriminate Hok; cbn [complete_step].
    + eapply stopping_stop_next; unfold on_status; cbn; rewrite Ha'; eauto.
    + cbn in Hok. destruct (Z.ltb_spec max p); [lia|].
      eapply stopping_stop_next; cbn; eauto.
    + destruct ready; [|done]. eapply stopping_stop_next; cbn; eauto.
    + eapply stopping_stop_next; unfold on_speed; cbn; rewrite Ha'; eauto.
    + eapply stopping_stop_next; unfold on_sent; cbn; rewrite Ha'; cbn; eauto.
  - eapply stopping_stop_next; eauto.
Qed.

(** ** Bounds *)

(** The watchdog: a send past its deadline is stopped on the next pump,
    whatever it was waiting for, and the arm is dropped. *)
Theorem watchdog_stops s j now :
  s.(activity) = Sending j -> s.(outstanding) = None -> j.(deadline) <= now ->
  (next_action s now).2 = Some ActStop
  /\ exists m, (next_action s now).1.(activity)
               = Stopping j.(job_id) StopKeyDownCap m (Restore KeyDownCap None).
Proof.
  intros Ha Hout Hd. unfold next_action. rewrite Hout.
  assert (Hct : exists m, check_timers s now = begin_stop s StopKeyDownCap m (Restore KeyDownCap None)).
  { unfold check_timers. rewrite Ha, (proj2 (Z.leb_le _ _) Hd). by eexists. }
  destruct Hct as [m ->].
  destruct (begin_stop_fields s StopKeyDownCap m (Restore KeyDownCap None) j Ha) as (_ & Ha' & Hpl & _).
  rewrite (next_action_loop_issue 63 _ now Stop _ Hpl) by done. split; [done|]. exists m. exact Ha'.
Qed.

(** ** The restored notice *)

Definition says_restored (s : CwSupervisor) : Prop := exists x, Restored x ∈ s.(notices).

Lemma says_restored_note n s :
  (forall x, n <> Restored x) -> says_restored (note n s) -> says_restored s.
Proof.
  intros Hn [x Hx]. exists x. cbn in Hx. apply elem_of_app in Hx as [Hx|Hx]; [done|].
  apply list_elem_of_singleton in Hx. by destruct (Hn x).
Qed.

Lemma start_restore_says s r t : says_restored (start_restore s r t) -> says_restored s.
Proof.
  unfold start_restore. rewrite plan_restore_eq. intros H.
  destruct (arm_held s) as [a|], (id_owed s) as [c|]; try exact H.
  by apply (says_restored_note (IdOwed c r)).
Qed.

Lemma begin_stop_says s r m t : says_restored (begin_stop s r m t) -> says_restored s.
Proof.
  unfold begin_stop. destruct (activity s) as [| |j| |]; try (destruct t; [done|apply start_restore_says]).
  intros [x Hx]. exists x. cbn in Hx. unfold owe_id in Hx. by repeat case_match.
Qed.

Lemma check_timers_says s now : says_restored (check_timers s now) -> says_restored s.
Proof.
  unfold check_timers. repeat case_match; try done; [apply start_restore_says|apply begin_stop_says].
Qed.

Lemma finish_says s now s' more :
  finish s now = (s', more) -> says_restored s' ->
  says_restored s \/ (more = false /\ s'.(arm_held) = None /\ s'.(activity) = Idle).
Proof.
  unfold finish. intros E Hx.
  destruct (activity s) as [|t o c cap w|j|j rs m [|rs' t']|rs t n e [at_|]] eqn:Ha; simplify_eq.
  - by left.
  - left. apply says_restored_note in Hx; [|done]. apply (says_restored_note (Armed o c _)) in Hx; done.
  - left. by apply (says_restored_note (JobEnded j.(job_id) Completed None)) in Hx.
  - left. by apply (says_restored_note (JobEnded j rs m)) in Hx.
  - left. apply start_restore_says in Hx. by apply (says_restored_note (JobEnded j rs m)) in Hx.
  - left. destruct (at_ <=? now); [rewrite plan_restore_eq in Hx|]; done.
  - right. by destruct t.
Qed.

Lemma next_action_loop_says n now : forall s,
  says_restored (next_action_loop n s now).1 ->
  says_restored s \/ phase_of (next_action_loop n s now).1 = PIdle.
Proof.
  induction n as [|n IH]; intros s; cbn [next_action_loop]; [by left|].
  destruct (plan s) as [|st rest].
  - destruct (finish s now) as [s' more] eqn:Hf. destruct more; cbn [fst].
    + intros H. destruct (IH s' H) as [Hs|]; [|by right]. destruct (finish_says _ _ _ _ Hf Hs) as [|(? & _)]; [by left|done].
    + intros H. destruct (finish_says _ _ _ _ Hf H) as [|(_ & Harm & Ha)]; [by left|].
      right. unfold phase_of. by rewrite Ha, Harm.
  - destruct st; try (by left); destruct (waits _ _ _); try (by left).
    exact (IH (set_plan s rest)).
Qed.

(** [Restored] is never announced before the radio has been seen restored:
    when a pump step announces it, the registers have been given back. *)
Theorem restored_notice_is_true cap cfg w now :
  reachable cap cfg w -> ~ says_restored w.(w_sup) ->
  says_restored (next_action w.(w_sup) now).1 -> given_back w.(w_home) w.(w_radio).
Proof.
  intros Hr Hno Hsay. pose proof (reachable_winv _ _ _ Hr) as Hw.
  pose proof (next_action_winv _ _ _ now Hw) as Hw'.
  assert (Hph : phase_of (next_action (w_sup w) now).1 = PIdle).
  { unfold next_action in *. destruct (outstanding (w_sup w)); [done|].
    destruct (next_action_loop_says 64 now _ Hsay) as [H|H]; [|exact H].
    by apply check_timers_says in H. }
  exact (idle_home _ _ _ Hw' Hph).
Qed.

(** ** Restoring completes *)

(** A radio that answers every exchange and does what it is told. *)
Definition ideal_answer (a : CwAction) (r : Radio) : CwOutcome * Radio :=
  match a with
  | ReadStatus => (OutStatus true false (Some 20), r)
  | ReadPower => (OutPower r.(r_power), r)
  | ActSetPower p => (Done, mk_Radio p r.(r_break_in))
  | ReadBreakIn => (OutBreakIn r.(r_break_in), r)
  | ActSetBreakIn k => (Done, mk_Radio r.(r_power) k)
  | ActReady => (OutReady true, r)
  | SendChunk _ | ActStop => (Done, r)
  end.

Lemma ideal_answers a r : radio_answers a r (ideal_answer a r).1 (ideal_answer a r).2.
Proof. destruct a; cbn; auto; split; auto; by intros ? [= <-]. Qed.

(** Up to [n] pump rounds against it, at one instant. *)
Fixpoint drive (n : nat) (now : Z) (s : CwSupervisor) (r : Radio) : CwSupervisor * Radio :=
  match n with
  | O => (s, r)
  | S n =>
      let '(s1, a) := next_action s now in
      match a with
      | None => (s1, r)
      | Some a => let '(o, r1) := ideal_answer a r in drive n now (complete s1 o now) r1
      end
  end.

(** A restore with only its writes and read-backs left. *)
Definition restoring_quiet (s : CwSupervisor) (p : list Step) : Prop :=
  (exists rs t n e, s.(activity) = Restoring rs t n e None) /\ s.(outstanding) = None
  /\ s.(arm_held) = None /\ s.(plan) = p.

Lemma restoring_next s st rest now :
  restoring_quiet s (st :: rest) -> is_wait st = false -> st <> WaitReady ->
  next_action s now = (issue s st rest, action st).
Proof.
  intros ((rs & t & n & e & Ha) & Hout & _ & Hpl) Hw Hr. unfold next_action. rewrite Hout.
  unfold check_timers. rewrite Ha. by rewrite (next_action_loop_issue 63 s now st rest).
Qed.

Lemma restoring_done s now :
  restoring_quiet s [] -> is_settled (next_action s now).1 = true /\ (next_action s now).2 = None
    /\ says_restored (next_action s now).1.
Proof.
  intros ((rs & t & n & e & Ha) & Hout & Harm & Hpl). unfold next_action. rewrite Hout.
  unfold check_timers. rewrite Ha.
  assert (Hf : finish s now = ((finish s now).1, false)) by (unfold finish; by rewrite Ha).
  rewrite (next_action_loop_finish 63 s now _ _ Hpl Hf). cbn [fst snd]. unfold finish. rewrite Ha. cbn [fst].
  split; [|split; [done|]].
  - unfold is_settled, is_live. destruct t; cbn; by rewrite Hpl, Hout.
  - exists rs. destruct t; cbn; rewrite ?elem_of_app, ?list_elem_of_singleton; auto.
Qed.

(** A write and its read-back go through. *)
Lemma drive_power s p rest n now r :
  restoring_quiet s (SetPower p :: VerifyPower p :: rest) ->
  exists s', restoring_quiet s' rest
             /\ drive (2 + n) now s r = drive n now s' (mk_Radio p r.(r_break_in)).
Proof.
  intros Hq. cbn [drive Nat.add]. rewrite (restoring_next _ _ _ _ Hq) by done. cbn [action ideal_answer].
  assert (Hq1 : restoring_quiet (complete (issue s (SetPower p) (VerifyPower p :: rest)) Done now)
    (VerifyPower p :: rest)) by (destruct Hq as (? & ? & ? & ?); done).
  rewrite (restoring_next _ _ _ _ Hq1) by done. cbn [action ideal_answer r_power].
  eexists. split; [|reflexivity]. destruct Hq1 as (Ha & _ & Harm & _).
  unfold complete. cbn [outstanding issue set_outstanding complete_step]. rewrite Z.eqb_refl.
  split_and!; done.
Qed.

Lemma drive_break s k rest n now r :
  restoring_quiet s (SetBreakIn k :: VerifyBreakIn k :: rest) ->
  exists s', restoring_quiet s' rest
             /\ drive (2 + n) now s r = drive n now s' (mk_Radio r.(r_power) k).
Proof.
  intros Hq. cbn [drive Nat.add]. rewrite (restoring_next _ _ _ _ Hq) by done. cbn [action ideal_answer].
  assert (Hq1 : restoring_quiet (complete (issue s (SetBreakIn k) (VerifyBreakIn k :: rest)) Done now)
    (VerifyBreakIn k :: rest)) by (destruct Hq as (? & ? & ? & ?); done).
  rewrite (restoring_next _ _ _ _ Hq1) by done. cbn [action ideal_answer r_break_in].
  eexists. split; [|reflexivity]. destruct Hq1 as (Ha & _ & Harm & _).
  unfold complete. cbn [outstanding issue set_outstanding complete_step].
  rewrite bool_decide_eq_true_2 by done. split_and!; done.
Qed.

Lemma drive_settles s now r n :
  restoring_quiet s [] ->
  is_settled (drive (S n) now s r).1 = true /\ says_restored (drive (S n) now s r).1.
Proof.
  intros Hq. cbn [drive]. destruct (restoring_done s now Hq) as (H1 & H2 & H3).
  destruct (next_action s now) as [s1 a]. cbn in *. by subst a.
Qed.

Lemma drive_writes s now r p k n :
  restoring_quiet s ((match p with Some v => [SetPower v; VerifyPower v] | None => [] end)
                     ++ match k with Some v => [SetBreakIn v; VerifyBreakIn v] | None => [] end) ->
  is_settled (drive (5 + n) now s r).1 = true /\ says_restored (drive (5 + n) now s r).1.
Proof.
  intros Hq. destruct p as [p|], k as [k|]; cbn [app] in Hq.
  - change (5 + n)%nat with (2 + (3 + n))%nat.
    destruct (drive_power _ _ _ (3 + n) now r Hq) as (s1 & Hq1 & ->).
    change (3 + n)%nat with (2 + (1 + n))%nat.
    destruct (drive_break _ _ _ (1 + n) now (mk_Radio p (r_break_in r)) Hq1) as (s2 & Hq2 & ->).
    by apply drive_settles.
  - change (5 + n)%nat with (2 + (3 + n))%nat.
    destruct (drive_power _ _ _ (3 + n) now r Hq) as (s1 & Hq1 & ->). by apply drive_settles.
  - change (5 + n)%nat with (2 + (3 + n))%nat.
    destruct (drive_break _ _ _ (3 + n) now r Hq) as (s1 & Hq1 & ->). by apply drive_settles.
  - by apply drive_settles.
Qed.

(** The writes a restore plans, once its wait is over. *)
Definition restore_writes (s : CwSupervisor) : list Step := tail (restore_plan s).

Lemma restore_writes_shape s :
  exists p k, restore_writes s
    = (match p with Some v => [SetPower v; VerifyPower v] | None => [] end)
      ++ match k with Some v => [SetBreakIn v; VerifyBreakIn v] | None => [] end.
Proof.
  exists (if s.(snap).(power_changed) then s.(snap).(snap_power) else None),
         (if s.(snap).(break_in_changed) then s.(snap).(snap_break_in) else None).
  unfold restore_writes, restore_plan. by destruct (snap s) as [[?|] [?|] [] []].
Qed.

Lemma drive_same_next n now s s' r :
  next_action s now = next_action s' now -> drive (S n) now s r = drive (S n) now s' r.
Proof. intros H. cbn [drive]. by rewrite H. Qed.

Lemma next_action_loop_more now s n m :
  (rounds s <= n)%nat -> no_double_wait s.(plan) = true -> (n <= m)%nat ->
  next_action_loop m s now = next_action_loop n s now.
Proof.
  intros Hr Hnd Hle. induction Hle as [|m Hle IH]; [done|].
  rewrite <- IH. apply next_action_loop_stable; [lia|done].
Qed.

Lemma restoring_quiet_loop s p n now :
  restoring_quiet s p -> (rounds s <= n)%nat -> (n <= 64)%nat -> no_double_wait p = true ->
  next_action_loop n s now = next_action s now.
Proof.
  intros ((rs & t & k & e & Ha) & Hout & Harm & Hpl) Hr Hn Hnd. unfold next_action. rewrite Hout.
  unfold check_timers. rewrite Ha. symmetry. apply next_action_loop_more; [done| |done]. by rewrite Hpl.
Qed.

(** A planned restore whose wait is over is at its writes. *)
Lemma restore_wait_over s now n rs t k e :
  s.(activity) = Restoring rs t k e None -> s.(outstanding) = None -> s.(arm_held) = None ->
  s.(plan) = restore_plan s -> waits s.(keyed_until) now s.(config).(pacing_margin) = false ->
  (4 <= n <= 63)%nat ->
  next_action_loop (S n) s now = next_action (set_plan s (restore_writes s)) now.
Proof.
  intros Ha Hout Harm Hpl Hw Hn. rewrite (next_action_loop_wait n s now _ (restore_writes s) Hpl Hw).
  assert (Hnd : no_double_wait (restore_writes s) = true).
  { unfold restore_writes, restore_plan. by destruct (snap s) as [[?|] [?|] [] []]. }
  apply (restoring_quiet_loop _ (restore_writes s)); [| |lia|done].
  - unfold restoring_quiet. split_and!; try done. eauto.
  - unfold rounds. cbn [activity plan set_plan]. rewrite Ha. unfold starts_waiting.
    destruct (restore_writes s) as [|st l]; [lia|]. destruct (is_wait st); lia.
Qed.

Lemma drive_wworld n now home : forall s r,
  winv home s r -> winv home (drive n now s r).1 (drive n now s r).2.
Proof.
  induction n as [|n IH]; intros s r Hw; cbn [drive]; [done|].
  pose proof (next_action_winv _ _ _ now Hw) as Hw1.
  destruct (next_action s now) as [s1 [a|]] eqn:Hna; cbn [fst] in Hw1; [|done].
  pose proof (ideal_answers a r) as Hans. destruct (ideal_answer a r) as [o r1]. cbn [fst snd] in Hans.
  destruct (next_action_cases _ _ _ _ _ _ Hw Hna) as (_ & st & _ & _ & _ & Hact & Ho & _).
  destruct (executed_winv _ _ _ _ _ _ _ Hw1 Ho Hact Hans) as [Hw2 Hok].
  apply IH. by eapply complete_winv.
Qed.

(** C9. A restore completes: against a radio that answers, a restore that has
    just been planned, or a failed one whose retry is due, needs at most five
    pump rounds once what was keyed has had time to key; the radio has then been
    given back, exactly as it was if nobody turned a knob since the arm, and this
    is announced. *)
Theorem restore_completes cap cfg w now rs t n e retry :
  reachable cap cfg w ->
  w.(w_sup).(activity) = Restoring rs t n e retry -> w.(w_sup).(outstanding) = None ->
  match retry with
  | None => w.(w_sup).(plan) = restore_plan w.(w_sup)
  | Some at_ => w.(w_sup).(plan) = [] /\ at_ <= now
  end ->
  waits w.(w_sup).(keyed_until) now w.(w_sup).(config).(pacing_margin) = false ->
  let '(s, r) := drive 5 now w.(w_sup) w.(w_radio) in
  is_settled s = true /\ says_restored s /\ given_back w.(w_home) r
  /\ (panel_untouched w.(w_home) -> r = radio_before w.(w_home)).
Proof.
  intros Hr Ha Hout Hpl Hwt. pose proof (reachable_winv _ _ _ Hr) as Hw.
  pose proof (si_arm _ (wi_struct _ _ _ Hw)) as Harm. unfold arm_ok in Harm. rewrite Ha in Harm.
  assert (Harm' : (w_sup w).(arm_held) = None) by (by destruct (arm_held (w_sup w))).
  assert (Hq : exists s2, restoring_quiet s2 (restore_writes (w_sup w))
                          /\ next_action (w_sup w) now = next_action s2 now).
  { unfold next_action at 1. rewrite Hout. unfold check_timers. rewrite Ha. destruct retry as [at_|].
    - destruct Hpl as [Hpl Hdue].
      set (s1 := set_activity (set_activity (w_sup w) Idle) (Restoring rs t n e None)).
      assert (Hf : finish (w_sup w) now = (set_plan s1 (restore_plan s1), true)).
      { unfold finish. rewrite Ha. cbn zeta. rewrite (proj2 (Z.leb_le _ _) Hdue). by rewrite plan_restore_eq. }
      rewrite (next_action_loop_finish 63 _ now _ _ Hpl Hf).
      rewrite (restore_wait_over _ now 62 rs t n e); try done; [|lia].
      eexists. split; [|reflexivity]. unfold restoring_quiet. split_and!; try done. eauto.
    - rewrite (restore_wait_over _ now 63 rs t n e); try done; [|lia].
      eexists. split; [|reflexivity]. unfold restoring_quiet. split_and!; try done. eauto. }
  destruct Hq as (s2 & Hq & Hna).
  pose proof (drive_wworld 5 now _ _ _ Hw) as Hwd. revert Hwd.
  rewrite (drive_same_next 4 now _ s2 (w_radio w) Hna).
  destruct (restore_writes_shape (w_sup w)) as (p & k & Hsh). rewrite Hsh in Hq.
  destruct (drive_writes s2 now (w_radio w) p k 0 Hq) as [H1 H2].
  change (5 + 0)%nat with 5%nat in H1, H2.
  destruct (drive 5 now s2 (w_radio w)) as [s r]. cbn [fst snd] in *. intros Hwd. split_and!; try done.
  - exact (settled_home _ _ _ Hwd H1).
  - apply given_back_untouched. exact (settled_home _ _ _ Hwd H1).
Qed.
