(* ===== verification/Rigctl.v ===== *)
(** * Rigctl: the rigctld bridge (cat-rigctl/src/protocol.rs, rigctl.rs,
    ptt_gate.rs)

    Command dispatch against a radio, which is an interface; the capability
    handshake; the line buffer; and the gate that keeps rigctl clients from
    keying the radio while a console holds the CW transmit arm. *)

From Stdlib Require Import Floats.SpecFloat.
From stdpp Require Import relations.
From S2P Require Import Prelude Text Utf8 Morse Timing Capabilities NativeTypes CwSupervisor CwSafety CwTheorems Framework Client Tcp.

(** [RigctlRadio]: each operation returns the radio as it leaves it. *)
Class RigctlRadio (R : Type) : Type := {
  Mode : Type;
  RigError : Type;
  get_vfo_a_hz : R -> R * result Z RigError;
  set_vfo_a_hz : R -> Z -> R * result () RigError;
  get_mode : R -> R * result Mode RigError;
  set_mode : R -> Mode -> R * result () RigError;
  get_split : R -> R * result bool RigError;
  set_split : R -> bool -> R * result () RigError;
  get_rit_hz : R -> R * result Z RigError;
  get_xit_hz : R -> R * result Z RigError;
  get_transmitting : R -> R * result bool RigError;
  transmit : R -> R * result () RigError;
  receive : R -> R * result () RigError;
  unsupported : RigError;
  hamlib_mode_name : Mode -> string;
  hamlib_mode_from_name : text -> option Mode;
  freq_range_hz : Z * Z;
  mode_from_id : ModeId -> option Mode;
  capabilities : option RadioCapabilities }.

(** ** Numbers *)

(** [{}] of a signed integer. *)
Definition show_int (z : Z) : bytes := if z <? 0 then u8 45 :: show_dec (- z) else show_dec z.
Definition text_digit (c : char) : option Z := if (48 <=? c) && (c <=? 57) then Some (c - 48) else None.

(** [str::parse::<u8>]. *)
Fixpoint parse_u8_digits (acc : Z) (t : text) : option Z :=
  match t with
  | [] => Some acc
  | c :: t => d ← text_digit c; let acc := acc * 10 + d in if acc <=? 255 then parse_u8_digits acc t else None
  end.
Definition parse_u8 (t : text) : option Z :=
  match t with
  | [] => None
  | c :: t' => if c =? 43 then match t' with [] => None | _ => parse_u8_digits 0 t' end
               else parse_u8_digits 0 t
  end.

(** A run of digits: its value from [acc], how many there were, the rest. *)
Fixpoint take_digits (acc : Z) (n : nat) (t : text) : Z * nat * text :=
  match t with
  | [] => (acc, n, [])
  | c :: t' => match text_digit c with
               | Some d => take_digits (acc * 10 + d) (S n) t'
               | None => (acc, n, t)
               end
  end.
Definition take_sign (t : text) : bool * text :=
  match t with
  | c :: t' => if c =? 45 then (true, t') else if c =? 43 then (false, t') else (false, t)
  | [] => (false, [])
  end.

(** The nearest [f64] to [m * 10^e], the quotient of two exact integers
    rounded once. *)
Definition decimal_f64 (neg : bool) (m e : Z) : f64 :=
  match m with
  | Z.pos p =>
      if 0 <=? e then binary_normalize 53 1024 (if neg then - (m * 10 ^ e) else m * 10 ^ e) 0 neg
      else SFdiv 53 1024 (S754_finite neg p 0) (S754_finite false (Z.to_pos (10 ^ (- e))) 0)
  | _ => S754_zero neg
  end.

(** [str::parse::<f64>]: a sign, then [inf], [infinity] or [nan] in any case,
    or digits with at most one point, at least one digit, and an exponent. *)
Definition parse_f64 (t : text) : option f64 :=
  let '(neg, t) := take_sign t in
  if eq_ignore_ascii_case t (txt "inf") || eq_ignore_ascii_case t (txt "infinity") then Some (S754_infinity neg)
  else if eq_ignore_ascii_case t (txt "nan") then Some S754_nan
  else
    let '(m, n, t) := take_digits 0 0 t in
    let '(m, n, k, t) :=
      match t with
      | c :: t' => if c =? 46 then let '(m, n', t) := take_digits m n t' in (m, n', (n' - n)%nat, t) else (m, n, 0%nat, t)
      | [] => (m, n, 0%nat, t)
      end in
    if (n =? 0)%nat then None
    else
      match t with
      | [] => Some (decimal_f64 neg m (- Z.of_nat k))
      | c :: t =>
          if (c =? 101) || (c =? 69) then
            let '(eneg, t) := take_sign t in
            let '(x, ne, t) := take_digits 0 0 t in
            match t with
            | [] => if (ne =? 0)%nat then None
                    else Some (decimal_f64 neg m ((if eneg then - x else x) - Z.of_nat k))
            | _ => None
            end
          else None
      end.

(** [hz.round() as u64]: a negative or NaN value becomes zero. *)
Definition round_u64 (x : f64) : Z := F64.round_max0_u64 x.

Example frequency_examples :
  option_map round_u64 (parse_f64 (txt "14074000.000000")) = Some 14074000
  /\ option_map round_u64 (parse_f64 (txt "7.0745e6")) = Some 7074500
  /\ option_map round_u64 (parse_f64 (txt "-5")) = Some 0
  /\ parse_f64 (txt "14.0.1") = None /\ parse_f64 (txt ".") = None.
Proof. split_and!; vm_compute; reflexivity. Qed.

(** ** Dispatch *)

Definition newline : byte := u8 10.
Definition ln (s : string) : bytes := as_bytes s ++ [newline].
Definition RPRT_OK : bytes := ln "RPRT 0".
Definition RPRT_ERR : bytes := ln "RPRT -1".

Definition dump_state_text (min_hz max_hz : Z) (tuning_steps filters : bytes) (rit_hz xit_hz : Z) : bytes :=
  let range := show_dec min_hz ++ as_bytes " " ++ show_dec max_hz ++ ln " -1 -1 -1 -1 -1" ++ ln "0 0 0 0 0 0 0" in
  ln "0" ++ ln "0" ++ ln "0" ++ range ++ range ++ tuning_steps ++ filters
  ++ show_dec rit_hz ++ [newline] ++ ln "0" ++ show_dec xit_hz ++ [newline] ++ ln "0" ++ ln "0" ++ ln "0"
  ++ ln "0x0" ++ ln "0x0" ++ ln "0x0" ++ ln "0x0" ++ ln "0x0" ++ ln "0x0".

(** A list of values as lines, the placeholder if there are none, and the
    terminator. *)
Definition value_lines (l : list Z) (placeholder : string) : bytes :=
  match concat (map (fun v => as_bytes "-1 " ++ show_dec v ++ [newline]) l) with
  | [] => ln placeholder
  | s => s
  end ++ ln "0 0".
Definition dump_state_from_capabilities (c : RadioCapabilities) : bytes :=
  dump_state_text c.(rx_range).(min_hz) c.(rx_range).(max_hz)
    (value_lines c.(tuning_steps_hz) "-1 10") (value_lines (default [] c.(filters).(widths_hz)) "-1 2400")
    (Z.abs (default 0 c.(vfos).(rit_hz))) (Z.abs (default 0 c.(vfos).(xit_hz))).

Section Dispatch.
  Context {R : Type} `{!RigctlRadio R}.

Definition dump_state : bytes :=
  match capabilities with
  | Some caps => dump_state_from_capabilities caps
  | None =>
      let '(lo, hi) := freq_range_hz in
      dump_state_text lo hi (ln "-1 10" ++ ln "0 0") (ln "-1 2400" ++ ln "0 0") 1200 1200
  end.

(** [read_twice!]: a failed read is asked once more. *)
Definition read_twice {A} (call : R -> R * result A RigError) (r : R) : R * result A RigError :=
  let '(r, x) := call r in match x with Ok v => (r, Ok v) | Err _ => call r end.

Definition answer_read {A} (show : A -> bytes) (x : R * result A RigError) : R * bytes :=
  let '(r, v) := x in (r, match v with Ok v => show v | Err _ => RPRT_ERR end).
Definition answer_write (x : R * result () RigError) : R * bytes :=
  let '(r, v) := x in (r, match v with Ok _ => RPRT_OK | Err _ => RPRT_ERR end).

Definition is_cmd (t : text) (s : string) : bool := bool_decide (t = txt s).
Definition keys_on (arg : text) : bool := is_cmd arg "1" || is_cmd arg "2" || is_cmd arg "3".

Definition rig_dispatch (r : R) (line : text) : R * bytes :=
  match split_whitespace line with
  | [] => (r, RPRT_ERR)
  | cmd :: args =>
      if is_cmd cmd "f" then answer_read (fun hz => show_dec hz ++ [newline]) (read_twice get_vfo_a_hz r)
      else if is_cmd cmd "F" then
        match head args ≫= parse_f64 with
        | None => (r, RPRT_ERR)
        | Some x => answer_write (set_vfo_a_hz r (round_u64 x))
        end
      else if is_cmd cmd "m" then
        answer_read (fun m => as_bytes (hamlib_mode_name m) ++ [newline] ++ ln "0") (read_twice get_mode r)
      else if is_cmd cmd "M" then
        match head args with
        | None => (r, RPRT_ERR)
        | Some name => match hamlib_mode_from_name name with
                       | Some m => answer_write (set_mode r m)
                       | None => (r, RPRT_ERR)
                       end
        end
      else if is_cmd cmd "s" then
        answer_read (fun on : bool => if on then ln "1" ++ ln "VFOB" else ln "0" ++ ln "VFOA") (read_twice get_split r)
      else if is_cmd cmd "S" then
        match head args ≫= parse_u8 with
        | None => (r, RPRT_ERR)
        | Some on => answer_write (set_split r (negb (on =? 0)))
        end
      else if is_cmd cmd "j" then answer_read (fun hz => show_int hz ++ [newline]) (read_twice get_rit_hz r)
      else if is_cmd cmd "z" then answer_read (fun hz => show_int hz ++ [newline]) (read_twice get_xit_hz r)
      else if is_cmd cmd "t" then
        answer_read (fun on : bool => if on then ln "1" else ln "0") (read_twice get_transmitting r)
      else if is_cmd cmd "T" then
        match head args with
        | Some a => if keys_on a then answer_write (transmit r)
                    else if is_cmd a "0" then answer_write (receive r) else (r, RPRT_ERR)
        | None => (r, RPRT_ERR)
        end
      else if is_cmd cmd "v" then (r, ln "VFOA")
      else if is_cmd cmd "\chk_vfo" then (r, ln "0")
      else if is_cmd cmd "\dump_state" then (r, dump_state)
      else (r, RPRT_ERR)
  end.
End Dispatch.

(** ** Who can key the transmitter *)

Section Keying.
  Context {R : Type} `{!RigctlRadio R} (P : R -> Prop).

(** [P] is kept by everything a radio does but [transmit]. *)
Record kept_otherwise : Prop := {
  kept_get_vfo : forall r, P r -> P (get_vfo_a_hz r).1;
  kept_set_vfo : forall r hz, P r -> P (set_vfo_a_hz r hz).1;
  kept_get_mode : forall r, P r -> P (get_mode r).1;
  kept_set_mode : forall r m, P r -> P (set_mode r m).1;
  kept_get_split : forall r, P r -> P (get_split r).1;
  kept_set_split : forall r on, P r -> P (set_split r on).1;
  kept_get_rit : forall r, P r -> P (get_rit_hz r).1;
  kept_get_xit : forall r, P r -> P (get_xit_hz r).1;
  kept_get_tx : forall r, P r -> P (get_transmitting r).1;
  kept_receive : forall r, P r -> P (receive r).1 }.

Lemma read_twice_kept {A} (call : R -> R * result A RigError) r :
  (forall r, P r -> P (call r).1) -> P r -> P (read_twice call r).1.
Proof.
  intros Hc Hr. unfold read_twice. pose proof (Hc r Hr) as H. destruct (call r) as [r' [v|e]]; [done|]. by apply Hc.
Qed.
Lemma answer_read_kept {A} (show : A -> bytes) x : P x.1 -> P (answer_read show x).1.
Proof. by destruct x. Qed.
Lemma answer_write_kept x : P x.1 -> P (answer_write x).1.
Proof. by destruct x. Qed.

(** A line that asks for the transmitter. *)
Definition asks_to_key (line : text) : bool :=
  match split_whitespace line with
  | cmd :: a :: _ => is_cmd cmd "T" && keys_on a
  | _ => false
  end.

Lemma rig_dispatch_kept r line :
  kept_otherwise -> P r -> (asks_to_key line = true -> P (transmit r).1) -> P (rig_dispatch r line).1.
Proof.
  intros [] Hr. unfold asks_to_key, rig_dispatch. destruct (split_whitespace line) as [|cmd args]; [done|].
  intros Hk.
  repeat match goal with
  | |- P (if is_cmd cmd ?s then _ else _).1 => destruct (is_cmd cmd s) eqn:?
  | |- P (match ?x with Some _ => _ | None => _ end).1 => destruct x eqn:?; try done
  end; try done; try (by apply answer_read_kept, read_twice_kept); try (apply answer_write_kept; by auto).
  destruct args as [|a args]; [done|]. simplify_eq/=.
  match goal with |- context [keys_on ?x] => destruct (keys_on x) eqn:Ha end;
    [|case_match; [apply answer_write_kept; by auto|done]].
  by apply answer_write_kept, Hk.
Qed.
End Keying.

(** Only [T 1], [T 2] and [T 3] key: whatever line a client sends, unless
    its command is [T] with one of those arguments, anything the radio keeps
    under its other operations, such as being unkeyed, is kept. *)
Theorem only_ptt_lines_key {R} `{!RigctlRadio R} (P : R -> Prop) r line :
  kept_otherwise P -> P r -> asks_to_key line = false -> P (rig_dispatch r line).1.
Proof. intros HP Hr Hk. apply rig_dispatch_kept; [done|done|congruence]. Qed.

(** ** The PTT gate *)

(** [NativeShared]'s slot for the supervisor, behind its lock. *)
Inductive CwSlot : Type := Poisoned | Absent | Present (s : CwSupervisor).
(** [cw_blocks_external_ptt]: a poisoned lock fails closed. *)
Definition cw_blocks_external_ptt (slot : CwSlot) : bool :=
  match slot with Poisoned => true | Absent => false | Present s => blocks_external_ptt s end.

Record PttGate (R : Type) : Type := mk_PttGate { inner : R; shared : CwSlot }.
Arguments mk_PttGate {R}.
Arguments inner {R}.
Arguments shared {R}.

(** Every operation but [transmit] is the wrapped radio's. *)
Definition through {R A} (g : PttGate R) (x : R * A) : PttGate R * A := (mk_PttGate x.1 g.(shared), x.2).
(** [transmit] looks at the supervisor once and then awaits the wrapped radio;
    [shared] is the slot at that look.  What may happen in between is in
    [gate_step] below. *)
Definition gate_admits {R} (g : PttGate R) : bool := negb (cw_blocks_external_ptt g.(shared)).
Definition gate_transmit {R} `{!RigctlRadio R} (g : PttGate R) : PttGate R * result () (RigError (R := R)) :=
  if gate_admits g then through g (transmit g.(inner)) else (g, Err unsupported).

#[export] Instance ptt_gate_radio {R} `{!RigctlRadio R} : RigctlRadio (PttGate R) := {|
  Mode := Mode (R := R);
  RigError := RigError (R := R);
  get_vfo_a_hz g := through g (get_vfo_a_hz g.(inner));
  set_vfo_a_hz g hz := through g (set_vfo_a_hz g.(inner) hz);
  get_mode g := through g (get_mode g.(inner));
  set_mode g m := through g (set_mode g.(inner) m);
  get_split g := through g (get_split g.(inner));
  set_split g on := through g (set_split g.(inner) on);
  get_rit_hz g := through g (get_rit_hz g.(inner));
  get_xit_hz g := through g (get_xit_hz g.(inner));
  get_transmitting g := through g (get_transmitting g.(inner));
  transmit := gate_transmit;
  receive g := through g (receive g.(inner));
  unsupported := unsupported;
  hamlib_mode_name := hamlib_mode_name;
  hamlib_mode_from_name := hamlib_mode_from_name;
  freq_range_hz := freq_range_hz (R := R);
  mode_from_id := mode_from_id;
  capabilities := capabilities (R := R) |}.

(** A slot whose supervisor, reached by the CW loop, has the radio altered. *)
Definition altered_slot cap cfg (slot : CwSlot) : Prop :=
  exists w, reachable cap cfg w /\ ~ given_back w.(w_home) w.(w_radio) /\ slot = Present w.(w_sup).

Lemma altered_slot_blocks cap cfg slot : altered_slot cap cfg slot -> cw_blocks_external_ptt slot = true.
Proof.
  intros (w & Hr & Hne & ->). cbn [cw_blocks_external_ptt].
  destruct (blocks_external_ptt w.(w_sup)) eqn:Hb; [done|]. by destruct Hne; eapply unblocked_home.
Qed.

Lemma kept_through_gate {R} `{!RigctlRadio R} (P : R -> Prop) :
  kept_otherwise P -> kept_otherwise (fun g : PttGate R => P g.(inner)).
Proof. intros []. split; intros []; cbn; auto. Qed.

(** A line that asks for the transmitter, looked at in one go: it is refused, or
    the wrapped radio's [transmit] runs. *)
Lemma gate_dispatch_keying {R} `{!RigctlRadio R} (r : R) slot line :
  asks_to_key line = true ->
  (rig_dispatch (mk_PttGate r slot) line).1.(inner)
  = if gate_admits (mk_PttGate r slot) then (transmit r).1 else r.
Proof.
  unfold asks_to_key, rig_dispatch. destruct (split_whitespace line) as [|cmd [|a args]]; try done.
  intros [Hc Ha]%andb_true_iff. unfold is_cmd in Hc. apply bool_decide_eq_true in Hc as ->. cbn [head].
  repeat match goal with |- context [is_cmd (txt "T") ?s] =>
    let b := eval vm_compute in (is_cmd (txt "T") s) in change (is_cmd (txt "T") s) with b end.
  cbn iota. rewrite Ha. cbn [transmit ptt_gate_radio]. unfold gate_transmit. destruct (gate_admits _); [|done].
  cbn. by destruct (transmit r).
Qed.

(** *** The gate and the CW loop, side by side

    The look at the supervisor and the call it lets through are two steps, and
    the CW loop may go on in between.  The world remembers, for each [transmit]
    that reached the radio and for the one on its way, the CW loop's world at
    the look that let it through. *)
Record GateWorld (R : Type) : Type := mk_GateWorld {
  gw_cw : World; gw_rig : R; gw_let : option World; gw_keyings : list World }.
Arguments mk_GateWorld {R}.
Arguments gw_cw {R}.
Arguments gw_rig {R}.
Arguments gw_let {R}.
Arguments gw_keyings {R}.

Inductive gate_step {R} `{!RigctlRadio R} : GateWorld R -> GateWorld R -> Prop :=
| gs_cw w w' r l ks : wstep w w' -> gate_step (mk_GateWorld w r l ks) (mk_GateWorld w' r l ks)
| gs_line w r ks t : asks_to_key t = false ->
    gate_step (mk_GateWorld w r None ks)
      (mk_GateWorld w (rig_dispatch (mk_PttGate r (Present w.(w_sup))) t).1.(inner) None ks)
| gs_look w r ks t : asks_to_key t = true ->
    gate_step (mk_GateWorld w r None ks)
      (mk_GateWorld w r (if gate_admits (mk_PttGate r (Present w.(w_sup))) then Some w else None) ks)
| gs_transmit w r w0 ks :
    gate_step (mk_GateWorld w r (Some w0) ks) (mk_GateWorld w (transmit r).1 None (w0 :: ks)).

(** The radio had been given back, and nobody held or wanted the arm. *)
Definition free_to_key cap cfg (w : World) : Prop :=
  reachable cap cfg w /\ w.(w_sup).(arm_held) = None /\ w.(w_sup).(activity) = Idle
  /\ given_back w.(w_home) w.(w_radio).

Lemma admits_free {R} cap cfg (r : R) w :
  reachable cap cfg w -> gate_admits (mk_PttGate r (Present w.(w_sup))) = true -> free_to_key cap cfg w.
Proof.
  unfold gate_admits. cbn. intros Hr Hb%negb_true_iff. split; [done|].
  assert (w.(w_sup).(arm_held) = None /\ w.(w_sup).(activity) = Idle) as [? ?].
  { unfold blocks_external_ptt in Hb. by destruct (arm_held (w_sup w)), (activity (w_sup w)). }
  split_and!; [done|done|by eapply unblocked_home].
Qed.

(** C24. A rigctl client keys only a radio the CW loop has given back: however
    its lines, the CW loop and the front panel interleave, the CW loop and even
    a new arm going on between the gate's look and the call it lets through,
    every [transmit] that reaches the radio was let through by a look at a
    moment when nobody held or was being given the arm and the radio's power and
    break-in had been given back; and as long as none has, anything the radio
    keeps under its other operations is kept. *)
Theorem rigctl_keys_only_given_back {R} `{!RigctlRadio R} (P : R -> Prop) cap cfg rd r0 (g : GateWorld R) :
  kept_otherwise P -> P r0 -> rtc gate_step (mk_GateWorld (initial cap cfg rd) r0 None []) g ->
  Forall (free_to_key cap cfg) g.(gw_keyings) /\ (g.(gw_keyings) = [] -> P g.(gw_rig)).
Proof.
  intros HP H0 Hr.
  enough (Hi : reachable cap cfg g.(gw_cw) /\ Forall (free_to_key cap cfg) (g.(gw_keyings))
    /\ (forall w, g.(gw_let) = Some w -> free_to_key cap cfg w) /\ (g.(gw_keyings) = [] -> P g.(gw_rig)))
    by (destruct Hi as (_ & ? & _ & ?); done).
  revert Hr. apply (rtc_ind_r (fun g : GateWorld R => reachable cap cfg g.(gw_cw)
    /\ Forall (free_to_key cap cfg) g.(gw_keyings)
    /\ (forall w, g.(gw_let) = Some w -> free_to_key cap cfg w) /\ (g.(gw_keyings) = [] -> P g.(gw_rig)))).
  { split_and!; try done. by exists rd. }
  intros g1 g2 _ Hs (Hc & Hk & Hl & Hp). destruct Hs as [w w' r l ks Hw|w r ks t Ht|w r ks t Ht|w r w0 ks]; cbn in *.
  - split_and!; try done. destruct Hc as [r1 Hc]. exists r1. by eapply rtc_r.
  - split_and!; try done. intros E. apply (rig_dispatch_kept (fun g : PttGate R => P g.(inner)));
      [by apply kept_through_gate|by apply Hp|congruence].
  - split_and!; try done. intros w' E. destruct (gate_admits _) eqn:Ha; [|done]. injection E as <-. by eapply admits_free.
  - split_and!; try done. constructor; [by apply Hl|done].
Qed.

(** A radio that is a keyed flag and a frequency. *)
Record ToyRadio : Type := mk_ToyRadio { keyed : bool; frequency : Z }.
#[export] Instance toy_radio : RigctlRadio ToyRadio := {|
  Mode := (); RigError := ();
  get_vfo_a_hz r := (r, Ok r.(frequency));
  set_vfo_a_hz r hz := (mk_ToyRadio r.(keyed) hz, Ok tt);
  get_mode r := (r, Ok tt); set_mode r _ := (r, Ok tt);
  get_split r := (r, Err tt); set_split r _ := (r, Err tt);
  get_rit_hz r := (r, Err tt); get_xit_hz r := (r, Err tt);
  get_transmitting r := (r, Ok r.(keyed));
  transmit r := (mk_ToyRadio true r.(frequency), Ok tt);
  receive r := (mk_ToyRadio false r.(frequency), Ok tt);
  unsupported := tt; hamlib_mode_name _ := "USB"%string; hamlib_mode_from_name _ := Some tt;
  freq_range_hz := (500000, 60000000); mode_from_id _ := None; capabilities := None |}.
Definition unkeyed (r : ToyRadio) : Prop := r.(keyed) = false.
Lemma unkeyed_kept : kept_otherwise unkeyed.
Proof. split; try done; intros r *; by unfold unkeyed; cbn. Qed.

Lemma only_ptt_lines_key_witness :
  unkeyed (rig_dispatch (mk_ToyRadio false 7074000) (txt "F 14074000.000000")).1.
Proof.
  apply (only_ptt_lines_key unkeyed (mk_ToyRadio false 7074000) (txt "F 14074000.000000"));
    [exact unkeyed_kept|reflexivity|vm_compute; reflexivity].
Defined.

Example rig_dispatch_examples :
  rig_dispatch (mk_ToyRadio false 7074000) (txt "F 14074000.000000") = (mk_ToyRadio false 14074000, RPRT_OK)
  /\ rig_dispatch (mk_ToyRadio false 7074000) (txt "f") = (mk_ToyRadio false 7074000, ln "7074000")
  /\ rig_dispatch (mk_ToyRadio false 7074000) (txt "T 3") = (mk_ToyRadio true 7074000, RPRT_OK)
  /\ rig_dispatch (mk_ToyRadio false 7074000) (txt "T on") = (mk_ToyRadio false 7074000, RPRT_ERR).
Proof. split_and!; vm_compute; reflexivity. Qed.

(** ** Lines *)

Definition MAX_LINE_LEN : nat := 512.

(** [LineSplitter]: its buffer.  A line and what follows its newline. *)
Fixpoint split_newline (l : bytes) : option (bytes * bytes) :=
  match l with
  | [] => None
  | b :: l => if bool_decide (b = newline) then Some ([], l)
              else '(x, r) ← split_newline l; Some (b :: x, r)
  end.
Definition carriage_return : byte := u8 13.
Definition trim_cr (l : bytes) : bytes :=
  match rev l with b :: r => if bool_decide (b = carriage_return) then rev r else l | [] => l end.
Definition try_take_line (buf : bytes) : option (text * bytes) :=
  '(x, r) ← split_newline buf; Some (from_utf8_lossy (trim_cr x), r).
Definition is_over_limit (buf : bytes) : bool := (MAX_LINE_LEN <? length buf)%nat.
Definition take_final_partial_line (buf : bytes) : option text :=
  match buf with [] => None | _ => Some (from_utf8_lossy buf) end.

Inductive LineError : Type := LineIo (e : IoError) | LineTooLong.

Section Lines.
  Context {T : Type} `{!TcpStream T} {R : Type} `{!RigctlRadio R}.

(** [read_line]: the stream, the buffer and the outcome. *)
Fixpoint read_line (fuel : nat) (s : T) (buf : bytes) : option (T * bytes * result (option text) LineError) :=
  match fuel with
  | O => None
  | S fuel =>
      match try_take_line buf with
      | Some (line, buf) => Some (s, buf, Ok (Some line))
      | None =>
          if is_over_limit buf then Some (s, buf, Err LineTooLong)
          else
            let '(s, r) := read s 4096 in
            match r with
            | Err e => Some (s, buf, Err (LineIo e))
            | Ok [] => Some (s, [], Ok (take_final_partial_line buf))
            | Ok chunk => read_line fuel s (buf ++ chunk)
            end
      end
  end.

(** [handle_connection], for at most [k] lines: the stream and the radio as
    it leaves them. *)
Fixpoint handle_connection (k fuel : nat) (s : T) (buf : bytes) (r : R) : option (T * R) :=
  match k with
  | O => None
  | S k =>
      '(s, buf, x) ← read_line fuel s buf;
      match x with
      | Ok (Some line) =>
          let trimmed := trim line in
          if bool_decide (trimmed = []) then handle_connection k fuel s buf r
          else if eq_ignore_ascii_case trimmed (txt "q") then Some (s, r)
          else
            let '(r, response) := rig_dispatch r trimmed in
            let '(s, w) := write_all s response in
            match w with
            | Err _ => Some (s, r)
            | Ok _ => handle_connection k fuel s buf r
            end
      | Ok None | Err _ => Some (s, r)
      end
  end.

(** What a client that sends [lines] should see: a reply to each in turn, up
    to the one that says [q]; blank lines are skipped. *)
Fixpoint rig_session (r : R) (lines : list text) : R * bytes :=
  match lines with
  | [] => (r, [])
  | line :: lines =>
      let t := trim line in
      if bool_decide (t = []) then rig_session r lines
      else if eq_ignore_ascii_case t (txt "q") then (r, [])
      else let '(r, a) := rig_dispatch r t in let '(r, rest) := rig_session r lines in (r, a ++ rest)
  end.

(** The lines of a byte stream, the last one with or without its newline. *)
Definition line_bytes (l : bytes) : Prop := Forall (fun b => b <> newline) l /\ (length l <= MAX_LINE_LEN)%nat.
Definition stream_of (lines : list bytes) (last : bytes) : bytes :=
  concat (map (fun l => l ++ [newline]) lines) ++ last.

Lemma split_newline_line l r : Forall (fun b => b <> newline) l -> split_newline (l ++ newline :: r) = Some (l, r).
Proof.
  induction l as [|b l IH]; intros Hl; cbn [split_newline app].
  - by rewrite bool_decide_eq_true_2.
  - apply Forall_cons_1 in Hl as [Hb Hl]. rewrite bool_decide_eq_false_2 by done. by rewrite IH.
Qed.
Lemma split_newline_none l : Forall (fun b => b <> newline) l -> split_newline l = None.
Proof.
  induction l as [|b l IH]; intros Hl; [done|]. apply Forall_cons_1 in Hl as [Hb Hl]. cbn [split_newline].
  rewrite bool_decide_eq_false_2 by done. by rewrite IH.
Qed.

Context `{!TcpStreamLaws T}.

(** What is buffered and what is still to come agree on the first line: the
    loop returns it, and the rest stays. *)
Lemma read_line_line fuel : forall s buf c l rest,
  delivers s c -> patience s = 0%nat -> line_bytes l -> buf ++ c = l ++ newline :: rest ->
  (length c < fuel)%nat ->
  exists s' buf' c', read_line fuel s buf = Some (s', buf', Ok (Some (from_utf8_lossy (trim_cr l))))
    /\ delivers s' c' /\ patience s' = 0%nat /\ sent s' = sent s /\ buf' ++ c' = rest
    /\ (length c' <= length c)%nat.
Proof.
  induction fuel as [|fuel IH]; intros s buf c l rest Hd Hp Hl E Hf; [lia|]. cbn [read_line]. unfold try_take_line.
  destruct (decide (length l < length buf)%nat) as [Hb|Hb].
  - assert (Hbuf : exists b', buf = l ++ newline :: b' /\ b' ++ c = rest).
    { exists (drop (S (length l)) buf).
      assert (Ht : take (S (length l)) (buf ++ c) = take (S (length l)) (l ++ newline :: rest)) by by rewrite E.
      rewrite take_app_le in Ht by lia. replace (S (length l)) with (length l + 1)%nat in * by lia.
      rewrite take_app_add in Ht. cbn in Ht.
      assert (Hdr : drop (length l + 1) (buf ++ c) = drop (length l + 1) (l ++ newline :: rest)) by by rewrite E.
      rewrite drop_app_le, drop_app_add in Hdr by lia. cbn in Hdr. rewrite drop_0 in Hdr.
      split; [|done]. rewrite <- (take_drop (length l + 1) buf) at 1. rewrite Ht, <- app_assoc. done. }
    destruct Hbuf as (b' & -> & Hr). rewrite split_newline_line by (by destruct Hl). cbn.
    exists s, b', c. split_and!; done.
  - assert (Hbuf : exists l2, l = buf ++ l2 /\ c = l2 ++ newline :: rest).
    { exists (drop (length buf) l). apply (f_equal (take (length buf))) in E as Et.
      apply (f_equal (drop (length buf))) in E as Ed.
      rewrite take_app_length, take_app_le in Et by lia. rewrite drop_app_length, drop_app_le in Ed by lia.
      split; [|done]. rewrite Et at 1. by rewrite take_drop. }
    destruct Hbuf as (l2 & -> & ->). destruct Hl as [Hnl Hlen]. apply Forall_app in Hnl as [Hn1 Hn2].
    rewrite length_app in Hlen. rewrite split_newline_none by done. cbn [mbind option_bind].
    unfold is_over_limit. destruct (Nat.ltb_spec MAX_LINE_LEN (length buf)); [lia|].
    destruct (read_law s _ 4096 Hd ltac:(lia)) as (s' & Hst & [(_ & _ & Hlt)|[(Hc & _)|(chunk & c' & Ec & Hn & -> & Hd' & Hp')]]);
      [lia|by destruct l2|].
    destruct chunk as [|b chunk]; [cbn in Hn; lia|]. set (ch := b :: chunk) in *.
    destruct (IH s' (buf ++ ch) c' (buf ++ l2) rest Hd') as (s2 & buf2 & c2 & E2 & Hd2 & Hp2 & Hs2 & Hr2 & Hl2).
    + lia.
    + split; [by apply Forall_app|rewrite length_app; lia].
    + rewrite <- !app_assoc. by rewrite <- Ec.
    + rewrite Ec, length_app in Hf. cbn in Hf. lia.
    + exists s2, buf2, c2. split_and!; try done; [by rewrite Hs2|]. rewrite Ec, length_app. lia.
Qed.

(** At the end of the stream the rest of the buffer is one last line. *)
Lemma read_line_end fuel : forall s buf c,
  delivers s c -> patience s = 0%nat -> line_bytes (buf ++ c) -> (length c + 1 < fuel)%nat ->
  exists s', read_line fuel s buf = Some (s', [], Ok (take_final_partial_line (buf ++ c)))
    /\ delivers s' [] /\ patience s' = 0%nat /\ sent s' = sent s.
Proof.
  induction fuel as [|fuel IH]; intros s buf c Hd Hp [Hn Hl] Hf; [lia|]. cbn [read_line]. unfold try_take_line.
  apply Forall_app in Hn as [Hn1 Hn2]. rewrite split_newline_none by done. cbn [mbind option_bind].
  rewrite length_app in Hl. unfold is_over_limit. destruct (Nat.ltb_spec MAX_LINE_LEN (length buf)); [lia|].
  destruct (read_law s _ 4096 Hd ltac:(lia)) as (s' & Hst & [(_ & _ & Hlt)|[(-> & -> & Hd' & Hp')|(chunk & c' & -> & Hk & -> & Hd' & Hp')]]).
  - lia.
  - exists s'. rewrite app_nil_r. split_and!; [done|done|lia|done].
  - destruct chunk as [|b chunk]; [cbn in Hk; lia|]. rewrite app_assoc, <- Hst. apply IH; [done|lia| |].
    + apply Forall_app in Hn2 as [Hn2 Hn3]. rewrite length_app in Hl.
      split; [by rewrite !Forall_app|rewrite !length_app; lia].
    + rewrite length_app in Hf. cbn in Hf. lia.
Qed.

(** The texts of the lines of a stream: the carriage return goes from a
    terminated line only. *)
Definition line_texts (lines : list bytes) (last : bytes) : list text :=
  map (fun l => from_utf8_lossy (trim_cr l)) lines ++ option_list (take_final_partial_line last).

(** The connection from some state on does what the session says. *)
Definition serves (k fuel : nat) (s : T) (buf : bytes) (r : R) (texts : list text) : Prop :=
  exists s', handle_connection k fuel s buf r = Some (s', (rig_session r texts).1)
    /\ sent s' = sent s ++ (rig_session r texts).2.

(** One line more: it is skipped, ends the connection, or is answered. *)
Lemma serves_line k fuel s s1 buf b1 c r line texts :
  read_line fuel s buf = Some (s1, b1, Ok (Some line)) -> sent s1 = sent s ->
  delivers s1 c -> patience s1 = 0%nat ->
  (forall s2 r2, delivers s2 c -> patience s2 = 0%nat -> serves k fuel s2 b1 r2 texts) ->
  serves (S k) fuel s buf r (line :: texts).
Proof.
  intros E Hs Hd Hp Hrest. unfold serves. cbn [handle_connection rig_session]. rewrite E, <- Hs. cbn [mbind option_bind].
  case_bool_decide; [by apply Hrest|].
  destruct (eq_ignore_ascii_case _ _); [exists s1; split; [done|by rewrite app_nil_r]|].
  destruct (rig_dispatch r (trim line)) as [r1 a].
  destruct (write_all_law s1 c a Hd) as (s2 & -> & Hs2 & Hd2 & Hp2).
  destruct (Hrest s2 r1 Hd2 ltac:(lia)) as (s3 & E3 & Hs3). exists s3. rewrite E3, Hs3, Hs2.
  destruct (rig_session r1 texts). split; [done|]. by rewrite <- app_assoc.
Qed.

Lemma serves_end k fuel s r last buf c :
  line_bytes last -> patience s = 0%nat -> delivers s c -> buf ++ c = last -> (length c + 1 < fuel)%nat ->
  (2 <= k)%nat -> serves k fuel s buf r (line_texts [] last).
Proof.
  assert (Hnil : forall k s r, (1 <= k)%nat -> (1 < fuel)%nat -> delivers s [] -> patience s = 0%nat ->
    serves k fuel s [] r []).
  { intros [|k0] s0 r0 Hk Hf Hd Hp; [lia|].
    destruct (read_line_end fuel s0 [] [] Hd Hp) as (s1 & E1 & _ & _ & Hs1);
      [split; [constructor|cbn; lia]|cbn; lia|].
    exists s1. cbn [handle_connection]. rewrite E1. cbn. by rewrite app_nil_r. }
  intros Hl Hp Hd <- Hf Hk. destruct (read_line_end fuel s buf c Hd Hp Hl Hf) as (s1 & E1 & Hd1 & Hp1 & Hs1).
  unfold line_texts. cbn [map app]. destruct k as [|k]; [lia|].
  destruct (take_final_partial_line (buf ++ c)) as [line|]; cbn [option_list].
  - eapply serves_line; [exact E1|done|done|done|]. intros. apply Hnil; [lia|lia|done|done].
  - exists s1. cbn [handle_connection]. rewrite E1. cbn. by rewrite app_nil_r.
Qed.

(** C25. A rigctl connection, from bytes to bytes: whatever lines of at most 512
    bytes a client sends, terminated by a newline or a carriage return and a
    newline, the last one possibly by hanging up, and however the network cuts
    them, the connection dispatches exactly those lines in order up to a [q],
    skipping blank ones, leaves the radio as those commands leave it, and
    writes their replies in order and nothing else. *)
Theorem rigctl_connection_serves fuel lines last : forall (s : T) (r : R),
  Forall line_bytes lines -> line_bytes last -> patience s = 0%nat ->
  delivers s (stream_of lines last) -> (length (stream_of lines last) + 1 < fuel)%nat ->
  exists s', handle_connection (length lines + 2) fuel s [] r = Some (s', (rig_session r (line_texts lines last)).1)
    /\ sent s' = sent s ++ (rig_session r (line_texts lines last)).2.
Proof.
  enough (H : forall s buf c r, Forall line_bytes lines -> line_bytes last -> patience s = 0%nat ->
    delivers s c -> buf ++ c = stream_of lines last -> (length c + 1 < fuel)%nat ->
    serves (length lines + 2) fuel s buf r (line_texts lines last)).
  { intros s r Hls Hlast Hp Hd Hf. by apply (H s [] (stream_of lines last) r). }
  induction lines as [|l lines IH]; intros s buf c r Hls Hlast Hp Hd E Hf; [by eapply serves_end|].
  apply Forall_cons_1 in Hls as [Hl Hls].
  assert (E' : buf ++ c = l ++ newline :: stream_of lines last).
  { rewrite E. unfold stream_of. cbn [map concat]. by rewrite <- !app_assoc. }
  destruct (read_line_line fuel s buf c l _ Hd Hp Hl E' ltac:(lia)) as (s1 & b1 & c1 & E1 & Hd1 & Hp1 & Hs1 & Er & Hlen).
  cbn [length Nat.add]. unfold line_texts. cbn [map app].
  eapply serves_line; [exact E1|done|exact Hd1|done|]. intros s2 r2 Hd2 Hp2.
  by apply (IH s2 b1 c1 r2); [| | | | |lia].
Qed.
End Lines.

Lemma rigctl_connection_serves_witness :
  exists s', handle_connection 3 30 (mk_Segments [Some (as_bytes "F 7"); Some (map u8 [48; 13; 10; 102])] []) []
      (mk_ToyRadio false 1) = Some (s', mk_ToyRadio false 70)
    /\ sent s' = RPRT_OK ++ ln "70".
Proof.
  assert (E : rig_session (mk_ToyRadio false 1) (line_texts [as_bytes "F 70" ++ [carriage_return]] (as_bytes "f"))
    = (mk_ToyRadio false 70, RPRT_OK ++ ln "70")) by (vm_compute; reflexivity).
  destruct (rigctl_connection_serves 30 [as_bytes "F 70" ++ [carriage_return]] (as_bytes "f")
           (mk_Segments [Some (as_bytes "F 7"); Some (map u8 [48; 13; 10; 102])] []) (mk_ToyRadio false 1))
    as (s' & E1 & Es).
  - constructor; [|constructor]. split; [repeat constructor; discriminate|vm_compute; lia].
  - split; [repeat constructor; discriminate|vm_compute; lia].
  - reflexivity.
  - split; [repeat constructor; discriminate|vm_compute; reflexivity].
  - vm_compute. lia.
  - exists s'. rewrite E in E1, Es. split; [exact E1|exact Es].
Defined.
