(* ===== verification/CommandLine.v ===== *)
(** * CommandLine: what an operator can ask of a radio
    (cat-ui/src/command.rs, quick.rs, workspace.rs, band.rs)

    The typed command line, the quick bar, the tabs and the amateur bands, all
    derived from the capability document the server publishes. *)

From S2P Require Import Prelude Text Timing Capabilities NativeTypes Layout Installation NativeMessages NativeSession.
From Stdlib Require DecimalN DecimalPos.
From S2P Require Rigctl Callsign.
From S2P Require Import Fixtures.

(** ** Numbers *)

(** The digits of [str::parse], each step checked against the type's bound. *)
Fixpoint parse_digits (max acc : Z) (t : text) : option Z :=
  match t with
  | [] => Some acc
  | c :: t =>
      match Rigctl.text_digit c with
      | None => None
      | Some d => let acc := acc * 10 + d in if acc <=? max then parse_digits max acc t else None
      end
  end.
Definition parse_positive (max : Z) (t : text) : option Z :=
  match t with [] => None | _ => parse_digits max 0 t end.
Definition parse_unsigned (max : Z) (t : text) : option Z :=
  match t with c :: t' => parse_positive max (if c =? 43 then t' else t) | [] => None end.
Definition parse_i32 (t : text) : option Z :=
  match t with
  | c :: t' => if c =? 45 then Z.opp <$> parse_positive (2 ^ 31) t' else parse_unsigned (2 ^ 31 - 1) t
  | [] => None
  end.
Definition u64_max : Z := 2 ^ 64 - 1.

(** ** The quick bar *)

Module Quick.
Inductive Control : Type :=
| Mode | FilterWidth (widths_hz : list Z) | IfShift (limit_hz : Z) | Notch | Split.
Definition label (c : Control) : string :=
  match c with Mode => "MODE" | FilterWidth _ => "FILTER" | IfShift _ => "SHIFT" | Notch => "NOTCH" | Split => "SPLIT" end%string.
Definition controls (caps : CapabilitiesWire) : list Control :=
  (match caps.(wire_modes) with [] => [] | _ => [Mode] end)
  ++ (match caps.(wire_filters).(wire_widths_hz) with Some (w :: ws) => [FilterWidth (w :: ws)] | _ => [] end)
  ++ (match caps.(wire_filters).(wire_if_shift_hz) with Some limit => [IfShift limit] | None => [] end)
  ++ (if caps.(wire_filters).(wire_notch) then [Notch] else [])
  ++ (if caps.(wire_vfos).(vfo_split) then [Split] else []).
End Quick.

Fixpoint position {A} (f : A -> bool) (l : list A) : option nat :=
  match l with [] => None | x :: l => if f x then Some 0%nat else S <$> position f l end.
Definition next_mode (caps : CapabilitiesWire) (current : option ModeId) : option ModeId :=
  match caps.(wire_modes) with
  | [] => None
  | ms =>
      let index := match current ≫= (fun c => position (fun m => bool_decide (m.(wire_mode_id) = c)) ms) with
                   | Some i => ((i + 1) mod length ms)%nat
                   | None => 0%nat
                   end in
      wire_mode_id <$> ms !! index
  end.
Definition neg_i32 (z : Z) : Z := if z =? i32_min then i32_min else - z.
Definition clamp_shift (hz limit_hz : Z) : Z :=
  Z.min (Z.max hz (neg_i32 (abs_i32 limit_hz))) (abs_i32 limit_hz).

(** ** The command line *)

Inductive Action : Type := Radio (c : Command) | SelectTab (n : Z) | Quit.
Inductive ParseError : Type :=
| Empty | UnknownVerb (v : text) | BadArgument (verb : string) (got : text) | MissingArgument (verb : string)
| ParseUnsupported (what : text).
Definition en_dash : char := 8211.
Definition parse_error_text (e : ParseError) : message :=
  match e with
  | Empty => [PStr "nothing to do"]
  | UnknownVerb v => [PStr "unknown command: "; PText v]
  | BadArgument verb got => [PStr verb; PStr ": "; PDebugStr got; PStr " is not a number"]
  | MissingArgument v => [PStr v; PStr ": needs a value"]
  | ParseUnsupported what => [PStr "this radio has no "; PText what]
  end.

Definition to_ascii_lowercase (c : char) : char := if (65 <=? c) && (c <=? 90) then c + 32 else c.
(** [14.074] is MHz, [14074000] is Hz. *)
Definition parse_frequency (t : text) : option Z :=
  let t := List.filter (fun c => negb (c =? 95)) t in
  if existsb (Z.eqb 46) t then
    mhz ← Rigctl.parse_f64 t;
    if negb (F64.is_finite mhz) || F64.ltb mhz (F64.of_Z 0) then None
    else Some (Rigctl.round_u64 (F64.mul mhz (F64.of_Z 1000000)))
  else parse_unsigned u64_max t.

Definition spelled (t : text) (names : list string) : bool := existsb (fun s => bool_decide (t = txt s)) names.
Definition needed {A} (verb : string) (a : option A) : result A ParseError := ok_or a (MissingArgument verb).
Definition number (verb : string) (got : text) (n : option Z) : result Z ParseError := ok_or n (BadArgument verb got).
Definition unsupported {A} (what : text) (a : option A) : result A ParseError := ok_or a (ParseUnsupported what).
Definition is_digit (c : char) : bool := (48 <=? c) && (c <=? 57).

Definition parse (line : text) (caps : CapabilitiesWire) : result Action ParseError :=
  match split_whitespace (trim line) with
  | [] => Err Empty
  | verb :: rest =>
      let arg := head rest in
      let v := map to_ascii_lowercase verb in
      if spelled v ["q"; "quit"]%string then Ok Quit
      else if spelled v ["f"; "freq"]%string then
        let? a := needed "freq" arg in
        let? hz := number "freq" a (parse_frequency a) in
        Ok (Radio (SetFrequency 0 hz))
      else if spelled v ["t"; "tune"]%string then
        let? a := needed "tune" arg in
        let? hz := number "tune" a (parse_frequency a) in
        Ok (Radio (Retune hz))
      else if spelled v ["m"; "mode"]%string then
        let? a := needed "mode" arg in
        let wanted := to_ascii_uppercase_str a in
        let? m := unsupported (wanted ++ txt " mode")
                    (List.find (fun m => eq_ignore_ascii_case (txt m.(wire_mode_label)) wanted) caps.(wire_modes)) in
        Ok (Radio (SetMode m.(wire_mode_id)))
      else if spelled v ["mem"; "memory"]%string then
        let? memory := unsupported (txt "memory") caps.(wire_memory) in
        let? a := needed "memory" arg in
        let? channel := number "memory" a (parse_unsigned 65535 a) in
        let r := memory.(channels) in
        if (channel <? r.(raw_min)) || (r.(raw_max) <? channel)
        then Err (ParseUnsupported (txt "memory channel " ++ Callsign.show channel ++ txt " (it has "
                    ++ Callsign.show r.(raw_min) ++ [en_dash] ++ Callsign.show r.(raw_max) ++ txt ")"))
        else Ok (Radio (SetMemoryChannel channel))
      else if spelled v ["shift"]%string then
        let? limit := unsupported (txt "IF shift") caps.(wire_filters).(wire_if_shift_hz) in
        let? a := needed "shift" arg in
        let? hz := number "shift" a (parse_i32 a) in
        Ok (Radio (SetIfShift (clamp_shift hz limit)))
      else if spelled v ["split"]%string then
        if negb caps.(wire_vfos).(vfo_split) then Err (ParseUnsupported (txt "split"))
        else Ok (Radio (SetSplit (negb (match arg with Some a => spelled a ["off"; "0"]%string | None => false end))))
      else if forallb is_digit v && negb (bool_decide (v = [])) then
        Ok (SelectTab (default 0 (parse_unsigned u64_max v)))
      else Err (UnknownVerb v)
  end.

Definition VERBS : list (string * string) :=
  [("f <mhz|hz>", "set VFO A frequency"); ("t <mhz|hz>", "retune, moving any IF-tap source with the dial");
   ("m <mode>", "set mode"); ("mem <n>", "recall memory channel"); ("shift <hz>", "set IF shift");
   ("split [off]", "split on or off"); ("<n>", "switch to workspace n"); ("q", "quit")]%string.

(** ** Tabs *)

Inductive Tab : Type := TabSpectrum | TabMemory | TabMenu | TabSource.
Record TabEntry : Type := mk_TabEntry { tab : Tab; tab_label : text }.
Definition tabs (caps : CapabilitiesWire) : list TabEntry :=
  (match caps.(wire_signal) with SignalNone => [] | _ => [mk_TabEntry TabSpectrum (txt "SPECTRUM")] end)
  ++ (match caps.(wire_memory) with
      | Some m => [mk_TabEntry TabMemory (txt "MEMORY " ++ Callsign.show m.(channels).(raw_min) ++ [en_dash]
                                            ++ Callsign.show m.(channels).(raw_max))]
      | None => []
      end)
  ++ (match caps.(wire_menu) with
      | Some m => [mk_TabEntry TabMenu (txt "MENU " ++ Callsign.show m.(item_count))]
      | None => []
      end)
  ++ [mk_TabEntry TabSource (txt "SOURCE")].
Definition tab_for_digit (entries : list TabEntry) (digit : Z) : option Tab :=
  if digit <? 1 then None else tab <$> entries !! Z.to_nat (digit - 1).

(** ** Bands *)

#[export] Instance FrequencyRange_eq_dec : EqDecision FrequencyRange.
Proof. solve_decision. Defined.
Record Band : Type := mk_Band { band_label : string; band_range : FrequencyRange }.
Definition band (label : string) (lo hi : Z) : Band := mk_Band label (mk_FrequencyRange lo hi).
Definition band_contains (b : Band) (hz : Z) : bool := freq_contains b.(band_range) hz.
Definition default_hz (b : Band) : Z :=
  b.(band_range).(min_hz) + (b.(band_range).(max_hz) - b.(band_range).(min_hz)) / 4.
Definition BANDS : list Band :=
  [band "160m" 1800000 2000000; band "80m" 3500000 4000000; band "60m" 5330500 5406400; band "40m" 7000000 7300000;
   band "30m" 10100000 10150000; band "20m" 14000000 14350000; band "17m" 18068000 18168000;
   band "15m" 21000000 21450000; band "12m" 24890000 24990000; band "10m" 28000000 29700000;
   band "6m" 50000000 54000000; band "2m" 144000000 148000000; band "70cm" 420000000 450000000]%string.
Record BandPlan : Type := mk_BandPlan { coverage : FrequencyRange }.
Definition for_radio (c : RadioCapabilities) : BandPlan := mk_BandPlan c.(rx_range).
Definition bands (p : BandPlan) : list Band :=
  List.filter (fun b => (b.(band_range).(min_hz) <=? p.(coverage).(max_hz)) && (p.(coverage).(min_hz) <=? b.(band_range).(max_hz))) BANDS.
Definition band_for (p : BandPlan) (hz : Z) : option Band := List.find (fun b => band_contains b hz) BANDS.

Example typed_lines :
  let caps := capabilities_from TS570D in
  parse (txt "f 14.074") caps = Ok (Radio (SetFrequency 0 14074000))
  /\ parse (txt "  F  14_074_000 ") caps = Ok (Radio (SetFrequency 0 14074000))
  /\ parse (txt "mode cw-r") caps = Ok (Radio (SetMode CwLower))
  /\ parse (txt "m c4fm") caps = Err (ParseUnsupported (txt "C4FM mode"))
  /\ parse (txt "mem 100") caps = Err (ParseUnsupported (txt "memory channel 100 (it has 0" ++ [en_dash] ++ txt "99)"))
  /\ parse (txt "shift -2000") caps = Ok (Radio (SetIfShift (-1000)))
  /\ parse (txt "3") caps = Ok (SelectTab 3) /\ parse (txt "wat") caps = Err (UnknownVerb (txt "wat")).
Proof. vm_compute. repeat split. Qed.
(** Verbs and modes are read in either case, the word that turns split off is not. *)
Example split_off_in_capitals :
  parse (txt "SPLIT OFF") (capabilities_from TS570D) = Ok (Radio (SetSplit true)).
Proof. vm_compute. reflexivity. Qed.

(** ** Reading a number back *)

(** The value of written digits, after those worth [acc]. *)
Fixpoint value (acc : Z) (d : Decimal.uint) : Z :=
  match d with
  | Decimal.Nil => acc
  | Decimal.D0 d => value (acc * 10 + 0) d | Decimal.D1 d => value (acc * 10 + 1) d
  | Decimal.D2 d => value (acc * 10 + 2) d | Decimal.D3 d => value (acc * 10 + 3) d
  | Decimal.D4 d => value (acc * 10 + 4) d | Decimal.D5 d => value (acc * 10 + 5) d
  | Decimal.D6 d => value (acc * 10 + 6) d | Decimal.D7 d => value (acc * 10 + 7) d
  | Decimal.D8 d => value (acc * 10 + 8) d | Decimal.D9 d => value (acc * 10 + 9) d
  end.
Lemma value_of_uint_acc d : forall p, Z.pos (Pos.of_uint_acc d p) = value (Z.pos p) d.
Proof. induction d as [|d IH|d IH|d IH|d IH|d IH|d IH|d IH|d IH|d IH|d IH]; intros p; [done|..]; cbn [Pos.of_uint_acc value]; rewrite IH; f_equal; lia. Qed.
Lemma value_of_uint d : Z.of_N (Pos.of_uint d) = value 0 d.
Proof. induction d as [|d IH|d IH|d IH|d IH|d IH|d IH|d IH|d IH|d IH|d IH]; try done; apply value_of_uint_acc. Qed.
Lemma value_grows d : forall acc, 0 <= acc -> acc <= value acc d.
Proof.
  induction d as [|d IH|d IH|d IH|d IH|d IH|d IH|d IH|d IH|d IH|d IH]; intros acc Ha; cbn [value]; [lia|..];
    (etrans; [|apply IH; lia]); lia.
Qed.
Lemma parse_digits_cons max acc c k t :
  Rigctl.text_digit c = Some k -> acc * 10 + k <= max -> parse_digits max acc (c :: t) = parse_digits max (acc * 10 + k) t.
Proof. intros E H. cbn [parse_digits]. rewrite E. by rewrite (proj2 (Z.leb_le _ _) H). Qed.
Lemma parse_digits_value max d : forall acc, 0 <= acc -> value acc d <= max ->
  parse_digits max acc (txt (DecimalString.NilEmpty.string_of_uint d)) = Some (value acc d).
Proof.
  induction d as [|d IH|d IH|d IH|d IH|d IH|d IH|d IH|d IH|d IH|d IH]; intros acc Ha Hm; [done|..]; cbn [value] in *;
    match type of Hm with value ?a _ <= _ => pose proof (value_grows d a ltac:(lia)) end;
    (etrans; [|apply IH; lia]);
    (refine (parse_digits_cons max acc _ _ (txt (DecimalString.NilEmpty.string_of_uint d)) _ _); [reflexivity|lia]).
Qed.
Lemma parse_show max z : 0 <= z <= max -> parse_positive max (Callsign.show z) = Some z.
Proof.
  intros Hz. unfold parse_positive, Callsign.show.
  assert (Hv : value 0 (N.to_uint (Z.to_N z)) = z).
  { rewrite <- value_of_uint. change (Pos.of_uint (N.to_uint (Z.to_N z))) with (N.of_uint (N.to_uint (Z.to_N z))).
    rewrite DecimalN.Unsigned.of_to. lia. }
  assert (Hn : txt (DecimalString.NilEmpty.string_of_uint (N.to_uint (Z.to_N z))) <> []).
  { destruct (Z.to_N z) as [|p]; [done|]. cbn [N.to_uint]. pose proof (DecimalPos.Unsigned.to_uint_nonnil p).
    by destruct (Pos.to_uint p). }
  destruct (txt _) eqn:E; [done|]. rewrite <- E, parse_digits_value; rewrite ?Hv; [done|lia|lia].
Qed.
Lemma parse_digits_digits max acc t v : parse_digits max acc t = Some v -> Forall (fun c => 48 <= c <= 57) t.
Proof.
  revert acc. induction t as [|c t IH]; intros acc; cbn [parse_digits]; [constructor|].
  unfold Rigctl.text_digit. destruct ((48 <=? c) && (c <=? 57)) eqn:E; [|done].
  destruct (acc * 10 + (c - 48) <=? max); [|done]. intros H. constructor; [lia|by apply (IH _ H)].
Qed.
(** A written number is a word of digits. *)
Lemma show_word z : 0 <= z -> is_word (Callsign.show z) /\ Forall (fun c => 48 <= c <= 57) (Callsign.show z).
Proof.
  intros Hz. pose proof (parse_show z z ltac:(lia)) as H. unfold parse_positive in H.
  destruct (Callsign.show z) as [|c t] eqn:E; [done|]. apply parse_digits_digits in H. split; [|done]. split; [done|].
  eapply Forall_impl; [exact H|]. cbn. intros x Hx. apply is_whitespace_printable. lia.
Qed.
Lemma parse_unsigned_show max z : 0 <= z <= max -> parse_unsigned max (Callsign.show z) = Some z.
Proof.
  intros Hz. rewrite <- (parse_show max z Hz). destruct (show_word z ltac:(lia)) as [_ Hd].
  destruct (Callsign.show z) as [|c t]; [done|]. apply Forall_cons in Hd as [Hd _]. unfold parse_unsigned.
  by rewrite (proj2 (Z.eqb_neq c 43)) by lia.
Qed.

(** ** Reading a line *)

Lemma trim_start_word w t : is_word w -> trim_start (w ++ t) = w ++ t.
Proof. intros [Hn Hw]. destruct w as [|c w]; [done|]. apply Forall_cons in Hw as [Hc _]. cbn. by rewrite Hc. Qed.
Lemma is_word_rev w : is_word w -> is_word (rev w).
Proof.
  intros [Hn Hw]. split; [|by apply Forall_rev]. intros E. apply Hn. by rewrite <- (rev_involutive w), E.
Qed.
Lemma trim_word w : is_word w -> trim w = w.
Proof.
  intros H. unfold trim, trim_end. rewrite <- (app_nil_r w) at 1. rewrite trim_start_word, app_nil_r by done.
  rewrite <- (app_nil_r (rev w)), trim_start_word, app_nil_r by by apply is_word_rev. apply rev_involutive.
Qed.
Lemma words_one w : is_word w -> split_whitespace (trim w) = [w].
Proof. intros H. rewrite trim_word by done. by apply split_whitespace_word. Qed.
Lemma words_two w a : is_word w -> is_word a -> split_whitespace (trim (w ++ space :: a)) = [w; a].
Proof.
  intros Hw Ha. unfold trim, trim_end. rewrite trim_start_word, rev_app_distr by done. cbn [rev].
  rewrite <- app_assoc, trim_start_word by by apply is_word_rev.
  rewrite !rev_app_distr, !rev_involutive. cbn [rev app]. rewrite <- app_assoc. cbn [app].
  apply (split_join_space [w; a]). apply Forall_cons. split; [done|by apply Forall_singleton].
Qed.
Lemma literal_word s : bool_decide (txt s <> [] /\ Forall (fun c => is_whitespace c = false) (txt s)) = true -> is_word (txt s).
Proof. apply bool_decide_eq_true. Qed.
Lemma find_distinct {A B} (f : A -> bool) (id : A -> B) l x :
  x ∈ l -> f x = true -> (forall y, y ∈ l -> f y = true -> id y = id x) -> id <$> List.find f l = Some (id x).
Proof.
  intros Hx Hf Hd. destruct (List.find f l) as [y|] eqn:E.
  - apply List.find_some in E as [Hy Hfy]. cbn. f_equal. apply Hd; [by apply list_elem_of_In|done].
  - apply List.find_none with (x := x) in E; [congruence|by apply list_elem_of_In].
Qed.

(** ** The line and the server *)

(** A description a server can publish: labels are words that tell its modes
    apart in either case, and every number fits the type that carries it. *)
Record described (c : RadioCapabilities) : Prop := {
  d_words : forall m, m ∈ c.(modes) -> is_word (txt m.(mode_label));
  d_labels : forall m n, m ∈ c.(modes) -> n ∈ c.(modes) ->
    eq_ignore_ascii_case (txt m.(mode_label)) (txt n.(mode_label)) = true -> m.(mode_id) = n.(mode_id);
  d_vfo : 1 <= c.(vfos).(vfo_count);
  d_range : 0 <= c.(rx_range).(min_hz) /\ c.(rx_range).(max_hz) <= u64_max;
  d_memory : forall m, c.(memory) = Some m -> 0 <= m.(channels).(raw_min) /\ m.(channels).(raw_max) <= 65535;
  d_shift : forall limit, c.(filters).(if_shift_hz) = Some limit -> 0 <= limit < 2 ^ 31 }.

(** What an operator types for a command. *)
Definition show_signed (z : Z) : text := if z <? 0 then 45 :: Callsign.show (- z) else Callsign.show z.
Definition spell (c : RadioCapabilities) (cmd : Command) : option text :=
  match cmd with
  | SetFrequency 0 hz => Some (txt "f" ++ space :: Callsign.show hz)
  | Retune hz => Some (txt "t" ++ space :: Callsign.show hz)
  | SetMode m => (fun d => txt "m" ++ space :: txt d.(mode_label)) <$> mode c m
  | SetMemoryChannel n => Some (txt "mem" ++ space :: Callsign.show n)
  | SetIfShift hz => Some (txt "shift" ++ space :: show_signed hz)
  | SetSplit true => Some (txt "split")
  | SetSplit false => Some (txt "split" ++ space :: txt "off")
  | _ => None
  end.

Lemma clamp_shift_range hz limit : 0 <= limit < 2 ^ 31 -> - limit <= clamp_shift hz limit <= limit.
Proof. intros H. unfold clamp_shift, neg_i32, abs_i32, i32_min. repeat case_match; lia. Qed.
Lemma clamp_shift_id hz limit : 0 <= limit < 2 ^ 31 -> - limit <= hz <= limit -> clamp_shift hz limit = hz.
Proof. intros H Hz. unfold clamp_shift, neg_i32, abs_i32, i32_min. repeat case_match; lia. Qed.

(** What a line that reaches the radio asks for. *)
Inductive typed (caps : CapabilitiesWire) : Command -> Prop :=
| typed_frequency hz : typed caps (SetFrequency 0 hz)
| typed_retune hz : typed caps (Retune hz)
| typed_mode m : m ∈ caps.(wire_modes) -> typed caps (SetMode m.(wire_mode_id))
| typed_memory m n : caps.(wire_memory) = Some m -> m.(channels).(raw_min) <= n <= m.(channels).(raw_max) ->
    typed caps (SetMemoryChannel n)
| typed_shift limit hz : caps.(wire_filters).(wire_if_shift_hz) = Some limit -> typed caps (SetIfShift (clamp_shift hz limit))
| typed_split b : caps.(wire_vfos).(vfo_split) = true -> typed caps (SetSplit b).

Lemma ok_or_ok {A E} (o : option A) (e : E) x : ok_or o e = Ok x -> o = Some x.
Proof. destruct o; cbn; congruence. Qed.
Ltac read_arg H :=
  repeat (let a := fresh "a" in let E := fresh "E" in
    apply result_bind_ok in H as (a & E & H); apply ok_or_ok in E).
Lemma parse_typed line caps c : parse line caps = Ok (Radio c) -> typed caps c.
Proof.
  unfold parse. destruct (split_whitespace (trim line)) as [|verb rest]; [done|]. cbn zeta.
  destruct (spelled _ ["q"; "quit"]%string); [done|].
  destruct (spelled _ ["f"; "freq"]%string); [intros H; read_arg H; simplify_eq; constructor|].
  destruct (spelled _ ["t"; "tune"]%string); [intros H; read_arg H; simplify_eq; constructor|].
  destruct (spelled _ ["m"; "mode"]%string).
  { intros H; read_arg H; simplify_eq. constructor. apply List.find_some in E0 as [Hin _]. by apply list_elem_of_In. }
  destruct (spelled _ ["mem"; "memory"]%string).
  { intros H; read_arg H. destruct (_ || _) eqn:Er; simplify_eq. apply typed_memory with a; [done|lia]. }
  destruct (spelled _ ["shift"]%string); [intros H; read_arg H; simplify_eq; by constructor|].
  destruct (spelled _ ["split"]%string).
  { destruct (vfo_split (wire_vfos caps)) eqn:Es; [|done]. intros [= <-]. by constructor. }
  by destruct (_ && _).
Qed.

Definition aimed_at (c : Command) : option Z := match c with SetFrequency _ hz | Retune hz => Some hz | _ => None end.
Lemma typed_possible r l t i w serves c :
  described r -> typed (capabilities_wire r l t i w) c ->
  (forall hz, aimed_at c = Some hz -> freq_contains r.(rx_range) hz = true) -> possible r serves c.
Proof.
  intros Hd Ht Hf. destruct Ht as [hz|hz|m Hm|m n Hm Hn|limit hz Hl|b Hb]; cbn [possible].
  - specialize (Hf hz eq_refl). unfold freq_contains in Hf. pose proof (d_vfo r Hd). lia.
  - specialize (Hf hz eq_refl). unfold freq_contains in Hf. lia.
  - apply list_elem_of_In, in_map_iff in Hm as (d & <- & Hin). exists d. split; [by apply list_elem_of_In|done].
  - by exists m.
  - exists limit. split; [done|]. apply clamp_shift_range, (d_shift r Hd limit Hl).
  - done.
Qed.
Lemma typed_not_least r l t i w c : described r -> typed (capabilities_wire r l t i w) c -> c <> SetIfShift i32_min.
Proof.
  intros Hd Ht E. destruct Ht as [| | | |limit hz Hl|]; try done.
  pose proof (clamp_shift_range hz limit (d_shift r Hd limit Hl)) as Hc. pose proof (d_shift r Hd limit Hl).
  injection E as E. unfold i32_min in E. lia.
Qed.

Lemma to_ascii_uppercase_idemp c : to_ascii_uppercase (to_ascii_uppercase c) = to_ascii_uppercase c.
Proof. unfold to_ascii_uppercase. repeat case_match; lia. Qed.
Lemma eq_ignore_upper x y : eq_ignore_ascii_case x (to_ascii_uppercase_str y) = eq_ignore_ascii_case x y.
Proof.
  unfold eq_ignore_ascii_case. apply bool_decide_ext. enough (H : to_ascii_uppercase_str (to_ascii_uppercase_str y) = to_ascii_uppercase_str y) by by rewrite H.
  unfold to_ascii_uppercase_str. rewrite map_map. apply map_ext, to_ascii_uppercase_idemp.
Qed.
(** Reads the verb of a line, a word of the source. *)
Ltac read_verb :=
  repeat match goal with
         | |- context [spelled (map to_ascii_lowercase (txt ?s)) ?l] =>
             let b := eval vm_compute in (spelled (map to_ascii_lowercase (txt s)) l) in
             change (spelled (map to_ascii_lowercase (txt s)) l) with b
         end; cbv iota.
Ltac literal := apply literal_word; vm_compute; reflexivity.
Lemma parse_frequency_show hz : 0 <= hz <= u64_max -> parse_frequency (Callsign.show hz) = Some hz.
Proof.
  intros Hz. destruct (show_word hz ltac:(lia)) as [_ Hd]. unfold parse_frequency.
  assert (Hk : List.filter (fun c => negb (c =? 95)) (Callsign.show hz) = Callsign.show hz).
  { induction (Callsign.show hz) as [|c t IH]; [done|]. apply Forall_cons in Hd as [Hc Hd]. cbn.
    rewrite (proj2 (Z.eqb_neq c 95)) by lia. cbn. by rewrite IH. }
  rewrite Hk. assert (Hp : existsb (Z.eqb 46) (Callsign.show hz) = false).
  { clear Hk. induction (Callsign.show hz) as [|c t IH]; [done|]. apply Forall_cons in Hd as [Hc Hd]. cbn [existsb].
    rewrite (proj2 (Z.eqb_neq 46 c)) by lia. by apply IH. }
  rewrite Hp. by apply parse_unsigned_show.
Qed.
Lemma parse_i32_show z : - 2 ^ 31 < z < 2 ^ 31 -> is_word (show_signed z) /\ parse_i32 (show_signed z) = Some z.
Proof.
  intros Hz. unfold show_signed. destruct (Z.ltb_spec z 0) as [Hn|Hn].
  - destruct (show_word (- z) ltac:(lia)) as [[Hne Hw] _]. split; [split; [done|by constructor]|].
    cbn [parse_i32]. rewrite parse_show by lia. cbn. f_equal. lia.
  - destruct (show_word z Hn) as [Hw Hd]. split; [done|]. rewrite <- (parse_unsigned_show (2 ^ 31 - 1) z) by lia.
    destruct (Callsign.show z) as [|c t]; [done|]. apply Forall_cons in Hd as [Hc _]. unfold parse_i32.
    by rewrite (proj2 (Z.eqb_neq c 45)) by lia.
Qed.

Section Spelling.
Context (r : RadioCapabilities) (l : option LayoutSpec) (t : option Theme) (i : Installation) (w : option CwCapabilityWire).
Context (Hd : described r).
Let caps : CapabilitiesWire := capabilities_wire r l t i w.

Lemma spelled_mode m d :
  mode r m = Some d -> parse (txt "m" ++ space :: txt d.(mode_label)) caps = Ok (Radio (SetMode m)).
Proof.
  intros Hm. apply List.find_some in Hm as [Hin Hid]. apply bool_decide_eq_true in Hid.
  apply list_elem_of_In in Hin. unfold parse. rewrite words_two by (by apply (d_words r Hd) || literal).
  read_verb. cbn [head needed ok_or result_bind]. unfold unsupported.
  assert (Hf : wire_mode_id <$> List.find (fun m => eq_ignore_ascii_case (txt (wire_mode_label m)) (to_ascii_uppercase_str (txt (mode_label d))))
    (wire_modes caps) = Some (mode_id d)).
  { apply (find_distinct _ wire_mode_id _ (mk_ModeWire (mode_id d) (mode_label d) (mode_kind d) (mode_sideband d) (default_bandwidth_hz d))).
    - apply list_elem_of_In, in_map_iff. exists d. split; [done|by apply list_elem_of_In].
    - rewrite eq_ignore_upper. by apply bool_decide_eq_true.
    - intros z Hz E. apply list_elem_of_In, in_map_iff in Hz as (n & <- & Hn). rewrite eq_ignore_upper in E.
      by apply (d_labels r Hd); [apply list_elem_of_In| |]. }
  subst m. destruct (List.find _ _) as [y|]; [|done]. cbn in Hf. cbn [ok_or result_bind]. congruence.
Qed.

Lemma spelled_reads c line : possible r false c \/ possible r true c -> spell r c = Some line -> parse line caps = Ok (Radio c).
Proof.
  intros Hp Hs. pose proof (d_range r Hd) as Hr. destruct c as [vfo hz|m|b|n|?|hz| |hz| | | | | | | |]; try done; cbn [spell] in Hs.
  - destruct vfo; simplify_eq. cbn [possible] in Hp. destruct (show_word hz ltac:(lia)) as [Hw _].
    unfold parse. rewrite words_two by (assumption || literal). read_verb. cbn [head needed ok_or result_bind].
    unfold number. by rewrite parse_frequency_show by lia.
  - destruct (mode r m) as [d|] eqn:E; simplify_eq/=. by apply spelled_mode.
  - cbn [possible] in Hp. assert (Hv : vfo_split (vfos r) = true) by tauto. destruct b; simplify_eq; unfold parse.
    + rewrite words_one by literal. read_verb. cbn [caps capabilities_wire wire_vfos head]. by rewrite Hv.
    + rewrite words_two by literal. read_verb. cbn [caps capabilities_wire wire_vfos head]. by rewrite Hv.
  - simplify_eq. cbn [possible] in Hp. assert (Hm : exists m, memory r = Some m /\ raw_min (channels m) <= n <= raw_max (channels m)) by tauto.
    destruct Hm as (m & Hm & Hn). pose proof (d_memory r Hd m Hm) as Hw. destruct (show_word n ltac:(lia)) as [Hsw _].
    unfold parse. rewrite words_two by (assumption || literal). read_verb. cbn [caps capabilities_wire wire_memory head]. rewrite Hm.
    cbn [unsupported needed ok_or result_bind]. unfold number. rewrite parse_unsigned_show by lia. cbn [ok_or result_bind].
    replace ((n <? raw_min (channels m)) || (raw_max (channels m) <? n)) with false by lia. done.
  - simplify_eq. cbn [possible] in Hp. assert (Hl : exists limit, if_shift_hz (filters r) = Some limit /\ - limit <= hz <= limit) by tauto.
    destruct Hl as (limit & Hl & Hz). pose proof (d_shift r Hd limit Hl) as Hw.
    destruct (parse_i32_show hz ltac:(lia)) as [Hsw Hi].
    unfold parse. rewrite words_two by (assumption || literal). read_verb. cbn [caps capabilities_wire wire_filters wire_if_shift_hz head].
    rewrite Hl. cbn [unsupported needed ok_or result_bind]. unfold number. rewrite Hi. cbn [ok_or result_bind].
    by rewrite clamp_shift_id.
  - simplify_eq. cbn [possible] in Hp. destruct (show_word hz ltac:(lia)) as [Hw _].
    unfold parse. rewrite words_two by (assumption || literal). read_verb. cbn [head needed ok_or result_bind].
    unfold number. by rewrite parse_frequency_show by lia.
Qed.
End Spelling.

Lemma in_range_or_not r c :
  (exists hz, aimed_at c = Some hz /\ freq_contains r hz = false) \/ (forall hz, aimed_at c = Some hz -> freq_contains r hz = true).
Proof. destruct (aimed_at c) as [hz|]; [|by right]. destruct (freq_contains r hz) eqn:E; [right|left]; naive_solver. Qed.

(** C35. The command line and the server behind it agree, whatever radio was
    published in the handshake: a line that is read as a command is one the
    server acknowledges, unless it aims the dial outside the radio's range,
    which the server then says; and every frequency of VFO A, mode, memory
    channel, IF shift and split setting the radio has can be typed. *)
Theorem typed_is_possible s s' v spectrum audio fps v' caps :
  described s.(ns_capabilities) ->
  handle s (Hello v spectrum audio fps) = (s', Welcome v' caps) ->
  (forall line c, parse line caps = Ok (Radio c) ->
    handle s' (CCommand c) = (s', Ack)
    \/ exists hz m, aimed_at c = Some hz /\ freq_contains s.(ns_capabilities).(rx_range) hz = false
                    /\ handle s' (CCommand c) = (s', SError OutOfRange m))
  /\ (forall c line, possible s.(ns_capabilities) s.(ns_serves_cw) c -> spell s.(ns_capabilities) c = Some line ->
      parse line caps = Ok (Radio c) /\ handle s' (CCommand c) = (s', Ack)).
Proof.
  intros Hd Hh. cbn [handle] in Hh. destruct (negb (v =? PROTOCOL_VERSION)); [done|]. injection Hh as Hs' _ <-.
  assert (Hack : forall c, typed (capabilities_wire s.(ns_capabilities) s.(ns_layout) s.(ns_theme) s.(ns_installation)
      (if s.(ns_serves_cw) then cw_wire_from <$> s.(ns_capabilities).(Capabilities.cw) else None)) c ->
      possible s.(ns_capabilities) s.(ns_serves_cw) c -> handle s' (CCommand c) = (s', Ack)).
  { intros c Ht Hp. assert (Hv : session_validate s' c = Ok tt).
    { subst s'. apply session_validate_exact; [by eapply typed_not_least|exact Hp]. }
    cbn [handle]. replace (handshaken s') with true by by subst s'. cbn [negb]. f_equal.
    unfold handle_command. rewrite Hv. by destruct Ht. }
  split.
  - intros line c Hp. apply parse_typed in Hp as Ht.
    destruct (in_range_or_not s.(ns_capabilities).(rx_range) c) as [Hout|Hin].
    + right. destruct Hout as (hz & Ha & Hf). pose proof (d_vfo _ Hd) as Hv.
      destruct Ht; try done; injection Ha as ->; subst s'; cbn [handle handshaken negb];
        unfold handle_command; cbn [session_validate ns_capabilities]; rewrite Hf.
      * rewrite (proj2 (Z.leb_gt _ _)) by lia. cbn [negb]. eauto.
      * cbn [negb]. eauto.
    + left. apply Hack; [done|]. by eapply typed_possible.
  - intros c line Hp Hs. assert (Hr : parse line (capabilities_wire s.(ns_capabilities) s.(ns_layout) s.(ns_theme) s.(ns_installation)
      (if s.(ns_serves_cw) then cw_wire_from <$> s.(ns_capabilities).(Capabilities.cw) else None)) = Ok (Radio c)).
    { apply spelled_reads; [done|destruct (ns_serves_cw s); tauto|done]. }
    split; [done|]. apply Hack; [by eapply parse_typed|done].
Qed.

Lemma ts570d_described : described TS570D.
Proof.
  split.
  - intros m Hm. apply list_elem_of_In in Hm. cbn [In TS570D modes TS570D_MODES] in Hm.
    repeat (destruct Hm as [<-|Hm]; [apply literal_word; vm_compute; reflexivity|]). done.
  - assert (H : forallb (fun m => forallb (fun n => negb (eq_ignore_ascii_case (txt (mode_label m)) (txt (mode_label n)))
                                                || bool_decide (mode_id m = mode_id n)) TS570D_MODES) TS570D_MODES = true)
      by (vm_compute; reflexivity).
    intros m n Hm Hn E. rewrite forallb_forall in H. specialize (H m (proj1 (list_elem_of_In _ _) Hm)).
    rewrite forallb_forall in H. specialize (H n (proj1 (list_elem_of_In _ _) Hn)). rewrite E in H. by apply bool_decide_eq_true in H.
  - cbn. lia.
  - unfold u64_max. cbn. lia.
  - intros m [= <-]. cbn. lia.
  - intros limit [= <-]. lia.
Qed.
Definition ts570d_session : NativeSession :=
  mk_NativeSession TS570D ts570d_bare false false false None None None None None false.
Lemma typed_is_possible_witness :
  exists s' caps, handle ts570d_session (Hello PROTOCOL_VERSION true false None) = (s', Welcome PROTOCOL_VERSION caps)
  /\ parse (txt "m CW-R") caps = Ok (Radio (SetMode CwLower)) /\ handle s' (CCommand (SetMode CwLower)) = (s', Ack).
Proof.
  eexists _, _. split; [reflexivity|].
  destruct (typed_is_possible ts570d_session _ _ _ _ _ _ _ ts570d_described
              (eq_refl (handle ts570d_session (Hello PROTOCOL_VERSION true false None)))) as [_ H].
  apply (H (SetMode CwLower) (txt "m CW-R")); [|reflexivity].
  exists (mk_ModeDescriptor CwLower "CW-R" KCw (Some Lower) 500). split; [|reflexivity].
  apply list_elem_of_In. do 6 right. left. reflexivity.
Defined.

(** No line sets a filter width, though the quick bar has one to set. *)
Theorem no_line_sets_filter_width line caps hz : parse line caps <> Ok (Radio (SetFilterWidth hz)).
Proof. intros H%parse_typed. inversion H. Qed.
Example ft991a_offers_widths :
  existsb (fun c => match c with Quick.FilterWidth _ => true | _ => false end) (Quick.controls (capabilities_from FT991A)) = true.
Proof. reflexivity. Qed.

(** ** Cycling through the modes *)

Lemma position_NoDup {A B} `{EqDecision B} (f : A -> B) l i x :
  NoDup (map f l) -> l !! i = Some x -> position (fun y => bool_decide (f y = f x)) l = Some i.
Proof.
  revert i. induction l as [|y l IH]; intros i Hn Hi; [done|]. cbn [map] in Hn. apply NoDup_cons in Hn as [Hy Hn].
  cbn [position]. destruct i as [|i]; [injection Hi as ->; by rewrite bool_decide_true|].
  cbn in Hi. rewrite bool_decide_false, (IH i Hn Hi); [done|]. intros E. apply Hy. rewrite E. apply list_elem_of_In, in_map.
  apply list_elem_of_In. by eapply list_elem_of_lookup_2.
Qed.
(** Pressing the mode key goes through the radio's modes in its own order and
    then begins again: after [n] presses from a mode it does not know, the
    mode is the one [n - 1] places along. *)
Theorem mode_key_cycles caps n :
  caps.(wire_modes) <> [] -> NoDup (map wire_mode_id caps.(wire_modes)) ->
  Nat.iter (S n) (next_mode caps) None = wire_mode_id <$> caps.(wire_modes) !! (n mod length caps.(wire_modes))%nat.
Proof.
  intros Hne Hd. induction n as [|n IH]; cbn [Nat.iter nat_rect].
  - cbn. unfold next_mode. destruct (wire_modes caps) as [|m ms]; [done|]. cbn [mbind option_bind]. by rewrite Nat.Div0.mod_0_l.
  - cbn [Nat.iter nat_rect] in IH. rewrite IH. unfold next_mode. set (ms := wire_modes caps) in *.
    assert (Hl : (length ms <> 0)%nat) by by destruct ms.
    destruct (lookup_lt_is_Some_2 ms (n mod length ms)%nat) as [x Hx]; [by apply Nat.mod_upper_bound|].
    rewrite Hx. cbn [fmap option_fmap option_map mbind option_bind].
    pose proof (position_NoDup wire_mode_id ms _ x Hd Hx) as Hp. destruct ms as [|m ms']; [done|]. rewrite Hp.
    by rewrite Nat.Div0.add_mod_idemp_l, Nat.add_1_r.
Qed.
Lemma mode_key_cycles_witness :
  Nat.iter 9 (next_mode (capabilities_from TS570D)) None = Some Lsb.
Proof.
  rewrite (mode_key_cycles (capabilities_from TS570D) 8); [reflexivity|done|].
  apply (bool_decide_unpack _). reflexivity.
Defined.

(** ** Bands *)

(** No frequency is in two bands: the band a dial is in is the only one that
    contains it, and the frequency a band is entered at is inside it. *)
Theorem bands_apart p hz b :
  b ∈ BANDS -> (band_contains b hz = true <-> band_for p hz = Some b) /\ band_contains b (default_hz b) = true.
Proof.
  intros Hb. split.
  - unfold band_for. split; [|by intros [_ ?]%List.find_some].
    intros Hc. assert (Hd : forallb (fun b => forallb (fun b' => bool_decide (b.(band_range) = b'.(band_range) /\ b.(band_label) = b'.(band_label))
        || (b.(band_range).(max_hz) <? b'.(band_range).(min_hz)) || (b'.(band_range).(max_hz) <? b.(band_range).(min_hz))) BANDS) BANDS = true)
      by (vm_compute; reflexivity).
    destruct (List.find _ BANDS) as [b'|] eqn:E.
    + apply List.find_some in E as [Hb' Hc']. rewrite forallb_forall in Hd. specialize (Hd b (proj1 (list_elem_of_In _ _) Hb)).
      rewrite forallb_forall in Hd. specialize (Hd b' Hb'). unfold band_contains, freq_contains in Hc, Hc'.
      apply orb_true_iff in Hd as [Hd|Hd]; [|lia]. apply orb_true_iff in Hd as [Hd|Hd]; [|lia].
      apply bool_decide_eq_true in Hd as [Er El]. destruct b, b'. cbn in *. by subst.
    + apply List.find_none with (x := b) in E; [congruence|by apply list_elem_of_In].
  - assert (Hd : forallb (fun b => band_contains b (default_hz b)) BANDS = true) by (vm_compute; reflexivity).
    rewrite forallb_forall in Hd. by apply Hd, list_elem_of_In.
Qed.
Lemma bands_apart_witness : band_for (for_radio TS570D) 14074000 = Some (band "20m" 14000000 14350000).
Proof. apply bands_apart; [|reflexivity]. apply list_elem_of_In. do 5 right. left. reflexivity. Defined.
