(* ===== verification/Signals.v ===== *)
(** * Signals: what a spectrum source exposes (cat-signal/src/lib.rs) and the fake one (fake.rs)

    The settings a source describes itself with, a frame's geometry, and
    [FakeSpectrumSource], the source the tests of the consumers run on.  A
    panic of [apply] is [None]. *)

From Stdlib Require Import Floats.SpecFloat.
From S2P Require Import Prelude Text Morse Timing Floats Capabilities Installation.

(** [f32::to_bits]; a NaN is the quiet one. *)
Definition to_bits (x : f32) : Z :=
  let sign (s : bool) := if s then 2 ^ 31 else 0 in
  match x with
  | S754_zero s => sign s
  | S754_infinity s => sign s + 0x7F800000
  | S754_nan => 0x7FC00000
  | S754_finite s m e =>
      sign s + (if Z.pos m <? 2 ^ 23 then Z.pos m else (e + 150) * 2 ^ 23 + (Z.pos m - 2 ^ 23))
  end.

(** ** The geometry of a frame *)

Definition bin_width_hz (f : SpectrumFrame) : f64 :=
  if (length f.(sf_bins) =? 0)%nat then f_zero
  else F64.div (F64.of_Z f.(sf_span_hz)) (F64.of_Z (Z.of_nat (length f.(sf_bins)))).
Definition bin_frequency_hz (f : SpectrumFrame) (index : nat) : option f64 :=
  if (length f.(sf_bins) <=? index)%nat then None
  else
    let start := F64.sub (F64.of_Z f.(center_hz)) (F64.div (F64.of_Z f.(sf_span_hz)) (F64.of_Z 2)) in
    Some (F64.add start (F64.mul (F64.add (F64.of_Z (Z.of_nat index)) f_half) (bin_width_hz f))).
Definition range_hz (f : SpectrumFrame) : f64 * f64 :=
  let half := F64.div (F64.of_Z f.(sf_span_hz)) (F64.of_Z 2) in
  (F64.sub (F64.of_Z f.(center_hz)) half, F64.add (F64.of_Z f.(center_hz)) half).

(** ** Settings *)

(** The source's [Unit::None] is [NoUnit]. *)
Inductive Unit : Type := NoUnit | Hz | Db | Dbm | Sps | Percent | Seconds.
Definition suffix (u : Unit) : string :=
  match u with
  | NoUnit => "" | Hz => "Hz" | Db => "dB" | Dbm => "dBm" | Sps => "S/s" | Percent => "%" | Seconds => "s"
  end%string.
Inductive Access : Type := ReadOnlySetting | ReadWriteSetting.
Inductive SettingGroup : Type := SourceGroup | DisplayGroup | CalibrationGroup.
#[export] Instance SettingGroup_eq_dec : EqDecision SettingGroup.
Proof. solve_decision. Defined.
Inductive SettingValue : Type :=
| SvInt (value min max step : Z) (unit : Unit)
| SvFloat (value min max : f64) (unit : Unit)
| SvBool (value : bool)
| SvEnum (value : Z) (options : list string).

(** [SettingValue::is_valid]: against the bounds the value itself carries. *)
Definition setting_valid (v : SettingValue) : bool :=
  match v with
  | SvInt value min max _ _ => (min <=? value) && (value <=? max)
  | SvFloat value min max _ => F64.leb min value && F64.leb value max
  | SvBool _ => true
  | SvEnum value options => value <? Z.of_nat (length options)
  end.
Definition same_kind_as (a b : SettingValue) : bool :=
  match a, b with
  | SvInt _ _ _ _ _, SvInt _ _ _ _ _ | SvFloat _ _ _ _, SvFloat _ _ _ _
  | SvBool _, SvBool _ | SvEnum _ _, SvEnum _ _ => true
  | _, _ => false
  end.
Record SettingDescriptor : Type := mk_SettingDescriptor {
  sd_key : string; sd_label : string; sd_group : SettingGroup; sd_access : Access; sd_value : SettingValue }.
(** [SpectrumSettings] and its [find], [group] and [is_writable]. *)
Definition SpectrumSettings : Type := list SettingDescriptor.
Definition find_setting (key : string) (s : SpectrumSettings) : option SettingDescriptor :=
  List.find (fun d => String.eqb d.(sd_key) key) s.
Definition group_settings (g : SettingGroup) (s : SpectrumSettings) : SpectrumSettings :=
  List.filter (fun d => bool_decide (d.(sd_group) = g)) s.
Definition setting_writable (key : string) (s : SpectrumSettings) : bool :=
  match find_setting key s with
  | Some d => match d.(sd_access) with ReadWriteSetting => true | ReadOnlySetting => false end
  | None => false
  end.

(** [i64::MAX]. *)
Definition i64_max : Z := 2 ^ 63 - 1.
(** [u64 as i64], and [i64 as u32]. *)
Definition u64_as_i64 (z : Z) : Z := if z <? 2 ^ 63 then z else z - 2 ^ 64.
Definition i64_as_u32 (z : Z) : Z := z mod 2 ^ 32.
Definition i64_as_i32 (z : Z) : Z := (z + 2 ^ 31) mod 2 ^ 32 - 2 ^ 31.

(** ** The fake source (fake.rs) *)

Inductive FakeSourceError : Type :=
| FakeUnknownKey (key : string)
| FakeReadOnly (key : string)
| FakeWrongKind (key : string)
| FakeOutOfRange (key : string)
| FakeInjected.

Record FakeSpectrumSource : Type := mk_Fake {
  fk_center_hz : Z; fk_span_hz : Z; fk_bin_count : Z; fk_sequence : Z; fk_noise_floor_dbm : f32;
  fk_peak_dbm : f32; fk_peak_fraction : f64; fk_capability : SignalCapability; fk_fail_next : bool }.
Definition fake_new : FakeSpectrumSource :=
  mk_Fake 14074000 48000 512 0 (F32.of_Z (-110)) (F32.of_Z (-40)) (F64.dec 75 2)
    (CapDirectSdr 24000000 1766000000) false.
Definition with_center_hz (s : FakeSpectrumSource) (center_hz : Z) : FakeSpectrumSource :=
  let 'mk_Fake _ sp n q nf pk fr cap fl := s in mk_Fake center_hz sp n q nf pk fr cap fl.
Definition with_span_hz (s : FakeSpectrumSource) (span_hz : Z) : FakeSpectrumSource :=
  let 'mk_Fake c _ n q nf pk fr cap fl := s in mk_Fake c span_hz n q nf pk fr cap fl.
Definition with_bins (s : FakeSpectrumSource) (bin_count : Z) : FakeSpectrumSource :=
  let 'mk_Fake c sp _ q nf pk fr cap fl := s in mk_Fake c sp bin_count q nf pk fr cap fl.
Definition with_sequence (s : FakeSpectrumSource) (sequence : Z) : FakeSpectrumSource :=
  let 'mk_Fake c sp n _ nf pk fr cap fl := s in mk_Fake c sp n sequence nf pk fr cap fl.
Definition with_fail (s : FakeSpectrumSource) (fail : bool) : FakeSpectrumSource :=
  let 'mk_Fake c sp n q nf pk fr cap _ := s in mk_Fake c sp n q nf pk fr cap fail.
Definition with_capability (s : FakeSpectrumSource) (cap : SignalCapability) : FakeSpectrumSource :=
  let 'mk_Fake c sp n q nf pk fr _ fl := s in mk_Fake c sp n q nf pk fr cap fl.
(** [f64::clamp(0.0, 1.0)]: a NaN stays one. *)
Definition clamp_unit (x : f64) : f64 :=
  if F64.ltb x f_zero then f_zero else if F64.ltb (F64.of_Z 1) x then F64.of_Z 1 else x.
Definition with_peak_at (s : FakeSpectrumSource) (fraction : f64) : FakeSpectrumSource :=
  let 'mk_Fake c sp n q nf pk _ cap fl := s in mk_Fake c sp n q nf pk (clamp_unit fraction) cap fl.

(** [fail_next_frame] is [with_fail _ true]. *)
Definition peak_bin (s : FakeSpectrumSource) : Z :=
  let last := Z.max 0 (s.(fk_bin_count) - 1) in
  Z.min (round_usize (F64.mul s.(fk_peak_fraction) (F64.of_Z last))) last.
Definition fake_bin (s : FakeSpectrumSource) (i : Z) : f32 :=
  let distance := Z.abs (i - peak_bin s) in
  if distance <=? 3 then F32.sub s.(fk_peak_dbm) (F32.mul (F32.of_Z distance) (F32.of_Z 8))
  else s.(fk_noise_floor_dbm).
Definition fake_next_frame (s : FakeSpectrumSource) : FakeSpectrumSource * result SpectrumFrame FakeSourceError :=
  if s.(fk_fail_next) then (with_fail s false, Err FakeInjected)
  else
    let bins := map (fun i => to_bits (fake_bin s (Z.of_nat i))) (seq 0 (Z.to_nat s.(fk_bin_count))) in
    let s := with_sequence s (wrapping_add_u64 s.(fk_sequence) 1) in
    (s, Ok (mk_SpectrumFrame s.(fk_center_hz) s.(fk_span_hz) (to_bits (F32.of_Z (-20))) bins s.(fk_sequence))).

Definition FAKE_BIN_COUNTS : list string := ["128"; "256"; "512"; "1024"; "2048"]%string.
Definition fake_settings (s : FakeSpectrumSource) : SpectrumSettings :=
  [ mk_SettingDescriptor "span_hz" "Span" DisplayGroup ReadWriteSetting
      (SvInt s.(fk_span_hz) 1000 2400000 1000 Hz);
    mk_SettingDescriptor "bin_count" "FFT size" DisplayGroup ReadWriteSetting (SvEnum 2 FAKE_BIN_COUNTS);
    mk_SettingDescriptor "center_hz" "Centre" SourceGroup ReadOnlySetting
      (SvInt (u64_as_i64 s.(fk_center_hz)) 0 i64_max 1 Hz) ]%string.
(** [128usize << v]: a shift of 64 or more panics, in a build that looks. *)
Definition fake_apply (s : FakeSpectrumSource) (key : string) (value : SettingValue)
  : option (FakeSpectrumSource * result () FakeSourceError) :=
  match find_setting key (fake_settings s) with
  | None => Some (s, Err (FakeUnknownKey key))
  | Some d =>
      match d.(sd_access) with
      | ReadOnlySetting => Some (s, Err (FakeReadOnly d.(sd_key)))
      | ReadWriteSetting =>
          if negb (same_kind_as d.(sd_value) value) then Some (s, Err (FakeWrongKind d.(sd_key)))
          else if negb (setting_valid value) then Some (s, Err (FakeOutOfRange d.(sd_key)))
          else if String.eqb d.(sd_key) "span_hz" then
            match value with
            | SvInt v _ _ _ _ => Some (with_span_hz s (i64_as_u32 v), Ok tt)
            | _ => Some (s, Err (FakeUnknownKey key))
            end
          else if String.eqb d.(sd_key) "bin_count" then
            match value with
            | SvEnum v _ => if v <? 64 then Some (with_bins s ((128 * 2 ^ v) mod 2 ^ 64), Ok tt) else None
            | _ => Some (s, Err (FakeUnknownKey key))
            end
          else Some (s, Err (FakeUnknownKey key))
      end
  end.
Definition fake_retune (s : FakeSpectrumSource) (dial_hz : Z) : FakeSpectrumSource := with_center_hz s dial_hz.

(** ** Lemmas *)

(** A setting is found by a key of its own. *)
Lemma find_setting_some key s d : find_setting key s = Some d -> d ∈ s /\ d.(sd_key) = key.
Proof.
  intros H. apply List.find_some in H as [Hin Heq%String.eqb_eq]. split; [by apply list_elem_of_In|done].
Qed.

(** The fake's frame: as many bins as it was told, its peak where it says,
    nothing above the peak. *)
Lemma fake_frame_bins s s' f : fake_next_frame s = (s', Ok f) ->
  length f.(sf_bins) = Z.to_nat s.(fk_bin_count)
  /\ (forall i, (i < Z.to_nat s.(fk_bin_count))%nat -> f.(sf_bins) !! i = Some (to_bits (fake_bin s (Z.of_nat i)))).
Proof.
  unfold fake_next_frame. destruct (fk_fail_next s); [by intros [= _ H]|].
  rewrite pair_equal_spec. intros [_ [= <-]]. cbn [sf_bins]. rewrite length_map, length_seq. split; [done|].
  intros i Hi. rewrite list_lookup_fmap, lookup_seq_lt by done. done.
Qed.
