(* ===== verification/RtlSdr.v ===== *)
(** * RtlSdr: a dongle on an IF tap (cat-signal-rtlsdr/src/lib.rs, dsp.rs, rtl_tcp.rs, device.rs, open.rs)

    IQ samples to corrected frames, the source assembled from the pipeline
    and whatever hands over samples, the rtl_tcp client, the device's worker
    with its one-slot handoff, and [open].  The transform (the rustfft crate)
    and librtlsdr are parameters; of the transform only that it works in
    place is used. *)

From Stdlib Require Import Floats.SpecFloat.
From S2P Require Import Prelude Text Framework Client Tcp Morse Timing Floats Capabilities Installation Signals.
From S2P Require Callsign CommandLine.

(** ** Sample rates *)

Definition SAMPLE_RATE_BANDS : list (Z * Z) := [(225001, 300000); (900001, 3200000)].
Definition is_valid_sample_rate (hz : Z) : bool :=
  existsb (fun b => (fst b <=? hz) && (hz <=? snd b)) SAMPLE_RATE_BANDS.

(** ** Samples *)

Record Complex32 : Type := mk_Complex32 { re : f32; im : f32 }.
Definition scale (c : Complex32) (w : f32) : Complex32 := mk_Complex32 (F32.mul c.(re) w) (F32.mul c.(im) w).
(** Unsigned 8-bit, centred on 127.5. *)
Definition sample_of (b : byte) : f32 := F32.div (F32.sub (F32.of_Z (unsigned b)) (F32.dec 1275 1)) (F32.dec 1275 1).
(** [chunks_exact(2)]: an odd last byte is left out. *)
Fixpoint to_complex (l : bytes) : list Complex32 :=
  match l with
  | i :: q :: l => mk_Complex32 (sample_of i) (sample_of q) :: to_complex l
  | _ => []
  end.

(** What the pipeline uses of rustfft and of [f32]'s maths. *)
Class Sdr := {
  fft_forward : list Complex32 -> list Complex32; c_norm : Complex32 -> f32;
  f32_log10 : f32 -> f32; f32_cos : f32 -> f32 }.
(** [process] of a planned transform works in place. *)
Class SdrLaws {SD : Sdr} := { fft_in_place : forall b, length (fft_forward b) = length b }.

(** ** The pipeline (dsp.rs) *)

Record SpectrumPipeline : Type := mk_Pipeline {
  p_fft_size : nat; p_window : list f32; p_window_gain : f32; p_config : IfTapConfig;
  p_sample_rate_hz : Z; p_dial_hz : Z; p_sequence : Z }.

(** [std::f32::consts::PI], [f32::MIN_POSITIVE], [1e-12] and [f32::max]. *)
Definition F32_PI : f32 := S754_finite false 13176795 (-22).
Definition F32_MIN_POSITIVE : f32 := S754_finite false 8388608 (-149).
Definition NULL_MAGNITUDE : f32 := S754_finite false 9223372 (-63).
Definition f32_max (x y : f32) : f32 :=
  if F64.is_nan x then y else if F64.is_nan y then x else if F64.ltb x y then y else x.

Section Pipeline.
Context {SD : Sdr}.

Definition hann (n : nat) : list f32 :=
  if (n <=? 1)%nat then repeat (F32.of_Z 1) n
  else map (fun i =>
         let x := F32.div (F32.mul (F32.mul F32_PI (F32.of_Z 2)) (F32.of_Z (Z.of_nat i))) (F32.of_Z (Z.of_nat (n - 1))) in
         F32.sub (F32.dec 5 1) (F32.mul (F32.dec 5 1) (f32_cos x))) (seq 0 n).
Definition gain_of (window : list f32) : f32 := f32_max (foldl F32.add (F32.of_Z 0) window) F32_MIN_POSITIVE.
Definition pipeline_new (fft_size : nat) (sample_rate_hz : Z) (config : IfTapConfig) : SpectrumPipeline :=
  mk_Pipeline fft_size (hann fft_size) (gain_of (hann fft_size)) config sample_rate_hz 0 0.
Definition set_dial_hz (p : SpectrumPipeline) (dial_hz : Z) : SpectrumPipeline :=
  mk_Pipeline p.(p_fft_size) p.(p_window) p.(p_window_gain) p.(p_config) p.(p_sample_rate_hz) dial_hz p.(p_sequence).
Definition set_trim_hz (p : SpectrumPipeline) (trim : Z) : SpectrumPipeline :=
  let c := p.(p_config) in
  mk_Pipeline p.(p_fft_size) p.(p_window) p.(p_window_gain)
    (mk_IfTapConfig c.(if_center_hz) c.(if_inverted) trim) p.(p_sample_rate_hz) p.(p_dial_hz) p.(p_sequence).
Definition set_fft_size (p : SpectrumPipeline) (n : nat) : SpectrumPipeline :=
  mk_Pipeline n (hann n) (gain_of (hann n)) p.(p_config) p.(p_sample_rate_hz) p.(p_dial_hz) p.(p_sequence).
Definition bump (p : SpectrumPipeline) : SpectrumPipeline :=
  mk_Pipeline p.(p_fft_size) p.(p_window) p.(p_window_gain) p.(p_config) p.(p_sample_rate_hz) p.(p_dial_hz)
    (wrapping_add_u64 p.(p_sequence) 1).

(** [saturating_add_signed]. *)
Definition pipeline_center_hz (p : SpectrumPipeline) : Z :=
  Z.max 0 (Z.min u64_max (p.(p_dial_hz) + p.(p_config).(trim_hz))).
Definition rotate_left {A} (k : nat) (l : list A) : list A := drop k l ++ take k l.
Definition level (p : SpectrumPipeline) (c : Complex32) : f32 :=
  let magnitude := F32.div (c_norm c) p.(p_window_gain) in
  if F64.leb magnitude NULL_MAGNITUDE then F32.of_Z (-200) else F32.mul (F32.of_Z 20) (f32_log10 magnitude).
(** The transform of the first block, windowed. *)
Definition transformed (p : SpectrumPipeline) (iq : list Complex32) : list Complex32 :=
  fft_forward (zip_with scale (take p.(p_fft_size) iq) p.(p_window)).
Definition process (p : SpectrumPipeline) (iq : list Complex32) : SpectrumPipeline * option SpectrumFrame :=
  if (length iq <? p.(p_fft_size))%nat then (p, None)
  else
    let buffer := rotate_left (p.(p_fft_size) / 2) (transformed p iq) in
    let bins := map (fun c => to_bits (level p c)) buffer in
    let bins := if p.(p_config).(if_inverted) then rev bins else bins in
    let p := bump p in
    (p, Some (mk_SpectrumFrame (pipeline_center_hz p) p.(p_sample_rate_hz) (to_bits (F32.of_Z 0)) bins p.(p_sequence))).

(** ** The assembled source (lib.rs) *)

(** [read] may wait: [None] is a read that has not returned, within the fuel
    its loop was given. *)
Class IqSource (S E : Type) : Type := {
  iq_read : nat -> S -> nat -> option (S * result (list Complex32) E);
  frames_dropped : S -> Z }.

Inductive RtlSdrError (E : Type) : Type :=
| Device (e : E)
| UnknownSetting (key : string)
| SettingReadOnly (key : string)
| WrongKind (key : string)
| SettingOutOfRange (key : string).
#[global] Arguments Device {E} _.
#[global] Arguments UnknownSetting {E} _.
#[global] Arguments SettingReadOnly {E} _.
#[global] Arguments WrongKind {E} _.
#[global] Arguments SettingOutOfRange {E} _.

Context {S E : Type} `{!IqSource S E}.
Record RtlSdrSource : Type := mk_RtlSdrSource { rs_iq : S; rs_pipeline : SpectrumPipeline; rs_gain_db : f64 }.
Definition source_new (iq : S) (sample_rate_hz : Z) (fft_size : nat) (config : IfTapConfig) : RtlSdrSource :=
  mk_RtlSdrSource iq (pipeline_new fft_size sample_rate_hz config) f_zero.
Definition set_pipeline (s : RtlSdrSource) (p : SpectrumPipeline) : RtlSdrSource :=
  mk_RtlSdrSource s.(rs_iq) p s.(rs_gain_db).

(** The loop of [next_frame]: a short read asks again. *)
Fixpoint next_frame (fuel : nat) (s : RtlSdrSource) : option (RtlSdrSource * result SpectrumFrame (RtlSdrError E)) :=
  match fuel with
  | O => None
  | Datatypes.S fuel' =>
      '(iq, r) ← iq_read fuel s.(rs_iq) s.(rs_pipeline).(p_fft_size);
      match r with
      | Err e => Some (mk_RtlSdrSource iq s.(rs_pipeline) s.(rs_gain_db), Err (Device e))
      | Ok samples =>
          let '(p, frame) := process s.(rs_pipeline) samples in
          let s := mk_RtlSdrSource iq p s.(rs_gain_db) in
          match frame with Some f => Some (s, Ok f) | None => next_frame fuel' s end
      end
  end.

Definition source_capability (s : RtlSdrSource) : SignalCapability := CapIfTap s.(rs_pipeline).(p_config).
Definition FFT_SIZES : list string := ["256"; "512"; "1024"; "2048"; "4096"]%string.
(** The sizes those words parse to. *)
Definition fft_sizes : list Z := [256; 512; 1024; 2048; 4096].
Definition fft_size_index (size : Z) : Z :=
  match list_find (fun z => z = size) fft_sizes with Some (i, _) => Z.of_nat i | None => 2 end.
Definition settings (s : RtlSdrSource) : SpectrumSettings :=
  let config := s.(rs_pipeline).(p_config) in
  [ mk_SettingDescriptor "if_center_hz" "IF centre" SourceGroup ReadOnlySetting
      (SvInt (u64_as_i64 config.(if_center_hz)) 0 i64_max 1 Hz);
    mk_SettingDescriptor "inverted" "Inverted IF" SourceGroup ReadOnlySetting (SvBool config.(if_inverted));
    mk_SettingDescriptor "trim_hz" "Frequency trim" CalibrationGroup ReadWriteSetting
      (SvInt config.(trim_hz) (-50000) 50000 1 Hz);
    mk_SettingDescriptor "sample_rate_hz" "Sample rate" SourceGroup ReadOnlySetting
      (SvInt s.(rs_pipeline).(p_sample_rate_hz) 225001 3200000 1 Sps);
    mk_SettingDescriptor "gain_db" "Gain" SourceGroup ReadWriteSetting
      (SvFloat s.(rs_gain_db) f_zero (F64.dec 496 1) Db);
    mk_SettingDescriptor "fft_size" "FFT size" DisplayGroup ReadWriteSetting
      (SvEnum (fft_size_index (Z.of_nat s.(rs_pipeline).(p_fft_size))) FFT_SIZES);
    mk_SettingDescriptor "frames_dropped" "Frames dropped" DisplayGroup ReadOnlySetting
      (SvInt (u64_as_i64 (frames_dropped s.(rs_iq))) 0 i64_max 1 NoUnit) ]%string.

(** The last [match] of [apply]; [None] is the panic of [FFT_SIZES[v]]. *)
Definition apply_value (s : RtlSdrSource) (key : string) (d : SettingDescriptor) (value : SettingValue)
  : option (RtlSdrSource * result () (RtlSdrError E)) :=
  if String.eqb d.(sd_key) "trim_hz" then
    match value with
    | SvInt v _ _ _ _ => Some (set_pipeline s (set_trim_hz s.(rs_pipeline) (i64_as_i32 v)), Ok tt)
    | _ => Some (s, Err (UnknownSetting key))
    end
  else if String.eqb d.(sd_key) "gain_db" then
    match value with
    | SvFloat v _ _ _ => Some (mk_RtlSdrSource s.(rs_iq) s.(rs_pipeline) v, Ok tt)
    | _ => Some (s, Err (UnknownSetting key))
    end
  else if String.eqb d.(sd_key) "fft_size" then
    match value with
    | SvEnum v _ =>
        n ← fft_sizes !! Z.to_nat v;
        Some (set_pipeline s (set_fft_size s.(rs_pipeline) (Z.to_nat n)), Ok tt)
    | _ => Some (s, Err (UnknownSetting key))
    end
  else Some (s, Err (UnknownSetting key)).
Definition apply (s : RtlSdrSource) (key : string) (value : SettingValue)
  : option (RtlSdrSource * result () (RtlSdrError E)) :=
  match find_setting key (settings s) with
  | None => Some (s, Err (UnknownSetting key))
  | Some d =>
      match d.(sd_access) with
      | ReadOnlySetting => Some (s, Err (SettingReadOnly d.(sd_key)))
      | ReadWriteSetting =>
          if negb (same_kind_as d.(sd_value) value) then Some (s, Err (WrongKind d.(sd_key)))
          else if negb (setting_valid value) then Some (s, Err (SettingOutOfRange d.(sd_key)))
          else apply_value s key d value
      end
  end.
Definition retune (s : RtlSdrSource) (dial_hz : Z) : RtlSdrSource :=
  set_pipeline s (set_dial_hz s.(rs_pipeline) dial_hz).
End Pipeline.
#[global] Arguments RtlSdrSource S : clear implicits.

(** ** rtl_tcp (rtl_tcp.rs) *)

Inductive RtlTcpCommand : Type := SetFrequency | SetSampleRate | SetGainMode | SetGain.
Definition opcode (c : RtlTcpCommand) : Z :=
  match c with SetFrequency => 1 | SetSampleRate => 2 | SetGainMode => 3 | SetGain => 4 end.
Record Dongle : Type := mk_Dongle { magic : bytes; tuner_id : Z; gain_count : Z }.
Inductive RtlTcpError : Type := RtlIo (e : IoError) | NotADongle (magic : bytes) | Closed.

Section RtlTcp.
Context {T : Type} `{!TcpStream T}.
Record RtlTcpSource : Type := mk_RtlTcpSource { rt_stream : T; rt_dongle : Dongle; rt_partial : option byte }.
(** [connect], on the stream the system opened. *)
Definition connect (stream : T) : result RtlTcpSource RtlTcpError :=
  let '(stream, r) := read_exact stream 12 in
  let? greeting := map_err RtlIo r in
  let magic := take 4 greeting in
  if negb (bool_decide (magic = as_bytes "RTL0")) then Err (NotADongle magic)
  else Ok (mk_RtlTcpSource stream
             (mk_Dongle magic (from_be_bytes (take 4 (drop 4 greeting))) (from_be_bytes (take 4 (drop 8 greeting)))) None).
Definition command (s : RtlTcpSource) (c : RtlTcpCommand) (value : Z) : RtlTcpSource * result () RtlTcpError :=
  let frame := u8 (opcode c) :: to_be_bytes 4 value in
  let '(stream, r) := write_all s.(rt_stream) frame in
  (mk_RtlTcpSource stream s.(rt_dongle) s.(rt_partial), map_err RtlIo r).
Definition set_frequency_hz (s : RtlTcpSource) (hz : Z) : RtlTcpSource * result () RtlTcpError :=
  command s SetFrequency hz.
Definition set_sample_rate_hz (s : RtlTcpSource) (hz : Z) : RtlTcpSource * result () RtlTcpError :=
  command s SetSampleRate hz.

(** The [while] of [read]: what is still missing is asked for, any failure
    leaves the loop with what it had. *)
Fixpoint fill (fuel : nat) (stream : T) (want : nat) (out : bytes) : option (T * result bytes RtlTcpError) :=
  match fuel with
  | O => None
  | S fuel =>
      if (want <=? length out)%nat then Some (stream, Ok out)
      else
        let '(stream, r) := read stream (want - length out) in
        match r with
        | Err e => Some (stream, Err (RtlIo e))
        | Ok [] => Some (stream, Err Closed)
        | Ok chunk => fill fuel stream want (out ++ chunk)
        end
  end.
(** [partial.take()] first; an odd last byte is kept for next time. *)
Definition rtl_read (fuel : nat) (s : RtlTcpSource) (wanted : nat)
  : option (RtlTcpSource * result (list Complex32) RtlTcpError) :=
  '(stream, r) ← fill fuel s.(rt_stream) (wanted * 2) (match s.(rt_partial) with Some b => [b] | None => [] end);
  match r with
  | Err e => Some (mk_RtlTcpSource stream s.(rt_dongle) None, Err e)
  | Ok out =>
      Some (if Nat.odd (length out)
            then (mk_RtlTcpSource stream s.(rt_dongle) (last out), Ok (to_complex (removelast out)))
            else (mk_RtlTcpSource stream s.(rt_dongle) None, Ok (to_complex out)))
  end.
#[export] Instance rtl_tcp_source : IqSource RtlTcpSource RtlTcpError :=
  { iq_read := rtl_read; frames_dropped _ := 0 }.
End RtlTcp.
#[global] Arguments RtlTcpSource T : clear implicits.

(** ** The worker's slot (device.rs) *)

(** What the messages are formatted from: [Configure] of a refused rate, and
    of a driver call that failed. *)
Inductive ConfigureFault : Type := RateNotSettable (hz : Z) | CallFailed (what : string) (why : text).
Inductive DeviceError : Type :=
| NotFound (index : Z)
| DriverNotUsable (why : text)
| OpenFailed (why : text)
| Configure (f : ConfigureFault)
| Stopped.
Definition check_sample_rate (hz : Z) : result () DeviceError :=
  refuse_if (negb (is_valid_sample_rate hz)) (Configure (RateNotSettable hz)).

Record Slot : Type := mk_Slot { held : option (list Complex32); slot_dropped : Z; running : bool }.
Definition slot_new : Slot := mk_Slot None 0 true.
(** One turn of the worker's loop: newest wins, and what it replaced counts. *)
Definition slot_put (samples : list Complex32) (s : Slot) : Slot :=
  mk_Slot (Some samples)
    (match s.(held) with Some _ => wrapping_add_u64 s.(slot_dropped) 1 | None => s.(slot_dropped) end) s.(running).
(** The worker's end. *)
Definition slot_end (s : Slot) : Slot := mk_Slot s.(held) s.(slot_dropped) false.
(** [read]; [None] while it waits for [ready]. *)
Definition slot_read (s : Slot) : option (Slot * result (list Complex32) DeviceError) :=
  match s.(held) with
  | Some buffer => Some (mk_Slot None s.(slot_dropped) s.(running), Ok buffer)
  | None => if s.(running) then None else Some (s, Err Stopped)
  end.
#[export] Instance device_source : IqSource Slot DeviceError :=
  { iq_read _ s _ := slot_read s; frames_dropped := slot_dropped }.

(** Worker and consumer, interleaved: what [read_sync] gave the worker, or a
    [read] of the consumer.  A worker that has ended does nothing; a [read]
    that waits is tried again later. *)
Inductive SlotEvent : Type := WorkerRead (r : option bytes) | ConsumerRead.
Definition slot_step (s : Slot) (e : SlotEvent) : Slot * list (result (list Complex32) DeviceError) :=
  match e with
  | WorkerRead r =>
      (if s.(running) then match r with Some b => slot_put (to_complex b) s | None => slot_end s end else s, [])
  | ConsumerRead => match slot_read s with Some (s, r) => (s, [r]) | None => (s, []) end
  end.
Fixpoint slot_run (s : Slot) (es : list SlotEvent) : Slot * list (result (list Complex32) DeviceError) :=
  match es with
  | [] => (s, [])
  | e :: es => let '(s, a) := slot_step s e in let '(s, b) := slot_run s es in (s, a ++ b)
  end.

(** ** Opening the device *)

Inductive DriverCall : Type :=
| OpenDevice (index : Z) | CallSampleRate (hz : Z) | CallCenterFreq (hz : Z) | CallGainMode (manual : bool) | CallResetBuffer.
(** librtlsdr: how it answers a call, with the error as it prints. *)
Class Driver := { driver : DriverCall -> result () text }.

Fixpoint starts (p t : text) : bool :=
  match p, t with
  | [], _ => true
  | a :: p, b :: t => (a =? b) && starts p t
  | _, [] => false
  end.
Fixpoint contains (p t : text) : bool :=
  starts p t || match t with [] => false | _ :: t => contains p t end.
Definition map_open_error (index : Z) (why : text) : DeviceError :=
  if contains (txt "Access") why || contains (txt "claim") why || contains (txt "busy") why then DriverNotUsable why
  else if contains (txt "NoDevice") why || contains (txt "not found") why then NotFound index
  else OpenFailed why.

Section OpenDevice.
Context {DR : Driver}.
(** The [and_then] chain: the calls made, up to the first that fails. *)
Fixpoint configure (calls : list (string * DriverCall)) : list DriverCall * result () DeviceError :=
  match calls with
  | [] => ([], Ok tt)
  | (what, call) :: calls =>
      match driver call with
      | Err why => ([call], Err (Configure (CallFailed what why)))
      | Ok _ => let '(made, r) := configure calls in (call :: made, r)
      end
  end.
(** [RtlSdrDevice::open], with the calls its thread makes of the driver. *)
Definition device_open (index if_center_hz sample_rate_hz : Z) : list DriverCall * result Slot DeviceError :=
  match check_sample_rate sample_rate_hz with
  | Err e => ([], Err e)
  | Ok _ =>
      match driver (OpenDevice index) with
      | Err why => ([OpenDevice index], Err (map_open_error index why))
      | Ok _ =>
          let '(made, r) := configure
            [("sample rate", CallSampleRate sample_rate_hz); ("centre frequency", CallCenterFreq (if_center_hz mod 2 ^ 32));
             ("gain mode", CallGainMode false); ("buffer reset", CallResetBuffer)]%string in
          (OpenDevice index :: made, let? _ := r in Ok slot_new)
      end
  end.
End OpenDevice.

(** ** [open] (open.rs) *)

Definition DEVICE_SPEC_PREFIX : text := txt "rtl:".
Inductive IfEndpoint : Type := EndDevice (spec : text) | EndNetwork (addr : text).
Definition endpoint_parse (spec : text) : IfEndpoint :=
  if starts DEVICE_SPEC_PREFIX spec then EndDevice spec else EndNetwork spec.
Definition is_device (e : IfEndpoint) : bool := match e with EndDevice _ => true | EndNetwork _ => false end.
Definition device_spec (index : Z) : text := DEVICE_SPEC_PREFIX ++ Callsign.show index.
Record IfSourceConfig : Type := mk_IfSourceConfig { c_sample_rate_hz : Z; c_fft_size : nat }.
Definition DEFAULT_SAMPLE_RATE_HZ : Z := 240000.
Definition DEFAULT_FFT_SIZE : nat := 2048.
Definition default_config : IfSourceConfig := mk_IfSourceConfig DEFAULT_SAMPLE_RATE_HZ DEFAULT_FFT_SIZE.
(** The last two with what their messages are formatted from. *)
Inductive OpenError : Type :=
| RateRefused (hz : Z)
| BadDeviceSpec (spec : text)
| NoDeviceSupport (spec : text)
| DeviceFailed (spec : text) (e : DeviceError)
| NetworkFailed (addr : text) (e : RtlTcpError).

(** [trim_start_matches]: as often as the prefix is there; [fuel] bounds how
    often that can be. *)
Fixpoint trim_prefixes (fuel : nat) (p t : text) : text :=
  match fuel with
  | O => t
  | S fuel => if starts p t then trim_prefixes fuel p (drop (length p) t) else t
  end.
Definition trim_start_matches (p t : text) : text := trim_prefixes (length t) p t.

Section Open.
Context {SD : Sdr} {DR : Driver} {T : Type} `{!TcpStream T}.
Inductive IfSource : Type :=
| NetworkSource (s : RtlSdrSource (RtlTcpSource T))
| DeviceSource (s : RtlSdrSource Slot).
Definition source_pipeline (s : IfSource) : SpectrumPipeline :=
  match s with NetworkSource s => s.(rs_pipeline) | DeviceSource s => s.(rs_pipeline) end.
(** [either!]: the calls of [SpectrumSource] go to whichever it is. *)
Definition if_capability (s : IfSource) : SignalCapability :=
  match s with NetworkSource s => source_capability s | DeviceSource s => source_capability s end.
Definition if_settings (s : IfSource) : SpectrumSettings :=
  match s with NetworkSource s => settings s | DeviceSource s => settings s end.
Definition if_retune (s : IfSource) (dial_hz : Z) : IfSource :=
  match s with NetworkSource s => NetworkSource (retune s dial_hz) | DeviceSource s => DeviceSource (retune s dial_hz) end.

(** [open_device], with the [device] feature and without. *)
Definition open_device (device_feature : bool) (spec : text) (tap : IfTapConfig) (c : IfSourceConfig)
  : list DriverCall * result IfSource OpenError :=
  if device_feature then
    match CommandLine.parse_unsigned u32_max (trim_start_matches DEVICE_SPEC_PREFIX spec) with
    | None => ([], Err (BadDeviceSpec spec))
    | Some index =>
        let '(calls, r) := device_open index tap.(if_center_hz) c.(c_sample_rate_hz) in
        (calls, let? device := map_err (DeviceFailed spec) r in
                Ok (DeviceSource (source_new device c.(c_sample_rate_hz) c.(c_fft_size) tap)))
    end
  else ([], Err (NoDeviceSupport spec)).
(** [dial] is the connection the system makes to an address. *)
Definition open (device_feature : bool) (dial : text -> result T IoError) (spec : text) (tap : IfTapConfig)
    (c : IfSourceConfig) : list DriverCall * result IfSource OpenError :=
  if negb (is_valid_sample_rate c.(c_sample_rate_hz)) then ([], Err (RateRefused c.(c_sample_rate_hz)))
  else
    match endpoint_parse spec with
    | EndNetwork addr =>
        ([], let? stream := map_err (fun e => NetworkFailed addr (RtlIo e)) (dial addr) in
             let? iq := map_err (NetworkFailed addr) (connect stream) in
             Ok (NetworkSource (source_new iq c.(c_sample_rate_hz) c.(c_fft_size) tap)))
    | EndDevice spec => open_device device_feature spec tap c
    end.
End Open.
