(* ===== verification/RtlSdrTheorems.v ===== *)
(** * RtlSdrTheorems: what an IF tap promises

    Which transform bin each bin of a frame is, the frames of an rtl_tcp
    stream however it is cut up, settings that read back, the slot's accounts,
    and what [open] writes to a tuner. *)

From Stdlib Require Import Floats.SpecFloat.
From S2P Require Import Prelude Text Framework Client Tcp Morse Timing Floats Capabilities Installation Signals RtlSdr.
From S2P Require Callsign CommandLine.

(** ** Which bin is which *)

Lemma rotate_left_lookup {A} (k : nat) (l : list A) (i : nat) : (k <= length l)%nat -> (i < length l)%nat ->
  rotate_left k l !! i = l !! ((i + k) mod length l)%nat.
Proof.
  intros Hk Hi. unfold rotate_left. destruct (decide (i < length l - k)%nat) as [Hlt|Hge].
  - rewrite lookup_app_l, lookup_drop by (rewrite length_drop; lia).
    rewrite Nat.mod_small by lia. f_equal. lia.
  - rewrite lookup_app_r, length_drop, lookup_take_lt by (rewrite ?length_drop; lia).
    rewrite <- (Nat.mod_unique (i + k) (length l) 1 (i - (length l - k))) by lia. done.
Qed.
Lemma rev_lookup {A} (l : list A) (i : nat) : (i < length l)%nat -> rev l !! i = l !! (length l - 1 - i)%nat.
Proof.
  intros Hi. rewrite rev_alt. change (reverse l !! i = l !! (length l - 1 - i)%nat).
  rewrite reverse_lookup by done. f_equal. lia.
Qed.

(** The transform's output is from DC up to half the sample rate and then from
    minus half of it up: what bin [k] of [n] is off the sampled centre, in bins. *)
Definition if_offset (n k : nat) : Z := if (2 * k <? n)%nat then Z.of_nat k else Z.of_nat k - Z.of_nat n.
(** High-side injection mirrors the IF: above the dial is below the sampled centre. *)
Definition rf_offset (p : SpectrumPipeline) (k : nat) : Z :=
  if p.(p_config).(if_inverted) then - if_offset p.(p_fft_size) k else if_offset p.(p_fft_size) k.
(** What [SpectrumFrame::bin_frequency_hz] says of bin [i], before any rounding
    and times twice the number of bins:
    [center - span / 2 + (i + 1/2) * (span / n)]. *)
Definition scaled_frequency (f : SpectrumFrame) (i : nat) : Z :=
  let n := Z.of_nat (length f.(sf_bins)) in
  2 * n * f.(center_hz) - n * f.(sf_span_hz) + (2 * Z.of_nat i + 1) * f.(sf_span_hz).

Section Theorems.
Context {SD : Sdr}.

Lemma length_hann n : length (hann n) = n.
Proof. unfold hann. destruct (n <=? 1)%nat; [apply repeat_length|by rewrite length_map, length_seq]. Qed.
(** A pipeline whose window is of its size. *)
Definition fitted (p : SpectrumPipeline) : Prop := length p.(p_window) = p.(p_fft_size).
Lemma fitted_new n rate c : fitted (pipeline_new n rate c).
Proof. apply length_hann. Qed.
Lemma fitted_set_fft_size p n : fitted (set_fft_size p n).
Proof. apply length_hann. Qed.

Lemma length_transformed {SL : SdrLaws} p iq : fitted p -> (p.(p_fft_size) <= length iq)%nat ->
  length (transformed p iq) = p.(p_fft_size).
Proof.
  intros Hf Hl. unfold transformed. rewrite fft_in_place, length_zip_with, length_take, Hf. lia.
Qed.
Lemma process_enough p iq : (p.(p_fft_size) <= length iq)%nat -> exists f, process p iq = (bump p, Some f).
Proof. intros H. unfold process. rewrite (proj2 (Nat.ltb_ge _ _)) by done. by eexists. Qed.

(** The transform bin that bin [i] of a frame of [2 * h] holds. *)
Lemma rotated_offset h i : (i < 2 * h)%nat ->
  ((i + h) mod (2 * h) < 2 * h)%nat /\ if_offset (2 * h) ((i + h) mod (2 * h)) = Z.of_nat i - Z.of_nat h.
Proof.
  intros Hi. split; [apply Nat.mod_upper_bound; lia|]. unfold if_offset. destruct (decide (i < h)%nat).
  - rewrite Nat.mod_small by lia. destruct (Nat.ltb_spec (2 * (i + h)) (2 * h)); lia.
  - rewrite <- (Nat.mod_unique (i + h) (2 * h) 1 (i - h)) by lia. destruct (Nat.ltb_spec (2 * (i - h)) (2 * h)); lia.
Qed.
(** Bin [i] of the pipeline's output, and what was received there. *)
Lemma process_bin {SL : SdrLaws} p iq p' f i : fitted p -> Nat.Even p.(p_fft_size) ->
  process p iq = (p', Some f) -> (i < p.(p_fft_size))%nat ->
  exists k, (k < p.(p_fft_size))%nat
    /\ f.(sf_bins) !! i = (fun c => to_bits (level p c)) <$> transformed p iq !! k
    /\ rf_offset p k = Z.of_nat i - Z.of_nat (p.(p_fft_size) / 2) + (if p.(p_config).(if_inverted) then 1 else 0).
Proof.
  intros Hf [h Hh] H Hi. unfold process in H. destruct (Nat.ltb_spec (length iq) (p_fft_size p)) as [|Hl]; [done|].
  apply pair_equal_spec in H as [_ H]. apply (inj Some) in H as <-.
  pose proof (length_transformed p iq Hf Hl) as Ht. cbn [sf_bins]. unfold rf_offset.
  assert (Hhalf : (p_fft_size p / 2)%nat = h) by (rewrite Hh, Nat.mul_comm; by apply Nat.div_mul). rewrite Hhalf.
  set (g := fun c => to_bits (level p c)). set (t := transformed p iq) in *.
  destruct (if_inverted _).
  - destruct (rotated_offset h (2 * h - 1 - i)) as [Hk Ho]; [lia|].
    exists ((2 * h - 1 - i + h) mod (2 * h))%nat. rewrite Hh. split; [done|]. split; [|rewrite Ho; lia].
    assert (Hr : length (map g (rotate_left h t)) = (2 * h)%nat).
    { rewrite length_map. unfold rotate_left. rewrite length_app, length_drop, length_take. lia. }
    rewrite rev_lookup, Hr, list_lookup_fmap, rotate_left_lookup, Ht, Hh by lia. done.
  - destruct (rotated_offset h i) as [Hk Ho]; [lia|]. exists ((i + h) mod (2 * h))%nat. rewrite Hh.
    split; [done|]. split; [|rewrite Ho; lia]. rewrite list_lookup_fmap, rotate_left_lookup, Ht, Hh by lia. done.
Qed.
Lemma process_shape {SL : SdrLaws} p iq p' f : fitted p -> process p iq = (p', Some f) ->
  length f.(sf_bins) = p.(p_fft_size) /\ f.(sf_span_hz) = p.(p_sample_rate_hz)
  /\ f.(center_hz) = Z.max 0 (Z.min u64_max (p.(p_dial_hz) + p.(p_config).(trim_hz))).
Proof.
  intros Hf H. unfold process in H. destruct (Nat.ltb_spec (length iq) (p_fft_size p)) as [|Hl]; [done|].
  apply pair_equal_spec in H as [_ H]. apply (inj Some) in H as <-. cbn [sf_bins sf_span_hz center_hz]. split; [|done].
  pose proof (length_transformed p iq Hf Hl) as Ht.
  assert (Hr : length (map (fun c => to_bits (level p c)) (rotate_left (p_fft_size p / 2) (transformed p iq))) = p_fft_size p).
  { rewrite length_map. unfold rotate_left. rewrite length_app, length_drop, length_take. lia. }
  by destruct (if_inverted _); [rewrite length_rev|].
Qed.

(** C33. Every frame is low frequency first, and off by half a bin.  Of a
    transform of an even size, bin [i] of the frame holds the level received at
    one place of the band, mirrored back on an inverted IF; that place is half
    a bin below the frequency [SpectrumFrame::bin_frequency_hz] gives bin [i],
    half a bin above it on an inverted IF, so that a higher bin is always a
    higher frequency by as many bins.  The frame has as many bins as the
    transform, its span is the sample rate, and its centre is dial plus trim,
    never the IF. *)
Theorem bins_low_first {SL : SdrLaws} p iq p' f : fitted p -> Nat.Even p.(p_fft_size) ->
  process p iq = (p', Some f) ->
  length f.(sf_bins) = p.(p_fft_size) /\ f.(sf_span_hz) = p.(p_sample_rate_hz)
  /\ f.(center_hz) = Z.max 0 (Z.min u64_max (p.(p_dial_hz) + p.(p_config).(trim_hz)))
  /\ forall i, (i < p.(p_fft_size))%nat -> exists k, (k < p.(p_fft_size))%nat
       /\ f.(sf_bins) !! i = (fun c => to_bits (level p c)) <$> transformed p iq !! k
       /\ 2 * Z.of_nat p.(p_fft_size) * f.(center_hz) + 2 * p.(p_sample_rate_hz) * rf_offset p k
          = scaled_frequency f i + (if p.(p_config).(if_inverted) then 1 else -1) * p.(p_sample_rate_hz).
Proof.
  intros Hf He H. destruct (process_shape p iq p' f Hf H) as (Hn & Hs & Hc). do 3 (split; [done|]).
  intros i Hi. destruct (process_bin p iq p' f i Hf He H Hi) as (k & Hk & Hb & Ho). exists k.
  split; [done|]. split; [done|]. unfold scaled_frequency. rewrite Hn, Hs, Ho. destruct He as [h Hh].
  assert (Hhalf : (p_fft_size p / 2)%nat = h) by (rewrite Hh, Nat.mul_comm; by apply Nat.div_mul).
  rewrite Hhalf, Hh. destruct (if_inverted _); lia.
Qed.

(** ** The frames of a stream *)

Lemma to_complex_take n l : (n * 2 <= length l)%nat -> to_complex (take (n * 2) l) = take n (to_complex l).
Proof.
  revert l; induction n as [|n IH]; intros l Hl; [by rewrite !take_0|].
  destruct l as [|i [|q l]]; cbn in Hl; [lia..|]. change (S n * 2)%nat with (S (S (n * 2))). cbn. f_equal. apply IH. lia.
Qed.
Lemma to_complex_drop n l : (n * 2 <= length l)%nat -> to_complex (drop (n * 2) l) = drop n (to_complex l).
Proof.
  revert l; induction n as [|n IH]; intros l Hl; [by rewrite !drop_0|].
  destruct l as [|i [|q l]]; cbn in Hl; [lia..|]. change (S n * 2)%nat with (S (S (n * 2))). cbn. apply IH. lia.
Qed.
Lemma length_to_complex n l : length l = (n * 2)%nat -> length (to_complex l) = n.
Proof.
  revert l; induction n as [|n IH]; intros [|i [|q l]] Hl; cbn in *; [done|lia..|]. f_equal. apply IH. lia.
Qed.

Context {T : Type} `{!TcpStream T} `{!TcpStreamLaws T}.

(** A stream no signal interrupts gives the bytes asked for, or ends. *)
Lemma fill_enough fuel : forall (s : T) c want out,
  delivers s c -> patience s = 0%nat -> (length out <= want)%nat -> (want - length out < fuel)%nat ->
  exists s', sent s' = sent s /\ patience s' = 0%nat
    /\ (if (want - length out <=? length c)%nat
        then fill fuel s want out = Some (s', Ok (out ++ take (want - length out) c))
             /\ delivers s' (drop (want - length out) c)
        else fill fuel s want out = Some (s', Err Closed)).
Proof.
  induction fuel as [|fuel IH]; intros s c want out Hd Hp Hl Hf; [lia|]. cbn [fill].
  destruct (Nat.leb_spec want (length out)) as [Hw|Hw].
  { exists s. replace (want - length out)%nat with 0%nat by lia. rewrite take_0, drop_0, app_nil_r. done. }
  destruct (read_law s c (want - length out) Hd ltac:(lia))
    as (s' & Hs & [(_ & _ & Hp')|[(-> & -> & Hd' & Hp')|(chunk & c' & -> & Hn & -> & Hd' & Hp')]]); [lia| |].
  - exists s'. rewrite (proj2 (Nat.leb_gt _ _)) by (cbn; lia). split_and!; [done|lia|done].
  - destruct chunk as [|b chunk]; [cbn in Hn; lia|]. set (ch := b :: chunk) in *.
    destruct (IH s' c' want (out ++ ch) Hd' ltac:(lia)) as (s2 & Hs2 & Hp2 & Hr); rewrite ?length_app; [lia..|].
    exists s2. split; [congruence|]. split; [done|]. rewrite length_app in Hr.
    replace (want - length out)%nat with (length ch + (want - (length out + length ch)))%nat by lia.
    destruct (Nat.leb_spec (want - (length out + length ch)) (length c')) as [Hc|Hc];
      [rewrite (proj2 (Nat.leb_le _ _)) by lia|rewrite (proj2 (Nat.leb_gt _ _)) by lia; done].
    destruct Hr as [-> Hd2]. rewrite take_app_add, drop_app_add, <- app_assoc. done.
Qed.

(** A source on such a stream, no byte kept over. *)
Definition at_stream (s : RtlSdrSource (RtlTcpSource T)) (c : bytes) : Prop :=
  delivers s.(rs_iq).(rt_stream) c /\ patience s.(rs_iq).(rt_stream) = 0%nat /\ s.(rs_iq).(rt_partial) = None.
Lemma next_frame_stream s c fuel : at_stream s c -> (s.(rs_pipeline).(p_fft_size) * 2 < fuel)%nat ->
  let n := s.(rs_pipeline).(p_fft_size) in
  if (n * 2 <=? length c)%nat
  then exists s' f, next_frame fuel s = Some (s', Ok f) /\ at_stream s' (drop (n * 2) c)
         /\ process s.(rs_pipeline) (take n (to_complex c)) = (s'.(rs_pipeline), Some f)
         /\ s'.(rs_pipeline) = bump s.(rs_pipeline)
  else exists s', next_frame fuel s = Some (s', Err (Device Closed)).
Proof.
  intros (Hd & Hp & Hn) Hf n. destruct fuel as [|fuel]; [lia|]. cbn [next_frame]. cbn [iq_read rtl_tcp_source].
  unfold rtl_read. rewrite Hn.
  destruct (fill_enough (S fuel) _ c (n * 2) [] Hd Hp ltac:(cbn; lia) ltac:(cbn; lia)) as (s' & Hs' & Hp' & H).
  cbn [length app] in H. rewrite Nat.sub_0_r in H. fold n. destruct (Nat.leb_spec (n * 2) (length c)) as [Hc|Hc].
  - destruct H as [-> Hd']. cbn [mbind option_bind].
    assert (Hl : length (take (n * 2) c) = (n * 2)%nat) by (rewrite length_take; lia).
    rewrite Hl, Nat.odd_mul, andb_false_r. cbn [rt_stream rt_dongle].
    rewrite to_complex_take by done.
    destruct (process_enough (rs_pipeline s) (take n (to_complex c))) as [f Hpr].
    { rewrite <- to_complex_take, (length_to_complex n) by done. done. }
    rewrite Hpr. by eexists _, f.
  - rewrite H. cbn. by eexists.
Qed.

(** [k] calls of [next_frame], and the frames of successive blocks of samples. *)
Fixpoint next_frames (k fuel : nat) (s : RtlSdrSource (RtlTcpSource T))
  : option (RtlSdrSource (RtlTcpSource T) * result (list SpectrumFrame) (RtlSdrError RtlTcpError)) :=
  match k with
  | O => Some (s, Ok [])
  | S k =>
      '(s, r) ← next_frame fuel s;
      match r with
      | Err e => Some (s, Err e)
      | Ok f => '(s, r) ← next_frames k fuel s; Some (s, result_map (cons f) r)
      end
  end.
Fixpoint block_frames (k : nat) (p : SpectrumPipeline) (iq : list Complex32) : list SpectrumFrame :=
  match k with
  | O => []
  | S k =>
      match process p (take p.(p_fft_size) iq) with
      | (p, Some f) => f :: block_frames k p (drop p.(p_fft_size) iq)
      | (_, None) => []
      end
  end.
(** C32. The frames of an rtl_tcp stream are those of its samples in blocks,
    I first from the first byte on, however the peer and the network cut the
    bytes up: every frame the bytes hold is returned, none is lost and none
    mixes two blocks; once fewer bytes than a block are left before the end,
    the next call says the connection is closed instead of waiting. *)
Theorem rtl_tcp_frames s c k fuel : at_stream s c ->
  (k * (s.(rs_pipeline).(p_fft_size) * 2) <= length c)%nat -> (s.(rs_pipeline).(p_fft_size) * 2 < fuel)%nat ->
  exists s', next_frames k fuel s = Some (s', Ok (block_frames k s.(rs_pipeline) (to_complex c)))
    /\ length (block_frames k s.(rs_pipeline) (to_complex c)) = k
    /\ ((length c < (k + 1) * (s.(rs_pipeline).(p_fft_size) * 2))%nat ->
        exists s'', next_frame fuel s' = Some (s'', Err (Device Closed))).
Proof.
  revert s c. induction k as [|k IH]; intros s c Ha Hk Hf; pose proof (next_frame_stream s c fuel Ha Hf) as H; cbn in H.
  - exists s. split_and!; [done..|]. intros Hl. rewrite (proj2 (Nat.leb_gt _ _)) in H by lia. done.
  - rewrite (proj2 (Nat.leb_le _ _)) in H by lia. destruct H as (s1 & f & Hn & Ha1 & Hpr & Hb).
    cbn [next_frames block_frames]. rewrite Hn, Hpr. cbn [mbind option_bind].
    assert (Hs : p_fft_size (rs_pipeline s1) = p_fft_size (rs_pipeline s)) by (by rewrite Hb).
    destruct (IH s1 _ Ha1) as (s2 & -> & Hlen & Hend); [rewrite length_drop, Hs; lia|rewrite Hs; lia|].
    rewrite to_complex_drop in * by lia. exists s2. rewrite Hs. cbn [mbind option_bind result_map length]. split_and!; [done|by rewrite Hlen|].
    intros Hl. apply Hend. rewrite length_drop, Hs. lia.
Qed.
End Theorems.

(** ** Settings *)

Section Settings.
Context {SD : Sdr} {S E : Type} `{!IqSource S E}.

(** Every setting within the bounds it declares. *)
Definition declared (s : RtlSdrSource S) : Prop :=
  Forall (fun d => setting_valid d.(sd_value) = true) (settings s).
(** A value with the bounds of another, as a panel builds one from a
    descriptor. *)
Definition same_bounds (d v : SettingValue) : Prop :=
  match d, v with
  | SvInt _ a b c u, SvInt _ a' b' c' u' => (a, b, c, u) = (a', b', c', u')
  | SvFloat _ a b u, SvFloat _ a' b' u' => (a, b, u) = (a', b', u')
  | SvBool _, SvBool _ => True
  | SvEnum _ o, SvEnum v o' => o = o' /\ 0 <= v
  | _, _ => False
  end.
Lemma same_bounds_kind d v : same_bounds d v -> same_kind_as d v = true.
Proof. by destruct d, v. Qed.
Lemma i64_as_i32_small v : -50000 <= v <= 50000 -> i64_as_i32 v = v.
Proof. intros H. unfold i64_as_i32. rewrite Z.mod_small; lia. Qed.
(** An index of the table reads back as itself. *)
Lemma fft_sizes_back v : 0 <= v < 5 ->
  exists n, fft_sizes !! Z.to_nat v = Some n /\ fft_size_index (Z.of_nat (Z.to_nat n)) = v.
Proof.
  intros H. assert (v = 0 \/ v = 1 \/ v = 2 \/ v = 3 \/ v = 4) as [->|[->|[->|[->| ->]]]] by lia;
    (eexists; split; [reflexivity|vm_compute; reflexivity]).
Qed.
(** What is written is a value of the descriptor's own kind and bounds. *)
Lemma apply_value_back (s : RtlSdrSource S) key d v :
  d ∈ settings s -> d.(sd_key) = key -> d.(sd_access) = ReadWriteSetting ->
  same_bounds d.(sd_value) v -> setting_valid v = true ->
  exists s', apply_value (E := E) s key d v = Some (s', Ok tt)
    /\ settings s' = map (fun x => if String.eqb x.(sd_key) key
         then mk_SettingDescriptor x.(sd_key) x.(sd_label) x.(sd_group) x.(sd_access) v else x) (settings s).
Proof.
  intros Hin <- Ha Hb Hv. unfold settings in Hin. rewrite !elem_of_cons in Hin.
  destruct Hin as [->|[->|[->|[->|[->|[->|[->|Hin]]]]]]]; try discriminate Ha; [| | |by apply not_elem_of_nil in Hin];
    destruct v as [x a b c u|x a b u| |x o]; try contradiction; cbn [sd_value same_bounds] in Hb.
  - injection Hb as <- <- <- <-. cbn [setting_valid] in Hv. eexists. split; [reflexivity|].
    unfold settings, set_pipeline, set_trim_hz. cbn. rewrite i64_as_i32_small by lia. reflexivity.
  - injection Hb as <- <- <-. eexists. split; [reflexivity|]. reflexivity.
  - destruct Hb as [<- Hx]. change ((x <? 5) = true) in Hv.
    destruct (fft_sizes_back x ltac:(lia)) as (n & Hn & Hback). unfold apply_value. cbn [sd_key String.eqb].
    change (String.eqb "fft_size" "trim_hz") with false. change (String.eqb "fft_size" "gain_db") with false. cbn match.
    rewrite Hn. eexists. split; [reflexivity|]. unfold settings, set_pipeline, set_fft_size. cbn -[fft_size_index].
    rewrite Hback. reflexivity.
Qed.

(** A setting written with the bounds it was described with reads back.
    [apply] never panics on such a value; it takes it exactly when the setting
    is writable and the value is inside the declared bounds, and then that
    setting alone has changed and has the value; otherwise the source is as it
    was.  Either way every setting is still within what it declares. *)
Theorem apply_reads_back (s : RtlSdrSource S) key d v :
  declared s -> find_setting key (settings s) = Some d -> same_bounds d.(sd_value) v ->
  exists s' r, apply (E := E) s key v = Some (s', r) /\ declared s'
    /\ match r with
       | Ok _ => setting_writable key (settings s) = true /\ setting_valid v = true
           /\ settings s' = map (fun x => if String.eqb x.(sd_key) key
                then mk_SettingDescriptor x.(sd_key) x.(sd_label) x.(sd_group) x.(sd_access) v else x) (settings s)
       | Err e => s' = s
           /\ (e = SettingReadOnly key /\ setting_writable key (settings s) = false
               \/ e = SettingOutOfRange key /\ setting_valid v = false)
       end.
Proof.
  intros Hd Hf Hb. unfold apply, setting_writable. rewrite Hf. destruct (find_setting_some _ _ _ Hf) as [Hin <-].
  destruct (sd_access d) eqn:Ha; [by eexists _, _; eauto 6|].
  rewrite (same_bounds_kind _ _ Hb). cbn [negb]. destruct (setting_valid v) eqn:Hv; cbn [negb]; [|by eexists _, _; eauto 6].
  destruct (apply_value_back s _ d v Hin eq_refl Ha Hb Hv) as (s' & -> & Hs). eexists _, _. split; [done|].
  split; [|done]. unfold declared in *. rewrite Hs. apply Forall_map. eapply Forall_impl; [exact Hd|].
  intros x Hx. cbn beta. by destruct (String.eqb _ _).
Qed.

(** The bounds checked are those the caller's value brings, not those the
    source declares: any [i64] is taken as a trim when it comes as its own
    minimum and maximum, and only its low 32 bits are kept; a size beyond the
    table, offered with a longer list of options, panics. *)
Theorem apply_trusts_caller (s : RtlSdrSource S) v :
  apply (E := E) s "trim_hz" (SvInt v v v 1 Hz)
    = Some (set_pipeline s (set_trim_hz s.(rs_pipeline) (i64_as_i32 v)), Ok tt)
  /\ apply (E := E) s "fft_size" (SvEnum 5 (FFT_SIZES ++ ["8192"%string])) = None.
Proof. split; [|reflexivity]. unfold apply. cbn. by rewrite !Z.leb_refl. Qed.
End Settings.

(** ** The slot's accounts *)

(** The buffers the worker made of what it read, up to its end. *)
Fixpoint produced (es : list SlotEvent) : list (list Complex32) :=
  match es with
  | [] => []
  | WorkerRead (Some b) :: es => to_complex b :: produced es
  | WorkerRead None :: _ => []
  | ConsumerRead :: es => produced es
  end.
Definition delivered_of (r : result (list Complex32) DeviceError) : list (list Complex32) :=
  match r with Ok b => [b] | Err _ => [] end.
Definition delivered (rs : list (result (list Complex32) DeviceError)) : list (list Complex32) :=
  concat (map delivered_of rs).
Definition held_list (s : Slot) : list (list Complex32) := match s.(held) with Some b => [b] | None => [] end.

(** From any state: what it held first, then what is made while it runs. *)
Lemma slot_run_accounts es : forall s s' rs, slot_run s es = (s', rs) ->
  let made := held_list s ++ (if s.(running) then produced es else []) in
  delivered rs ++ held_list s' `sublist_of` made
  /\ last (delivered rs ++ held_list s') = last made
  /\ exists lost, length made = (length (delivered rs) + length (held_list s') + lost)%nat
      /\ s'.(slot_dropped) mod 2 ^ 64 = (s.(slot_dropped) + Z.of_nat lost) mod 2 ^ 64.
Proof.
  induction es as [|e es IH]; intros s s' rs Hr; cbn [slot_run] in Hr.
  { injection Hr as <- <-. cbn [produced delivered concat map app]. cbn zeta.
    replace (if running s then [] else []) with (@nil (list Complex32)) by (by destruct (running s)).
    rewrite app_nil_r. split_and!; [done..|]. exists 0%nat. split; [cbn; lia|]. f_equal. lia. }
  destruct (slot_step s e) as [s1 a] eqn:E1. destruct (slot_run s1 es) as [s2 b] eqn:E2. injection Hr as <- <-.
  specialize (IH s1 s2 b E2). cbn zeta in IH |- *.
  destruct s as [h dr run]. destruct e as [[bs|]|]; cbn [slot_step] in E1; destruct run, h as [h|]; cbn in E1;
    injection E1 as <- <-; cbn in IH |- *; try exact IH.
  all: change (concat (map delivered_of b)) with (delivered b); destruct IH as (Hs & Hl & lost & Hn & Hd).
  - split_and!; [by apply sublist_cons|done|]. exists (S lost). split; [lia|]. rewrite Hd. unfold wrapping_add_u64.
    rewrite Zplus_mod_idemp_l. f_equal. lia.
  - split_and!; [by apply sublist_skip|by rewrite !last_cons, Hl|]. exists lost. split; [lia|done].
  - split_and!; [by apply sublist_skip|by rewrite !last_cons, Hl|]. exists lost. split; [lia|done].
Qed.

(** The one-slot handoff loses nothing unaccounted.  However worker and
    consumer interleave, the consumer gets buffers the worker made, each at
    most once and in order; the newest one made is always the last delivered
    or still held, also after the worker has ended; and the counter of frames
    dropped is the number of those it made that were neither delivered nor
    are held. *)
Theorem slot_accounts es s rs : slot_run slot_new es = (s, rs) ->
  delivered rs ++ held_list s `sublist_of` produced es
  /\ last (delivered rs ++ held_list s) = last (produced es)
  /\ s.(slot_dropped) mod 2 ^ 64
     = (Z.of_nat (length (produced es)) - Z.of_nat (length (delivered rs)) - Z.of_nat (length (held_list s))) mod 2 ^ 64.
Proof.
  intros H. destruct (slot_run_accounts es _ _ _ H) as (Hs & Hl & lost & Hn & Hd). cbn [slot_new held_list held running app slot_dropped] in *.
  split_and!; [done|done|]. rewrite Hd. f_equal. lia.
Qed.

(** ** What [open] writes *)

Section Opening.
Context {SD : Sdr} {DR : Driver} {T : Type} `{!TcpStream T} `{!TcpStreamLaws T}.

Lemma starts_app p t : starts p (p ++ t) = true.
Proof. induction p as [|a p IH]; [done|]. cbn. by rewrite Z.eqb_refl. Qed.
Lemma trim_device_spec i : 0 <= i -> trim_start_matches DEVICE_SPEC_PREFIX (device_spec i) = Callsign.show i.
Proof.
  intros Hi. destruct (CommandLine.show_word i Hi) as [[Hne _] Hdig]. unfold trim_start_matches, device_spec.
  rewrite length_app. change (length DEVICE_SPEC_PREFIX) with 4%nat. cbn [Nat.add trim_prefixes]. rewrite starts_app.
  change (length DEVICE_SPEC_PREFIX) with (length DEVICE_SPEC_PREFIX + 0)%nat. rewrite drop_app_add, drop_0.
  destruct (Callsign.show i) as [|c t]; [done|]. apply Forall_cons in Hdig as [Hc _].
  assert (Hs : starts DEVICE_SPEC_PREFIX (c :: t) = false); [|by rewrite Hs].
  change (((114 =? c) && starts (txt "tl:") t) = false). by rewrite (proj2 (Z.eqb_neq 114 c)) by lia.
Qed.

(** The chain of driver calls stops at the first that fails. *)
Lemma configure_spec calls : let '(made, r) := configure calls in
  made `prefix_of` map snd calls
  /\ (is_ok r = true <-> Forall (fun call => driver call = Ok tt) (map snd calls))
  /\ (is_ok r = true -> made = map snd calls).
Proof.
  induction calls as [|[what call] calls IH]; cbn; [done|]. destruct (driver call) as [[]|why] eqn:E.
  - destruct (configure calls) as [made r]. destruct IH as (Hp & Hok & Hall). split_and!.
    + by apply prefix_cons.
    + rewrite Forall_cons, Hok. tauto.
    + intros H. by rewrite Hall.
  - split_and!; [apply prefix_cons, prefix_nil| |done]. rewrite Forall_cons, E. split; [done|by intros [? _]].
Qed.

(** A local dongle is parked once.  For any index and any rate the silicon
    has, [open] on the spec [device_spec] writes makes exactly these calls, in
    this order, stopping at the first the driver refuses; the IF's low 32 bits
    are the only frequency written, and a rate the silicon does not have is
    refused before a driver or a socket is touched. *)
Theorem open_parks_device dial i tap c : 0 <= i <= u32_max ->
  let calls := [OpenDevice i; CallSampleRate c.(c_sample_rate_hz); CallCenterFreq (tap.(if_center_hz) mod 2 ^ 32);
                CallGainMode false; CallResetBuffer] in
  let '(made, r) := open (T := T) true dial (device_spec i) tap c in
  if is_valid_sample_rate c.(c_sample_rate_hz) then
    made `prefix_of` calls
    /\ (is_ok r = true <-> Forall (fun call => driver call = Ok tt) calls)
    /\ (is_ok r = true -> made = calls
         /\ r = Ok (DeviceSource (source_new slot_new c.(c_sample_rate_hz) c.(c_fft_size) tap)))
  else made = [] /\ r = Err (RateRefused c.(c_sample_rate_hz)).
Proof.
  intros Hi. cbn zeta. unfold open. destruct (is_valid_sample_rate _) eqn:Hr; [|done]. cbn [negb].
  unfold endpoint_parse. rewrite (starts_app _ _ : starts DEVICE_SPEC_PREFIX (device_spec i) = true). unfold open_device. rewrite trim_device_spec by lia.
  rewrite CommandLine.parse_unsigned_show by done. unfold device_open, check_sample_rate. rewrite Hr. cbn [negb refuse_if].
  destruct (driver (OpenDevice i)) as [[]|why] eqn:Ho.
  - set (calls := [(_, CallSampleRate _); _; _; _]). pose proof (configure_spec calls) as H.
    destruct (configure calls) as [made r]. destruct H as (Hp & Hok & Hall). cbn [map snd calls] in Hp, Hok, Hall.
    destruct r as [[]|e]; cbn [result_bind map_err is_ok] in *.
    + split_and!; [by apply prefix_cons| |].
      * split; [intros _; constructor; [done|by apply Hok]|done].
      * intros _. by rewrite Hall.
    + split_and!; [by apply prefix_cons| |done]. rewrite Forall_cons, <- Hok. split; [done|by intros [_ ?]].
  - cbn [result_bind map_err is_ok]. split_and!; [apply prefix_cons, prefix_nil| |done].
    rewrite Forall_cons, Ho. split; [done|by intros [? _]].
Qed.

(** A dongle on the network is not parked.  Whatever address and whatever
    tap it is opened for, [open] makes no driver call and writes nothing to the
    server: the source reports the tap's centre and the rate it was configured
    with, and the tuner stays wherever the server has it. *)
Theorem open_network_writes_nothing feature dial spec tap c stream content made s :
  dial spec = Ok stream -> delivers stream content -> is_device (endpoint_parse spec) = false ->
  open (T := T) feature dial spec tap c = (made, Ok s) ->
  made = [] /\ exists src, s = NetworkSource src /\ sent src.(rs_iq).(rt_stream) = sent stream
    /\ src.(rs_pipeline).(p_config) = tap /\ src.(rs_pipeline).(p_sample_rate_hz) = c.(c_sample_rate_hz).
Proof.
  intros Hdial Hd He Ho. unfold open in Ho. destruct (is_valid_sample_rate _); [|done]. cbn [negb] in Ho.
  unfold endpoint_parse in *. destruct (starts _ spec); [done|]. rewrite Hdial in Ho. cbn [map_err result_bind] in Ho.
  unfold connect in Ho. destruct (read_exact_law stream content 12 Hd) as (s1 & Hs1 & [(Hl & Hre & _)|(_ & Hre)]); rewrite Hre in Ho; [|done].
  cbn [map_err result_bind] in Ho. destruct (negb _); [done|]. cbn [map_err result_bind] in Ho.
  injection Ho as <- <-. split; [done|]. eexists. by split_and!.
Qed.
End Opening.

(** ** Witnesses *)

(** A transform of four points, as it is written out; any other length is
    left alone.  The maths of [f32] are stand-ins. *)
Definition cadd (a b : Complex32) : Complex32 := mk_Complex32 (F32.add a.(re) b.(re)) (F32.add a.(im) b.(im)).
Definition csub (a b : Complex32) : Complex32 := mk_Complex32 (F32.sub a.(re) b.(re)) (F32.sub a.(im) b.(im)).
Definition times_i (a : Complex32) : Complex32 := mk_Complex32 (SFopp a.(im)) a.(re).
Definition dft4 (l : list Complex32) : list Complex32 :=
  match l with
  | [a; b; c; d] =>
      [cadd (cadd a c) (cadd b d); csub (csub a c) (times_i (csub b d));
       csub (cadd a c) (cadd b d); cadd (csub a c) (times_i (csub b d))]
  | l => l
  end.
Definition four_points : Sdr := {|
  fft_forward := dft4;
  c_norm c := SFsqrt 24 128 (F32.add (F32.mul c.(re) c.(re)) (F32.mul c.(im) c.(im)));
  f32_log10 x := x; f32_cos _ := F32.of_Z 0 |}.
Lemma dft4_in_place l : length (dft4 l) = length l.
Proof. by destruct l as [|a [|b [|c [|d [|e l]]]]]. Qed.
#[local] Instance four_points_laws : SdrLaws (SD := four_points).
Proof. constructor. exact dft4_in_place. Qed.

Definition ts570d_tap : IfTapConfig := mk_IfTapConfig 73050000 true 0.
Definition one : f32 := F32.of_Z 1.
(** A tone one bin below the sampled centre: 1, -i, -1, i. *)
Definition tone_below : list Complex32 :=
  [mk_Complex32 one (F32.of_Z 0); mk_Complex32 (F32.of_Z 0) (SFopp one);
   mk_Complex32 (SFopp one) (F32.of_Z 0); mk_Complex32 (F32.of_Z 0) one].
Definition tapped : SpectrumPipeline := set_dial_hz (pipeline_new (SD := four_points) 4 240000 ts570d_tap) 14074000.

(** A signal above the dial: below the sampled centre on the inverted IF,
    right of the middle in the frame. *)
Example above_is_right :
  exists p f, process (SD := four_points) tapped tone_below = (p, Some f)
    /\ f.(sf_bins) = map to_bits [F32.of_Z (-200); F32.of_Z (-200); F32.of_Z 20; F32.of_Z (-200)].
Proof. eexists _, _. split; [vm_compute; reflexivity|]. vm_compute. reflexivity. Qed.
Lemma bins_low_first_witness :
  exists f k, snd (process (SD := four_points) tapped tone_below) = Some f /\ (k < 4)%nat
    /\ f.(sf_bins) !! 2%nat = (fun c => to_bits (level (SD := four_points) tapped c)) <$> transformed (SD := four_points) tapped tone_below !! k
    /\ 8 * 14074000 + 480000 * rf_offset tapped k = scaled_frequency f 2 + 1 * 240000.
Proof.
  destruct above_is_right as (p & f & E & _). exists f.
  destruct (bins_low_first (SD := four_points) tapped tone_below p f ltac:(reflexivity) ltac:(by exists 2%nat) E) as (_ & _ & Hc & H).
  destruct (H 2%nat ltac:(vm_compute; lia)) as (k & Hk & Hb & Hf). exists k. rewrite E.
  split; [reflexivity|]. split; [exact Hk|]. split; [exact Hb|]. rewrite Hc in Hf. exact Hf.
Defined.
(** A carrier exactly on the dial, sampled at the centre of the IF. *)
Definition on_the_dial : list Complex32 := repeat (mk_Complex32 one (F32.of_Z 0)) 4.
(** It is shown in a bin that calls itself half a bin above the dial, or half a
    bin below it on an inverted IF: 30 kHz either way, of bins of 60. *)
Theorem carrier_off_by_half_a_bin :
  let shown inverted i :=
    snd (process (SD := four_points) (set_dial_hz (pipeline_new (SD := four_points) 4 240000 (mk_IfTapConfig 73050000 inverted 0)) 14074000) on_the_dial)
      ≫= fun f => level ← f.(sf_bins) !! i; hz ← bin_frequency_hz f i; Some (level, hz) in
  shown false 2%nat = Some (to_bits (F32.of_Z 20), F64.of_Z 14104000)
  /\ shown true 1%nat = Some (to_bits (F32.of_Z 20), F64.of_Z 14044000).
Proof. split; vm_compute; reflexivity. Qed.

(** Sixteen bytes in awkward pieces, four samples to a frame. *)
Definition awkward : Segments :=
  mk_Segments [Some (map u8 [200; 60; 200]); Some (map u8 [60]); Some (map u8 [200; 60; 200; 60; 200; 60; 200]);
               Some (map u8 [60; 200; 60; 200; 60]); Some (map u8 [1])] [].
Definition on_network : RtlSdrSource (RtlTcpSource Segments) :=
  mk_RtlSdrSource (mk_RtlTcpSource awkward (mk_Dongle (as_bytes "RTL0") 5 29) None)
    (pipeline_new (SD := four_points) 4 240000 ts570d_tap) f_zero.
Lemma rtl_tcp_frames_witness : exists s fs,
  next_frames (SD := four_points) 2 9 on_network = Some (s, Ok fs) /\ length fs = 2%nat
  /\ exists s', next_frame (SD := four_points) 9 s = Some (s', Err (Device Closed)).
Proof.
  destruct (rtl_tcp_frames (SD := four_points) on_network (segments_content awkward.(inbound)) 2 9) as (s & Hn & Hl & He).
  - split_and!; [|reflexivity|reflexivity]. split; [repeat constructor; discriminate|reflexivity].
  - vm_compute. lia.
  - vm_compute. lia.
  - exists s, (block_frames (SD := four_points) 2 on_network.(rs_pipeline) (to_complex (segments_content awkward.(inbound)))).
    split; [exact Hn|]. split; [exact Hl|]. apply He. vm_compute. lia.
Defined.

(** A signal that interrupts the read after an odd byte: that byte is gone,
    and the samples read from then on have I and Q swapped. *)
Definition interrupted : RtlTcpSource Segments :=
  mk_RtlTcpSource (mk_Segments [Some (map u8 [200]); None; Some (map u8 [60; 200; 60; 200])] [])
    (mk_Dongle (as_bytes "RTL0") 5 29) None.
Example interrupted_read_swaps :
  match rtl_read 9 interrupted 1 with
  | Some (s, Err (RtlIo Interrupted)) => snd <$> rtl_read 9 s 1
  | _ => None
  end = Some (Ok [mk_Complex32 (sample_of (u8 60)) (sample_of (u8 200))]).
Proof. vm_compute. reflexivity. Qed.

Lemma declared_on_network : declared (E := RtlTcpError) on_network.
Proof. unfold declared, settings. repeat (apply Forall_cons_2; [vm_compute; reflexivity|]). apply Forall_nil_2. Qed.
Lemma apply_reads_back_witness : exists s,
  apply (SD := four_points) (E := RtlTcpError) on_network "trim_hz" (SvInt (-1240) (-50000) 50000 1 Hz) = Some (s, Ok tt)
  /\ s.(rs_pipeline).(p_config).(trim_hz) = -1240.
Proof.
  destruct (apply_reads_back (SD := four_points) (E := RtlTcpError) on_network "trim_hz"
    (mk_SettingDescriptor "trim_hz" "Frequency trim" CalibrationGroup ReadWriteSetting (SvInt 0 (-50000) 50000 1 Hz))
    (SvInt (-1240) (-50000) 50000 1 Hz)) as (s & r & Ha & _ & _).
  - exact declared_on_network.
  - reflexivity.
  - reflexivity.
  - assert (He : apply (SD := four_points) (E := RtlTcpError) on_network "trim_hz" (SvInt (-1240) (-50000) 50000 1 Hz)
      = Some (set_pipeline on_network (set_trim_hz on_network.(rs_pipeline) (-1240)), Ok tt)) by reflexivity.
    rewrite He in Ha. injection Ha as <- <-. exists (set_pipeline on_network (set_trim_hz on_network.(rs_pipeline) (-1240))).
    by split.
Defined.

(** Two reads before the consumer looks, a third, and the worker's end. *)
Definition slot_trace : list SlotEvent :=
  [ConsumerRead; WorkerRead (Some (map u8 [1; 2])); WorkerRead (Some (map u8 [3; 4])); ConsumerRead;
   WorkerRead (Some (map u8 [5; 6])); WorkerRead None; ConsumerRead; ConsumerRead].
Lemma slot_accounts_witness :
  delivered (snd (slot_run slot_new slot_trace)) `sublist_of` produced slot_trace
  /\ slot_dropped (fst (slot_run slot_new slot_trace)) = 1.
Proof.
  split; [|vm_compute; reflexivity]. destruct (slot_run slot_new slot_trace) as [s rs] eqn:E.
  destruct (slot_accounts slot_trace s rs E) as (Hs & _ & _). cbn [snd]. etrans; [|exact Hs]. by apply sublist_inserts_r.
Defined.

(** A driver that accepts everything. *)
Definition willing : Driver := {| driver _ := Ok tt |}.
Lemma open_parks_device_witness : exists s,
  open (SD := four_points) (DR := willing) (T := Segments) true (fun _ => Err UnexpectedEof) (device_spec 12) ts570d_tap default_config
    = ([OpenDevice 12; CallSampleRate 240000; CallCenterFreq 73050000; CallGainMode false; CallResetBuffer], Ok s).
Proof.
  pose proof (open_parks_device (SD := four_points) (DR := willing) (T := Segments) (fun _ => Err UnexpectedEof) 12 ts570d_tap
    default_config ltac:(vm_compute; split; discriminate)) as H.
  destruct (open true _ (device_spec 12) ts570d_tap default_config) as [made r] eqn:E. cbv beta zeta in H.
  change (is_valid_sample_rate (c_sample_rate_hz default_config)) with true in H. destruct H as (_ & Hok & Hall).
  destruct Hall as [-> ->]; [apply Hok; by repeat constructor|]. by eexists.
Defined.

Definition greeted : Segments := mk_Segments [Some (as_bytes "RTL0" ++ map u8 [0; 0; 0; 5; 0; 0; 0; 29])] [].
Lemma greeted_opens :
  is_ok (snd (open (SD := four_points) (DR := willing) false (fun _ => Ok greeted) (txt "radio.local:1234") ts570d_tap default_config)) = true.
Proof. vm_compute. reflexivity. Qed.
Lemma open_network_writes_nothing_witness : exists s,
  open (SD := four_points) (DR := willing) false (fun _ => Ok greeted) (txt "radio.local:1234") ts570d_tap default_config = ([], Ok (NetworkSource s))
  /\ sent s.(rs_iq).(rt_stream) = [].
Proof.
  destruct (open (SD := four_points) (DR := willing) false (fun _ => Ok greeted) (txt "radio.local:1234") ts570d_tap default_config)
    as [made [s|e]] eqn:E; [|exfalso; pose proof greeted_opens as H; rewrite E in H; discriminate H].
  destruct (open_network_writes_nothing (SD := four_points) (DR := willing) false (fun _ => Ok greeted) (txt "radio.local:1234")
    ts570d_tap default_config greeted (segments_content greeted.(inbound)) made s) as (-> & src & -> & Hs & _);
    [reflexivity|split; [repeat constructor; discriminate|reflexivity]|reflexivity|exact E|].
  exists src. split; [reflexivity|exact Hs].
Defined.
