(* ===== verification/AudioStream.v ===== *)
(** * AudioStream: a radio's audio off a socket, and out of a sound card
    (cat-signal-audio/src/pcm.rs, dsp.rs, stream.rs, sink.rs; the methods of cat-signal/src/audio.rs)

    The 16-bit codec, blocks of samples to paired scope and spectrum frames,
    the reader thread with its one-frame slot, its settings, the transmit
    half, and the queue behind the output callback with the rule that chooses
    an output format.  The transform and the maths of [f32] are those of
    [RtlSdr.Sdr]. *)

From Stdlib Require Import Floats.SpecFloat.
From S2P Require Import Prelude Text Framework Client Tcp Ring Morse Timing Floats Capabilities Installation Signals.
From S2P Require RtlSdr.

(** ** The codec (pcm.rs) *)

(** [f32::clamp]: a NaN stays one. *)
Definition f32_clamp (lo hi x : f32) : f32 := if F64.ltb x lo then lo else if F64.ltb hi x then hi else x.
Definition unit_clamp : f32 -> f32 := f32_clamp (F32.of_Z (-1)) (F32.of_Z 1).
Definition FULL_SCALE : f32 := F32.of_Z 32767.
(** [x.round() as i16]: half away from zero, saturating, a NaN zero. *)
Definition round_i16 (x : f32) : Z :=
  match x with
  | S754_finite s m e =>
      let r := if 0 <=? e then Z.pos m * 2 ^ e else (2 * Z.pos m + 2 ^ (- e)) / 2 ^ (1 - e) in
      Z.max (- 2 ^ 15) (Z.min (if s then - r else r) (2 ^ 15 - 1))
  | S754_infinity s => if s then - 2 ^ 15 else 2 ^ 15 - 1
  | _ => 0
  end.
Definition from_i16 (sample : Z) : f32 := unit_clamp (F32.div (F32.of_Z sample) FULL_SCALE).
Definition to_i16 (sample : f32) : Z := round_i16 (F32.mul (unit_clamp sample) FULL_SCALE).
(** [i16::from_le_bytes] and [i16::to_le_bytes]. *)
Definition i16_of_le (a b : byte) : Z :=
  let z := unsigned a + 256 * unsigned b in if z <? 2 ^ 15 then z else z - 2 ^ 16.
Definition i16_to_le (z : Z) : bytes := [u8 z; u8 (z / 256)].
(** An odd last byte is left out. *)
Fixpoint decode (l : bytes) : list f32 :=
  match l with
  | a :: b :: l => from_i16 (i16_of_le a b) :: decode l
  | _ => []
  end.
Definition clips (s : f32) : bool := negb (F64.leb (F32.of_Z (-1)) s && F64.leb s (F32.of_Z 1)).
Definition encode (samples : list f32) : bytes * nat :=
  (flat_map (fun s => i16_to_le (to_i16 s)) samples, length (List.filter clips samples)).

(** ** Frames (audio.rs) *)

Definition audio_bin_width_hz (f : AudioSpectrumFrame) : f64 :=
  if (length f.(as_bins) =? 0)%nat then f_zero
  else F64.div (F64.of_Z f.(as_span_hz)) (F64.of_Z (Z.of_nat (length f.(as_bins)))).
Definition audio_frequency_hz (f : AudioSpectrumFrame) (index : nat) : option f64 :=
  if (length f.(as_bins) <=? index)%nat then None
  else Some (F64.add (F64.of_Z f.(start_hz))
               (F64.mul (F64.add (F64.of_Z (Z.of_nat index)) f_half) (audio_bin_width_hz f))).
Definition window_ms (f : AudioScopeFrame) : f64 :=
  if f.(sample_rate_hz) =? 0 then f_zero
  else F64.div (F64.mul (F64.of_Z (Z.of_nat (length f.(samples)))) (F64.of_Z 1000)) (F64.of_Z f.(sample_rate_hz)).

(** ** The pipeline (dsp.rs) *)

Record AudioPipelineConfig : Type := mk_AudioPipelineConfig {
  ac_sample_rate_hz : Z; ac_fft_size : nat; ac_span_hz : Z; ac_averaging : f32 }.
Definition audio_config_default : AudioPipelineConfig := mk_AudioPipelineConfig 48000 1024 4000 (F32.of_Z 0).
(** The derived [PartialEq]: a NaN is unlike itself. *)
Definition config_eqb (a b : AudioPipelineConfig) : bool :=
  (a.(ac_sample_rate_hz) =? b.(ac_sample_rate_hz)) && (a.(ac_fft_size) =? b.(ac_fft_size))%nat
  && (a.(ac_span_hz) =? b.(ac_span_hz)) && SFeqb a.(ac_averaging) b.(ac_averaging).
Record AudioPipeline : Type := mk_AudioPipeline {
  ap_config : AudioPipelineConfig; ap_window : list f32; ap_window_gain : f32; ap_averaged : list f32; ap_sequence : Z }.

Section Pipeline.
Context {SD : RtlSdr.Sdr}.

Definition audio_pipeline_new (c : AudioPipelineConfig) : AudioPipeline :=
  mk_AudioPipeline c (RtlSdr.hann c.(ac_fft_size)) (RtlSdr.gain_of (RtlSdr.hann c.(ac_fft_size))) [] 0.
Definition reconfigure (p : AudioPipeline) (c : AudioPipelineConfig) : AudioPipeline :=
  if (c.(ac_fft_size) =? p.(ap_config).(ac_fft_size))%nat
  then mk_AudioPipeline c p.(ap_window) p.(ap_window_gain) p.(ap_averaged) p.(ap_sequence)
  else mk_AudioPipeline c (RtlSdr.hann c.(ac_fft_size)) (RtlSdr.gain_of (RtlSdr.hann c.(ac_fft_size))) [] p.(ap_sequence).
Definition reported_bins (c : AudioPipelineConfig) : nat :=
  let half := (c.(ac_fft_size) / 2)%nat in
  if (half =? 0)%nat then 0%nat
  else
    let bin_width := F64.div (F64.of_Z c.(ac_sample_rate_hz)) (F64.of_Z (Z.of_nat c.(ac_fft_size))) in
    let wanted := ceil_usize (F64.div (F64.of_Z c.(ac_span_hz)) bin_width) in
    Z.to_nat (Z.max 1 (Z.min wanted (Z.of_nat half))).
(** One bin: doubled but for DC, floored, smoothed with what was there. *)
Definition audio_bin (p : AudioPipeline) (averaged : list f32) (index : nat) (c : RtlSdr.Complex32) : f32 :=
  let scale := if (index =? 0)%nat then F32.of_Z 1 else F32.of_Z 2 in
  let magnitude := F32.div (F32.mul (RtlSdr.c_norm c) scale) p.(ap_window_gain) in
  let db := if F64.leb magnitude RtlSdr.NULL_MAGNITUDE then F32.of_Z (-200)
            else F32.mul (F32.of_Z 20) (RtlSdr.f32_log10 magnitude) in
  let alpha := f32_clamp (F32.of_Z 0) (F32.dec 95 2) p.(ap_config).(ac_averaging) in
  match averaged !! index with
  | Some previous =>
      if F64.ltb (F32.of_Z 0) alpha
      then F32.add (F32.mul alpha previous) (F32.mul (F32.sub (F32.of_Z 1) alpha) db) else db
  | None => db
  end.
Definition audio_process (p : AudioPipeline) (samples : list f32) : AudioPipeline * option AudioFrame :=
  let n := p.(ap_config).(ac_fft_size) in
  if (n =? 0)%nat || (length samples <? n)%nat then (p, None)
  else
    let block := take n samples in
    let scratch := RtlSdr.fft_forward (zip_with (fun s w => RtlSdr.mk_Complex32 (F32.mul s w) (F32.of_Z 0)) block p.(ap_window)) in
    let half := (n / 2)%nat in
    let averaged := if (length p.(ap_averaged) =? half)%nat then p.(ap_averaged) else [] in
    let bins := imap (audio_bin p averaged) (take half scratch) in
    let reported := reported_bins p.(ap_config) in
    let rate := p.(ap_config).(ac_sample_rate_hz) in
    let bin_width := F64.div (F64.of_Z rate) (F64.of_Z (Z.of_nat n)) in
    let sequence := wrapping_add_u64 p.(ap_sequence) 1 in
    let span := Z.min (round_usize (F64.mul (F64.of_Z (Z.of_nat reported)) bin_width)) u32_max in
    (mk_AudioPipeline p.(ap_config) p.(ap_window) p.(ap_window_gain) bins sequence,
     Some (mk_AudioFrame (mk_AudioScopeFrame rate (map to_bits block) sequence)
             (mk_AudioSpectrumFrame 0 span (map to_bits (take reported bins)) sequence))).

(** ** The reader thread (stream.rs) *)

(** Why a stream ended, in what its reason is written from. *)
Inductive EndReason : Type := PeerClosed | IoFailed (e : IoError) | ClosedByConsumer | ZeroBlock.
Inductive AudioError : Type :=
| AudioClosed (reason : EndReason)
| AudioTransmitFailed (e : IoError)
| AudioUnknownSetting (key : string)
| AudioReadOnly (key : string)
| AudioWrongKind (key : string)
| AudioOutOfRange (key : string).
Definition describe (e : IoError) : EndReason := match e with UnexpectedEof => PeerClosed | e => IoFailed e end.

(** [Shared] with its [Slot]. *)
Record SharedState : Type := mk_SharedState {
  slot_frame : option AudioFrame; slot_ended : option EndReason; as_dropped : Z; as_stop : bool;
  as_params : AudioPipelineConfig }.
Definition put_frame (f : AudioFrame) (s : SharedState) : SharedState :=
  mk_SharedState (Some f) s.(slot_ended)
    (match s.(slot_frame) with Some _ => wrapping_add_u64 s.(as_dropped) 1 | None => s.(as_dropped) end)
    s.(as_stop) s.(as_params).
(** The first reason stays. *)
Definition finish (reason : EndReason) (s : SharedState) : SharedState :=
  mk_SharedState s.(slot_frame) (match s.(slot_ended) with Some r => Some r | None => Some reason end)
    s.(as_dropped) s.(as_stop) s.(as_params).

Context {T : Type} `{!TcpStream T}.
(** The stream: the worker's half and the shared half.  [worker_done] once
    the thread has returned. *)
Record AudioStream : Type := mk_AudioStream {
  reader : T; worker_pipeline : AudioPipeline; worker_done : bool; shared : SharedState }.
Definition spawn (reader : T) (config : AudioPipelineConfig) : AudioStream :=
  mk_AudioStream reader (audio_pipeline_new config) false (mk_SharedState None None 0 false config).
(** One turn of the loop of [run]. *)
Definition run_turn (s : AudioStream) : AudioStream :=
  if s.(worker_done) then s
  else if s.(shared).(as_stop) then mk_AudioStream s.(reader) s.(worker_pipeline) true (finish ClosedByConsumer s.(shared))
  else
    let wanted := s.(shared).(as_params) in
    let p := if config_eqb wanted s.(worker_pipeline).(ap_config) then s.(worker_pipeline)
             else reconfigure s.(worker_pipeline) wanted in
    let block := p.(ap_config).(ac_fft_size) in
    if (block =? 0)%nat then mk_AudioStream s.(reader) p true (finish ZeroBlock s.(shared))
    else
      let '(rd, r) := read_exact s.(reader) (block * BYTES_PER_SAMPLE) in
      match r with
      | Err e => mk_AudioStream rd p true (finish (describe e) s.(shared))
      | Ok bytes =>
          let '(p, f) := audio_process p (decode bytes) in
          mk_AudioStream rd p false (match f with Some f => put_frame f s.(shared) | None => s.(shared) end)
      end.

(** [try_next_frame]; [blocking_next_frame] waits while it is [Ok None]. *)
Definition take_frame (s : SharedState) : SharedState :=
  mk_SharedState None s.(slot_ended) s.(as_dropped) s.(as_stop) s.(as_params).
Definition with_shared (s : AudioStream) (sh : SharedState) : AudioStream :=
  mk_AudioStream s.(reader) s.(worker_pipeline) s.(worker_done) sh.
Definition try_next_frame (s : AudioStream) : AudioStream * result (option AudioFrame) AudioError :=
  match s.(shared).(slot_frame) with
  | Some f => (with_shared s (take_frame s.(shared)), Ok (Some f))
  | None => (s, match s.(shared).(slot_ended) with Some r => Err (AudioClosed r) | None => Ok None end)
  end.
Definition is_connected (s : AudioStream) : bool := is_none s.(shared).(slot_ended).
(** [Drop] of the stream: the worker stops on its next turn. *)
Definition drop_stream (s : AudioStream) : AudioStream :=
  let sh := s.(shared) in
  with_shared s (mk_SharedState sh.(slot_frame) sh.(slot_ended) sh.(as_dropped) true sh.(as_params)).

Definition audio_capability (s : AudioStream) : SignalCapability :=
  CapAudioDerived (s.(shared).(as_params).(ac_sample_rate_hz) / 2).
Definition audio_settings (s : AudioStream) : SpectrumSettings :=
  let c := s.(shared).(as_params) in
  [ mk_SettingDescriptor "sample_rate_hz" "Sample rate" SourceGroup ReadOnlySetting
      (SvInt c.(ac_sample_rate_hz) 8000 192000 1 Sps);
    mk_SettingDescriptor "connected" "Connected" SourceGroup ReadOnlySetting (SvBool (is_connected s));
    mk_SettingDescriptor "fft_size" "FFT size" DisplayGroup ReadWriteSetting
      (SvEnum (RtlSdr.fft_size_index (Z.of_nat c.(ac_fft_size))) RtlSdr.FFT_SIZES);
    mk_SettingDescriptor "span_hz" "AF span" DisplayGroup ReadWriteSetting
      (SvInt c.(ac_span_hz) 100 (c.(ac_sample_rate_hz) / 2) 100 Hz);
    mk_SettingDescriptor "averaging" "Spectrum averaging" DisplayGroup ReadWriteSetting
      (SvFloat (F32.to_f64 c.(ac_averaging)) f_zero (F64.dec 95 2) NoUnit);
    mk_SettingDescriptor "frames_dropped" "Frames dropped" DisplayGroup ReadOnlySetting
      (SvInt (u64_as_i64 s.(shared).(as_dropped)) 0 i64_max 1 NoUnit) ]%string.
Definition set_params (s : AudioStream) (c : AudioPipelineConfig) : AudioStream :=
  let sh := s.(shared) in
  with_shared s (mk_SharedState sh.(slot_frame) sh.(slot_ended) sh.(as_dropped) sh.(as_stop) c).
(** [None] is the panic of [FFT_SIZES[v]]. *)
Definition audio_apply (s : AudioStream) (key : string) (value : SettingValue)
  : option (AudioStream * result () AudioError) :=
  match find_setting key (audio_settings s) with
  | None => Some (s, Err (AudioUnknownSetting key))
  | Some d =>
      match d.(sd_access) with
      | ReadOnlySetting => Some (s, Err (AudioReadOnly d.(sd_key)))
      | ReadWriteSetting =>
          if negb (same_kind_as d.(sd_value) value) then Some (s, Err (AudioWrongKind d.(sd_key)))
          else if negb (setting_valid value) then Some (s, Err (AudioOutOfRange d.(sd_key)))
          else
            let c := s.(shared).(as_params) in
            match value with
            | SvEnum v _ =>
                if String.eqb d.(sd_key) "fft_size" then
                  n ← RtlSdr.fft_sizes !! Z.to_nat v;
                  Some (set_params s (mk_AudioPipelineConfig c.(ac_sample_rate_hz) (Z.to_nat n) c.(ac_span_hz) c.(ac_averaging)), Ok tt)
                else Some (s, Err (AudioUnknownSetting key))
            | SvInt v _ _ _ _ =>
                if String.eqb d.(sd_key) "span_hz" then
                  Some (set_params s (mk_AudioPipelineConfig c.(ac_sample_rate_hz) c.(ac_fft_size) (i64_as_u32 v) c.(ac_averaging)), Ok tt)
                else Some (s, Err (AudioUnknownSetting key))
            | SvFloat v _ _ _ =>
                if String.eqb d.(sd_key) "averaging" then
                  Some (set_params s (mk_AudioPipelineConfig c.(ac_sample_rate_hz) c.(ac_fft_size) c.(ac_span_hz) (F32.of_f64 v)), Ok tt)
                else Some (s, Err (AudioUnknownSetting key))
            | SvBool _ => Some (s, Err (AudioUnknownSetting key))
            end
      end
  end.

(** ** The transmit half *)

Definition transmit_send (socket : T) (samples : list f32) : T * result nat AudioError :=
  let '(bytes, clipped) := encode samples in
  let '(socket, r) := write_all socket bytes in
  (socket, let? _ := map_err AudioTransmitFailed r in Ok clipped).
Definition send_silence (socket : T) (samples : nat) : T * result () AudioError :=
  let '(socket, r) := write_all socket (repeat (u8 0) (samples * BYTES_PER_SAMPLE)) in
  (socket, map_err AudioTransmitFailed r).
End Pipeline.
#[global] Arguments AudioStream T : clear implicits.

(** ** Playback (sink.rs) *)

Record PlaybackConfig : Type := mk_PlaybackConfig { pc_sample_rate_hz : Z; pc_buffer_ms : Z }.
Definition playback_default : PlaybackConfig := mk_PlaybackConfig 48000 2000.
Record PlaybackQueue : Type := mk_PlaybackQueue {
  pq_samples : list f32; pq_playing : bool; pq_closed : option text; pq_capacity : nat; pq_underruns : Z; pq_busy : Z }.
Definition playback_new (capacity_samples : nat) : PlaybackQueue :=
  mk_PlaybackQueue [] false None (Nat.max capacity_samples 1) 0 0.
(** [saturating_mul], then milliseconds. *)
Definition for_duration (rate_hz buffer_ms : Z) : PlaybackQueue :=
  playback_new (Z.to_nat (Z.min (rate_hz * buffer_ms) u64_max / 1000)).
Definition clean_sample (x : f32) : f32 := if F64.is_nan x then F32.of_Z 0 else unit_clamp x.
Definition playback_write (q : PlaybackQueue) (mono : list f32) : PlaybackQueue * result nat text :=
  match q.(pq_closed) with
  | Some why => (q, Err why)
  | None =>
      let clean := map clean_sample mono in
      let n := Nat.min (q.(pq_capacity) - length q.(pq_samples)) (length clean) in
      (mk_PlaybackQueue (q.(pq_samples) ++ take n clean) q.(pq_playing) None q.(pq_capacity) q.(pq_underruns) q.(pq_busy), Ok n)
  end.
Definition playback_clear (q : PlaybackQueue) : PlaybackQueue :=
  mk_PlaybackQueue [] false q.(pq_closed) q.(pq_capacity) q.(pq_underruns) q.(pq_busy).
Definition playback_close (q : PlaybackQueue) (why : text) : PlaybackQueue :=
  mk_PlaybackQueue q.(pq_samples) q.(pq_playing) (match q.(pq_closed) with Some w => Some w | None => Some why end)
    q.(pq_capacity) q.(pq_underruns) q.(pq_busy).
(** The callback: [held] when a writer has the lock at that instant; the
    buffer of [len] samples it leaves. *)
Definition playback_render (held : bool) (q : PlaybackQueue) (len channels : nat) : PlaybackQueue * list f32 :=
  let channels := Nat.max channels 1 in
  let frames := (len / channels)%nat in
  if (frames =? 0)%nat then (q, repeat (F32.of_Z 0) len)
  else if held then
    (mk_PlaybackQueue q.(pq_samples) q.(pq_playing) q.(pq_closed) q.(pq_capacity) q.(pq_underruns)
       (wrapping_add_u64 q.(pq_busy) 1), repeat (F32.of_Z 0) len)
  else
    let n := Nat.min (length q.(pq_samples)) frames in
    (mk_PlaybackQueue (drop n q.(pq_samples)) (n =? frames)%nat q.(pq_closed) q.(pq_capacity)
       (if (n <? frames)%nat && q.(pq_playing) then wrapping_add_u64 q.(pq_underruns) 1 else q.(pq_underruns)) q.(pq_busy),
     flat_map (fun x => repeat x channels) (take n q.(pq_samples)) ++ repeat (F32.of_Z 0) (len - n * channels)).

(** ** The output format *)

Record OutputOffer : Type := mk_OutputOffer { of_channels : Z; of_min_rate_hz : Z; of_max_rate_hz : Z; of_format_rank : Z }.
Inductive OutputChoice : Type := Offer (index : nat) | DeviceDefault.
Definition covers (wanted_hz : Z) (o : OutputOffer) : bool :=
  (o.(of_min_rate_hz) <=? wanted_hz) && (wanted_hz <=? o.(of_max_rate_hz)) && (0 <? o.(of_channels)).
(** The key of [min_by_key], and its order. *)
Definition offer_key (default_channels : Z) (i : nat) (o : OutputOffer) : list Z :=
  [if o.(of_channels) =? default_channels then 0 else 1; o.(of_channels); o.(of_format_rank); Z.of_nat i].
Fixpoint key_ltb (a b : list Z) : bool :=
  match a, b with
  | x :: a, y :: b => (x <? y) || ((x =? y) && key_ltb a b)
  | _, _ => false
  end.
(** [min_by_key]: the first of the least. *)
Fixpoint min_by (best : option (list Z * nat)) (l : list (list Z * nat)) : option (list Z * nat) :=
  match l with
  | [] => best
  | (k, i) :: l => min_by (match best with Some (k', _) => if key_ltb k k' then Some (k, i) else best | None => Some (k, i) end) l
  end.
Definition choose_output (offers : list OutputOffer) (default_channels wanted_hz : Z) : OutputChoice :=
  let keyed := imap (fun i o => (offer_key default_channels i o, i, o)) offers in
  match min_by None (map fst (List.filter (fun x => covers wanted_hz x.2) keyed)) with
  | Some (_, i) => Offer i
  | None => DeviceDefault
  end.
