(* ===== verification/AudioTheorems.v ===== *)
(** * AudioTheorems: what the audio path promises

    Sequence numbers that count exactly what was lost, playback in order
    within its bound, and the output format that is chosen. *)

From Stdlib Require Import Floats.SpecFloat.
From S2P Require Import Prelude Text Framework Client Tcp Ring Morse Timing Floats Capabilities Installation Signals AudioStream.
From S2P Require RtlSdr RtlSdrTheorems.

(** ** A gap is a loss *)

Section Stream.
Context {SD : RtlSdr.Sdr} {T : Type} `{!TcpStream T}.

(** Reader thread and console, interleaved. *)
Inductive AudioEvent : Type :=
| WorkerTurn
| ConsoleTake
| ConsoleApply (key : string) (value : SettingValue)
| ConsoleDrop.
Definition audio_step (s : AudioStream T) (e : AudioEvent) : AudioStream T * list AudioFrame :=
  match e with
  | WorkerTurn => (run_turn s, [])
  | ConsoleTake =>
      let '(s, r) := try_next_frame s in (s, match r with Ok (Some f) => [f] | _ => [] end)
  | ConsoleApply key value => (match audio_apply s key value with Some (s, _) => s | None => s end, [])
  | ConsoleDrop => (drop_stream s, [])
  end.
Fixpoint audio_run (s : AudioStream T) (es : list AudioEvent) : AudioStream T * list AudioFrame :=
  match es with
  | [] => (s, [])
  | e :: es => let '(s, a) := audio_step s e in let '(s, b) := audio_run s es in (s, a ++ b)
  end.

Definition waiting (s : AudioStream T) : nat := match s.(shared).(slot_frame) with Some _ => 1 | None => 0 end.
(** The books: every frame made was delivered, dropped or waits, and the one
    that waits is the newest. *)
Definition balanced (taken bound : nat) (s : AudioStream T) : Prop :=
  0 <= s.(shared).(as_dropped)
  /\ s.(worker_pipeline).(ap_sequence) = Z.of_nat taken + s.(shared).(as_dropped) + Z.of_nat (waiting s)
  /\ s.(worker_pipeline).(ap_sequence) <= Z.of_nat bound
  /\ match s.(shared).(slot_frame) with
     | Some f => audio_sequence f = s.(worker_pipeline).(ap_sequence) /\ f.(spectrum).(as_sequence) = audio_sequence f
     | None => True
     end.

(** A setting written changes the parameters and nothing else. *)
Lemma audio_apply_books (s s' : AudioStream T) key value r : audio_apply s key value = Some (s', r) ->
  exists c, s' = set_params s c.
Proof.
  assert (Hs : s = set_params s s.(shared).(as_params)) by (by destruct s as [? ? ? []]).
  unfold audio_apply. destruct (find_setting _ _) as [d|]; [|by intros [= <- _]; eexists].
  destruct (sd_access d); [by intros [= <- _]; eexists|]. destruct (negb _); [by intros [= <- _]; eexists|].
  destruct (negb _); [by intros [= <- _]; eexists|].
  destruct value; try destruct (String.eqb _ _); try (by intros [= <- _]; eexists).
  destruct (RtlSdr.fft_sizes !! _); cbn; [by intros [= <- _]; eexists|done].
Qed.
Lemma reconfigure_sequence p c : (reconfigure p c).(ap_sequence) = p.(ap_sequence).
Proof. unfold reconfigure. by destruct (_ =? _)%nat. Qed.
Lemma audio_process_books p l p' f : audio_process p l = (p', f) ->
  match f with
  | Some f => p'.(ap_sequence) = wrapping_add_u64 p.(ap_sequence) 1 /\ audio_sequence f = p'.(ap_sequence)
      /\ f.(spectrum).(as_sequence) = p'.(ap_sequence)
  | None => p' = p
  end.
Proof. unfold audio_process. destruct (_ || _); intros H; apply pair_equal_spec in H as [<- <-]; done. Qed.

Lemma balanced_turn (s : AudioStream T) taken bound : Z.of_nat bound < 2 ^ 64 - 1 ->
  balanced taken bound s -> balanced taken (S bound) (run_turn s).
Proof.
  intros Hb (Hd & Hs & Hl & Hf). unfold run_turn.
  assert (Hsame : forall rd p done sh, p.(ap_sequence) = s.(worker_pipeline).(ap_sequence) ->
    sh.(slot_frame) = s.(shared).(slot_frame) -> sh.(as_dropped) = s.(shared).(as_dropped) ->
    balanced taken (S bound) (mk_AudioStream rd p done sh)).
  { intros rd p dn sh Hp Hfr Hdr. unfold balanced, waiting. cbn. rewrite Hp, Hfr, Hdr. split_and!; [done|done|lia|done]. }
  destruct (worker_done s) eqn:Hdone; [destruct s; by apply Hsame|].
  destruct (as_stop _); [by apply Hsame|].
  set (p := if config_eqb _ _ then _ else _).
  assert (Hp : p.(ap_sequence) = s.(worker_pipeline).(ap_sequence))
    by (unfold p; destruct (config_eqb _ _); [done|apply reconfigure_sequence]).
  destruct (_ =? 0)%nat; [by apply Hsame|]. destruct (read_exact _ _) as [rd [bs|e]]; [|by apply Hsame].
  destruct (audio_process p (decode bs)) as [p' f] eqn:E. apply audio_process_books in E.
  destruct f as [f|]; [|subst; by apply Hsame]. destruct E as (E1 & E2 & E3).
  assert (Hw : ap_sequence p' = s.(worker_pipeline).(ap_sequence) + 1).
  { rewrite E1, Hp. unfold wrapping_add_u64. apply Z.mod_small. lia. }
  unfold balanced, waiting in *. cbn. destruct (slot_frame (shared s)) as [g|].
  - assert (wrapping_add_u64 (as_dropped (shared s)) 1 = as_dropped (shared s) + 1) as ->.
    { unfold wrapping_add_u64. apply Z.mod_small. lia. }
    split_and!; [lia|lia|lia|lia|lia].
  - split_and!; [lia|lia|lia|lia|lia].
Qed.

Lemma balanced_run es : forall s taken bound, Z.of_nat (bound + length es) < 2 ^ 64 - 1 -> balanced taken bound s ->
  balanced (taken + length (audio_run s es).2) (bound + length es) (audio_run s es).1.
Proof.
  induction es as [|e es IH]; intros s taken bound Hb H; cbn [audio_run length].
  { cbn. rewrite !Nat.add_0_r. done. }
  destruct (audio_step s e) as [s1 a] eqn:E1.
  assert (H1 : balanced (taken + length a) (S bound) s1).
  { destruct e; cbn [audio_step] in E1.
    - injection E1 as <- <-. cbn. rewrite Nat.add_0_r. apply balanced_turn; [cbn in Hb; lia|done].
    - destruct H as (Hd & Hs & Hl & Hf). unfold try_next_frame, waiting in *. destruct s as [rd p dn [fr en dr st pa]].
      cbn in *. destruct fr as [f|]; injection E1 as <- <-; unfold balanced, waiting; cbn;
        [|destruct en; cbn; rewrite Nat.add_0_r]; split_and!; done || lia.
    - destruct (audio_apply s key value) as [[s' r]|] eqn:Ea; injection E1 as <- <-; cbn; rewrite Nat.add_0_r;
        destruct H as (Hd & Hs & Hl & Hf); unfold balanced, waiting in *;
        [destruct (audio_apply_books _ _ _ _ _ Ea) as [c ->]|]; cbn; split_and!; done || lia.
    - injection E1 as <- <-. cbn. rewrite Nat.add_0_r. destruct H as (Hd & Hs & Hl & Hf).
      unfold balanced, waiting in *. cbn. split_and!; done || lia. }
  specialize (IH s1 _ (S bound) ltac:(cbn in Hb; lia) H1). destruct (audio_run s1 es) as [s2 b]. cbn in IH |- *.
  rewrite length_app, Nat.add_assoc, <- Nat.add_succ_comm. exact IH.
Qed.

(** C34. However the reader thread and the console interleave, whatever settings
    are changed meanwhile, a frame's sequence number is exactly the number of
    frames collected so far, itself included, plus the frames counted as
    dropped: a gap in the numbers is a loss of that size and nothing else is.
    Scope and spectrum carry the same number. *)
Theorem audio_gap_is_loss reader config es s fs s' f : Z.of_nat (length es) < 2 ^ 64 - 1 ->
  audio_run (spawn reader config) es = (s, fs) -> try_next_frame s = (s', Ok (Some f)) ->
  audio_sequence f = Z.of_nat (length fs) + 1 + s.(shared).(as_dropped)
  /\ f.(spectrum).(as_sequence) = audio_sequence f.
Proof.
  intros Hl Hr Ht. pose proof (balanced_run es (spawn reader config) 0 0 Hl) as Hb.
  rewrite Hr in Hb. destruct Hb as (_ & Hs & _ & Hf); [by unfold balanced|]. unfold try_next_frame in Ht.
  unfold waiting in Hs. cbn [fst snd] in *. destruct (slot_frame (shared s)) as [g|]; [|by destruct (slot_ended _)].
  apply pair_equal_spec in Ht as [_ Ht]. injection Ht as <-. destruct Hf as [Hf1 Hf2]. split; [lia|done].
Qed.

(** Once the worker has ended, the frame it left is still collected, and then
    every call says the stream is closed, for the reason it ended with. *)
Theorem closed_is_terminal (s : AudioStream T) r : s.(worker_done) = true -> s.(shared).(slot_ended) = Some r ->
  forall es, let s' := (audio_run s es).1 in
    s'.(shared).(slot_ended) = Some r
    /\ (s'.(shared).(slot_frame) = None -> snd (try_next_frame s') = Err (AudioClosed r))
    /\ (length (audio_run s es).2 <= waiting s)%nat.
Proof.
  intros Hd Hr es. revert s Hd Hr. induction es as [|e es IH]; intros s Hd Hr; cbn [audio_run].
  { split_and!; [done| |cbn; lia]. intros Hn. unfold try_next_frame. cbn [fst] in *. by rewrite Hn, Hr. }
  destruct (audio_step s e) as [s1 a] eqn:E1.
  assert (H1 : worker_done s1 = true /\ slot_ended (shared s1) = Some r /\ (length a + waiting s1 <= waiting s)%nat).
  { destruct e; cbn [audio_step] in E1.
    - unfold run_turn in E1. rewrite Hd in E1. by injection E1 as <- <-.
    - unfold try_next_frame, waiting in *. destruct s as [rd p dn [fr en dr st pa]]. cbn in *.
      destruct fr as [f|]; [|destruct en; [|done]]; injection E1 as <- <-; cbn; split_and!; done || lia.
    - unfold waiting. destruct (audio_apply s key value) as [[s' q]|] eqn:Ea; injection E1 as <- <-; [|done].
      by destruct (audio_apply_books _ _ _ _ _ Ea) as [c ->].
    - by injection E1 as <- <-. }
  destruct H1 as (Hd1 & Hr1 & Hw). destruct (IH s1 Hd1 Hr1) as (Ha & Hb & Hc). destruct (audio_run s1 es) as [s2 b].
  cbn [fst snd] in *. split_and!; [done|done|]. rewrite length_app. lia.
Qed.
End Stream.

(** Three blocks of two samples and the end of the stream: the console looks
    after the second and after the third. *)
#[local] Existing Instance RtlSdrTheorems.four_points.
Definition three_blocks : Segments := mk_Segments [Some (map u8 [0; 64; 0; 192; 1]); Some (map u8 [0; 2; 0; 3; 0; 4; 0])] [].
Definition tiny_config : AudioPipelineConfig := mk_AudioPipelineConfig 48000 2 4000 (F32.of_Z 0).
Definition looked : list AudioEvent := [WorkerTurn; WorkerTurn; ConsoleTake; WorkerTurn].
Lemma third_frame_waits :
  match audio_run (spawn three_blocks tiny_config) looked with
  | (s, fs) => match try_next_frame s with (_, Ok (Some f)) => (length fs =? 1)%nat && (as_dropped (shared s) =? 1) | _ => false end
  end = true.
Proof. vm_compute. reflexivity. Qed.
Lemma audio_gap_is_loss_witness :
  match audio_run (spawn three_blocks tiny_config) looked with
  | (s, _) => match try_next_frame s with (_, Ok (Some f)) => audio_sequence f = 3 | _ => False end
  end.
Proof.
  pose proof third_frame_waits as H. destruct (audio_run (spawn three_blocks tiny_config) looked) as [s fs] eqn:E.
  destruct (try_next_frame s) as [s' [[f|]|e]] eqn:Et; [|discriminate H..].
  apply andb_true_iff in H as [H1%Nat.eqb_eq H2%Z.eqb_eq].
  destruct (audio_gap_is_loss three_blocks tiny_config looked s fs s' f ltac:(vm_compute; reflexivity) E Et) as [-> _].
  rewrite H1, H2. reflexivity.
Defined.
Definition ended_stream : AudioStream Segments :=
  mk_AudioStream (mk_Segments [] []) (audio_pipeline_new tiny_config) true
    (mk_SharedState None (Some PeerClosed) 0 false tiny_config).
Lemma closed_is_terminal_witness :
  snd (try_next_frame (audio_run ended_stream [WorkerTurn; ConsoleTake; ConsoleDrop; WorkerTurn]).1) = Err (AudioClosed PeerClosed).
Proof.
  destruct (closed_is_terminal ended_stream PeerClosed eq_refl eq_refl [WorkerTurn; ConsoleTake; ConsoleDrop; WorkerTurn])
    as (_ & H & _). apply H. vm_compute. reflexivity.
Defined.

(** ** Playback in order *)

Inductive PlayEvent : Type :=
| PlayWrite (mono : list f32)
| PlayCallback (held : bool) (len channels : nat)
| PlayClear
| PlayClose (why : text).
(** One callback: its buffer, and the samples that left the queue for it. *)
Record Played : Type := mk_Played { pl_channels : nat; pl_len : nat; pl_out : list f32; pl_samples : list f32 }.
Definition play_step (q : PlaybackQueue) (e : PlayEvent) : PlaybackQueue * list f32 * list Played :=
  match e with
  | PlayWrite mono =>
      let '(q', r) := playback_write q mono in
      (q', match r with Ok n => take n (map clean_sample mono) | Err _ => [] end, [])
  | PlayCallback held len channels =>
      let '(q', out) := playback_render held q len channels in
      (q', [], [mk_Played (Nat.max channels 1) len out (take (length q.(pq_samples) - length q'.(pq_samples)) q.(pq_samples))])
  | PlayClear => (playback_clear q, [], [])
  | PlayClose why => (playback_close q why, [], [])
  end.
(** The queue, what was accepted, and the callbacks. *)
Fixpoint play_run (q : PlaybackQueue) (es : list PlayEvent) : PlaybackQueue * list f32 * list Played :=
  match es with
  | [] => (q, [], [])
  | e :: es =>
      let '(q, a, p) := play_step q e in
      let '(q, a', p') := play_run q es in (q, a ++ a', p ++ p')
  end.
Definition is_clear (e : PlayEvent) : bool := match e with PlayClear => true | _ => false end.
(** A callback's buffer is full: its samples on every channel, then silence. *)
Definition plays (p : Played) : Prop :=
  length p.(pl_out) = p.(pl_len)
  /\ p.(pl_out) = flat_map (fun x => repeat x p.(pl_channels)) p.(pl_samples)
       ++ repeat (F32.of_Z 0) (p.(pl_len) - length p.(pl_samples) * p.(pl_channels)).
Definition samples_played (l : list Played) : list f32 := concat (map pl_samples l).

Lemma length_spread {A} (l : list A) n : length (flat_map (fun x => repeat x n) l) = (length l * n)%nat.
Proof. induction l as [|x l IH]; [done|]. cbn. rewrite length_app, repeat_length, IH. done. Qed.
Lemma callback_plays held q len channels q' out : playback_render held q len channels = (q', out) ->
  let taken := take (length q.(pq_samples) - length q'.(pq_samples)) q.(pq_samples) in
  plays (mk_Played (Nat.max channels 1) len out taken) /\ q.(pq_samples) = taken ++ q'.(pq_samples)
  /\ q'.(pq_capacity) = q.(pq_capacity).
Proof.
  unfold playback_render. set (ch := Nat.max channels 1). unfold plays.
  assert (Hno : forall l : list f32, take (length l - length l) l = []) by (intros l; by rewrite Nat.sub_diag).
  destruct (len / ch =? 0)%nat eqn:E0; [|destruct held]; intros H; apply pair_equal_spec in H as [<- <-];
    cbn [pq_samples pq_capacity pl_out pl_len pl_samples pl_channels]; cbn zeta.
  1,2: rewrite Hno; cbn; rewrite repeat_length, Nat.sub_0_r; done.
  set (n := Nat.min (length (pq_samples q)) (len / ch)). rewrite length_drop.
  replace (length (pq_samples q) - (length (pq_samples q) - n))%nat with n by lia.
  rewrite length_app, length_spread, repeat_length, !length_take.
  replace (Nat.min n (length (pq_samples q))) with n by lia.
  assert (n * ch <= len)%nat.
  { pose proof (Nat.Div0.mul_div_le len ch). transitivity (len / ch * ch)%nat; [apply Nat.mul_le_mono_r; lia|lia]. }
  split_and!; [lia|done|by rewrite take_drop|done].
Qed.

Lemma play_step_books q e q' a p : play_step q e = (q', a, p) ->
  (length q.(pq_samples) <= q.(pq_capacity))%nat ->
  (length q'.(pq_samples) <= q'.(pq_capacity))%nat /\ q'.(pq_capacity) = q.(pq_capacity) /\ Forall plays p
  /\ samples_played p ++ q'.(pq_samples) `sublist_of` q.(pq_samples) ++ a
  /\ (is_clear e = false -> samples_played p ++ q'.(pq_samples) = q.(pq_samples) ++ a).
Proof.
  intros H Hc. destruct e as [mono|held len channels| |why]; cbn [play_step] in H.
  - unfold playback_write in H. destruct (pq_closed q); injection H as <- <- <-; cbn; rewrite ?app_nil_r; [done|].
    split_and!; try done. rewrite length_app, length_take. lia.
  - destruct (playback_render held q len channels) as [q1 out] eqn:E. injection H as <- <- <-.
    destruct (callback_plays _ _ _ _ _ _ E) as (Hp & Hq & Hk). unfold samples_played. cbn [map concat pl_samples].
    rewrite !app_nil_r, <- Hq, Hk. split_and!; [|done|by constructor|done|done].
    pose proof (f_equal length Hq) as Hlen. rewrite length_app in Hlen. lia.
  - injection H as <- <- <-. cbn. split_and!; [lia|done|constructor|apply sublist_nil_l|done].
  - injection H as <- <- <-. cbn. rewrite app_nil_r. done.
Qed.
Lemma play_run_books es : forall q q' a p, play_run q es = (q', a, p) ->
  (length q.(pq_samples) <= q.(pq_capacity))%nat ->
  (length q'.(pq_samples) <= q.(pq_capacity))%nat /\ Forall plays p
  /\ samples_played p ++ q'.(pq_samples) `sublist_of` q.(pq_samples) ++ a
  /\ (existsb is_clear es = false -> samples_played p ++ q'.(pq_samples) = q.(pq_samples) ++ a).
Proof.
  induction es as [|e es IH]; intros q q' a p H Hc; cbn [play_run] in H.
  { injection H as <- <- <-. cbn. by rewrite app_nil_r. }
  destruct (play_step q e) as [[q1 a1] p1] eqn:E1. destruct (play_run q1 es) as [[q2 a2] p2] eqn:E2. injection H as <- <- <-.
  destruct (play_step_books _ _ _ _ _ E1 Hc) as (Hc1 & Hk & Hp1 & Hs1 & He1).
  destruct (IH _ _ _ _ E2 Hc1) as (Hc2 & Hp2 & Hs2 & He2). unfold samples_played in *. rewrite map_app, concat_app.
  split_and!; [lia|by apply Forall_app|..].
  - rewrite <- app_assoc. etrans; [apply sublist_app; [done|exact Hs2]|]. rewrite !app_assoc. by apply sublist_app.
  - cbn [existsb]. intros [Hn1 Hn2]%orb_false_iff. rewrite <- app_assoc, He2, !app_assoc, He1 by done. done.
Qed.

(** Whatever is written and however the output callbacks fall, the device
    gets a full buffer at every callback, at once, from what was accepted and
    in that order, no sample twice, silence where nothing is queued or the
    lock is held; the queue never exceeds its capacity; and unless the
    application clears it, no accepted sample is lost: what was played and
    what still waits is exactly what was accepted. *)
Theorem playback_in_order capacity es q accepted callbacks :
  play_run (playback_new capacity) es = (q, accepted, callbacks) ->
  (length q.(pq_samples) <= Nat.max capacity 1)%nat /\ Forall plays callbacks
  /\ samples_played callbacks ++ q.(pq_samples) `sublist_of` accepted
  /\ (existsb is_clear es = false -> samples_played callbacks ++ q.(pq_samples) = accepted).
Proof. intros H. exact (play_run_books es _ _ _ _ H ltac:(cbn; lia)). Qed.

(** Three samples into a queue of four, a stereo callback of two frames with
    the lock free, one that finds it held, and one that runs short. *)
Definition half_scale : f32 := F32.dec 5 1.
Definition play_trace : list PlayEvent :=
  [PlayWrite [half_scale; F32.of_Z 2; S754_nan]; PlayCallback false 4 2; PlayCallback true 4 2; PlayCallback false 5 2].
Lemma playback_in_order_witness :
  samples_played (snd (play_run (playback_new 4) play_trace)) = [half_scale; F32.of_Z 1; F32.of_Z 0]
  /\ pq_underruns (fst (fst (play_run (playback_new 4) play_trace))) = 1.
Proof.
  split; [|vm_compute; reflexivity]. destruct (play_run (playback_new 4) play_trace) as [[q a] p] eqn:E.
  destruct (playback_in_order 4 play_trace q a p E) as (_ & _ & _ & H). cbn [snd].
  assert (Hq : pq_samples (fst (fst (play_run (playback_new 4) play_trace))) = []) by (vm_compute; reflexivity).
  assert (Ha : snd (fst (play_run (playback_new 4) play_trace)) = [half_scale; F32.of_Z 1; F32.of_Z 0]) by (vm_compute; reflexivity).
  rewrite E in Hq, Ha. cbn [fst snd] in Hq, Ha. rewrite <- Ha, <- H by reflexivity. by rewrite Hq, app_nil_r.
Defined.

(** ** The output format *)

Lemma key_ltb_irrefl k : key_ltb k k = false.
Proof. induction k as [|x k IH]; [done|]. cbn. rewrite Z.ltb_irrefl, Z.eqb_refl. done. Qed.
Lemma key_ltb_trans a b c : key_ltb a b = true -> key_ltb b c = true -> key_ltb a c = true.
Proof.
  revert b c. induction a as [|x a IH]; intros [|y b] [|z c]; cbn; try done.
  rewrite !orb_true_iff, !andb_true_iff, !Z.ltb_lt, !Z.eqb_eq. intros [H1|[-> H1]] [H2|[-> H2]]; [lia..|left; lia|].
  right. split; [done|]. by apply (IH b c).
Qed.
(** Keys are of one length: between two ordered keys any third has a place. *)
Lemma key_ltb_between a b c : length a = length b -> length b = length c ->
  key_ltb a c = true -> key_ltb a b = true \/ key_ltb b c = true.
Proof.
  revert b c. induction a as [|x a IH]; intros [|y b] [|z c]; cbn; try done. intros [= H1] [= H2].
  rewrite !orb_true_iff, !andb_true_iff, !Z.ltb_lt, !Z.eqb_eq. intros [H|[-> H]].
  - destruct (Z.lt_total x y) as [|[->|]]; [auto|auto|right; left; lia].
  - destruct (Z.lt_total z y) as [|[->|]]; [auto| |auto]. destruct (IH b c H1 H2 H); auto.
Qed.
Definition of_length (n : nat) (x : list Z * nat) : Prop := length x.1 = n.
(** Nothing looked at comes before what [min_by] settles on. *)
Lemma min_by_least n l : forall best, Forall (of_length n) l -> match best with Some x => of_length n x | None => True end ->
  match min_by best l with
  | Some (k, i) => (best = Some (k, i) \/ (k, i) ∈ l)
      /\ forall x, best = Some x \/ x ∈ l -> key_ltb x.1 k = false
  | None => best = None /\ l = []
  end.
Proof.
  induction l as [|[k0 i0] l IH]; intros best Hl Hb; cbn [min_by].
  { destruct best as [[k i]|]; [|done]. split; [by left|].
    intros x [[= <-]|Hin]; [apply key_ltb_irrefl|by apply elem_of_nil in Hin]. }
  apply Forall_cons in Hl as [H0 Hl]. set (nb := match best with Some _ => _ | None => _ end).
  assert (Hnb : match nb with Some x => of_length n x | None => False end)
    by (unfold nb; destruct best as [[kb ib]|]; [destruct (key_ltb k0 kb)|]; done).
  specialize (IH nb Hl ltac:(by destruct nb)).
  destruct (min_by nb l) as [[k i]|]; [|destruct IH as [-> _]; done]. destruct IH as [Hin Hle].
  assert (Hk : length k = n).
  { destruct Hin as [Hin|Hin]; [by rewrite Hin in Hnb|]. by apply (proj1 (Forall_forall _ _) Hl) in Hin. }
  split.
  - unfold nb in Hin. destruct best as [[kb ib]|]; [destruct (key_ltb k0 kb)|]; destruct Hin as [[= -> ->]|Hin];
      (by left) || (right; by left) || (right; by right).
  - intros x [->|[->|Hx]%elem_of_cons]; [| |by apply Hle; right].
    + destruct x as [kb ib]. unfold nb in Hle, Hnb. destruct (key_ltb k0 kb) eqn:E; [|by apply Hle; left].
      destruct (key_ltb kb k) eqn:E2; [|done]. pose proof (Hle (k0, i0) ltac:(by left)) as Hc. cbn in Hc.
      by rewrite (key_ltb_trans k0 kb k) in Hc.
    + unfold nb in Hle, Hnb. destruct best as [[kb ib]|]; [|by apply Hle; left].
      destruct (key_ltb k0 kb) eqn:E; [by apply Hle; left|]. destruct (key_ltb k0 k) eqn:E2; [|by rewrite <- E2].
      pose proof (Hle (kb, ib) ltac:(by left)) as Hc. cbn in Hc, H0, Hb. unfold of_length in *. cbn in *.
      destruct (key_ltb_between k0 kb k ltac:(congruence) ltac:(congruence) E2); congruence.
Qed.

(** The output format chosen is the best of those that can play the rate: the
    device's own channel count first, then the fewest channels, then the least
    conversion, then the first offered; the device's default is fallen back
    on exactly when no offer covers the rate. *)
Theorem choose_output_best offers default_channels wanted_hz :
  match choose_output offers default_channels wanted_hz with
  | DeviceDefault => forall o, o ∈ offers -> covers wanted_hz o = false
  | Offer i => exists o, offers !! i = Some o /\ covers wanted_hz o = true
      /\ forall j o', offers !! j = Some o' -> covers wanted_hz o' = true ->
           key_ltb (offer_key default_channels j o') (offer_key default_channels i o) = false
  end.
Proof.
  unfold choose_output. set (keyed := imap _ offers). set (l := map fst (List.filter _ keyed)).
  assert (Hmem : forall k i, (k, i) ∈ l <-> exists o, offers !! i = Some o /\ covers wanted_hz o = true
            /\ k = offer_key default_channels i o).
  { intros k i. unfold l. rewrite list_elem_of_In, in_map_iff. setoid_rewrite filter_In. setoid_rewrite <- list_elem_of_In. split.
    - intros ([[k' i'] o] & Heq & Hin & Hc). apply elem_of_lookup_imap in Hin as (j & y & Hj & Hy).
      cbn in Heq. exists o. by simplify_eq.
    - intros (o & Ho & Hc & ->). exists (offer_key default_channels i o, i, o). split; [done|]. split; [|done].
      apply elem_of_lookup_imap. eauto. }
  pose proof (min_by_least 4 l None) as H. destruct (min_by None l) as [[k i]|].
  - destruct H as [[|Hin] Hle]; [by apply Forall_forall; intros [k' i'] (o & _ & _ & ->)%Hmem|done|done|].
    apply Hmem in Hin as (o & Ho & Hc & ->). exists o. split_and!; [done|done|]. intros j o' Ho' Hc'.
    apply (Hle (offer_key default_channels j o', j)). right. apply Hmem. eauto.
  - destruct H as [_ Hl]; [by apply Forall_forall; intros [k' i'] (o & _ & _ & ->)%Hmem|done|].
    intros o Hin. destruct (covers wanted_hz o) eqn:E; [|done]. apply list_elem_of_lookup in Hin as [i Hi].
    assert (Hx : (offer_key default_channels i o, i) ∈ l) by (apply Hmem; eauto). rewrite Hl in Hx. by apply elem_of_nil in Hx.
Qed.
