(* ===== verification/Readouts.v ===== *)
(** * Readouts: the numbers a console shows (cat-ui/src/format.rs, meter.rs, af.rs, retune.rs)

    Frequencies as they are read, meter readings in their range, the columns
    of an audio panel, and the move of a view on to a signal.  With
    [RawRange::fraction] of cat-framework/src/capabilities.rs. *)

From Stdlib Require Import Floats.SpecFloat.
From S2P Require Import Prelude Text Morse Timing Floats Capabilities Installation NativeMessages Signals AudioStream Panorama.
From S2P Require Callsign CommandLine RtlSdr.

(** ** Frequencies (format.rs) *)

(** [{:03}]. *)
Definition pad3 (z : Z) : text := [48 + z / 100; 48 + z / 10 mod 10; 48 + z mod 10].
Definition format_hz_compact (hz : Z) : text :=
  Callsign.show (hz / 1000000) ++ [46] ++ pad3 (hz mod 1000000 / 1000) ++ [46] ++ pad3 (hz mod 1000).
Definition format_hz (hz : Z) : text :=
  Callsign.show (hz / 1000000) ++ [46] ++ pad3 (hz mod 1000000 / 1000) ++ [46] ++ pad3 (hz mod 1000) ++ txt " MHz".

(** ** Meters (format.rs, meter.rs) *)

Definition range_fraction (r : RawRange) (value : Z) : f32 :=
  if r.(raw_max) <=? r.(raw_min) then F32.of_Z 0
  else
    let clamped := Z.max r.(raw_min) (Z.min value r.(raw_max)) in
    F32.div (F32.of_Z (clamped - r.(raw_min))) (F32.of_Z (r.(raw_max) - r.(raw_min))).
(** [as u8]: towards zero, saturating. *)
Definition as_u8 (x : f32) : Z := Z.min (as_u64 x) 255.
Definition round_u8 (x : f32) : Z := Z.min (round_usize x) 255.
Definition TWO_THIRDS : f32 := F32.div (F32.of_Z 2) (F32.of_Z 3).
Definition ONE_THIRD : f32 := F32.div (F32.of_Z 1) (F32.of_Z 3).
Definition format_smeter_label (raw : Z) (r : RawRange) : string :=
  let fraction := range_fraction r raw in
  if F64.leb (F32.of_Z 1) fraction then "S9+30"%string
  else if F64.ltb TWO_THIRDS fraction then
    let over := F32.div (F32.sub fraction TWO_THIRDS) ONE_THIRD in
    let n := as_u8 (F32.mul over (F32.of_Z 3)) in
    if n =? 0 then "S9+10" else if n =? 1 then "S9+20" else "S9+30"
  else
    let s_unit := round_u8 (F32.mul (F32.div fraction TWO_THIRDS) (F32.of_Z 9)) in
    default "S9"%string (["S0"; "S1"; "S2"; "S3"; "S4"; "S5"; "S6"; "S7"; "S8"]%string !! Z.to_nat s_unit).

Record MeterReading : Type := mk_MeterReading {
  mr_kind : MeterKind; mr_raw : Z; mr_range : RawRange; mr_s_units : option SUnitScale }.
Definition reading_new (kind : MeterKind) (raw : Z) (range : RawRange) : MeterReading := mk_MeterReading kind raw range None.
Definition with_s_units (r : MeterReading) (s : SUnitScale) : MeterReading :=
  mk_MeterReading r.(mr_kind) r.(mr_raw) r.(mr_range) (Some s).
Definition from_descriptor (d : MeterDescriptor) (raw : Z) : MeterReading :=
  mk_MeterReading d.(meter_kind) raw d.(raw_range) d.(s_units).
Definition from_meters (m : MeterSet) (kind : MeterKind) (raw : Z) : option MeterReading :=
  (fun d => from_descriptor d raw) <$> meter_find m kind.
Definition from_wire (m : list MeterDescriptorWire) (kind : MeterKind) (raw : Z) : option MeterReading :=
  match List.find (fun d => bool_decide (d.(wire_meter_kind) = kind)) m with
  | None => None
  | Some d =>
      let reading := reading_new d.(wire_meter_kind) raw d.(wire_raw_range) in
      Some (match d.(wire_s_units) with Some s => with_s_units reading s | None => reading end)
  end.
Definition percent (r : MeterReading) : Z := round_u8 (F32.mul (range_fraction r.(mr_range) r.(mr_raw)) (F32.of_Z 100)).
(** [label] is an index into a fixed table: [None] never, for scales of its
    length. *)
Definition s_unit (r : MeterReading) : option string :=
  match r.(mr_s_units) with
  | Some scale => label scale r.(mr_raw)
  | None => Some (format_smeter_label r.(mr_raw) r.(mr_range))
  end.
Definition s_unit_is_measured (r : MeterReading) : bool := negb (is_none r.(mr_s_units)).
Definition s_unit_display (r : MeterReading) : option string :=
  if s_unit_is_measured r then s_unit r else (fun l => ("~" ++ l)%string) <$> s_unit r.
Definition is_pegged (r : MeterReading) : bool := r.(mr_range).(raw_max) <=? r.(mr_raw).

(** ** Audio columns (af.rs) *)

Definition AF_FFT_SPAN_HZ : f32 := F32.of_Z 3000.
Definition AF_RANGE_DB : f32 := F32.of_Z 40.
Inductive AudioState : Type := Absent | Configured | Streaming.
Definition audio_label (s : AudioState) : string :=
  match s with Absent => "NONE" | Configured => "PENDING" | Streaming => "LIVE" end%string.
Record Passband : Type := mk_Passband { low_hz : f32; high_hz : f32 }.
Definition column_for_hz (hz : f32) (columns : Z) : option Z :=
  if (columns =? 0) || negb (F64.leb (F32.of_Z 0) hz && F64.ltb hz AF_FFT_SPAN_HZ) then None
  else Some (Z.min (as_u64 (F32.mul (F32.div hz AF_FFT_SPAN_HZ) (F32.of_Z columns))) (columns - 1)).
Definition edge_columns (p : Passband) (columns : Z) : option Z * option Z :=
  (column_for_hz p.(low_hz) columns, column_for_hz p.(high_hz) columns).
Definition NEG_INFINITY : f32 := S754_infinity true.
(** The frame's bins as [f32]s, with their audio frequencies as [f32]. *)
Definition af_bins (f : AudioSpectrumFrame) : list (f32 * f32) :=
  imap (fun i b => (F32.of_f64 (default f_zero (audio_frequency_hz f i)), from_bits b)) f.(as_bins).
Definition loudest (l : list (f32 * f32)) : f32 := foldl (fun m x => RtlSdr.f32_max m x.2) NEG_INFINITY l.
Definition column_energy (f : AudioSpectrumFrame) (lo_hz hi_hz : f32) : option f32 :=
  match f.(as_bins) with
  | [] => None
  | _ =>
      let top := loudest (af_bins f) in
      if negb (F64.is_finite top) then None
      else
        let peak := loudest (List.filter (fun x => F64.leb lo_hz x.1 && F64.ltb x.1 hi_hz) (af_bins f)) in
        if negb (F64.is_finite peak) then None
        else Some (f32_clamp (F32.of_Z 0) (F32.of_Z 1)
                     (F32.div (F32.sub peak (F32.sub top AF_RANGE_DB)) AF_RANGE_DB))
  end.
Definition resolvable_columns (f : AudioSpectrumFrame) : nat :=
  Nat.max (length (List.filter (fun x => F64.ltb x.1 AF_FFT_SPAN_HZ) (af_bins f))) 1.
Definition af_columns (f : AudioSpectrumFrame) (columns : Z) : list (option f32) :=
  if columns =? 0 then []
  else
    let hz_per_col := F32.div AF_FFT_SPAN_HZ (F32.of_Z columns) in
    map (fun c => let lo := F32.mul (F32.of_Z (Z.of_nat c)) hz_per_col in column_energy f lo (F32.add lo hz_per_col))
      (seq 0 (Z.to_nat columns)).
Definition SSB_LOW_CUT_HZ : f32 := F32.of_Z 300.
Definition passband_for (caps : CapabilitiesWire) (mode : ModeId) : option Passband :=
  d ← List.find (fun m => bool_decide (m.(wire_mode_id) = mode)) caps.(wire_modes);
  let width := F32.of_Z d.(wire_default_bandwidth_hz) in
  if bool_decide (d.(wire_mode_kind) = KCw) || F64.leb width (F32.of_Z 0) then None
  else Some (match d.(wire_mode_kind) with
             | KSsb | KData => mk_Passband SSB_LOW_CUT_HZ (F32.add SSB_LOW_CUT_HZ width)
             | _ => mk_Passband (F32.of_Z 0) (F32.div width (F32.of_Z 2))
             end).

(** ** The move (retune.rs) *)

Record View : Type := mk_View { v_center_hz : f64; v_span_hz : f64 }.
Definition ZOOM_DEPTH : f32 := F32.dec 55 2.
Definition DURATION_MS : Z := 320.
Record Retune : Type := mk_Retune { rt_from : View; rt_to : View; rt_elapsed_ms : Z; rt_duration_ms : Z }.
Definition retune_to (from : View) (target_hz : f64) : Retune :=
  mk_Retune from (mk_View target_hz from.(v_span_hz)) 0 DURATION_MS.
Definition is_done (r : Retune) : bool := r.(rt_duration_ms) <=? r.(rt_elapsed_ms).
Definition advance (r : Retune) (dt_ms : Z) : Retune * bool :=
  let r := mk_Retune r.(rt_from) r.(rt_to) (Z.min (r.(rt_elapsed_ms) + dt_ms) u32_max) r.(rt_duration_ms) in
  (r, negb (is_done r)).
Definition progress (r : Retune) : f32 :=
  if r.(rt_duration_ms) =? 0 then F32.of_Z 1
  else f32_clamp (F32.of_Z 0) (F32.of_Z 1) (F32.div (F32.of_Z r.(rt_elapsed_ms)) (F32.of_Z r.(rt_duration_ms))).
Definition ease (t : f32) : f32 :=
  let t := f32_clamp (F32.of_Z 0) (F32.of_Z 1) t in
  if F64.ltb t (F32.dec 5 1) then F32.mul (F32.mul (F32.of_Z 2) t) t
  else
    let u := F32.add (F32.mul (F32.of_Z (-2)) t) (F32.of_Z 2) in
    F32.sub (F32.of_Z 1) (F32.div (F32.mul u u) (F32.of_Z 2)).
Section Move.
(** [f32::sin] of the platform. *)
Context (f32_sin : f32 -> f32).
Definition arc (t : f32) : f32 := f32_sin (F32.mul RtlSdr.F32_PI (f32_clamp (F32.of_Z 0) (F32.of_Z 1) t)).
Definition retune_view (r : Retune) : View :=
  let t := F32.to_f64 (ease (progress r)) in
  let center := F64.add r.(rt_from).(v_center_hz)
                  (F64.mul (F64.sub r.(rt_to).(v_center_hz) r.(rt_from).(v_center_hz)) t) in
  let dip := F32.sub (F32.of_Z 1) (F32.mul (F32.sub (F32.of_Z 1) ZOOM_DEPTH) (arc (progress r))) in
  let span := F64.mul (F64.add r.(rt_from).(v_span_hz)
                         (F64.mul (F64.sub r.(rt_to).(v_span_hz) r.(rt_from).(v_span_hz)) t)) (F32.to_f64 dip) in
  mk_View center span.
End Move.

(** ** What a reading says *)

Lemma parse_digits_app max acc a b :
  CommandLine.parse_digits max acc (a ++ b) = CommandLine.parse_digits max acc a ≫= fun v => CommandLine.parse_digits max v b.
Proof.
  revert acc. induction a as [|c a IH]; intros acc; [done|]. cbn [app CommandLine.parse_digits].
  destruct (Rigctl.text_digit c); [|done]. by destruct (_ <=? max).
Qed.
Lemma text_digit_of d : 0 <= d < 10 -> Rigctl.text_digit (48 + d) = Some d.
Proof.
  intros H. unfold Rigctl.text_digit. rewrite (proj2 (Z.leb_le _ _)), (proj2 (Z.leb_le _ _)) by lia. cbn. f_equal. lia.
Qed.
Lemma parse_pad3 max acc z : 0 <= acc -> 0 <= z < 1000 -> acc * 1000 + z <= max ->
  CommandLine.parse_digits max acc (pad3 z) = Some (acc * 1000 + z).
Proof.
  intros Ha Hz Hm. unfold pad3. cbn [CommandLine.parse_digits].
  assert (Hd : z = 100 * (z / 100) + 10 * (z / 10 mod 10) + z mod 10).
  { pose proof (Z.div_mod z 10 ltac:(lia)). pose proof (Z.div_mod (z / 10) 10 ltac:(lia)).
    rewrite Z.div_div in * by lia. change (10 * 10) with 100 in *. lia. }
  pose proof (Z.mod_pos_bound z 10 ltac:(lia)). pose proof (Z.mod_pos_bound (z / 10) 10 ltac:(lia)).
  assert (0 <= z / 100 < 10) by (split; [apply Z.div_pos; lia|apply Z.div_lt_upper_bound; lia]).
  rewrite !text_digit_of by lia. rewrite !(proj2 (Z.leb_le _ _)) by lia. f_equal. lia.
Qed.
Lemma filter_dots t : Forall (fun c => 48 <= c <= 57) t -> List.filter (fun c => negb (c =? 46)) t = t.
Proof. induction 1 as [|c t Hc Ht IH]; [done|]. cbn. rewrite (proj2 (Z.eqb_neq c 46)) by lia. cbn. by rewrite IH. Qed.

(** A frequency shown says which it is: the digits of its three groups, read
    as one number, are the hertz, for every frequency the type has. *)
Theorem frequency_reads_back hz : 0 <= hz <= u64_max ->
  CommandLine.parse_unsigned u64_max (List.filter (fun c => negb (c =? 46)) (format_hz_compact hz)) = Some hz
  /\ format_hz hz = format_hz_compact hz ++ txt " MHz".
Proof.
  intros Hz. split; [|unfold format_hz, format_hz_compact; by rewrite <- !app_assoc].
  assert (Hm : 0 <= hz / 1000000) by (apply Z.div_pos; lia).
  assert (Hp : forall z, 0 <= z < 1000 -> Forall (fun c => 48 <= c <= 57) (pad3 z)).
  { intros z H. pose proof (Z.mod_pos_bound z 10 ltac:(lia)). pose proof (Z.mod_pos_bound (z / 10) 10 ltac:(lia)).
    assert (0 <= z / 100 < 10) by (split; [apply Z.div_pos; lia|apply Z.div_lt_upper_bound; lia]).
    repeat constructor; lia. }
  pose proof (Z.mod_pos_bound hz 1000 ltac:(lia)) as Hr. pose proof (Z.mod_pos_bound hz 1000000 ltac:(lia)) as Hk.
  assert (Hk' : 0 <= hz mod 1000000 / 1000 < 1000) by (split; [apply Z.div_pos; lia|apply Z.div_lt_upper_bound; lia]).
  destruct (CommandLine.show_word (hz / 1000000) Hm) as [[Hne _] Hd]. unfold format_hz_compact.
  rewrite !List.filter_app, (filter_dots (Callsign.show _)), (filter_dots (pad3 (_ / _))), (filter_dots (pad3 (hz mod 1000))) by auto. cbn [List.filter Z.eqb negb app Pos.eqb].
  set (a := hz / 1000000) in *. set (k := hz mod 1000000 / 1000) in *.
  assert (Hsum : hz = (a * 1000 + k) * 1000 + hz mod 1000).
  { unfold a, k. pose proof (Z.div_mod hz 1000000 ltac:(lia)). pose proof (Z.div_mod (hz mod 1000000) 1000 ltac:(lia)).
    assert (hz mod 1000000 mod 1000 = hz mod 1000).
    { apply Z.mod_mod_divide. by exists 1000. }
    lia. }
  assert (Hq : CommandLine.parse_digits u64_max 0 (Callsign.show a) = Some a).
  { pose proof (CommandLine.parse_show u64_max a ltac:(lia)) as H. unfold CommandLine.parse_positive in H.
    by destruct (Callsign.show a). }
  unfold CommandLine.parse_unsigned. destruct (Callsign.show a) as [|c t] eqn:E; [done|].
  apply Forall_cons in Hd as [Hc _]. cbn [app]. rewrite (proj2 (Z.eqb_neq c 43)) by lia.
  change (CommandLine.parse_digits u64_max 0 ((c :: t) ++ pad3 k ++ pad3 (hz mod 1000)) = Some hz).
  rewrite parse_digits_app, Hq. cbn [mbind option_bind]. rewrite parse_digits_app, parse_pad3 by lia.
  cbn [mbind option_bind]. rewrite parse_pad3 by lia. f_equal. lia.
Qed.
Lemma frequency_reads_back_witness :
  CommandLine.parse_unsigned u64_max (List.filter (fun c => negb (c =? 46)) (format_hz_compact 7030050)) = Some 7030050
  /\ format_hz 7030050 = txt "7.030.050 MHz".
Proof.
  split; [exact (proj1 (frequency_reads_back 7030050 ltac:(vm_compute; split; discriminate)))|vm_compute; reflexivity].
Defined.

(** A meter reads the same on both sides of a socket: a reading made from
    what a server publishes of its radio is the one made from the radio's own
    description, with its range and its table of S-units. *)
Theorem reading_same_on_wire c layout theme i cw kind raw :
  from_wire (capabilities_wire c layout theme i cw).(wire_meters) kind raw = from_meters c.(cap_meters) kind raw.
Proof.
  unfold from_wire, from_meters, meter_find. cbn [capabilities_wire wire_meters].
  induction (meters (cap_meters c)) as [|d l IH]; [done|]. cbn [map List.find wire_meter_kind]. case_bool_decide; [|exact IH].
  cbn. unfold from_descriptor, reading_new, with_s_units. cbn. by destruct (s_units d).
Qed.

(** The move ends: once the time given to it adds up to its duration it is
    done and stays so, however the frames fall. *)
Lemma retune_ends dts from target_hz : Forall (Z.le 0) dts -> 320 <= foldr Z.add 0 dts ->
  is_done (foldl (fun r dt => (advance r dt).1) (retune_to from target_hz) dts) = true.
Proof.
  intros Hd Hs. unfold is_done.
  assert (H : forall r, 0 <= rt_elapsed_ms r ->
    rt_duration_ms (foldl (fun r dt => (advance r dt).1) r dts) = rt_duration_ms r
    /\ Z.min (rt_elapsed_ms r + foldr Z.add 0 dts) u32_max <= rt_elapsed_ms (foldl (fun r dt => (advance r dt).1) r dts)).
  { clear Hs. induction Hd as [|dt dts Hdt Hd IH]; intros r Hr; cbn [foldl foldr]; [split; [done|lia]|].
    assert (He : rt_elapsed_ms (advance r dt).1 = Z.min (rt_elapsed_ms r + dt) u32_max) by done.
    assert (Hu : 0 <= u32_max) by done.
    destruct (IH (advance r dt).1) as [H1 H2]; [lia|]. split; [done|]. rewrite He in H2.
    assert (0 <= foldr Z.add 0 dts) by (clear -Hd; induction Hd; cbn; lia). lia. }
  destruct (H (retune_to from target_hz) ltac:(cbn; lia)) as [H1 H2]. rewrite H1. apply Z.leb_le.
  cbn in H2 |- *. unfold DURATION_MS, u32_max in *. lia.
Qed.
