(* ===== verification/Shared.v ===== *)
(** * Shared: what the native bridge's pump publishes and its listeners read
    (cat-rigctl/src/native_bridge.rs), and the rigctl radio that answers from
    it (cat-rigctl/src/cached.rs)

    The reading the pump last took of the radio, with the provenance that says
    what it may be used for; the queue of console commands, in which a newer
    setting replaces one still waiting; and [Cached], an instance of
    [RigctlRadio] in front of another. *)

From stdpp Require Import relations.
From S2P Require Import Prelude Text Capabilities NativeTypes CwSupervisor CwSafety Framework Client Tcp Rigctl Layout Installation NativeMessages.

(** ** The cached reading *)

Record Cache : Type := mk_Cache {
  state : option RadioState; taken : option Z; assumed : bool; generation : Z }.
Definition cache_default : Cache := mk_Cache None None false 0.

(** A lock: [None] once poisoned.  Each operation is one critical section. *)
Definition Locked (A : Type) : Type := option A.

Definition shared_generation (l : Locked Cache) : Z :=
  match l with Some c => c.(generation) | None => 0 end.

Definition publish_state (l : Locked Cache) (st : option RadioState) (taken_at gen : Z) : Locked Cache :=
  match st, l with
  | Some st, Some c =>
      if bool_decide (c.(generation) = gen) then Some (mk_Cache (Some st) (Some taken_at) false c.(generation))
      else Some c
  | _, _ => l
  end.

Definition cached_state (l : Locked Cache) : option RadioState := l ≫= state.
Definition dial_hz (l : Locked Cache) : option Z := vfo_a_hz <$> cached_state l.

(** [Instant::elapsed], at [now]. *)
Definition elapsed (now t : Z) : Z := Z.max 0 (now - t).

Definition recent_state (l : Locked Cache) (max_age now : Z) : option RadioState :=
  c ← l;
  match c.(taken) with
  | Some t => if elapsed now t <=? max_age then c.(state) else None
  | None => None
  end.
Definition measured_state (l : Locked Cache) (max_age now : Z) : option RadioState :=
  c ← l;
  if c.(assumed) then None
  else match c.(taken) with
       | Some t => if elapsed now t <=? max_age then c.(state) else None
       | None => None
       end.
Definition state_age (l : Locked Cache) (now : Z) : option Z := elapsed now <$> (l ≫= taken).

Definition patch_state (l : Locked Cache) (change : RadioState -> RadioState) : Locked Cache :=
  c ← l; Some (mk_Cache (change <$> c.(state)) c.(taken) true (wrapping_add_u64 c.(generation) 1)).

Definition poll_interval (consoles : nat) (l : Locked Cache) (watching idle : Z) : Z :=
  let tx := default false (transmitting <$> cached_state l) in
  if (0 <? consoles)%nat && negb tx then watching else idle.

(** The fields a set writes. *)
Definition with_vfo_a (hz : Z) (s : RadioState) : RadioState :=
  mk_RadioState hz s.(vfo_b_hz) s.(st_mode) s.(st_split) s.(transmitting) s.(memory_channel) s.(st_if_shift_hz)
    s.(filter_width_hz) s.(meters_read) s.(levels) s.(st_cw).
Definition with_split (on : bool) (s : RadioState) : RadioState :=
  mk_RadioState s.(vfo_a_hz) s.(vfo_b_hz) s.(st_mode) on s.(transmitting) s.(memory_channel) s.(st_if_shift_hz)
    s.(filter_width_hz) s.(meters_read) s.(levels) s.(st_cw).
Definition with_transmitting (on : bool) (s : RadioState) : RadioState :=
  mk_RadioState s.(vfo_a_hz) s.(vfo_b_hz) s.(st_mode) s.(st_split) on s.(memory_channel) s.(st_if_shift_hz)
    s.(filter_width_hz) s.(meters_read) s.(levels) s.(st_cw).

(** ** The cached radio *)

Definition FRESH_ENOUGH_TO_SKIP : Z := from_millis 600.
Definition MAX_READ_AGE : Z := from_secs 12.

(** The wrapped radio, the shared cache and the clock. *)
Record Cached (R : Type) : Type := mk_Cached { cached_inner : R; cache : Locked Cache; now : Z }.
Arguments mk_Cached {R}.
Arguments cached_inner {R}.
Arguments cache {R}.
Arguments now {R}.

Definition fresh {R} (c : Cached R) : option RadioState := measured_state c.(cache) FRESH_ENOUGH_TO_SKIP c.(now).

(** A call of the wrapped radio, and one whose success is noted in the cache. *)
Definition pass {R A} (c : Cached R) (x : R * A) : Cached R * A := (mk_Cached x.1 c.(cache) c.(now), x.2).
Definition noting {R E} (c : Cached R) (x : R * result () E) (change : RadioState -> RadioState)
  : Cached R * result () E :=
  match x.2 with
  | Ok _ => (mk_Cached x.1 (patch_state c.(cache) change) c.(now), Ok tt)
  | Err e => (mk_Cached x.1 c.(cache) c.(now), Err e)
  end.

Section Cached.
  Context {R : Type} `{!RigctlRadio R}.

Definition cached_get_vfo_a_hz (c : Cached R) : Cached R * result Z RigError :=
  match recent_state c.(cache) MAX_READ_AGE c.(now) with
  | Some s => (c, Ok s.(vfo_a_hz))
  | None => pass c (get_vfo_a_hz c.(cached_inner))
  end.
Definition cached_set_vfo_a_hz (c : Cached R) (hz : Z) : Cached R * result () RigError :=
  if match fresh c with Some s => s.(vfo_a_hz) =? hz | None => false end then (c, Ok tt)
  else noting c (set_vfo_a_hz c.(cached_inner) hz) (with_vfo_a hz).
Definition cached_get_mode (c : Cached R) : Cached R * result Mode RigError :=
  match s ← measured_state c.(cache) MAX_READ_AGE c.(now); mode_from_id s.(st_mode) with
  | Some m => (c, Ok m)
  | None => pass c (get_mode c.(cached_inner))
  end.
Definition cached_set_mode (c : Cached R) (m : Mode) : Cached R * result () RigError :=
  noting c (set_mode c.(cached_inner) m) (fun s => s).
Definition cached_transmit (c : Cached R) : Cached R * result () RigError :=
  noting c (transmit c.(cached_inner)) (with_transmitting true).
Definition cached_receive (c : Cached R) : Cached R * result () RigError :=
  noting c (receive c.(cached_inner)) (with_transmitting false).
Definition cached_get_split (c : Cached R) : Cached R * result bool RigError :=
  match recent_state c.(cache) MAX_READ_AGE c.(now) with
  | Some s => (c, Ok s.(st_split))
  | None => pass c (get_split c.(cached_inner))
  end.
Definition cached_set_split (c : Cached R) (on : bool) : Cached R * result () RigError :=
  noting c (set_split c.(cached_inner) on) (with_split on).

#[export] Instance cached_radio : RigctlRadio (Cached R) := {|
  Mode := Mode (R := R);
  RigError := RigError (R := R);
  get_vfo_a_hz := cached_get_vfo_a_hz;
  set_vfo_a_hz := cached_set_vfo_a_hz;
  get_mode := cached_get_mode;
  set_mode := cached_set_mode;
  get_split := cached_get_split;
  set_split := cached_set_split;
  get_rit_hz c := pass c (get_rit_hz c.(cached_inner));
  get_xit_hz c := pass c (get_xit_hz c.(cached_inner));
  get_transmitting c := pass c (get_transmitting c.(cached_inner));
  transmit := cached_transmit;
  receive := cached_receive;
  unsupported := unsupported;
  hamlib_mode_name := hamlib_mode_name;
  hamlib_mode_from_name := hamlib_mode_from_name;
  freq_range_hz := freq_range_hz (R := R);
  mode_from_id := mode_from_id;
  capabilities := capabilities (R := R) |}.
End Cached.

(** ** The cache between a pump and its clients

    One pump polls and applies what consoles ask for; any number of rigctl
    clients set.  A set reaches the radio, which may ignore it, at some moment
    before it is acknowledged, and an operator turns the dial at any time: both
    are a move of the dial.  A rigctl client's set is acknowledged with a note in
    the cache.  A console's is not noted: the pump applies it, then polls, then
    acknowledges it, and the poll is left out while CW is live.  The world
    remembers what was read and what was acknowledged. *)

(** The console sets: how many the pump has applied and acknowledged, whether a
    reading was published since the last was applied, and whether one has been
    acknowledged since the last published reading by a cycle that published none. *)
Record ConsoleSets : Type := mk_ConsoleSets {
  cn_applied : Z; cn_acked : Z; cn_published : bool; cn_blind : bool }.
(** The dial as a poll read it: when, and how many rigctl sets had been
    acknowledged and console sets applied when that poll started. *)
Record Reading : Type := mk_Reading { rd_time : Z; rd_dial : Z; rd_after : Z; rd_console : Z }.
Record Poll : Type := mk_Poll {
  pl_generation : Z; pl_taken : Z; pl_after : Z; pl_console : Z; pl_state : option RadioState }.
Record CacheWorld : Type := mk_CacheWorld {
  c_now : Z; c_dial : Z; c_cache : Cache; c_poll : option Poll; c_acks : Z;
  c_last_set : option Z;      (** the last acknowledged rigctl setting of the dial *)
  c_last_set_at : Z;          (** the acknowledgements up to and with it *)
  c_readings : list Reading; c_console : ConsoleSets }.

(** Whether a poll's end put its reading into the cache. *)
Definition published (c : Cache) (st : option RadioState) (gen : Z) : bool :=
  match st with Some _ => bool_decide (c.(generation) = gen) | None => false end.
Definition console_after_publish (cn : ConsoleSets) (ok : bool) : ConsoleSets :=
  if ok then mk_ConsoleSets cn.(cn_applied) cn.(cn_acked) true false else cn.

Inductive cstep : CacheWorld -> CacheWorld -> Prop :=
| c_tick n d c p k a i rs cn n' : n <= n' ->
    cstep (mk_CacheWorld n d c p k a i rs cn) (mk_CacheWorld n' d c p k a i rs cn)
| c_move n d c p k a i rs cn d' :
    cstep (mk_CacheWorld n d c p k a i rs cn) (mk_CacheWorld n d' c p k a i rs cn)
| c_poll_start n d c k a i rs cn :
    cstep (mk_CacheWorld n d c None k a i rs cn)
          (mk_CacheWorld n d c (Some (mk_Poll (shared_generation (Some c)) n k cn.(cn_applied) None)) k a i rs cn)
| c_poll_read n d c g t j l st0 st k a i rs cn : st.(vfo_a_hz) = d ->
    cstep (mk_CacheWorld n d c (Some (mk_Poll g t j l st0)) k a i rs cn)
          (mk_CacheWorld n d c (Some (mk_Poll g t j l (Some st))) k a i (mk_Reading n d j l :: rs) cn)
| c_poll_fail n d c g t j l st0 k a i rs cn :
    cstep (mk_CacheWorld n d c (Some (mk_Poll g t j l st0)) k a i rs cn)
          (mk_CacheWorld n d c (Some (mk_Poll g t j l None)) k a i rs cn)
| c_poll_end n d c g t j l st k a i rs cn c' : publish_state (Some c) st t g = Some c' ->
    cstep (mk_CacheWorld n d c (Some (mk_Poll g t j l st)) k a i rs cn)
          (mk_CacheWorld n d c' None k a i rs (console_after_publish cn (published c st g)))
| c_ack_dial n d c p k a i rs cn hz c' : patch_state (Some c) (with_vfo_a hz) = Some c' ->
    cstep (mk_CacheWorld n d c p k a i rs cn) (mk_CacheWorld n d c' p (k + 1) (Some hz) (k + 1) rs cn)
| c_ack_other n d c p k a i rs cn f c' : (forall s, vfo_a_hz (f s) = vfo_a_hz s) -> patch_state (Some c) f = Some c' ->
    cstep (mk_CacheWorld n d c p k a i rs cn) (mk_CacheWorld n d c' p (k + 1) a i rs cn)
| c_console_apply n d c k a i rs cn :
    cstep (mk_CacheWorld n d c None k a i rs cn)
          (mk_CacheWorld n d c None k a i rs (mk_ConsoleSets (cn.(cn_applied) + 1) cn.(cn_acked) false cn.(cn_blind)))
| c_console_ack n d c k a i rs cn :
    cstep (mk_CacheWorld n d c None k a i rs cn)
          (mk_CacheWorld n d c None k a i rs
             (mk_ConsoleSets cn.(cn_applied) cn.(cn_applied) cn.(cn_published) (cn.(cn_blind) || negb cn.(cn_published)))).

Definition cache_initial (n d : Z) : CacheWorld :=
  mk_CacheWorld n d cache_default None 0 None 0 [] (mk_ConsoleSets 0 0 true false).
Definition creachable (w : CacheWorld) : Prop := exists n d, rtc cstep (cache_initial n d) w.

(** [v] was read at a moment in [lo, hi], by a poll that started after [k]
    acknowledgements or more and [l] console sets or more. *)
Definition was_read (rs : list Reading) (v k l lo hi : Z) : Prop :=
  exists r, r ∈ rs /\ r.(rd_dial) = v /\ k <= r.(rd_after) /\ l <= r.(rd_console) /\ lo <= r.(rd_time) <= hi.

Lemma was_read_weaken rs rs' v k k' l l' lo lo' hi hi' :
  was_read rs v k l lo hi -> rs ⊆ rs' -> k' <= k -> l' <= l -> lo' <= lo -> hi <= hi' -> was_read rs' v k' l' lo' hi'.
Proof. intros (r & Hr & Hv & Hk & Hl & Ht) Hs ????. exists r. split_and!; [by apply Hs|done|lia|lia|lia|lia]. Qed.

(** The console sets a reading now in the cache is sure to be later than: all
    applied ones if it was published since, all acknowledged ones unless one was
    acknowledged blindly. *)
Definition console_bound (cn : ConsoleSets) (l : Z) : Prop :=
  (l = cn.(cn_applied) /\ cn.(cn_published) = true) \/ (l = cn.(cn_acked) /\ cn.(cn_blind) = false) \/ l = 0.

Record cinv (w : CacheWorld) : Prop := {
  ci_acks : 0 <= w.(c_last_set_at) <= w.(c_acks);
  ci_console : 0 <= w.(c_console).(cn_acked) <= w.(c_console).(cn_applied);
  ci_generation : w.(c_cache).(generation) = w.(c_acks) mod 2 ^ 64;
  ci_poll : match w.(c_poll) with
            | Some p => p.(pl_generation) = p.(pl_after) mod 2 ^ 64 /\ 0 <= p.(pl_after) <= w.(c_acks)
                        /\ p.(pl_console) = w.(c_console).(cn_applied)
                        /\ p.(pl_taken) <= w.(c_now)
                        /\ forall st, p.(pl_state) = Some st ->
                           was_read w.(c_readings) st.(vfo_a_hz) p.(pl_after) p.(pl_console) p.(pl_taken) w.(c_now)
            | None => True
            end;
  ci_measured : forall st t l, w.(c_cache).(assumed) = false -> w.(c_cache).(state) = Some st ->
    w.(c_cache).(taken) = Some t -> console_bound w.(c_console) l ->
    was_read w.(c_readings) st.(vfo_a_hz) w.(c_acks) l t w.(c_now);
  ci_served : forall st t, w.(c_cache).(state) = Some st -> w.(c_cache).(taken) = Some t ->
    w.(c_last_set) = Some st.(vfo_a_hz)
    \/ was_read w.(c_readings) st.(vfo_a_hz) w.(c_last_set_at) 0 t w.(c_now) }.

Lemma cinv_initial n d : cinv (cache_initial n d).
Proof. split; cbn; try done. Qed.

Lemma cstep_acks w w' : cstep w w' -> w.(c_acks) <= w'.(c_acks).
Proof. destruct 1; cbn; lia. Qed.

(** The clock goes on, and more is read. *)
Lemma cinv_later n n' d d' c p k a i rs rs' cn :
  cinv (mk_CacheWorld n d c p k a i rs cn) -> n <= n' -> rs ⊆ rs' -> cinv (mk_CacheWorld n' d' c p k a i rs' cn).
Proof.
  intros [Ha Hc Hg Hp Hm Hv] Hn Hrs. cbn in *. split; cbn; try done.
  - destruct p as [p|]; [|done]. destruct Hp as (? & ? & ? & ? & Hr). split_and!; try lia. intros st E.
    eapply was_read_weaken; [by apply Hr|done|lia..].
  - intros. eapply was_read_weaken; [by eapply Hm|done|lia..].
  - intros st t Es Et. destruct (Hv st t Es Et) as [?|Hr]; [by left|right].
    eapply was_read_weaken; [exact Hr|done|lia..].
Qed.

(** A set is noted. *)
Lemma cinv_patched n d c p k a a' i i' rs cn f :
  cinv (mk_CacheWorld n d c p k a i rs cn) -> 0 <= i' <= k + 1 ->
  (forall st t, c.(state) = Some st -> c.(taken) = Some t ->
     a' = Some (vfo_a_hz (f st)) \/ was_read rs (vfo_a_hz (f st)) i' 0 t n) ->
  cinv (mk_CacheWorld n d (mk_Cache (f <$> c.(state)) c.(taken) true (wrapping_add_u64 c.(generation) 1)) p (k + 1) a' i' rs cn).
Proof.
  intros [Ha Hc Hg Hp Hm Hv] Hi Hf. cbn in *. split; cbn; try done.
  - unfold wrapping_add_u64. rewrite Hg. by rewrite Z.add_mod_idemp_l by lia.
  - destruct p as [p|]; [|done]. destruct Hp as (? & ? & ? & ? & Hr). by split_and!; try lia.
  - intros st t Es Et. destruct (state c) as [s|] eqn:E; simplify_eq/=. by apply Hf.
Qed.

Lemma cinv_step w w' : cstep w w' -> w'.(c_acks) < 2 ^ 64 -> cinv w -> cinv w'.
Proof.
  intros Hs Hb Hi. destruct Hs as [n d c p k a i rs cn n' Hn|n d c p k a i rs cn d'|n d c k a i rs cn
    |n d c g t j l st0 st k a i rs cn Hst|n d c g t j l st0 k a i rs cn|n d c g t j l st k a i rs cn c' E
    |n d c p k a i rs cn hz c' E|n d c p k a i rs cn f c' Hf E|n d c k a i rs cn|n d c k a i rs cn]; cbn in Hb.
  - eapply cinv_later; [exact Hi|lia|done].
  - eapply cinv_later; [exact Hi|lia|done].
  - destruct Hi as [Ha Hc Hg Hp Hm Hv]. cbn in *. split; cbn; try done. split_and!; [done|lia|lia|done|lia|done].
  - apply (cinv_later n n d d c _ k a i rs (mk_Reading n d j l :: rs)) in Hi; [|lia|by apply list_subseteq_cons].
    destruct Hi as [Ha Hc Hg (? & ? & ? & ? & _) Hm Hv]. cbn in *. split; cbn; try done.
    split_and!; try lia. intros st' [= <-]. exists (mk_Reading n d j l). cbn. split_and!; [left|done|lia..].
  - destruct Hi as [Ha Hc Hg (? & ? & ? & ? & _) Hm Hv]. cbn in *. split; cbn; try done.
  - destruct Hi as [Ha Hc Hg (Eg & ? & El & ? & Hr) Hm Hv]. cbn in *. unfold published.
    destruct st as [st|]; cbn in E; [|simplify_eq; by split].
    case_bool_decide as Eq; [|injection E as <-; by split].
    assert (j = k) as -> by (rewrite Hg, Eg, !Z.mod_small in Eq; lia). injection E as <-. subst l.
    split; cbn; try done.
    + intros st' t' l' _ [= <-] [= <-] Hcb. eapply was_read_weaken; [by apply Hr|done|lia| |lia|lia].
      destruct Hcb as [[-> _]|[[-> _]| ->]]; cbn; lia.
    + intros st' t' [= <-] [= <-]. right. eapply was_read_weaken; [by apply Hr|done|lia..].
  - injection E as <-. eapply cinv_patched; [exact Hi|destruct Hi; cbn in *; lia|]. intros st t _ _. by left.
  - injection E as <-. pose proof Hi as [Ha _ _ _ _ Hv]. cbn in *. eapply cinv_patched; [exact Hi|lia|].
    intros st t Es Et. rewrite Hf. by apply Hv.
  - destruct Hi as [Ha Hc Hg Hp Hm Hv]. cbn in *. split; cbn; try done; [lia|].
    intros st t l E1 E2 E3 [[_ ?]|[[-> ?]| ->]]; [done| |]; eapply Hm; eauto; unfold console_bound; auto.
  - destruct Hi as [Ha Hc Hg Hp Hm Hv]. cbn in *. split; cbn; try done; [lia|].
    intros st t l E1 E2 E3 [[-> ?]|[[-> Hbl]| ->]]; eapply Hm; eauto; unfold console_bound; auto.
    left. split; [done|]. cbn in Hbl. apply orb_false_iff in Hbl as [_ Hbl]. by apply negb_false_iff in Hbl.
Qed.

Lemma creachable_cinv w : creachable w -> w.(c_acks) < 2 ^ 64 -> cinv w.
Proof.
  intros (n & d & Hr). revert Hr. apply (rtc_ind_r (fun w => w.(c_acks) < 2 ^ 64 -> cinv w)).
  - intros _. apply cinv_initial.
  - intros w1 w2 _ Hs IH Hb. apply (cinv_step w1); [done|done|]. apply IH. apply cstep_acks in Hs. lia.
Qed.

Lemma within_age now t max_age : (elapsed now t <=? max_age) = true -> now - max_age <= t.
Proof. rewrite Z.leb_le. unfold elapsed. lia. Qed.

(** The console sets a fresh reading is later than. *)
Definition console_seen (cn : ConsoleSets) : Z := if cn.(cn_blind) then 0 else cn.(cn_acked).

Lemma measured_was_read w max_age st :
  cinv w -> measured_state (Some w.(c_cache)) max_age w.(c_now) = Some st ->
  was_read w.(c_readings) st.(vfo_a_hz) w.(c_acks) (console_seen w.(c_console)) (w.(c_now) - max_age) w.(c_now).
Proof.
  intros Hi. cbn. destruct (assumed _) eqn:Ea; [done|]. destruct (taken _) as [t|] eqn:Et; [|done].
  destruct (elapsed _ _ <=? _) eqn:El; [|done]. intros Es.
  eapply was_read_weaken; [eapply (ci_measured _ Hi st t (console_seen w.(c_console))); try done|done|lia|lia|by apply within_age|lia].
  unfold console_bound, console_seen. destruct (cn_blind _) eqn:Hb; auto.
Qed.

Lemma recent_was_set_or_read w max_age st :
  cinv w -> recent_state (Some w.(c_cache)) max_age w.(c_now) = Some st ->
  w.(c_last_set) = Some st.(vfo_a_hz)
  \/ was_read w.(c_readings) st.(vfo_a_hz) w.(c_last_set_at) 0 (w.(c_now) - max_age) w.(c_now).
Proof.
  intros Hi. cbn. destruct (taken _) as [t|] eqn:Et; [|done].
  destruct (elapsed _ _ <=? _) eqn:El; [|done]. intros Es.
  destruct (ci_served _ Hi _ _ Es Et) as [?|Hr]; [by left|right].
  eapply was_read_weaken; [exact Hr|done|lia|lia|by apply within_age|lia].
Qed.

Section CacheTheorems.
  Context {R : Type} `{!RigctlRadio R}.

(** C13. A rigctl set is swallowed only if the radio was just seen there: however
    polls, rigctl sets, console sets and the front panel interleave, when a
    rigctl client sets the dial, either the call goes to the radio and its
    success is noted, or the radio was read to be on exactly that frequency
    within the last 600 ms, by a poll that started after every rigctl set
    acknowledged so far, and after every console set acknowledged so far too
    unless one was acknowledged by a pump cycle that published no reading. *)
Theorem skipped_set_was_measured w (r : R) hz :
  creachable w -> w.(c_acks) < 2 ^ 64 ->
  let c := mk_Cached r (Some w.(c_cache)) w.(c_now) in
  set_vfo_a_hz c hz = noting c (set_vfo_a_hz r hz) (with_vfo_a hz)
  \/ set_vfo_a_hz c hz = (c, Ok tt)
     /\ was_read w.(c_readings) hz w.(c_acks) (console_seen w.(c_console)) (w.(c_now) - FRESH_ENOUGH_TO_SKIP) w.(c_now).
Proof.
  intros Hr Hb c. cbn [set_vfo_a_hz cached_radio]. unfold cached_set_vfo_a_hz, fresh.
  destruct (measured_state _ _ _) as [st|] eqn:E; [|by left].
  destruct (Z.eqb_spec st.(vfo_a_hz) hz) as [<-|]; [right|by left].
  split; [done|]. apply measured_was_read; [by apply creachable_cinv|exact E].
Qed.

(** A read answers with the last word on the dial: what a client is told
    without asking the radio is the frequency of the last acknowledged rigctl
    set, or one read from the radio within the last twelve seconds by a poll that
    started after that set; a poll that such a set overtook is never served. *)
Theorem cached_read_is_last_word w (r : R) :
  creachable w -> w.(c_acks) < 2 ^ 64 ->
  let c := mk_Cached r (Some w.(c_cache)) w.(c_now) in
  get_vfo_a_hz c = pass c (get_vfo_a_hz r)
  \/ exists hz, get_vfo_a_hz c = (c, Ok hz)
     /\ (w.(c_last_set) = Some hz
         \/ was_read w.(c_readings) hz w.(c_last_set_at) 0 (w.(c_now) - MAX_READ_AGE) w.(c_now)).
Proof.
  intros Hr Hb c. cbn [get_vfo_a_hz cached_radio]. unfold cached_get_vfo_a_hz.
  destruct (recent_state _ _ _) as [st|] eqn:E; [right|by left].
  exists st.(vfo_a_hz). split; [done|]. apply recent_was_set_or_read; [by apply creachable_cinv|exact E].
Qed.

Lemma noting_inner {A E} (c : Cached A) (x : A * result () E) f : (noting c x f).1.(cached_inner) = x.1.
Proof. destruct x as [? []]; done. Qed.

Lemma kept_through_cache (P : R -> Prop) :
  kept_otherwise P -> kept_otherwise (fun c : Cached R => P c.(cached_inner)).
Proof.
  intros HP.
  split; intros; cbn [get_vfo_a_hz set_vfo_a_hz get_mode set_mode get_split set_split get_rit_hz get_xit_hz
    get_transmitting receive cached_radio];
    unfold cached_get_vfo_a_hz, cached_set_vfo_a_hz, cached_get_mode, cached_set_mode, cached_get_split,
      cached_set_split, cached_receive;
    repeat case_match; rewrite ?noting_inner; try done; cbn; by apply HP.
Qed.

End CacheTheorems.

Section Stack.
  Context {R : Type} `{!RigctlRadio R}.

(** The stack a Linux server builds, the cache over the gate, from one line of
    a client to the next: the pump and the CW loop change both in between. *)
Fixpoint stacked_session (r : R) (lines : list (CwSlot * Locked Cache * Z * text)) : R * list bytes :=
  match lines with
  | [] => (r, [])
  | (slot, cache, now, l) :: lines =>
      let '(c, a) := rig_dispatch (mk_Cached (mk_PttGate r slot) cache now) l in
      let '(r, rest) := stacked_session c.(cached_inner).(inner) lines in (r, a :: rest)
  end.

(** The cache in front of the gate does not open it: whatever is cached,
    and however a client's lines interleave with the pump and the CW loop, if at
    the gate's look every line that asks for the transmitter meets a state of the
    loop in which the radio is altered, the transmitter stays as it was. *)
Theorem cached_gate_cannot_key (P : R -> Prop) cap cfg lines : forall r,
  kept_otherwise P -> P r ->
  Forall (fun x => asks_to_key x.2 = true -> altered_slot cap cfg x.1.1.1) lines ->
  P (stacked_session r lines).1.
Proof.
  induction lines as [|[[[slot ca] nw] l] lines IH]; intros r HP Hr Hl; [done|]. cbn [stacked_session].
  apply Forall_cons_1 in Hl as [Hs Hl]. cbn [fst snd] in Hs.
  assert (Hg : P (rig_dispatch (mk_Cached (mk_PttGate r slot) ca nw) l).1.(cached_inner).(inner)).
  { apply (rig_dispatch_kept (fun c : Cached (PttGate R) => P c.(cached_inner).(inner)));
      [by apply (kept_through_cache (fun g : PttGate R => P g.(inner))), kept_through_gate|done|].
    intros Hk. cbn [transmit cached_radio ptt_gate_radio]. unfold cached_transmit. rewrite noting_inner.
    cbn [transmit ptt_gate_radio cached_inner]. unfold gate_transmit, gate_admits. cbn [shared].
    by rewrite (altered_slot_blocks cap cfg slot (Hs Hk)). }
  destruct (rig_dispatch _ l) as [c a]. specialize (IH c.(cached_inner).(inner) HP Hg Hl).
  by destruct (stacked_session c.(cached_inner).(inner) lines).
Qed.
End Stack.

(** A poll that found the radio on 7074 kHz. *)
Definition on_7074 : RadioState := mk_RadioState 7074000 0 Usb false false None None None [] None None.
Definition no_console : ConsoleSets := mk_ConsoleSets 0 0 true false.
Definition polled : CacheWorld :=
  mk_CacheWorld 0 7074000 (mk_Cache (Some on_7074) (Some 0) false 0) None 0 None 0 [mk_Reading 0 7074000 0 0] no_console.
Lemma polled_reachable : creachable polled.
Proof.
  exists 0, 7074000. eapply rtc_l; [apply c_poll_start|]. eapply rtc_l; [by apply (c_poll_read _ _ _ _ _ _ _ _ on_7074)|].
  eapply rtc_l; [by apply c_poll_end|]. constructor.
Qed.

(** Then the client sets 14074 kHz, and half a second passes. *)
Definition retuned : CacheWorld :=
  mk_CacheWorld 500000000 14074000 (mk_Cache (Some (with_vfo_a 14074000 on_7074)) (Some 0) true 1) None 1 (Some 14074000) 1
    [mk_Reading 0 7074000 0 0] no_console.
Lemma retuned_reachable : creachable retuned.
Proof.
  destruct polled_reachable as (n & d & Hr). exists n, d. etrans; [exact Hr|].
  eapply rtc_l; [apply (c_move _ _ _ _ _ _ _ _ _ 14074000)|]. eapply rtc_l; [by apply (c_ack_dial _ _ _ _ _ _ _ _ _ 14074000)|].
  eapply rtc_l; [by apply (c_tick _ _ _ _ _ _ _ _ _ 500000000)|]. constructor.
Qed.

(** Or a console sets 14074 kHz, and the poll of that cycle fails (or CW is
    live, and there is none): the set is acknowledged all the same. *)
Definition console_blind : CacheWorld :=
  mk_CacheWorld 500000000 14074000 (mk_Cache (Some on_7074) (Some 0) false 0) None 0 None 0 [mk_Reading 0 7074000 0 0]
    (mk_ConsoleSets 1 1 false true).
Lemma console_blind_reachable : creachable console_blind.
Proof.
  destruct polled_reachable as (n & d & Hr). exists n, d. etrans; [exact Hr|].
  eapply rtc_l; [apply c_console_apply|]. eapply rtc_l; [apply (c_move _ _ _ _ _ _ _ _ _ 14074000)|].
  eapply rtc_l; [apply c_poll_start|]. eapply rtc_l; [by apply c_poll_end|].
  eapply rtc_l; [apply c_console_ack|].
  eapply rtc_l; [by apply (c_tick _ _ _ _ _ _ _ _ _ 500000000)|]. constructor.
Qed.

(** A console's set is taken back by nobody: it is acknowledged, the radio is on
    14074 kHz, and a rigctl client that sets 7074 kHz, where the radio was last
    measured, is told it was done while nothing is sent. *)
Theorem console_set_then_rigctl_swallowed {R} `{!RigctlRadio R} (r : R) :
  creachable console_blind /\ console_blind.(c_dial) = 14074000 /\ console_blind.(c_console).(cn_acked) = 1
  /\ let c := mk_Cached r (Some console_blind.(c_cache)) console_blind.(c_now) in
     set_vfo_a_hz c 7074000 = (c, Ok tt).
Proof. split_and!; [exact console_blind_reachable|reflexivity..]. Qed.

Lemma skipped_set_was_measured_witness :
  set_vfo_a_hz (mk_Cached (mk_ToyRadio false 7074000) (Some polled.(c_cache)) 0) 7074000
  = (mk_Cached (mk_ToyRadio false 7074000) (Some polled.(c_cache)) 0, Ok tt)
  /\ was_read polled.(c_readings) 7074000 0 0 (-600000000) 0.
Proof.
  destruct (skipped_set_was_measured polled (mk_ToyRadio false 7074000) 7074000 polled_reachable) as [E|E].
  - reflexivity.
  - discriminate E.
  - exact E.
Defined.

Lemma cached_read_is_last_word_witness :
  exists hz, (get_vfo_a_hz (mk_Cached (mk_ToyRadio false 1) (Some retuned.(c_cache)) 500000000)).2 = Ok hz
    /\ hz = 14074000.
Proof.
  destruct (cached_read_is_last_word retuned (mk_ToyRadio false 1) retuned_reachable) as [E|(hz & E & [H|H])].
  - reflexivity.
  - discriminate E.
  - exists hz. split; [exact (f_equal snd E)|]. by injection H as <-.
  - exists hz. split; [exact (f_equal snd E)|]. injection E as <-. reflexivity.
Defined.

(** A radio that takes every setting of the dial but whose answers are lost. *)
Record LossyRadio : Type := mk_LossyRadio { lossy_dial : Z }.
#[export] Instance lossy_radio : RigctlRadio LossyRadio := {|
  Mode := (); RigError := ();
  get_vfo_a_hz r := (r, Err tt); set_vfo_a_hz r hz := (mk_LossyRadio hz, Err tt);
  get_mode r := (r, Err tt); set_mode r _ := (r, Err tt);
  get_split r := (r, Err tt); set_split r _ := (r, Err tt);
  get_rit_hz r := (r, Err tt); get_xit_hz r := (r, Err tt);
  get_transmitting r := (r, Err tt); transmit r := (r, Err tt); receive r := (r, Err tt);
  unsupported := tt; hamlib_mode_name _ := "USB"%string; hamlib_mode_from_name _ := None;
  freq_range_hz := (500000, 60000000); mode_from_id _ := None; capabilities := None |}.

(** A set that failed after it reached the radio leaves the cache as it was, a
    measurement still: reads give the old frequency, and setting it back, the
    one command that would make that true, is swallowed. *)
Example lost_answer_swallows_next_set :
  let c := mk_Cached (mk_LossyRadio 7074000) (Some polled.(c_cache)) 100000000 in
  let c1 := (set_vfo_a_hz c 14074000).1 in
  c1.(cached_inner) = mk_LossyRadio 14074000
  /\ (get_vfo_a_hz c1).2 = Ok 7074000
  /\ set_vfo_a_hz c1 7074000 = (c1, Ok tt).
Proof. cbv zeta. split_and!; reflexivity. Qed.

(** ** The command queue *)

Inductive Slot : Type :=
| SlFrequency (vfo : Z) | SlMode | SlSplit | SlMemoryChannel | SlFilterWidth | SlIfShift | SlRetune | SlKeyerSpeed.
#[export] Instance Slot_eq_dec : EqDecision Slot.
Proof. solve_decision. Defined.

Definition slot_of (c : Command) : option Slot :=
  match c with
  | SetFrequency vfo _ => Some (SlFrequency vfo)
  | SetMode _ => Some SlMode
  | SetSplit _ => Some SlSplit
  | SetMemoryChannel _ => Some SlMemoryChannel
  | SetFilterWidth _ => Some SlFilterWidth
  | SetIfShift _ => Some SlIfShift
  | Retune _ => Some SlRetune
  | ReadMeter _ | ReadState | ReadDevices | AttachDevice _ _ => None
  | SetKeyerSpeed _ => Some SlKeyerSpeed
  | ArmCwTransmit _ _ _ | SendCwText _ | AbortCw | DisarmCw => None
  end.

(** A reply channel is a number; what is sent into it, a pair. *)
Definition Pending : Type := Command * Z.
Definition Reply : Type := Z * result () message.
Definition SUPERSEDED : message :=
  [PStr "superseded: a newer setting for the same control was queued before this one reached the radio"].

(** [enqueue], with the channel it made: the queue, the replies sent. *)
Fixpoint supersede (s : Slot) (q : list Pending) : list Pending * list Reply :=
  match q with
  | [] => ([], [])
  | (c, reply) :: q =>
      let '(kept, told) := supersede s q in
      if bool_decide (slot_of c = Some s) then (kept, (reply, Err SUPERSEDED) :: told) else ((c, reply) :: kept, told)
  end.
Definition enqueue (q : Locked (list Pending)) (command : Command) (tx : Z)
  : Locked (list Pending) * list Reply * result () message :=
  match q with
  | None => (None, [], Err [PStr "the server's command queue is poisoned"])
  | Some q =>
      let '(q, told) := match slot_of command with Some s => supersede s q | None => (q, []) end in
      (Some (q ++ [(command, tx)]), told, Ok tt)
  end.
Definition take_queued (q : Locked (list Pending)) : Locked (list Pending) * list Pending :=
  match q with Some q => (Some [], q) | None => (None, []) end.

(** Commands arriving one after another between two visits of the pump. *)
Fixpoint enqueue_all (q : Locked (list Pending)) (cs : list Pending) : Locked (list Pending) * list Reply :=
  match cs with
  | [] => (q, [])
  | (c, tx) :: cs =>
      let '(q, told, _) := enqueue q c tx in
      let '(q, rest) := enqueue_all q cs in (q, told ++ rest)
  end.

(** *** What the queue promises: of the settings of one control the last, and
    everything else *)

Definition same_control (c : Command) (p : Pending) : bool :=
  match slot_of c with Some s => bool_decide (slot_of p.1 = Some s) | None => false end.
Fixpoint winners (cs : list Pending) : list Pending :=
  match cs with
  | [] => []
  | p :: cs => if existsb (same_control p.1) cs then winners cs else p :: winners cs
  end.
Fixpoint losers (cs : list Pending) : list Pending :=
  match cs with
  | [] => []
  | p :: cs => if existsb (same_control p.1) cs then p :: losers cs else losers cs
  end.
Definition told_superseded (p : Pending) : Reply := (p.2, Err SUPERSEDED).

Lemma same_control_iff c c' tx s :
  slot_of c = Some s -> same_control c' (c, tx) = bool_decide (slot_of c' = Some s).
Proof.
  intros Hs. unfold same_control. cbn [fst]. rewrite Hs.
  destruct (slot_of c') as [s'|]; [|by rewrite bool_decide_eq_false_2].
  repeat case_bool_decide; congruence.
Qed.

(** A new setting of a control, put behind the winners so far. *)
Lemma supersede_winners c tx s q :
  slot_of c = Some s ->
  (supersede s (winners q)).1 ++ [(c, tx)] = winners (q ++ [(c, tx)])
  /\ map told_superseded (losers q) ++ (supersede s (winners q)).2 ≡ₚ map told_superseded (losers (q ++ [(c, tx)])).
Proof.
  intros Hs. induction q as [|[c' tx'] q [IH1 IH2]]; [done|]. cbn [winners losers app].
  rewrite existsb_app. cbn [existsb fst]. rewrite (same_control_iff c c' tx s Hs), orb_false_r.
  destruct (existsb (same_control c') q); cbn [orb].
  - split; [done|]. cbn [map app]. by rewrite IH2.
  - cbn [supersede]. destruct (supersede s (winners q)) as [kept told]. cbn [fst snd] in *.
    case_bool_decide; cbn [fst snd map app]; [|by split; [f_equal|]].
    split; [done|]. rewrite <- IH2. symmetry. apply Permutation_middle.
Qed.

Lemma no_control_winners c tx q :
  slot_of c = None -> winners (q ++ [(c, tx)]) = winners q ++ [(c, tx)] /\ losers (q ++ [(c, tx)]) = losers q.
Proof.
  intros Hs. induction q as [|[c' tx'] q [IH1 IH2]]; [done|]. cbn [winners losers app fst].
  assert (E : existsb (same_control c') (q ++ [(c, tx)]) = existsb (same_control c') q).
  { rewrite existsb_app. cbn. unfold same_control at 2. cbn [fst]. rewrite Hs.
    destruct (slot_of c'); by rewrite orb_false_r. }
  rewrite E, IH1, IH2. by destruct (existsb (same_control c') q).
Qed.

(** Last in wins, and everybody is told: of the commands that arrive
    between two visits of the pump, the pump takes exactly those that no later
    one replaces, in the order they came, and each of the others, and nobody
    else, is told once that it was superseded. *)
Theorem queue_last_in_wins cs :
  let '(q, told) := enqueue_all (Some []) cs in
  take_queued q = (Some [], winners cs) /\ told ≡ₚ map told_superseded (losers cs).
Proof.
  enough (H : forall cs0, let '(q, told) := enqueue_all (Some (winners cs0)) cs in
    q = Some (winners (cs0 ++ cs)) /\ map told_superseded (losers cs0) ++ told ≡ₚ map told_superseded (losers (cs0 ++ cs))).
  { specialize (H []). cbn [winners losers map app] in H. destruct (enqueue_all (Some []) cs) as [q told].
    by destruct H as [-> H]. }
  induction cs as [|[c tx] cs IH]; intros cs0; cbn [enqueue_all].
  { rewrite !app_nil_r. done. }
  specialize (IH (cs0 ++ [(c, tx)])). rewrite <- app_assoc in IH. cbn [app] in IH. cbn [enqueue].
  destruct (slot_of c) as [s|] eqn:Hs.
  - destruct (supersede_winners c tx s cs0 Hs) as [E1 E2].
    destruct (supersede s (winners cs0)) as [kept told]. cbn [fst snd] in *. rewrite E1.
    destruct (enqueue_all _ cs) as [q rest]. destruct IH as [-> IH]. split; [done|]. by rewrite app_assoc, E2.
  - destruct (no_control_winners c tx cs0 Hs) as [E1 E2]. rewrite <- E1, <- E2.
    destruct (enqueue_all _ cs) as [q rest]. exact IH.
Qed.

(** Two consoles turn the dial, one asks for the meter. *)
Example queue_example :
  enqueue_all (Some []) [(SetFrequency 0 7074000, 1); (ReadMeter MS, 2); (SetFrequency 1 7080000, 3); (SetFrequency 0 14074000, 4)]
  = (Some [(ReadMeter MS, 2); (SetFrequency 1 7080000, 3); (SetFrequency 0 14074000, 4)], [(1, Err SUPERSEDED)]).
Proof. reflexivity. Qed.
