(* ===== verification/CwExamples.v ===== *)
(** * CwExamples: the supervisor run on concrete inputs

    Runs of the closed loop that reach the states the theorems of [CwTheorems]
    speak of, three runs in which an abort or a disarm does not get what the
    module documentation of cw.rs promises, and one in which an arm comes
    between the PTT gate's look and the call it let through. *)

From stdpp Require Import relations.
From S2P Require Import Prelude Text Morse Timing Capabilities NativeTypes CwSupervisor CwChunks Register CwSafety CwTheorems Rigctl.

(** ** Two radios *)

Definition example_charset : text := txt "ABCDEFGHIJKLMNOPQRSTUVWXYZ0123456789/?.,=+-".

(** A busy flag, no stop command (as the TS-570D), keying regardless of break-in. *)
Definition drain_radio : CwCapability :=
  mk_CwCapability None false (Some (mk_WpmRange 10 60)) true []
    (Some (mk_CwSendText 24 example_charset BufferFlag DrainOnly None))
    (Some (mk_TxGateCapability 5 "5 W" (mk_RawRange 5 100))).
(** A stop command, no busy flag (as the IC-7100), needing break-in. *)
Definition stop_radio : CwCapability :=
  mk_CwCapability None false (Some (mk_WpmRange 6 48)) true [BreakOff; Semi; Full]
    (Some (mk_CwSendText 30 example_charset Estimated RadioStop (Some Semi)))
    (Some (mk_TxGateCapability 0 "2 W" (mk_RawRange 0 255))).
(** A busy flag and a stop command. *)
Definition flag_stop_radio : CwCapability :=
  mk_CwCapability None false (Some (mk_WpmRange 10 60)) true []
    (Some (mk_CwSendText 24 example_charset BufferFlag RadioStop None))
    (Some (mk_TxGateCapability 5 "5 W" (mk_RawRange 5 100))).

Example drain_radio_valid : validate (fun c => (97 <=? c) && (c <=? 122)) drain_radio = Ok tt.
Proof. vm_compute. reflexivity. Qed.
Example stop_radio_valid : validate (fun c => (97 <=? c) && (c <=? 122)) stop_radio = Ok tt.
Proof. vm_compute. reflexivity. Qed.

(** ** Runs of the closed loop *)

Inductive Move : Type :=
| MReq (q : Request) (now : Z)
| MPump (now : Z)
| MIdeal (now : Z)       (** the radio answers *)
| MFailed (now : Z)      (** the exchange fails and has no effect *)
| MIgnored (now : Z)     (** the exchange is acknowledged and has no effect *)
| MTurnPower (p : Z).    (** somebody turns the power *)

Definition answer_with (w : World) (f : CwAction -> Radio -> CwOutcome * Radio) (now : Z) : World :=
  match w.(w_sup).(outstanding) ≫= action with
  | Some a => let '(o, r) := f a w.(w_radio) in mk_World (complete w.(w_sup) o now) r w.(w_home) None w.(w_since)
  | None => w
  end.

(** A radio that acknowledges writes without carrying them out. *)
Definition ignoring_answer (a : CwAction) (r : Radio) : CwOutcome * Radio := ((ideal_answer a r).1, r).

Definition move (w : World) (m : Move) : World :=
  match m with
  | MReq q now => mk_World (handle_request w.(w_sup) q now) w.(w_radio) (home_after w q now) w.(w_heard) (since_after w q now)
  | MPump now => mk_World (next_action w.(w_sup) now).1 w.(w_radio) w.(w_home) w.(w_heard) w.(w_since)
  | MIdeal now => answer_with w ideal_answer now
  | MFailed now => answer_with w (fun _ r => (Failed [PStr "timeout"], r)) now
  | MIgnored now => answer_with w ignoring_answer now
  | MTurnPower p => mk_World w.(w_sup) (mk_Radio p w.(w_radio).(r_break_in))
                      (mk_Home (turn p w.(w_home).(h_power)) w.(w_home).(h_break_in)) w.(w_heard) true
  end.
Definition moves (ms : list Move) (w : World) : World := fold_left move ms w.

Lemma answer_with_rtc w f now :
  (forall a r, radio_answers a r (f a r).1 (f a r).2) -> w.(w_heard) = None -> rtc wstep w (answer_with w f now).
Proof.
  intros Hf Hh. unfold answer_with. destruct (outstanding (w_sup w)) as [st|] eqn:Ho; cbn; [|done].
  destruct (action st) as [a|] eqn:Ha; [|done]. specialize (Hf a (w_radio w)).
  destruct (f a (w_radio w)) as [o r]. eapply rtc_l; [by apply (w_execute w st a o r)|].
  apply rtc_once. by apply (w_hear (mk_World (w_sup w) r (w_home w) (Some o) (w_since w))).
Qed.

Lemma failed_answers a r : radio_answers a r (Failed [PStr "timeout"]) r.
Proof. destruct a; cbn; auto; split; auto; done. Qed.
Lemma ignoring_answers a r : radio_answers a r (ignoring_answer a r).1 (ignoring_answer a r).2.
Proof. destruct a; cbn; auto; split; auto; by intros ? [= <-]. Qed.

Lemma answer_with_heard w f now : w.(w_heard) = None -> (answer_with w f now).(w_heard) = None.
Proof. intros H. unfold answer_with. destruct (_ ≫= _); [|done]. by destruct (f c (w_radio w)). Qed.
Lemma move_heard w m : w.(w_heard) = None -> (move w m).(w_heard) = None.
Proof. destruct m; cbn [move]; try done; apply answer_with_heard. Qed.

Lemma move_rtc w m : w.(w_heard) = None -> rtc wstep w (move w m).
Proof.
  intros Hh. destruct m; cbn [move].
  - apply rtc_once, w_request.
  - apply rtc_once, w_next.
  - apply answer_with_rtc; [|done]. intros. apply ideal_answers.
  - apply answer_with_rtc; [|done]. intros. apply failed_answers.
  - apply answer_with_rtc; [|done]. intros. apply ignoring_answers.
  - apply rtc_once, w_turn_power.
Qed.

Lemma moves_rtc ms : forall w, w.(w_heard) = None -> rtc wstep w (moves ms w).
Proof.
  induction ms as [|m ms IH]; intros w Hh; [done|].
  etrans; [by apply (move_rtc w m)|by apply IH, move_heard].
Qed.
Lemma moves_reachable ms cap cfg r : reachable cap cfg (moves ms (initial cap cfg r)).
Proof. exists r. by apply moves_rtc. Qed.
Lemma moves_from ms cap cfg w : w.(w_heard) = None -> reachable cap cfg w -> reachable cap cfg (moves ms w).
Proof. intros Hh [r Hr]. exists r. etrans; [exact Hr|]. by apply moves_rtc. Qed.

(** [n] exchanges that all succeed. *)
Fixpoint exchanges (n : nat) (now : Z) : list Move :=
  match n with O => [] | S n => MPump now :: MIdeal now :: exchanges n now end.

Definition alice : ConsoleId := from_raw 1.
Definition sec (n : Z) : Z := from_secs n.

(** Armed, then a short text queued. *)
Definition to_armed (exch : nat) : list Move :=
  MReq (RqArm alice (txt "k1abc") None) 0 :: exchanges exch 0 ++ [MPump 0].
Definition armed_drain : World := Eval vm_compute in
  moves (to_armed 4) (initial drain_radio default_config (mk_Radio 100 BreakOff)).
Definition armed_stop : World := Eval vm_compute in
  moves (to_armed 7) (initial stop_radio default_config (mk_Radio 200 BreakOff)).

Example armed_drain_state : armed_drain.(w_radio) = mk_Radio 5 BreakOff /\ phase_of armed_drain.(w_sup) = PArmed.
Proof. split; reflexivity. Qed.
Example armed_stop_state : armed_stop.(w_radio) = mk_Radio 0 Semi /\ phase_of armed_stop.(w_sup) = PArmed.
Proof. split; reflexivity. Qed.

(** The first chunk is about to go out: status and power have been checked. *)
Definition sending_moves : list Move := MReq (RqSend alice (txt "e")) (sec 1) :: exchanges 2 (sec 1).
Definition sending_stop : World := Eval vm_compute in moves sending_moves armed_stop.
(** The same on a radio with a busy flag and a stop command, one pump on: the
    busy flag has been asked for. *)
Definition asking_ready : World := Eval vm_compute in
  moves (to_armed 4 ++ sending_moves ++ [MPump (sec 1)])
    (initial flag_stop_radio default_config (mk_Radio 100 BreakOff)).
(** The first chunk is in flight. *)
Definition chunk_in_flight : World := Eval vm_compute in moves [MPump (sec 1)] sending_stop.

Example sending_stop_state :
  (exists c, (next_action sending_stop.(w_sup) (sec 1)).2 = Some (SendChunk c))
  /\ asking_ready.(w_sup).(outstanding) = Some WaitReady
  /\ exists c, chunk_in_flight.(w_sup).(outstanding) = Some (Send c).
Proof. vm_compute. eauto. Qed.

(** ** Three promises that are not kept *)

(** A stop that is never sent: an operator aborts while a chunk is in
    flight, the chunk's exchange fails (it may still have reached the radio),
    and the planned stop is thrown away; the job ends as aborted without one.
    The comment of [begin_stop] says the stop is sent "always", for exactly
    the chunk that was lost track of. *)
Theorem aborted_chunk_failure_loses_stop t :
  let s := complete (abort chunk_in_flight.(w_sup) (sec 1)) (Failed [PStr "timeout"]) (sec 2) in
  (next_action s t).2 = None /\ (next_action s t).1.(activity) = Idle
  /\ JobEnded 1 Aborted None ∈ (next_action s t).1.(notices).
Proof.
  cbv zeta. split; [reflexivity|]. split; [reflexivity|].
  vm_compute. repeat (first [apply list_elem_of_here | apply list_elem_of_further]).
Qed.

(** A stop that waits for a busy keyer: aborted while the busy flag is
    being asked for, and told "busy", the supervisor asks again, and again,
    before it sends the stop. *)
Theorem aborted_busy_keyer_delays_stop :
  let s := complete (abort asking_ready.(w_sup) (sec 1)) (OutReady false) (sec 1) in
  s.(plan) = [WaitReady; Stop; WaitKeyed (from_millis 250)]
  /\ (next_action s (sec 1)).2 = None
  /\ (next_action s (sec 2)).2 = Some ActReady
  /\ (complete (next_action s (sec 2)).1 (OutReady false) (sec 2)).(plan) = s.(plan).
Proof. vm_compute. auto. Qed.

(** The power check of a send is in flight. *)
Definition checking_power : World := Eval vm_compute in
  moves (MReq (RqSend alice (txt "e")) (sec 1) :: exchanges 1 (sec 1) ++ [MPump (sec 1)]) armed_stop.

Definition is_reply (t : Z) (n : CwNotice) : bool :=
  match n with Reply t' _ => t' =? t | _ => false end.

(** A disarm that is never answered: asked for while the power check is in
    flight, it is forgotten when the check finds the power above the clamp;
    the radio is restored, but the ticket's reply and the job's end are never
    announced. *)
Theorem disarm_ticket_forgotten :
  let '(r, s1) := disarm checking_power.(w_sup) alice (sec 1) in
  let s2 := complete s1 (OutPower 50) (sec 1) in
  let '(s3, radio) := drive 8 (sec 10) s2 checking_power.(w_radio) in
  r = Ok 2 /\ is_settled s3 = true /\ radio = radio_before checking_power.(w_home)
  /\ existsb (is_reply 2) s3.(notices) = false
  /\ existsb (fun n => match n with JobEnded _ _ _ => true | _ => false end) s3.(notices) = false.
Proof. vm_compute. auto 10. Qed.

(** ** The theorems at concrete inputs *)

(** Sent, finished, disarmed, restored: the whole life of an arm. *)
Definition settled_again : World := Eval vm_compute in
  moves (exchanges 1 (sec 1) ++ exchanges 1 (sec 2) ++ [MPump (sec 10); MReq (RqDisarm alice) (sec 10)] ++ exchanges 4 (sec 10)
         ++ [MPump (sec 11)]) sending_stop.

Example settled_again_state :
  is_settled settled_again.(w_sup) = true /\ settled_again.(w_radio) = mk_Radio 200 BreakOff.
Proof. split; reflexivity. Qed.

Lemma sending_stop_reachable : reachable stop_radio default_config sending_stop.
Proof.
  assert (E : sending_stop = moves (to_armed 7 ++ sending_moves)
    (initial stop_radio default_config (mk_Radio 200 BreakOff))) by (vm_compute; reflexivity).
  rewrite E. apply moves_reachable.
Qed.

Lemma settled_again_reachable : reachable stop_radio default_config settled_again.
Proof.
  assert (E : settled_again = moves (exchanges 1 (sec 1) ++ exchanges 1 (sec 2) ++ [MPump (sec 10); MReq (RqDisarm alice) (sec 10)]
    ++ exchanges 4 (sec 10) ++ [MPump (sec 11)]) sending_stop) by (vm_compute; reflexivity).
  rewrite E. apply moves_from; [reflexivity|apply sending_stop_reachable].
Qed.

Lemma settled_radio_restored_witness : settled_again.(w_radio) = mk_Radio 200 BreakOff.
Proof.
  exact (proj2 (settled_radio_restored stop_radio default_config settled_again settled_again_reachable eq_refl)
           (conj eq_refl eq_refl)).
Defined.

Lemma altered_radio_blocks_ptt_witness : blocks_external_ptt sending_stop.(w_sup) = true.
Proof.
  apply (altered_radio_blocks_ptt stop_radio default_config); [exact sending_stop_reachable|].
  intros [[H|H] _]; [discriminate H|inversion H].
Defined.

Lemma keyed_only_at_clamp_witness :
  sending_stop.(w_radio).(r_power) = 0 /\ sending_stop.(w_radio).(r_break_in) = Semi.
Proof.
  destruct (keyed_only_at_clamp stop_radio default_config sending_stop (sec 1)
    (next_action sending_stop.(w_sup) (sec 1)).1 (txt "E") sending_stop_reachable eq_refl
    (mk_TxGateCapability 0 "2 W" (mk_RawRange 0 255))
    (mk_CwSendText 30 example_charset Estimated RadioStop (Some Semi)) eq_refl eq_refl) as (H1 & _ & H3).
  split; [exact (H1 eq_refl)|exact (H3 Semi eq_refl eq_refl)].
Defined.

(** A radio that acknowledges the restore's write and ignores it: the read-back
    fails, nothing is settled, and an external PTT stays refused. *)
Definition restore_ignored : World := Eval vm_compute in
  moves [MReq (RqDisarm alice) (sec 2); MPump (sec 2); MIgnored (sec 2); MPump (sec 2); MIdeal (sec 2)] armed_stop.
Example restore_ignored_state :
  restore_ignored.(w_radio).(r_power) = 0 /\ is_settled restore_ignored.(w_sup) = false
  /\ blocks_external_ptt restore_ignored.(w_sup) = true
  /\ exists e, restore_status restore_ignored.(w_sup) = Some (mk_RestoreStatus 1 e).
Proof. split_and!; try reflexivity. eexists. vm_compute. reflexivity. Qed.

(** The power knob is turned up between two messages: the next one is stopped at
    its power check. *)
Definition knob_turned : World := Eval vm_compute in
  moves [MTurnPower 90; MReq (RqSend alice (txt "e")) (sec 1); MPump (sec 1); MIdeal (sec 1); MPump (sec 1); MIdeal (sec 1)]
    armed_stop.
Example knob_turned_stops :
  (exists j, knob_turned.(w_sup).(activity)
             = Stopping j StopError (Some [PStr "power reads "; PInt 90; PStr ", above the "; PInt 0;
                                           PStr " it was clamped to"]) (Restore PowerAboveClamp None))
  /\ knob_turned.(w_since) = false.
Proof. split; [eexists; reflexivity|reflexivity]. Qed.

Lemma next_action_never_cut_witness :
  next_action sending_stop.(w_sup) (sec 1)
  = next_action_loop 100 (check_timers sending_stop.(w_sup) (sec 1)) (sec 1).
Proof. apply (next_action_never_cut stop_radio default_config sending_stop (sec 1) 36 sending_stop_reachable). reflexivity. Defined.

Lemma abort_stop_is_next_witness : (next_action (abort sending_stop.(w_sup) (sec 1)) (sec 1)).2 = Some ActStop.
Proof.
  destruct (activity sending_stop.(w_sup)) as [| |j| |] eqn:E; try discriminate E.
  exact (abort_stop_is_next stop_radio default_config sending_stop j (sec 1) (sec 1) (sec 1)
           sending_stop_reachable E).
Defined.

Lemma watchdog_stops_witness : (next_action sending_stop.(w_sup) (sec 60)).2 = Some ActStop.
Proof.
  destruct (activity sending_stop.(w_sup)) as [| |j| |] eqn:E; try discriminate E.
  refine (proj1 (watchdog_stops sending_stop.(w_sup) j (sec 60) E eq_refl _)).
  cbv in E. injection E as <-. vm_compute. discriminate.
Defined.

(** The pump step that announces the restore. *)
Definition restoring_last : World := Eval vm_compute in
  moves (exchanges 1 (sec 1) ++ exchanges 1 (sec 2) ++ [MPump (sec 10); MReq RqTakeNotices (sec 10); MReq (RqDisarm alice) (sec 10)]
         ++ exchanges 4 (sec 10)) sending_stop.
Lemma restoring_last_reachable : reachable stop_radio default_config restoring_last.
Proof.
  assert (E : restoring_last = moves (exchanges 1 (sec 1) ++ exchanges 1 (sec 2) ++ [MPump (sec 10); MReq RqTakeNotices (sec 10);
    MReq (RqDisarm alice) (sec 10)] ++ exchanges 4 (sec 10)) sending_stop) by (vm_compute; reflexivity).
  rewrite E. apply moves_from; [reflexivity|apply sending_stop_reachable].
Qed.

Lemma restored_notice_is_true_witness : given_back restoring_last.(w_home) restoring_last.(w_radio).
Proof.
  apply (restored_notice_is_true stop_radio default_config restoring_last (sec 11) restoring_last_reachable).
  - intros [x Hx]. vm_compute in Hx. apply list_elem_of_In in Hx. cbn in Hx. naive_solver.
  - exists Requested. vm_compute. repeat (first [apply list_elem_of_here | apply list_elem_of_further]).
Defined.

(** A restore one of whose writes failed, waiting to be retried. *)
Definition restore_waiting : World := Eval vm_compute in
  moves [MReq (RqDisarm alice) (sec 2); MPump (sec 2); MIdeal (sec 2); MPump (sec 2); MFailed (sec 2)] armed_stop.
Lemma restore_waiting_reachable : reachable stop_radio default_config restore_waiting.
Proof.
  assert (E : restore_waiting = moves (to_armed 7 ++ [MReq (RqDisarm alice) (sec 2); MPump (sec 2);
    MIdeal (sec 2); MPump (sec 2); MFailed (sec 2)])
    (initial stop_radio default_config (mk_Radio 200 BreakOff))) by (vm_compute; reflexivity).
  rewrite E. apply moves_reachable.
Qed.

Lemma restore_completes_witness :
  let '(s, r) := drive 5 (sec 7) restore_waiting.(w_sup) restore_waiting.(w_radio) in
  is_settled s = true /\ says_restored s /\ given_back restore_waiting.(w_home) r
  /\ (panel_untouched restore_waiting.(w_home) -> r = radio_before restore_waiting.(w_home)).
Proof.
  destruct (activity restore_waiting.(w_sup)) as [| | | |rs t n e retry] eqn:E; try discriminate E.
  apply (restore_completes stop_radio default_config restore_waiting (sec 7) rs t n e retry
    restore_waiting_reachable E); [reflexivity| |reflexivity].
  vm_compute in E. injection E as <- <- <- <- <-. split; [reflexivity|vm_compute; discriminate].
Defined.

(** The operator's text with the station's ID after it, for a radio with a
    stop command. *)
Lemma plan_chunks_content_witness :
  map chunk_text (pending_chunks (drop 0
    (plan_chunks (cw_new stop_radio default_config) (txt "CQ CQ") (Some (txt "DE W1AW")) false 20).(plan)))
  = [txt "CQ CQ"; txt "DE W1AW"].
Proof.
  refine (eq_trans (proj1 (plan_chunks_content (cw_new stop_radio default_config)
    (mk_CwSendText 30 example_charset Estimated RadioStop (Some Semi)) (txt "CQ CQ") (Some (txt "DE W1AW")) false 20
    eq_refl)) _).
  vm_compute. reflexivity.
Defined.

(** ** The gate *)

Lemma armed_stop_moves : armed_stop = moves (to_armed 7) (initial stop_radio default_config (mk_Radio 200 BreakOff)).
Proof. vm_compute. reflexivity. Qed.
Lemma armed_stop_rtc : rtc wstep (initial stop_radio default_config (mk_Radio 200 BreakOff)) armed_stop.
Proof. rewrite armed_stop_moves. by apply moves_rtc. Qed.
Lemma cw_runs {R} `{!RigctlRadio R} w w' (r : R) l ks :
  rtc wstep w w' -> rtc gate_step (mk_GateWorld w r l ks) (mk_GateWorld w' r l ks).
Proof. intros H. induction H as [|? ? ? Hs _ IH]; [done|]. eapply rtc_l; [by apply gs_cw|exact IH]. Qed.

(** WSJT-X asks for the transmitter while a console holds the arm. *)
Definition refused_gate : GateWorld ToyRadio := mk_GateWorld armed_stop (mk_ToyRadio false 7074000) None [].
Lemma rigctl_keys_only_given_back_witness : unkeyed refused_gate.(gw_rig).
Proof.
  refine (proj2 (rigctl_keys_only_given_back unkeyed stop_radio default_config (mk_Radio 200 BreakOff)
    (mk_ToyRadio false 7074000) refused_gate unkeyed_kept eq_refl _) eq_refl).
  etrans; [apply cw_runs, armed_stop_rtc|]. apply rtc_once.
  exact (gs_look armed_stop (mk_ToyRadio false 7074000) [] (txt "T 3") ltac:(vm_compute; reflexivity)).
Defined.

(** The look and the call are not one: WSJT-X asks while nobody holds the arm,
    a console arms before the call gets to the radio, and the radio is keyed
    with the console armed and its settings altered. *)
Theorem armed_between_look_and_call :
  let g := mk_GateWorld armed_stop (mk_ToyRadio true 7074000) None [initial stop_radio default_config (mk_Radio 200 BreakOff)] in
  rtc gate_step (mk_GateWorld (initial stop_radio default_config (mk_Radio 200 BreakOff)) (mk_ToyRadio false 7074000) None []) g
  /\ g.(gw_rig).(keyed) = true /\ phase_of g.(gw_cw).(w_sup) = PArmed /\ ~ given_back g.(gw_cw).(w_home) g.(gw_cw).(w_radio).
Proof.
  split_and!; [|reflexivity|reflexivity|by intros [[H|H] _]; [discriminate H|inversion H]].
  eapply rtc_l; [exact (gs_look _ _ [] (txt "T 1") ltac:(vm_compute; reflexivity))|].
  etrans; [apply cw_runs, armed_stop_rtc|]. apply rtc_once.
  exact (gs_transmit armed_stop (mk_ToyRadio false 7074000) (initial stop_radio default_config (mk_Radio 200 BreakOff)) []).
Qed.
