(* ===== verification/Host.v ===== *)
(** * Host: the native bridge, which drives the CW supervisor and the radio
    (cat-rigctl/src/native_bridge.rs)

    What listener threads share with the pump ([NativeShared]), the operations
    of the listeners on it, and the pump's cycle.  The radio crate's trait is
    the class [NativeRadio]; of it [NativeRadioLaws] assumes only that readings
    are true and that an exchange changes no setting but the one it writes.
    Listeners and pump interleave at the locks: the step relation [host_step]
    has one step per critical section, and one for what is turned at the radio,
    at any time. *)

From stdpp Require Import relations.
From S2P Require Import Prelude Text Framework Client Tcp Layout Installation Capabilities NativeTypes NativeMessages CwSupervisor Register CwSafety CwTheorems Rigctl Shared.

(** ** The radio *)

Record CwStatus : Type := mk_CwStatus { cs_cw_mode : bool; cs_transmitting : bool; cs_wpm : option Z }.
Record CwSettings : Type := mk_CwSettings {
  set_pitch_hz : option Z; set_wpm : option Z; set_break_in_kind : option BreakInKind }.
Definition cw_settings_default : CwSettings := mk_CwSettings None None None.

(** [NativeRadio] and the [NativeCw] it may offer; the clock is read between
    its operations. *)
Class NativeRadio (N : Type) : Type := {
  nr_now : N -> Z;
  nr_state : N -> N * option RadioState;
  nr_apply : N -> Command -> N * result () message;
  nr_levels : N -> N * option RadioLevels;
  has_cw : N -> bool;
  cw_status : N -> N * result CwStatus message;
  cw_settings : N -> N * option CwSettings;
  set_keyer_wpm : N -> Z -> N * result () message;
  power_raw : N -> N * result Z message;
  set_power_raw : N -> Z -> N * result () message;
  break_in : N -> N * result BreakInKind message;
  set_break_in : N -> BreakInKind -> N * result () message;
  cw_ready : N -> N * result bool message;
  send_chunk : N -> text -> N * result () message;
  cw_stop : N -> N * result () message }.

(** [result.unwrap_or_else(O::Failed)]. *)
Definition outcome_of {A} (f : A -> CwOutcome) (r : result A message) : CwOutcome :=
  match r with Ok v => f v | Err e => Failed e end.
Definition via {N A} (f : A -> CwOutcome) (x : N * result A message) : N * CwOutcome := (x.1, outcome_of f x.2).

(** [execute]: one supervisor action against the radio. *)
Definition cw_execute {N} `{!NativeRadio N} (n : N) (a : CwAction) : N * CwOutcome :=
  match a with
  | ReadStatus => via (fun s => OutStatus s.(cs_cw_mode) s.(cs_transmitting) s.(cs_wpm)) (cw_status n)
  | ReadPower => via OutPower (power_raw n)
  | ActSetPower raw => via (fun _ => Done) (set_power_raw n raw)
  | ReadBreakIn => via OutBreakIn (break_in n)
  | ActSetBreakIn k => via (fun _ => Done) (set_break_in n k)
  | ActReady => via OutReady (cw_ready n)
  | SendChunk t => via (fun _ => Done) (send_chunk n t)
  | ActStop => via (fun _ => Done) (cw_stop n)
  end.

(** ** The shared state *)

(** A console blocked until the supervisor answers.  It waits, or its wait is
    over and it has been told so, or its receiver is gone too. *)
Inductive Waiting : Type := Listening | TimedOut | ReceiverGone.
Record CwWaiter : Type := mk_CwWaiter { wt_owner : ConsoleId; wt_is_arm : bool; wt_waiting : Waiting }.

Record NativeShared : Type := mk_NativeShared {
  sh_capabilities : RadioCapabilities;
  consoles : nat;
  sh_cache : Locked Cache;
  queue : Locked (list Pending);
  sh_cw : CwSlot;
  cw_serving : bool;
  cw_kick : bool;
  cw_abort_requested : bool;
  sh_cw_settings : option CwSettings;
  cw_waiters : gmap Z CwWaiter }.

Definition shared_build (c : RadioCapabilities) : NativeShared :=
  mk_NativeShared c 0 (Some cache_default) (Some []) Absent false false false None ∅.

Definition set_slot (sh : NativeShared) (s : CwSlot) : NativeShared :=
  mk_NativeShared sh.(sh_capabilities) sh.(consoles) sh.(sh_cache) sh.(queue) s sh.(cw_serving) sh.(cw_kick)
    sh.(cw_abort_requested) sh.(sh_cw_settings) sh.(cw_waiters).
Definition set_waiters (sh : NativeShared) (w : gmap Z CwWaiter) : NativeShared :=
  mk_NativeShared sh.(sh_capabilities) sh.(consoles) sh.(sh_cache) sh.(queue) sh.(sh_cw) sh.(cw_serving) sh.(cw_kick)
    sh.(cw_abort_requested) sh.(sh_cw_settings) w.
Definition set_flags (sh : NativeShared) (serving kick abort_requested : bool) : NativeShared :=
  mk_NativeShared sh.(sh_capabilities) sh.(consoles) sh.(sh_cache) sh.(queue) sh.(sh_cw) serving kick
    abort_requested sh.(sh_cw_settings) sh.(cw_waiters).
Definition set_settings (sh : NativeShared) (x : option CwSettings) : NativeShared :=
  mk_NativeShared sh.(sh_capabilities) sh.(consoles) sh.(sh_cache) sh.(queue) sh.(sh_cw) sh.(cw_serving) sh.(cw_kick)
    sh.(cw_abort_requested) x sh.(cw_waiters).
Definition set_traffic (sh : NativeShared) (n : nat) (c : Locked Cache) (q : Locked (list Pending)) : NativeShared :=
  mk_NativeShared sh.(sh_capabilities) n c q sh.(sh_cw) sh.(cw_serving) sh.(cw_kick)
    sh.(cw_abort_requested) sh.(sh_cw_settings) sh.(cw_waiters).

Definition kick_pump (sh : NativeShared) : NativeShared := set_flags sh sh.(cw_serving) true sh.(cw_abort_requested).
Definition take_kick (sh : NativeShared) : NativeShared * bool :=
  (set_flags sh sh.(cw_serving) false sh.(cw_abort_requested), sh.(cw_kick)).

Definition enable_cw (sh : NativeShared) (c : CwCapability) : NativeShared :=
  match sh.(sh_cw) with
  | Poisoned => sh
  | _ => set_flags (set_slot sh (Present (cw_new c default_config))) true sh.(cw_kick) sh.(cw_abort_requested)
  end.

(** [cw_query]: fails closed on a poisoned lock. *)
Definition cw_query {T} (sh : NativeShared) (poisoned absent : T) (f : CwSupervisor -> T) : T :=
  match sh.(sh_cw) with Poisoned => poisoned | Absent => absent | Present s => f s end.
Definition cw_settled (sh : NativeShared) : bool := cw_query sh false true is_settled.
Definition cw_live (sh : NativeShared) : bool := cw_query sh true false is_live.
Definition external_ptt_blocked (sh : NativeShared) : bool := cw_query sh true false blocks_external_ptt.

(** [with_cw], for a call that changes the supervisor. *)
Definition with_cw (sh : NativeShared) (f : CwSupervisor -> CwSupervisor) : NativeShared :=
  match sh.(sh_cw) with Present s => set_slot sh (Present (f s)) | _ => sh end.

Definition shutdown_cw (sh : NativeShared) (now : Z) : NativeShared := kick_pump (with_cw sh (fun s => shutdown s now)).

Definition cw_state_for (sh : NativeShared) (viewer : ConsoleId) : option CwState :=
  match sh.(sh_cw) with
  | Present s =>
      let x := default cw_settings_default sh.(sh_cw_settings) in
      Some (mk_CwState x.(set_pitch_hz) x.(set_wpm) x.(set_break_in_kind) (armed_state s viewer) (sender s)
              (restore_status s) s.(id_owed))
  | _ => None
  end.

(** ** What a console asks *)

Definition no_cw : HostRefusal :=
  mk_HostRefusal Unsupported [PStr "this server does not offer CW control"].
Definition poisoned : HostRefusal :=
  mk_HostRefusal OutOfRange [PStr "the server's CW state is poisoned"].
Definition not_now : message := [PStr "not while CW is armed or sending"].

(** What becomes of a command: an answer, a wait on a ticket, or the queue. *)
Inductive Handling : Type :=
| Answers (r : result () HostRefusal) | Waits (ticket : Z) | Queues (c : Command).

Definition cw_wait (sh : NativeShared) (owner : ConsoleId) (is_arm : bool)
    (request : CwSupervisor -> result Z HostRefusal * CwSupervisor) : NativeShared * Handling :=
  match sh.(sh_cw) with
  | Poisoned => (sh, Answers (Err poisoned))
  | Absent => (sh, Answers (Err no_cw))
  | Present s =>
      let '(r, s) := request s in
      let sh := set_slot sh (Present s) in
      match r with
      | Err e => (sh, Answers (Err e))
      | Ok ticket =>
          (kick_pump (set_waiters sh (<[ticket := mk_CwWaiter owner is_arm Listening]> sh.(cw_waiters))),
           Waits ticket)
      end
  end.

(** What a console is told when its wait is over. *)
Definition wait_over (is_arm : bool) : HostRefusal :=
  mk_HostRefusal OutOfRange
    [PStr (if is_arm then "the radio did not finish arming in time; the arm will be released"
           else "the restore has not finished; the server keeps trying")].

(** [apply_cw]; behind a poisoned lock the supervisor an abort still reaches is
    one nobody will ask for an action again. *)
Definition apply_cw (sh : NativeShared) (id : ConsoleId) (command : Command) (now : Z) : NativeShared * Handling :=
  match command with
  | AbortCw =>
      (kick_pump (with_cw (set_flags sh sh.(cw_serving) sh.(cw_kick) true) (fun s => abort s now)), Answers (Ok tt))
  | ArmCwTransmit callsign _ cap => cw_wait sh id true (fun s => arm s id callsign cap now)
  | DisarmCw => cw_wait sh id false (fun s => disarm s id now)
  | SendCwText t =>
      match sh.(sh_cw) with
      | Present s =>
          let '(r, s) := send s id t now in
          (kick_pump (set_slot sh (Present s)), Answers (result_map (fun _ => tt) r))
      | _ => (kick_pump sh, Answers (Err no_cw))
      end
  | SetKeyerSpeed _ =>
      if negb sh.(cw_serving) then (sh, Answers (Err no_cw))
      else if external_ptt_blocked sh then (sh, Answers (Err (mk_HostRefusal Forbidden not_now)))
      else (sh, Queues command)
  | _ => (sh, Queues command)
  end.

Definition console_attached (sh : NativeShared) : NativeShared :=
  set_traffic sh (S sh.(consoles)) sh.(sh_cache) sh.(queue).
Definition console_detached_as (sh : NativeShared) (id : ConsoleId) (now : Z) : NativeShared :=
  let sh := kick_pump (with_cw sh (fun s => detached s id now)) in
  set_traffic sh (pred sh.(consoles)) sh.(sh_cache) sh.(queue).

(** ** Notices *)

(** One notice: the shared state, and the owner of an arm nobody waits for. *)
Definition route_notice (sh : NativeShared) (x : CwNotice) : NativeShared * option ConsoleId :=
  match x with
  | CwSupervisor.Reply ticket r =>
      match sh.(cw_waiters) !! ticket with
      | Some w =>
          (set_waiters sh (delete ticket sh.(cw_waiters)),
           match w.(wt_waiting) with
           | ReceiverGone => if w.(wt_is_arm) && is_ok r then Some w.(wt_owner) else None
           | _ => None
           end)
      | None => (sh, None)
      end
  | _ => (sh, None)
  end.
Fixpoint route_all (sh : NativeShared) (l : list CwNotice) : NativeShared * list ConsoleId :=
  match l with
  | [] => (sh, [])
  | x :: l =>
      let '(sh, o) := route_notice sh x in
      let '(sh, abandoned) := route_all sh l in
      (sh, match o with Some owner => owner :: abandoned | None => abandoned end)
  end.
Definition release_abandoned (sh : NativeShared) (now : Z) (owner : ConsoleId) : NativeShared :=
  with_cw sh (fun s => (disarm s owner now).2).
Definition route_cw_notices (sh : NativeShared) (l : list CwNotice) (now : Z) : NativeShared :=
  let '(sh, abandoned) := route_all sh l in
  fold_left (fun sh owner => release_abandoned sh now owner) abandoned sh.
Definition take_cw_notices (sh : NativeShared) (now : Z) : NativeShared :=
  match sh.(sh_cw) with
  | Present s => let '(l, s) := take_notices s in route_cw_notices (set_slot sh (Present s)) l now
  | _ => sh
  end.

(** ** The pump *)

Definition MAX_CW_STEPS : nat := 32.
Definition CW_TICK : Z := from_millis 50.
Definition LEVELS_INTERVAL : Z := from_secs 5.
Definition IDLE_MULTIPLIER : Z := 10.

Record PumpState : Type := mk_PumpState {
  pump_levels : option RadioLevels; last_levels : option Z; last_cw_settings : option Z;
  cw_checked : bool; poison_stopped : bool }.
Definition pump_default : PumpState := mk_PumpState None None None false false.

Section Pump.
  Context {N : Type} `{!NativeRadio N}.

(** [drive_cw]: the supervisor's due actions, at most [steps] of them. *)
Definition run_action (n : N) (a : CwAction) : N * CwOutcome :=
  if has_cw n then cw_execute n a else (n, Failed [PStr "this radio has no CW control"]).
Fixpoint drive_cw (steps : nat) (sh : NativeShared) (n : N) : NativeShared * N :=
  match steps with
  | O => (sh, n)
  | S steps =>
      let '(sh, a) := match sh.(sh_cw) with
                      | Present s => let '(s, a) := next_action s (nr_now n) in (set_slot sh (Present s), a)
                      | _ => (sh, None)
                      end in
      let sh := take_cw_notices sh (nr_now n) in
      match a with
      | None => (sh, n)
      | Some a =>
          let '(n, o) := run_action n a in
          let sh := with_cw sh (fun s => complete s o (nr_now n)) in
          drive_cw steps (take_cw_notices sh (nr_now n)) n
      end
  end.

Definition stop_after_poison (sh : NativeShared) (n : N) (p : PumpState) : NativeShared * N * PumpState :=
  let abort_requested := sh.(cw_abort_requested) in
  let sh := set_flags sh sh.(cw_serving) sh.(cw_kick) false in
  if p.(poison_stopped) && negb abort_requested then (sh, n, p)
  else
    let p := mk_PumpState p.(pump_levels) p.(last_levels) p.(last_cw_settings) p.(cw_checked) true in
    (sh, if has_cw n then (cw_stop n).1 else n, p).

(** The opt-in, once. *)
Definition check_cw (is_lowercase : char -> bool) (sh : NativeShared) (n : N) (p : PumpState)
  : NativeShared * PumpState :=
  if p.(cw_checked) then (sh, p)
  else
    (match sh.(sh_capabilities).(cw), has_cw n with
     | Some capability, true =>
         match validate is_lowercase capability with Ok _ => enable_cw sh capability | Err _ => sh end
     | _, _ => sh
     end,
     mk_PumpState p.(pump_levels) p.(last_levels) p.(last_cw_settings) true p.(poison_stopped)).

(** A queued command against the radio. *)
Definition run_command (sh : NativeShared) (n : N) (c : Command) : NativeShared * N * result () message :=
  match c with
  | SetKeyerSpeed wpm =>
      if external_ptt_blocked sh then (sh, n, Err not_now)
      else if has_cw n then
        let '(n, r) := set_keyer_wpm n wpm in
        (match r with
         | Ok _ => let x := default cw_settings_default sh.(sh_cw_settings) in
                   set_settings sh (Some (mk_CwSettings x.(set_pitch_hz) (Some wpm) x.(set_break_in_kind)))
         | Err _ => sh
         end, n, r)
      else (sh, n, Err [PStr "this radio has no CW control"])
  | _ => let '(n, r) := nr_apply n c in (sh, n, r)
  end.
Fixpoint run_queued (sh : NativeShared) (n : N) (l : list Pending) : NativeShared * N * list Shared.Reply :=
  match l with
  | [] => (sh, n, [])
  | (c, tx) :: l =>
      let '(sh, n, r) := run_command sh n c in
      let '(sh, n) := drive_cw MAX_CW_STEPS sh n in
      let '(sh, n, rest) := run_queued sh n l in
      (sh, n, (tx, r) :: rest)
  end.

Definition due (last : option Z) (now : Z) : bool :=
  match last with None => true | Some t => LEVELS_INTERVAL <=? elapsed now t end.

(** The state poll. *)
Definition poll (sh : NativeShared) (n : N) (p : PumpState) : NativeShared * N * PumpState :=
  let gen := shared_generation sh.(sh_cache) in
  let taken_at := nr_now n in
  let '(n, st) := nr_state n in
  let '(n, p) :=
    if due p.(last_levels) (nr_now n) then
      let '(n, l) := nr_levels n in
      (n, match l with
          | Some l => mk_PumpState (Some l) (Some (nr_now n)) p.(last_cw_settings) p.(cw_checked) p.(poison_stopped)
          | None => p
          end)
    else (n, p) in
  let '(sh, n, p) :=
    if sh.(cw_serving) && due p.(last_cw_settings) (nr_now n) then
      let p := mk_PumpState p.(pump_levels) p.(last_levels) (Some (nr_now n)) p.(cw_checked) p.(poison_stopped) in
      if has_cw n then
        let '(n, x) := cw_settings n in
        (match x with Some x => set_settings sh (Some x) | None => sh end, n, p)
      else (sh, n, p)
    else (sh, n, p) in
  let st := (fun s => mk_RadioState s.(vfo_a_hz) s.(vfo_b_hz) s.(st_mode) s.(st_split) s.(transmitting)
                        s.(memory_channel) s.(st_if_shift_hz) s.(filter_width_hz) s.(meters_read) p.(pump_levels) s.(st_cw)) <$> st in
  (set_traffic sh sh.(consoles) (publish_state sh.(sh_cache) st taken_at gen) sh.(queue), n, p).

(** [pump_once]: the shared state, the radio, what the pump carries, the
    replies it sends at the end, and how long it then waits. *)
Definition pump_once (is_lowercase : char -> bool) (sh : NativeShared) (n : N) (p : PumpState) (interval : Z)
  : NativeShared * N * PumpState * list Shared.Reply * Z :=
  let idle := interval * IDLE_MULTIPLIER in
  let '(sh, p) := check_cw is_lowercase sh n p in
  let '(sh, n, p) := match sh.(sh_cw) with
                     | Poisoned => stop_after_poison sh n p
                     | _ => (set_flags sh sh.(cw_serving) sh.(cw_kick) false, n, p)
                     end in
  let '(sh, n) := drive_cw MAX_CW_STEPS sh n in
  let '(q, queued) := take_queued sh.(queue) in
  let sh := set_traffic sh sh.(consoles) sh.(sh_cache) q in
  let '(sh, n, results) := run_queued sh n queued in
  let '(sh, n, p) := if cw_live sh then (sh, n, p) else poll sh n p in
  (sh, n, p, results,
   if cw_live sh then CW_TICK else poll_interval sh.(consoles) sh.(sh_cache) interval idle).
End Pump.

(** ** Listeners and pump together *)

(** What the CW exchanges do to the two settings the supervisor looks after: a
    reading is the value there is; a write may leave its setting at any value,
    whatever it returns, but not the other one; the rest touches neither.
    Nothing is asked of the other operations. *)
Class NativeRadioLaws (N : Type) `{!NativeRadio N} : Type := {
  regs : N -> Radio;
  status_law : forall n, regs (cw_status n).1 = regs n;
  ready_law : forall n, regs (cw_ready n).1 = regs n;
  chunk_law : forall n t, regs (send_chunk n t).1 = regs n;
  stop_law : forall n, regs (cw_stop n).1 = regs n;
  power_law : forall n, regs (power_raw n).1 = regs n
    /\ forall p, (power_raw n).2 = Ok p -> p = (regs n).(r_power);
  break_in_law : forall n, regs (break_in n).1 = regs n
    /\ forall k, (break_in n).2 = Ok k -> k = (regs n).(r_break_in);
  set_power_law : forall n p, (regs (set_power_raw n p).1).(r_break_in) = (regs n).(r_break_in);
  set_break_in_law : forall n k, (regs (set_break_in n k).1).(r_power) = (regs n).(r_power) }.

(** Where the pump is with the supervisor: at rest, holding an action to run,
    or holding its outcome, the radio having done whatever it did. *)
Inductive Doing : Type := Resting | Holds (a : CwAction) | Landed (a : CwAction) (o : CwOutcome).

(** Whose values the settings have, and whether the power was turned since the
    last message was accepted. *)
Record Ledger : Type := mk_Ledger { l_home : Home; l_since : bool }.

Record HostWorld (N : Type) : Type := mk_HostWorld {
  hw_shared : NativeShared; hw_radio : N; hw_doing : Doing; hw_ledger : Ledger }.
Arguments mk_HostWorld {N}.
Arguments hw_shared {N}.
Arguments hw_radio {N}.
Arguments hw_doing {N}.
Arguments hw_ledger {N}.

(** The ledger after a request to the supervisor while the radio is at [r]. *)
Definition ledger_after (r : Radio) (s : CwSupervisor) (q : Request) (now : Z) (l : Ledger) : Ledger :=
  mk_Ledger (if fresh_arm s q now then home_of_radio r else l.(l_home))
    (if accepts_send s q now then false else l.(l_since)).
(** ... after a console's command. *)
Definition command_ledger (r : Radio) (slot : CwSlot) (id : ConsoleId) (c : Command) (now : Z) (l : Ledger) : Ledger :=
  match slot, c with
  | Present s, ArmCwTransmit callsign _ cap => ledger_after r s (RqArm id callsign cap) now l
  | Present s, SendCwText t => ledger_after r s (RqSend id t) now l
  | _, _ => l
  end.
(** ... after somebody else has taken the settings from [r] to [r']. *)
Definition moved (r r' : Radio) (l : Ledger) : Ledger :=
  let same_power := bool_decide (r.(r_power) = r'.(r_power)) in
  mk_Ledger
    (mk_Home (if same_power then l.(l_home).(h_power) else turn r'.(r_power) l.(l_home).(h_power))
       (if bool_decide (r.(r_break_in) = r'.(r_break_in)) then l.(l_home).(h_break_in)
        else turn r'.(r_break_in) l.(l_home).(h_break_in)))
    (if same_power then l.(l_since) else true).

Section Together.
  Context {N : Type} `{!NativeRadio N} `{!NativeRadioLaws N}.

(** The wait of a console ends: first it is told, then its receiver goes. *)
Definition stop_waiting (sh : NativeShared) (ticket : Z) (x : Waiting) : NativeShared :=
  match sh.(cw_waiters) !! ticket with
  | Some w => set_waiters sh (<[ticket := mk_CwWaiter w.(wt_owner) w.(wt_is_arm) x]> sh.(cw_waiters))
  | None => sh
  end.

Inductive host_step : HostWorld N -> HostWorld N -> Prop :=
| h_command sh n d home id c now :
    host_step (mk_HostWorld sh n d home)
              (mk_HostWorld (apply_cw sh id c now).1 n d (command_ledger (regs n) sh.(sh_cw) id c now home))
| h_detach sh n d home id now :
    host_step (mk_HostWorld sh n d home) (mk_HostWorld (console_detached_as sh id now) n d home)
| h_shutdown sh n d home now :
    host_step (mk_HostWorld sh n d home) (mk_HostWorld (shutdown_cw sh now) n d home)
| h_stop_waiting sh n d home ticket x :
    host_step (mk_HostWorld sh n d home) (mk_HostWorld (stop_waiting sh ticket x) n d home)
| h_poison sh n d home :
    host_step (mk_HostWorld sh n d home) (mk_HostWorld (set_slot sh Poisoned) n d home)
| h_traffic sh n d home sh' : sh'.(sh_cw) = sh.(sh_cw) ->
    host_step (mk_HostWorld sh n d home) (mk_HostWorld sh' n d home)
| h_next sh n home s now s' a : sh.(sh_cw) = Present s -> next_action s now = (s', a) ->
    host_step (mk_HostWorld sh n Resting home)
              (mk_HostWorld (set_slot sh (Present s')) n (match a with Some a => Holds a | None => Resting end) home)
| h_notices sh n d home now :
    host_step (mk_HostWorld sh n d home) (mk_HostWorld (take_cw_notices sh now) n d home)
| h_execute sh n a home n' o : run_action n a = (n', o) ->
    host_step (mk_HostWorld sh n (Holds a) home) (mk_HostWorld sh n' (Landed a o) home)
| h_complete sh n a o home now :
    host_step (mk_HostWorld sh n (Landed a o) home)
              (mk_HostWorld (with_cw sh (fun s => complete s o now)) n Resting home)
| h_radio sh n d home n' :
    host_step (mk_HostWorld sh n d home) (mk_HostWorld sh n' d (moved (regs n) (regs n') home)).
End Together.

(** ** The host is a run of the supervisor's loop *)

Section Refinement.
  Context {N : Type} `{!NativeRadio N} `{!NativeRadioLaws N}.
  Implicit Types (sh : NativeShared) (n : N) (s : CwSupervisor).

(** An action run against the radio is an exchange of the closed loop. *)
Lemma run_action_answers n a n' o : run_action n a = (n', o) -> radio_answers a (regs n) o (regs n').
Proof.
  unfold run_action. destruct (has_cw n).
  2:{ intros [= <- <-]. destruct a; cbn; done. }
  destruct a; cbn [cw_execute]; unfold via; intros [= <- <-]; cbn [radio_answers].
  - apply status_law.
  - destruct (power_law n) as [E H]. split; [done|]. intros p Ho. unfold outcome_of in Ho.
    destruct ((power_raw n).2); [|done]. injection Ho as <-. by apply H.
  - apply set_power_law.
  - destruct (break_in_law n) as [E H]. split; [done|]. intros k Ho. unfold outcome_of in Ho.
    destruct ((break_in n).2); [|done]. injection Ho as <-. by apply H.
  - apply set_break_in_law.
  - apply ready_law.
  - apply chunk_law.
  - apply stop_law.
Qed.

(** One slot, with the ledger, becomes another by requests alone. *)
Definition asks (r : Radio) : relation (CwSupervisor * Ledger) :=
  rtc (fun a b => exists q now, b = (handle_request a.1 q now, ledger_after r a.1 q now a.2)).
Definition slot_asks (r : Radio) (a : CwSlot) (l : Ledger) (b : CwSlot) (l' : Ledger) : Prop :=
  match a, b with
  | Present s, Present s' => asks r (s, l) (s', l')
  | Poisoned, Poisoned | Absent, Absent => True
  | _, _ => False
  end.
Lemma slot_asks_refl r a l : slot_asks r a l a l.
Proof. destruct a; cbn; [done|done|apply rtc_refl]. Qed.
Lemma slot_asks_trans r a b c la lb lc : slot_asks r a la b lb -> slot_asks r b lb c lc -> slot_asks r a la c lc.
Proof. destruct a, b, c; cbn; try done. intros H1 H2. by etrans. Qed.
Lemma asks_once r s q now l : asks r (s, l) (handle_request s q now, ledger_after r s q now l).
Proof. apply rtc_once. by eexists _, _. Qed.
(** A request that is neither an arm nor a message leaves the ledger alone. *)
Definition quiet_request (q : Request) : bool := match q with RqArm _ _ _ | RqSend _ _ => false | _ => true end.
Lemma ledger_quiet r s q now l : quiet_request q = true -> ledger_after r s q now l = l.
Proof. destruct q, l; done. Qed.
Lemma with_cw_asks r sh q now l : quiet_request q = true ->
  slot_asks r sh.(sh_cw) l (with_cw sh (fun s => handle_request s q now)).(sh_cw) l.
Proof.
  intros Hq. unfold with_cw. destruct (sh_cw sh) eqn:E; cbn; rewrite ?E; try done.
  pose proof (asks_once r s q now l) as H. by rewrite (ledger_quiet _ _ _ _ _ Hq) in H.
Qed.

Lemma cw_wait_asks r sh id is_arm request q now l :
  (forall s, (request s).2 = handle_request s q now) ->
  slot_asks r sh.(sh_cw) l (cw_wait sh id is_arm request).1.(sh_cw)
    (match sh.(sh_cw) with Present s => ledger_after r s q now l | _ => l end).
Proof.
  intros Hq. unfold cw_wait. destruct (sh_cw sh) as [| |s] eqn:E; cbn; rewrite ?E; try done.
  specialize (Hq s). destruct (request s) as [[t|e] s']; cbn in *; subst s'; apply asks_once.
Qed.

Lemma apply_cw_asks r sh id c now l :
  slot_asks r sh.(sh_cw) l (apply_cw sh id c now).1.(sh_cw) (command_ledger r sh.(sh_cw) id c now l).
Proof.
  assert (Hc : (forall a b k, c <> ArmCwTransmit a b k) -> (forall t, c <> SendCwText t) ->
    command_ledger r (sh_cw sh) id c now l = l).
  { intros H1 H2. unfold command_ledger. destruct (sh_cw sh); [done..|].
    destruct c; try done; [by destruct (H1 callsign dummy_load_acknowledged key_down_cap_s)|by destruct (H2 t)]. }
  destruct c; cbn [apply_cw]; try (rewrite Hc by done; apply slot_asks_refl).
  - rewrite Hc by done. repeat case_match; apply slot_asks_refl.
  - pose proof (cw_wait_asks r sh id true (fun s => arm s id callsign key_down_cap_s now)
      (RqArm id callsign key_down_cap_s) now l ltac:(done)) as H.
    unfold command_ledger. destruct (sh_cw sh); exact H.
  - unfold command_ledger. destruct (sh_cw sh) as [| |s] eqn:E; cbn; rewrite ?E; try done.
    pose proof (asks_once r s (RqSend id t) now l) as H. cbn [handle_request] in H.
    by destruct (send s id t now) as [x s'].
  - rewrite Hc by done. by apply (with_cw_asks r (set_flags sh sh.(cw_serving) sh.(cw_kick) true) RqAbort now).
  - rewrite Hc by done.
    pose proof (cw_wait_asks r sh id false (fun s => disarm s id now) (RqDisarm id) now l ltac:(done)) as H.
    destruct (sh_cw sh); rewrite ?ledger_quiet in H by done; exact H.
Qed.

Lemma route_notice_slot sh x : (route_notice sh x).1.(sh_cw) = sh.(sh_cw).
Proof. destruct x; try done. cbn. by destruct (_ !! _). Qed.
Lemma route_all_slot l : forall sh, (route_all sh l).1.(sh_cw) = sh.(sh_cw).
Proof.
  induction l as [|x l IH]; intros sh; [done|]. cbn. pose proof (route_notice_slot sh x) as E.
  destruct (route_notice sh x) as [sh1 o]. specialize (IH sh1). destruct (route_all sh1 l). cbn in *. congruence.
Qed.
Lemma take_cw_notices_asks r sh now l : slot_asks r sh.(sh_cw) l (take_cw_notices sh now).(sh_cw) l.
Proof.
  unfold take_cw_notices, route_cw_notices. destruct (sh_cw sh) as [| |s] eqn:E; cbn; rewrite ?E; try done.
  pose proof (route_all_slot s.(notices) (set_slot sh (Present (set_notices s [])))) as Er.
  destruct (route_all _ _) as [sh1 os]. cbn in Er.
  assert (H1 : slot_asks r (Present s) l (sh_cw sh1) l).
  { rewrite Er. pose proof (asks_once r s RqTakeNotices now l) as H. by rewrite ledger_quiet in H. }
  clear E Er. revert sh1 H1. induction os as [|o os IH]; intros sh1 H1; [done|]. cbn. apply IH.
  eapply slot_asks_trans; [exact H1|]. by apply (with_cw_asks r sh1 (RqDisarm o) now).
Qed.

(** With an exchange in flight requests leave it, and the ledger, alone. *)
Lemma asks_out r a b :
  asks r a b -> (exists home, winv home a.1 r) -> a.1.(outstanding) <> None ->
  b.1.(outstanding) = a.1.(outstanding) /\ b.2 = a.2.
Proof.
  intros H. induction H as [|a b c (q & now & ->) _ IH]; [done|]. intros [home Hw] Ho. cbn in IH.
  rewrite handle_request_out in IH. destruct IH as [-> ->]; [exists home; by apply handle_request_winv|done|].
  split; [done|]. unfold ledger_after, fresh_arm. destruct (accepts_send a.1 q now) eqn:Es.
  - destruct Ho. by eapply accepts_send_quiet; [apply Hw|].
  - destruct a as [s [h b]]. cbn in *. destruct q, (outstanding s); try done; by rewrite ?andb_false_r.
Qed.

Definition heard_of (d : Doing) : option CwOutcome := match d with Landed _ o => Some o | _ => None end.
(** A host world and the closed loop of the supervisor it goes through. *)
Definition loop_world (s : CwSupervisor) (r : Radio) (d : Doing) (l : Ledger) : CwTheorems.World :=
  CwTheorems.mk_World s r l.(l_home) (heard_of d) l.(l_since).
Definition outstanding_is s (a : CwAction) : Prop := exists st, s.(outstanding) = Some st /\ action st = Some a.
Definition doing_ok (cap : CwCapability) s (d : Doing) (r : Radio) (l : Ledger) : Prop :=
  match d with
  | Resting => True
  | Holds a => outstanding_is s a /\ (forall t, a = SendChunk t -> at_clamp cap l.(l_home) l.(l_since) r)
  | Landed a _ => outstanding_is s a
  end.
Definition sim (cap : CwCapability) (w : HostWorld N) : Prop :=
  match w.(hw_shared).(sh_cw) with
  | Present s => reachable cap default_config (loop_world s (regs w.(hw_radio)) w.(hw_doing) w.(hw_ledger))
                 /\ doing_ok cap s w.(hw_doing) (regs w.(hw_radio)) w.(hw_ledger)
  | Poisoned => True
  | Absent => False
  end.

Lemma asks_reachable cap cfg r d a b :
  asks r a b -> reachable cap cfg (loop_world a.1 r d a.2) -> reachable cap cfg (loop_world b.1 r d b.2).
Proof.
  intros Ha. induction Ha as [|a b c (q & now & ->) _ IH]; [done|]. intros [r0 Hr]. apply IH.
  exists r0. eapply rtc_r; [exact Hr|]. apply (w_request (loop_world a.1 r d a.2)).
Qed.

Lemma sim_asks cap sh sh' n d l l' :
  slot_asks (regs n) sh.(sh_cw) l sh'.(sh_cw) l' -> sim cap (mk_HostWorld sh n d l) -> sim cap (mk_HostWorld sh' n d l').
Proof.
  unfold sim. cbn. destruct (sh_cw sh) as [| |s], (sh_cw sh') as [| |s']; cbn; try done.
  intros Ha [Hr Hd]. split; [by apply (asks_reachable _ _ _ d _ _ Ha)|].
  assert (Hout : forall a, outstanding_is s a -> s'.(outstanding) = s.(outstanding) /\ l' = l).
  { intros a (st & Hst & _). apply (asks_out _ _ _ Ha); [|cbn; congruence]. eexists. exact (reachable_winv _ _ _ Hr). }
  destruct d as [|a|a o]; cbn in *; [done|destruct Hd as [Hd Hc]; pose proof Hd as Hd'|pose proof Hd as Hd'];
    apply Hout in Hd' as [E ->]; unfold outstanding_is in *; by rewrite E.
Qed.

Lemma next_outstanding cap w now s' a :
  reachable cap default_config w -> next_action w.(w_sup) now = (s', Some a) -> outstanding_is s' a.
Proof.
  intros Hr E. apply reachable_winv in Hr. destruct (next_action_cases _ _ _ _ _ _ Hr E) as (s1 & st & rest & _ & _ & Ha & Ho & _).
  by exists st.
Qed.

(** Somebody else moves the settings: at most two turns of the closed loop. *)
Lemma moved_reachable cap cfg s r r' d l :
  reachable cap cfg (loop_world s r d l) -> reachable cap cfg (loop_world s r' d (moved r r' l)).
Proof.
  intros [r0 Hr]. exists r0. etrans; [exact Hr|]. clear Hr. destruct r as [p k], r' as [p' k'], l as [[hp hb] since].
  unfold moved, loop_world. cbn. repeat case_bool_decide; subst.
  - apply rtc_refl.
  - apply rtc_once. apply (w_turn_break_in (CwTheorems.mk_World s (mk_Radio p' k) (mk_Home hp hb) (heard_of d) since)).
  - apply rtc_once. apply (w_turn_power (CwTheorems.mk_World s (mk_Radio p k') (mk_Home hp hb) (heard_of d) since)).
  - eapply rtc_l; [apply (w_turn_power _ p')|]. apply rtc_once.
    apply (w_turn_break_in (CwTheorems.mk_World s (mk_Radio p' k) (mk_Home (turn p' hp) hb) (heard_of d) true)).
Qed.
Lemma moved_at_clamp cap r r' l :
  at_clamp cap l.(l_home) l.(l_since) r -> at_clamp cap (moved r r' l).(l_home) (moved r r' l).(l_since) r'.
Proof.
  intros H g snd Hg Hs. destruct (H g snd Hg Hs) as (H1 & H2 & H3). unfold moved. cbn.
  case_bool_decide as Ep; case_bool_decide as Ek; rewrite <- ?Ep, <- ?Ek; split_and!; try done.
Qed.

Lemma host_step_sim cap w w' : sim cap w -> host_step w w' -> sim cap w'.
Proof.
  intros Hs Hstep. destruct Hstep as [sh n d l id c now|sh n d l id now|sh n d l now|sh n d l ticket x|sh n d l
    |sh n d l sh' E|sh n l s now s' a E En|sh n d l now|sh n a l n' o E|sh n a o l now|sh n d l n'].
  - eapply sim_asks; [apply apply_cw_asks|exact Hs].
  - eapply sim_asks; [|exact Hs]. by apply (with_cw_asks _ sh (RqDetached id) now).
  - eapply sim_asks; [|exact Hs]. by apply (with_cw_asks _ sh RqShutdown now).
  - eapply sim_asks; [|exact Hs]. unfold stop_waiting. destruct (_ !! _); apply slot_asks_refl.
  - done.
  - eapply sim_asks; [|exact Hs]. rewrite E. apply slot_asks_refl.
  - unfold sim in *. cbn in *. rewrite E in Hs. destruct Hs as [Hr _].
    assert (Hr' : reachable cap default_config (loop_world s' (regs n) Resting l)).
    { destruct Hr as [r0 Hr]. exists r0. eapply rtc_r; [exact Hr|].
      pose proof (w_next (loop_world s (regs n) Resting l) now) as H. cbn in H. by rewrite En in H. }
    split; [by destruct a|]. destruct a as [a|]; [|done]. cbn.
    split; [by eapply (next_outstanding cap (loop_world s (regs n) Resting l))|].
    intros t ->. exact (keyed_at_clamp _ _ _ now s' t Hr En).
  - eapply sim_asks; [apply take_cw_notices_asks|exact Hs].
  - unfold sim in *. cbn in *. destruct (sh_cw sh) as [| |s]; try done. destruct Hs as [[r0 Hr] [Ho _]].
    split; [|done]. exists r0. eapply rtc_r; [exact Hr|]. destruct Ho as (st & Hst & Ha).
    exact (w_execute (loop_world s (regs n) (Holds a) l) st a o (regs n') Hst Ha eq_refl (run_action_answers _ _ _ _ E)).
  - unfold sim, with_cw in *. cbn in *. destruct (sh_cw sh) as [| |s] eqn:Es; cbn; rewrite ?Es; try done.
    destruct Hs as [[r0 Hr] _]. split; [|done]. exists r0. eapply rtc_r; [exact Hr|].
    exact (w_hear (loop_world s (regs n) (Landed a o) l) o now eq_refl).
  - unfold sim in *. cbn in *. destruct (sh_cw sh) as [| |s]; try done. destruct Hs as [Hr Hd].
    split; [by apply moved_reachable|]. destruct d as [|a|a o]; cbn in *; [done| |done].
    destruct Hd as [Hd Hc]. split; [done|]. intros t Ht. by apply moved_at_clamp, (Hc t).
Qed.

(** A host whose radio has just been offered to consoles. *)
Definition host_start (caps : RadioCapabilities) (cap : CwCapability) (n : N) : HostWorld N :=
  mk_HostWorld (enable_cw (shared_build caps) cap) n Resting (mk_Ledger (home_of_radio (regs n)) false).

Lemma host_reachable_sim caps cap n w : rtc host_step (host_start caps cap n) w -> sim cap w.
Proof.
  intros Hr. assert (H0 : sim cap (host_start caps cap n)).
  { unfold sim. cbn. split; [|done]. exists (regs n). apply rtc_refl. }
  revert H0. induction Hr; eauto using host_step_sim.
Qed.

(** C16. The bridge keeps the supervisor's promises, however its listener threads
    interleave with the pump and whatever is turned at the radio meanwhile: once
    CW is settled the radio's power and break-in have been given back, each at
    what it was when the arm was accepted or at what somebody else turned it to
    since; while they have not, even between an exchange and the supervisor
    hearing of it, external PTT is refused; and a chunk of text is about to
    reach the radio only at the clamped power and the break-in it needs, unless
    somebody turned them since the arm (for a power at most the clamp: since the
    message was accepted), or the supervisor's lock is poisoned.  Of the radio
    it is assumed that a reading is the value there is and that an exchange
    changes no setting but the one it writes; a write may do anything to that. *)
Theorem bridge_keeps_cw_promises caps cap n0 w :
  rtc host_step (host_start caps cap n0) w ->
  (cw_settled w.(hw_shared) = true -> given_back w.(hw_ledger).(l_home) (regs w.(hw_radio)))
  /\ (~ given_back w.(hw_ledger).(l_home) (regs w.(hw_radio)) -> external_ptt_blocked w.(hw_shared) = true)
  /\ (forall t, w.(hw_doing) = Holds (SendChunk t) ->
      w.(hw_shared).(sh_cw) = Poisoned
      \/ at_clamp cap w.(hw_ledger).(l_home) w.(hw_ledger).(l_since) (regs w.(hw_radio))).
Proof.
  intros Hr. apply host_reachable_sim in Hr. unfold sim in Hr. destruct w as [sh n d l].
  unfold cw_settled, external_ptt_blocked, cw_query. cbn in *.
  destruct (sh_cw sh) as [| |s]; [split_and!; [done|done|by left]|done|]. destruct Hr as [Hr Hd]. split_and!.
  - intros Hset. exact (settled_home _ _ _ (reachable_winv _ _ _ Hr) Hset).
  - intros Hne. destruct (blocks_external_ptt s) eqn:Hb; [done|]. destruct Hne. exact (unblocked_home _ _ _ Hr Hb).
  - intros t ->. right. cbn in Hd. by apply Hd with t.
Qed.
End Refinement.

(** ** The pump's cycle is such a run *)

Section PumpRuns.
  Context {N : Type} `{!NativeRadio N} `{!NativeRadioLaws N}.
  Implicit Types (sh : NativeShared) (n : N).

Lemma traffic_step sh sh' n d home :
  sh'.(sh_cw) = sh.(sh_cw) -> rtc host_step (mk_HostWorld sh n d home) (mk_HostWorld sh' n d home).
Proof. intros E. by apply rtc_once, h_traffic. Qed.
Lemma radio_step sh n n' home :
  exists home', rtc host_step (mk_HostWorld sh n Resting home) (mk_HostWorld sh n' Resting home').
Proof. eexists. apply rtc_once, h_radio. Qed.

(** From one shared state and radio to another, whatever the ledger is. *)
Definition host_runs sh n sh' n' : Prop :=
  forall home, exists home', rtc host_step (mk_HostWorld sh n Resting home) (mk_HostWorld sh' n' Resting home').
Lemma host_runs_refl sh n : host_runs sh n sh n.
Proof. intros home. exists home. apply rtc_refl. Qed.
Lemma host_runs_trans sh n sh1 n1 sh2 n2 : host_runs sh n sh1 n1 -> host_runs sh1 n1 sh2 n2 -> host_runs sh n sh2 n2.
Proof. intros H1 H2 home. destruct (H1 home) as [h1 R1], (H2 h1) as [h2 R2]. exists h2. by etrans. Qed.
Lemma runs_traffic sh sh' n : sh'.(sh_cw) = sh.(sh_cw) -> host_runs sh n sh' n.
Proof. intros E home. exists home. by apply traffic_step. Qed.
Lemma runs_radio sh n n' : host_runs sh n sh n'.
Proof. intros home. apply radio_step. Qed.

Lemma drive_cw_steps home k : forall sh n,
  rtc host_step (mk_HostWorld sh n Resting home)
    (mk_HostWorld (drive_cw k sh n).1 (drive_cw k sh n).2 Resting home).
Proof.
  induction k as [|k IH]; intros sh n; [apply rtc_refl|]. cbn [drive_cw].
  destruct (sh_cw sh) as [| |s] eqn:Es; [apply rtc_once, h_notices|apply rtc_once, h_notices|].
  destruct (next_action s (nr_now n)) as [s' a] eqn:En.
  eapply rtc_l; [by apply (h_next sh n home s (nr_now n) s' a)|]. destruct a as [a|].
  2:{ apply rtc_once, h_notices. }
  eapply rtc_l; [apply (h_notices _ _ _ _ (nr_now n))|]. destruct (run_action n a) as [n' o] eqn:Er.
  eapply rtc_l; [apply h_execute; exact Er|]. eapply rtc_l; [apply (h_complete _ _ _ _ _ (nr_now n'))|].
  eapply rtc_l; [apply (h_notices _ _ _ _ (nr_now n'))|]. apply IH.
Qed.
Lemma drive_cw_runs k sh n : host_runs sh n (drive_cw k sh n).1 (drive_cw k sh n).2.
Proof. intros home. exists home. apply drive_cw_steps. Qed.

Lemma run_command_runs sh n c : host_runs sh n (run_command sh n c).1.1 (run_command sh n c).1.2.
Proof.
  destruct c; cbn [run_command];
    try (match goal with |- context [nr_apply n ?c] => destruct (nr_apply n c) end; by apply runs_radio).
  destruct (external_ptt_blocked sh); [apply host_runs_refl|]. destruct (has_cw n); [|apply host_runs_refl].
  destruct (set_keyer_wpm n wpm) as [n' r]. cbn.
  eapply host_runs_trans; [apply (runs_radio sh n n')|]. destruct r; by apply runs_traffic.
Qed.

Lemma run_queued_runs l : forall sh n, host_runs sh n (run_queued sh n l).1.1 (run_queued sh n l).1.2.
Proof.
  induction l as [|[c tx] l IH]; intros sh n; [apply host_runs_refl|]. cbn [run_queued].
  pose proof (run_command_runs sh n c) as H1. destruct (run_command sh n c) as [[sh1 n1] r]. cbn in H1.
  pose proof (drive_cw_runs MAX_CW_STEPS sh1 n1) as H2. destruct (drive_cw MAX_CW_STEPS sh1 n1) as [sh2 n2]. cbn in H2.
  specialize (IH sh2 n2). destruct (run_queued sh2 n2 l) as [[sh3 n3] rest]. cbn in *.
  eapply host_runs_trans; [exact H1|]. by eapply host_runs_trans.
Qed.

Lemma poll_runs sh n p : host_runs sh n (poll sh n p).1.1 (poll sh n p).1.2.
Proof.
  unfold poll. destruct (nr_state n) as [n1 st]. set (lv := if due _ _ then _ else _). destruct lv as [n2 p2].
  set (cs := if _ && _ then _ else _). assert (E : cs.1.1.(sh_cw) = sh.(sh_cw)).
  { unfold cs. destruct (_ && _); [|done]. destruct (has_cw n2); [|done]. by destruct (cw_settings n2) as [n3 [x|]]. }
  destruct cs as [[sh3 n3] p3]. cbn in E |- *.
  eapply host_runs_trans; [apply (runs_radio sh n n3)|]. by apply runs_traffic.
Qed.

Lemma stop_after_poison_runs sh n p :
  host_runs sh n (stop_after_poison sh n p).1.1 (stop_after_poison sh n p).1.2.
Proof.
  unfold stop_after_poison. destruct (_ && _); cbn; [by apply runs_traffic|].
  eapply host_runs_trans; [by apply (runs_traffic sh (set_flags sh sh.(cw_serving) sh.(cw_kick) false))|apply runs_radio].
Qed.

(** A pump cycle, once the radio has been offered, is a run of the steps above,
    so that what they keep, it keeps. *)
Lemma pump_once_runs lc sh n p interval :
  p.(cw_checked) = true ->
  let '(sh', n', _, _, _) := pump_once lc sh n p interval in host_runs sh n sh' n'.
Proof.
  intros Hp. unfold pump_once, check_cw. rewrite Hp.
  set (st := match sh_cw sh with Poisoned => _ | _ => _ end).
  assert (H0 : host_runs sh n st.1.1 st.1.2).
  { unfold st. destruct (sh_cw sh); [apply stop_after_poison_runs|by apply runs_traffic|by apply runs_traffic]. }
  destruct st as [[sh1 n1] p1]. cbn in H0.
  pose proof (drive_cw_runs MAX_CW_STEPS sh1 n1) as H1. destruct (drive_cw MAX_CW_STEPS sh1 n1) as [sh2 n2]. cbn in H1.
  destruct (take_queued (queue sh2)) as [q queued].
  pose proof (run_queued_runs queued (set_traffic sh2 sh2.(consoles) sh2.(sh_cache) q) n2) as H2.
  destruct (run_queued _ n2 queued) as [[sh3 n3] results]. cbn in H2.
  assert (H3 : host_runs sh n sh3 n3).
  { eapply host_runs_trans; [exact H0|]. eapply host_runs_trans; [exact H1|]. eapply host_runs_trans; [|exact H2].
    by apply runs_traffic. }
  destruct (cw_live sh3); [exact H3|]. pose proof (poll_runs sh3 n3 p1) as H4.
  destruct (poll sh3 n3 p1) as [[sh4 n4] p4]. cbn in H4. by eapply host_runs_trans.
Qed.

(** ** A poisoned supervisor *)

(** What the pump may still do with the radio: everything but the CW exchanges
    that write power, break-in or speed, or hand over text. *)
Record kept_without_cw (P : N -> Prop) : Prop := {
  kw_apply : forall n c, P n -> (forall wpm, c <> SetKeyerSpeed wpm) -> P (nr_apply n c).1;
  kw_state : forall n, P n -> P (nr_state n).1;
  kw_levels : forall n, P n -> P (nr_levels n).1;
  kw_settings : forall n, P n -> P (cw_settings n).1;
  kw_stop : forall n, P n -> P (cw_stop n).1 }.

Lemma drive_cw_poisoned k sh n : sh.(sh_cw) = Poisoned -> drive_cw k sh n = (sh, n).
Proof. intros E. destruct k; [done|]. cbn [drive_cw]. rewrite E. unfold take_cw_notices. by rewrite E. Qed.

Lemma run_command_poisoned P sh n c :
  kept_without_cw P -> sh.(sh_cw) = Poisoned -> P n ->
  (run_command sh n c).1.1 = sh /\ P (run_command sh n c).1.2.
Proof.
  intros HP E Hn. destruct c; cbn [run_command];
    try (match goal with |- context [nr_apply n ?c] => pose proof (kw_apply P HP n c Hn ltac:(done)); destruct (nr_apply n c) end; done).
  unfold external_ptt_blocked, cw_query. by rewrite E.
Qed.

Lemma run_queued_poisoned P l : forall sh n,
  kept_without_cw P -> sh.(sh_cw) = Poisoned -> P n ->
  (run_queued sh n l).1.1 = sh /\ P (run_queued sh n l).1.2.
Proof.
  induction l as [|[c tx] l IH]; intros sh n HP E Hn; [done|]. cbn [run_queued].
  destruct (run_command_poisoned P sh n c HP E Hn) as [E1 H1]. destruct (run_command sh n c) as [[sh1 n1] r]. cbn in E1, H1. subst sh1.
  rewrite (drive_cw_poisoned _ _ _ E). specialize (IH sh n1 HP E H1). by destruct (run_queued sh n1 l) as [[? ?] ?].
Qed.

(** Behind a poisoned lock the pump stops the keyer and does nothing else with
    CW: whatever survives ordinary commands, readings and a stop survives its
    cycle, whatever is queued and whatever the supervisor had planned; and the
    lock stays poisoned. *)
Theorem poisoned_pump_only_stops P lc sh n p interval :
  kept_without_cw P -> sh.(sh_cw) = Poisoned -> P n ->
  let '(sh', n', _, _, _) := pump_once lc sh n p interval in sh'.(sh_cw) = Poisoned /\ P n'.
Proof.
  intros HP E Hn. unfold pump_once.
  assert (E1 : (check_cw lc sh n p).1.(sh_cw) = Poisoned).
  { unfold check_cw. destruct (cw_checked p); [done|]. cbn. repeat case_match; try done. unfold enable_cw. by rewrite E. }
  destruct (check_cw lc sh n p) as [sh1 p1]. cbn in E1. rewrite E1.
  assert (H2 : (stop_after_poison sh1 n p1).1.1.(sh_cw) = Poisoned /\ P (stop_after_poison sh1 n p1).1.2).
  { unfold stop_after_poison. destruct (_ && _); cbn; [done|]. split; [done|]. destruct (has_cw n); [by apply kw_stop|done]. }
  destruct (stop_after_poison sh1 n p1) as [[sh2 n2] p2]. cbn in H2. destruct H2 as [E2 H2].
  rewrite (drive_cw_poisoned _ _ _ E2). destruct (take_queued (queue sh2)) as [q queued].
  destruct (run_queued_poisoned P queued (set_traffic sh2 sh2.(consoles) sh2.(sh_cache) q) n2 HP E2 H2) as [E3 H3].
  destruct (run_queued _ n2 queued) as [[sh3 n3] results]. cbn in E3, H3. subst sh3.
  unfold cw_live, cw_query. cbn [sh_cw set_traffic]. rewrite E2. done.
Qed.
End PumpRuns.

(** ** The wait of a console *)

(** A console told that its arm will be released may keep it: between the end
    of its wait and the end of its receiver the pump's answer is delivered, to
    nobody, and the arm is not released. *)
Theorem timed_out_arm_kept sh s ticket owner now :
  sh.(sh_cw) = Present s -> s.(notices) = [CwSupervisor.Reply ticket (Ok tt)] ->
  sh.(cw_waiters) !! ticket = Some (mk_CwWaiter owner true TimedOut) ->
  (take_cw_notices sh now).(sh_cw) = Present (set_notices s []).
Proof.
  intros E En Ew. unfold take_cw_notices, take_notices, route_cw_notices. rewrite E, En.
  cbn [route_all route_notice]. cbn [cw_waiters set_slot]. rewrite Ew. done.
Qed.
