(* ===== verification/HostExamples.v ===== *)
(** * HostExamples: the native bridge with a radio on the bench

    A radio that keeps its two registers and the text it was handed, a run of
    the bridge in which a console arms it, and the theorems of [Host] at the
    states of that run. *)

From stdpp Require Import relations.
From S2P Require Import Prelude Text Framework Client Tcp Layout Installation Capabilities NativeTypes NativeMessages NativeFrames NativeSession NativeServer CwSupervisor Register CwSafety CwTheorems Rigctl Shared CwExamples Host.

Record BenchRadio : Type := mk_BenchRadio { bench_regs : Radio; handed : list text; stops : nat }.
Definition with_regs (n : BenchRadio) (r : Radio) : BenchRadio := mk_BenchRadio r n.(handed) n.(stops).

#[export] Instance bench_native : NativeRadio BenchRadio := {|
  nr_now _ := from_secs 1;
  nr_state n := (n, Some bench_state);
  nr_apply n _ := (n, Ok tt);
  nr_levels n := (n, None);
  has_cw _ := true;
  cw_status n := (n, Ok (mk_CwStatus true false (Some 20)));
  cw_settings n := (n, None);
  set_keyer_wpm n _ := (n, Ok tt);
  power_raw n := (n, Ok n.(bench_regs).(r_power));
  set_power_raw n p := (with_regs n (mk_Radio p n.(bench_regs).(r_break_in)), Ok tt);
  break_in n := (n, Ok n.(bench_regs).(r_break_in));
  set_break_in n k := (with_regs n (mk_Radio n.(bench_regs).(r_power) k), Ok tt);
  cw_ready n := (n, Ok true);
  send_chunk n t := (mk_BenchRadio n.(bench_regs) (n.(handed) ++ [t]) n.(stops), Ok tt);
  cw_stop n := (mk_BenchRadio n.(bench_regs) n.(handed) (S n.(stops)), Ok tt) |}.

#[export] Instance bench_native_laws : NativeRadioLaws BenchRadio.
Proof.
  refine {| regs := bench_regs |}; intros; cbn; try done.
  - split; [done|]. by intros p [= <-].
  - split; [done|]. by intros p [= <-].
Defined.

Definition quiet_radio : BenchRadio := mk_BenchRadio (mk_Radio 40 Full) [] 0.
Definition bench_start : HostWorld BenchRadio := host_start bench_radio stop_radio quiet_radio.

(** A console asks for the arm, and the pump runs one round of the supervisor. *)
Definition asked : NativeShared :=
  (apply_cw bench_start.(hw_shared) alice (ArmCwTransmit (txt "W1AW") true None) (from_secs 1)).1.
Definition armed_host : HostWorld BenchRadio :=
  mk_HostWorld (drive_cw MAX_CW_STEPS asked quiet_radio).1 (drive_cw MAX_CW_STEPS asked quiet_radio).2 Resting
    (mk_Ledger (home_of_radio quiet_radio.(bench_regs)) false).

Lemma armed_host_reachable : rtc host_step bench_start armed_host.
Proof. eapply rtc_l; [apply h_command|]. apply (drive_cw_steps _ MAX_CW_STEPS asked quiet_radio). Qed.

Example armed_host_state :
  armed_host.(hw_radio).(bench_regs) = mk_Radio 0 Semi /\ radio_before armed_host.(hw_ledger).(l_home) = mk_Radio 40 Full
  /\ cw_settled armed_host.(hw_shared) = false.
Proof. vm_compute. done. Qed.

(** A speed set while armed is refused, and is not queued. *)
Example speed_refused_while_armed :
  (apply_cw armed_host.(hw_shared) alice (SetKeyerSpeed 30) (from_secs 1)).2
  = Answers (Err (mk_HostRefusal Forbidden not_now)).
Proof. vm_compute. reflexivity. Qed.

Lemma bridge_keeps_cw_promises_witness :
  ~ given_back armed_host.(hw_ledger).(l_home) (regs armed_host.(hw_radio))
  /\ external_ptt_blocked armed_host.(hw_shared) = true.
Proof.
  assert (Hne : ~ given_back armed_host.(hw_ledger).(l_home) (regs armed_host.(hw_radio))).
  { assert (E : (regs armed_host.(hw_radio)).(r_power) = 0) by (vm_compute; reflexivity).
    intros [[H|H] _]; rewrite E in H; [discriminate H|inversion H]. }
  split; [exact Hne|].
  exact (proj1 (proj2 (bridge_keeps_cw_promises bench_radio stop_radio quiet_radio armed_host armed_host_reachable)) Hne).
Defined.

(** A poisoned lock with a message still to send. *)
Definition poisoned_shared : NativeShared := set_slot armed_host.(hw_shared) Poisoned.

Lemma nothing_handed_kept : kept_without_cw (fun n : BenchRadio => n.(handed) = []).
Proof. split; done. Qed.

Lemma poisoned_pump_only_stops_witness :
  (pump_once (fun _ => false) poisoned_shared quiet_radio pump_default (from_secs 1)).1.1.1.2.(handed) = [].
Proof.
  pose proof (poisoned_pump_only_stops (fun n : BenchRadio => n.(handed) = []) (fun _ => false) poisoned_shared quiet_radio
    pump_default (from_secs 1) nothing_handed_kept eq_refl eq_refl) as H.
  destruct (pump_once (fun _ => false) poisoned_shared quiet_radio pump_default (from_secs 1)) as [[[[sh n] p] r] w].
  exact (proj2 H).
Defined.

(** ... and the keyer has been told to stop, once. *)
Example poisoned_pump_stops_once :
  let '(sh, n, p, _, _) := pump_once (fun _ => false) poisoned_shared quiet_radio pump_default (from_secs 1) in
  n.(stops) = 1%nat
  /\ (pump_once (fun _ => false) sh n p (from_secs 1)).1.1.1.2.(stops) = 1%nat.
Proof. vm_compute. done. Qed.

(** The arm of a console that gave up just before the answer came. *)
Definition late_shared : NativeShared :=
  set_waiters (set_slot bench_start.(hw_shared)
                 (Present (set_notices (cw_new stop_radio default_config) [CwSupervisor.Reply 0 (Ok tt)])))
    {[ 0 := mk_CwWaiter alice true TimedOut ]}.
Lemma timed_out_arm_kept_witness :
  (take_cw_notices late_shared 0).(sh_cw)
  = Present (set_notices (set_notices (cw_new stop_radio default_config) [CwSupervisor.Reply 0 (Ok tt)]) []).
Proof. exact (timed_out_arm_kept late_shared _ 0 alice 0 eq_refl eq_refl eq_refl). Defined.

(** A whole run of it: the console is told that its arm will be released, the
    pump finishes arming, and the arm is held.  Had its receiver been gone, the
    radio would be on its way back. *)
Definition the_ticket : Z := 1.
Example timed_out_console_holds_arm :
  (apply_cw bench_start.(hw_shared) alice (ArmCwTransmit (txt "W1AW") true None) (from_secs 1)).2 = Waits the_ticket
  /\ cw_query (drive_cw MAX_CW_STEPS (stop_waiting asked the_ticket TimedOut) quiet_radio).1 None None
       (fun s => armed_state s alice) = Some (mk_ArmedState (txt "W1AW") 0 true)
  /\ cw_query (drive_cw MAX_CW_STEPS (stop_waiting asked the_ticket ReceiverGone) quiet_radio).1 None None
       (fun s => armed_state s alice) = None.
Proof. vm_compute. done. Qed.
