(* ===== verification/CwPanel.v ===== *)
(** * CwPanel: what a console says about CW (cat-ui/src/cw.rs)

    The panel's lines and the status strip, and what they say of the
    supervisor behind them. *)

From Stdlib Require Import Floats.SpecFloat.
From S2P Require Import Prelude Text Framework Client Tcp Morse Timing Floats Layout Installation Capabilities NativeTypes NativeMessages CwSupervisor Register CwSafety CwTheorems Rigctl Shared CwExamples Host HostExamples.

Inductive Tone : Type := ToneQuiet | ToneNormal | ToneActive | ToneWarning | ToneAlarm.
#[export] Instance Tone_eq_dec : EqDecision Tone.
Proof. solve_decision. Defined.
Record CwLine : Type := mk_CwLine { line_label : string; line_text : message; line_tone : Tone }.
Record CwPanel : Type := mk_CwPanel {
  settings_line : CwLine; arm_line : CwLine; sender_line : CwLine; progress : option f32; live : bool;
  alert : option message; owed : option message }.

(** [{:?}] of a break-in in lower case. *)
Definition break_in_word (b : BreakInKind) : string :=
  match b with BreakOff => "off" | Semi => "semi" | Full => "full" end%string.
Definition settings_of (st : CwState) : CwLine :=
  mk_CwLine "CW"
    ((match st.(cw_pitch_hz) with Some hz => [PInt hz; PStr " Hz"] | None => [PStr "— Hz"] end)
     ++ [PStr " · "]
     ++ (match st.(cw_keyer_wpm) with Some w => [PInt w; PStr " wpm"] | None => [PStr "— wpm"] end)
     ++ [PStr " · break-in "]
     ++ (match st.(cw_break_in) with Some b => [PStr (break_in_word b)] | None => [PStr "—"] end))
    ToneNormal.

Definition power_text (a : ArmedState) (cap : option CwCapabilityWire) : message :=
  match cap ≫= wire_tx_gate with
  | Some gate => if gate.(wire_low_power_raw) =? a.(armed_power_raw) then [PStr gate.(wire_low_power_label)]
                 else [PStr "power "; PInt a.(armed_power_raw)]
  | None => [PStr "power "; PInt a.(armed_power_raw)]
  end.
Definition arm_of (st : CwState) (cap : option CwCapabilityWire) : CwLine :=
  match st.(cw_armed) with
  | None => mk_CwLine "TX" [PStr "not armed"] ToneQuiet
  | Some a =>
      if a.(armed_mine)
      then mk_CwLine "TX" ([PStr "ARMED by this console · "; PText a.(armed_callsign); PStr " · "] ++ power_text a cap) ToneActive
      else mk_CwLine "TX" ([PStr "armed by another console · "; PText a.(armed_callsign); PStr " · "] ++ power_text a cap) ToneWarning
  end.

Definition is_live_sender (s : SenderState) : bool :=
  match s with SenderSending _ _ _ | SenderDraining _ => true | _ => false end.
Definition stop_words (r : StopReason) : string * Tone :=
  match r with
  | Completed => ("sent", ToneNormal) | Aborted => ("aborted", ToneNormal)
  | StopKeyDownCap => ("stopped by the key-down cap", ToneWarning)
  | StopDisconnected => ("stopped: its console disconnected", ToneWarning)
  | StopError => ("stopped by an error", ToneWarning)
  end%string.
Definition fraction (sent_chars total_chars : Z) : f32 :=
  if total_chars =? 0 then F32.of_Z 0
  else F64.clamp (F32.div (F32.of_Z sent_chars) (F32.of_Z total_chars)) (F32.of_Z 0) (F32.of_Z 1).
Definition sender_of (s : SenderState) : CwLine * option f32 :=
  match s with
  | SenderIdle => (mk_CwLine "SEND" [PStr "idle"] ToneQuiet, None)
  | SenderSending job sent total =>
      (mk_CwLine "SEND" [PStr "sending #"; PInt job; PStr " · "; PInt sent; PStr "/"; PInt total] ToneActive,
       Some (fraction sent total))
  | SenderDraining job =>
      (mk_CwLine "SEND" [PStr "stopping #"; PInt job; PStr " · the radio is finishing its buffer"] ToneWarning, None)
  | SenderStopped job reason m =>
      let '(what, tone) := stop_words reason in
      (mk_CwLine "SEND" ([PStr "#"; PInt job; PStr " "; PStr what] ++ match m with Some m => PStr ": " :: m | None => [] end) tone, None)
  end.
Definition alert_of (r : RestoreStatus) : message :=
  [PStr "CW RESTORE FAILED ("; PInt r.(rs_attempts); PStr " ";
   PStr (if r.(rs_attempts) =? 1 then "attempt" else "attempts"); PStr "): "] ++ r.(rs_last_error)
  ++ [PStr " — power or break-in is NOT back as it was; check the radio before transmitting. The server keeps retrying."].
Definition owed_of (call : text) : message :=
  [PStr "ID OWED: "; PText call; PStr " keyed text and its ID was cut short -- identify by hand"].

Definition panel_new (st : CwState) (cap : option CwCapabilityWire) : CwPanel :=
  let '(sender, progress) := sender_of st.(cw_sender) in
  mk_CwPanel (settings_of st) (arm_of st cap) sender progress (is_live_sender st.(cw_sender))
    (alert_of <$> st.(cw_restore)) (owed_of <$> st.(cw_id_owed)).

Definition status (p : CwPanel) : option (message * Tone) :=
  match p.(alert) with
  | Some a => Some (a, ToneAlarm)
  | None =>
      if p.(live) then Some (PStr "CW " :: p.(sender_line).(line_text), p.(sender_line).(line_tone))
      else match p.(owed) with
           | Some o => Some (o, ToneWarning)
           | None => if negb (bool_decide (p.(arm_line).(line_tone) = ToneQuiet))
                     then Some (PStr "CW " :: p.(arm_line).(line_text), p.(arm_line).(line_tone)) else None
           end
  end.
Definition panel_lines (p : CwPanel) : list CwLine := [p.(settings_line); p.(arm_line); p.(sender_line)].

(** ** Facts *)

Lemma arm_quiet st cap : line_tone (arm_of st cap) = ToneQuiet <-> st.(cw_armed) = None.
Proof. unfold arm_of. destruct (cw_armed st) as [a|]; [|done]. destruct (armed_mine a); done. Qed.
Lemma sender_not_alarm s : line_tone (sender_of s).1 <> ToneAlarm.
Proof. destruct s as [| | |job [] m]; done. Qed.
Lemma arm_not_alarm st cap : line_tone (arm_of st cap) <> ToneAlarm.
Proof. unfold arm_of. destruct (cw_armed st) as [a|]; [|done]. by destruct (armed_mine a). Qed.

(** What the status strip says: the alarm exactly when a restore has failed,
    ahead of anything else; nothing exactly when nothing is armed, keyed,
    owed or failed; and a progress is between nothing and everything. *)
Lemma status_alarm st cap : (exists t, status (panel_new st cap) = Some (t, ToneAlarm)) <-> is_Some st.(cw_restore).
Proof.
  unfold panel_new, status. destruct (sender_of (cw_sender st)) as [l pr] eqn:Es. cbn [alert live owed sender_line arm_line].
  destruct (cw_restore st) as [r|]; cbn [fmap option_fmap option_map]; [split; eauto|].
  split; [|by intros [? ?]]. intros (t & Ht). pose proof (sender_not_alarm (cw_sender st)) as Hs. rewrite Es in Hs.
  pose proof (arm_not_alarm st cap). repeat case_match; naive_solver.
Qed.
Lemma status_none st cap :
  status (panel_new st cap) = None <->
  st.(cw_restore) = None /\ is_live_sender st.(cw_sender) = false /\ st.(cw_id_owed) = None /\ st.(cw_armed) = None.
Proof.
  unfold panel_new, status. destruct (sender_of (cw_sender st)) as [l pr]. cbn [alert live owed sender_line arm_line].
  pose proof (arm_quiet st cap) as Ha. destruct (cw_restore st); [cbn; naive_solver|]. cbn [fmap option_fmap option_map].
  destruct (is_live_sender _); [naive_solver|]. destruct (cw_id_owed st); [cbn; naive_solver|]. cbn.
  case_bool_decide; cbn; naive_solver.
Qed.

(** C36. A console attached to the bridge is told the truth about the supervisor:
    its strip is an alarm exactly while a restore has failed at least once; it
    is blank exactly when no console holds the arm, nothing is being sent or
    stopped, no identification is owed and no restore has failed; and its arm
    line reads [ARMED by this console] with the call sign to the console that
    holds the arm, [armed by another console] with it to every other console,
    and [not armed] to all when nobody holds it, in the active tone to the
    holder alone. *)
Theorem panel_tells_supervisor sh s viewer st cap :
  sh.(sh_cw) = Present s -> cw_state_for sh viewer = Some st ->
  let p := panel_new st cap in
  ((exists t, status p = Some (t, ToneAlarm)) <-> is_Some (restore_status s))
  /\ (status p = None <-> s.(arm_held) = None /\ is_live_sender (sender s) = false /\ s.(id_owed) = None /\ restore_status s = None)
  /\ (match s.(arm_held) with
      | None => p.(arm_line).(line_text) = [PStr "not armed"]
      | Some a => exists rest, p.(arm_line).(line_text)
          = PStr (if bool_decide (a.(arm_owner) = viewer) then "ARMED by this console · " else "armed by another console · ")
            :: PText a.(arm_callsign) :: rest
      end)
  /\ (line_tone p.(arm_line) = ToneActive <-> exists a, s.(arm_held) = Some a /\ a.(arm_owner) = viewer).
Proof.
  intros Hs Hst. cbn zeta. unfold cw_state_for in Hst. rewrite Hs in Hst. apply (inj Some) in Hst. subst st.
  split; [apply status_alarm|]. split_and!; [rewrite status_none; cbn [cw_restore cw_sender cw_id_owed cw_armed]|..].
  - unfold armed_state. destruct (arm_held s); naive_solver.
  - unfold panel_new. destruct (sender_of _) as [l pr]. cbn [arm_line]. unfold arm_of. cbn [cw_armed]. unfold armed_state.
    destruct (arm_held s) as [a|]; cbn [fmap option_fmap option_map armed_mine armed_callsign]; [|done].
    case_bool_decide; cbn [line_text app]; eauto.
  - unfold panel_new. destruct (sender_of _) as [l pr]. cbn [arm_line]. unfold arm_of. cbn [cw_armed]. unfold armed_state.
    destruct (arm_held s) as [a|]; cbn [fmap option_fmap option_map armed_mine]; [|split; [done|naive_solver]].
    case_bool_decide; cbn; naive_solver.
Qed.
Lemma armed_host_holds_arm :
  exists s a, armed_host.(hw_shared).(sh_cw) = Present s /\ s.(arm_held) = Some a /\ a.(arm_owner) = alice.
Proof.
  assert (H : match armed_host.(hw_shared).(sh_cw) with
              | Present s => match s.(arm_held) with Some a => bool_decide (a.(arm_owner) = alice) | None => false end
              | _ => false
              end = true) by (vm_compute; reflexivity).
  destruct (sh_cw (hw_shared armed_host)) as [| |s]; try done. exists s. destruct (arm_held s) as [a|]; [|done].
  exists a. by apply bool_decide_eq_true in H.
Qed.
Lemma panel_tells_supervisor_witness :
  exists st, cw_state_for armed_host.(hw_shared) alice = Some st
  /\ (exists call rest, line_text (panel_new st None).(arm_line) = PStr "ARMED by this console · " :: PText call :: rest)
  /\ status (panel_new st None) <> None.
Proof.
  destruct armed_host_holds_arm as (s & a & Es & Ea & Eo).
  assert (Est : exists st, cw_state_for armed_host.(hw_shared) alice = Some st) by (unfold cw_state_for; rewrite Es; eauto).
  destruct Est as [st Est]. destruct (panel_tells_supervisor _ s alice st None Es Est) as (_ & Hn & Ht & _).
  exists st. split; [exact Est|]. rewrite Ea, bool_decide_eq_true_2 in Ht by exact Eo. destruct Ht as [rest Ht].
  split; [eauto|]. intros H. apply Hn in H as [H _]. congruence.
Defined.

(** A console that watches another one send shows the line in the tone kept
    for its own sending. *)
Example watcher_shown_active :
  status (panel_new (mk_CwState None None None (Some (mk_ArmedState (txt "W1AW") 5 false)) (SenderSending 1 2 10) None None) None)
  = Some ([PStr "CW "; PStr "sending #"; PInt 1; PStr " · "; PInt 2; PStr "/"; PInt 10], ToneActive).
Proof. reflexivity. Qed.
(** A station identification that is owed comes before the arm. *)
Example owed_before_arm :
  status (panel_new (mk_CwState None None None (Some (mk_ArmedState (txt "W1AW") 5 true)) SenderIdle None (Some (txt "W1AW"))) None)
  = Some (owed_of (txt "W1AW"), ToneWarning).
Proof. reflexivity. Qed.
